(* ===== verification/_CoqProject ===== *)
-Q . S2P
Prelude.v
Bits.v
Text.v
RtpRewrite.v
RtpSlot.v
SfuMedia.v
Signaling.v
RouterCommon.v
SendLoops.v
Delays.v
Samples.v
VoiceRouter.v
VoiceInvariant.v
VoiceFrames.v
VoiceProperties.v
ScreenRouter.v
ScreenInvariant.v
ScreenFrames.v
ScreenProperties.v
WriteQueue.v
MediaConnections.v
Transport.v
Server.v
ServerInvariant.v
ServerProperties.v
Url.v
Auth.v
Http.v
Startup.v
Proxy.v
Socket.v
Minisign.v
Manifest.v
Updater.v
Swap.v
SessionCommon.v
VoiceSession.v
Floats.v
Lifecycle.v
ClientVoice.v
ScreenStats.v
Playout.v
Capture.v
ClientScreen.v
ScreenControl.v
ScreenSharing.v
ScreenProgress.v
ScreenWatch.v
DesktopSource.v
PreviewSink.v
ScreenSession.v
ScreenSessionLife.v
ScreenServes.v
SignIn.v
Bridge.v
AppState.v
AppConnection.v
AppCall.v
AppSilence.v
AppData.v
AppWatch.v
Calls.v
AudioDevices.v
SystemAudio.v
LoopbackCapture.v
