(* ===== verification/Prelude.v ===== *)
(** * Driscord: a verification library for the signaling server, the SFU and the client's protocol code

    Driscord is a voice and screen-sharing application.  A C++ server
    (backend/signaling_server/src) keeps rooms of websocket sessions and forwards
    RTP between the members of a room (it is a selective forwarding unit); a C++
    client core (core/src) speaks to it.  This library translates the code that
    carries their logic into definitions of the same names and proves what makes
    each part correct.  The parts, bottom up:

    - Prelude: fixed-width integers ([wrap], [u8] .. [u64], [s16]), byte buffers
      whose out-of-range accesses are [None], tactics and generic lemmas.  Bits:
      bit fields.  Text: the [std::string_view], [<cctype>], [std::stoul] and
      [std::from_chars] operations the sources call, with their lemmas.

    - RtpRewrite, RtpSlot (rtp_slot_rewriter.cpp): the rewriting of one packet
      for a receive slot, and the numbering of a slot across the sources that
      follow each other in it.  Theorems: every byte access is inside the packet;
      everything but SSRC, numbers and mid is left alone; sequence numbers are
      continuous across sources; a retransmission keeps its number; a source is
      muted after 32768 packets (a bug of the code, see the findings).

    - SfuMedia (sfu_media_utils.cpp): the fault injector, the link model, the
      RTCP forwarding policy and the choice of a payload format.

    - Signaling (core/src/utils/signaling_protocol.cpp): messages, their JSON
      encoding and the validating decoder; encode and decode are inverse.
      nlohmann's text parser and printer are parameters.

    - RouterCommon, SendLoops, Delays: what the two routers share.  A router
      works in two halves: under its lock it computes targets, announcements and
      packets, and after it, on any thread, it sends.  [SendLoops.machine] runs
      the locked halves of a router and the pending send loops in any order.

    - VoiceRouter (voice_router.cpp), with its invariant in VoiceInvariant, frame
      lemmas in VoiceFrames and theorems in VoiceProperties; ScreenRouter
      (screen_router.cpp) with ScreenInvariant, ScreenFrames, ScreenProperties.
      Theorems: the state stays well formed; a packet only reaches slots that
      are bound to its publisher at the moment it is sent, with consent for
      screens; a slot is free only if nobody could use it; the announcements a
      peer received describe its slots; delivery reaches exactly the bound slots.

    - WriteQueue (Session's writer in ws_server.cpp, bounded_queue.hpp): one
      write at a time, in order, and nothing accepted is stuck.

    - MediaConnections (media_connections.cpp): every critical section and
      library callback is a step; no peer connection leaks, and one that was
      replaced is mute.

    - Transport (the messages a client receives) and Socket (the websocket's
      life) for core/src/transport.cpp; Proxy for core/src/utils/proxy_config.cpp.
      Theorems: the connection is announced truthfully, a configured proxy is
      never bypassed, NO_PROXY is matched as specified, proxy URLs are read back.

    - Server (rooms and handlers of ws_server.cpp), ServerInvariant,
      ServerProperties: [World] is the server with the clients that listen to it;
      handlers, packets, timers and send loops are its steps.  Theorems: rooms are
      sound; each client knows exactly the members, names and streams of its
      room; rooms are isolated; a watch request is answered exactly; a stopped
      server stays empty.

    - Url, Auth, Http, Startup (ws_server.cpp, api_authenticator.cpp, main.cpp):
      how a request becomes a session.  Theorems: escaped rooms and parameters are
      read back; an authorization is answered exactly once and truthfully;
      nobody passes an authenticated server without the API; a server without an
      authenticator starts only when the operator asked for it.

    - Minisign, Manifest, Updater, Swap (client-qt/src/update): the signature and
      the manifest of a release, the state machine that checks for, downloads and
      installs one, and the moves that put its files in place.  Theorems: only
      what a trusted key signed as a newer release is ever installed, whole if the
      disk took it whole (a truncated file is not noticed: a bug, see the findings);
      installing and rolling back lose no file, whichever disk operation fails; a success is
      complete; a failed install of files is undone.

    - VoiceSession (google_webrtc_voice_session.cpp) and ClientVoice
      (google_webrtc_client.cpp) under core/src/webrtc: the client's end of the
      voice connection, and the control that starts, stops and recovers it.  Both
      are cut at their critical sections and run interleaved; Lifecycle holds the
      invariant of "one session at a time" that such a client keeps.  Theorems: no
      connection, sink or session leaks, and there is at most one of each; the
      microphone and every remote track that a session announced follow the settings,
      in runs in which settings do not change while a thread is at work, and
      counterexamples show that they need not otherwise.

    - ClientScreen (the other half of google_webrtc_client.cpp) with ScreenControl,
      ScreenSharing, ScreenProgress and ScreenWatch: the client's end of the screen connection, cut in the same
      way: watching, sharing, the preview, recovery.  Capture reads and lists capture
      targets.  Theorems: there is at most one session, which is wanted, and its
      playout runs only with it; nothing of the user's screen or sound is captured
      or sent unless he shares or a thread is just starting or stopping it; its
      threads neither deadlock nor go on for ever (what is captured is the client's own
      account: that a capture ended by itself is known to DesktopSource only); the server is asked for the
      screens the user watches and no others, if calls that concern watching do not
      overlap (a counterexample shows that they must not).

    - ScreenSession (google_webrtc_screen_session.cpp and the sinks of
      google_webrtc_screen_adapters.cpp), the screen's counterpart of VoiceSession:
      SessionCommon has what the two share.  ScreenSessionLife: nothing of a session
      outlives it.  ScreenServes: it does what ClientScreen takes a session to do, so
      that what ClientScreen's theorems say of the user's screen holds of the tracks
      and of the capturer.  DesktopSource: the thread that captures the screen ends
      when it is told to, every frame is converted inside its buffers and keeps to
      the limits, rounding included.  PreviewSink: overlapping calls leave the sink
      where the last one wanted it.

    - Floats: IEEE binary32 and binary64 through Stdlib's SpecFloat, with [lround].
      ScreenStats (google_webrtc_screen_stats.cpp): the figures shown for a peer are
      what its streams gained since they were bound.  Playout
      (google_webrtc_pcm_playout.cpp): the queue between the thread that pushes and
      the device; what is played is what was queued.  Its handshake of two atomics is
      modelled with the older values that C++ lets their loads return: without such
      loads nothing races, with them a counterexample does.

    - SignIn (client-qt/src/api/AuthManager.cpp, SessionStore.cpp), Bridge
      (client-qt/src/app/DriscordBridge.cpp, core/src/driscord_core.cpp) and AppState
      (client-qt/src/app/AppState.cpp, the repositories): the application.  Bridge
      records what the media client is called for, and the signals that wait for the
      interface's thread; [AppState.act] is one call, reply or signal, or a step of
      another thread.  Theorems: a sign-in is never stuck and a late reply changes
      nothing; the server reads from the URL what the client means (Bridge);
      AppConnection: the connection and the peers that are shown are the
      transport's; AppCall: who is shown a call is in it, if he left the one before
      (a counterexample shows that he must); AppSilence, over ClientVoice and
      ClientScreen: who left is silent; AppWatch: the screens shown as watched are
      those the core was asked for; AppData: everyone is shown his own lists, and
      every change is announced.

    - Sound and devices.  SystemAudio (submit_system_audio in google_webrtc_client.cpp,
      the injected source of google_webrtc_runtime.cpp): samples become frames of ten
      milliseconds, queued for the library; Calls: computations that log the calls they
      make of a library; over it AudioDevices (google_webrtc_audio_devices.cpp) and
      LoopbackCapture (core/src/audio/capture).  Theorems: the frames sent are those
      captured, in order, whole and in range, rounding included; the entries of the
      device list are distinct, and choosing one later takes a device that is then what
      the entry was (its GUID, or its place among those of its name); a device is changed only while
      its stream is stopped, and a refusal ends on the old or the default one; a
      capture uses and releases what it holds and nothing else.

    State and operations correspond by name: a [Record] for a class's members, a
    definition per method, a definition per critical section where a method has
    several; accessors that the code writes inline have a name of their own.
    Exceptions that end the process, and undefined behaviour, are [None].  Threads
    interleave at their critical sections; atomics are sequentially consistent but for
    the two of Playout that meet in a handshake (the routers' relaxed counters order
    nothing).

    Bounds and fuel: integers are [Z] and wrapped where the code's types wrap;
    counters the code cannot exhaust in practice are hypotheses of the theorems
    that need them ([switches < 2^64] in the isolation theorems).  Fuel occurs in
    the walks of [RtpRewrite], [Url.query_loop], [Proxy.no_proxy_loop] and [Text.to_digits], always as the
    length of the input or more, and in [Bridge.drain_audio], three steps a task;
    their specifications hold for every input, so the fuel is enough.

    Parameters: JSON text, the WebRTC and websocket libraries, Ed25519 and the
    digests, base64, Qt's [trimmed] and [toPercentEncoding], the network, the disk, the
    environment, iteration order of the unordered containers ([IterationOrder])
    and the byte-level classification of RTCP ([Platform]).

    Not modelled: the lifting of WebRTC's statistics and the glue to its runtime;
    the application's settings, windows, images and start (AppConfig.cpp, main.cpp),
    the parsing of HTTP replies by Qt, the removal of old update directories; the lists of
    PulseAudio's outputs, capture on macOS, logging, TLS bundles, the REST API, build files and tests (I/O, glue, or another language).  Handlers of the
    server run one at a time because one thread runs [io.run] (main.cpp);
    registering a track is atomic here, and takes any owner, because it arrives on
    a library thread. *)

From Stdlib Require Export ZArith Lia.
From stdpp Require Export base tactics numbers option list list_numbers fin_maps gmap strings sorting.

Set Default Goal Selector "!".

Declare Scope driscord_scope.
Delimit Scope driscord_scope with driscord.
Open Scope driscord_scope.

(** ** Fixed-width integers *)

(** [wrap w z] is the value an unsigned [w]-bit integer holds after [z] is
    stored in it. *)
Definition wrap (w z : Z) : Z := z mod 2 ^ w.

Definition u8 (z : Z) : Z := wrap 8 z.
Definition u16 (z : Z) : Z := wrap 16 z.
Definition u32 (z : Z) : Z := wrap 32 z.
Definition u64 (z : Z) : Z := wrap 64 z.

(** [static_cast<int16_t>]: two's complement, as C++20 requires. *)
Definition s16 (z : Z) : Z :=
  let r := u16 z in if (r <? 2 ^ 15)%Z then r else (r - 2 ^ 16)%Z.

Definition is_u (w z : Z) : Prop := (0 <= z < 2 ^ w)%Z.

Create HintDb driscord.

Lemma wrap_range w z : (0 <= w)%Z -> is_u w (wrap w z).
Proof. intros Hw. apply Z.mod_pos_bound, Z.pow_pos_nonneg; lia. Qed.

Lemma wrap_small w z : is_u w z -> wrap w z = z.
Proof. intros Hz. by apply Z.mod_small. Qed.

Lemma wrap_eqm w a b : (0 <= w)%Z -> wrap w a = wrap w b <-> exists k, a = (b + k * 2 ^ w)%Z.
Proof.
  intros Hw. unfold wrap.
  assert (2 ^ w <> 0)%Z as Hnz by (apply Z.pow_nonzero; lia).
  split.
  - intros Heq. exists (a / 2 ^ w - b / 2 ^ w)%Z.
    pose proof (Z.div_mod a (2 ^ w) Hnz). pose proof (Z.div_mod b (2 ^ w) Hnz). lia.
  - intros [k ->]. by apply Z_mod_plus_full.
Qed.

Lemma wrap_add_l w a b : wrap w (wrap w a + b) = wrap w (a + b).
Proof. unfold wrap. by rewrite Zplus_mod_idemp_l. Qed.
Lemma wrap_add_r w a b : wrap w (a + wrap w b) = wrap w (a + b).
Proof. unfold wrap. by rewrite Zplus_mod_idemp_r. Qed.
Lemma wrap_sub_l w a b : wrap w (wrap w a - b) = wrap w (a - b).
Proof. unfold wrap. by rewrite Zminus_mod_idemp_l. Qed.
Lemma wrap_sub_r w a b : wrap w (a - wrap w b) = wrap w (a - b).
Proof. unfold wrap. by rewrite Zminus_mod_idemp_r. Qed.
Lemma wrap_wrap w a : wrap w (wrap w a) = wrap w a.
Proof. unfold wrap. by rewrite Zmod_mod. Qed.

#[export] Hint Rewrite wrap_add_l wrap_add_r wrap_sub_l wrap_sub_r wrap_wrap : driscord.
#[export] Hint Resolve wrap_range wrap_small : driscord.

(** Pushes every inner wrap-around out of a sum. *)
Ltac wrap_simpl := unfold u8, u16, u32, u64 in *; autorewrite with driscord in *.

(** ** Byte buffers *)

(** [rtc::binary] is [std::vector<std::byte>]; a byte is its value. *)
Abbreviation bytes := (list Z) (only parsing).

Definition is_byte (b : Z) : Prop := (0 <= b < 256)%Z.
Definition wf_bytes (p : bytes) : Prop := Forall is_byte p.

(** An access outside the vector is undefined behaviour; the model makes it
    the value [None], so that memory safety is a theorem. *)
Definition byte_at (p : bytes) (off : nat) : option Z := p !! off.

Definition set_byte (p : bytes) (off : nat) (b : Z) : option bytes :=
  if decide (off < length p) then Some (<[off := b]> p) else None.

(** [std::fill] over [[first, last)] with the zero byte. *)
Definition fill_zero (p : bytes) (first last : nat) : option bytes :=
  if decide (first <= last <= length p)
  then Some (take first p ++ replicate (last - first) 0%Z ++ drop last p)
  else None.

Lemma byte_at_lt p off : off < length p -> exists b, byte_at p off = Some b.
Proof. intros Hlt. apply lookup_lt_is_Some_2 in Hlt as [b Hb]. by exists b. Qed.

Lemma byte_at_is_byte p off b : wf_bytes p -> byte_at p off = Some b -> is_byte b.
Proof. intros Hp Hb. by eapply Forall_lookup_1. Qed.

Lemma fill_zero_app pre mid post :
  fill_zero (pre ++ mid ++ post) (length pre) (length pre + length mid)
  = Some (pre ++ replicate (length mid) 0%Z ++ post).
Proof.
  unfold fill_zero. rewrite decide_True.
  2: { rewrite !length_app. lia. }
  rewrite take_app_length, (app_assoc pre mid post), <- length_app, drop_app_length.
  rewrite length_app. by replace (length pre + length mid - length pre) with (length mid) by lia.
Qed.

Lemma is_byte_u8 z : is_byte (u8 z).
Proof. apply (wrap_range 8 z). lia. Qed.

Lemma is_byte_0 : is_byte 0.
Proof. unfold is_byte. lia. Qed.

#[export] Hint Resolve is_byte_u8 is_byte_0 : driscord.

(** ** Options used as an undefined-behaviour monad *)

Lemma bind_Some_inv {A B} (m : option A) (k : A -> option B) b :
  m ≫= k = Some b -> exists a, m = Some a /\ k a = Some b.
Proof. destruct m as [a |]; simpl; [by exists a | done]. Qed.

(** Opens every successful bind of the context. *)
Ltac bind_inv :=
  repeat match goal with
  | H : (_ ≫= _) = Some _ |- _ =>
      let a := fresh "a" in let Ha := fresh "Ha" in
      apply bind_Some_inv in H as (a & Ha & H)
  | H : Some _ = Some _ |- _ => injection H as H; subst
  | H : (_, _) = (_, _) |- _ => injection H; clear H; intros; subst
  end.

(** Splits the matches at the head of an equation, outermost first. *)
Ltac case_in H :=
  repeat match type of H with
  | match decide ?P with _ => _ end = _ => destruct (decide P)
  | match ?x with _ => _ end = _ => destruct x eqn:?
  end; try discriminate; try done.

(** Rewrites the goal with the boolean tests already decided. *)
Ltac use_tests :=
  repeat match goal with
  | H : ?b = true |- context [?b] => rewrite H
  | H : ?b = false |- context [?b] => rewrite H
  end.

(** ** Loops *)

Lemma foldl_inv {A B} (P : A -> Prop) (f : A -> B -> A) l : forall a,
  P a -> (forall a x, P a -> P (f a x)) -> P (foldl f a l).
Proof. induction l as [| x l IH]; intros a Ha Hf; [done |]. apply IH; auto. Qed.

(** An invariant that also knows which elements are still to come. *)
Lemma foldl_inv_rest {A B} (P : list B -> A -> Prop) (f : A -> B -> A) l : forall a,
  P l a -> (forall a x rest, P (x :: rest) a -> P rest (f a x)) -> P [] (foldl f a l).
Proof. induction l as [| x l IH]; intros a Ha Hf; [done |]. apply IH; auto. Qed.

(** ** Filters that keep everything or nothing *)

Lemma filter_keep {A} (P : A -> Prop) `{forall x, Decision (P x)} l : Forall P l -> filter P l = l.
Proof.
  induction 1 as [| x l Hx _ IH]; [done |]. by rewrite filter_cons, decide_True, IH.
Qed.

Lemma filter_drop {A} (P : A -> Prop) `{forall x, Decision (P x)} l :
  Forall (fun x => ~ P x) l -> filter P l = [].
Proof.
  induction 1 as [| x l Hx _ IH]; [done |]. by rewrite filter_cons, decide_False, IH.
Qed.

Lemma concat_perm {A} (l l' : list (list A)) : l ≡ₚ l' -> concat l ≡ₚ concat l'.
Proof. induction 1; simpl; [done | by f_equiv | by rewrite !app_assoc, (Permutation_app_comm y x) | by etrans]. Qed.
