(* ===== verification/Bits.v ===== *)
(** * Bit facts the byte-level code relies on

    Pure facts about [Z] bit operations, proved once by bit blasting and used by
    the RTP rewriter and the URL codec. *)

From Stdlib Require Import ZArith Lia.
From coqutil Require Import Z.bitblast.

Local Open Scope Z_scope.

Lemma join_u16 v :
  Z.lor (Z.shiftl (Z.land (Z.shiftr v 8) 255) 8) (Z.land v 255) = v mod 2 ^ 16.
Proof. change 255 with (Z.ones 8). rewrite <- Z.land_ones by lia. Z.bitblast. Qed.

Lemma join_u32 v :
  Z.lor (Z.lor (Z.lor (Z.shiftl (Z.land (Z.shiftr v 24) 255) 24)
                      (Z.shiftl (Z.land (Z.shiftr v 16) 255) 16))
               (Z.shiftl (Z.land (Z.shiftr v 8) 255) 8))
        (Z.land v 255)
  = v mod 2 ^ 32.
Proof. change 255 with (Z.ones 8). rewrite <- Z.land_ones by lia. Z.bitblast. Qed.

Lemma byte_land_255 v : 0 <= Z.land v 255 < 256.
Proof. change 255 with (Z.ones 8). rewrite Z.land_ones by lia. apply Z.mod_pos_bound; lia. Qed.

Lemma byte_land_mod b : 0 <= b < 256 -> b = Z.land b 255.
Proof.
  intros Hb. change 255 with (Z.ones 8). rewrite Z.land_ones by lia.
  symmetry. apply Z.mod_small. lia.
Qed.

Lemma land_ones_range x n : 0 <= n -> x = Z.land x (Z.ones n) -> 0 <= x < 2 ^ n.
Proof.
  intros Hn ->. rewrite Z.land_ones by lia. apply Z.mod_pos_bound, Z.pow_pos_nonneg; lia.
Qed.

Lemma join_u16_range hi lo :
  0 <= hi < 256 -> 0 <= lo < 256 -> 0 <= Z.lor (Z.shiftl hi 8) lo < 2 ^ 16.
Proof.
  intros Hhi Hlo. apply land_ones_range; [lia |].
  rewrite (byte_land_mod hi), (byte_land_mod lo) by lia.
  change 255 with (Z.ones 8). Z.bitblast.
Qed.

Lemma join_u32_range b0 b1 b2 b3 :
  0 <= b0 < 256 -> 0 <= b1 < 256 -> 0 <= b2 < 256 -> 0 <= b3 < 256 ->
  0 <= Z.lor (Z.lor (Z.lor (Z.shiftl b0 24) (Z.shiftl b1 16)) (Z.shiftl b2 8)) b3 < 2 ^ 32.
Proof.
  intros H0 H1 H2 H3. apply land_ones_range; [lia |].
  rewrite (byte_land_mod b0), (byte_land_mod b1), (byte_land_mod b2), (byte_land_mod b3) by lia.
  change 255 with (Z.ones 8). Z.bitblast.
Qed.

(** The flags byte of an RTP header with the padding bit (0x20) cleared. *)
Lemma clear_padding_bit b : Z.land (Z.land b (Z.lnot 32)) 32 = 0.
Proof. rewrite <- Z.land_assoc. change (Z.land (Z.lnot 32) 32) with 0. apply Z.land_0_r. Qed.

Lemma clear_padding_csrc b : Z.land (Z.land b (Z.lnot 32)) 15 = Z.land b 15.
Proof. rewrite <- Z.land_assoc. reflexivity. Qed.

Lemma clear_padding_extension b : Z.land (Z.land b (Z.lnot 32)) 16 = Z.land b 16.
Proof. rewrite <- Z.land_assoc. reflexivity. Qed.

Lemma clear_padding_version b : Z.shiftr (Z.land b (Z.lnot 32)) 6 = Z.shiftr b 6.
Proof. rewrite Z.shiftr_land. change (Z.shiftr (Z.lnot 32) 6) with (-1). apply Z.land_m1_r. Qed.

Lemma clear_padding_id b : Z.land b 32 = 0 -> Z.land b (Z.lnot 32) = b.
Proof.
  intros Hb. rewrite <- Z.ldiff_land. rewrite <- (Z.lor_ldiff_and b 32) at 2.
  rewrite Hb. symmetry. apply Z.lor_0_r.
Qed.

Lemma clear_padding_byte b : 0 <= b < 256 -> 0 <= Z.land b (Z.lnot 32) < 256.
Proof.
  intros Hb. rewrite (byte_land_mod b) by lia.
  rewrite <- Z.land_assoc, (Z.land_comm 255), Z.land_assoc. apply byte_land_255.
Qed.
