(* ===== verification/Text.v ===== *)
(** * Text primitives of the C++ standard library

    The [std::string_view], [<cctype>] and [std::stoul] operations the URL,
    proxy and configuration code is written with, over lists of characters in
    the C locale.  The standard library is modelled because the source relies on
    its exact behaviour. *)

From Stdlib Require Export Ascii.
From S2P Require Import Prelude.

Abbreviation text := (list ascii) (only parsing).

Definition chars (s : string) : text := String.list_ascii_of_string s.
Definition of_chars (t : text) : string := String.string_of_list_ascii t.

Lemma of_chars_chars s : of_chars (chars s) = s.
Proof. apply String.string_of_list_ascii_of_string. Qed.
Lemma chars_of_chars t : chars (of_chars t) = t.
Proof. apply String.list_ascii_of_string_of_list_ascii. Qed.

(** The value of a character as [unsigned char]. *)
Definition code (c : ascii) : Z := Z.of_nat (nat_of_ascii c).
Definition char_of (z : Z) : ascii := ascii_of_nat (Z.to_nat (u8 z)).

Lemma code_range c : (0 <= code c < 256)%Z.
Proof. unfold code. pose proof (nat_ascii_bounded c). lia. Qed.

Lemma char_of_code c : char_of (code c) = c.
Proof.
  unfold char_of, u8. rewrite wrap_small by (apply code_range).
  unfold code. rewrite Nat2Z.id. apply ascii_nat_embedding.
Qed.

(** ** Character classes *)

Definition in_range (lo hi : Z) (c : ascii) : bool := ((lo <=? code c) && (code c <=? hi))%Z.

Definition isdigit (c : ascii) : bool := in_range 48 57 c.
Definition isspace (c : ascii) : bool := in_range 9 13 c || Z.eqb (code c) 32.
Definition iscntrl (c : ascii) : bool := in_range 0 31 c || Z.eqb (code c) 127.
Definition tolower (c : ascii) : ascii := if in_range 65 90 c then char_of (code c + 32) else c.

Definition to_lower (t : text) : text := map tolower t.

Lemma tolower_idem c : tolower (tolower c) = tolower c.
Proof. destruct c as [[] [] [] [] [] [] [] []]; vm_compute; reflexivity. Qed.

Lemma to_lower_idem t : to_lower (to_lower t) = to_lower t.
Proof. induction t as [| c t IH]; [done |]. simpl. by rewrite tolower_idem, IH. Qed.

(** ** Searching: [npos] is [None] *)

Fixpoint find_if (P : ascii -> bool) (t : text) : option nat :=
  match t with
  | [] => None
  | c :: t => if P c then Some 0 else S <$> find_if P t
  end.

Definition is_char (c d : ascii) : bool := Ascii.eqb d c.
Definition find_char (c : ascii) (t : text) : option nat := find_if (is_char c) t.

(** [rfind]: the last occurrence. *)
Fixpoint rfind_char (c : ascii) (t : text) : option nat :=
  match t with
  | [] => None
  | d :: t =>
    match rfind_char c t with
    | Some i => Some (S i)
    | None => if Ascii.eqb d c then Some 0 else None
    end
  end.

Definition starts_with (prefix t : text) : bool :=
  bool_decide (take (length prefix) t = prefix).
Definition ends_with (suffix t : text) : bool :=
  bool_decide (length suffix <= length t) && bool_decide (drop (length t - length suffix) t = suffix).

(** [find] of a substring. *)
Fixpoint find_sub (needle t : text) : option nat :=
  if starts_with needle t then Some 0
  else match t with
       | [] => None
       | _ :: t => S <$> find_sub needle t
       end.

Fixpoint drop_while (P : ascii -> bool) (t : text) : text :=
  match t with
  | [] => []
  | c :: t' => if P c then drop_while P t' else t
  end.

(** [remove_suffix] while the last character satisfies [P]. *)
Definition drop_while_back (P : ascii -> bool) (t : text) : text :=
  rev (drop_while P (rev t)).

Definition trim (t : text) : text := drop_while_back isspace (drop_while isspace t).

Lemma find_if_Some P t i :
  find_if P t = Some i ->
  exists c, t !! i = Some c /\ P c = true /\ Forall (fun d => P d = false) (take i t).
Proof.
  revert i. induction t as [| d t IH]; intros i H; [done |]. cbn [find_if] in H.
  destruct (P d) eqn:Hd; [injection H as <-; by exists d |].
  destruct (find_if P t) as [j |]; [| done]. injection H as <-.
  destruct (IH j eq_refl) as (c & Hc & HP & Hall). exists c. by repeat constructor.
Qed.

Lemma find_if_None P t : find_if P t = None <-> Forall (fun d => P d = false) t.
Proof.
  induction t as [| d t IH]; cbn [find_if]; [by split; [constructor |] |].
  rewrite Forall_cons. destruct (P d); [split; [done | by intros [? _]] |].
  rewrite <- IH. destruct (find_if P t); simpl; split; naive_solver.
Qed.

Lemma find_if_app P t c t2 :
  Forall (fun d => P d = false) t -> P c = true -> find_if P (t ++ c :: t2) = Some (length t).
Proof.
  intros Ht Hc. induction Ht as [| d t Hd Ht IH]; cbn [app find_if length]; [by rewrite Hc |].
  by rewrite Hd, IH.
Qed.

Lemma rfind_char_None c t : rfind_char c t = None <-> Forall (fun d => Ascii.eqb d c = false) t.
Proof.
  induction t as [| d t IH]; cbn [rfind_char]; [by split; [constructor |] |].
  rewrite Forall_cons. destruct (rfind_char c t); [| destruct (Ascii.eqb d c)];
    split; naive_solver.
Qed.

Lemma rfind_char_app t c t2 :
  Forall (fun d => Ascii.eqb d c = false) t2 ->
  rfind_char c (t ++ c :: t2) = Some (length t).
Proof.
  intros Ht. induction t as [| d t IH]; cbn [app rfind_char length].
  - apply rfind_char_None in Ht as ->. by rewrite Ascii.eqb_refl.
  - by rewrite IH.
Qed.

Lemma drop_while_head P t c t' : drop_while P t = c :: t' -> P c = false.
Proof.
  induction t as [| d t IH]; cbn [drop_while]; [done |].
  destruct (P d) eqn:Hd; [done |]. by intros [= -> _].
Qed.

Lemma drop_while_stop P t : Forall (fun d => P d = false) t -> drop_while P t = t.
Proof. intros [| c t' Hc _]; cbn [drop_while]; [done | by rewrite Hc]. Qed.

Lemma trim_id t : Forall (fun d => isspace d = false) t -> trim t = t.
Proof.
  intros Ht. unfold trim, drop_while_back. rewrite (drop_while_stop _ t Ht).
  rewrite drop_while_stop by (by rewrite <- Forall_rev in Ht || apply Forall_rev).
  apply rev_involutive.
Qed.

(** ** Decimal numbers *)

Definition digit_value (c : ascii) : Z := code c - 48.

(** Reads digits from the left, into an unbounded integer. *)
Fixpoint digits_value (acc : Z) (t : text) : Z :=
  match t with
  | [] => acc
  | c :: t => digits_value (acc * 10 + digit_value c) t
  end.

Fixpoint take_while (P : ascii -> bool) (t : text) : text :=
  match t with
  | [] => []
  | c :: t => if P c then c :: take_while P t else []
  end.

Lemma take_while_all P t : Forall (fun d => P d = true) t -> take_while P t = t.
Proof. intros Ht. induction Ht as [| c t Hc Ht IH]; cbn [take_while]; [done |]. by rewrite Hc, IH. Qed.

(** [std::stoul(value, &consumed)] in base 10 with a 64-bit [unsigned long]:
    leading white space and a sign are skipped, a minus sign negates modulo
    2^64, [None] is a thrown exception. *)
Definition stoul (t : text) : option (Z * nat) :=
  let body := drop_while isspace t in
  let skipped := length t - length body in
  let '(negative, sign, digits) :=
    match body with
    | "-"%char :: rest => (true, 1, rest)
    | "+"%char :: rest => (false, 1, rest)
    | _ => (false, 0, body)
    end in
  let number := take_while isdigit digits in
  if decide (number = []) then None
  else
    let v := digits_value 0 number in
    if decide (v < 2 ^ 64)%Z
    then Some (if negative then u64 (- v) else v, skipped + sign + length number)
    else None.

(** [std::to_string] of a non-negative integer. *)
Fixpoint to_digits (fuel : nat) (n : Z) (acc : text) : text :=
  match fuel with
  | O => acc
  | S fuel =>
    let acc := char_of (48 + n mod 10) :: acc in
    if (n <? 10)%Z then acc else to_digits fuel (n / 10) acc
  end.

Definition to_string (n : Z) : text := to_digits (S (Z.to_nat (Z.log2 n))) n [].

(** [std::from_chars] into an [unsigned int]: the longest run of digits, with
    no sign and no white space; the value and the count of characters read, or
    [None] for an error. *)
Definition from_chars (t : text) : option (Z * nat) :=
  let number := take_while isdigit t in
  if decide (number = []) then None
  else
    let v := digits_value 0 number in
    if decide (v < 2 ^ 32)%Z then Some (v, length number) else None.

(** [find_first_of] a set of characters. *)
Definition one_of (set : text) (c : ascii) : bool := existsb (Ascii.eqb c) set.
Definition find_first_of (set t : text) : option nat := find_if (one_of set) t.

Lemma take_while_drop P t : exists rest, t = take_while P t ++ rest.
Proof.
  induction t as [| c t [rest IH]]; cbn [take_while]; [by exists [] |].
  destruct (P c); [exists rest; simpl; by rewrite <- IH | by exists (c :: t)].
Qed.

Lemma take_while_Forall P t : Forall (fun c => P c = true) (take_while P t).
Proof. induction t as [| c t IH]; cbn [take_while]; [done |]. destruct (P c) eqn:?; by constructor. Qed.

Lemma find_if_split P t i :
  find_if P t = Some i ->
  exists c, t = take i t ++ c :: drop (S i) t /\ P c = true /\ Forall (fun d => P d = false) (take i t).
Proof.
  intros (c & Hc & HP & Hall)%find_if_Some. exists c. split_and!; [| done | done].
  symmetry. by apply take_drop_middle.
Qed.

Lemma rfind_char_split c t i :
  rfind_char c t = Some i ->
  t = take i t ++ c :: drop (S i) t /\ Forall (fun d => Ascii.eqb d c = false) (drop (S i) t).
Proof.
  revert i. induction t as [| d t IH]; intros i H; [done |]. cbn [rfind_char] in H.
  destruct (rfind_char c t) as [j |] eqn:Hj.
  - injection H as <-. destruct (IH j eq_refl) as [Ht Hf]. split; [| done]. cbn [take drop app].
    by rewrite Ht at 1.
  - destruct (Ascii.eqb_spec d c) as [-> |]; [| done]. injection H as <-. split; [done |].
    by apply rfind_char_None.
Qed.

(** A character that occurs once is found at the same place from both ends. *)
Lemma find_rfind_same c t i :
  rfind_char c t = Some i ->
  (find_char c t = Some i <-> Forall (fun d => Ascii.eqb d c = false) (take i t)).
Proof.
  intros Hr. destruct (rfind_char_split c t i Hr) as [Ht _].
  assert (Hi : i < length t).
  { destruct (decide (i < length t)) as [| Hge]; [done | exfalso].
    rewrite take_ge, drop_ge in Ht by lia. apply (f_equal length) in Ht. rewrite length_app in Ht.
    simpl in Ht. lia. }
  split.
  - intros (x & _ & _ & Hall)%find_if_Some. done.
  - intros Hall. unfold find_char. rewrite Ht.
    replace (Some i) with (Some (length (take i t))) by (rewrite length_take; f_equal; lia).
    apply find_if_app; [done | apply Ascii.eqb_refl].
Qed.

Lemma from_chars_all t v :
  from_chars t = Some (v, length t)
  <-> t <> [] /\ Forall (fun c => isdigit c = true) t /\ v = digits_value 0 t /\ (v < 2 ^ 32)%Z.
Proof.
  unfold from_chars. destruct (take_while_drop isdigit t) as [rest Hrest]. split.
  - intros H. case_decide as Hne; [done |]. case_decide as Hv; [| done]. injection H as Hval Hlen.
    assert (rest = []) as ->.
    { apply length_zero_iff_nil. apply (f_equal length) in Hrest. rewrite length_app in Hrest. lia. }
    rewrite app_nil_r in Hrest. rewrite <- Hrest in Hne, Hv, Hval.
    split_and!; [done | rewrite Hrest; apply take_while_Forall | by symmetry | by subst v].
  - intros (Hne & Hall & -> & Hv). rewrite (take_while_all _ _ Hall). by rewrite decide_False, decide_True.
Qed.

Lemma digits_value_app a t u : digits_value a (t ++ u) = digits_value (digits_value a t) u.
Proof. revert a. induction t as [| c t IH]; intros a; [done | apply IH]. Qed.

Lemma digit_char n : (0 <= n < 10)%Z ->
  isdigit (char_of (48 + n)) = true /\ digit_value (char_of (48 + n)) = n.
Proof.
  intros Hn. unfold isdigit, in_range, digit_value, char_of, code.
  rewrite nat_ascii_embedding by (unfold u8, wrap; rewrite Z.mod_small by lia; lia).
  unfold u8, wrap. rewrite Z.mod_small, Z2Nat.id by lia.
  split; [apply andb_true_intro; split; apply Z.leb_le; lia | lia].
Qed.

(** Enough fuel writes the digits of [n], no more than its size needs. *)
Lemma to_digits_spec fuel : forall n acc,
  (0 <= n < 10 ^ Z.of_nat fuel)%Z -> 0 < fuel ->
  exists d, to_digits fuel n acc = d ++ acc /\ d <> [] /\ Forall (fun c => isdigit c = true) d
    /\ digits_value 0 d = n
    /\ forall k, 0 < k -> (n < 10 ^ Z.of_nat k)%Z -> length d <= k.
Proof.
  induction fuel as [| fuel IH]; intros n acc Hn Hf; [lia |]. cbn [to_digits].
  assert (Hmod : (0 <= n mod 10 < 10)%Z) by (apply Z.mod_pos_bound; lia).
  destruct (digit_char _ Hmod) as [Hd Hv].
  destruct (Z.ltb_spec n 10) as [Hlt | Hge].
  - exists [char_of (48 + n mod 10)]. split_and!; [done.. | by repeat constructor | | intros; simpl; lia].
    cbn [digits_value]. rewrite Hv, Z.mod_small by lia. lia.
  - rewrite Nat2Z.inj_succ, Z.pow_succ_r in Hn by lia.
    assert (Hq : (0 <= n / 10 < 10 ^ Z.of_nat fuel)%Z) by (split; [apply Z.div_pos; lia | apply Z.div_lt_upper_bound; lia]).
    assert (Hf' : 0 < fuel) by (destruct fuel; [simpl in Hq; pose proof (Z.div_le_mono 10 n 10 ltac:(lia) Hge); simpl in *; lia | lia]).
    destruct (IH (n / 10)%Z (char_of (48 + n mod 10) :: acc) Hq Hf') as (d & Ht & Hne & Hall & Hval & Hlen).
    exists (d ++ [char_of (48 + n mod 10)]). rewrite Ht, <- app_assoc. split_and!.
    + done.
    + by destruct d.
    + apply Forall_app. split; [done | by repeat constructor].
    + rewrite digits_value_app, Hval. cbn [digits_value]. rewrite Hv.
      pose proof (Z.div_mod n 10). lia.
    + intros k Hk Hnk. rewrite length_app. simpl. destruct k as [| k]; [lia |].
      rewrite Nat2Z.inj_succ, Z.pow_succ_r in Hnk by lia.
      destruct k as [| k]; [simpl in Hnk; lia |].
      assert (length d <= S k); [| lia]. apply Hlen; [lia |]. apply Z.div_lt_upper_bound; lia.
Qed.

Lemma to_string_spec n : (0 <= n)%Z ->
  to_string n <> [] /\ Forall (fun c => isdigit c = true) (to_string n)
  /\ digits_value 0 (to_string n) = n
  /\ forall k, 0 < k -> (n < 10 ^ Z.of_nat k)%Z -> length (to_string n) <= k.
Proof.
  intros Hn. unfold to_string.
  destruct (to_digits_spec (S (Z.to_nat (Z.log2 n))) n []) as (d & -> & Hd).
  - split; [done |]. pose proof (Z.log2_nonneg n). rewrite Nat2Z.inj_succ, Z2Nat.id by done.
    destruct (decide (n = 0)%Z) as [-> | Hne]; [done |].
    destruct (Z.log2_spec n) as [_ Hlt]; [lia |].
    eapply Z.lt_le_trans; [exact Hlt |]. apply Z.pow_le_mono_l. lia.
  - lia.
  - by rewrite app_nil_r.
Qed.

Lemma isdigit_not_space c : isdigit c = true -> isspace c = false.
Proof. by destruct c as [[] [] [] [] [] [] [] []]. Qed.

Lemma stoul_digits t :
  t <> [] -> Forall (fun c => isdigit c = true) t -> (digits_value 0 t < 2 ^ 64)%Z ->
  stoul t = Some (digits_value 0 t, length t).
Proof.
  intros Hne Hall Hv. unfold stoul.
  rewrite drop_while_stop by (eapply Forall_impl; [exact Hall | apply isdigit_not_space]).
  rewrite Nat.sub_diag.
  assert (Hsign : match t with
    | "-"%char :: rest => (true, 1, rest) | "+"%char :: rest => (false, 1, rest) | _ => (false, 0, t) end
    = (false, 0, t)).
  { destruct Hall as [| c t Hc Hall]; [done |]. by destruct c as [[] [] [] [] [] [] [] []]. }
  rewrite Hsign, (take_while_all _ _ Hall). by rewrite decide_False, decide_True.
Qed.

Lemma stoul_to_string n : (0 <= n < 2 ^ 64)%Z -> stoul (to_string n) = Some (n, length (to_string n)).
Proof.
  intros Hn. destruct (to_string_spec n) as (Hne & Hall & Hv & _); [lia |].
  rewrite stoul_digits by (try rewrite Hv; done || lia). by rewrite Hv.
Qed.

Lemma digits_value_nonneg t acc :
  Forall (fun c => isdigit c = true) t -> (0 <= acc)%Z -> (0 <= digits_value acc t)%Z.
Proof.
  intros Hall. revert acc. induction Hall as [| c t Hc _ IH]; intros acc Hacc; [done |].
  cbn [digits_value]. apply IH. unfold isdigit, in_range in Hc. apply andb_prop in Hc as [Hlo _].
  unfold digit_value. lia.
Qed.

Lemma stoul_nonneg t n used : stoul t = Some (n, used) -> (0 <= n)%Z.
Proof.
  unfold stoul. cbv zeta. set (body := drop_while _ _).
  destruct (match body with [] => _ | _ => _ end) as [[negative sign] digits].
  case_decide as Hne; [done |]. case_decide as Hv; [| done]. intros [= <- _].
  destruct negative; [apply (wrap_range 64); lia |].
  by apply digits_value_nonneg; [apply take_while_Forall |].
Qed.

Lemma digits_value_bound t acc :
  Forall (fun c => isdigit c = true) t ->
  (digits_value acc t < (acc + 1) * 10 ^ Z.of_nat (length t))%Z.
Proof.
  intros Hall. revert acc. induction Hall as [| c t Hc _ IH]; intros acc; [simpl; lia |].
  cbn [digits_value length]. eapply Z.lt_le_trans; [apply IH |].
  unfold isdigit, in_range in Hc. apply andb_prop in Hc as [_ Hhi]. unfold digit_value.
  rewrite Nat2Z.inj_succ, Z.pow_succ_r, Z.mul_assoc by lia. apply Z.mul_le_mono_nonneg_r; lia.
Qed.

Lemma existsb_false {A} (f : A -> bool) l : existsb f l = false <-> Forall (fun x => f x = false) l.
Proof.
  induction l as [| x l IH]; cbn [existsb]; [by split; [constructor |] |].
  by rewrite orb_false_iff, Forall_cons, IH.
Qed.

(** The parts of a text between separators. *)
Fixpoint split_on (P : ascii -> bool) (t : text) : list text :=
  match t with
  | [] => [[]]
  | c :: t =>
    if P c then [] :: split_on P t
    else match split_on P t with f :: fs => (c :: f) :: fs | [] => [[c]] end
  end.

Lemma split_on_find P t :
  split_on P t = match find_if P t with
               | Some i => take i t :: split_on P (drop (S i) t)
               | None => [t]
               end.
Proof.
  induction t as [| c t IH]; [done |]. cbn [split_on find_if]. destruct (P c); [done |].
  rewrite IH. by destruct (find_if P t).
Qed.
