(* ===== verification/RtpRewrite.v ===== *)
(** * RTP header rewriting (backend/signaling_server/src/rtp_slot_rewriter.cpp)

    The stateless half of the slot rewriter: network-order accessors, the two
    header-extension walks that blank the publisher's MID, and
    [rewrite_rtp_for_slot].  Every access goes through [byte_at], [set_byte] or
    [fill_zero], so an access outside the packet is [None] and memory safety is
    a theorem ([rewrite_rtp_for_slot_total]). *)

From S2P Require Import Prelude Bits.

(** ** Network-order accessors *)

Definition network_u16 (p : bytes) (off : nat) : option Z :=
  hi ← byte_at p off;
  lo ← byte_at p (off + 1);
  Some (Z.lor (Z.shiftl hi 8) lo).

Definition network_u32 (p : bytes) (off : nat) : option Z :=
  b0 ← byte_at p off;
  b1 ← byte_at p (off + 1);
  b2 ← byte_at p (off + 2);
  b3 ← byte_at p (off + 3);
  Some (Z.lor (Z.lor (Z.lor (Z.shiftl b0 24) (Z.shiftl b1 16)) (Z.shiftl b2 8)) b3).

Definition set_network_u16 (p : bytes) (off : nat) (value : Z) : option bytes :=
  p ← set_byte p off (Z.land (Z.shiftr value 8) 255);
  set_byte p (off + 1) (Z.land value 255).

Definition set_network_u32 (p : bytes) (off : nat) (value : Z) : option bytes :=
  p ← set_byte p off (Z.land (Z.shiftr value 24) 255);
  p ← set_byte p (off + 1) (Z.land (Z.shiftr value 16) 255);
  p ← set_byte p (off + 2) (Z.land (Z.shiftr value 8) 255);
  set_byte p (off + 3) (Z.land value 255).

(** ** Extension walks

    The loops carry fuel; [stop - cursor + 1] is enough because every turn
    advances the cursor ([clear_one_byte_mid_walk]).  Running out of fuel would
    be [None], so totality covers it. *)

Fixpoint clear_one_byte_mid_loop (fuel : nat) (p : bytes) (cursor stop : nat)
    (mid_id : Z) : option (bool * bytes) :=
  match fuel with
  | O => None
  | S fuel =>
    if decide (cursor < stop) then
      descriptor ← byte_at p cursor;
      if Z.eqb descriptor 0 then clear_one_byte_mid_loop fuel p (cursor + 1) stop mid_id
      else
        let id := Z.shiftr descriptor 4 in
        if Z.eqb id 15 then Some (true, p)
        else
          let value_size := Z.to_nat (Z.land descriptor 15) + 1 in
          if decide (stop < cursor + 1 + value_size) then Some (false, p)
          else if Z.eqb id mid_id then
            p ← fill_zero p cursor (cursor + 1 + value_size);
            Some (true, p)
          else clear_one_byte_mid_loop fuel p (cursor + (1 + value_size)) stop mid_id
    else Some (true, p)
  end.

Definition clear_one_byte_mid (p : bytes) (first stop : nat) (mid_id : Z) :=
  clear_one_byte_mid_loop (stop - first + 1) p first stop mid_id.

Fixpoint clear_two_byte_mid_loop (fuel : nat) (p : bytes) (cursor stop : nat)
    (mid_id : Z) : option (bool * bytes) :=
  match fuel with
  | O => None
  | S fuel =>
    if decide (cursor < stop) then
      id ← byte_at p cursor;
      if Z.eqb id 0 then clear_two_byte_mid_loop fuel p (cursor + 1) stop mid_id
      else if decide (stop < cursor + 2) then Some (false, p)
      else
        size ← byte_at p (cursor + 1);
        let value_size := Z.to_nat size in
        if decide (stop < cursor + 2 + value_size) then Some (false, p)
        else if Z.eqb id mid_id then
          p ← fill_zero p cursor (cursor + 2 + value_size);
          Some (true, p)
        else clear_two_byte_mid_loop fuel p (cursor + (2 + value_size)) stop mid_id
    else Some (true, p)
  end.

Definition clear_two_byte_mid (p : bytes) (first stop : nat) (mid_id : Z) :=
  clear_two_byte_mid_loop (stop - first + 1) p first stop mid_id.

(** ** [rewrite_rtp_for_slot]

    [rtc::IsRtcp] is libdatachannel's and stays a parameter.  The result is the
    returned flag with the packet as the call leaves it. *)

Section Rewrite.
Variable IsRtcp : bytes -> bool.

Definition kFixedHeaderSize : nat := 12.

Definition strip_padding (p : bytes) (payload_begin : nat) : option (bool * bytes) :=
  flags ← byte_at p 0;
  if Z.eqb (Z.land flags 32) 0 then Some (true, p)
  else if decide (length p <= payload_begin) then Some (false, p)
  else
    last ← byte_at p (length p - 1);
    let padding_size := Z.to_nat last in
    if decide (padding_size = 0 \/ length p - payload_begin < padding_size)
    then Some (false, p)
    else
      let p := take (length p - padding_size) p in
      flags ← byte_at p 0;
      p ← set_byte p 0 (Z.land flags (Z.lnot 32));
      Some (true, p).

Definition clear_extension_mid (p : bytes) (profile : Z) (body_begin body_end : nat)
    (mid : option Z) : option (bool * bytes) :=
  match mid with
  | None => Some (true, p)
  | Some mid_id =>
    if Z.eqb profile 0xbede then clear_one_byte_mid p body_begin body_end mid_id
    else if Z.eqb (Z.land profile 0xfff0) 0x1000
    then clear_two_byte_mid p body_begin body_end mid_id
    else Some (true, p)
  end.

Definition finish_for_slot (p : bytes) (payload_begin : nat) (output_ssrc : Z) :
    option (bool * bytes) :=
  '(ok, p) ← strip_padding p payload_begin;
  if negb ok then Some (false, p) else
  p ← set_network_u32 p 8 output_ssrc;
  Some (true, p).

Definition rewrite_rtp_for_slot (p : bytes) (output_ssrc : Z)
    (publisher_mid_extension_id : option Z) : option (bool * bytes) :=
  if decide (length p < kFixedHeaderSize) then Some (false, p) else
  b0 ← byte_at p 0;
  if negb (Z.eqb (Z.shiftr b0 6) 2) || IsRtcp p then Some (false, p) else
  let csrc_size := Z.to_nat (Z.land b0 15) * 4 in
  let header_size := kFixedHeaderSize + csrc_size in
  if decide (length p < header_size) then Some (false, p) else
  if Z.eqb (Z.land b0 16) 0 then finish_for_slot p header_size output_ssrc
  else if decide (length p < header_size + 4) then Some (false, p)
  else
    profile ← network_u16 p header_size;
    words ← network_u16 p (header_size + 2);
    let extension_size := Z.to_nat words * 4 in
    let body_begin := header_size + 4 in
    if decide (length p - body_begin < extension_size) then Some (false, p)
    else
      let body_end := body_begin + extension_size in
      '(valid, p) ← clear_extension_mid p profile body_begin body_end
                      publisher_mid_extension_id;
      if negb valid then Some (false, p) else finish_for_slot p body_end output_ssrc.
End Rewrite.

(** ** A reference reading of an extension body

    Both extension forms are read by one walk over the remaining body, given
    what the form makes of the bytes at the cursor. *)

Inductive ext_step : Type :=
  | EPad
  | EStop
  | EBad
  | EElem (id : Z) (size : nat).

Definition one_byte_step (r : bytes) : ext_step :=
  match r with
  | [] => EStop
  | d :: _ =>
    if Z.eqb d 0 then EPad
    else if Z.eqb (Z.shiftr d 4) 15 then EStop
    else let size := 1 + (Z.to_nat (Z.land d 15) + 1) in
         if decide (length r < size) then EBad else EElem (Z.shiftr d 4) size
  end.

Definition two_byte_step (r : bytes) : ext_step :=
  match r with
  | [] => EStop
  | id :: r' =>
    if Z.eqb id 0 then EPad
    else match r' with
         | [] => EBad
         | size :: _ =>
           let size := 2 + Z.to_nat size in
           if decide (length r < size) then EBad else EElem id size
         end
  end.

(** What the walk needs of a form: an element lies inside the body, reading one
    does not depend on what follows it, and a zero byte is padding. *)
Class ExtForm (step : bytes -> ext_step) : Prop := {
  ext_elem_size r id n : step r = EElem id n -> 1 <= n <= length r;
  ext_elem_local r id n r2 :
    step r = EElem id n -> length r2 = length (drop n r) ->
    step (take n r ++ r2) = EElem id n;
  ext_zero_pad r : step (0%Z :: r) = EPad;
  ext_pad_zero r : step r = EPad -> exists r', r = 0%Z :: r';
}.

#[export] Instance one_byte_form : ExtForm one_byte_step.
Proof.
  split.
  - intros [| d r] id n H; cbn [one_byte_step] in H; case_in H; simplify_eq; simpl in *; lia.
  - intros [| d r] id n r2 H Hl; cbn [one_byte_step] in H; case_in H; simplify_eq.
    cbn [take app one_byte_step]. use_tests.
    rewrite length_drop in Hl. cbn [length] in *. rewrite length_app, length_take.
    destruct (decide _); [simpl in *; lia | done].
  - done.
  - intros [| d r] H; cbn [one_byte_step] in H; case_in H.
    match goal with E : (_ =? _)%Z = true |- _ => apply Z.eqb_eq in E as -> end. by exists r.
Qed.

#[export] Instance two_byte_form : ExtForm two_byte_step.
Proof.
  split.
  - intros [| d [| s r]] id n H; cbn [two_byte_step] in H; case_in H; simplify_eq; simpl in *; lia.
  - intros [| d [| s r]] id n r2 H Hl; cbn [two_byte_step] in H; case_in H; simplify_eq.
    cbn [take app two_byte_step]. use_tests.
    rewrite length_drop in Hl. cbn [length] in *. rewrite length_app, length_take.
    destruct (decide _); [simpl in *; lia | done].
  - done.
  - intros [| d r] H; cbn [two_byte_step] in H; case_in H.
    match goal with E : (_ =? _)%Z = true |- _ => apply Z.eqb_eq in E as -> end. by exists r.
Qed.

Section ExtWalk.
Context (step : bytes -> ext_step) `{!ExtForm step}.

(** The elements of a well-formed body, each with its bytes (header included). *)
Inductive elements_of : bytes -> list (Z * bytes) -> Prop :=
  | elements_nil : elements_of [] []
  | elements_pad r es : step r = EPad -> elements_of (drop 1 r) es -> elements_of r es
  | elements_stop r : r <> [] -> step r = EStop -> elements_of r []
  | elements_elem r id n es :
      step r = EElem id n -> elements_of (drop n r) es ->
      elements_of r ((id, take n r) :: es).

Fixpoint walk (fuel : nat) (r : bytes) (mid : Z) : option (bool * bytes) :=
  match fuel with
  | O => None
  | S fuel =>
    match r with
    | [] => Some (true, [])
    | _ =>
      match step r with
      | EPad => prod_map id (app (take 1 r)) <$> walk fuel (drop 1 r) mid
      | EStop => Some (true, r)
      | EBad => Some (false, r)
      | EElem id n =>
        if Z.eqb id mid then Some (true, replicate n 0%Z ++ drop n r)
        else prod_map Datatypes.id (app (take n r)) <$> walk fuel (drop n r) mid
      end
    end
  end.

(** The first element with that id is dropped, everything else is kept. *)
Fixpoint remove_first (mid : Z) (es : list (Z * bytes)) : list (Z * bytes) :=
  match es with
  | [] => []
  | (id, b) :: es => if Z.eqb id mid then es else (id, b) :: remove_first mid es
  end.

Lemma walk_total fuel r mid :
  length r < fuel ->
  exists ok r', walk fuel r mid = Some (ok, r') /\ length r' = length r
    /\ (wf_bytes r -> wf_bytes r').
Proof using Type*.
  revert r. induction fuel as [| fuel IH]; intros r Hf; [lia |].
  cbn [walk]. destruct r as [| d r]; [eauto |].
  destruct (step (d :: r)) as [| | | id n] eqn:Hs; [| eauto | eauto |].
  - edestruct (IH (drop 1 (d :: r))) as (ok & r' & -> & Hl & Hwf).
    { rewrite length_drop. simpl in *. lia. }
    exists ok, (take 1 (d :: r) ++ r'). repeat split.
    { rewrite length_app, Hl, length_take, length_drop. simpl. lia. }
    intros Hb. apply Forall_app; split; [by apply Forall_take | apply Hwf, (Forall_drop _ 1), Hb].
  - pose proof (ext_elem_size _ _ _ Hs) as Hn. case_match.
    + exists true, (replicate n 0%Z ++ drop n (d :: r)). repeat split.
      * rewrite length_app, length_replicate, length_drop. lia.
      * intros Hb. apply Forall_app; split; [| by apply Forall_drop].
        apply Forall_replicate. auto with driscord.
    + edestruct (IH (drop n (d :: r))) as (ok & r' & -> & Hl & Hwf).
      { rewrite length_drop. lia. }
      exists ok, (take n (d :: r) ++ r'). repeat split.
      * rewrite length_app, Hl, length_take, length_drop. lia.
      * intros Hb. apply Forall_app; split; [by apply Forall_take | by apply Hwf, Forall_drop].
Qed.

Lemma elements_of_zeros n r es : elements_of r es -> elements_of (replicate n 0%Z ++ r) es.
Proof using Type*.
  intros Hr. induction n as [| n IH]; [done |]. cbn [replicate app].
  apply elements_pad; [apply ext_zero_pad | done].
Qed.

Lemma walk_elements fuel r es mid :
  elements_of r es -> length r < fuel ->
  exists r', walk fuel r mid = Some (true, r') /\ length r' = length r
    /\ elements_of r' (remove_first mid es).
Proof using Type*.
  intros Hr. revert fuel. induction Hr as [| r es Hs Hr IH | r Hne Hs | r id n es Hs Hr IH];
    intros [| fuel] Hf; try lia.
  - exists []. repeat split. constructor.
  - destruct (ext_pad_zero _ Hs) as [r0 ->]. cbn [walk]. rewrite Hs.
    cbn [drop] in *. rewrite drop_0 in *.
    destruct (IH fuel) as (r' & -> & Hl & He); [simpl in *; lia |].
    exists (0%Z :: r'). repeat split; [simpl in *; lia |].
    apply elements_pad; [apply ext_zero_pad | done].
  - exists r. destruct r; [done |]. cbn [walk]. rewrite Hs. repeat split. by apply elements_stop.
  - pose proof (ext_elem_size _ _ _ Hs) as Hn. destruct r as [| d r]; [simpl in Hn; lia |].
    cbn [walk remove_first]. rewrite Hs. case_match.
    + eexists. repeat split; [| by apply elements_of_zeros].
      rewrite length_app, length_replicate, length_drop. lia.
    + destruct (IH fuel) as (r' & -> & Hl & He); [rewrite length_drop; lia |].
      exists (take n (d :: r) ++ r'). repeat split.
      * rewrite length_app, Hl, length_take, length_drop. lia.
      * assert (length (take n (d :: r)) = n) as Hlt by (rewrite length_take; lia).
        replace (take n (d :: r)) with (take n (take n (d :: r) ++ r')) at 2
          by (rewrite take_app_le, take_take, Nat.min_id by lia; done).
        eapply elements_elem; [by eapply ext_elem_local |].
        by rewrite drop_app_length'.
Qed.
End ExtWalk.

(** ** The two loops are the walk of their form *)

Lemma byte_at_middle (pre : bytes) d r : byte_at (pre ++ d :: r) (length pre) = Some d.
Proof. unfold byte_at. by apply list_lookup_middle. Qed.

Lemma byte_at_middle_next (pre : bytes) d d2 r :
  byte_at (pre ++ d :: d2 :: r) (length pre + 1) = Some d2.
Proof.
  change (d :: d2 :: r) with ([d] ++ d2 :: r). rewrite app_assoc.
  apply list_lookup_middle. rewrite length_app. done.
Qed.

(** One turn of a loop that keeps [take n r] and moves on. *)
Lemma walk_shift (pre r post : bytes) n (o : option (bool * bytes)) :
  n <= length r ->
  prod_map id (fun r' => (pre ++ take n r) ++ r' ++ post) <$> o
  = prod_map id (fun r' => pre ++ r' ++ post) <$> (prod_map id (app (take n r)) <$> o).
Proof. intros _. destruct o as [[ok r'] |]; [| done]. simpl. by rewrite <- !app_assoc. Qed.

Lemma split_region (pre r post : bytes) n :
  pre ++ r ++ post = (pre ++ take n r) ++ drop n r ++ post.
Proof. rewrite <- !app_assoc, (app_assoc (take n r)). by rewrite take_drop. Qed.

Lemma fill_zero_region (pre r post : bytes) n m :
  n <= length r -> m = length pre + n ->
  fill_zero (pre ++ r ++ post) (length pre) m = Some (pre ++ (replicate n 0%Z ++ drop n r) ++ post).
Proof.
  intros Hn ->. rewrite <- (take_drop n r) at 1. rewrite <- app_assoc.
  assert (length (take n r) = n) as Hl by (rewrite length_take; lia).
  replace (length pre + n) with (length pre + length (take n r)) by lia.
  rewrite fill_zero_app, Hl. by rewrite <- !app_assoc.
Qed.

(** A turn that moves the cursor by [n]: the induction hypothesis applies to the
    rest of the region. *)
Ltac walk_turn IH n :=
  rewrite (split_region _ _ _ n) at 1;
  match goal with
  | |- context [prod_map id (app (take _ ?r)) <$> _] =>
    rewrite <- walk_shift by (simpl in *; lia);
    rewrite <- IH by (rewrite length_drop; simpl in *; lia);
    f_equal; rewrite ?length_app, ?length_take, ?length_drop; simpl in *; lia
  end.

Lemma clear_one_byte_mid_walk fuel pre r post mid :
  length r < fuel ->
  clear_one_byte_mid_loop fuel (pre ++ r ++ post) (length pre) (length pre + length r) mid
  = prod_map id (fun r' => pre ++ r' ++ post) <$> walk one_byte_step fuel r mid.
Proof.
  revert pre r. induction fuel as [| fuel IH]; intros pre r Hf; [lia |].
  cbn [clear_one_byte_mid_loop walk]. destruct r as [| d r].
  { rewrite decide_False by (simpl; lia). done. }
  rewrite decide_True by (simpl; lia). cbn [app]. rewrite byte_at_middle. cbn [mbind option_bind].
  cbn [one_byte_step]. change (pre ++ d :: r ++ post) with (pre ++ (d :: r) ++ post).
  destruct (Z.eqb d 0) eqn:Hd.
  { walk_turn IH 1. }
  destruct (Z.eqb (Z.shiftr d 4) 15) eqn:Hid; [done |].
  set (vs := Z.to_nat (Z.land d 15) + 1).
  destruct (decide (length (d :: r) < 1 + vs)) as [Hlt | Hge].
  { rewrite decide_True by (simpl in *; lia). done. }
  rewrite decide_False by (simpl in *; lia).
  destruct (Z.eqb (Z.shiftr d 4) mid) eqn:Hm.
  { rewrite (fill_zero_region _ _ _ (1 + vs)) by (simpl in *; lia). done. }
  walk_turn IH (1 + vs).
Qed.

Lemma clear_two_byte_mid_walk fuel pre r post mid :
  length r < fuel ->
  clear_two_byte_mid_loop fuel (pre ++ r ++ post) (length pre) (length pre + length r) mid
  = prod_map id (fun r' => pre ++ r' ++ post) <$> walk two_byte_step fuel r mid.
Proof.
  revert pre r. induction fuel as [| fuel IH]; intros pre r Hf; [lia |].
  cbn [clear_two_byte_mid_loop walk]. destruct r as [| d r].
  { rewrite decide_False by (simpl; lia). done. }
  rewrite decide_True by (simpl; lia). cbn [app]. rewrite byte_at_middle. cbn [mbind option_bind].
  cbn [two_byte_step]. change (pre ++ d :: r ++ post) with (pre ++ (d :: r) ++ post).
  destruct (Z.eqb d 0) eqn:Hd.
  { walk_turn IH 1. }
  destruct r as [| s r].
  { rewrite decide_True by (simpl; lia). done. }
  rewrite decide_False by (simpl; lia). cbn [app]. rewrite byte_at_middle_next.
  cbn [mbind option_bind]. change (pre ++ d :: s :: r ++ post) with (pre ++ (d :: s :: r) ++ post).
  set (vs := Z.to_nat s).
  destruct (decide (length (d :: s :: r) < 2 + vs)) as [Hlt | Hge].
  { rewrite decide_True by (simpl in *; lia). done. }
  rewrite decide_False by (simpl in *; lia).
  destruct (Z.eqb d mid) eqn:Hm.
  { rewrite (fill_zero_region _ _ _ (2 + vs)) by (simpl in *; lia). done. }
  walk_turn IH (2 + vs).
Qed.

(** ** Frame lemmas of the accessors *)

(** [p'] differs from [p] only inside [[first, stop)]. *)
Definition same_outside (p p' : bytes) (first stop : nat) : Prop :=
  length p' = length p
  /\ (forall i, i < first \/ stop <= i -> p' !! i = p !! i)
  /\ (wf_bytes p -> wf_bytes p').

Lemma same_outside_refl p first stop : same_outside p p first stop.
Proof. by repeat split. Qed.

Lemma set_byte_spec p off b :
  off < length p -> is_byte b ->
  exists p', set_byte p off b = Some p' /\ same_outside p p' off (off + 1) /\ p' !! off = Some b.
Proof.
  intros Hlt Hb. unfold set_byte. rewrite decide_True by done. eexists. split; [done |].
  split; [| by apply list_lookup_insert_eq].
  repeat split; [apply length_insert | |].
  - intros i Hi. apply list_lookup_insert_ne. lia.
  - intros Hp. by apply Forall_insert.
Qed.

(** Runs a chain of byte stores, keeping the frame of each. *)
Ltac run_set_byte :=
  match goal with
  | |- context [set_byte ?p ?off ?b] =>
    let q := fresh "q" in let Hq := fresh "Hq" in let Hl := fresh "Hl" in
    let Hf := fresh "Hf" in let Hw := fresh "Hw" in let Hv := fresh "Hv" in
    destruct (set_byte_spec p off b) as (q & Hq & (Hl & Hf & Hw) & Hv);
    [lia | apply byte_land_255 | rewrite Hq; cbn [mbind option_bind]]
  end.

Lemma network_u16_spec p off :
  off + 2 <= length p ->
  exists v, network_u16 p off = Some v /\ (wf_bytes p -> is_u 16 v).
Proof.
  intros Hlen. unfold network_u16.
  destruct (byte_at_lt p off) as [b0 E0]; [lia |].
  destruct (byte_at_lt p (off + 1)) as [b1 E1]; [lia |].
  rewrite E0, E1. eexists. split; [done |].
  intros Hp. apply join_u16_range; by eapply byte_at_is_byte.
Qed.

Lemma network_u32_spec p off :
  off + 4 <= length p ->
  exists v, network_u32 p off = Some v /\ (wf_bytes p -> is_u 32 v).
Proof.
  intros Hlen. unfold network_u32.
  destruct (byte_at_lt p off) as [b0 E0]; [lia |].
  destruct (byte_at_lt p (off + 1)) as [b1 E1]; [lia |].
  destruct (byte_at_lt p (off + 2)) as [b2 E2]; [lia |].
  destruct (byte_at_lt p (off + 3)) as [b3 E3]; [lia |].
  rewrite E0, E1, E2, E3. eexists. split; [done |].
  intros Hp. apply join_u32_range; by eapply byte_at_is_byte.
Qed.

Lemma set_network_u16_spec p off v :
  off + 2 <= length p ->
  exists p', set_network_u16 p off v = Some p' /\ same_outside p p' off (off + 2)
    /\ network_u16 p' off = Some (u16 v).
Proof.
  intros Hlen. unfold set_network_u16. do 2 run_set_byte. exists q0.
  split; [done |]. split.
  - repeat split; [congruence | | auto]. intros i Hi. rewrite Hf0, Hf by lia. done.
  - unfold network_u16, byte_at. rewrite Hv0, Hf0, Hv by lia. cbn [mbind option_bind].
    by rewrite join_u16.
Qed.

Lemma set_network_u32_spec p off v :
  off + 4 <= length p ->
  exists p', set_network_u32 p off v = Some p' /\ same_outside p p' off (off + 4)
    /\ network_u32 p' off = Some (u32 v).
Proof.
  intros Hlen. unfold set_network_u32. do 4 run_set_byte. exists q2.
  split; [done |]. split.
  - repeat split; [congruence | | auto]. intros i Hi. rewrite Hf2, Hf1, Hf0, Hf by lia. done.
  - unfold network_u32, byte_at. rewrite Hv2.
    rewrite (Hf2 off), (Hf1 off), (Hf0 off), Hv by lia.
    rewrite (Hf2 (off + 1)), (Hf1 (off + 1)), Hv0 by lia. rewrite (Hf2 (off + 2)), Hv1 by lia.
    cbn [mbind option_bind]. by rewrite join_u32.
Qed.

Lemma network_u16_frame p p' off :
  p' !! off = p !! off -> p' !! (off + 1) = p !! (off + 1) ->
  network_u16 p' off = network_u16 p off.
Proof. unfold network_u16, byte_at. by intros -> ->. Qed.

Lemma network_u32_frame p p' off :
  p' !! off = p !! off -> p' !! (off + 1) = p !! (off + 1) ->
  p' !! (off + 2) = p !! (off + 2) -> p' !! (off + 3) = p !! (off + 3) ->
  network_u32 p' off = network_u32 p off.
Proof. unfold network_u32, byte_at. by intros -> -> -> ->. Qed.

(** A region of a packet, as the walk sees it. *)
Lemma cut_region (p : bytes) first stop :
  first <= stop <= length p ->
  exists pre r post, p = pre ++ r ++ post /\ length pre = first /\ length r = stop - first
    /\ r = take (stop - first) (drop first p).
Proof.
  intros H. exists (take first p), (take (stop - first) (drop first p)), (drop stop p).
  rewrite !length_take, length_drop.
  split; [| split; [lia | split; [lia | done]]].
  rewrite <- (take_drop first p) at 1. f_equal.
  rewrite <- (take_drop (stop - first) (drop first p)) at 1. f_equal.
  rewrite drop_drop. f_equal. lia.
Qed.

(** Both walks, run on a region of a packet, stay inside it and terminate. *)
Lemma walk_region step `{!ExtForm step} pre r post mid fuel :
  length r < fuel ->
  exists ok p', prod_map id (fun r' => pre ++ r' ++ post) <$> walk step fuel r mid = Some (ok, p')
    /\ same_outside (pre ++ r ++ post) p' (length pre) (length pre + length r).
Proof.
  intros Hf. destruct (walk_total step fuel r mid Hf) as (ok & r' & -> & Hl & Hw).
  exists ok, (pre ++ r' ++ post). split; [done |]. repeat split.
  - rewrite !length_app. lia.
  - intros i [Hi | Hi].
    + by rewrite !lookup_app_l by lia.
    + rewrite !(lookup_app_r pre) by lia. rewrite !lookup_app_r by lia. by rewrite Hl.
  - intros Hp. apply Forall_app in Hp as [Hpre [Hr Hpost]%Forall_app].
    apply Forall_app; split; [done |]. apply Forall_app; split; [by apply Hw | done].
Qed.

Lemma clear_extension_mid_spec p profile first stop mid :
  first <= stop <= length p ->
  exists ok p', clear_extension_mid p profile first stop mid = Some (ok, p')
    /\ same_outside p p' first stop.
Proof.
  intros Hr. unfold clear_extension_mid.
  destruct mid as [mid |]; [| by eauto using same_outside_refl].
  destruct (cut_region p first stop Hr) as (pre & r & post & -> & <- & Hl & _).
  assert (stop = length pre + length r) as -> by lia.
  unfold clear_one_byte_mid, clear_two_byte_mid. repeat case_match.
  - rewrite clear_one_byte_mid_walk by lia. apply walk_region; [apply _ | lia].
  - rewrite clear_two_byte_mid_walk by lia. apply walk_region; [apply _ | lia].
  - by eauto using same_outside_refl.
Qed.

(** ** What a receiver reads from a packet (RFC 3550) *)

Definition rtp_header_end (p : bytes) : option nat :=
  b0 ← byte_at p 0;
  let fixed := kFixedHeaderSize + Z.to_nat (Z.land b0 15) * 4 in
  if Z.eqb (Z.land b0 16) 0 then Some fixed
  else words ← network_u16 p (fixed + 2); Some (fixed + 4 + Z.to_nat words * 4).

Definition rtp_padding (p : bytes) : option nat :=
  b0 ← byte_at p 0;
  if Z.eqb (Z.land b0 32) 0 then Some 0
  else last ← byte_at p (length p - 1); Some (Z.to_nat last).

Definition rtp_payload (p : bytes) : option bytes :=
  first ← rtp_header_end p;
  padding ← rtp_padding p;
  Some (take (length p - padding - first) (drop first p)).

(** ** Stages of the rewrite *)

Lemma strip_padding_spec p first :
  1 <= first <= length p ->
  exists ok p', strip_padding p first = Some (ok, p')
    /\ (wf_bytes p -> wf_bytes p')
    /\ (ok = false -> p' = p)
    /\ (ok = true ->
        first <= length p' <= length p
        /\ (forall i, 0 < i < length p' -> p' !! i = p !! i)
        /\ (exists b0, p !! 0 = Some b0 /\ p' !! 0 = Some (Z.land b0 (Z.lnot 32))
                       /\ (Z.land b0 32 <> 0%Z -> length p' < length p))
        /\ rtp_padding p = Some (length p - length p')).
Proof.
  intros Hfirst. unfold strip_padding, rtp_padding.
  destruct (byte_at_lt p 0) as [b0 E0]; [lia |]. rewrite E0. cbn [mbind option_bind].
  destruct (Z.eqb_spec (Z.land b0 32) 0) as [Hz | Hz].
  { exists true, p. split_and!; try done. intros _. split_and!; try done; [lia | |].
    - exists b0. by rewrite clear_padding_id.
    - f_equal. lia. }
  destruct (decide (length p <= first)); [by exists false, p |].
  destruct (byte_at_lt p (length p - 1)) as [last Elast]; [lia |]. rewrite Elast.
  cbn [mbind option_bind].
  destruct (decide _) as [Hbad | Hgood]; [by exists false, p |].
  assert (byte_at (take (length p - Z.to_nat last) p) 0 = Some b0) as ->.
  { unfold byte_at. rewrite lookup_take_lt by lia. done. }
  cbn [mbind option_bind]. unfold set_byte. rewrite length_take, decide_True by lia.
  cbn [mbind option_bind]. do 2 eexists. split; [done |]. split_and!; [| done |].
  { intros Hp. apply Forall_insert; [by apply Forall_take |].
    apply clear_padding_byte. by eapply byte_at_is_byte. }
  intros _. rewrite length_insert, length_take. split_and!; [lia | lia | | | f_equal; lia].
  - intros i Hi. rewrite list_lookup_insert_ne by lia. apply lookup_take_lt. lia.
  - exists b0. split; [done |]. split; [| lia].
    apply list_lookup_insert_eq. rewrite length_take. lia.
Qed.

(** The outcome of a rewrite: either the packet is refused, or it went through
    the three stages, each with its frame. *)
Definition rewrite_stages (p : bytes) (output_ssrc : Z) (p3 : bytes) : Prop :=
  exists b0 first p1 p2,
    p !! 0 = Some b0
    /\ rtp_header_end p = Some first
    /\ kFixedHeaderSize <= kFixedHeaderSize + Z.to_nat (Z.land b0 15) * 4 <= first
    /\ first <= length p
    /\ same_outside p p1 (kFixedHeaderSize + Z.to_nat (Z.land b0 15) * 4 + 4) first
    /\ strip_padding p1 first = Some (true, p2)
    /\ set_network_u32 p2 8 output_ssrc = Some p3.

Lemma finish_for_slot_spec p first output_ssrc :
  kFixedHeaderSize <= first <= length p ->
  exists ok p3, finish_for_slot p first output_ssrc = Some (ok, p3)
    /\ (wf_bytes p -> wf_bytes p3)
    /\ (ok = true -> exists p2, strip_padding p first = Some (true, p2)
                                /\ set_network_u32 p2 8 output_ssrc = Some p3).
Proof.
  intros Hfirst. unfold finish_for_slot, kFixedHeaderSize in *.
  destruct (strip_padding_spec p first) as (ok & p2 & -> & Hw & _ & Hok); [lia |].
  cbn [mbind option_bind]. destruct ok; simpl; [| by exists false, p2].
  destruct (Hok eq_refl) as (Hlen & _).
  destruct (set_network_u32_spec p2 8 output_ssrc) as (p3 & E3 & (_ & _ & Hw3) & _); [lia |].
  exists true, p3. rewrite E3. split_and!; [done | auto | eauto].
Qed.

Lemma rewrite_rtp_for_slot_cases IsRtcp p output_ssrc mid :
  exists ok p', rewrite_rtp_for_slot IsRtcp p output_ssrc mid = Some (ok, p')
    /\ (wf_bytes p -> wf_bytes p')
    /\ (ok = true -> rewrite_stages p output_ssrc p').
Proof.
  unfold rewrite_rtp_for_slot.
  destruct (decide (length p < kFixedHeaderSize)) as [| Hlen]; [by exists false, p |].
  unfold kFixedHeaderSize in *.
  destruct (byte_at_lt p 0) as [b0 E0]; [lia |]. rewrite E0. cbn [mbind option_bind].
  destruct (_ || _); [by exists false, p |].
  set (fixed := 12 + Z.to_nat (Z.land b0 15) * 4).
  destruct (decide (length p < fixed)) as [| Hfix]; [by exists false, p |].
  destruct (Z.eqb (Z.land b0 16) 0) eqn:Hx.
  { destruct (finish_for_slot_spec p fixed output_ssrc) as (ok & p3 & E & Hw & Hok);
      [unfold kFixedHeaderSize; lia |].
    exists ok, p3. split_and!; [done.. |]. intros Ht. destruct (Hok Ht) as (p2 & ? & ?).
    exists b0, fixed, p, p2. split_and!; try done; try (unfold kFixedHeaderSize; lia).
    unfold rtp_header_end. rewrite E0. cbn [mbind option_bind]. by rewrite Hx. }
  destruct (decide (length p < fixed + 4)) as [| Hext]; [by exists false, p |].
  destruct (network_u16_spec p fixed) as (profile & -> & _); [lia |].
  destruct (network_u16_spec p (fixed + 2)) as (words & Ew & _); [lia |].
  rewrite Ew. cbn [mbind option_bind].
  destruct (decide _) as [| Hbody]; [by exists false, p |].
  set (stop := fixed + 4 + Z.to_nat words * 4).
  destruct (clear_extension_mid_spec p profile (fixed + 4) stop mid)
    as (valid & p1 & -> & Hout); [lia |].
  cbn [mbind option_bind]. destruct Hout as (Hl1 & Hf1 & Hw1).
  destruct valid; simpl; [| by exists false, p1].
  destruct (finish_for_slot_spec p1 stop output_ssrc) as (ok & p3 & -> & Hw & Hok);
    [unfold kFixedHeaderSize; lia |].
  exists ok, p3. split_and!; [done | auto |]. intros Ht. destruct (Hok Ht) as (p2 & ? & ?).
  exists b0, stop, p1, p2. split_and!; try done; try (unfold kFixedHeaderSize; lia).
  unfold rtp_header_end, kFixedHeaderSize. rewrite E0. cbn [mbind option_bind].
  rewrite Hx. fold fixed. by rewrite Ew.
Qed.

(** The three stages leave every byte alone but the flags, the SSRC, the
    extension body and the padding. *)
Lemma rewrite_stages_frame p output_ssrc p3 :
  rewrite_stages p output_ssrc p3 ->
  exists b0 first,
    p !! 0 = Some b0 /\ p3 !! 0 = Some (Z.land b0 (Z.lnot 32))
    /\ rtp_header_end p = Some first
    /\ kFixedHeaderSize + Z.to_nat (Z.land b0 15) * 4 <= first <= length p3
    /\ rtp_padding p = Some (length p - length p3) /\ length p3 <= length p
    /\ network_u32 p3 8 = Some (u32 output_ssrc)
    /\ (forall i, 0 < i < length p3 -> i < 8 \/ 12 <= i ->
          i < kFixedHeaderSize + Z.to_nat (Z.land b0 15) * 4 + 4 \/ first <= i ->
          p3 !! i = p !! i).
Proof.
  intros (b0 & first & p1 & p2 & E0 & Hend & Hfix & Hlen & (Hl1 & Hf1 & _) & E2 & E3).
  unfold kFixedHeaderSize in *.
  destruct (strip_padding_spec p1 first) as (ok & p2' & E2' & _ & _ & Hok); [lia |].
  rewrite E2 in E2'. injection E2' as <- <-.
  destruct (Hok eq_refl) as (Hlen2 & Hf2 & (b0' & E0' & E0'' & Hlt) & Hpad). clear Hok.
  rewrite Hf1 in E0' by lia. assert (b0' = b0) as -> by congruence.
  destruct (set_network_u32_spec p2 8 output_ssrc) as (p3' & E3' & (Hl3 & Hf3 & _) & Hssrc);
    [lia |].
  rewrite E3 in E3'. injection E3' as <-.
  exists b0, first. rewrite Hl3. split_and!; try done; try lia.
  - rewrite Hf3 by lia. done.
  - rewrite <- Hl1, <- Hpad. unfold rtp_padding, byte_at. rewrite (Hf1 0) by lia. rewrite E0.
    cbn [mbind option_bind]. destruct (Z.eqb_spec (Z.land b0 32) 0) as [| Hnz]; [done |].
    specialize (Hlt Hnz). rewrite (Hf1 (length p1 - 1)) by lia. by rewrite Hl1.
  - intros i Hi H1 H2. rewrite Hf3, Hf2, Hf1 by lia. done.
Qed.

(** ** Properties *)

(** C35 Memory safety and termination: on every packet, [rewrite_rtp_for_slot]
    returns without touching a byte outside it, and what it leaves behind is a
    byte string again. *)
Theorem rewrite_rtp_for_slot_total IsRtcp p output_ssrc mid :
  exists ok p', rewrite_rtp_for_slot IsRtcp p output_ssrc mid = Some (ok, p')
    /\ (wf_bytes p -> wf_bytes p').
Proof.
  destruct (rewrite_rtp_for_slot_cases IsRtcp p output_ssrc mid) as (ok & p' & E & Hw & _).
  eauto.
Qed.

(** Media transparency: an accepted packet leaves with the slot's SSRC and
    with everything a receiver decodes from it unchanged: marker and payload
    type, sequence number, timestamp, contributing sources, header length and
    payload.  Its padding is gone. *)
Theorem rewrite_rtp_for_slot_transparent IsRtcp p output_ssrc mid p' :
  rewrite_rtp_for_slot IsRtcp p output_ssrc mid = Some (true, p') ->
  network_u32 p' 8 = Some (u32 output_ssrc)
  /\ p' !! 1 = p !! 1
  /\ network_u16 p' 2 = network_u16 p 2
  /\ network_u32 p' 4 = network_u32 p 4
  /\ rtp_header_end p' = rtp_header_end p
  /\ rtp_padding p' = Some 0
  /\ rtp_payload p' = rtp_payload p
  /\ (exists b0, p !! 0 = Some b0
      /\ forall i, 12 <= i < kFixedHeaderSize + Z.to_nat (Z.land b0 15) * 4 -> p' !! i = p !! i).
Proof.
  intros E. destruct (rewrite_rtp_for_slot_cases IsRtcp p output_ssrc mid)
    as (ok & p3 & E' & _ & Hst). rewrite E in E'. injection E' as <- <-.
  destruct (rewrite_stages_frame _ _ _ (Hst eq_refl))
    as (b0 & first & E0 & E0' & Hend & Hfirst & Hpad & Hle & Hssrc & Hframe).
  assert (kFixedHeaderSize = 12) as H12 by done. rewrite H12 in *.
  assert (rtp_header_end p' = rtp_header_end p) as Hend'.
  { revert Hend. unfold rtp_header_end, byte_at. rewrite E0, E0'. cbn [mbind option_bind].
    rewrite clear_padding_csrc, clear_padding_extension, H12. case_match; [done |].
    intros Hend. bind_inv. rewrite (network_u16_frame p p'); [by rewrite Ha | |];
      apply Hframe; lia. }
  assert (rtp_padding p' = Some 0) as Hpad'.
  { unfold rtp_padding, byte_at. rewrite E0'. cbn [mbind option_bind].
    by rewrite clear_padding_bit. }
  split_and!; try done; try (apply Hframe; lia).
  - apply network_u16_frame; apply Hframe; lia.
  - apply network_u32_frame; apply Hframe; lia.
  - unfold rtp_payload. rewrite Hend', Hpad', Hend, Hpad. cbn [mbind option_bind]. f_equal.
    replace (length p' - 0 - first) with (length p' - first) by lia.
    replace (length p - (length p - length p') - first) with (length p' - first) by lia.
    apply list_eq. intros i. destruct (decide (i < length p' - first)) as [Hi | Hi].
    + rewrite !lookup_take_lt, !lookup_drop by lia. apply Hframe; lia.
    + by rewrite !lookup_take_ge by lia.
  - exists b0. split; [done |]. intros i Hi. apply Hframe; lia.
Qed.

(** MID stripping: on a well-formed extension body, in either form, the
    publisher's MID element is removed and every other element is kept, in order
    and byte for byte, while the body keeps its length. *)
Theorem clear_mid_removes_only_mid pre body post mid es :
  (elements_of one_byte_step body es ->
   exists body', clear_one_byte_mid (pre ++ body ++ post) (length pre)
                   (length pre + length body) mid = Some (true, pre ++ body' ++ post)
     /\ length body' = length body
     /\ elements_of one_byte_step body' (remove_first mid es))
  /\ (elements_of two_byte_step body es ->
   exists body', clear_two_byte_mid (pre ++ body ++ post) (length pre)
                   (length pre + length body) mid = Some (true, pre ++ body' ++ post)
     /\ length body' = length body
     /\ elements_of two_byte_step body' (remove_first mid es)).
Proof.
  split; intros He; unfold clear_one_byte_mid, clear_two_byte_mid;
    eapply (walk_elements _ (length pre + length body - length pre + 1)) with (mid := mid) in He
      as (body' & Hw & Hl & He'); try lia; exists body'; (split; [| by split]).
  - rewrite clear_one_byte_mid_walk by lia. by rewrite Hw.
  - rewrite clear_two_byte_mid_walk by lia. by rewrite Hw.
Qed.

(** A packet with one contributing source, a one-byte extension body (MID 1,
    another element 3, padding), four payload bytes and two padding bytes. *)
Definition sample_packet : bytes :=
  [177; 111; 0x12; 0x34; 0; 0; 1; 0; 9; 9; 9; 9; 5; 6; 7; 8;
   0xbe; 0xde; 0; 2; 0x10; 65; 0x31; 70; 71; 0; 0; 0; 1; 2; 3; 4; 0; 2]%Z.

(** A stand-in for libdatachannel's test, for the witnesses. *)
Definition sample_IsRtcp (p : bytes) : bool :=
  match p !! 1 with
  | Some b => bool_decide (64 <= Z.land b 127 <= 95)%Z
  | None => false
  end.

Lemma rewrite_rtp_for_slot_transparent_witness :
  exists p', rewrite_rtp_for_slot sample_IsRtcp sample_packet 0x11223344 (Some 1%Z) = Some (true, p')
    /\ rtp_payload p' = Some [1; 2; 3; 4]%Z.
Proof.
  eexists. split; [vm_compute; reflexivity |].
  edestruct (rewrite_rtp_for_slot_transparent sample_IsRtcp sample_packet 0x11223344 (Some 1%Z))
    as (_ & _ & _ & _ & _ & _ & Hp & _); [vm_compute; reflexivity |].
  rewrite Hp. vm_compute. reflexivity.
Defined.

Lemma clear_mid_removes_only_mid_witness :
  exists body', clear_one_byte_mid [0x10; 65; 0x31; 70; 71; 0]%Z 0 6 1 = Some (true, body')
    /\ elements_of one_byte_step body' [(3%Z, [0x31; 70; 71]%Z)].
Proof.
  destruct (clear_mid_removes_only_mid [] [0x10; 65; 0x31; 70; 71; 0]%Z [] 1
    [(1%Z, [0x10; 65]%Z); (3%Z, [0x31; 70; 71]%Z)]) as [H _].
  destruct H as (body' & Hc & _ & He).
  - apply (elements_elem one_byte_step [0x10; 65; 0x31; 70; 71; 0]%Z 1%Z 2); [reflexivity |].
    apply (elements_elem one_byte_step [0x31; 70; 71; 0]%Z 3%Z 3); [reflexivity |].
    apply elements_pad; [reflexivity | constructor].
  - exists body'. cbn [app] in Hc. rewrite (app_nil_r body') in Hc. split; [exact Hc | exact He].
Defined.
