(* ===== verification/RtpSlot.v ===== *)
(** * The slot rewriter (class [RtpSlotRewriter], rtp_slot_rewriter.hpp and .cpp)

    One rewriter sits behind every output slot.  It keeps the outgoing sequence
    numbers and timestamps of the slot continuous while the publisher feeding
    the slot changes.  [begin_source]/[end_source] bump a generation, so a
    packet collected for an earlier publisher is refused.  The mutex makes each
    operation one step; the model runs them one at a time. *)

From S2P Require Import Prelude Bits RtpRewrite.

Record RtpSlotRewriter := mkRewriter {
  clock_rate_ : Z;
  timestamp_step_ : Z;
  generation_ : Z;
  source_initialized_ : bool;
  output_initialized_ : bool;
  source_anchor_sequence_ : Z;
  latest_input_sequence_ : Z;
  latest_output_sequence_ : Z;
  sequence_offset_ : Z;
  latest_input_timestamp_ : Z;
  latest_output_timestamp_ : Z;
  timestamp_offset_ : Z;
}.

Definition new_rewriter (clock_rate default_timestamp_step : Z) : RtpSlotRewriter :=
  mkRewriter clock_rate default_timestamp_step 0 false false 0 0 0 0 0 0 0.

(** Both bump the generation; [begin_source] also returns it. *)
Definition end_source (r : RtpSlotRewriter) : RtpSlotRewriter :=
  mkRewriter (clock_rate_ r) (timestamp_step_ r) (u64 (generation_ r + 1)) false
    (output_initialized_ r) (source_anchor_sequence_ r) (latest_input_sequence_ r)
    (latest_output_sequence_ r) (sequence_offset_ r) (latest_input_timestamp_ r)
    (latest_output_timestamp_ r) (timestamp_offset_ r).

Definition begin_source (r : RtpSlotRewriter) : RtpSlotRewriter * Z :=
  let r := end_source r in (r, generation_ r).

Definition sequence_is_newer (value reference : Z) : bool := (0 <? s16 (value - reference))%Z.

(** The first packet of a source fixes the offsets: the slot continues from the
    last packet it sent. *)
Definition start_source (r : RtpSlotRewriter) (seq ts : Z) : RtpSlotRewriter :=
  mkRewriter (clock_rate_ r) (timestamp_step_ r) (generation_ r) true (output_initialized_ r)
    seq seq (latest_output_sequence_ r)
    (if output_initialized_ r then u16 (u16 (latest_output_sequence_ r + 1) - seq) else 0%Z)
    ts (latest_output_timestamp_ r)
    (if output_initialized_ r
     then u32 (u32 (latest_output_timestamp_ r + timestamp_step_ r) - ts) else 0%Z).

(** The newest packet of a source moves the slot's position forward and
    remembers the timestamp step. *)
Definition advance (r : RtpSlotRewriter) (seq ts out_seq out_ts : Z) : RtpSlotRewriter :=
  let input_delta := u32 (ts - latest_input_timestamp_ r) in
  let step :=
    if ((0 <? input_delta) && (input_delta <=? u32 (clock_rate_ r * 10)))%Z
    then input_delta else timestamp_step_ r in
  mkRewriter (clock_rate_ r) step (generation_ r) (source_initialized_ r) true
    (source_anchor_sequence_ r) seq out_seq (sequence_offset_ r) ts out_ts (timestamp_offset_ r).

(** The sequence-number half of [rewrite]: [None] is a refusal, otherwise the
    new state and the outgoing sequence number and timestamp. *)
Definition rewrite_numbers (r : RtpSlotRewriter) (source_generation seq ts : Z) :
    option (RtpSlotRewriter * Z * Z) :=
  if negb (Z.eqb source_generation (generation_ r)) then None
  else
    let first_for_source := negb (source_initialized_ r) in
    if negb first_for_source && (s16 (seq - source_anchor_sequence_ r) <? 0)%Z then None
    else
      let r := if first_for_source then start_source r seq ts else r in
      let out_seq := u16 (seq + sequence_offset_ r) in
      let out_ts := u32 (ts + timestamp_offset_ r) in
      let r :=
        if first_for_source || negb (output_initialized_ r)
           || sequence_is_newer seq (latest_input_sequence_ r)
        then advance r seq ts out_seq out_ts else r in
      Some (r, out_seq, out_ts).

Section Rewriter.
Variable IsRtcp : bytes -> bool.

(** [rewrite]: the new state, the returned flag and the packet. *)
Definition rewrite (r : RtpSlotRewriter) (p : bytes) (source_generation output_ssrc : Z)
    (mid : option Z) : option (RtpSlotRewriter * bool * bytes) :=
  '(ok, p) ← rewrite_rtp_for_slot IsRtcp p output_ssrc mid;
  if negb ok then Some (r, false, p) else
  seq ← network_u16 p 2;
  ts ← network_u32 p 4;
  match rewrite_numbers r source_generation seq ts with
  | None => Some (r, false, p)
  | Some (r, out_seq, out_ts) =>
    p ← set_network_u16 p 2 out_seq;
    p ← set_network_u32 p 4 out_ts;
    Some (r, true, p)
  end.
End Rewriter.

(** ** Feeding a source *)

(** A source is fed with consecutive sequence numbers from [seq] on, one packet
    per timestamp, under the generation it was given. *)
Fixpoint feed (r : RtpSlotRewriter) (g seq : Z) (tss : list Z) :
    option (RtpSlotRewriter * list (Z * Z)) :=
  match tss with
  | [] => Some (r, [])
  | ts :: tss =>
    '(r, s, t) ← rewrite_numbers r g seq ts;
    '(r, out) ← feed r g (u16 (seq + 1)) tss;
    Some (r, (s, t) :: out)
  end.

Definition run_source (r : RtpSlotRewriter) (start : Z) (tss : list Z) :
    option (RtpSlotRewriter * list (Z * Z)) :=
  let '(r, g) := begin_source r in feed r g start tss.

Fixpoint run_sources (r : RtpSlotRewriter) (sources : list (Z * list Z)) :
    option (RtpSlotRewriter * list (Z * Z)) :=
  match sources with
  | [] => Some (r, [])
  | (start, tss) :: sources =>
    '(r, out) ← run_source r start tss;
    '(r, out') ← run_sources r sources;
    Some (r, out ++ out')
  end.

(** ** Arithmetic of the offsets *)

Lemma s16_wrap a : s16 a = s16 (u16 a).
Proof. unfold s16, u16. by rewrite wrap_wrap. Qed.

Lemma s16_eqm a b : u16 a = u16 b -> s16 a = s16 b.
Proof. intros H. by rewrite s16_wrap, H, <- s16_wrap. Qed.

Lemma s16_small a : (0 <= a < 2 ^ 15)%Z -> s16 a = a.
Proof.
  intros Ha. unfold s16, u16. rewrite wrap_small by (unfold is_u; lia).
  destruct (Z.ltb_spec a (2 ^ 15)); lia.
Qed.

Lemma s16_large a : (2 ^ 15 <= a < 2 ^ 16)%Z -> (s16 a < 0)%Z.
Proof.
  intros Ha. unfold s16, u16. rewrite wrap_small by (unfold is_u; lia).
  destruct (Z.ltb_spec a (2 ^ 15)); lia.
Qed.

(** Equality of wrapped sums whose unwrapped values agree. *)
Ltac wrap_eq := wrap_simpl; f_equal; lia.

(** The state of a slot in the middle of a source that started at [start] with
    timestamp [ts0], was mapped to [base] and [tbase], and has sent [n] packets. *)
Record in_source (r : RtpSlotRewriter) (g start ts0 base tbase : Z) (n : Z) : Prop := {
  src_generation : generation_ r = g;
  src_initialized : source_initialized_ r = true;
  src_output : output_initialized_ r = true;
  src_anchor : u16 (source_anchor_sequence_ r) = u16 start;
  src_input : u16 (latest_input_sequence_ r) = u16 (start + n - 1);
  src_position : latest_output_sequence_ r = u16 (base + n - 1);
  src_offset : u16 (sequence_offset_ r) = u16 (base - start);
  src_ts_offset : u32 (timestamp_offset_ r) = u32 (tbase - ts0);
}.

Lemma offset_out seq offset base start n :
  u16 seq = u16 (start + n) -> u16 offset = u16 (base - start) ->
  u16 (seq + offset) = u16 (base + n).
Proof.
  unfold u16. intros Hs Ho. rewrite <- wrap_add_l, Hs, wrap_add_l, <- wrap_add_r, Ho, wrap_add_r.
  f_equal. lia.
Qed.

Lemma offset_ts ts offset tbase ts0 :
  u32 offset = u32 (tbase - ts0) -> u32 (ts + offset) = u32 (tbase + (ts - ts0)).
Proof. unfold u32. intros Ho. rewrite <- wrap_add_r, Ho, wrap_add_r. f_equal. lia. Qed.

Lemma diff_eqm a b x y : u16 a = u16 x -> u16 b = u16 y -> u16 (a - b) = u16 (x - y).
Proof.
  unfold u16. intros Ha Hb. by rewrite <- wrap_sub_l, Ha, wrap_sub_l, <- wrap_sub_r, Hb, wrap_sub_r.
Qed.

(** One in-order packet of a running source. *)
Lemma in_source_step r g start ts0 base tbase n seq ts :
  in_source r g start ts0 base tbase n -> (0 < n < 2 ^ 15)%Z -> u16 seq = u16 (start + n) ->
  exists r', rewrite_numbers r g seq ts
             = Some (r', u16 (base + n), u32 (tbase + (ts - ts0)))
    /\ in_source r' g start ts0 base tbase (n + 1)
    /\ latest_output_timestamp_ r' = u32 (tbase + (ts - ts0)).
Proof.
  intros [Hg Hi Ho Ha Hin Hpos Hoff Hts] Hn Hseq. unfold rewrite_numbers.
  rewrite Hg, Z.eqb_refl, Hi. cbn [negb andb orb].
  assert (s16 (seq - source_anchor_sequence_ r) = n) as ->.
  { rewrite (s16_eqm _ n); [by apply s16_small; lia |].
    rewrite (diff_eqm _ _ _ _ Hseq Ha). f_equal. lia. }
  destruct (Z.ltb_spec n 0); [lia |]. rewrite Ho. cbn [negb orb].
  assert (sequence_is_newer seq (latest_input_sequence_ r) = true) as ->.
  { unfold sequence_is_newer. rewrite (s16_eqm _ 1); [done |].
    rewrite (diff_eqm _ _ _ _ Hseq Hin). f_equal. lia. }
  rewrite (offset_out _ _ _ _ _ Hseq Hoff), (offset_ts _ _ _ _ Hts).
  eexists. split; [done |]. split; [| done]. split; simpl; try done.
  - rewrite Hseq. f_equal. lia.
  - f_equal. lia.
Qed.

Lemma feed_in_source tss : forall r g start ts0 base tbase n seq,
  in_source r g start ts0 base tbase n -> (0 < n)%Z ->
  (n + Z.of_nat (length tss) <= 2 ^ 15)%Z -> u16 seq = u16 (start + n) ->
  exists r', feed r g seq tss
      = Some (r', imap (fun i ts => (u16 (base + n + Z.of_nat i), u32 (tbase + (ts - ts0)))) tss)
    /\ in_source r' g start ts0 base tbase (n + Z.of_nat (length tss)).
Proof.
  induction tss as [| ts tss IH]; intros r g start ts0 base tbase n seq Hs Hn Hlen Hseq.
  { exists r. split; [done |]. by rewrite Z.add_0_r. }
  cbn [length] in *.
  destruct (in_source_step r g start ts0 base tbase n seq ts Hs) as (r1 & E1 & Hs1 & _); [lia | done |].
  cbn [feed]. rewrite E1. cbn [mbind option_bind].
  destruct (IH r1 g start ts0 base tbase (n + 1)%Z (u16 (seq + 1))) as (r2 & E2 & Hs2);
    [done | lia | lia | |].
  { unfold u16 in *. rewrite wrap_wrap, <- wrap_add_l, Hseq, wrap_add_l. f_equal. lia. }
  rewrite E2. cbn [mbind option_bind]. exists r2. split.
  - cbn [imap]. rewrite Z.add_0_r. do 3 f_equal.
    apply imap_ext. intros i t _. simpl. do 2 f_equal. lia.
  - replace (n + Z.of_nat (S (length tss)))%Z with (n + 1 + Z.of_nat (length tss))%Z by lia. done.
Qed.

(** Where a source that starts at [start] with timestamp [ts0] is mapped to. *)
Definition next_sequence (r : RtpSlotRewriter) (start : Z) : Z :=
  if output_initialized_ r then latest_output_sequence_ r + 1 else start.
Definition next_timestamp (r : RtpSlotRewriter) (ts0 : Z) : Z :=
  if output_initialized_ r then latest_output_timestamp_ r + timestamp_step_ r else ts0.

Lemma first_packet r start ts0 :
  exists r', rewrite_numbers (fst (begin_source r)) (snd (begin_source r)) start ts0
      = Some (r', u16 (next_sequence r start), u32 (next_timestamp r ts0))
    /\ in_source r' (snd (begin_source r)) start ts0 (next_sequence r start)
         (next_timestamp r ts0) 1.
Proof.
  unfold rewrite_numbers, begin_source. cbn [fst snd]. rewrite Z.eqb_refl.
  cbn [negb end_source source_initialized_ andb orb].
  unfold next_sequence, next_timestamp.
  set (base := if output_initialized_ r then _ else start).
  set (tbase := if output_initialized_ r then _ else ts0).
  assert (u16 (start + sequence_offset_ (start_source (end_source r) start ts0)) = u16 base) as ->.
  { unfold base. simpl. destruct (output_initialized_ r); [| f_equal; lia]. wrap_eq. }
  assert (u32 (ts0 + timestamp_offset_ (start_source (end_source r) start ts0)) = u32 tbase) as ->.
  { unfold tbase. simpl. destruct (output_initialized_ r); [| f_equal; lia]. wrap_eq. }
  eexists. split; [done |]. split; simpl; try done.
  - f_equal. lia.
  - f_equal. lia.
  - unfold base. destruct (output_initialized_ r); [wrap_eq | f_equal; lia].
  - unfold tbase. destruct (output_initialized_ r); [wrap_eq | f_equal; lia].
Qed.

Lemma run_source_spec r start ts0 tss :
  (Z.of_nat (length (ts0 :: tss)) <= 2 ^ 15)%Z ->
  exists r', run_source r start (ts0 :: tss)
    = Some (r', imap (fun i ts => (u16 (next_sequence r start + Z.of_nat i),
                                   u32 (next_timestamp r ts0 + (ts - ts0)))) (ts0 :: tss))
    /\ in_source r' (snd (begin_source r)) start ts0 (next_sequence r start)
         (next_timestamp r ts0) (Z.of_nat (length (ts0 :: tss))).
Proof.
  intros Hlen. cbn [length] in Hlen. unfold run_source.
  change (let '(r0, g) := begin_source r in feed r0 g start (ts0 :: tss))
    with (feed (fst (begin_source r)) (snd (begin_source r)) start (ts0 :: tss)).
  destruct (first_packet r start ts0) as (r1 & E1 & Hs1).
  cbn [feed]. rewrite E1. cbn [mbind option_bind].
  destruct (feed_in_source tss r1 _ _ _ _ _ _ (u16 (start + 1)) Hs1) as (r2 & E2 & Hs2);
    [lia | lia | by unfold u16; rewrite wrap_wrap |].
  rewrite E2. cbn [mbind option_bind]. exists r2. split.
  - rewrite imap_cons. do 2 f_equal. f_equal.
    + by rewrite Z.sub_diag, !Z.add_0_r.
    + apply imap_ext. intros i t _. simpl. do 2 f_equal. lia.
  - cbn [length]. by replace (Z.of_nat (S (length tss))) with (1 + Z.of_nat (length tss))%Z by lia.
Qed.

(** ** Properties *)

(** Timeline of one source: a source of at most 32768 in-order packets is
    accepted whole; its sequence numbers continue right after the last packet
    the slot sent, and its timestamps start one step after the slot's last
    timestamp and keep their spacing. *)
Theorem source_timeline r start ts0 tss :
  (Z.of_nat (length (ts0 :: tss)) <= 2 ^ 15)%Z ->
  exists r', run_source r start (ts0 :: tss)
    = Some (r', imap (fun i ts => (u16 (next_sequence r start + Z.of_nat i),
                                   u32 (next_timestamp r ts0 + (ts - ts0)))) (ts0 :: tss)).
Proof. intros Hlen. destruct (run_source_spec r start ts0 tss Hlen) as (r' & E & _). eauto. Qed.

Lemma u16_position_shift a n m : u16 (u16 (a + n - 1) + 1 + m) = u16 (a + (n + m)).
Proof. unfold u16. rewrite <- Z.add_assoc, wrap_add_l. f_equal. lia. Qed.

Lemma imap_fst_seqZ (base : Z) (f : nat -> Z -> Z) (tss : list Z) :
  (imap (fun i ts => (u16 (base + Z.of_nat i), f i ts)) tss).*1
  = (fun i => u16 (base + Z.of_nat i)) <$> seq 0 (length tss).
Proof.
  apply list_eq. intros i. rewrite !list_lookup_fmap, list_lookup_imap.
  destruct (tss !! i) as [ts |] eqn:E.
  - apply lookup_lt_Some in E. by rewrite (lookup_seq_lt 0) by done.
  - apply lookup_ge_None in E. by rewrite (lookup_seq_ge 0) by done.
Qed.

Lemma run_sources_continue sources : forall r,
  output_initialized_ r = true ->
  Forall (fun s => 0 < Z.of_nat (length s.2) <= 2 ^ 15)%Z sources ->
  exists r' out, run_sources r sources = Some (r', out)
    /\ out.*1 = (fun i => u16 (latest_output_sequence_ r + 1 + Z.of_nat i))
                  <$> seq 0 (sum_list_with (fun s => length s.2) sources).
Proof.
  induction sources as [| [start tss] sources IH]; intros r Ho Hall; [by exists r, [] |].
  apply Forall_cons in Hall as [Hl Hall]. simpl in Hl. destruct tss as [| ts0 tss]; [simpl in Hl; lia |].
  destruct (run_source_spec r start ts0 tss) as (r1 & E1 & Hs1); [lia |].
  destruct (IH r1 (src_output _ _ _ _ _ _ _ Hs1) Hall) as (r2 & out & E2 & Hout).
  cbn [run_sources]. rewrite E1. cbn [mbind option_bind]. rewrite E2. cbn [mbind option_bind].
  do 2 eexists. split; [done |]. rewrite fmap_app, imap_fst_seqZ, Hout.
  rewrite (src_position _ _ _ _ _ _ _ Hs1). unfold next_sequence. rewrite Ho.
  cbn [sum_list_with snd]. rewrite seq_app, fmap_app. f_equal.
  set (rest := sum_list_with _ sources). set (len := length (ts0 :: tss)).
  assert (seq (0 + len) rest = Nat.add len <$> seq 0 rest) as ->
    by (rewrite fmap_add_seq; f_equal; lia).
  rewrite <- list_fmap_compose. apply list_fmap_ext. intros i x _. cbn [compose].
  rewrite u16_position_shift. f_equal. lia.
Qed.

(** C7 Continuity across publisher switches: once a slot has sent a packet, any
    number of sources after it, each in order and of at most 32768 packets, come
    out as one unbroken run of sequence numbers. *)
Theorem sources_continuous r sources :
  output_initialized_ r = true ->
  Forall (fun s => 0 < Z.of_nat (length s.2) <= 2 ^ 15)%Z sources ->
  exists r' out, run_sources r sources = Some (r', out)
    /\ out.*1 = (fun i => u16 (latest_output_sequence_ r + 1 + Z.of_nat i))
                  <$> seq 0 (sum_list_with (fun s => length s.2) sources).
Proof. apply run_sources_continue. Qed.

(** The anchor never moves: a source that has sent exactly 32768 in-order
    packets has every packet of the next half cycle of sequence numbers refused,
    beginning with its very next one.  The publisher is muted until the numbers
    wrap around to its first packet. *)
Theorem long_source_muted r start ts0 tss :
  Z.of_nat (length (ts0 :: tss)) = (2 ^ 15)%Z ->
  exists r' out, run_source r start (ts0 :: tss) = Some (r', out)
    /\ forall k ts, (2 ^ 15 <= k < 2 ^ 16)%Z ->
       rewrite_numbers r' (snd (begin_source r)) (u16 (start + k)) ts = None.
Proof.
  intros Hlen. destruct (run_source_spec r start ts0 tss) as (r' & E & Hs); [lia |].
  exists r'. eexists. split; [exact E |]. intros k ts Hk.
  destruct Hs as [Hg Hi _ Ha _ _ _ _]. unfold rewrite_numbers.
  rewrite Hg, Z.eqb_refl, Hi. cbn [negb andb].
  assert (s16 (u16 (start + k) - source_anchor_sequence_ r') < 0)%Z as Hneg.
  { rewrite (s16_eqm _ k); [by apply s16_large |].
    rewrite (diff_eqm _ _ (start + k) start); [f_equal; lia | | done].
    unfold u16. by rewrite wrap_wrap. }
  apply Z.ltb_lt in Hneg as ->. done.
Qed.

(** A packet of a running source that is not newer than the newest one leaves
    the slot as it was. *)
Lemma in_source_old r g start ts0 base tbase n k ts :
  in_source r g start ts0 base tbase n -> (0 <= k < n)%Z -> (n <= 2 ^ 15)%Z ->
  rewrite_numbers r g (u16 (start + k)) ts
  = Some (r, u16 (base + k), u32 (tbase + (ts - ts0))).
Proof.
  intros [Hg Hi Ho Ha Hin Hpos Hoff Hts] Hk Hn. unfold rewrite_numbers.
  rewrite Hg, Z.eqb_refl, Hi. cbn [negb andb orb].
  assert (u16 (u16 (start + k)) = u16 (start + k)) as Hseq by (unfold u16; by rewrite wrap_wrap).
  assert (s16 (u16 (start + k) - source_anchor_sequence_ r) = k) as ->.
  { rewrite (s16_eqm _ k); [by apply s16_small; lia |].
    rewrite (diff_eqm _ _ _ _ Hseq Ha). f_equal. lia. }
  destruct (Z.ltb_spec k 0); [lia |]. rewrite Ho. cbn [negb orb].
  assert (sequence_is_newer (u16 (start + k)) (latest_input_sequence_ r) = false) as ->.
  { unfold sequence_is_newer. apply Z.ltb_ge.
    rewrite (s16_eqm _ (k - (n - 1))).
    2: { rewrite (diff_eqm _ _ _ _ Hseq Hin). f_equal. lia. }
    destruct (decide (k = n - 1)%Z) as [-> | Hne]; [by rewrite Z.sub_diag |].
    assert (s16 (k - (n - 1)) < 0)%Z; [| lia].
    rewrite (s16_eqm _ (k - (n - 1) + 2 ^ 16)); [apply s16_large; lia |].
    unfold u16, wrap. by rewrite <- (Z_mod_plus_full _ 1), Z.mul_1_l. }
  by rewrite (offset_out _ _ _ _ _ Hseq Hoff), (offset_ts _ _ _ _ Hts).
Qed.

(** Retransmissions: a packet of the running source that arrives again, at
    any time during the source, gets exactly the sequence number and timestamp
    it got the first time, and does not move the slot. *)
Theorem retransmission_stable r start tss k ts :
  (Z.of_nat (length tss) <= 2 ^ 15)%Z -> tss !! k = Some ts ->
  exists r' out o, run_source r start tss = Some (r', out) /\ out !! k = Some o
    /\ rewrite_numbers r' (snd (begin_source r)) (u16 (start + Z.of_nat k)) ts
       = Some (r', o.1, o.2).
Proof.
  intros Hlen Hk. destruct tss as [| ts0 tss]; [done |].
  destruct (run_source_spec r start ts0 tss Hlen) as (r' & E & Hs).
  pose proof (lookup_lt_Some _ _ _ Hk) as Hlt.
  do 3 eexists. split; [exact E |]. split; [by rewrite list_lookup_imap, Hk |].
  simpl. apply (in_source_old _ _ _ _ _ _ _ _ _ Hs); lia.
Qed.

(** ** Stale sources *)

Section Stale.
Variable IsRtcp : bytes -> bool.

Inductive slot_op : Type :=
  | OpBegin
  | OpEnd
  | OpRewrite (p : bytes) (source_generation output_ssrc : Z) (mid : option Z).

Definition slot_step (r : RtpSlotRewriter) (op : slot_op) : RtpSlotRewriter :=
  match op with
  | OpBegin => fst (begin_source r)
  | OpEnd => end_source r
  | OpRewrite p g ssrc mid =>
    match rewrite IsRtcp r p g ssrc mid with Some (r, _, _) => r | None => r end
  end.

Definition is_switch (op : slot_op) : bool :=
  match op with OpRewrite _ _ _ _ => false | _ => true end.

Lemma rewrite_total r p g ssrc mid :
  exists r' ok p', rewrite IsRtcp r p g ssrc mid = Some (r', ok, p')
    /\ generation_ r' = generation_ r
    /\ (g <> generation_ r -> r' = r /\ ok = false).
Proof.
  unfold rewrite.
  destruct (rewrite_rtp_for_slot_cases IsRtcp p ssrc mid) as (ok & p3 & -> & _ & Hok).
  cbn [mbind option_bind]. destruct ok; simpl; [| by exists r, false, p3].
  destruct (rewrite_stages_frame _ _ _ (Hok eq_refl))
    as (b0 & first & _ & _ & _ & Hfirst & _).
  assert (12 <= length p3) by (unfold kFixedHeaderSize in *; lia).
  destruct (network_u16_spec p3 2) as (seq & -> & _); [lia |].
  destruct (network_u32_spec p3 4) as (ts & -> & _); [lia |]. cbn [mbind option_bind].
  destruct (rewrite_numbers r g seq ts) as [[[r' s] t] |] eqn:En; [| by exists r, false, p3].
  unfold rewrite_numbers in En.
  destruct (Z.eqb_spec g (generation_ r)) as [Hg | Hg]; [| done].
  simpl in En. case_match; [done |]. injection En as <- <- <-.
  destruct (set_network_u16_spec p3 2 (u16 (seq + sequence_offset_
    (if negb (source_initialized_ r) then start_source r seq ts else r))))
    as (p4 & E4 & (Hl4 & _) & _); [lia |]. rewrite E4. cbn [mbind option_bind].
  match goal with |- context [set_network_u32 p4 4 ?v] =>
    destruct (set_network_u32_spec p4 4 v) as (p5 & -> & _); [lia |] end.
  cbn [mbind option_bind]. do 3 eexists. split; [done |]. split; [| done].
  repeat case_match; done.
Qed.

Lemma slot_step_generation r op :
  generation_ (slot_step r op)
  = if is_switch op then u64 (generation_ r + 1) else generation_ r.
Proof.
  destruct op as [| | p g ssrc mid]; simpl; [done.. |].
  destruct (rewrite_total r p g ssrc mid) as (r' & ok & p' & -> & Hg & _). done.
Qed.

Lemma slot_run_generation ops : forall r,
  is_u 64 (generation_ r) ->
  generation_ (foldl slot_step r ops)
  = u64 (generation_ r + Z.of_nat (length (filter is_switch ops))).
Proof.
  induction ops as [| op ops IH]; intros r Hr; cbn [foldl].
  { simpl. rewrite Z.add_0_r. unfold u64. by rewrite wrap_small. }
  rewrite IH, slot_step_generation, filter_cons.
  - destruct (is_switch op); simpl; [| done].
    unfold u64. rewrite wrap_add_l. f_equal. lia.
  - rewrite slot_step_generation. destruct (is_switch op); [| done]. apply wrap_range. lia.
Qed.

(** Stale sources never leak: once the slot was handed over or freed, at
    any point of any later history of the rewriter (up to 2^64 switches), a
    packet that carries the old generation is refused and changes nothing. *)
Theorem stale_generation_refused r ops p ssrc mid :
  is_u 64 (generation_ r) ->
  (0 < Z.of_nat (length (filter is_switch ops)) < 2 ^ 64)%Z ->
  exists p', rewrite IsRtcp (foldl slot_step r ops) p (generation_ r) ssrc mid
             = Some (foldl slot_step r ops, false, p').
Proof.
  intros Hr Hn. destruct (rewrite_total (foldl slot_step r ops) p (generation_ r) ssrc mid)
    as (r' & ok & p' & E & _ & Hstale).
  destruct Hstale as [-> ->]; [| eauto].
  rewrite slot_run_generation by done. intros Heq. unfold u64 in Heq.
  rewrite <- (wrap_small 64 (generation_ r) Hr) in Heq at 1. symmetry in Heq.
  apply wrap_eqm in Heq as [k Hk]; [| lia].
  assert (k <= 0 \/ 1 <= k)%Z as [] by lia; unfold is_u in Hr; nia.
Qed.
End Stale.

(** ** Witnesses *)

Lemma source_timeline_witness :
  exists r', run_source (new_rewriter 48000 960) 65535 [100; 1060]%Z
             = Some (r', [(65535, 100); (0, 1060)]%Z).
Proof.
  destruct (source_timeline (new_rewriter 48000 960) 65535 100 [1060]%Z) as [r' E];
    [cbn [length]; lia |].
  exists r'. exact E.
Defined.

Definition sample_slot : RtpSlotRewriter :=
  mkRewriter 48000 960 3 true true 10 65530 65534 65524 700 700 0.

Lemma sources_continuous_witness :
  exists r' out, run_sources sample_slot [(7, [0; 960]%Z); (9, [5]%Z)]%Z = Some (r', out)
    /\ out.*1 = [65535; 0; 1]%Z.
Proof.
  destruct (sources_continuous sample_slot [(7, [0; 960]%Z); (9, [5]%Z)]%Z)
    as (r' & out & E & Hout).
  - reflexivity.
  - repeat apply Forall_cons_2; [.. | apply Forall_nil_2]; cbn [snd length]; lia.
  - exists r', out. split; [exact E | exact Hout].
Defined.

Lemma long_source_muted_witness :
  exists r', rewrite_numbers r' 1 (u16 (0 + 2 ^ 15)) 0 = None
    /\ exists out, run_source (new_rewriter 48000 960) 0
                       (0%Z :: replicate (Z.to_nat (2 ^ 15) - 1) 0%Z) = Some (r', out).
Proof.
  destruct (long_source_muted (new_rewriter 48000 960) 0 0
    (replicate (Z.to_nat (2 ^ 15) - 1) 0%Z)) as (r' & out & E & Hmute).
  - cbn [length]. rewrite length_replicate. lia.
  - exists r'. split; [exact (Hmute (2 ^ 15)%Z 0%Z ltac:(lia)) |]. exists out. exact E.
Defined.

Lemma retransmission_stable_witness :
  exists r', rewrite_numbers r' 4 7 300 = Some (r', 65535%Z, 1660%Z).
Proof.
  destruct (retransmission_stable sample_slot 7 [300; 1260]%Z 0 300)
    as (r' & out & o & E & Ho & Hr); [cbn [length]; lia | reflexivity |].
  exists r'. revert Ho. vm_compute in E. injection E as <- <-. intros [= <-]. exact Hr.
Defined.

Lemma stale_generation_refused_witness :
  exists p', rewrite sample_IsRtcp (foldl (slot_step sample_IsRtcp) sample_slot [OpEnd; OpBegin])
               sample_packet 3 77 None
             = Some (foldl (slot_step sample_IsRtcp) sample_slot [OpEnd; OpBegin], false, p').
Proof.
  apply (stale_generation_refused sample_IsRtcp sample_slot [OpEnd; OpBegin] sample_packet 77 None);
    vm_compute; split; congruence.
Defined.
