(* ===== verification/SfuMedia.v ===== *)
(** * Link and fault models, SDP policy (backend/signaling_server/src/sfu_media_utils, header and source)

    The fault injector the routers put packets through, the link model that
    delays them, and the SDP helpers.  [double] is the Standard Library's
    executable IEEE 754 model at binary64; [std::log] and [std::cos], whose
    results the C++ standard does not fix, are parameters.  A signed overflow or
    a conversion out of range is undefined behaviour and is [None]. *)

From Stdlib Require Import SpecFloat.
From S2P Require Import Prelude Text.

(** ** Configuration and state records *)

Abbreviation double := spec_float (only parsing).

Definition dadd := SFadd 53 1024.
Definition dmul := SFmul 53 1024.
Definition ddiv := SFdiv 53 1024.
Definition dsqrt := SFsqrt 53 1024.
Definition dltb := SFltb.
Definition double_of_Z (z : Z) : double := binary_normalize 53 1024 z 0 false.

(** [std::max] on doubles: the first unless it is smaller. *)
Definition dmax (a b : double) : double := if dltb a b then b else a.

(** [static_cast<int64_t>] truncates; out of range is undefined. *)
Definition i64 (z : Z) : option Z :=
  if decide (- 2 ^ 63 <= z < 2 ^ 63)%Z then Some z else None.

Definition double_to_i64 (f : double) : option Z :=
  match f with
  | S754_zero _ => Some 0%Z
  | S754_finite s m e =>
    let v := if (0 <=? e)%Z then (Zpos m * 2 ^ e)%Z else Z.shiftr (Zpos m) (- e) in
    i64 (if s then - v else v)%Z
  | _ => None
  end.

Record BurstLossConfig := {
  good_to_bad : double;
  bad_to_good : double;
  loss_in_good : double;
  loss_in_bad : double;
  burst_seed : Z;
}.

Definition burst_enabled (b : BurstLossConfig) : bool :=
  dltb (double_of_Z 0) (good_to_bad b) || dltb (double_of_Z 0) (loss_in_good b).

Record LinkModelConfig := {
  queue_delay_ms : Z;
  delay_standard_deviation_ms : Z;
  queue_length_packets : Z;
  link_capacity_kbps : Z;
  allow_reordering : bool;
  duplicate_every_nth : Z;
  link_seed : Z;
}.

Definition link_enabled (c : LinkModelConfig) : bool :=
  ((0 <? queue_delay_ms c) || (0 <? delay_standard_deviation_ms c)
   || (0 <? link_capacity_kbps c) || (0 <? duplicate_every_nth c))%Z.

Record LinkModelState := mkLink {
  link_initialized : bool;
  link_rng : Z;
  link_packets_seen : Z;
  capacity_busy_until_us : Z;
  last_departure_us : Z;
  queued_packets : Z;
}.

Definition initial_link : LinkModelState := mkLink false 0 0 0 0 0.

Record LinkScheduleResult := { departure_us : Z; duplicate : bool }.

Record RtpFaultConfig := {
  drop_every_nth : Z;
  reorder_every_nth : Z;
  burst : BurstLossConfig;
  link : LinkModelConfig;
  link_down : bool;
  packet_tap : bool;
}.

Record RtpFaultState := mkFault {
  fault_packets_seen : Z;
  delayed_packet : option bytes;
  burst_initialized : bool;
  in_bad_state : bool;
  fault_rng : Z;
}.

Definition initial_fault : RtpFaultState := mkFault 0 None false false 0.

(** [first] and [second] of the struct, with what the tap was shown. *)
Record RtpFaultResult := { first : option bytes; second : option bytes; tapped : list bytes }.

(** ** The random source *)

Definition next_random (state : Z) : Z * Z :=
  let state := u64 (state + 0x9E3779B97F4A7C15) in
  let z := state in
  let z := u64 (Z.lxor z (Z.shiftr z 30) * 0xBF58476D1CE4E5B9) in
  let z := u64 (Z.lxor z (Z.shiftr z 27) * 0x94D049BB133111EB) in
  (Z.lxor z (Z.shiftr z 31), state).

Definition next_unit (state : Z) : double * Z :=
  let '(r, state) := next_random state in
  (ddiv (double_of_Z (Z.shiftr r 11)) (double_of_Z (2 ^ 53)), state).

Definition burst_should_drop (b : BurstLossConfig) (state : RtpFaultState) : bool * RtpFaultState :=
  let state :=
    if burst_initialized state then state
    else mkFault (fault_packets_seen state) (delayed_packet state) true false
           (u64 (burst_seed b + 0xD1B54A32D192ED03)) in
  let loss_probability := if in_bad_state state then loss_in_bad b else loss_in_good b in
  let '(u, rng) := next_unit (fault_rng state) in
  let lost := dltb u loss_probability in
  let transition := if in_bad_state state then bad_to_good b else good_to_bad b in
  let '(u, rng) := next_unit rng in
  let bad := if dltb u transition then negb (in_bad_state state) else in_bad_state state in
  (lost, mkFault (fault_packets_seen state) (delayed_packet state)
           (burst_initialized state) bad rng).

Section LinkModel.
(** libm: the C++ standard leaves their rounding to the implementation. *)
Variables std_log std_cos : double -> double.

(** 1e-12, and 2 * kPi as the compiler folds it. *)
Definition tiny : double := S754_finite false 4951760157141521 (-92).
Definition two_pi : double := S754_finite false 7074237752028440 (-50).

Definition next_gaussian (state : Z) : double * Z :=
  let '(u, state) := next_unit state in
  let u1 := dmax u tiny in
  let '(u2, state) := next_unit state in
  (dmul (dsqrt (dmul (double_of_Z (-2)) (std_log u1))) (std_cos (dmul two_pi u2)), state).

(** The delay the queue adds, in microseconds, and the random state after. *)
Definition queue_delay_us (c : LinkModelConfig) (rng : Z) : option (Z * Z) :=
  if ((0 <? queue_delay_ms c) || (0 <? delay_standard_deviation_ms c))%Z then
    let '(jitter_ms, rng) :=
      if (0 <? delay_standard_deviation_ms c)%Z then
        let '(g, rng) := next_gaussian rng in
        (dmul g (double_of_Z (delay_standard_deviation_ms c)), rng)
      else (double_of_Z 0, rng) in
    let delay_ms := dmax (double_of_Z 0) (dadd (double_of_Z (queue_delay_ms c)) jitter_ms) in
    us ← double_to_i64 (dmul delay_ms (double_of_Z 1000));
    Some (us, rng)
  else Some (0%Z, rng).

Definition serialization_us (c : LinkModelConfig) (packet_bytes : Z) : option Z :=
  if Z.eqb (link_capacity_kbps c) 0 then Some 0%Z
  else bits ← i64 (packet_bytes * 8000); Some (Z.quot bits (link_capacity_kbps c)).

(** The outer [None] is undefined behaviour; the inner one is the packet lost
    to a full queue. *)
Definition schedule_packet_departure (c : LinkModelConfig) (state : LinkModelState)
    (arrival_us packet_bytes : Z) : option (option LinkScheduleResult * LinkModelState) :=
  if negb (link_enabled c) then
    Some (Some {| departure_us := arrival_us; duplicate := false |}, state)
  else
    let rng := if link_initialized state then link_rng state
               else u64 (link_seed c + 0x9E3779B97F4A7C15) in
    let packets_seen := u64 (link_packets_seen state + 1) in
    let start := Z.max arrival_us (capacity_busy_until_us state) in
    serialization ← serialization_us c packet_bytes;
    busy_until ← i64 (start + serialization);
    '(delay, rng) ← queue_delay_us c rng;
    departure ← i64 (busy_until + delay);
    let departure := if allow_reordering c then departure
                     else Z.max departure (last_departure_us state) in
    if ((arrival_us <? departure) && negb (Z.eqb (queue_length_packets c) 0)
        && (queue_length_packets c <=? queued_packets state))%Z
    then Some (None, mkLink true rng packets_seen (capacity_busy_until_us state)
                       (last_departure_us state) (queued_packets state))
    else
      let queued := if (arrival_us <? departure)%Z then (queued_packets state + 1)%Z
                    else queued_packets state in
      Some (Some {| departure_us := departure;
                    duplicate := negb (Z.eqb (duplicate_every_nth c) 0)
                      && Z.eqb (packets_seen mod duplicate_every_nth c) 0 |},
            mkLink true rng packets_seen busy_until departure queued).
End LinkModel.

(** ** The fault injector *)

Section Faults.
Variable IsRtcp : bytes -> bool.

Definition apply_rtp_faults (c : RtpFaultConfig) (state : RtpFaultState) (packet : bytes) :
    RtpFaultResult * RtpFaultState :=
  let tapped := if packet_tap c then [packet] else [] in
  let nothing := {| first := None; second := None; tapped := tapped |} in
  let forwarded := {| first := Some packet; second := None; tapped := tapped |} in
  if IsRtcp packet
     || (Z.eqb (drop_every_nth c) 0 && Z.eqb (reorder_every_nth c) 0
         && negb (burst_enabled (burst c)))
  then (forwarded, state)
  else
    let seen := u64 (fault_packets_seen state + 1) in
    let state := mkFault seen (delayed_packet state) (burst_initialized state)
                   (in_bad_state state) (fault_rng state) in
    let '(burst_drop, state) :=
      if burst_enabled (burst c) then burst_should_drop (burst c) state else (false, state) in
    if burst_drop
       || (negb (Z.eqb (drop_every_nth c) 0) && Z.eqb (seen mod drop_every_nth c) 0)
    then (nothing, state)
    else
      match delayed_packet state with
      | Some held =>
        ({| first := Some packet; second := Some held; tapped := tapped |},
         mkFault seen None (burst_initialized state) (in_bad_state state) (fault_rng state))
      | None =>
        if negb (Z.eqb (reorder_every_nth c) 0) && Z.eqb (seen mod reorder_every_nth c) 0
        then (nothing, mkFault seen (Some packet) (burst_initialized state)
                         (in_bad_state state) (fault_rng state))
        else (forwarded, state)
      end.
End Faults.

(** ** Runs of the injector *)

Definition held_packets (state : RtpFaultState) : list bytes :=
  option_list (delayed_packet state).

Section FaultRuns.
Variable IsRtcp : bytes -> bool.
Variable c : RtpFaultConfig.

Definition emitted (r : RtpFaultResult) : list bytes :=
  option_list (first r) ++ option_list (second r).

(** What a sequence of packets comes out as, in order. *)
Fixpoint run_faults (state : RtpFaultState) (packets : list bytes) : list bytes * RtpFaultState :=
  match packets with
  | [] => ([], state)
  | p :: packets =>
    let '(r, state) := apply_rtp_faults IsRtcp c state p in
    let '(out, state) := run_faults state packets in
    (emitted r ++ out, state)
  end.

Definition impairs : bool :=
  negb (Z.eqb (drop_every_nth c) 0) || negb (Z.eqb (reorder_every_nth c) 0)
  || burst_enabled (burst c).

Lemma burst_should_drop_frame b state :
  let '(_, state') := burst_should_drop b state in
  delayed_packet state' = delayed_packet state
  /\ fault_packets_seen state' = fault_packets_seen state.
Proof.
  unfold burst_should_drop. destruct (burst_initialized state);
    destruct (next_unit _) as [u rng]; destruct (next_unit rng) as [u' rng']; done.
Qed.

(** Closes a case where the packet is emitted or held. *)
Local Ltac none_lost :=
  exists []; split_and!; [simpl; by rewrite ?app_nil_r | by left | done].

(** The packet passed the drop rules: it is emitted, alone or before the held
    one, or it becomes the held one. *)
Lemma apply_rtp_faults_cases state p :
  let '(r, state') := apply_rtp_faults IsRtcp c state p in
  exists lost,
    p :: held_packets state ≡ₚ emitted r ++ held_packets state' ++ lost
    /\ (lost = [] \/ lost = [p] /\ IsRtcp p = false /\ impairs = true)
    /\ (IsRtcp p = true -> emitted r = [p] /\ state' = state).
Proof.
  unfold apply_rtp_faults, emitted, held_packets.
  destruct (IsRtcp p) eqn:Hr; cbn [orb].
  { none_lost. }
  destruct (Z.eqb (drop_every_nth c) 0 && Z.eqb (reorder_every_nth c) 0
            && negb (burst_enabled (burst c))) eqn:Hoff; cbn [orb].
  { none_lost. }
  assert (impairs = true) as Himp.
  { unfold impairs. revert Hoff. by destruct (Z.eqb _ _), (Z.eqb _ _), (burst_enabled _). }
  set (st0 := mkFault _ _ _ _ _).
  pose proof (burst_should_drop_frame (burst c) st0) as Hb.
  assert (exists drop st1, (if burst_enabled (burst c) then burst_should_drop (burst c) st0
                            else (false, st0)) = (drop, st1)
                           /\ delayed_packet st1 = delayed_packet state) as (drop & st1 & -> & Hd).
  { destruct (burst_enabled _); [| by exists false, st0].
    destruct (burst_should_drop (burst c) st0) as [drop st1] eqn:Eb. rewrite ?Eb in Hb.
    destruct Hb as [Hb _].
    by exists drop, st1. }
  destruct (_ || _) eqn:Hdrop.
  { exists [p]. rewrite Hd. simpl. split_and!; [solve_Permutation | by right | done]. }
  rewrite Hd. destruct (delayed_packet state) as [held |] eqn:Hheld; simpl.
  { none_lost. }
  destruct (negb (Z.eqb (reorder_every_nth c) 0) && _); simpl.
  - none_lost.
  - rewrite Hd. none_lost.
Qed.

(** Packet conservation: over any run, the packets that went in, with the
    one held at the start, are exactly those that came out, those dropped and
    the one still held; nothing is duplicated or invented.  Only RTP is ever
    dropped, and only by a configuration that impairs. *)
Theorem faults_conserve_packets state packets :
  let '(out, state') := run_faults state packets in
  exists lost,
    held_packets state ++ packets ≡ₚ out ++ held_packets state' ++ lost
    /\ Forall (fun p => IsRtcp p = false) lost
    /\ (impairs = false -> lost = []).
Proof.
  revert state. induction packets as [| p packets IH]; intros state; cbn [run_faults].
  { exists []. by rewrite app_nil_r. }
  pose proof (apply_rtp_faults_cases state p) as Hp.
  destruct (apply_rtp_faults IsRtcp c state p) as [r st1].
  specialize (IH st1). destruct (run_faults st1 packets) as [out st2].
  destruct Hp as (l1 & Hp & Hl1 & _). destruct IH as (l2 & IH & Hrtp & Hoff).
  exists (l1 ++ l2). split_and!.
  - transitivity ((p :: held_packets state) ++ packets); [solve_Permutation |].
    rewrite Hp. transitivity (emitted r ++ (held_packets st1 ++ packets) ++ l1);
      [solve_Permutation |]. rewrite IH. solve_Permutation.
  - apply Forall_app; split; [| done].
    destruct Hl1 as [-> | (-> & Hrt & _)]; repeat constructor. done.
  - intros Himp. rewrite (Hoff Himp).
    destruct Hl1 as [-> | (_ & _ & Hbad)]; [done | congruence].
Qed.
End FaultRuns.

(** ** How much is dropped *)

Lemma div_step a n :
  (0 < n)%Z -> ((a + 1) / n = a / n + (if Z.eqb ((a + 1) mod n) 0 then 1 else 0))%Z.
Proof.
  intros Hn.
  pose proof (Z.div_mod a n ltac:(lia)). pose proof (Z.div_mod (a + 1) n ltac:(lia)).
  pose proof (Z.mod_pos_bound a n Hn). pose proof (Z.mod_pos_bound (a + 1) n Hn).
  destruct (Z.eqb_spec ((a + 1) mod n) 0); nia.
Qed.

Section DropRate.
Variable IsRtcp : bytes -> bool.
Variable c : RtpFaultConfig.
Hypothesis no_burst : burst_enabled (burst c) = false.
Hypothesis drops : (0 < drop_every_nth c)%Z.

Definition in_flight (out : list bytes) (state : RtpFaultState) : Z :=
  Z.of_nat (length out + length (held_packets state)).

Lemma apply_rtp_faults_count state p :
  is_u 64 (fault_packets_seen state + 1) ->
  let seen := (fault_packets_seen state + 1)%Z in
  let '(r, state') := apply_rtp_faults IsRtcp c state p in
  in_flight (emitted r) state'
  = (in_flight [p] state
     - (if IsRtcp p then 0 else if Z.eqb (seen mod drop_every_nth c) 0 then 1 else 0))%Z
  /\ fault_packets_seen state' = (if IsRtcp p then fault_packets_seen state else seen).
Proof using no_burst drops.
  intros Hseen. cbn zeta. unfold apply_rtp_faults. destruct (IsRtcp p); cbn [orb].
  { unfold in_flight. simpl. split; [lia | done]. }
  assert (Z.eqb (drop_every_nth c) 0 = false) as -> by (apply Z.eqb_neq; lia).
  rewrite no_burst. cbn [andb negb orb]. unfold u64. rewrite wrap_small by done.
  destruct (Z.eqb (_ mod drop_every_nth c) 0);
    [unfold in_flight, held_packets; simpl; split; [lia | done] |].
  unfold in_flight, held_packets. destruct (delayed_packet state) eqn:Hd;
    cbn [delayed_packet orb]; rewrite ?Hd; [simpl; split; [lia | done] |].
  destruct (negb (Z.eqb (reorder_every_nth c) 0) && _); simpl; rewrite ?Hd; simpl;
    split; lia || done.
Qed.

Definition rtp_count (packets : list bytes) : Z :=
  Z.of_nat (length (filter (fun p => IsRtcp p = false) packets)).

(** Drop rate: with no burst loss, exactly every [drop_every_nth]-th RTP
    packet is dropped, counted across the whole run. *)
Theorem drop_every_nth_exact state packets :
  (0 <= fault_packets_seen state)%Z ->
  (fault_packets_seen state + rtp_count packets < 2 ^ 64)%Z ->
  let '(out, state') := run_faults IsRtcp c state packets in
  in_flight out state'
  = (in_flight packets state
     - ((fault_packets_seen state + rtp_count packets) / drop_every_nth c
        - fault_packets_seen state / drop_every_nth c))%Z.
Proof using no_burst drops.
  revert state. induction packets as [| p packets IH]; intros state H0 Hmax; cbn [run_faults].
  { unfold rtp_count. simpl. rewrite Z.add_0_r. lia. }
  unfold rtp_count in *. rewrite filter_cons in *.
  assert (is_u 64 (fault_packets_seen state + 1) \/ IsRtcp p = true) as Hcase.
  { destruct (IsRtcp p); [by right | left]. simpl in Hmax. unfold is_u. lia. }
  destruct (IsRtcp p) eqn:Hr.
  - cbn [decide] in *. assert (apply_rtp_faults IsRtcp c state p
      = ({| first := Some p; second := None;
            tapped := if packet_tap c then [p] else [] |}, state)) as ->.
    { unfold apply_rtp_faults. by rewrite Hr. }
    specialize (IH state H0). destruct (decide (true = false)) as [| _]; [done |].
    specialize (IH ltac:(done)). destruct (run_faults IsRtcp c state packets) as [out st2].
    unfold in_flight in *. rewrite length_app. simpl in *. lia.
  - destruct Hcase as [Hcase | ?]; [| done].
    pose proof (apply_rtp_faults_count state p Hcase) as Hp. rewrite Hr in Hp.
    destruct (apply_rtp_faults IsRtcp c state p) as [r st1]. destruct Hp as [Hcount Hseen].
    destruct (decide (false = false)) as [_ |]; [| done]. cbn [length] in *.
    specialize (IH st1). rewrite Hseen in IH.
    destruct (run_faults IsRtcp c st1 packets) as [out st2].
    rewrite (div_step (fault_packets_seen state)) in IH by lia.
    unfold in_flight in *. rewrite length_app. cbn [length] in *.
    specialize (IH ltac:(lia) ltac:(lia)).
    replace (fault_packets_seen state + Z.of_nat (S (length (filter (fun p => IsRtcp p = false) packets))))%Z
      with (fault_packets_seen state + 1 + Z.of_nat (length (filter (fun p => IsRtcp p = false) packets)))%Z by lia.
    lia.
Qed.
End DropRate.

(** ** The link model *)

Definition not_negative (f : double) : Prop :=
  match f with
  | S754_finite true _ _ | S754_infinity true => False
  | _ => True
  end.

Lemma round_not_negative m e l : not_negative (binary_round_aux 53 1024 false m e l).
Proof.
  unfold binary_round_aux. destruct (shr_fexp _ _ m e l) as [r e'].
  destruct (shr_fexp _ _ _ e' loc_Exact) as [r' e'']. destruct (shr_m r'); [done | | done].
  by destruct (_ <=? _)%Z.
Qed.

Lemma dmul_not_negative a b : not_negative a -> not_negative b -> not_negative (dmul a b).
Proof.
  destruct a as [? | [] | | []], b as [? | [] | | []]; simpl; try done.
  intros _ _. apply round_not_negative.
Qed.

Lemma dmax_zero_not_negative x : not_negative (dmax (double_of_Z 0) x).
Proof. unfold dmax. destruct x as [? | [] | | []]; done. Qed.

Lemma double_to_i64_nonneg f z : not_negative f -> double_to_i64 f = Some z -> (0 <= z)%Z.
Proof.
  destruct f as [? | ? | | [] m e]; try done; simpl; intros _ H.
  - by injection H as <-.
  - unfold i64 in H. case_decide; [| done]. injection H as <-.
    destruct (Z.leb_spec 0 e); [nia | apply Z.shiftr_nonneg; lia].
Qed.

Section Link.
Variables std_log std_cos : double -> double.
Variable c : LinkModelConfig.
Hypothesis capacity_nonneg : (0 <= link_capacity_kbps c)%Z.

Lemma queue_delay_us_nonneg rng us rng' :
  queue_delay_us std_log std_cos c rng = Some (us, rng') -> (0 <= us)%Z.
Proof using Type.
  unfold queue_delay_us. destruct (_ || _)%Z; [| intros [= <- <-]; lia].
  destruct (if (0 <? delay_standard_deviation_ms c)%Z then _ else _) as [jitter rng2].
  intros H. bind_inv. eapply double_to_i64_nonneg; [| exact Ha].
  apply dmul_not_negative; [apply dmax_zero_not_negative | done].
Qed.

Lemma serialization_us_nonneg packet_bytes us :
  (0 <= packet_bytes)%Z -> serialization_us c packet_bytes = Some us -> (0 <= us)%Z.
Proof using capacity_nonneg.
  intros Hb. unfold serialization_us. destruct (Z.eqb_spec (link_capacity_kbps c) 0); [by intros [= <-] |].
  intros H. bind_inv. unfold i64 in Ha. case_decide; [| done]. injection Ha as <-.
  apply Z.quot_pos; lia.
Qed.

(** What one accepted packet does to the link. *)
Lemma schedule_accepted state arrival_us packet_bytes r state' :
  link_enabled c = true -> (0 <= packet_bytes)%Z ->
  schedule_packet_departure std_log std_cos c state arrival_us packet_bytes
    = Some (Some r, state') ->
  (arrival_us <= departure_us r)%Z
  /\ (capacity_busy_until_us state <= capacity_busy_until_us state')%Z
  /\ (allow_reordering c = false ->
      capacity_busy_until_us state' <= departure_us r
      /\ last_departure_us state <= departure_us r)%Z
  /\ last_departure_us state' = departure_us r.
Proof using capacity_nonneg.
  intros Hen Hb. unfold schedule_packet_departure. rewrite Hen. cbn [negb].
  intros H. bind_inv. destruct a1 as [delay rng]. bind_inv.
  apply serialization_us_nonneg in Ha; [| done]. apply queue_delay_us_nonneg in Ha1.
  unfold i64 in *. case_decide; [| done]. case_decide; [| done].
  injection Ha0 as <-. injection Ha2 as <-.
  case_match; [done |]. injection H as <- <-. simpl.
  destruct (allow_reordering c); split_and!; try done; lia.
Qed.

(** A rejected packet is one that would have waited in a full queue. *)
Lemma schedule_rejected state arrival_us packet_bytes state' :
  schedule_packet_departure std_log std_cos c state arrival_us packet_bytes
    = Some (None, state') ->
  last_departure_us state' = last_departure_us state
  /\ capacity_busy_until_us state' = capacity_busy_until_us state
  /\ queued_packets state' = queued_packets state
  /\ (0 < queue_length_packets c \/ queue_length_packets c < 0)%Z.
Proof using Type.
  unfold schedule_packet_departure. destruct (negb (link_enabled c)); [done |].
  intros H. bind_inv. destruct a1 as [delay rng]. bind_inv.
  case_match eqn:Hc; [| done]. injection H as <-. split_and!; try done.
  apply andb_true_iff in Hc as [[_ Hq]%andb_true_iff _].
  apply negb_true_iff, Z.eqb_neq in Hq. lia.
Qed.

(** The departures of the accepted packets of a run, in arrival order. *)
Fixpoint run_link (state : LinkModelState) (arrivals : list (Z * Z)) :
    option (list Z * LinkModelState) :=
  match arrivals with
  | [] => Some ([], state)
  | (arrival_us, packet_bytes) :: arrivals =>
    '(r, state) ← schedule_packet_departure std_log std_cos c state arrival_us packet_bytes;
    '(out, state) ← run_link state arrivals;
    Some (match r with Some r => departure_us r :: out | None => out end, state)
  end.

(** First in, first out: without reordering the accepted packets leave the
    link in the order they arrived, and the queue never exceeds the configured
    length by more than it already did. *)
Theorem link_fifo state arrivals out state' :
  link_enabled c = true -> allow_reordering c = false ->
  Forall (fun a => 0 <= a.2)%Z arrivals ->
  run_link state arrivals = Some (out, state') ->
  Sorted Z.le (last_departure_us state :: out)
  /\ (queue_length_packets c <> 0 ->
      queued_packets state' <= Z.max (queue_length_packets c) (queued_packets state))%Z.
Proof using capacity_nonneg.
  intros Hen Hre. revert state out. induction arrivals as [| [a b] arrivals IH];
    intros state out Hb Hrun; cbn [run_link] in Hrun.
  { injection Hrun as <- <-. split; [by repeat constructor | lia]. }
  apply Forall_cons in Hb as [Hb0 Hb]. simpl in Hb0. bind_inv.
  destruct a0 as [[r |] st1]; bind_inv; destruct a0 as [out1 st2]; simplify_eq.
  - assert (queue_length_packets c <> 0 -> queued_packets st1
            <= Z.max (queue_length_packets c) (queued_packets state))%Z as Hq.
    { clear IH Ha0. revert Ha. unfold schedule_packet_departure. rewrite Hen, Hre. cbn [negb].
      intros Ha Hnz. bind_inv. destruct a2 as [delay rng]. bind_inv.
      case_match eqn:Hc; [done |]. injection Ha as _ <-. simpl.
      destruct (a <? _)%Z; [| lia]. cbn [andb] in Hc.
      apply andb_false_iff in Hc as [Hc | Hc]; [| apply Z.leb_gt in Hc; lia].
      apply negb_false_iff, Z.eqb_eq in Hc. done. }
    destruct (schedule_accepted _ _ _ _ _ Hen Hb0 Ha) as (_ & _ & Hf & Hl).
    destruct (IH _ _ Hb Ha0) as [Hs Hq']. split; [| lia].
    rewrite Hl in Hs. constructor; [done |]. constructor. by apply Hf.
  - destruct (schedule_rejected _ _ _ _ Ha) as (Hl & _ & Hq & _).
    destruct (IH _ _ Hb Ha0) as [Hs Hq']. rewrite Hl in Hs. split; [done | lia].
Qed.

(** No undefined behaviour on a capacity-only link: with no artificial
    delay, microsecond clocks below 2^62 and packets below 4 GiB, scheduling
    always returns, and never before the bytes are through the link. *)
Theorem link_capacity_total state arrival_us packet_bytes :
  queue_delay_ms c = 0%Z -> delay_standard_deviation_ms c = 0%Z ->
  is_u 62 arrival_us -> is_u 62 (capacity_busy_until_us state) -> is_u 32 packet_bytes ->
  exists r state',
    schedule_packet_departure std_log std_cos c state arrival_us packet_bytes = Some (r, state').
Proof using capacity_nonneg.
  unfold is_u. intros Hq Hd Ha Hbusy Hb. unfold schedule_packet_departure.
  destruct (negb (link_enabled c)); [by eauto |].
  assert (exists us, serialization_us c packet_bytes = Some us /\ 0 <= us <= 2 ^ 45)%Z
    as (us & -> & Hus).
  { unfold serialization_us. case_match eqn:E; [by exists 0%Z |].
    apply Z.eqb_neq in E. unfold i64. rewrite decide_True by lia. eexists. split; [done |].
    split; [apply Z.quot_pos; lia |].
    transitivity (packet_bytes * 8000)%Z; [| lia].
    assert (0 <= packet_bytes * 8000)%Z as Hx by lia.
    generalize dependent (packet_bytes * 8000)%Z. intros x Hx.
    apply Z.quot_le_upper_bound; nia. }
  cbn [mbind option_bind]. unfold i64. rewrite decide_True by lia. cbn [mbind option_bind].
  unfold queue_delay_us. rewrite Hq, Hd. cbn [Z.ltb Z.compare orb mbind option_bind].
  rewrite decide_True by lia. cbn [mbind option_bind]. case_match; eauto.
Qed.
End Link.

(** ** SDP policy

    [rtc::Description::Media] is libdatachannel's: an interface of the accessors
    the code calls, with their documented behaviour as laws.  [feedbacks] is not
    called by the code; it says what a mapping's feedback list holds. *)

Class MediaApi (Media : Type) := {
  payloadTypes : Media -> list Z;
  (** format and clock rate; [None] is the exception of an unknown type *)
  rtpMap : Media -> Z -> option (string * Z);
  feedbacks : Media -> Z -> list string;
  removeFeedback : Media -> Z -> string -> Media;
  extIds : Media -> list Z;
  extMap : Media -> Z -> option string;
  removeExtMap : Media -> Z -> Media;
  removeFormat : Media -> string -> Media;
}.

Class MediaLaws (Media : Type) `{MediaApi Media} : Prop := {
  removeFeedback_gone d pt f : f ∉ feedbacks (removeFeedback d pt f) pt;
  removeFeedback_sub d pt f pt' : feedbacks (removeFeedback d pt f) pt' ⊆ feedbacks d pt';
  removeFeedback_map d pt f : rtpMap (removeFeedback d pt f) = rtpMap d;
  removeFeedback_types d pt f : payloadTypes (removeFeedback d pt f) = payloadTypes d;
  removeFeedback_ids d pt f : extIds (removeFeedback d pt f) = extIds d;
  removeFeedback_ext d pt f : extMap (removeFeedback d pt f) = extMap d;
  removeExtMap_ids d id : extIds (removeExtMap d id) = filter (fun i => i <> id) (extIds d);
  removeExtMap_ext d id id' :
    extMap (removeExtMap d id) id' = if decide (id' = id) then None else extMap d id';
  removeExtMap_feedbacks d id : feedbacks (removeExtMap d id) = feedbacks d;
}.

Section Sdp.
Context `{MediaApi Media}.
Local Open Scope string_scope.

Definition kMidExtensionUri : string := "urn:ietf:params:rtp-hdrext:sdes:mid".
Definition kTransportSequenceNumberUri : string :=
  "http://www.ietf.org/id/draft-holmer-rmcat-transport-wide-cc-extensions-01".
Definition kTransportSequenceNumberV2Uri : string :=
  "http://www.webrtc.org/experiments/rtp-hdrext/transport-wide-cc-02".

Definition lowercase (s : string) : string := of_chars (to_lower (chars s)).

Definition is_auxiliary_video_format (format : string) : bool :=
  bool_decide (format ∈ ["red"; "rtx"; "ulpfec"; "flexfec-03"]).

(** [try_rtp_map] turns the exception into a null pointer: [rtpMap] itself. *)
Definition strip_feedback (d : Media) (payload_type : Z) : Media :=
  match rtpMap d payload_type with
  | Some _ =>
    removeFeedback (removeFeedback d payload_type "transport-cc") payload_type "goog-remb"
  | None => d
  end.

Definition is_transport_sequence (uri : string) : bool :=
  bool_decide (uri = kTransportSequenceNumberUri)
  || bool_decide (uri = kTransportSequenceNumberV2Uri).

Definition strip_extension (d : Media) (id : Z) : Media :=
  match extMap d id with
  | Some uri => if is_transport_sequence uri then removeExtMap d id else d
  | None => d
  end.

(** Both loops run over the lists as they were when the loop began. *)
Definition apply_forwarding_feedback_policy (d : Media) : Media :=
  let d := foldl strip_feedback d (payloadTypes d) in
  foldl strip_extension d (extIds d).

Definition remove_auxiliary_video_codecs (d : Media) : Media :=
  removeFormat (removeFormat (removeFormat (removeFormat d "rtx") "red") "ulpfec") "flexfec-03".

Definition is_mid_id (d : Media) (id : Z) : bool :=
  bool_decide (0 < id <= 255)%Z && bool_decide (extMap d id = Some kMidExtensionUri).

Fixpoint find_mid_id (d : Media) (ids : list Z) : option Z :=
  match ids with
  | [] => None
  | id :: ids => if is_mid_id d id then Some id else find_mid_id d ids
  end.

Definition mid_extension_id (d : Media) : option Z := find_mid_id d (extIds d).

Record RtpFormat := { payload_type : Z; clock_rate : Z }.

Definition usable_format (d : Media) (media_type : string) (pt : Z) : option RtpFormat :=
  match rtpMap d pt with
  | None => None
  | Some (format, rate) =>
    if decide (pt < 0 \/ 127 < pt)%Z then None
    else
      let format := lowercase format in
      if (bool_decide (media_type = "audio") && negb (bool_decide (format = "opus")))
         || (bool_decide (media_type = "video") && is_auxiliary_video_format format)
      then None
      else Some {| payload_type := u8 pt; clock_rate := u32 rate |}
  end.

Fixpoint first_usable (d : Media) (media_type : string) (pts : list Z) : option RtpFormat :=
  match pts with
  | [] => None
  | pt :: pts =>
    match usable_format d media_type pt with
    | Some f => Some f
    | None => first_usable d media_type pts
    end
  end.

Definition primary_rtp_format (d : Media) (media_type : string) : RtpFormat :=
  match first_usable d media_type (payloadTypes d) with
  | Some f => f
  | None => if bool_decide (media_type = "audio")
            then {| payload_type := 111; clock_rate := 48000 |}
            else {| payload_type := 96; clock_rate := 90000 |}
  end.

Context `{!MediaLaws Media}.

Lemma strip_feedback_frame d pt :
  rtpMap (strip_feedback d pt) = rtpMap d /\ payloadTypes (strip_feedback d pt) = payloadTypes d
  /\ extIds (strip_feedback d pt) = extIds d /\ extMap (strip_feedback d pt) = extMap d
  /\ (forall pt', feedbacks (strip_feedback d pt) pt' ⊆ feedbacks d pt').
Proof using Type*.
  unfold strip_feedback. destruct (rtpMap d pt); [| by split_and!].
  rewrite !removeFeedback_map, !removeFeedback_types, !removeFeedback_ids, !removeFeedback_ext.
  split_and!; try done. intros pt'. etrans; apply removeFeedback_sub.
Qed.

Lemma strip_feedbacks_frame pts : forall d,
  let d' := foldl strip_feedback d pts in
  rtpMap d' = rtpMap d /\ extIds d' = extIds d /\ extMap d' = extMap d
  /\ (forall pt', feedbacks d' pt' ⊆ feedbacks d pt')
  /\ (forall pt, pt ∈ pts -> is_Some (rtpMap d pt) ->
      ("transport-cc" ∉ feedbacks d' pt) /\ ("goog-remb" ∉ feedbacks d' pt)).
Proof using Type*.
  induction pts as [| pt pts IH]; intros d; cbn [foldl].
  { split_and!; try done. intros pt Hpt. by apply not_elem_of_nil in Hpt. }
  destruct (strip_feedback_frame d pt) as (Hm & _ & Hi & He & Hsub).
  destruct (IH (strip_feedback d pt)) as (Hm' & Hi' & He' & Hsub' & Hgone).
  split_and!; [by rewrite Hm' | by rewrite Hi' | by rewrite He' | |].
  { intros pt'. etrans; [apply Hsub' | apply Hsub]. }
  intros pt' [-> | Hin]%elem_of_cons Hsome; [| apply Hgone; [done | by rewrite Hm]].
  destruct Hsome as [x Hx].
  assert (strip_feedback d pt
          = removeFeedback (removeFeedback d pt "transport-cc") pt "goog-remb") as E
    by (unfold strip_feedback; by rewrite Hx).
  split; intros Hf; apply Hsub' in Hf; rewrite E in Hf.
  - apply removeFeedback_sub in Hf. by apply removeFeedback_gone in Hf.
  - by apply removeFeedback_gone in Hf.
Qed.

Lemma strip_extensions_frame ids : forall d,
  let d' := foldl strip_extension d ids in
  feedbacks d' = feedbacks d
  /\ (forall id, extMap d' id = extMap d id \/
        extMap d' id = None /\ exists uri, extMap d id = Some uri /\ is_transport_sequence uri)
  /\ (forall id uri, id ∈ ids -> extMap d' id = Some uri -> is_transport_sequence uri = false)
  /\ find_mid_id d' (extIds d') = find_mid_id d (extIds d).
Proof using Type*.
  induction ids as [| id ids IH]; intros d; cbn [foldl].
  { split_and!; try done; [by left |]. intros id uri Hid. by apply not_elem_of_nil in Hid. }
  destruct (IH (strip_extension d id)) as (Hf & Hext & Hgone & Hmid). clear IH.
  assert (feedbacks (strip_extension d id) = feedbacks d
    /\ (forall id', extMap (strip_extension d id) id' = extMap d id' \/
          extMap (strip_extension d id) id' = None
          /\ exists uri, extMap d id' = Some uri /\ is_transport_sequence uri)
    /\ (forall uri, extMap (strip_extension d id) id = Some uri ->
          is_transport_sequence uri = false)
    /\ find_mid_id (strip_extension d id) (extIds (strip_extension d id))
       = find_mid_id d (extIds d)) as (Hf0 & Hext0 & Hgone0 & Hmid0).
  { unfold strip_extension. destruct (extMap d id) as [uri |] eqn:Eu.
    2: { split_and!; try done; [by left |]. intros uri. by rewrite Eu. }
    destruct (is_transport_sequence uri) eqn:Et.
    2: { split_and!; try done; [by left |]. intros uri'. rewrite Eu. by intros [= <-]. }
    split_and!.
    - apply removeExtMap_feedbacks.
    - intros id'. rewrite removeExtMap_ext. destruct (decide (id' = id)) as [-> |]; [right | by left].
      split; [done |]. exists uri. by rewrite Et.
    - intros uri'. rewrite removeExtMap_ext. by rewrite decide_True.
    - rewrite removeExtMap_ids. induction (extIds d) as [| i l IHl]; [done |].
      rewrite filter_cons. cbn [find_mid_id].
      destruct (decide (i <> id)) as [Hne | Heq].
      + cbn [find_mid_id]. rewrite IHl. unfold is_mid_id.
        rewrite removeExtMap_ext, decide_False by done. done.
      + apply dec_stable in Heq as ->. rewrite IHl. unfold is_mid_id. rewrite Eu.
        destruct (bool_decide_reflect (Some uri = Some kMidExtensionUri)) as [[= ->] |];
          [by vm_compute in Et | by rewrite andb_false_r]. }
  split_and!; [by rewrite Hf | | | by rewrite Hmid].
  - intros id'. destruct (Hext id') as [-> | [-> (uri & Hu & Ht)]]; [apply Hext0 |].
    right. split; [done |]. destruct (Hext0 id') as [E | [E _]]; [| congruence].
    exists uri. by rewrite <- E.
  - intros id' uri [-> | Hin]%elem_of_cons Hu; [| by eapply Hgone].
    destruct (Hext id) as [E | [E _]]; [| congruence]. apply Hgone0. by rewrite <- E.
Qed.

Lemma find_mid_id_ext (d1 d2 : Media) ids :
  extMap d1 = extMap d2 -> find_mid_id d1 ids = find_mid_id d2 ids.
Proof using Type.
  intros He. induction ids as [| i ids IH]; [done |]. cbn [find_mid_id].
  unfold is_mid_id. by rewrite He, IH.
Qed.

(** Forwarding policy: after [apply_forwarding_feedback_policy] no mapped
    payload type asks for transport-wide or REMB congestion feedback, no
    transport-wide sequence-number extension is left among the described ones,
    and the MID extension is still found where it was. *)
Theorem forwarding_policy d :
  let d' := apply_forwarding_feedback_policy d in
  (forall pt, pt ∈ payloadTypes d -> is_Some (rtpMap d pt) ->
     ("transport-cc" ∉ feedbacks d' pt) /\ ("goog-remb" ∉ feedbacks d' pt))
  /\ (forall id uri, id ∈ extIds d -> extMap d' id = Some uri -> is_transport_sequence uri = false)
  /\ mid_extension_id d' = mid_extension_id d.
Proof using Type*.
  unfold apply_forwarding_feedback_policy, mid_extension_id. cbn zeta.
  destruct (strip_feedbacks_frame (payloadTypes d) d) as (_ & Hi & He & _ & Hgone).
  destruct (strip_extensions_frame (extIds (foldl strip_feedback d (payloadTypes d)))
    (foldl strip_feedback d (payloadTypes d))) as (Hf & _ & Hext & Hmid).
  split_and!.
  - intros pt. rewrite Hf. apply Hgone.
  - intros id uri Hid. apply Hext. by rewrite Hi.
  - rewrite Hmid, Hi. by apply find_mid_id_ext.
Qed.

Lemma first_usable_spec d media_type pts :
  match first_usable d media_type pts with
  | Some f => exists l1 pt l2, pts = (l1 ++ pt :: l2)%list /\ usable_format d media_type pt = Some f
                /\ Forall (fun pt => usable_format d media_type pt = None) l1
  | None => Forall (fun pt => usable_format d media_type pt = None) pts
  end.
Proof using Type.
  induction pts as [| pt pts IH]; [constructor |]. cbn [first_usable].
  destruct (usable_format d media_type pt) as [f |] eqn:Hu.
  { by exists [], pt, pts. }
  destruct (first_usable d media_type pts) as [f |]; [| by constructor].
  destruct IH as (l1 & pt' & l2 & -> & Hf & Hl). exists (pt :: l1), pt', l2.
  split_and!; [done.. | by constructor].
Qed.

(** Chosen format: the format of a slot is that of the first payload type
    of the description that is mapped, in range and of the wanted kind (Opus
    for audio, no retransmission or FEC format for video); only when there is
    none is it the default.  The payload type always fits its 7 bits. *)
Theorem primary_rtp_format_spec d media_type :
  let f := primary_rtp_format d media_type in
  (0 <= payload_type f <= 127)%Z
  /\ ((exists l1 pt l2, payloadTypes d = (l1 ++ pt :: l2)%list
          /\ usable_format d media_type pt = Some f /\ payload_type f = pt
          /\ Forall (fun pt => usable_format d media_type pt = None) l1)
      \/ Forall (fun pt => usable_format d media_type pt = None) (payloadTypes d)
         /\ f = if bool_decide (media_type = "audio")
                then {| payload_type := 111; clock_rate := 48000 |}
                else {| payload_type := 96; clock_rate := 90000 |}).
Proof using Type.
  cbn zeta. unfold primary_rtp_format.
  pose proof (first_usable_spec d media_type (payloadTypes d)) as Hs.
  destruct (first_usable d media_type (payloadTypes d)) as [f |].
  2: { split; [by destruct (bool_decide _) | by right]. }
  destruct Hs as (l1 & pt & l2 & Hpts & Hf & Hl).
  assert (payload_type f = pt /\ (0 <= pt <= 127)%Z) as [Hpt Hr].
  { revert Hf. unfold usable_format. destruct (rtpMap d pt) as [[format rate] |]; [| done].
    destruct (decide (pt < 0 \/ 127 < pt)%Z) as [| Hr]; [done |].
    destruct (_ || _); [done |]. intros [= <-]. simpl. split; [| lia].
    unfold u8. apply wrap_small. unfold is_u. lia. }
  split; [lia |]. left. by exists l1, pt, l2.
Qed.
End Sdp.

(** ** Witnesses *)

(** A description as plain tables. *)
Record SampleMedia := mkSample {
  sm_types : list Z;
  sm_map : Z -> option (string * Z);
  sm_feedbacks : Z -> list string;
  sm_ids : list Z;
  sm_ext : Z -> option string;
}.

#[export] Instance sample_media_api : MediaApi SampleMedia := {
  payloadTypes := sm_types;
  rtpMap := sm_map;
  feedbacks := sm_feedbacks;
  removeFeedback d pt f :=
    mkSample (sm_types d) (sm_map d)
      (fun pt' => if decide (pt' = pt) then filter (fun g => g <> f) (sm_feedbacks d pt')
                  else sm_feedbacks d pt')
      (sm_ids d) (sm_ext d);
  extIds := sm_ids;
  extMap := sm_ext;
  removeExtMap d id :=
    mkSample (sm_types d) (sm_map d) (sm_feedbacks d) (filter (fun i => i <> id) (sm_ids d))
      (fun id' => if decide (id' = id) then None else sm_ext d id');
  removeFormat d format :=
    mkSample (filter (fun pt => fst <$> sm_map d pt <> Some format) (sm_types d)) (sm_map d)
      (sm_feedbacks d) (sm_ids d) (sm_ext d);
}.

#[export] Instance sample_media_laws : MediaLaws SampleMedia.
Proof.
  split; try done; simpl; intros d pt f.
  - rewrite decide_True by done. intros [Hne _]%list_elem_of_filter. done.
  - intros pt'. case_decide; [| done]. intros g [_ Hg]%list_elem_of_filter. done.
Qed.

Definition sample_media : SampleMedia :=
  mkSample [96; 111]%Z
    (fun pt => if decide (pt = 111)%Z then Some ("OPUS"%string, 48000%Z)
               else if decide (pt = 96)%Z then Some ("VP8"%string, 90000%Z) else None)
    (fun _ => ["nack"; "transport-cc"]%string) [3; 4]%Z
    (fun id => if decide (id = 3)%Z then Some kTransportSequenceNumberUri
               else if decide (id = 4)%Z then Some kMidExtensionUri else None).

Lemma forwarding_policy_witness :
  ~ ("transport-cc"%string ∈ feedbacks (apply_forwarding_feedback_policy sample_media) 111)
  /\ mid_extension_id (apply_forwarding_feedback_policy sample_media) = Some 4%Z.
Proof.
  destruct (forwarding_policy sample_media) as (Hgone & _ & Hmid). split.
  - destruct (Hgone 111%Z) as [Hcc _].
    + simpl. apply list_elem_of_In. right. by left.
    + eexists. vm_compute. reflexivity.
    + exact Hcc.
  - rewrite Hmid. vm_compute. reflexivity.
Defined.

Definition no_loss : BurstLossConfig :=
  {| good_to_bad := double_of_Z 0; bad_to_good := double_of_Z 1;
     loss_in_good := double_of_Z 0; loss_in_bad := double_of_Z 1; burst_seed := 0 |}.

Definition sample_link (kbps : Z) : LinkModelConfig :=
  {| queue_delay_ms := 0; delay_standard_deviation_ms := 0; queue_length_packets := 2;
     link_capacity_kbps := kbps; allow_reordering := false; duplicate_every_nth := 0;
     link_seed := 0 |}.

Definition sample_faults : RtpFaultConfig :=
  {| drop_every_nth := 4; reorder_every_nth := 2; burst := no_loss; link := sample_link 0;
     link_down := false; packet_tap := false |}.

(** Four packets, dropping every fourth and holding back every second. *)
Lemma drop_every_nth_exact_witness :
  run_faults (fun _ => false) sample_faults initial_fault [[1]; [2]; [3]; [4]]%Z
  = ([[1]; [3]; [2]]%Z, mkFault 4 None false false 0)
  /\ in_flight [[1]; [3]; [2]]%Z (mkFault 4 None false false 0) = 3%Z.
Proof.
  pose proof (drop_every_nth_exact (fun _ => false) sample_faults ltac:(vm_compute; reflexivity)
    ltac:(simpl; lia) initial_fault [[1]; [2]; [3]; [4]]%Z ltac:(simpl; lia)
    ltac:(vm_compute; reflexivity)) as H.
  vm_compute in H. split; [vm_compute; reflexivity | exact H].
Defined.

Lemma link_fifo_witness :
  Sorted Z.le [0; 8000; 16000]%Z.
Proof.
  destruct (link_fifo (fun x => x) (fun x => x) (sample_link 1) ltac:(simpl; lia)
    initial_link [(0, 1); (100, 1); (200, 1)]%Z [8000; 16000]%Z
    (mkLink true 11400714819323198485 3 16000 16000 2)) as [Hs _].
  - reflexivity.
  - reflexivity.
  - repeat apply Forall_cons_2; [simpl; lia.. | apply Forall_nil_2].
  - vm_compute. reflexivity.
  - exact Hs.
Defined.

Lemma link_capacity_total_witness :
  exists r state', schedule_packet_departure (fun x => x) (fun x => x) (sample_link 100)
                     initial_link 5 1200 = Some (r, state').
Proof.
  apply (link_capacity_total (fun x => x) (fun x => x) (sample_link 100) ltac:(simpl; lia)
    initial_link 5 1200); try reflexivity; unfold is_u; simpl; lia.
Defined.
