(* ===== verification/Signaling.v ===== *)
(** * The signaling protocol (core/src/utils/signaling_protocol.hpp and .cpp)

    Messages, their JSON encoding and the validating decoder.  nlohmann::json's
    value type is an inductive type here; its text parser and printer are
    parameters, [None] being the exception they throw (malformed text, or a
    string that is not UTF-8). *)

From Stdlib Require Import SpecFloat.
From S2P Require Import Prelude.

Local Open Scope string_scope.

(** ** utils::Expected (core/src/utils/expected.hpp) *)

Inductive Expected (T E : Type) : Type :=
  | Value (v : T)
  | Unexpected (e : E).
Arguments Value {T E} v.
Arguments Unexpected {T E} e.

Definition has_value {T E} (x : Expected T E) : bool :=
  match x with Value _ => true | Unexpected _ => false end.

Definition value_or {T E} (x : Expected T E) (fallback : T) : T :=
  match x with Value v => v | Unexpected _ => fallback end.

Definition ebind {A B E} (k : A -> Expected B E) (x : Expected A E) : Expected B E :=
  match x with Value v => k v | Unexpected e => Unexpected e end.

Notation "x '←!' a ; k" := (ebind (fun x => k) a)
  (at level 20, a at level 100, k at level 200) : driscord_scope.

(** ** JSON values *)

Inductive json : Type :=
  | JNull
  | JBool (b : bool)
  | JInteger (z : Z)
  | JFloat (f : spec_float)
  | JString (s : string)
  | JArray (items : list json)
  | JObject (fields : list (string * json)).

(** An object is a [std::map]: keys are unique and in order. *)
Fixpoint jset (k : string) (v : json) (fields : list (string * json)) : list (string * json) :=
  match fields with
  | [] => [(k, v)]
  | (k', v') :: rest =>
    match String.compare k k' with
    | Eq => (k, v) :: rest
    | Lt => (k, v) :: fields
    | Gt => (k', v') :: jset k v rest
    end
  end.

Fixpoint jfind (k : string) (fields : list (string * json)) : option json :=
  match fields with
  | [] => None
  | (k', v) :: rest => if String.eqb k k' then Some v else jfind k rest
  end.

Definition jobject (entries : list (string * json)) : list (string * json) :=
  foldr (fun e acc => jset e.1 e.2 acc) [] entries.

Lemma jfind_jset k k' v fields :
  jfind k (jset k' v fields) = if String.eqb k k' then Some v else jfind k fields.
Proof.
  induction fields as [| [k2 v2] rest IH]; [done |]. cbn [jset].
  destruct (String.compare k' k2) eqn:Hc; cbn [jfind].
  - apply String.compare_eq_iff in Hc as ->. by destruct (String.eqb k k2).
  - done.
  - rewrite IH. destruct (String.eqb_spec k k2) as [-> |]; [| done].
    destruct (String.eqb_spec k2 k') as [-> |]; [| done].
    pose proof (String.compare_antisym k' k') as Ha. by rewrite Hc in Ha.
Qed.

(** ** Messages *)

(** [PeerId], [RoomId] and [Username] wrap a string (core/src/identity.hpp). *)
Abbreviation PeerId := string (only parsing).
Abbreviation RoomId := string (only parsing).
Abbreviation Username := string (only parsing).

Inductive ConnectionId := Voice | Screen.
Inductive WatchRejectReason := UnknownPeer | NotStreaming | Capacity.
Inductive ParseError := InvalidJson | MissingType | UnknownType | MissingField | InvalidField.

#[export] Instance ConnectionId_eq_dec : EqDecision ConnectionId.
Proof. solve_decision. Defined.
#[export] Instance WatchRejectReason_eq_dec : EqDecision WatchRejectReason.
Proof. solve_decision. Defined.
#[export] Instance ConnectionId_countable : Countable ConnectionId.
Proof.
  refine (inj_countable (fun c => match c with Voice => false | Screen => true end)
    (fun b : bool => Some (if b then Screen else Voice)) _).
  by intros [].
Defined.

Record PeerIdentity := { peer_id : PeerId; peer_username : Username }.

Inductive Message : Type :=
  | Welcome (id : PeerId) (peers : list PeerIdentity) (streaming_peers : list PeerId)
  | PeerJoined (id : PeerId) (username : Username)
  | PeerLeft (id : PeerId)
  | Offer (sdp : string) (connection : ConnectionId)
  | Answer (sdp : string) (connection : ConnectionId)
  | Candidate (candidate sdp_mid : string) (connection : ConnectionId)
  | TrackBinding (sdp_mid : string) (peer : option PeerId) (connection : ConnectionId)
  | StreamingStart (from : option PeerId)
  | StreamingStop (from : option PeerId)
  | WatchStart (peer : PeerId)
  | WatchStop (peer : PeerId)
  | WatchRejected (peer : PeerId) (reason : WatchRejectReason).

#[export] Instance Message_eq_dec : EqDecision Message.
Proof.
  assert (EqDecision PeerIdentity) by solve_decision. solve_decision.
Defined.

(** ** Field readers *)

Abbreviation fields := (list (string * json)) (only parsing).

Definition required_string (msg : fields) (key : string) : option string :=
  match jfind key msg with
  | Some (JString s) => if String.eqb s "" then None else Some s
  | _ => None
  end.

Definition optional_string (msg : fields) (key : string) : option string :=
  match jfind key msg with
  | None | Some JNull => None
  | Some (JString s) => Some s
  | Some _ => Some ""
  end.

Definition required_peer_id (msg : fields) (key : string) : option PeerId :=
  required_string msg key.

Definition optional_peer_id (msg : fields) (key : string) : option PeerId :=
  match optional_string msg key with
  | Some s => if String.eqb s "" then None else Some s
  | None => None
  end.

(** ** Encoding *)

Definition with_type (type : string) : fields := jset "type" (JString type) [].

Definition add_from (msg : fields) (from : option PeerId) : fields :=
  match from with
  | Some f => if String.eqb f "" then msg else jset "from" (JString f) msg
  | None => msg
  end.

Definition connection_to_string (c : ConnectionId) : string :=
  match c with Voice => "voice" | Screen => "screen" end.

Definition reason_to_string (r : WatchRejectReason) : string :=
  match r with
  | UnknownPeer => "unknown_peer"
  | NotStreaming => "not_streaming"
  | Capacity => "capacity"
  end.

Definition error_to_string (e : ParseError) : string :=
  match e with
  | InvalidJson => "invalid_json"
  | MissingType => "missing_type"
  | UnknownType => "unknown_type"
  | MissingField => "missing_field"
  | InvalidField => "invalid_field"
  end.

Definition add_connection (msg : fields) (c : ConnectionId) : fields :=
  jset "connection" (JString (connection_to_string c)) msg.

Definition encode_peer (p : PeerIdentity) : json :=
  JObject (jobject [("id", JString (peer_id p)); ("username", JString (peer_username p))]).

Definition encode_fields (m : Message) : fields :=
  match m with
  | Welcome id peers streaming =>
    jset "streaming_peers" (JArray (JString <$> streaming))
      (jset "peers" (JArray (encode_peer <$> peers))
        (jset "id" (JString id) (with_type "welcome")))
  | PeerJoined id username =>
    jset "username" (JString username) (jset "id" (JString id) (with_type "peer_joined"))
  | PeerLeft id => jset "id" (JString id) (with_type "peer_left")
  | Offer sdp c => add_connection (jset "sdp" (JString sdp) (with_type "offer")) c
  | Answer sdp c => add_connection (jset "sdp" (JString sdp) (with_type "answer")) c
  | Candidate cand mid c =>
    add_connection (jset "sdpMid" (JString mid)
      (jset "candidate" (JString cand) (with_type "candidate"))) c
  | TrackBinding mid peer c =>
    add_connection
      (jset "peerId" (match peer with Some p => JString p | None => JNull end)
        (jset "sdpMid" (JString mid) (with_type "track_binding"))) c
  | StreamingStart from => add_from (with_type "streaming_start") from
  | StreamingStop from => add_from (with_type "streaming_stop") from
  | WatchStart peer => jset "peerId" (JString peer) (with_type "watch_start")
  | WatchStop peer => jset "peerId" (JString peer) (with_type "watch_stop")
  | WatchRejected peer reason =>
    jset "reason" (JString (reason_to_string reason))
      (jset "peerId" (JString peer) (with_type "watch_rejected"))
  end.

Definition encode (m : Message) : json := JObject (encode_fields m).

(** ** Decoding *)

Abbreviation parsed T := (Expected T ParseError) (only parsing).

Definition or_missing {T} (o : option T) : parsed T :=
  match o with Some v => Value v | None => Unexpected MissingField end.

Definition parse_connection (msg : fields) : parsed ConnectionId :=
  match jfind "connection" msg with
  | None => Unexpected MissingField
  | Some (JString s) =>
    if String.eqb s "voice" then Value Voice
    else if String.eqb s "screen" then Value Screen
    else Unexpected InvalidField
  | Some _ => Unexpected InvalidField
  end.

Definition parse_watch_reject_reason (msg : fields) : parsed WatchRejectReason :=
  s ←! or_missing (required_string msg "reason");
  if String.eqb s "unknown_peer" then Value UnknownPeer
  else if String.eqb s "not_streaming" then Value NotStreaming
  else if String.eqb s "capacity" then Value Capacity
  else Unexpected InvalidField.

Definition parse_username (msg : fields) : Username :=
  match optional_string msg "username" with
  | Some u => if String.eqb u "" then "" else u
  | None => ""
  end.

Definition parse_peer (item : json) : parsed PeerIdentity :=
  match item with
  | JObject fs =>
    match required_peer_id fs "id" with
    | Some id => Value {| peer_id := id; peer_username := parse_username fs |}
    | None => Unexpected InvalidField
    end
  | _ => Unexpected InvalidField
  end.

Fixpoint parse_peers (items : list json) : parsed (list PeerIdentity) :=
  match items with
  | [] => Value []
  | item :: items =>
    p ←! parse_peer item;
    ps ←! parse_peers items;
    Value (p :: ps)
  end.

(** Empty ids are skipped, anything that is not a string is an error. *)
Fixpoint parse_streaming (items : list json) : parsed (list PeerId) :=
  match items with
  | [] => Value []
  | JString s :: items =>
    ids ←! parse_streaming items;
    Value (if String.eqb s "" then ids else s :: ids)
  | _ :: _ => Unexpected InvalidField
  end.

Definition parse_list {T} (msg : fields) (key : string) (f : list json -> parsed (list T)) :
    parsed (list T) :=
  match jfind key msg with
  | None => Value []
  | Some (JArray items) => f items
  | Some _ => Unexpected InvalidField
  end.

Definition parse_binding_peer (msg : fields) : parsed (option PeerId) :=
  match jfind "peerId" msg with
  | None => Unexpected MissingField
  | Some (JString s) => if String.eqb s "" then Unexpected InvalidField else Value (Some s)
  | Some JNull => Value None
  | Some _ => Unexpected InvalidField
  end.

Definition parse_sdp (msg : fields) (build : string -> ConnectionId -> Message) : parsed Message :=
  sdp ←! or_missing (required_string msg "sdp");
  c ←! parse_connection msg;
  Value (build sdp c).

Definition parse_fields (msg : fields) (type : string) : parsed Message :=
  if String.eqb type "welcome" then
    id ←! or_missing (required_peer_id msg "id");
    peers ←! parse_list msg "peers" parse_peers;
    streaming ←! parse_list msg "streaming_peers" parse_streaming;
    Value (Welcome id peers streaming)
  else if String.eqb type "peer_joined" then
    id ←! or_missing (required_peer_id msg "id");
    Value (PeerJoined id (parse_username msg))
  else if String.eqb type "peer_left" then
    id ←! or_missing (required_peer_id msg "id");
    Value (PeerLeft id)
  else if String.eqb type "offer" then parse_sdp msg Offer
  else if String.eqb type "answer" then parse_sdp msg Answer
  else if String.eqb type "candidate" then
    cand ←! or_missing (required_string msg "candidate");
    mid ←! or_missing (required_string msg "sdpMid");
    c ←! parse_connection msg;
    Value (Candidate cand mid c)
  else if String.eqb type "track_binding" then
    mid ←! or_missing (required_string msg "sdpMid");
    peer ←! parse_binding_peer msg;
    c ←! parse_connection msg;
    Value (TrackBinding mid peer c)
  else if String.eqb type "streaming_start" then
    Value (StreamingStart (optional_peer_id msg "from"))
  else if String.eqb type "streaming_stop" then
    Value (StreamingStop (optional_peer_id msg "from"))
  else if String.eqb type "watch_start" then
    peer ←! or_missing (required_peer_id msg "peerId");
    Value (WatchStart peer)
  else if String.eqb type "watch_stop" then
    peer ←! or_missing (required_peer_id msg "peerId");
    Value (WatchStop peer)
  else if String.eqb type "watch_rejected" then
    peer ←! or_missing (required_peer_id msg "peerId");
    reason ←! parse_watch_reject_reason msg;
    Value (WatchRejected peer reason)
  else Unexpected UnknownType.

Definition parse_json (msg : json) : parsed Message :=
  match msg with
  | JObject fs =>
    match required_string fs "type" with
    | None => Unexpected MissingType
    | Some type => parse_fields fs type
    end
  | _ => Unexpected InvalidField
  end.

Section Text.
Variable json_parse : string -> option json.
Variable json_dump : json -> option string.

Definition parse (raw : string) : parsed Message :=
  match json_parse raw with
  | Some j => parse_json j
  | None => Unexpected InvalidJson
  end.

Definition dump (m : Message) : option string := json_dump (encode m).
End Text.

(** ** Well-formed messages: what the decoder can return *)

Definition nonempty (s : string) : bool := negb (String.eqb s "").

Definition opt_nonempty (o : option string) : bool :=
  match o with Some s => nonempty s | None => true end.

Definition wf_message (m : Message) : bool :=
  match m with
  | Welcome id peers streaming =>
    nonempty id && forallb (fun p => nonempty (peer_id p)) peers && forallb nonempty streaming
  | PeerJoined id _ | PeerLeft id => nonempty id
  | Offer sdp _ | Answer sdp _ => nonempty sdp
  | Candidate cand mid _ => nonempty cand && nonempty mid
  | TrackBinding mid peer _ => nonempty mid && opt_nonempty peer
  | StreamingStart from | StreamingStop from => opt_nonempty from
  | WatchStart peer | WatchStop peer | WatchRejected peer _ => nonempty peer
  end.

Lemma required_string_Some msg key s :
  required_string msg key = Some s <-> jfind key msg = Some (JString s) /\ nonempty s = true.
Proof.
  unfold required_string, nonempty. destruct (jfind key msg) as [[| | | | s0 | |] |]; try (by split; [| intros [? _]]).
  destruct (String.eqb s0 "") eqn:E.
  - split; [done |]. intros [[= ->] H]. by rewrite E in H.
  - split; [intros [= ->]; by rewrite E | by intros [[= ->] _]].
Qed.

Lemma optional_peer_id_wf msg key : opt_nonempty (optional_peer_id msg key) = true.
Proof.
  unfold optional_peer_id, opt_nonempty, nonempty. destruct (optional_string msg key) as [s |]; [| done].
  destruct (String.eqb s "") eqn:E; [done | by rewrite E].
Qed.

Lemma or_missing_Value {T} (o : option T) v : or_missing o = Value v <-> o = Some v.
Proof. destruct o; simpl; naive_solver. Qed.

Lemma ebind_Value {A B} (x : parsed A) (k : A -> parsed B) b :
  ebind k x = Value b <-> exists a, x = Value a /\ k a = Value b.
Proof. destruct x; simpl; naive_solver. Qed.

(** Opens every successful bind of the decoder. *)
Ltac expected_inv :=
  repeat match goal with
  | H : ebind _ _ = Value _ |- _ => apply ebind_Value in H as (? & ? & H)
  | H : Value _ = Value _ |- _ => injection H as H; subst
  | H : or_missing _ = Value _ |- _ => apply or_missing_Value in H
  | H : required_peer_id _ _ = Some _ |- _ => apply required_string_Some in H as [_ H]
  | H : required_string _ _ = Some _ |- _ => apply required_string_Some in H as [_ H]
  end.

Lemma parse_peer_wf item p : parse_peer item = Value p -> nonempty (peer_id p) = true.
Proof.
  destruct item; try done. simpl. destruct (required_peer_id fields "id") eqn:E; [| done].
  intros [= <-]. by apply required_string_Some in E as [_ E].
Qed.

Lemma parse_peers_wf items ps :
  parse_peers items = Value ps -> forallb (fun p => nonempty (peer_id p)) ps = true.
Proof.
  revert ps. induction items as [| item items IH]; intros ps H; cbn [parse_peers] in H;
    [by injection H as <- |].
  expected_inv. simpl. erewrite parse_peer_wf by done. by apply IH.
Qed.

Lemma parse_streaming_wf items ids :
  parse_streaming items = Value ids -> forallb nonempty ids = true.
Proof.
  revert ids. induction items as [| item items IH]; intros ids H; cbn [parse_streaming] in H;
    [by injection H as <- |].
  destruct item; try done. expected_inv.
  destruct (String.eqb s "") eqn:E; simpl; [by apply IH |].
  unfold nonempty at 1. rewrite E. by apply IH.
Qed.

Lemma parse_list_wf {T} msg key (f : list json -> parsed (list T)) (P : list T -> Prop) ids :
  P [] -> (forall items ids, f items = Value ids -> P ids) ->
  parse_list msg key f = Value ids -> P ids.
Proof.
  unfold parse_list. intros Hnil Hf. destruct (jfind key msg) as [[] |]; try done; [by apply Hf |].
  by intros [= <-].
Qed.

Lemma parse_binding_peer_wf msg peer :
  parse_binding_peer msg = Value peer -> opt_nonempty peer = true.
Proof.
  unfold parse_binding_peer. destruct (jfind "peerId" msg) as [[] |]; try done.
  - by intros [= <-].
  - destruct (String.eqb s "") eqn:E; [done |]. intros [= <-]. simpl. unfold nonempty. by rewrite E.
Qed.

Lemma parse_fields_wf msg type m : parse_fields msg type = Value m -> wf_message m = true.
Proof.
  unfold parse_fields, parse_sdp. intros H.
  repeat match type of H with
  | (if ?b then _ else _) = _ => destruct b eqn:?
  end; try done; expected_inv; simpl; try done;
    repeat match goal with H : nonempty _ = true |- _ => rewrite H; clear H end; simpl;
    eauto using optional_peer_id_wf, parse_binding_peer_wf.
  apply andb_true_iff. split.
  - eapply (parse_list_wf _ _ parse_peers (fun ps => forallb _ ps = true)); eauto using parse_peers_wf.
  - eapply (parse_list_wf _ _ parse_streaming (fun ps => forallb _ ps = true));
      eauto using parse_streaming_wf.
Qed.

Lemma parse_json_wf j m : parse_json j = Value m -> wf_message m = true.
Proof.
  destruct j; try done. simpl. destruct (required_string _ _); [| done]. apply parse_fields_wf.
Qed.

(** ** Encoding then decoding *)

Lemma required_string_jset msg key k v :
  required_string (jset k v msg) key
  = if String.eqb key k then
      match v with JString s => if String.eqb s "" then None else Some s | _ => None end
    else required_string msg key.
Proof. unfold required_string. rewrite jfind_jset. by destruct (String.eqb key k). Qed.

Lemma required_nonempty msg key s :
  nonempty s = true -> required_string (jset key (JString s) msg) key = Some s.
Proof.
  intros Hs. rewrite required_string_jset, String.eqb_refl. unfold nonempty in Hs.
  by destruct (String.eqb s "").
Qed.

Lemma parse_encode_peer p :
  nonempty (peer_id p) = true -> parse_peer (encode_peer p) = Value p.
Proof.
  destruct p as [id u]. cbn [peer_id]. intros Hid. unfold encode_peer, jobject. simpl.
  unfold required_peer_id, required_string, parse_username, optional_string, nonempty in *. simpl.
  destruct (String.eqb id ""); [done |]. destruct (String.eqb_spec u "") as [-> |]; done.
Qed.

Lemma parse_encode_peers ps :
  forallb (fun p => nonempty (peer_id p)) ps = true ->
  parse_peers (encode_peer <$> ps) = Value ps.
Proof.
  induction ps as [| p ps IH]; [done |]. intros [Hp Hps]%andb_true_iff.
  rewrite fmap_cons. cbn [parse_peers]. rewrite (parse_encode_peer _ Hp). simpl. by rewrite IH.
Qed.

Lemma parse_encode_streaming ids :
  forallb nonempty ids = true -> parse_streaming (JString <$> ids) = Value ids.
Proof.
  induction ids as [| s ids IH]; [done |]. intros [Hs Hids]%andb_true_iff.
  rewrite fmap_cons. cbn [parse_streaming]. rewrite IH by done. simpl. unfold nonempty in Hs. by destruct (String.eqb s "").
Qed.

(** Evaluates the lookups of a concrete key in an encoded message. *)
Ltac run_lookups :=
  unfold parse_fields, parse_sdp, parse_list, parse_connection, parse_watch_reject_reason,
    parse_binding_peer, parse_username, optional_peer_id, optional_string, required_peer_id,
    required_string, add_connection, add_from, with_type;
  repeat first [rewrite jfind_jset | progress cbn [String.eqb Ascii.eqb Bool.eqb jfind]].

Lemma parse_encode m : wf_message m = true -> parse_json (encode m) = Value m.
Proof.
  unfold encode, parse_json. intros Hwf.
  destruct m as [id peers streaming | id u | id | sdp c | sdp c | cand mid c | mid peer c
    | [from |] | [from |] | peer | peer | peer reason]; simpl in Hwf;
    repeat match goal with
    | H : (_ && _) = true |- _ => apply andb_true_iff in H as [? ?]
    end; cbn [encode_fields]; unfold nonempty, opt_nonempty in *; run_lookups;
    repeat match goal with
    | H : negb (String.eqb ?s "") = true |- _ => apply negb_true_iff in H; rewrite ?H
    end; run_lookups; simpl;
    try (destruct c; done); try (destruct reason; done); try done.
  - rewrite parse_encode_peers by done. simpl. by rewrite parse_encode_streaming.
  - by destruct (String.eqb_spec u "") as [-> |].
  - destruct peer as [p |]; simpl in *; [| by destruct c].
    unfold nonempty in *. destruct (String.eqb p ""); [done |]. by destruct c.
  - by rewrite Hwf.
  - by rewrite Hwf.
Qed.

(** ** Properties *)

(** C36 Round trip and validation: a message survives encoding and decoding
    exactly when its required fields are not empty; and whatever JSON comes in, with
    whatever unknown fields, all that ever comes out of the decoder is such a
    message, which can be sent on: re-encoded, it decodes to itself. *)
Theorem signaling_roundtrip :
  (forall m, parse_json (encode m) = Value m <-> wf_message m = true)
  /\ (forall j m, parse_json j = Value m -> wf_message m = true /\ parse_json (encode m) = Value m).
Proof.
  split; [intros m; split; [apply parse_json_wf | apply parse_encode] |].
  intros j m Hj%parse_json_wf. split; [done | by apply parse_encode].
Qed.
