(* ===== verification/RouterCommon.v ===== *)
(** * What the two routers share

    voice_router.cpp and screen_router.cpp keep the same machinery: weak
    references to libdatachannel tracks, output slots that own a shared
    [RtpSlotRewriter], a queue of delayed packets behind a timer, and a send
    loop that runs after the router's lock was released.  This file models that
    machinery once.  Its last part is an abstract machine of concurrent send
    loops, whose isolation result both routers instantiate. *)

From S2P Require Import Prelude Bits RtpRewrite RtpSlot SfuMedia Signaling.

(** What the model leaves to the platform: libdatachannel's RTCP test and the
    C library's logarithm and cosine. *)
Class Platform := {
  IsRtcp : bytes -> bool;
  std_log : double -> double;
  std_cos : double -> double;
}.

(** The iteration order of an [unordered_map], given the keys it holds. *)
Class IterationOrder := {
  iterate : list PeerId -> list PeerId;
  iterate_perm keys : iterate keys ≡ₚ keys;
}.

(** ** Tracks

    A router holds [std::weak_ptr<rtc::Track>]; [None] is the empty pointer.
    What the library answers about its tracks while one operation runs is an
    argument of that operation. *)

Abbreviation TrackId := nat (only parsing).
Abbreviation WeakTrack := (option nat) (only parsing).

Record Tracks := {
  alive : TrackId -> bool;
  is_open : TrackId -> bool;
  send_ok : TrackId -> bytes -> bool;
  keyframe_ok : TrackId -> bool;
}.

Definition lock (env : Tracks) (w : WeakTrack) : option TrackId :=
  match w with
  | Some t => if alive env t then Some t else None
  | None => None
  end.

Definition expired (env : Tracks) (w : WeakTrack) : bool :=
  match lock env w with Some _ => false | None => true end.

Inductive Direction := RecvOnly | SendOnly | OtherDirection.

Record Track (Media : Type) := mkTrack {
  track_id : TrackId;
  direction : Direction;
  media_type : string;
  mid : string;
  description : Media;
}.
Arguments mkTrack {Media}.
Arguments track_id {Media}.
Arguments direction {Media}.
Arguments media_type {Media}.
Arguments mid {Media}.
Arguments description {Media}.

(** What a router does to a track: the description it sets, the media handler
    (an SR reporter with a NACK responder, and for a screen video output the
    PLI handler aimed at the publisher's video track) and the message handler. *)
Record Reporter := {
  reporter_ssrc : Z;
  reporter_cname : string;
  reporter_payload_type : Z;
  reporter_clock_rate : Z;
  reporter_pli : option WeakTrack;
}.

Inductive MediaHandler := ReceivingSession | SrReporter (r : Reporter).
Inductive MessageHandler := RouteFrom (owner : PeerId) (kind : string) | Discard.

(** [Message] is an effect on the websocket: the binding sender of a peer
    delivers (mid, publisher) to that peer, so it is named by the peer. *)
Abbreviation BindingSender := (option PeerId) (only parsing).

Inductive Effect (Media : Type) :=
  | SetDescription (t : TrackId) (d : Media)
  | SetMediaHandler (t : TrackId) (h : option MediaHandler)
  | OnMessage (t : TrackId) (h : option MessageHandler)
  | OnOpenRequestKeyframe (t : TrackId)
  | SendBinding (to : PeerId) (mid : string) (publisher : option PeerId)
  | RequestKeyframe (t : TrackId).
Arguments SetDescription {Media}.
Arguments SetMediaHandler {Media}.
Arguments OnMessage {Media}.
Arguments OnOpenRequestKeyframe {Media}.
Arguments SendBinding {Media}.
Arguments RequestKeyframe {Media}.

(** What the library answers during an operation that publishes bindings. *)
Record Env (Media : Type) := mkEnv {
  tracks :> Tracks;
  description_of : TrackId -> Media;
}.
Arguments mkEnv {Media}.
Arguments tracks {Media}.
Arguments description_of {Media}.

(** The SSRC lines of an output's description. *)
Class SlotMedia (Media : Type) := {
  clearSSRCs : Media -> Media;
  addSSRC : Media -> Z -> string -> string -> string -> Media;
}.

(** ** SSRCs of output slots *)

(** [allocate_slot_ssrc]: the value and the counter after it. *)
Definition allocate_slot_ssrc (next : Z) : Z * Z :=
  let value := next in
  let next := u32 (next + 1) in
  if Z.eqb value 0 then (next, u32 (next + 1)) else (value, next).

Fixpoint allocate_slot_ssrcs (next : Z) (n : nat) : list Z :=
  match n with
  | O => []
  | S n => let '(value, next) := allocate_slot_ssrc next in value :: allocate_slot_ssrcs next n
  end.

(** ** Rewriters

    The rewriters live in a heap: a slot and the targets collected from it
    share one.  [switches] counts the calls of [begin_source] and [end_source];
    it is a ghost, read by the theorems only. *)

Record Heap := mkHeap {
  cells : gmap nat RtpSlotRewriter;
  next_cell : nat;
  switches : Z;
}.

Definition empty_heap : Heap := mkHeap ∅ 0 0.

(** [std::make_shared<sfu::RtpSlotRewriter>(clock_rate, step)] *)
Definition make_rewriter (h : Heap) (clock_rate step : Z) : nat * Heap :=
  (next_cell h, mkHeap (<[next_cell h := new_rewriter clock_rate step]> (cells h))
                  (S (next_cell h)) (switches h)).

Definition begin_source_at (h : Heap) (id : nat) : Heap * Z :=
  match cells h !! id with
  | Some rw => let '(rw, g) := begin_source rw in
               (mkHeap (<[id := rw]> (cells h)) (next_cell h) (switches h + 1), g)
  | None => (h, 0%Z)
  end.

Definition end_source_at (h : Heap) (id : nat) : Heap :=
  match cells h !! id with
  | Some rw => mkHeap (<[id := end_source rw]> (cells h)) (next_cell h) (switches h + 1)
  | None => h
  end.

(** ** The delay queue: a [std::multimap] from departure times *)

Fixpoint multimap_emplace {D} (k : Z) (v : D) (q : list (Z * D)) : list (Z * D) :=
  match q with
  | [] => [(k, v)]
  | (k', v') :: q' => if (k <? k')%Z then (k, v) :: q else (k', v') :: multimap_emplace k v q'
  end.

(** The packets due at [now], and the queue without them. *)
Fixpoint pop_due {D} (now : Z) (q : list (Z * D)) : list D * list (Z * D) :=
  match q with
  | [] => ([], [])
  | (k, v) :: q' =>
    if (k <=? now)%Z then let '(due, rest) := pop_due now q' in (v :: due, rest)
    else ([], q)
  end.

(** The pending wait of the timer, by its expiry. *)
Definition arm_delay_timer {D} (executor : bool) (q : list (Z * D)) (timer : option Z) : option Z :=
  if executor then match q with [] => None | (k, _) :: _ => Some k end else timer.

(** ** Routing *)

Section Routing.
Context `{Platform}.

(** What routing one packet gathers while the lock is held. *)
Record Schedule (D : Type) := mkSchedule {
  sched_link : LinkModelState;
  immediate : list bytes;
  sched_queue : list (Z * D);
  sched_timer : option Z;
}.
Arguments mkSchedule {D}.
Arguments sched_link {D}.
Arguments immediate {D}.
Arguments sched_queue {D}.
Arguments sched_timer {D}.

(** The body of the loop over [packets.first] and [packets.second] in [route]. *)
Definition schedule_faulted {D} (c : LinkModelConfig) (executor rtcp : bool) (delay : bytes -> D)
    (now : Z) (packet : option bytes) (s : Schedule D) : option (Schedule D) :=
  match packet with
  | None => Some s
  | Some packet =>
    if rtcp || negb (link_enabled c) then
      Some (mkSchedule (sched_link s) (immediate s ++ [packet]) (sched_queue s) (sched_timer s))
    else
      '(scheduled, link) ← schedule_packet_departure std_log std_cos c (sched_link s) now
                             (Z.of_nat (length packet));
      match scheduled with
      | None => Some (mkSchedule link (immediate s) (sched_queue s) (sched_timer s))
      | Some scheduled =>
        let copies := if duplicate scheduled then 2 else 1 in
        if (departure_us scheduled <=? now)%Z || negb executor then
          Some (mkSchedule link (immediate s ++ replicate copies packet) (sched_queue s)
                  (sched_timer s))
        else
          let q := Nat.iter copies
                     (multimap_emplace (departure_us scheduled) (delay packet)) (sched_queue s) in
          Some (mkSchedule link (immediate s) q (arm_delay_timer executor q (sched_timer s)))
      end
  end.

(** ** Sending *)

Record Target := mkTarget {
  target_track : WeakTrack;
  target_ssrc : Z;
  target_rewriter : nat;
  target_generation : Z;
}.

(** One packet to one target: the heap after it, and what reached the track.
    The rewriter moves on even when [send] throws.  The rewriting and the library's
    [send] that follows it are one step. *)
Definition send_one (env : Tracks) (h : Heap) (mid_id : option Z) (packet : bytes) (t : Target) :
    option (Heap * list (TrackId * bytes)) :=
  match lock env (target_track t) with
  | None => Some (h, [])
  | Some track =>
    if negb (is_open env track) then Some (h, [])
    else
      match cells h !! target_rewriter t with
      | None => Some (h, [])
      | Some rw =>
        '(rw, ok, rewritten) ← rewrite IsRtcp rw packet (target_generation t) (target_ssrc t) mid_id;
        Some (mkHeap (<[target_rewriter t := rw]> (cells h)) (next_cell h) (switches h),
              if ok && send_ok env track rewritten then [(track, rewritten)] else [])
      end
  end.

(** A job of a send loop: one packet for one target. *)
Record Job := mkJob { job_target : Target; job_mid : option Z; job_packet : bytes }.

Definition jobs_of (targets : list Target) (mid_id : option Z) (outgoing : list bytes) : list Job :=
  packet ← outgoing; (fun t => mkJob t mid_id packet) <$> targets.

Fixpoint run_jobs (env : Tracks) (h : Heap) (jobs : list Job) :
    option (Heap * list (TrackId * bytes)) :=
  match jobs with
  | [] => Some (h, [])
  | j :: jobs =>
    '(h, sent) ← send_one env h (job_mid j) (job_packet j) (job_target j);
    '(h, more) ← run_jobs env h jobs;
    Some (h, sent ++ more)
  end.

(** The two nested loops of [send_packets]. *)
Definition send_packets (env : Tracks) (h : Heap) (targets : list Target) (mid_id : option Z)
    (outgoing : list bytes) : option (Heap * list (TrackId * bytes)) :=
  run_jobs env h (jobs_of targets mid_id outgoing).

Definition bytes_sent (sent : list (TrackId * bytes)) : Z :=
  foldr (fun s n => (Z.of_nat (length s.2) + n)%Z) 0%Z sent.
End Routing.

Arguments mkSchedule {D}.
Arguments sched_link {D}.
Arguments immediate {D}.
Arguments sched_queue {D}.
Arguments sched_timer {D}.
