(* ===== verification/SendLoops.v ===== *)
(** * Concurrent send loops

    [route] collects its targets under the router's lock and sends after the
    lock was released, so other operations run between the collection and each
    send.  [Machine] is that interleaving: a router and the send loops under
    way.  Any router whose operations are [Sound] keeps publishers apart:
    [send_isolated]. *)

From S2P Require Import Prelude RtpRewrite RtpSlot SfuMedia Signaling RouterCommon.

(** ** The heap under switches and sends *)

Lemma begin_source_at_spec h id rw :
  cells h !! id = Some rw ->
  begin_source_at h id
  = (mkHeap (<[id := end_source rw]> (cells h)) (next_cell h) (switches h + 1),
     u64 (generation_ rw + 1)).
Proof. intros E. unfold begin_source_at. by rewrite E. Qed.

Lemma end_source_at_spec h id rw :
  cells h !! id = Some rw ->
  end_source_at h id = mkHeap (<[id := end_source rw]> (cells h)) (next_cell h) (switches h + 1).
Proof. intros E. unfold end_source_at. by rewrite E. Qed.

Definition generation_at (h : Heap) (id : nat) : option Z := generation_ <$> cells h !! id.

(** Sends move rewriters on, but never their generations. *)
Definition same_generations (h h' : Heap) : Prop :=
  next_cell h' = next_cell h /\ switches h' = switches h
  /\ forall id, generation_at h' id = generation_at h id.

#[export] Instance same_generations_preorder : PreOrder same_generations.
Proof.
  split; [by intros h |]. intros h1 h2 h3 (En & Es & Eg) (En' & Es' & Eg').
  split; [congruence |]. split; [congruence |]. intros id. by rewrite Eg'.
Qed.

Section Send.
Context `{Platform}.

(** Whatever is sent left under the generation the target was collected with. *)
Lemma send_one_spec env h mid_id packet t :
  exists h' sent, send_one env h mid_id packet t = Some (h', sent) /\ same_generations h h'
    /\ (sent <> [] -> generation_at h (target_rewriter t) = Some (target_generation t)
          /\ exists track p, sent = [(track, p)] /\ target_track t = Some track
               /\ alive env track = true /\ is_open env track = true).
Proof.
  unfold send_one, lock. destruct (target_track t) as [track |]; [| by exists h, []].
  destruct (alive env track) eqn:Ea; [| by exists h, []].
  destruct (is_open env track) eqn:Eo; simpl; [| by exists h, []].
  destruct (cells h !! target_rewriter t) as [rw |] eqn:Ec; [| by exists h, []].
  destruct (rewrite_total IsRtcp rw packet (target_generation t) (target_ssrc t) mid_id)
    as (rw' & ok & p' & -> & Hg & Hstale). cbn [mbind option_bind].
  do 2 eexists. split; [done |]. split.
  - split_and!; try done. intros id. unfold generation_at. simpl.
    destruct (decide (id = target_rewriter t)) as [-> | Hne].
    + rewrite lookup_insert_eq, Ec. simpl. by f_equal.
    + by rewrite lookup_insert_ne.
  - destruct (decide (target_generation t = generation_ rw)) as [-> | Hne].
    + unfold generation_at. rewrite Ec. simpl. intros Hsent. split; [done |].
      destruct (ok && send_ok env track p'); [| done]. by exists track, p'.
    + destruct (Hstale Hne) as [-> ->]. done.
Qed.

Lemma run_jobs_spec env jobs : forall h,
  exists h' sent, run_jobs env h jobs = Some (h', sent) /\ same_generations h h'.
Proof.
  induction jobs as [| j jobs IH]; intros h; [by exists h, [] |]. cbn [run_jobs].
  destruct (send_one_spec env h (job_mid j) (job_packet j) (job_target j))
    as (h1 & sent & -> & Hh1 & _). cbn [mbind option_bind].
  destruct (IH h1) as (h2 & more & -> & Hh2). cbn [mbind option_bind].
  do 2 eexists. split; [done |]. by transitivity h1.
Qed.
(** A send looks at, and moves, only the rewriter of its target. *)
Lemma send_one_local env h h' mid_id packet t h1 out :
  cells h !! target_rewriter t = cells h' !! target_rewriter t ->
  send_one env h mid_id packet t = Some (h1, out) ->
  exists h2, send_one env h' mid_id packet t = Some (h2, out)
    /\ forall id, id <> target_rewriter t -> cells h2 !! id = cells h' !! id.
Proof.
  unfold send_one. intros Hc.
  destruct (lock env (target_track t)) as [track |]; [| intros [= _ <-]; eauto].
  destruct (negb (is_open env track)); [intros [= _ <-]; eauto |]. rewrite <- Hc.
  destruct (cells h !! target_rewriter t) as [rw |]; [| intros [= _ <-]; eauto].
  intros Hs. apply bind_Some in Hs as ([[rw' ok] p'] & -> & [= _ <-]).
  cbn [mbind option_bind]. eexists. split; [done |]. intros id Hid. simpl.
  by rewrite lookup_insert_ne.
Qed.

(** Exactly when something reaches the track. *)
Lemma send_one_sent env h mid_id packet t track out :
  (exists h1 outs, send_one env h mid_id packet t = Some (h1, outs) /\ (track, out) ∈ outs)
  <-> target_track t = Some track /\ alive env track = true /\ is_open env track = true
      /\ send_ok env track out = true
      /\ exists rw rw', cells h !! target_rewriter t = Some rw
         /\ rewrite IsRtcp rw packet (target_generation t) (target_ssrc t) mid_id
            = Some (rw', true, out).
Proof.
  unfold send_one. split.
  - intros (h1 & outs & Hs & Hx). destruct (target_track t) as [tr |]; simpl in Hs;
      [| injection Hs as _ <-; by apply elem_of_nil in Hx].
    destruct (alive env tr) eqn:Ea; [| injection Hs as _ <-; by apply elem_of_nil in Hx].
    destruct (is_open env tr) eqn:Eo; simpl in Hs; [| injection Hs as _ <-; by apply elem_of_nil in Hx].
    destruct (cells h !! target_rewriter t) as [rw |];
      [| injection Hs as _ <-; by apply elem_of_nil in Hx].
    apply bind_Some in Hs as ([[rw' ok] p'] & Hrewrite & [= _ <-]).
    destruct (ok && send_ok env tr p') eqn:Eok; [| by apply elem_of_nil in Hx].
    apply andb_true_iff in Eok as [-> Esend]. apply list_elem_of_singleton in Hx as [= -> ->]. eauto 8.
  - intros (-> & Ea & Eo & Es & rw & rw' & Hc & Hrewrite). simpl. rewrite Ea, Eo, Hc, Hrewrite.
    cbn [negb mbind option_bind]. rewrite Es. do 2 eexists. split; [done |].
    by apply list_elem_of_singleton.
Qed.

(** With one job per rewriter, each job sends what it would send alone. *)
Lemma run_jobs_distinct env jobs : forall h h' sent,
  NoDup (target_rewriter ∘ job_target <$> jobs) -> run_jobs env h jobs = Some (h', sent) ->
  forall x, x ∈ sent <-> exists j h1 out, j ∈ jobs
    /\ send_one env h (job_mid j) (job_packet j) (job_target j) = Some (h1, out) /\ x ∈ out.
Proof.
  induction jobs as [| j jobs IH]; intros h h' sent Hnd Hrun x; cbn [run_jobs] in Hrun.
  { injection Hrun as _ <-. split; [by intros ?%elem_of_nil |].
    by intros (j & _ & _ & Hj%elem_of_nil & _). }
  rewrite fmap_cons in Hnd. apply NoDup_cons in Hnd as [Hj Hnd].
  apply bind_Some in Hrun as ([h1 out] & Hone & Hrun).
  apply bind_Some in Hrun as ([h2 more] & Hrun & [= <- <-]).
  destruct (send_one_local env h h _ _ _ _ _ eq_refl Hone) as (h1' & Hone' & Hframe).
  rewrite Hone in Hone'. injection Hone' as <-.
  rewrite elem_of_app, (IH _ _ _ Hnd Hrun). split.
  - intros [Hx | (j' & h3 & out' & Hj' & Hs & Hx)]; [exists j, h1, out; split; [by left | done] |].
    assert (target_rewriter (job_target j') <> target_rewriter (job_target j)) as Hne.
    { intros Heq. apply Hj, list_elem_of_fmap. exists j'. split; [| done]. simpl. congruence. }
    destruct (send_one_local env h1 h _ _ _ _ _ (Hframe _ Hne) Hs) as (h4 & Hs' & _).
    exists j', h4, out'. split; [by right | done].
  - intros (j' & h3 & out' & [-> | Hj']%elem_of_cons & Hs & Hx).
    + left. rewrite Hone in Hs. by injection Hs as _ <-.
    + right. assert (target_rewriter (job_target j') <> target_rewriter (job_target j)) as Hne.
      { intros Heq. apply Hj, list_elem_of_fmap. exists j'. split; [| done]. simpl. congruence. }
      destruct (send_one_local env h h1 _ _ _ _ _ (eq_sym (Hframe _ Hne)) Hs) as (h4 & Hs' & _).
      by exists j', h4, out'.
Qed.
End Send.

(** ** What a router promises to its send loops *)

(** [owner_of r id o]: some output slot of [r] uses rewriter [id] and is bound
    to [o]. *)
Class SlotTable (R : Type) := {
  table_heap : R -> Heap;
  set_table_heap : R -> Heap -> R;
  owner_of : R -> nat -> option PeerId -> Prop;
}.

Class SlotTableLaws (R : Type) `{SlotTable R} : Prop := {
  table_heap_set r h : table_heap (set_table_heap r h) = h;
  owner_of_set r h id o : owner_of (set_table_heap r h) id o <-> owner_of r id o;
}.

Section Evolution.
Context {R : Type} `{SlotTableLaws R}.

Definition switched (r r' : R) : Z := (switches (table_heap r') - switches (table_heap r))%Z.

(** The generation of a rewriter only moves on, at most once per switch, and
    while it rests no slot of that rewriter changes hands. *)
Definition evolves (r r' : R) : Prop :=
  (0 <= switched r r')%Z
  /\ forall id g, generation_at (table_heap r) id = Some g ->
     exists k, (0 <= k <= switched r r')%Z
       /\ generation_at (table_heap r') id = Some (u64 (g + k))
       /\ (k = 0%Z -> forall o, owner_of r' id o -> owner_of r id o).

Definition generations_fit (r : R) : Prop :=
  forall id g, generation_at (table_heap r) id = Some g -> is_u 64 g.

Lemma evolves_refl r : generations_fit r -> evolves r r.
Proof.
  intros Hfit. unfold evolves, switched. rewrite Z.sub_diag. split; [lia |]. intros id g Hg.
  exists 0%Z. rewrite Z.add_0_r. unfold u64. rewrite wrap_small by eauto. split; [lia |]. done.
Qed.

Lemma evolves_trans r1 r2 r3 : evolves r1 r2 -> evolves r2 r3 -> evolves r1 r3.
Proof.
  intros [Hs1 H1] [Hs2 H2]. unfold evolves, switched in *. split; [lia |].
  intros id g Hg. destruct (H1 id g Hg) as (k1 & Hk1 & Hg1 & Ho1).
  destruct (H2 id _ Hg1) as (k2 & Hk2 & Hg2 & Ho2). exists (k1 + k2)%Z. split; [lia |]. split.
  - rewrite Hg2. f_equal. unfold u64. rewrite wrap_add_l. f_equal. lia.
  - intros Hk o Ho. apply Ho1; [lia |]. apply Ho2; [lia |]. done.
Qed.

(** A router whose slots did not change, over a heap with the same generations. *)
Lemma evolves_same r r' :
  generations_fit r -> same_generations (table_heap r) (table_heap r') ->
  (forall id o, owner_of r' id o -> owner_of r id o) -> evolves r r'.
Proof.
  intros Hfit (_ & Hs & Hg) Ho. unfold evolves, switched. rewrite Hs, Z.sub_diag.
  split; [lia |]. intros id g Hid. exists 0%Z. split; [lia |]. rewrite Hg, Hid. split; [| eauto].
  rewrite Z.add_0_r. unfold u64. by rewrite wrap_small by eauto.
Qed.

(** Switching one rewriter, whatever happens to its own slots. *)
Lemma evolves_switch r r' id rw :
  generations_fit r -> cells (table_heap r) !! id = Some rw ->
  table_heap r' = mkHeap (<[id := end_source rw]> (cells (table_heap r)))
                    (next_cell (table_heap r)) (switches (table_heap r) + 1) ->
  (forall id' o, id' <> id -> owner_of r' id' o -> owner_of r id' o) -> evolves r r'.
Proof.
  intros Hfit Hid Hh Ho. unfold evolves, switched. rewrite Hh. simpl. split; [lia |].
  intros id' g Hg. unfold generation_at in *. simpl. destruct (decide (id' = id)) as [-> | Hne].
  - rewrite Hid in Hg. injection Hg as <-. exists 1%Z. rewrite lookup_insert_eq.
    split; [lia |]. split; [done | lia].
  - exists 0%Z. rewrite lookup_insert_ne by done. split; [lia |]. rewrite Hg. split; [| eauto].
    rewrite Z.add_0_r. unfold u64. rewrite wrap_small; [done |].
    by apply (Hfit id'); unfold generation_at.
Qed.

(** Each rewriter rests, and its slots with it, or is switched. *)
Lemma evolves_cases r r' :
  generations_fit r -> (0 <= switched r r')%Z ->
  (forall id g, generation_at (table_heap r) id = Some g ->
     (generation_at (table_heap r') id = Some g /\ forall o, owner_of r' id o -> owner_of r id o)
     \/ ((1 <= switched r r')%Z /\ generation_at (table_heap r') id = Some (u64 (g + 1)))) ->
  evolves r r'.
Proof.
  intros Hfit Hs Hcases. split; [done |]. intros id g Hg.
  destruct (Hcases id g Hg) as [[Hg' Ho] | [Hone Hg']].
  - exists 0%Z. rewrite Z.add_0_r. unfold u64. rewrite wrap_small by eauto. split; [lia |]. done.
  - exists 1%Z. split; [lia |]. split; [done | lia].
Qed.

(** ** Jobs *)

(** At the moment of its collection a job carries the current generation, and
    every slot of its rewriter is bound to the publisher. *)
Definition job_fresh (r : R) (p : PeerId) (j : Job) : Prop :=
  generation_at (table_heap r) (target_rewriter (job_target j))
    = Some (target_generation (job_target j))
  /\ forall o, owner_of r (target_rewriter (job_target j)) o -> o = Some p.

(** Later: the generation has moved on, or the slots are still bound to it.
    [base] is the ghost count of switches at the start. *)
Definition job_ok (base : Z) (r : R) (p : PeerId) (j : Job) : Prop :=
  is_u 64 (target_generation (job_target j))
  /\ exists k, (0 <= k <= switches (table_heap r) - base)%Z
     /\ generation_at (table_heap r) (target_rewriter (job_target j))
        = Some (u64 (target_generation (job_target j) + k))
     /\ (k = 0%Z -> forall o, owner_of r (target_rewriter (job_target j)) o -> o = Some p).

Lemma job_fresh_ok base r p j :
  generations_fit r -> (base <= switches (table_heap r))%Z -> job_fresh r p j -> job_ok base r p j.
Proof.
  intros Hfit Hbase [Hg Ho]. split; [by eapply Hfit |]. exists 0%Z. split; [lia |]. split; [| done].
  rewrite Z.add_0_r. unfold u64. rewrite wrap_small; [done | by eapply Hfit].
Qed.

Lemma job_ok_evolves base r r' p j : evolves r r' -> job_ok base r p j -> job_ok base r' p j.
Proof.
  intros [Hs He] (Hu & k & Hk & Hg & Ho). split; [done |].
  destruct (He _ _ Hg) as (k' & Hk' & Hg' & Ho'). exists (k + k')%Z. unfold switched in *.
  split; [lia |]. split.
  - rewrite Hg'. f_equal. unfold u64. rewrite wrap_add_l. f_equal. lia.
  - intros Hz o Hown. apply Ho; [lia |]. apply Ho'; [lia | done].
Qed.

Lemma job_ok_current base r p j :
  (switches (table_heap r) - base < 2 ^ 64)%Z -> job_ok base r p j ->
  generation_at (table_heap r) (target_rewriter (job_target j))
    = Some (target_generation (job_target j)) ->
  forall o, owner_of r (target_rewriter (job_target j)) o -> o = Some p.
Proof.
  intros Hs (Hu & k & Hk & Hg & Ho) Hcur. apply Ho. rewrite Hg in Hcur. injection Hcur as Heq.
  unfold u64 in Heq. rewrite <- (wrap_small 64 _ Hu) in Heq at 2.
  apply wrap_eqm in Heq as [n Hn]; [| lia]. unfold is_u in Hu. nia.
Qed.
End Evolution.

(** ** The machine *)

Section Machine.
Context `{Platform} {R Op : Type} `{SlotTableLaws R}.
Variable exec : R -> Op -> option (R * list (PeerId * list Job)).

Record Machine := mkMachine { router : R; loops : list (PeerId * list Job) }.

(** An operation under the router's lock, or the next send of a loop. *)
Inductive action := Operate (op : Op) | SendNext (i : nat) (env : Tracks).

(** What left: the publisher whose packet it was, the target, track and bytes. *)
Record Sent := mkSent { from : PeerId; via : Target; what : list (TrackId * bytes) }.

Definition machine_step (m : Machine) (a : action) : option (Machine * list Sent) :=
  match a with
  | Operate op =>
    '(r, new) ← exec (router m) op;
    Some (mkMachine r (loops m ++ new), [])
  | SendNext i env =>
    match loops m !! i with
    | Some (p, j :: jobs) =>
      '(h, sent) ← send_one env (table_heap (router m)) (job_mid j) (job_packet j) (job_target j);
      Some (mkMachine (set_table_heap (router m) h) (<[i := (p, jobs)]> (loops m)),
            match sent with [] => [] | _ => [mkSent p (job_target j) sent] end)
    | _ => Some (m, [])
    end
  end.

Fixpoint machine_run (m : Machine) (actions : list action) : option Machine :=
  match actions with
  | [] => Some m
  | a :: actions => '(m, _) ← machine_step m a; machine_run m actions
  end.

(** What operations keep and no send touches holds throughout a run. *)
Lemma machine_keeps (P : R -> Prop) actions :
  (forall r op r' new, exec r op = Some (r', new) -> P r -> P r') ->
  (forall r h, P r -> P (set_table_heap r h)) ->
  forall m m', P (router m) -> machine_run m actions = Some m' -> P (router m').
Proof.
  intros Hop Hsend. induction actions as [| a actions IH]; intros m m' Hok Hrun; [by injection Hrun as <- |].
  cbn [machine_run] in Hrun. apply bind_Some_inv in Hrun as ([m1 s] & Hstep & Hrun).
  eapply IH; [| exact Hrun]. destruct a as [op | i env]; simpl in Hstep.
  - apply bind_Some_inv in Hstep as ([r new] & He & [= <- _]). by eapply Hop.
  - destruct (loops m !! i) as [[p [| j jobs]] |]; [by injection Hstep as <- _ | |
      by injection Hstep as <- _].
    apply bind_Some_inv in Hstep as ([h out] & _ & [= <- _]). by apply Hsend.
Qed.

(** What the operations of a router must guarantee. *)
Record Sound (Inv : R -> Prop) : Prop := {
  sound_fit r : Inv r -> generations_fit r;
  sound_send r h : Inv r -> same_generations (table_heap r) h -> Inv (set_table_heap r h);
  sound_exec r op r' new :
    Inv r -> exec r op = Some (r', new) ->
    Inv r' /\ evolves r r' /\ Forall (fun l => Forall (job_fresh r' l.1) l.2) new;
}.

Context (Inv : R -> Prop) (Hsound : Sound Inv).

Definition machine_ok (base : Z) (m : Machine) : Prop :=
  Inv (router m) /\ (base <= switches (table_heap (router m)))%Z
  /\ Forall (fun l => Forall (job_ok base (router m) l.1) l.2) (loops m).

Lemma loops_ok_evolve base r r' (ls : list (PeerId * list Job)) :
  evolves r r' -> Forall (fun l => Forall (job_ok base r l.1) l.2) ls ->
  Forall (fun l => Forall (job_ok base r' l.1) l.2) ls.
Proof.
  intros He Hl. eapply Forall_impl; [exact Hl |]. intros l Hjobs.
  eapply Forall_impl; [exact Hjobs |]. intros j. by apply job_ok_evolves.
Qed.

Lemma machine_ok_step base m a m' sent :
  machine_ok base m -> machine_step m a = Some (m', sent) -> machine_ok base m'.
Proof.
  intros (Hinv & Hbase & Hl) Hstep. destruct a as [op | i env]; simpl in Hstep.
  - apply bind_Some_inv in Hstep as ([r new] & He & [= <- <-]).
    destruct (sound_exec _ Hsound _ _ _ _ Hinv He) as (Hinv' & Hev & Hnew).
    assert (base <= switches (table_heap r))%Z as Hb.
    { destruct Hev as [Hs _]. unfold switched in Hs. lia. }
    split; [done |]. split; [done |]. apply Forall_app. split; [by eapply loops_ok_evolve |].
    eapply Forall_impl; [exact Hnew |]. intros l Hl'. eapply Forall_impl; [exact Hl' |].
    intros j. by apply job_fresh_ok; [apply (sound_fit _ Hsound) |].
  - destruct (loops m !! i) as [[p [| j jobs]] |] eqn:Ei; [by injection Hstep as <- <- | |
      by injection Hstep as <- <-].
    destruct (send_one_spec env (table_heap (router m)) (job_mid j) (job_packet j) (job_target j))
      as (h & out & E & Hh & _). rewrite E in Hstep. cbn [mbind option_bind] in Hstep.
    injection Hstep as <- _. unfold machine_ok. simpl. rewrite table_heap_set.
    split; [by apply (sound_send _ Hsound) |].
    split; [by destruct Hh as (_ & -> & _) |].
    assert (evolves (router m) (set_table_heap (router m) h)) as Hev.
    { apply evolves_same; [by apply (sound_fit _ Hsound) | by rewrite table_heap_set |].
      intros id o. by rewrite owner_of_set. }
    apply (loops_ok_evolve _ _ _ _ Hev) in Hl. apply Forall_insert; [done |].
    apply (Forall_lookup_1 _ _ _ _ Hl) in Ei. simpl in *. by apply Forall_cons in Ei as [_ ?].
Qed.

Lemma machine_ok_run base actions : forall m m',
  machine_ok base m -> machine_run m actions = Some m' -> machine_ok base m'.
Proof.
  induction actions as [| a actions IH]; intros m m' Hm Hrun; [by injection Hrun as <- |].
  simpl in Hrun. apply bind_Some_inv in Hrun as ([m1 s] & Hstep & Hrun).
  eapply IH; [| exact Hrun]. by eapply machine_ok_step.
Qed.

(** Whatever a send loop sends leaves through slots bound to its publisher. *)
Lemma send_isolated base m i env m' s o :
  machine_ok base m -> (switches (table_heap (router m)) - base < 2 ^ 64)%Z ->
  machine_step m (SendNext i env) = Some (m', [s]) ->
  owner_of (router m) (target_rewriter (via s)) o -> o = Some (from s).
Proof.
  intros (Hinv & Hbase & Hl) Hs Hstep. simpl in Hstep.
  destruct (loops m !! i) as [[p [| j jobs]] |] eqn:Ei; [done | | done].
  destruct (send_one_spec env (table_heap (router m)) (job_mid j) (job_packet j) (job_target j))
    as (h & out & E & _ & Hout). rewrite E in Hstep. cbn [mbind option_bind] in Hstep.
  destruct out as [| x out]; [done |]. injection Hstep as _ <-. simpl.
  apply (Forall_lookup_1 _ _ _ _ Hl) in Ei. simpl in Ei. apply Forall_cons in Ei as [Hj _].
  apply (job_ok_current base _ _ _ Hs Hj). by apply Hout.
Qed.
End Machine.
