(* ===== verification/Delays.v ===== *)
(** * The delay queue and its timer

    Lemmas on the multimap of delayed packets and the timer armed at its head,
    for both routers. *)

From S2P Require Import Prelude RtpRewrite RtpSlot SfuMedia Signaling RouterCommon.

Local Open Scope list_scope.

(** Ordered by departure; the timer is armed at the earliest one, and without
    an executor nothing is ever queued. *)
Definition queue_ok {D} (executor : bool) (q : list (Z * D)) (timer : option Z) : Prop :=
  Sorted Z.le q.*1
  /\ if executor then timer = fst <$> head q else q = [].

Lemma multimap_emplace_elem {D} k (v : D) q x :
  x ∈ multimap_emplace k v q <-> x = (k, v) \/ x ∈ q.
Proof.
  induction q as [| [k' v'] q IH]; simpl.
  - rewrite list_elem_of_singleton, elem_of_nil. naive_solver.
  - case_match; rewrite !elem_of_cons, ?IH; naive_solver.
Qed.

Lemma multimap_emplace_sorted {D} k (v : D) q :
  Sorted Z.le q.*1 -> Sorted Z.le (multimap_emplace k v q).*1.
Proof.
  intros Hs%Sorted_StronglySorted; [| intros x y z; lia]. apply StronglySorted_Sorted.
  induction q as [| [k' v'] q IH]; simpl in *; [by repeat constructor |].
  apply StronglySorted_inv in Hs as [Hs Hall].
  destruct (Z.ltb_spec k k'); simpl; constructor.
  - by constructor.
  - constructor; [lia |]. eapply Forall_impl; [exact Hall |]. simpl. lia.
  - by apply IH.
  - apply Forall_forall. intros x Hx. apply list_elem_of_fmap in Hx as ([k2 v2] & -> & Hx).
    apply multimap_emplace_elem in Hx as [[= -> ->] | Hx]; simpl; [lia |].
    rewrite Forall_forall in Hall. apply Hall. apply list_elem_of_fmap. by exists (k2, v2).
Qed.

Lemma multimap_emplace_length {D} k (v : D) q : length (multimap_emplace k v q) = S (length q).
Proof. induction q as [| [k' v'] q IH]; simpl; [done |]. case_match; simpl; by rewrite ?IH. Qed.

(** Everything due leaves, in order, and nothing else. *)
Lemma pop_due_spec {D} now (q : list (Z * D)) :
  Sorted Z.le q.*1 ->
  pop_due now q = ((filter (fun x => x.1 <= now)%Z q).*2, filter (fun x => now < x.1)%Z q).
Proof.
  intros Hs%Sorted_StronglySorted; [| intros x y z; lia].
  induction q as [| [k v] q IH]; simpl in *; [done |].
  apply StronglySorted_inv in Hs as [Hs Hall].
  rewrite !filter_cons. simpl. destruct (Z.leb_spec k now).
  - rewrite IH by done. rewrite decide_True, decide_False by lia. done.
  - rewrite decide_False, decide_True by lia.
    assert (Forall (fun x => now < x.1)%Z q) as Hlate.
    { apply Forall_forall. intros x Hx. rewrite Forall_forall in Hall.
      assert (k <= x.1)%Z; [| lia]. apply Hall, list_elem_of_fmap. by exists x. }
    f_equal.
    + rewrite filter_drop; [done |]. eapply Forall_impl; [exact Hlate |]. intros x; simpl; lia.
    + f_equal. symmetry. by apply filter_keep.
Qed.

Section Schedules.
Context `{Platform}.

Lemma schedule_faulted_queue {D} c executor rtcp (delay : bytes -> D) now packet s s' :
  schedule_faulted c executor rtcp delay now packet s = Some s' ->
  queue_ok executor (sched_queue s) (sched_timer s) ->
  queue_ok executor (sched_queue s') (sched_timer s').
Proof.
  unfold schedule_faulted. intros Hs Hq. destruct packet as [packet |]; [| by injection Hs as <-].
  destruct (_ || _); [by injection Hs as <- |].
  apply bind_Some in Hs as ([scheduled link] & _ & Hs).
  destruct scheduled as [scheduled |]; [| by injection Hs as <-].
  destruct (_ || negb executor) eqn:Hnow; injection Hs as <-; [done |]. simpl.
  apply orb_false_iff in Hnow as [_ Hexec]. apply negb_false_iff in Hexec as ->.
  destruct Hq as [Hsorted _].
  assert (forall n, Sorted Z.le (Nat.iter n (multimap_emplace (departure_us scheduled)
            (delay packet)) (sched_queue s)).*1) as Hiter.
  { induction n as [| n IH]; [done |]. by apply multimap_emplace_sorted. }
  split; [apply Hiter |]. simpl. by destruct (Nat.iter _ _ _) as [| [k v] q].
Qed.
End Schedules.

Lemma pop_due_queue {D} executor now (q : list (Z * D)) timer :
  queue_ok executor q timer ->
  queue_ok executor (pop_due now q).2 (arm_delay_timer executor (pop_due now q).2 timer).
Proof.
  intros [Hs Ht]. assert (Sorted Z.le (pop_due now q).2.*1) as Hs'.
  { rewrite pop_due_spec by done. simpl. clear Ht. apply Sorted_StronglySorted in Hs; [| intros x y z; lia].
    apply StronglySorted_Sorted. induction q as [| [k v] q IH]; simpl; [constructor |].
    simpl in Hs. apply StronglySorted_inv in Hs as [Hs Hall]. rewrite filter_cons. case_decide; [| by apply IH].
    simpl. constructor; [by apply IH |]. apply Forall_forall. intros x Hx.
    apply list_elem_of_fmap in Hx as (y & -> & Hy%list_elem_of_filter).
    rewrite Forall_forall in Hall. apply Hall, list_elem_of_fmap. exists y. by destruct Hy. }
  split; [done |]. destruct executor; simpl.
  - by destruct (pop_due now q).2 as [| [k v] rest].
  - by subst q.
Qed.

(** The fault injector and the link model are off. *)
Definition unimpaired (c : RtpFaultConfig) : Prop :=
  drop_every_nth c = 0%Z /\ reorder_every_nth c = 0%Z /\ burst_enabled (burst c) = false
  /\ link_enabled (link c) = false /\ link_down c = false.
