(* ===== verification/Samples.v ===== *)
(** * Concrete instances for the witnesses

    A platform, an iteration order and a media description that evaluate. *)

From S2P Require Import Prelude RtpRewrite RtpSlot SfuMedia Signaling RouterCommon.

#[export] Instance sample_platform : Platform := {
  IsRtcp := sample_IsRtcp;
  std_log x := x;
  std_cos x := x;
}.

#[export] Instance sample_order : IterationOrder.
Proof. by refine {| iterate keys := keys |}. Defined.

#[export] Instance sample_slot_media : SlotMedia SampleMedia := {
  clearSSRCs d := d;
  addSSRC d _ _ _ _ := d;
}.

(** Every track is alive and open. *)
Definition sample_tracks : Tracks :=
  {| alive := fun _ => true; is_open := fun _ => true; send_ok := fun _ _ => true;
     keyframe_ok := fun _ => true |}.

Definition sample_env : Env SampleMedia := mkEnv sample_tracks (fun _ => sample_media).

Definition no_faults : RtpFaultConfig :=
  {| drop_every_nth := 0; reorder_every_nth := 0; burst := no_loss; link := sample_link 0;
     link_down := false; packet_tap := false |}.

Definition sample_track (id : nat) (d : Direction) (kind m : string) : Track SampleMedia :=
  mkTrack id d kind m sample_media.
