(* ===== verification/VoiceRouter.v ===== *)
(** * The voice router (voice_router.cpp)

    Every peer of a room may publish one audio input and owns output slots; each
    slot carries the audio of at most one other peer.  The operations are those
    of [VoiceRouter::Impl]: state in, state and effects out.  [None] is
    undefined behaviour, which only the link model can run into. *)

From S2P Require Import Prelude Text RtpRewrite RtpSlot SfuMedia Signaling RouterCommon SendLoops.

Local Open Scope string_scope.
Local Open Scope list_scope.

(** ** State *)

Record OutputSlot := mkSlot {
  slot_mid : string;
  slot_ssrc : Z;
  slot_track : WeakTrack;
  slot_publisher : option PeerId;
  slot_rewriter : nat;
  slot_generation : Z;
}.

Record PeerState := mkPeer {
  order : Z;
  input : WeakTrack;
  input_mid_extension_id : option Z;
  input_fault_state : RtpFaultState;
  input_link_state : LinkModelState;
  outputs : list OutputSlot;
  send_binding : BindingSender;
}.

Record DelayedPacket := mkDelayed {
  delayed_publisher : PeerId;
  expected_input : WeakTrack;
  packet : bytes;
}.

Record BindingNotice := mkNotice {
  notice_send : BindingSender;
  notice_mid : string;
  notice_publisher : option PeerId;
  notice_output : WeakTrack;
  notice_ssrc : Z;
}.

Record Router := mkRouter {
  peers : gmap PeerId PeerState;
  rewriters : Heap;
  fault_config : RtpFaultConfig;
  next_peer_order : Z;
  closed : bool;
  executor : bool;
  delay_timer : option Z;
  delay_queue : list (Z * DelayedPacket);
  packets_in : Z;
  packets_out : Z;
  bytes_out : Z;
}.

Definition new_router (config : RtpFaultConfig) (timer_executor : bool) : Router :=
  mkRouter ∅ empty_heap config 0 false timer_executor None [] 0 0 0.

Definition with_peers (r : Router) (ps : gmap PeerId PeerState) : Router :=
  mkRouter ps (rewriters r) (fault_config r) (next_peer_order r) (closed r) (executor r)
    (delay_timer r) (delay_queue r) (packets_in r) (packets_out r) (bytes_out r).

Definition with_heap (r : Router) (h : Heap) : Router :=
  mkRouter (peers r) h (fault_config r) (next_peer_order r) (closed r) (executor r)
    (delay_timer r) (delay_queue r) (packets_in r) (packets_out r) (bytes_out r).

Definition with_delays (r : Router) (timer : option Z) (q : list (Z * DelayedPacket)) : Router :=
  mkRouter (peers r) (rewriters r) (fault_config r) (next_peer_order r) (closed r) (executor r)
    timer q (packets_in r) (packets_out r) (bytes_out r).

Definition count_in (r : Router) : Router :=
  mkRouter (peers r) (rewriters r) (fault_config r) (next_peer_order r) (closed r) (executor r)
    (delay_timer r) (delay_queue r) (u64 (packets_in r + 1)) (packets_out r) (bytes_out r).

Definition count_out (r : Router) (sent : list (TrackId * bytes)) : Router :=
  mkRouter (peers r) (rewriters r) (fault_config r) (next_peer_order r) (closed r) (executor r)
    (delay_timer r) (delay_queue r) (packets_in r)
    (u64 (packets_out r + Z.of_nat (length sent))) (u64 (bytes_out r + bytes_sent sent)).

Definition with_outputs (peer : PeerState) (os : list OutputSlot) : PeerState :=
  mkPeer (order peer) (input peer) (input_mid_extension_id peer) (input_fault_state peer)
    (input_link_state peer) os (send_binding peer).

Definition with_sender (peer : PeerState) (send : BindingSender) : PeerState :=
  mkPeer (order peer) (input peer) (input_mid_extension_id peer) (input_fault_state peer)
    (input_link_state peer) (outputs peer) send.

Definition with_source (peer : PeerState) (fault : RtpFaultState) (link : LinkModelState) :
    PeerState :=
  mkPeer (order peer) (input peer) (input_mid_extension_id peer) fault link (outputs peer)
    (send_binding peer).

(** The slot of a subscriber, by index. *)
Definition slot_at (r : Router) (s : PeerId) (i : nat) : option OutputSlot :=
  peer ← peers r !! s; outputs peer !! i.

Definition set_slot (r : Router) (s : PeerId) (i : nat) (slot : OutputSlot) : Router :=
  with_peers r (alter (fun peer => with_outputs peer (<[i := slot]> (outputs peer))) s (peers r)).

Definition bound_slot (slot : OutputSlot) (publisher : option PeerId) (generation : Z) : OutputSlot :=
  mkSlot (slot_mid slot) (slot_ssrc slot) (slot_track slot) publisher (slot_rewriter slot) generation.

(** ** Peers *)

Definition new_peer (order : Z) : PeerState :=
  mkPeer order None None initial_fault initial_link [] None.

Definition peer_for_locked (r : Router) (id : PeerId) : Router :=
  match peers r !! id with
  | Some _ => r
  | None =>
    mkRouter (<[id := new_peer (next_peer_order r)]> (peers r)) (rewriters r) (fault_config r)
      (u64 (next_peer_order r + 1)) (closed r) (executor r) (delay_timer r) (delay_queue r)
      (packets_in r) (packets_out r) (bytes_out r)
  end.

Definition peer_before (r : Router) (lhs rhs : PeerId) : bool :=
  let left := from_option order 0%Z (peers r !! lhs) in
  let right := from_option order 0%Z (peers r !! rhs) in
  if Z.eqb left right then String.leb lhs rhs else (left <? right)%Z.

Definition peer_order (r : Router) : relation PeerId :=
  fun lhs rhs => peer_before r lhs rhs = true.

#[export] Instance peer_order_dec r : RelDecision (peer_order r).
Proof. intros lhs rhs. unfold peer_order. apply _. Defined.

Definition ordered_peers_locked (r : Router) : list PeerId :=
  merge_sort (peer_order r) ((map_to_list (peers r)).*1).

Section Router.
Context `{Platform} `{IterationOrder} {Media : Type} `{MediaApi Media, !SlotMedia Media}.

(** The order in which a loop over [peers] meets them. *)
Definition peer_loop (r : Router) : list PeerId := iterate ((map_to_list (peers r)).*1).

(** The nested loops over the output slots of all peers. *)
Definition slot_loop (r : Router) : list (PeerId * nat) :=
  s ← peer_loop r;
  (fun i => (s, i)) <$> seq 0 (length (from_option outputs [] (peers r !! s))).

(** ** Assignment *)

Definition bound_publishers (slots : list OutputSlot) : gset PeerId :=
  list_to_set (omap slot_publisher slots).

Definition is_free (env : Tracks) (slot : OutputSlot) : bool :=
  match slot_publisher slot with Some _ => false | None => negb (expired env (slot_track slot)) end.

Definition find_free (env : Tracks) (slots : list OutputSlot) : option (nat * OutputSlot) :=
  list_find (fun slot => is_free env slot = true) slots.

Definition notice_of (sub : PeerState) (slot : OutputSlot) (publisher : option PeerId) :
    BindingNotice :=
  mkNotice (send_binding sub) (slot_mid slot) publisher (slot_track slot) (slot_ssrc slot).

Definition skips (env : Tracks) (r : Router) (s p : PeerId) (assigned : gset PeerId) : bool :=
  String.eqb p s || expired env (peers r !! p ≫= input) || bool_decide (p ∈ assigned).

(** The inner loop: the publishers in order, for one subscriber. *)
Fixpoint assign_publishers (env : Tracks) (s : PeerId) (publishers : list PeerId)
    (assigned : gset PeerId) (r : Router) (notices : list BindingNotice) :
    Router * list BindingNotice :=
  match publishers with
  | [] => (r, notices)
  | p :: publishers =>
    if skips env r s p assigned then assign_publishers env s publishers assigned r notices
    else
      match peers r !! s with
      | None => (r, notices)
      | Some sub =>
        match find_free env (outputs sub) with
        | None => (r, notices)
        | Some (i, slot) =>
          let '(h, g) := begin_source_at (rewriters r) (slot_rewriter slot) in
          assign_publishers env s publishers ({[p]} ∪ assigned)
            (set_slot (with_heap r h) s i (bound_slot slot (Some p) g))
            (notices ++ [notice_of sub slot (Some p)])
        end
      end
  end.

Definition assign_subscriber (env : Tracks) (ordered : list PeerId)
    (acc : Router * list BindingNotice) (s : PeerId) : Router * list BindingNotice :=
  let '(r, notices) := acc in
  let assigned := bound_publishers (from_option outputs [] (peers r !! s)) in
  assign_publishers env s ordered assigned r notices.

Definition assign_available_locked (env : Tracks) (r : Router) : Router * list BindingNotice :=
  let ordered := ordered_peers_locked r in
  foldl (assign_subscriber env ordered) (r, []) ordered.

(** ** Publishing *)

Definition slot_cname (ssrc : Z) : string :=
  ("driscord-voice-slot-" ++ of_chars (to_string ssrc))%string.

Definition publish_one (env : Env Media) (notice : BindingNotice) : list (Effect Media) :=
  (match lock env (notice_output notice) with
   | None => []
   | Some output =>
     match notice_publisher notice with
     | Some _ =>
       let format := primary_rtp_format (description_of env output) "audio" in
       [SetMediaHandler output (Some (SrReporter
          {| reporter_ssrc := notice_ssrc notice; reporter_cname := slot_cname (notice_ssrc notice);
             reporter_payload_type := payload_type format;
             reporter_clock_rate := clock_rate format; reporter_pli := None |}))]
     | None => [SetMediaHandler output None]
     end
   end)
  ++ match notice_send notice with
     | Some to => [SendBinding to (notice_mid notice) (notice_publisher notice)]
     | None => []
     end.

Definition publish (env : Env Media) (notices : list BindingNotice) : list (Effect Media) :=
  notices ≫= publish_one env.

(** ** Registering tracks *)

(** A loop body: the output slots bound to [owner] restart their source. *)
Definition restart_slot (owner : PeerId) (acc : Router * list BindingNotice) (at_ : PeerId * nat) :
    Router * list BindingNotice :=
  let '(r, notices) := acc in
  let '(s, i) := at_ in
  match peers r !! s, slot_at r s i with
  | Some sub, Some slot =>
    if decide (slot_publisher slot = Some owner) then
      let '(h, g) := begin_source_at (rewriters r) (slot_rewriter slot) in
      (set_slot (with_heap r h) s i (bound_slot slot (Some owner) g),
       notices ++ [notice_of sub slot (Some owner)])
    else acc
  | _, _ => acc
  end.

Definition restart_sources (r : Router) (owner : PeerId) : Router * list BindingNotice :=
  foldl (restart_slot owner) (r, []) (slot_loop r).

Definition set_input (env : Tracks) (r : Router) (owner : PeerId) (track : TrackId)
    (mid_id : option Z) (send : BindingSender) : Router * bool :=
  let r := peer_for_locked r owner in
  let source_changed := negb (bool_decide (lock env (peers r !! owner ≫= input) = Some track)) in
  (with_peers r (alter (fun peer =>
     mkPeer (order peer) (Some track) mid_id
       (if source_changed then initial_fault else input_fault_state peer)
       (if source_changed then initial_link else input_link_state peer)
       (outputs peer) send) owner (peers r)), source_changed).

Definition register_input (env : Env Media) (r : Router) (owner : PeerId) (track : Track Media)
    (send : BindingSender) : Router * list (Effect Media) :=
  let d := apply_forwarding_feedback_policy (description track) in
  let id := track_id track in
  let effects := [SetDescription id d; SetMediaHandler id (Some ReceivingSession);
                  OnMessage id (Some (RouteFrom owner "audio"))] in
  if closed r then (r, effects)
  else
    let '(r, source_changed) := set_input env r owner id (mid_extension_id d) send in
    let '(r, notices) := if source_changed then restart_sources r owner else (r, []) in
    let '(r, assigned) := assign_available_locked env r in
    (r, effects ++ publish env (notices ++ assigned)).

Definition new_slot (r : Router) (mid : string) (ssrc : Z) (track : TrackId) :
    Router * OutputSlot :=
  let '(rw, h) := make_rewriter (rewriters r) 48000 960 in
  (with_heap r h, mkSlot mid ssrc (Some track) None rw 0).

(** The slot named [mid] of [owner], added or reset. *)
Definition place_output (r : Router) (owner : PeerId) (mid : string) (ssrc : Z) (track : TrackId)
    (send : BindingSender) : Router * list BindingNotice :=
  let r := peer_for_locked r owner in
  let r := with_peers r (alter (fun peer => with_sender peer send) owner (peers r)) in
  match peers r !! owner with
  | None => (r, [])
  | Some peer =>
    match list_find (fun slot => slot_mid slot = mid) (outputs peer) with
    | None =>
      let '(r, slot) := new_slot r mid ssrc track in
      (with_peers r (alter (fun peer => with_outputs peer (outputs peer ++ [slot])) owner (peers r)),
       [])
    | Some (i, existing) =>
      let '(r, notices) :=
        match slot_publisher existing with
        | Some _ => (with_heap r (end_source_at (rewriters r) (slot_rewriter existing)),
                     [notice_of peer existing None])
        | None => (r, [])
        end in
      let '(r, slot) := new_slot r (slot_mid existing) ssrc track in
      (set_slot r owner i slot, notices)
    end
  end.

(** [next_ssrc] is the counter of [allocate_slot_ssrc], shared by all routers. *)
Definition register_output (env : Env Media) (next_ssrc : Z) (r : Router) (owner : PeerId)
    (track : Track Media) (send : BindingSender) : Router * Z * list (Effect Media) :=
  let d := apply_forwarding_feedback_policy (description track) in
  let '(ssrc, next_ssrc) := allocate_slot_ssrc next_ssrc in
  let id := track_id track in
  let cname := slot_cname ssrc in
  let d := addSSRC (clearSSRCs d) ssrc cname "driscord-voice" cname in
  let effects := [SetDescription id d; OnMessage id (Some Discard)] in
  if closed r then (r, next_ssrc, effects)
  else
    let '(r, notices) := place_output r owner (mid track) ssrc id send in
    let '(r, assigned) := assign_available_locked env r in
    (r, next_ssrc, effects ++ publish env (notices ++ assigned)).

Definition register_track (env : Env Media) (next_ssrc : Z) (r : Router) (owner : PeerId)
    (track : option (Track Media)) (send : BindingSender) : Router * Z * list (Effect Media) :=
  match track with
  | None => (r, next_ssrc, [])
  | Some track =>
    if negb (String.eqb (media_type track) "audio") then (r, next_ssrc, [])
    else
      match direction track with
      | RecvOnly => let '(r, effects) := register_input env r owner track send in
                    (r, next_ssrc, effects)
      | SendOnly => register_output env next_ssrc r owner track send
      | OtherDirection => (r, next_ssrc, [])
      end
  end.

(** ** Routing *)

Definition collect_targets_locked (r : Router) (publisher : PeerId) : list Target :=
  at_ ← slot_loop r;
  match slot_at r at_.1 at_.2 with
  | Some slot =>
    if decide (slot_publisher slot = Some publisher)
    then [mkTarget (slot_track slot) (slot_ssrc slot) (slot_rewriter slot) (slot_generation slot)]
    else []
  | None => []
  end.

Definition send_packets (env : Tracks) (r : Router) (targets : list Target) (mid_id : option Z)
    (outgoing : list bytes) : option (Router * list (TrackId * bytes)) :=
  '(h, sent) ← RouterCommon.send_packets env (rewriters r) targets mid_id outgoing;
  Some (count_out (with_heap r h) sent, sent).

Definition is_source (env : Tracks) (peer : PeerState) (expected : WeakTrack) : bool :=
  bool_decide (lock env (input peer) = lock env expected).

(** What the locked half of [route] leaves to send, and what the tap saw. *)
Record Routed := mkRouted {
  routed_targets : list Target;
  routed_mid : option Z;
  routed_packets : list bytes;
  routed_tapped : list bytes;
}.

Definition nothing_routed : Routed := mkRouted [] None [] [].

(** The critical section of [route]; [now] is the clock for the two packets
    that may leave the fault injector. *)
Definition route_locked (env : Tracks) (now : Z * Z) (r : Router) (publisher : PeerId)
    (expected : WeakTrack) (packet : bytes) : option (Router * Routed) :=
  if closed r then Some (r, nothing_routed)
  else
    match peers r !! publisher with
    | None => Some (r, nothing_routed)
    | Some source =>
      if negb (is_source env source expected) then Some (r, nothing_routed)
      else
        let rtcp := IsRtcp packet in
        let r := if rtcp then r else count_in r in
        if negb rtcp && link_down (fault_config r) then Some (r, nothing_routed)
        else
          let '(packets, fault) :=
            apply_rtp_faults IsRtcp (fault_config r) (input_fault_state source) packet in
          let delay := mkDelayed publisher expected in
          let cfg := link (fault_config r) in
          let s := mkSchedule (input_link_state source) [] (delay_queue r) (delay_timer r) in
          s ← schedule_faulted cfg (executor r) rtcp delay now.1 (first packets) s;
          s ← schedule_faulted cfg (executor r) rtcp delay now.2 (second packets) s;
          let r := with_peers r (alter (fun peer => with_source peer fault (sched_link s))
                                   publisher (peers r)) in
          let r := with_delays r (sched_timer s) (sched_queue s) in
          let targets :=
            match immediate s with [] => [] | _ => collect_targets_locked r publisher end in
          Some (r, mkRouted targets (input_mid_extension_id source) (immediate s) (tapped packets))
    end.

Definition route (env : Tracks) (now : Z * Z) (r : Router) (publisher : PeerId)
    (expected : WeakTrack) (packet : bytes) : option (Router * list (TrackId * bytes)) :=
  '(r, routed) ← route_locked env now r publisher expected packet;
  send_packets env r (routed_targets routed) (routed_mid routed) (routed_packets routed).

(** ** The delay queue *)

Definition take_due (now : Z) (r : Router) : Router * list DelayedPacket :=
  if closed r then (r, [])
  else
    let '(due, q) := pop_due now (delay_queue r) in
    (with_delays r (arm_delay_timer (executor r) q (delay_timer r)) q, due).

Definition dequeued (l : LinkModelState) : LinkModelState :=
  mkLink (link_initialized l) (link_rng l) (link_packets_seen l) (capacity_busy_until_us l)
    (last_departure_us l)
    (if (0 <? queued_packets l)%Z then queued_packets l - 1 else queued_packets l)%Z.

(** The critical section of [forward_delayed]. *)
Definition forward_locked (env : Tracks) (r : Router) (item : DelayedPacket) :
    Router * Routed :=
  if closed r then (r, nothing_routed)
  else
    match peers r !! delayed_publisher item with
    | None => (r, nothing_routed)
    | Some source =>
      if negb (is_source env source (expected_input item)) then (r, nothing_routed)
      else
        let r := with_peers r (alter (fun peer =>
                   with_source peer (input_fault_state peer) (dequeued (input_link_state peer)))
                   (delayed_publisher item) (peers r)) in
        (r, mkRouted (collect_targets_locked r (delayed_publisher item))
              (input_mid_extension_id source) [packet item] [])
    end.

Definition forward_delayed (env : Tracks) (r : Router) (item : DelayedPacket) :
    option (Router * list (TrackId * bytes)) :=
  let '(r, routed) := forward_locked env r item in
  send_packets env r (routed_targets routed) (routed_mid routed) (routed_packets routed).

Fixpoint forward_all (env : Tracks) (r : Router) (items : list DelayedPacket) :
    option (Router * list (TrackId * bytes)) :=
  match items with
  | [] => Some (r, [])
  | item :: items =>
    '(r, sent) ← forward_delayed env r item;
    '(r, more) ← forward_all env r items;
    Some (r, sent ++ more)
  end.

Definition flush_delayed (env : Tracks) (now : Z) (r : Router) :
    option (Router * list (TrackId * bytes)) :=
  let '(r, due) := take_due now r in forward_all env r due.

(** ** Leaving, closing, statistics *)

(** A loop body: the slots bound to the peer that left are freed. *)
Definition free_slot (gone : PeerId) (acc : Router * list BindingNotice) (at_ : PeerId * nat) :
    Router * list BindingNotice :=
  let '(r, notices) := acc in
  let '(s, i) := at_ in
  match peers r !! s, slot_at r s i with
  | Some sub, Some slot =>
    if decide (slot_publisher slot = Some gone) then
      (set_slot (with_heap r (end_source_at (rewriters r) (slot_rewriter slot))) s i
         (bound_slot slot None 0),
       notices ++ [notice_of sub slot None])
    else acc
  | _, _ => acc
  end.

Definition free_slots (r : Router) (gone : PeerId) : Router * list BindingNotice :=
  foldl (free_slot gone) (r, []) (slot_loop r).

Definition remove_peer (env : Env Media) (r : Router) (id : PeerId) :
    Router * list (Effect Media) :=
  if closed r then (r, [])
  else
    let r := with_peers r (delete id (peers r)) in
    let '(r, notices) := free_slots r id in
    let '(r, reassigned) := assign_available_locked env r in
    (r, publish env (notices ++ reassigned)).

Record Stats := {
  publishers : nat;
  bound_slots : nat;
  stat_packets_in : Z;
  stat_packets_out : Z;
  stat_bytes_out : Z;
}.

Definition is_bound (slot : OutputSlot) : bool := bool_decide (is_Some (slot_publisher slot)).

Definition stats (env : Tracks) (r : Router) : Stats :=
  let ps := (map_to_list (peers r)).*2 in
  {| publishers := length (filter (fun peer => expired env (input peer) = false) ps);
     bound_slots := length (filter (fun slot => is_bound slot = true) (ps ≫= outputs));
     stat_packets_in := packets_in r; stat_packets_out := packets_out r;
     stat_bytes_out := bytes_out r |}.

Definition live_tracks (env : Tracks) (peer : PeerState) : list TrackId :=
  (option_list (lock env (input peer)) ++ omap (fun slot => lock env (slot_track slot)) (outputs peer)).

Definition close (env : Tracks) (r : Router) : Router * list (Effect Media) :=
  if closed r then (r, [])
  else
    let ids := peer_loop r ≫= (fun s => from_option (live_tracks env) [] (peers r !! s)) in
    (mkRouter ∅ (rewriters r) (fault_config r) (next_peer_order r) true (executor r) None []
       (packets_in r) (packets_out r) (bytes_out r),
     ids ≫= fun t => [OnMessage t None; SetMediaHandler t None]).

Definition update_fault_config (r : Router) (config : RtpFaultConfig) : Router :=
  mkRouter (peers r) (rewriters r) config (next_peer_order r) (closed r) (executor r)
    (delay_timer r) (delay_queue r) (packets_in r) (packets_out r) (bytes_out r).
End Router.
