(* ===== verification/VoiceInvariant.v ===== *)
(** * Invariants of the voice router

    [wf] is what every operation of voice_router.cpp keeps true of the slots;
    [exec] runs any operation, so that [wf] holds in every reachable state. *)

From S2P Require Import Prelude Text RtpRewrite RtpSlot SfuMedia Signaling RouterCommon SendLoops VoiceRouter.

Local Open Scope list_scope.

(** ** Slots and their rewriters *)

Lemma slot_at_set r h s i slot s' i' :
  slot_at (set_slot (with_heap r h) s i slot) s' i'
  = if decide (s' = s /\ i' = i) then (fun _ => slot) <$> slot_at r s i else slot_at r s' i'.
Proof.
  unfold slot_at, set_slot. simpl. destruct (decide (s' = s)) as [-> | Hs].
  - rewrite lookup_alter_eq. destruct (peers r !! s) as [peer |]; simpl; [| by case_decide].
    destruct (decide (i' = i)) as [-> | Hi].
    + rewrite decide_True by done. destruct (outputs peer !! i) as [old |] eqn:E; simpl.
      * by eapply list_lookup_insert_eq, lookup_lt_Some.
      * apply lookup_ge_None. rewrite length_insert. by apply lookup_ge_None.
    + rewrite decide_False by naive_solver. by rewrite list_lookup_insert_ne.
  - rewrite lookup_alter_ne, decide_False by naive_solver. done.
Qed.

Lemma peers_set r h s i slot p :
  peers (set_slot (with_heap r h) s i slot) !! p
  = (if decide (p = s) then (fun peer => with_outputs peer (<[i := slot]> (outputs peer)))
     else id) <$> peers r !! p.
Proof.
  unfold set_slot. simpl. case_decide as Hp; [subst; by rewrite lookup_alter_eq |].
  rewrite lookup_alter_ne by done. by destruct (peers r !! p).
Qed.

#[export] Instance voice_table : SlotTable Router := {
  table_heap := rewriters;
  set_table_heap := with_heap;
  owner_of r id o := exists s i slot,
    slot_at r s i = Some slot /\ slot_rewriter slot = id /\ slot_publisher slot = o;
}.

#[export] Instance voice_table_laws : SlotTableLaws Router.
Proof. split; [done |]. intros r h id o. done. Qed.

(** [gone] are peers being removed, whose slots are not all freed yet. *)
Record wf (gone : PeerId -> Prop) (r : Router) : Prop := {
  wf_cell s i slot : slot_at r s i = Some slot -> is_Some (cells (rewriters r) !! slot_rewriter slot);
  wf_fresh id rw : cells (rewriters r) !! id = Some rw -> id < next_cell (rewriters r);
  wf_fit : generations_fit r;
  (** no rewriter is shared *)
  wf_unshared s i a s' i' b :
    slot_at r s i = Some a -> slot_at r s' i' = Some b ->
    slot_rewriter a = slot_rewriter b -> s = s' /\ i = i';
  (** a bound slot holds the current generation of its rewriter *)
  wf_generation s i slot p :
    slot_at r s i = Some slot -> slot_publisher slot = Some p ->
    generation_at (rewriters r) (slot_rewriter slot) = Some (slot_generation slot);
  (** nobody hears herself *)
  wf_self s i slot p : slot_at r s i = Some slot -> slot_publisher slot = Some p -> p <> s;
  (** nobody is heard twice by the same subscriber *)
  wf_once s i j a b p :
    slot_at r s i = Some a -> slot_at r s j = Some b ->
    slot_publisher a = Some p -> slot_publisher b = Some p -> i = j;
  (** only peers of the room are heard *)
  wf_present s i slot p :
    slot_at r s i = Some slot -> slot_publisher slot = Some p -> is_Some (peers r !! p) \/ gone p;
  (** a slot is identified by its mid *)
  wf_mids s i j a b :
    slot_at r s i = Some a -> slot_at r s j = Some b -> slot_mid a = slot_mid b -> i = j;
  (** the bindings of a peer are announced to that peer *)
  wf_sender s peer : peers r !! s = Some peer -> send_binding peer = Some s;
}.

Definition nobody (p : PeerId) : Prop := False.

(** An update that keeps the invariant, the history of the rewriters and the
    peers. *)
Record legal (gone : PeerId -> Prop) (r r' : Router) : Prop := {
  legal_wf : wf gone r';
  legal_evolves : evolves r r';
  legal_inputs p : input <$> peers r' !! p = input <$> peers r !! p;
}.

Lemma legal_peers gone r r' p :
  legal gone r r' -> is_Some (peers r' !! p) <-> is_Some (peers r !! p).
Proof.
  intros [_ _ Hi]. specialize (Hi p). rewrite <- (fmap_is_Some input), Hi. apply fmap_is_Some.
Qed.

Lemma legal_refl gone r : wf gone r -> legal gone r r.
Proof. intros Hr. split; [done | apply evolves_refl, (wf_fit _ _ Hr) | done]. Qed.

Lemma legal_trans gone r1 r2 r3 : legal gone r1 r2 -> legal gone r2 r3 -> legal gone r1 r3.
Proof.
  intros [H1 E1 P1] [H2 E2 P2]. split; [done | by eapply evolves_trans |].
  intros p. by rewrite P2.
Qed.

(** ** Switching one slot *)

Section Switch.
Context (gone : PeerId -> Prop) (r : Router) (s : PeerId) (i : nat) (slot : OutputSlot).
Context (rw : RtpSlotRewriter).
Hypotheses (Hwf : wf gone r) (Hslot : slot_at r s i = Some slot)
  (Hrw : cells (rewriters r) !! slot_rewriter slot = Some rw).

(** The heap after the slot's rewriter was switched. *)
Definition switched_heap : Heap :=
  mkHeap (<[slot_rewriter slot := end_source rw]> (cells (rewriters r)))
    (next_cell (rewriters r)) (switches (rewriters r) + 1).

Lemma switched_generation id :
  generation_at switched_heap id
  = if decide (id = slot_rewriter slot) then Some (u64 (generation_ rw + 1))
    else generation_at (rewriters r) id.
Proof using Type.
  unfold generation_at, switched_heap. simpl. case_decide as Hid.
  - subst. by rewrite lookup_insert_eq.
  - by rewrite lookup_insert_ne.
Qed.

(** The slot is rebound to [o]. *)
Lemma legal_switch o g :
  (forall p, o = Some p ->
     g = u64 (generation_ rw + 1) /\ p <> s /\ (is_Some (peers r !! p) \/ gone p)
     /\ forall j b, slot_at r s j = Some b -> slot_publisher b = Some p -> j = i) ->
  legal gone r (set_slot (with_heap r switched_heap) s i (bound_slot slot o g)).
Proof using Type*.
  intros Ho. set (r' := set_slot _ _ _ _).
  assert (forall s' i' x, slot_at r' s' i' = Some x ->
    (s' = s /\ i' = i /\ x = bound_slot slot o g)
    \/ (~ (s' = s /\ i' = i) /\ slot_at r s' i' = Some x)) as Hat.
  { intros s' i' x. unfold r'. rewrite slot_at_set, Hslot.
    case_decide as Hd; [| by right]. intros [= <-]. left. by destruct Hd. }
  assert (forall p, is_Some (peers r' !! p) <-> is_Some (peers r !! p)) as Hpeers.
  { intros p. unfold r'. rewrite peers_set. apply fmap_is_Some. }
  split; [| | intros p; unfold r'; rewrite peers_set; destruct (peers r !! p); simpl;
    [by case_decide | done]].
  - split.
    + intros s' i' x Hx. unfold r', set_slot. simpl. apply lookup_insert_is_Some'.
      destruct (Hat _ _ _ Hx) as [(-> & -> & ->) | [_ Hx']]; [by left | right].
      by eapply (wf_cell _ _ Hwf).
    + intros id w. unfold r', set_slot. simpl. intros [[<- _] | [_ Hw]]%lookup_insert_Some;
        by eapply (wf_fresh _ _ Hwf).
    + intros id g'. unfold r', set_slot. simpl. rewrite switched_generation.
      case_decide; [intros [= <-]; apply wrap_range; lia | apply (wf_fit _ _ Hwf)].
    + intros s1 i1 a s2 i2 b Ha Hb Heq.
      destruct (Hat _ _ _ Ha) as [(-> & -> & ->) | [Hna Ha']],
        (Hat _ _ _ Hb) as [(-> & -> & ->) | [Hnb Hb']]; [done | | |].
      * by apply (wf_unshared _ _ Hwf _ _ _ _ _ _ Hslot Hb').
      * by apply (wf_unshared _ _ Hwf _ _ _ _ _ _ Ha' Hslot).
      * by apply (wf_unshared _ _ Hwf _ _ _ _ _ _ Ha' Hb').
    + intros s1 i1 a p Ha Hp. unfold r', set_slot. simpl. rewrite switched_generation.
      destruct (Hat _ _ _ Ha) as [(-> & -> & ->) | [Hna Ha']]; simpl in *.
      * rewrite decide_True by done. by destruct (Ho _ Hp) as [-> _].
      * rewrite decide_False; [by eapply (wf_generation _ _ Hwf) |].
        intros Heq. apply Hna. by apply (wf_unshared _ _ Hwf _ _ _ _ _ _ Ha' Hslot).
    + intros s1 i1 a p Ha Hp. destruct (Hat _ _ _ Ha) as [(-> & -> & ->) | [Hna Ha']].
      * by destruct (Ho _ Hp) as (_ & ? & _).
      * by eapply (wf_self _ _ Hwf).
    + intros s1 i1 j a b p Ha Hb Hpa Hpb.
      destruct (Hat _ _ _ Ha) as [(-> & -> & ->) | [Hna Ha']],
        (Hat _ _ _ Hb) as [(? & -> & ->) | [Hnb Hb']]; [done | | |].
      * destruct (Ho _ Hpa) as (_ & _ & _ & Honly). by rewrite (Honly _ _ Hb' Hpb).
      * subst s1. destruct (Ho _ Hpb) as (_ & _ & _ & Honly). by rewrite (Honly _ _ Ha' Hpa).
      * by eapply (wf_once _ _ Hwf).
    + intros s1 i1 a p Ha Hp. rewrite Hpeers.
      destruct (Hat _ _ _ Ha) as [(-> & -> & ->) | [Hna Ha']].
      * by destruct (Ho _ Hp) as (_ & _ & ? & _).
      * by eapply (wf_present _ _ Hwf).
    + intros s1 i1 j a b Ha Hb Hm.
      destruct (Hat _ _ _ Ha) as [(-> & -> & ->) | [Hna Ha']],
        (Hat _ _ _ Hb) as [(? & -> & ->) | [Hnb Hb']]; [done | | |].
      * by apply (wf_mids _ _ Hwf _ _ _ _ _ Hslot Hb').
      * subst s1. by apply (wf_mids _ _ Hwf _ _ _ _ _ Ha' Hslot).
      * by apply (wf_mids _ _ Hwf _ _ _ _ _ Ha' Hb').
    + intros s1 peer. unfold r'. rewrite peers_set. intros Hp.
      destruct (peers r !! s1) as [old |] eqn:E; [| done]. apply (wf_sender _ _ Hwf) in E.
      case_decide; by injection Hp as <-.
  - apply (evolves_switch r r' (slot_rewriter slot) rw); [apply (wf_fit _ _ Hwf) | done | done |].
    intros id o' Hid (s1 & i1 & x & Hx & Hrx & Hox).
    destruct (Hat _ _ _ Hx) as [(-> & -> & ->) | [_ Hx']]; [done |]. by exists s1, i1, x.
Qed.
End Switch.

(** ** What the clients were told

    A client knows, per mid, the publisher of the last binding it received. *)

Definition view : Type := PeerId -> string -> option PeerId.

Definition tell (v : view) (to : PeerId) (m : string) (o : option PeerId) : view :=
  fun s m' => if decide (s = to /\ m' = m) then o else v s m'.

Definition hear (v : view) (n : BindingNotice) : view :=
  match notice_send n with Some to => tell v to (notice_mid n) (notice_publisher n) | None => v end.

Definition view_ok (v : view) (r : Router) : Prop :=
  (forall s i slot, slot_at r s i = Some slot -> v s (slot_mid slot) = slot_publisher slot)
  /\ (forall s m, (forall i slot, slot_at r s i = Some slot -> slot_mid slot <> m) -> v s m = None).

(** The view of clients that heard everything. *)
Definition told (r : Router) : view := fun s m =>
  match list_find (fun slot => slot_mid slot = m) (from_option outputs [] (peers r !! s)) with
  | Some (_, slot) => slot_publisher slot
  | None => None
  end.

Lemma told_ok gone r : wf gone r -> view_ok (told r) r.
Proof.
  intros Hwf. unfold told. split.
  - intros s i slot Hs. destruct (list_find _ _) as [[j x] |] eqn:E.
    + apply list_find_Some in E as (Hj & Hm & _).
      assert (slot_at r s j = Some x) as Hx by (unfold slot_at; by destruct (peers r !! s)).
      pose proof (wf_mids _ _ Hwf _ _ _ _ _ Hx Hs Hm) as ->. congruence.
    + apply list_find_None in E. rewrite Forall_forall in E. destruct (E slot); [| done].
      unfold slot_at in Hs. destruct (peers r !! s); [| done]. by eapply list_elem_of_lookup_2.
  - intros s m Hm. destruct (list_find _ _) as [[j x] |] eqn:E; [| done].
    apply list_find_Some in E as (Hj & Hx & _). destruct (Hm j x); [| done].
    unfold slot_at. by destruct (peers r !! s).
Qed.

(** A step of a loop that accumulates notices. *)
Definition advances (gone : PeerId -> Prop) (r0 : Router) (acc : Router * list BindingNotice) :
    Prop :=
  legal gone r0 acc.1
  /\ forall v, view_ok v r0 -> view_ok (foldl hear v acc.2) acc.1.

Lemma advances_refl gone r : wf gone r -> advances gone r (r, []).
Proof. intros Hr. split; [by apply legal_refl | done]. Qed.

Lemma advances_app gone r0 r1 n1 r2 n2 :
  advances gone r0 (r1, n1) -> advances gone r1 (r2, n2) -> advances gone r0 (r2, n1 ++ n2).
Proof.
  intros [L1 V1] [L2 V2]. split; [by eapply legal_trans |]. intros v Hv. simpl.
  rewrite foldl_app. by apply V2, V1.
Qed.

Lemma slot_at_peer r s i slot :
  slot_at r s i = Some slot -> exists sub, peers r !! s = Some sub /\ outputs sub !! i = Some slot.
Proof. unfold slot_at. intros H. by apply bind_Some in H. Qed.

(** Switching a slot and announcing it. *)
Lemma advances_switch gone r s i slot rw sub o g :
  wf gone r -> slot_at r s i = Some slot -> peers r !! s = Some sub ->
  cells (rewriters r) !! slot_rewriter slot = Some rw ->
  (forall p, o = Some p ->
     g = u64 (generation_ rw + 1) /\ p <> s /\ (is_Some (peers r !! p) \/ gone p)
     /\ forall j b, slot_at r s j = Some b -> slot_publisher b = Some p -> j = i) ->
  advances gone r
    (set_slot (with_heap r (switched_heap r slot rw)) s i (bound_slot slot o g),
     [notice_of sub slot o]).
Proof.
  intros Hwf Hslot Hsub Hrw Ho.
  split; [by apply legal_switch |]. intros v [Hv Hnone]. simpl.
  unfold hear. simpl. rewrite (wf_sender _ _ Hwf _ _ Hsub). unfold tell. split.
  - intros s' i' x. rewrite slot_at_set, Hslot. simpl.
    destruct (decide (s' = s /\ i' = i)) as [[-> ->] | Hne].
    + intros [= <-]. simpl. by rewrite decide_True.
    + intros Hx. rewrite decide_False; [by eapply Hv |]. intros [-> Hm]. apply Hne.
      split; [done |]. by apply (wf_mids _ _ Hwf _ _ _ _ _ Hx Hslot).
  - intros s' m Hm. rewrite decide_False.
    + apply Hnone. intros i' x Hx Hmx. destruct (decide (s' = s /\ i' = i)) as [[-> ->] | Hne].
      * apply (Hm i (bound_slot slot o g)); [by rewrite slot_at_set, decide_True, Hslot |].
        rewrite Hslot in Hx. by injection Hx as ->.
      * apply (Hm i' x); [| done]. by rewrite slot_at_set, decide_False.
    + intros [-> ->]. apply (Hm i (bound_slot slot o g)); [| done].
      by rewrite slot_at_set, decide_True, Hslot.
Qed.

(** [begin_source] on a slot for [p], and [end_source]. *)
Lemma advances_begin gone r s i slot sub p :
  wf gone r -> slot_at r s i = Some slot -> peers r !! s = Some sub ->
  p <> s -> is_Some (peers r !! p) \/ gone p ->
  (forall j b, slot_at r s j = Some b -> slot_publisher b = Some p -> j = i) ->
  let '(h, g) := begin_source_at (rewriters r) (slot_rewriter slot) in
  advances gone r
    (set_slot (with_heap r h) s i (bound_slot slot (Some p) g), [notice_of sub slot (Some p)]).
Proof.
  intros Hwf Hslot Hsub Hself Hp Honce. destruct (wf_cell _ _ Hwf _ _ _ Hslot) as [rw Hrw].
  rewrite (begin_source_at_spec _ _ _ Hrw). apply advances_switch; try done.
  intros q [= <-]. done.
Qed.

Lemma advances_end gone r s i slot sub :
  wf gone r -> slot_at r s i = Some slot -> peers r !! s = Some sub ->
  advances gone r
    (set_slot (with_heap r (end_source_at (rewriters r) (slot_rewriter slot))) s i
       (bound_slot slot None 0), [notice_of sub slot None]).
Proof.
  intros Hwf Hslot Hsub. destruct (wf_cell _ _ Hwf _ _ _ Hslot) as [rw Hrw].
  rewrite (end_source_at_spec _ _ _ Hrw). by apply advances_switch.
Qed.

(** ** The loops *)

Section Loops.
Context `{Platform} `{IterationOrder} {Media : Type} `{MediaApi Media, !SlotMedia Media}.

Lemma peer_loop_spec r s : s ∈ peer_loop r <-> is_Some (peers r !! s).
Proof.
  unfold peer_loop. rewrite iterate_perm, list_elem_of_fmap. split.
  - intros ([s' peer] & -> & Hin). apply elem_of_map_to_list in Hin. by exists peer.
  - intros [peer Hp]. exists (s, peer). split; [done |]. by apply elem_of_map_to_list.
Qed.

Lemma slot_loop_spec r s i slot : slot_at r s i = Some slot -> (s, i) ∈ slot_loop r.
Proof.
  intros Hs. destruct (slot_at_peer _ _ _ _ Hs) as (sub & Hsub & Hi).
  unfold slot_loop. apply list_elem_of_bind. exists s.
  split; [| by apply peer_loop_spec]. rewrite Hsub. simpl. apply list_elem_of_fmap.
  exists i. split; [done |]. apply elem_of_seq. apply lookup_lt_Some in Hi. lia.
Qed.

Lemma restart_slot_advances gone owner r0 acc at_ :
  advances gone r0 acc -> advances gone r0 (restart_slot owner acc at_).
Proof.
  intros Hacc. destruct acc as [r n], at_ as [s i]. simpl.
  destruct (peers r !! s) as [sub |] eqn:Hsub; [| done].
  destruct (slot_at r s i) as [slot |] eqn:Hslot; [| done].
  case_decide as Hp; [| done].
  pose proof (legal_wf _ _ _ (proj1 Hacc)) as Hwf.
  pose proof (advances_begin gone r s i slot sub owner Hwf Hslot Hsub
    ltac:(by eapply (wf_self _ _ Hwf)) ltac:(by eapply (wf_present _ _ Hwf))) as Hadv.
  destruct (begin_source_at _ _) as [h g].
  apply (advances_app _ _ _ _ _ _ Hacc), Hadv. intros j b Hb Hpb.
  by apply (wf_once _ _ Hwf _ _ _ _ _ _ Hb Hslot Hpb).
Qed.

Lemma restart_sources_advances gone owner r :
  wf gone r -> advances gone r (restart_sources r owner).
Proof.
  intros Hwf. apply (foldl_inv (advances gone r)); [by apply advances_refl |].
  intros acc at_. apply restart_slot_advances.
Qed.

(** Freeing also finishes the removal: afterwards nobody hears [id]. *)
Lemma free_slots_advances id r :
  wf (fun p => p = id) r -> peers r !! id = None ->
  advances (fun p => p = id) r (free_slots r id) /\ wf nobody (free_slots r id).1.
Proof.
  intros Hwf Hgone.
  pose (P := fun (rest : list (PeerId * nat)) (acc : Router * list BindingNotice) =>
    advances (fun p => p = id) r acc
    /\ forall s i slot, slot_at acc.1 s i = Some slot -> slot_publisher slot = Some id ->
       (s, i) ∈ rest).
  assert (P [] (free_slots r id)) as [Hadv Hnone].
  { apply (foldl_inv_rest P).
    - split; [by apply advances_refl |]. intros s i slot Hs _. by eapply slot_loop_spec.
    - intros [r1 n] [s i] rest [Hadv Hrest]. unfold free_slot.
      assert (forall s' i' x, slot_at r1 s' i' = Some x -> slot_publisher x = Some id ->
        (s', i') <> (s, i) -> (s', i') ∈ rest) as Hothers.
      { intros s' i' x Hx Hpx Hne. specialize (Hrest _ _ _ Hx Hpx).
        apply elem_of_cons in Hrest as [|]; done. }
      destruct (peers r1 !! s) as [sub |] eqn:Hsub.
      2: { split; [done |]. intros s' i' x Hx Hpx. eapply Hothers; try done.
           intros [= -> ->]. destruct (slot_at_peer _ _ _ _ Hx) as (y & Hy & _). simpl in *. congruence. }
      destruct (slot_at r1 s i) as [slot |] eqn:Hslot.
      2: { split; [done |]. intros s' i' x Hx Hpx. eapply Hothers; try done.
           intros [= -> ->]. simpl in *. congruence. }
      case_decide as Hp.
      + pose proof (legal_wf _ _ _ (proj1 Hadv)) as Hwf1. split.
        * apply (advances_app _ _ _ _ _ _ Hadv (advances_end _ _ _ _ _ _ Hwf1 Hslot Hsub)).
        * simpl. intros s' i' x. rewrite slot_at_set. case_decide as Hne.
          -- rewrite Hslot. by intros [= <-].
          -- intros Hx Hpx. eapply Hothers; try done. intros [= -> ->]. by apply Hne.
      + split; [done |]. intros s' i' x Hx Hpx. eapply Hothers; try done.
        intros [= -> ->]. simpl in *. congruence. }
  split; [done |]. destruct (legal_wf _ _ _ (proj1 Hadv)). split; try done.
  intros s i slot p Hs Hp. left.
  destruct (wf_present0 _ _ _ _ Hs Hp) as [| ->]; [done |].
  specialize (Hnone _ _ _ Hs Hp). by apply elem_of_nil in Hnone.
Qed.

(** ** Assignment *)

Definition hears (r : Router) (s p : PeerId) : Prop :=
  exists i slot, slot_at r s i = Some slot /\ slot_publisher slot = Some p.

Definition no_free_slot (env : Tracks) (r : Router) (s : PeerId) : Prop :=
  forall i slot, slot_at r s i = Some slot -> is_free env slot = false.

Definition live_input (env : Tracks) (r : Router) (p : PeerId) : Prop :=
  expired env (peers r !! p ≫= input) = false.

(** What assigning slots of [s] does: other subscribers and taken slots are left
    alone, and every publisher on the list is heard unless no slot is left. *)
Record assigns (env : Tracks) (s : PeerId) (publishers : list PeerId) (r r' : Router) : Prop := {
  assigns_others s' i : s' <> s -> slot_at r' s' i = slot_at r s' i;
  assigns_taken i slot :
    slot_at r s i = Some slot -> is_free env slot = false -> slot_at r' s i = Some slot;
  assigns_all p :
    p ∈ publishers -> p <> s -> live_input env r p -> hears r' s p \/ no_free_slot env r' s;
}.

Lemma live_input_same env r r' p :
  input <$> peers r' !! p = input <$> peers r !! p -> live_input env r p -> live_input env r' p.
Proof.
  unfold live_input. destruct (peers r !! p), (peers r' !! p); simpl; try done; congruence.
Qed.

Lemma find_free_Some env slots i slot :
  find_free env slots = Some (i, slot) ->
  slots !! i = Some slot /\ slot_publisher slot = None /\ expired env (slot_track slot) = false.
Proof.
  unfold find_free, is_free. rewrite list_find_Some. intros (Hi & Hf & _). split; [done |].
  destruct (slot_publisher slot); [done |]. by destruct (expired env _).
Qed.

Lemma find_free_None env r s sub :
  peers r !! s = Some sub -> find_free env (outputs sub) = None -> no_free_slot env r s.
Proof.
  unfold find_free, no_free_slot, slot_at. rewrite list_find_None. intros -> Hf i slot Hi.
  simpl in Hi. apply (Forall_lookup_1 _ _ _ _ Hf) in Hi. by destruct (is_free env slot).
Qed.

Lemma assign_publishers_spec gone env s publishers : forall assigned r notices,
  wf gone r -> is_Some (peers r !! s) -> (forall p, p ∈ assigned <-> hears r s p) ->
  let acc := assign_publishers env s publishers assigned r notices in
  (exists new, acc.2 = notices ++ new /\ advances gone r (acc.1, new))
  /\ assigns env s publishers r acc.1.
Proof.
  induction publishers as [| p publishers IH]; intros assigned r notices Hwf Hs Hassigned; simpl.
  { split; [exists []; by rewrite app_nil_r; split; [| apply advances_refl] |].
    split; try done. intros p Hp. by apply elem_of_nil in Hp. }
  destruct (skips env r s p assigned) eqn:Hskip.
  - destruct (IH assigned r notices Hwf Hs Hassigned) as [Hadv [Ho Ht Ha]]. split; [done |].
    split; try done. intros q [-> | Hq]%elem_of_cons Hne Hlive; [| by apply Ha].
    unfold skips in Hskip. unfold live_input in Hlive. rewrite Hlive, orb_false_r in Hskip.
    destruct (String.eqb_spec p s); [done |]. simpl in Hskip.
    apply bool_decide_eq_true in Hskip. apply Hassigned in Hskip as (i & slot & Hi & Hpi).
    left. exists i, slot. split; [| done]. apply Ht; [done |]. unfold is_free. by rewrite Hpi.
  - unfold skips in Hskip. apply orb_false_iff in Hskip as [Hskip Hpa].
    apply orb_false_iff in Hskip as [Hps Hlive]. apply bool_decide_eq_false in Hpa.
    apply String.eqb_neq in Hps. destruct Hs as [sub Hsub]. rewrite Hsub.
    destruct (find_free env (outputs sub)) as [[i slot] |] eqn:Hfree.
    2: { split; [exists []; by rewrite app_nil_r; split; [| apply advances_refl] |].
         split; try done. intros q _ _ _. right. by eapply find_free_None. }
    destruct (find_free_Some _ _ _ _ Hfree) as (Hi & Hnone & Htrack).
    assert (slot_at r s i = Some slot) as Hslot by (unfold slot_at; by rewrite Hsub).
    pose proof (advances_begin gone r s i slot sub p Hwf Hslot Hsub Hps) as Hbegin.
    destruct (begin_source_at (rewriters r) (slot_rewriter slot)) as [h g] eqn:Eb.
    assert (is_Some (peers r !! p)) as Hp.
    { destruct (peers r !! p); [by eexists | done]. }
    specialize (Hbegin (or_introl Hp)
      ltac:(intros j b Hb Hpb; destruct Hpa; apply Hassigned; by exists j, b)).
    set (r1 := set_slot (with_heap r h) s i (bound_slot slot (Some p) g)) in *.
    destruct (IH ({[p]} ∪ assigned) r1 (notices ++ [notice_of sub slot (Some p)]))
      as [(new & Hnew & Hadv) [Ho Ht Ha]].
    + apply (legal_wf _ _ _ (proj1 Hbegin)).
    + apply (legal_peers _ _ _ s (proj1 Hbegin)). by exists sub.
    + intros q. rewrite elem_of_union, elem_of_singleton, Hassigned. unfold hears, r1. split.
      * intros [-> | (j & b & Hb & Hqb)].
        -- exists i, (bound_slot slot (Some p) g). by rewrite slot_at_set, decide_True, Hslot.
        -- exists j, b. rewrite slot_at_set, decide_False; [done |]. intros [_ ->].
           rewrite Hslot in Hb. injection Hb as <-. congruence.
      * intros (j & b & Hb & Hqb). rewrite slot_at_set in Hb. case_decide.
        -- rewrite Hslot in Hb. injection Hb as <-. simpl in Hqb. left. congruence.
        -- right. by exists j, b.
    + split.
      * exists (notice_of sub slot (Some p) :: new). rewrite Hnew, <- app_assoc. split; [done |].
        by apply (advances_app _ _ _ _ _ _ Hbegin Hadv).
      * split.
        -- intros s' j Hne. rewrite Ho by done. unfold r1. rewrite slot_at_set, decide_False; naive_solver.
        -- intros j b Hb Hfb. apply Ht; [| done]. unfold r1. rewrite slot_at_set, decide_False; [done |].
           intros [_ ->]. rewrite Hslot in Hb. injection Hb as <-.
           unfold is_free in Hfb. by rewrite Hnone, Htrack in Hfb.
        -- intros q Hq Hne Hlq. apply elem_of_cons in Hq as [-> | Hq].
           ++ left. exists i, (bound_slot slot (Some p) g). split; [| done]. apply Ht; [| done].
              unfold r1. by rewrite slot_at_set, decide_True, Hslot.
           ++ apply Ha; [done.. |]. eapply live_input_same; [| exact Hlq].
              apply (legal_inputs _ _ _ (proj1 Hbegin)).
Qed.

Lemma ordered_peers_spec r s : s ∈ ordered_peers_locked r <-> is_Some (peers r !! s).
Proof.
  unfold ordered_peers_locked. rewrite merge_sort_Permutation, list_elem_of_fmap. split.
  - intros ([s' peer] & -> & Hin). apply elem_of_map_to_list in Hin. by exists peer.
  - intros [peer Hp]. exists (s, peer). split; [done |]. by apply elem_of_map_to_list.
Qed.

Lemma bound_publishers_spec r s p :
  p ∈ bound_publishers (from_option outputs [] (peers r !! s)) <-> hears r s p.
Proof.
  unfold bound_publishers, hears, slot_at. rewrite elem_of_list_to_set, list_elem_of_omap. split.
  - intros (slot & Hin & Hp). apply list_elem_of_lookup in Hin as [i Hi]. exists i, slot.
    by destruct (peers r !! s).
  - intros (i & slot & Hi & Hp). exists slot. split; [| done].
    destruct (peers r !! s); [| done]. by eapply list_elem_of_lookup_2.
Qed.

(** Every live publisher is heard by [s], unless [s] has no slot left. *)
Definition served (env : Tracks) (r : Router) (s : PeerId) : Prop :=
  forall p, p <> s -> live_input env r p -> hears r s p \/ no_free_slot env r s.

Lemma live_input_peer env r p : live_input env r p -> is_Some (peers r !! p).
Proof. unfold live_input. by destruct (peers r !! p). Qed.

Lemma assign_available_spec gone env r :
  wf gone r ->
  let acc := assign_available_locked env r in
  advances gone r acc
  /\ (forall s, is_Some (peers r !! s) -> served env acc.1 s)
  /\ (forall s i slot, slot_at r s i = Some slot -> is_free env slot = false ->
        slot_at acc.1 s i = Some slot).
Proof.
  intros Hwf acc.
  pose (P := fun (rest : list PeerId) (acc : Router * list BindingNotice) =>
    advances gone r acc
    /\ (forall s, is_Some (peers r !! s) -> s ∈ rest \/ served env acc.1 s)
    /\ (forall s i slot, slot_at r s i = Some slot -> is_free env slot = false ->
          slot_at acc.1 s i = Some slot)).
  assert (P [] acc) as (Hadv & Hall & Hkeep).
  2: { split_and!; [done | | done]. intros s Hs.
       by destruct (Hall s Hs) as [Hin%elem_of_nil |]. }
  apply (foldl_inv_rest P (assign_subscriber env (ordered_peers_locked r))).
  { split; [by apply advances_refl |]. split; [| done]. intros s Hs. left.
    by apply ordered_peers_spec. }
  intros [r1 n] s rest (Hadv & Hrest & Hkeep). unfold assign_subscriber.
  pose proof (legal_wf _ _ _ (proj1 Hadv)) as Hwf1. simpl in *.
  assert (forall p, is_Some (peers r1 !! p) <-> is_Some (peers r !! p)) as Hsame.
  { intros p. apply (legal_peers _ _ _ p (proj1 Hadv)). }
  destruct (decide (is_Some (peers r1 !! s))) as [Hs | Hs].
  - pose proof (assign_publishers_spec gone env s (ordered_peers_locked r) _ r1 n Hwf1 Hs
      (bound_publishers_spec r1 s)) as [(new & Hnew & Hadv2) [Ho Ht Ha]].
    destruct (assign_publishers _ _ _ _ _ _) as [r2 n2]. simpl in *. subst n2.
    split; [by apply (advances_app _ _ _ _ _ _ Hadv) |]. split.
    + intros s' Hs'. destruct (decide (s' = s)) as [-> | Hne].
      * right. intros p Hp Hlive.
        assert (live_input env r1 p) as Hlive1.
        { eapply live_input_same; [| exact Hlive]. symmetry. apply (legal_inputs _ _ _ (proj1 Hadv2)). }
        apply Ha; [| done | done].
        apply ordered_peers_spec, Hsame. by eapply live_input_peer.
      * destruct (Hrest s' Hs') as [[-> | Hin]%elem_of_cons | Hserved]; [done | by left | right].
        intros p Hp Hlive. unfold hears, no_free_slot. setoid_rewrite Ho; [| done..].
        apply Hserved; [done |]. eapply live_input_same; [| exact Hlive]. symmetry.
        apply (legal_inputs _ _ _ (proj1 Hadv2)).
    + intros s' i slot Hi Hf. specialize (Hkeep _ _ _ Hi Hf).
      destruct (decide (s' = s)) as [-> |]; [by apply Ht | by rewrite Ho].
  - assert (forall assigned, assign_publishers env s (ordered_peers_locked r) assigned r1 n = (r1, n)) as ->.
    { intros assigned. apply eq_None_not_Some in Hs.
      generalize (ordered_peers_locked r) as l. induction l as [| p l IH]; [done |]. simpl.
      rewrite Hs. by case_match. }
    split; [done |]. split; [| done]. intros s' Hs'.
    destruct (Hrest s' Hs') as [[-> | Hin]%elem_of_cons |]; [| by left | by right].
    by apply Hsame in Hs'.
Qed.
End Loops.

(** ** Updates that leave the slots alone *)

Lemma wf_same_slots gone r r' :
  wf gone r -> (forall s i, slot_at r' s i = slot_at r s i) ->
  same_generations (rewriters r) (rewriters r') ->
  (forall p, is_Some (peers r !! p) -> is_Some (peers r' !! p)) ->
  (forall s peer, peers r' !! s = Some peer -> send_binding peer = Some s) ->
  wf gone r'.
Proof.
  intros [] Hs (Hn & Hsw & Hg) Hp Hsend.
  assert (forall id, is_Some (cells (rewriters r') !! id) <-> is_Some (cells (rewriters r) !! id)) as Hc.
  { intros id. specialize (Hg id). unfold generation_at in Hg.
    rewrite <- (fmap_is_Some generation_), Hg. apply fmap_is_Some. }
  split; try (setoid_rewrite Hs; eauto; fail); [| | | | | done].
  - intros s i slot. rewrite Hs, Hc. eauto.
  - intros id rw Hrw. rewrite Hn.
    destruct (proj1 (Hc id) (mk_is_Some _ _ Hrw)) as [rw' Hrw']. eauto.
  - intros id g. simpl. rewrite Hg. apply wf_fit0.
  - intros s i slot p. rewrite Hs, Hg. eauto.
  - intros s i slot p. rewrite Hs. intros H1 H2. destruct (wf_present0 _ _ _ _ H1 H2); eauto.
Qed.

Lemma view_same_slots v r r' :
  (forall s i, slot_at r' s i = slot_at r s i) -> view_ok v r -> view_ok v r'.
Proof. intros Hs [Hv Hn]. split; setoid_rewrite Hs; eauto. Qed.

Lemma evolves_same_slots gone r r' :
  wf gone r -> (forall s i, slot_at r' s i = slot_at r s i) ->
  same_generations (rewriters r) (rewriters r') -> evolves r r'.
Proof.
  intros Hwf Hs Hg. apply evolves_same; [apply (wf_fit _ _ Hwf) | done |].
  intros id o (s & i & slot & Hi & Ho). exists s, i, slot. by rewrite <- Hs.
Qed.

(** ** New slots *)

Section NewSlot.
Context (gone : PeerId -> Prop) (r r' : Router) (owner : PeerId) (n : nat) (rate step : Z).
Context (slot : OutputSlot).
Hypotheses (Hwf : wf gone r)
  (Hheap : rewriters r' = snd (make_rewriter (rewriters r) rate step))
  (Hrw : slot_rewriter slot = next_cell (rewriters r))
  (Hfree : slot_publisher slot = None)
  (Hat : forall s i, slot_at r' s i
     = if decide (s = owner /\ i = n) then Some slot else slot_at r s i)
  (Hmid : forall i x, slot_at r owner i = Some x -> slot_mid x = slot_mid slot -> i = n)
  (Hpeers : forall p, is_Some (peers r !! p) -> is_Some (peers r' !! p))
  (Hsend : forall s peer, peers r' !! s = Some peer -> send_binding peer = Some s).

Lemma new_slot_generation id :
  generation_at (rewriters r') id
  = if decide (id = next_cell (rewriters r)) then Some 0%Z else generation_at (rewriters r) id.
Proof using Hheap.
  unfold generation_at. rewrite Hheap. simpl. case_decide as Hid.
  - subst. by rewrite lookup_insert_eq.
  - by rewrite lookup_insert_ne.
Qed.

Lemma old_slot_rewriter s i x : slot_at r s i = Some x -> slot_rewriter x <> next_cell (rewriters r).
Proof using Hwf Hrw.
  intros Hx Heq. destruct (wf_cell _ _ Hwf _ _ _ Hx) as [rw Hc]. rewrite Heq in Hc.
  apply (wf_fresh _ _ Hwf) in Hc. lia.
Qed.

Lemma new_slot_wf : wf gone r'.
Proof using Type*.
  split.
  - intros s i x Hx. rewrite Hat in Hx. rewrite Hheap. simpl. apply lookup_insert_is_Some'.
    case_decide; [injection Hx as <-; by left | right]. by eapply (wf_cell _ _ Hwf).
  - intros id rw. rewrite Hheap. simpl. intros [[<- _] | [_ Hw]]%lookup_insert_Some; [lia |].
    apply (wf_fresh _ _ Hwf) in Hw. lia.
  - intros id g. simpl. rewrite new_slot_generation. case_decide; [| apply (wf_fit _ _ Hwf)].
    intros [= <-]. unfold is_u. lia.
  - intros s i a s' i' b. rewrite !Hat. do 2 case_decide.
    + intros _ _ _. naive_solver.
    + intros [= <-] Hb Heq. exfalso. eapply old_slot_rewriter; [exact Hb |]. congruence.
    + intros Ha [= <-] Heq. exfalso. eapply old_slot_rewriter; [exact Ha |]. congruence.
    + apply (wf_unshared _ _ Hwf).
  - intros s i x p. rewrite Hat. case_decide; [intros [= <-]; congruence |]. intros Hx Hp.
    rewrite new_slot_generation, decide_False by (by eapply old_slot_rewriter).
    by eapply (wf_generation _ _ Hwf).
  - intros s i x p. rewrite Hat. case_decide; [intros [= <-]; congruence |]. apply (wf_self _ _ Hwf).
  - intros s i j a b p. rewrite !Hat. do 2 case_decide; try (intros; simplify_eq; congruence).
    apply (wf_once _ _ Hwf).
  - intros s i x p. rewrite Hat. case_decide; [intros [= <-]; congruence |]. intros Hx Hp.
    destruct (wf_present _ _ Hwf _ _ _ _ Hx Hp); eauto.
  - intros s i j a b. rewrite !Hat. do 2 case_decide.
    + naive_solver.
    + intros [= <-] Hb Hm. destruct_and?. subst. symmetry. by apply (Hmid j b).
    + intros Ha [= <-] Hm. destruct_and?. subst. by apply (Hmid i a).
    + apply (wf_mids _ _ Hwf).
  - done.
Qed.

Lemma new_slot_evolves : evolves r r'.
Proof using Type*.
  unfold evolves, switched. simpl. rewrite Hheap at 1. simpl. rewrite Z.sub_diag. split; [done |].
  intros id g Hg. exists 0%Z. rewrite Hheap at 1. simpl. split; [lia |].
  rewrite new_slot_generation. simpl in Hg.
  assert (id <> next_cell (rewriters r)) as Hid.
  { intros ->. unfold generation_at in Hg.
    destruct (cells (rewriters r) !! _) as [rw |] eqn:E; [| done].
    apply (wf_fresh _ _ Hwf) in E. lia. }
  rewrite decide_False by done. rewrite Hg, Z.add_0_r. unfold u64. split.
  - rewrite wrap_small; [done |]. by apply (wf_fit _ _ Hwf id).
  - intros _ o (s & i & x & Hx & Hrx & Ho). rewrite Hat in Hx.
    case_decide; [injection Hx as <-; congruence |]. by exists s, i, x.
Qed.

Lemma new_slot_view v :
  v owner (slot_mid slot) = None -> (forall x, slot_at r owner n = Some x -> slot_mid x = slot_mid slot) ->
  view_ok v r -> view_ok v r'.
Proof using Hat Hfree.
  intros Hnone Hsame [Hv Hn]. split.
  - intros s i x. rewrite Hat. case_decide as Hd; [| apply Hv].
    intros [= <-]. destruct Hd as [-> _]. by rewrite Hfree.
  - intros s m Hm. destruct (decide (s = owner /\ m = slot_mid slot)) as [[-> ->] | Hne]; [done |].
    apply Hn. intros i x Hx Hmx. destruct (decide (s = owner /\ i = n)) as [[-> ->] | Hi].
    + apply Hne. split; [done |]. rewrite <- Hmx. by apply Hsame.
    + apply (Hm i x); [| done]. by rewrite Hat, decide_False.
Qed.
End NewSlot.

Lemma set_slot_twice r h1 h2 s i a b :
  set_slot (with_heap (set_slot (with_heap r h1) s i a) h2) s i b = set_slot (with_heap r h2) s i b.
Proof.
  unfold set_slot, with_heap, with_peers. simpl. f_equal. rewrite alter_alter_eq.
  apply alter_ext. intros peer _. unfold compose, with_outputs. simpl. by rewrite list_insert_insert_eq.
Qed.

(** ** Whole operations *)

(** Like [advances], for updates that may also change inputs and peers. *)
Record progress (gone : PeerId -> Prop) (r0 : Router) (acc : Router * list BindingNotice) : Prop := {
  progress_wf : wf gone acc.1;
  progress_evolves : evolves r0 acc.1;
  progress_view v : view_ok v r0 -> view_ok (foldl hear v acc.2) acc.1;
}.

Lemma advances_progress gone r0 acc : advances gone r0 acc -> progress gone r0 acc.
Proof. intros [[] Hv]. by split. Qed.

Lemma progress_app gone r0 r1 n1 r2 n2 :
  progress gone r0 (r1, n1) -> progress gone r1 (r2, n2) -> progress gone r0 (r2, n1 ++ n2).
Proof.
  intros [W1 E1 V1] [W2 E2 V2]. split; [done | by eapply evolves_trans |].
  intros v Hv. simpl. rewrite foldl_app. by apply V2, V1.
Qed.

Lemma progress_nil gone r0 r1 acc :
  progress gone r0 (r1, []) -> progress gone r1 acc -> progress gone r0 acc.
Proof. intros H1 H2. destruct acc. by apply (progress_app _ _ _ _ _ _ H1 H2). Qed.

Lemma progress_same_slots gone r r' :
  wf gone r -> (forall s i, slot_at r' s i = slot_at r s i) ->
  same_generations (rewriters r) (rewriters r') ->
  (forall p, is_Some (peers r !! p) -> is_Some (peers r' !! p)) ->
  (forall s peer, peers r' !! s = Some peer -> send_binding peer = Some s) ->
  progress gone r (r', []).
Proof.
  intros Hwf Hs Hg Hp Hsend. split; [by eapply wf_same_slots | by eapply evolves_same_slots |].
  intros v. by apply view_same_slots.
Qed.

Lemma peer_for_locked_lookup r owner p :
  peers (peer_for_locked r owner) !! p
  = if decide (p = owner) then Some (default (new_peer (next_peer_order r)) (peers r !! owner))
    else peers r !! p.
Proof.
  unfold peer_for_locked. case_decide as Hp.
  - subst. destruct (peers r !! owner) eqn:E; simpl; [done |]. by rewrite lookup_insert_eq.
  - destruct (peers r !! owner); [done |]. simpl. by rewrite lookup_insert_ne.
Qed.

Lemma peer_for_locked_heap r owner : rewriters (peer_for_locked r owner) = rewriters r.
Proof. unfold peer_for_locked. by destruct (peers r !! owner). Qed.

(** A peer is added, or one of its fields other than [outputs] is set. *)
Definition entered (r : Router) (owner : PeerId) (f : PeerState -> PeerState) : Router :=
  let r := peer_for_locked r owner in with_peers r (alter f owner (peers r)).

Lemma entered_lookup r owner f p :
  peers (entered r owner f) !! p
  = if decide (p = owner) then Some (f (default (new_peer (next_peer_order r)) (peers r !! owner)))
    else peers r !! p.
Proof.
  unfold entered. simpl. case_decide as Hp.
  - subst. by rewrite lookup_alter_eq, peer_for_locked_lookup, decide_True.
  - by rewrite lookup_alter_ne, peer_for_locked_lookup, decide_False.
Qed.

Lemma entered_slots r owner f :
  (forall peer, outputs (f peer) = outputs peer) ->
  forall s i, slot_at (entered r owner f) s i = slot_at r s i.
Proof.
  intros Hf s i. unfold slot_at. rewrite entered_lookup. case_decide as Hs; [| done].
  subst. simpl. rewrite Hf. by destruct (peers r !! owner).
Qed.

Lemma entered_progress gone r owner f :
  wf gone r -> (forall peer, outputs (f peer) = outputs peer) ->
  (forall peer, send_binding (f peer) = Some owner) -> progress gone r (entered r owner f, []).
Proof.
  intros Hwf Hf Hsend. apply progress_same_slots; [done | by apply entered_slots | | |].
  - unfold entered. simpl. by rewrite peer_for_locked_heap.
  - intros p Hp. rewrite entered_lookup. by case_decide.
  - intros s peer. rewrite entered_lookup. case_decide as Hs; [subst; by intros [= <-] |].
    apply (wf_sender _ _ Hwf).
Qed.

Section Operations.
Context `{Platform} `{IterationOrder} {Media : Type} `{MediaApi Media, !SlotMedia Media}.

Lemma set_input_progress gone env r owner track mid_id :
  wf gone r -> progress gone r ((set_input env r owner track mid_id (Some owner)).1, []).
Proof. intros Hwf. by apply (entered_progress _ _ _ _ Hwf). Qed.

(** A free slot is reset. *)
Lemma reset_progress gone r owner i existing ssrc track :
  wf gone r -> slot_at r owner i = Some existing -> slot_publisher existing = None ->
  progress gone r
    (set_slot (with_heap r (make_rewriter (rewriters r) 48000 960).2) owner i
       (mkSlot (slot_mid existing) ssrc (Some track) None (next_cell (rewriters r)) 0), []).
Proof.
  intros Hwf Hslot Hfree. set (slot := mkSlot _ _ _ _ _ _). set (r' := set_slot _ _ _ _).
  assert (forall s j, slot_at r' s j
            = if decide (s = owner /\ j = i) then Some slot else slot_at r s j) as Hat.
  { intros s j. unfold r'. rewrite slot_at_set, Hslot. done. }
  assert (forall j x, slot_at r owner j = Some x -> slot_mid x = slot_mid slot -> j = i) as Hmid.
  { intros j x Hx Hm. by apply (wf_mids _ _ Hwf _ _ _ _ _ Hx Hslot). }
  assert (forall p, is_Some (peers r !! p) -> is_Some (peers r' !! p)) as Hp.
  { intros p. unfold r'. rewrite peers_set. apply fmap_is_Some. }
  assert (forall s peer, peers r' !! s = Some peer -> send_binding peer = Some s) as Hsend.
  { intros s peer. unfold r'. rewrite peers_set. intros Hs.
    destruct (peers r !! s) as [old |] eqn:E; [| done]. apply (wf_sender _ _ Hwf) in E.
    case_decide; by injection Hs as <-. }
  split; simpl.
  - by apply (new_slot_wf gone r r' owner i 48000 960 slot).
  - by apply (new_slot_evolves gone r r' owner i 48000 960 slot).
  - intros v Hv. apply (new_slot_view r r' owner i slot); try done.
    + destruct Hv as [Hv _]. rewrite <- Hfree. by apply (Hv owner i existing).
    + intros x Hx. rewrite Hslot in Hx. by injection Hx as <-.
Qed.

(** A slot is appended. *)
Lemma append_progress gone r owner peer m ssrc track :
  wf gone r -> peers r !! owner = Some peer ->
  (forall x, x ∈ outputs peer -> slot_mid x <> m) ->
  progress gone r
    (with_peers (with_heap r (make_rewriter (rewriters r) 48000 960).2)
       (alter (fun peer => with_outputs peer
                 (outputs peer ++ [mkSlot m ssrc (Some track) None (next_cell (rewriters r)) 0]))
          owner (peers r)), []).
Proof.
  intros Hwf Hpeer Hfresh. set (slot := mkSlot _ _ _ _ _ _). set (r' := with_peers _ _).
  assert (forall s j, slot_at r' s j
            = if decide (s = owner /\ j = length (outputs peer)) then Some slot
              else slot_at r s j) as Hat.
  { intros s j. unfold slot_at, r'. simpl. destruct (decide (s = owner)) as [-> | Hs].
    - rewrite lookup_alter_eq, Hpeer. simpl. case_decide as Hj.
      + destruct Hj as [_ ->]. by rewrite lookup_app_r, Nat.sub_diag.
      + destruct (decide (j < length (outputs peer))); [by rewrite lookup_app_l |].
        rewrite lookup_app_r by lia. rewrite (lookup_ge_None_2 (outputs peer)) by lia.
        apply lookup_ge_None_2. simpl.
        assert (j <> length (outputs peer)) by naive_solver. lia.
    - rewrite lookup_alter_ne, decide_False by naive_solver. done. }
  assert (forall j x, slot_at r owner j = Some x -> slot_mid x <> m) as Hnew.
  { unfold slot_at. rewrite Hpeer. simpl. intros j x Hx. apply Hfresh. by eapply list_elem_of_lookup_2. }
  assert (forall j x, slot_at r owner j = Some x -> slot_mid x = slot_mid slot ->
            j = length (outputs peer)) as Hmid.
  { intros j x Hx Hm. by apply Hnew in Hx. }
  assert (forall p, is_Some (peers r !! p) -> is_Some (peers r' !! p)) as Hp.
  { intros p. unfold r'. simpl. by rewrite lookup_alter_is_Some. }
  assert (forall s q, peers r' !! s = Some q -> send_binding q = Some s) as Hsend.
  { intros s q. unfold r'. simpl. destruct (decide (s = owner)) as [-> | Hs].
    - rewrite lookup_alter_eq, Hpeer. intros [= <-]. simpl. by apply (wf_sender _ _ Hwf).
    - rewrite lookup_alter_ne by done. apply (wf_sender _ _ Hwf). }
  split; simpl.
  - by apply (new_slot_wf gone r r' owner (length (outputs peer)) 48000 960 slot).
  - by apply (new_slot_evolves gone r r' owner (length (outputs peer)) 48000 960 slot).
  - intros v Hv. apply (new_slot_view r r' owner (length (outputs peer)) slot); try done.
    + destruct Hv as [_ Hn]. by apply Hn.
    + intros x Hx. unfold slot_at in Hx. rewrite Hpeer in Hx. simpl in Hx.
      apply lookup_lt_Some in Hx. lia.
Qed.

(** Placing an output, up to the assignment. *)
Lemma place_output_progress gone r owner m ssrc track :
  wf gone r -> progress gone r (place_output r owner m ssrc track (Some owner)).
Proof.
  intros Hwf. unfold place_output. set (r1 := with_peers _ _).
  assert (progress gone r (r1, [])) as Hr1 by by apply (entered_progress _ _ _ _ Hwf).
  pose proof (progress_wf _ _ _ Hr1) as Hwf1. simpl in Hwf1.
  destruct (peers r1 !! owner) as [peer |] eqn:Hpeer; [| done].
  apply (progress_nil _ _ _ _ Hr1).
  destruct (list_find _ (outputs peer)) as [[i existing] |] eqn:Hfind.
  2: { apply list_find_None in Hfind.
       apply (append_progress gone r1 owner peer m ssrc track Hwf1 Hpeer).
       by apply Forall_forall. }
  apply list_find_Some in Hfind as (Hi & Hm & _).
  assert (slot_at r1 owner i = Some existing) as Hslot by (unfold slot_at; by rewrite Hpeer).
  destruct (slot_publisher existing) as [p |] eqn:Hpub; [| by apply (reset_progress gone r1)].
  pose proof (advances_end gone r1 owner i existing peer Hwf1 Hslot Hpeer) as Hend.
  apply advances_progress in Hend. set (h := end_source_at _ _) in *.
  set (r2 := set_slot (with_heap r1 h) _ _ _) in Hend.
  assert (slot_at r2 owner i = Some (bound_slot existing None 0)) as Hslot2.
  { unfold r2. by rewrite slot_at_set, decide_True, Hslot. }
  pose proof (reset_progress gone r2 owner i _ ssrc track (progress_wf _ _ _ Hend) Hslot2 eq_refl)
    as Hreset.
  unfold r2 in Hreset. rewrite set_slot_twice in Hreset.
  apply (progress_app _ _ _ _ _ _ Hend Hreset).
Qed.

(** A peer's entry is erased; the slots bound to it are still to be freed. *)
Lemma delete_progress r id :
  wf nobody r ->
  let r' := with_peers r (delete id (peers r)) in
  wf (fun p => p = id) r' /\ evolves r r'
  /\ forall s i, slot_at r' s i = if decide (s = id) then None else slot_at r s i.
Proof.
  intros Hwf r'.
  assert (forall s i, slot_at r' s i = if decide (s = id) then None else slot_at r s i) as Hat.
  { intros s i. unfold slot_at, r'. simpl. case_decide as Hs.
    - subst. by setoid_rewrite lookup_delete_eq.
    - by setoid_rewrite lookup_delete_ne. }
  assert (forall s i x, slot_at r' s i = Some x -> slot_at r s i = Some x) as Hold.
  { intros s i x. rewrite Hat. by case_decide. }
  split; [| split; [| done]].
  - destruct Hwf. split; eauto.
    + intros s i slot p Hs Hp. unfold r'. simpl. destruct (decide (p = id)); [by right | left].
      rewrite lookup_delete_ne by done. by destruct (wf_present0 _ _ _ _ (Hold _ _ _ Hs) Hp).
    + intros s peer Hs. unfold r' in Hs. simpl in Hs.
      apply lookup_delete_Some in Hs as [_ Hs]. eauto.
  - apply evolves_same; [apply (wf_fit _ _ Hwf) | done |].
    intros rw o (s & i & x & Hx & Hrw & Ho). exists s, i, x. eauto.
Qed.

Lemma assign_progress gone env r : wf gone r -> progress gone r (assign_available_locked env r).
Proof. intros Hwf. apply advances_progress. by apply (assign_available_spec gone env r Hwf). Qed.

(** The client of the peer that leaves is forgotten. *)
Definition forget (v : view) (id : PeerId) : view :=
  fun s m => if decide (s = id) then None else v s m.

Definition removed (env : Tracks) (r : Router) (id : PeerId) : Router * list BindingNotice :=
  let '(r, notices) := free_slots (with_peers r (delete id (peers r))) id in
  let '(r, reassigned) := assign_available_locked env r in (r, notices ++ reassigned).

Lemma removed_spec env r id :
  wf nobody r ->
  let acc := removed env r id in
  wf nobody acc.1 /\ evolves r acc.1 /\ peers acc.1 !! id = None
  /\ (forall s, is_Some (peers acc.1 !! s) -> served env acc.1 s)
  /\ forall v, view_ok v r -> view_ok (foldl hear (forget v id) acc.2) acc.1.
Proof.
  intros Hwf. unfold removed. destruct (delete_progress r id Hwf) as (Hwf1 & Hev1 & Hat).
  set (r1 := with_peers r (delete id (peers r))) in *.
  assert (peers r1 !! id = None) as Hgone by apply lookup_delete_eq.
  destruct (free_slots_advances id r1 Hwf1 Hgone) as [[Hl2 Hv2] Hwf2].
  destruct (free_slots r1 id) as [r2 n2]. simpl in *.
  destruct (assign_available_spec nobody env r2 Hwf2) as ([Hl3 Hv3] & Hserved & _).
  destruct (assign_available_locked env r2) as [r3 n3]. simpl in *.
  assert (forall p, is_Some (peers r3 !! p) <-> is_Some (peers r1 !! p)) as Hsame.
  { intros p. by rewrite (legal_peers _ _ _ p Hl3), (legal_peers _ _ _ p Hl2). }
  split_and!.
  - apply (legal_wf _ _ _ Hl3).
  - eapply evolves_trans; [exact Hev1 |]. eapply evolves_trans; [apply (legal_evolves _ _ _ Hl2) |].
    apply (legal_evolves _ _ _ Hl3).
  - apply eq_None_not_Some. intros Hs%Hsame. simpl in Hs. rewrite Hgone in Hs.
    by destruct Hs.
  - intros s Hs. apply Hserved. by apply (legal_peers _ _ _ s Hl3).
  - intros v [Hv Hn]. rewrite foldl_app. apply Hv3, Hv2. unfold forget. split.
    + intros s i slot. rewrite Hat. case_decide; [done |]. apply Hv.
    + intros s m Hm. case_decide; [done |]. apply Hn. intros i slot Hs.
      apply (Hm i). by rewrite Hat, decide_False.
Qed.

(** ** Collecting and routing *)

Lemma collect_targets_spec r p t :
  t ∈ collect_targets_locked r p <->
  exists s i slot, slot_at r s i = Some slot /\ slot_publisher slot = Some p
    /\ t = mkTarget (slot_track slot) (slot_ssrc slot) (slot_rewriter slot) (slot_generation slot).
Proof.
  unfold collect_targets_locked. rewrite list_elem_of_bind. split.
  - intros ([s i] & Hin & _). simpl in Hin.
    destruct (slot_at r s i) as [slot |] eqn:E; [| by apply elem_of_nil in Hin].
    case_decide; [| by apply elem_of_nil in Hin]. apply list_elem_of_singleton in Hin.
    by exists s, i, slot.
  - intros (s & i & slot & Hs & Hp & ->). exists (s, i). split; [| by eapply slot_loop_spec].
    simpl. rewrite Hs, decide_True by done. by apply list_elem_of_singleton.
Qed.

Lemma collected_fresh r p mid_id outgoing :
  wf nobody r ->
  Forall (job_fresh r p) (jobs_of (collect_targets_locked r p) mid_id outgoing).
Proof.
  intros Hwf. apply Forall_forall. intros j Hj. unfold jobs_of in Hj.
  apply list_elem_of_bind in Hj as (pkt & Hj & _).
  apply list_elem_of_fmap in Hj as (t & -> & Ht).
  apply collect_targets_spec in Ht as (s & i & slot & Hs & Hp & ->). split; simpl.
  - by apply (wf_generation _ _ Hwf _ _ _ _ Hs Hp).
  - intros o (s' & i' & x & Hx & Hrw & <-).
    destruct (wf_unshared _ _ Hwf _ _ _ _ _ _ Hx Hs Hrw) as [-> ->]. congruence.
Qed.

Definition routed_jobs (routed : Routed) : list Job :=
  jobs_of (routed_targets routed) (routed_mid routed) (routed_packets routed).

(** Routing changes nothing but fault, link and queue states and counters. *)
Definition same_slots (r r' : Router) : Prop :=
  rewriters r' = rewriters r
  /\ forall p, (fun peer => (input peer, outputs peer, send_binding peer)) <$> peers r' !! p
              = (fun peer => (input peer, outputs peer, send_binding peer)) <$> peers r !! p.

Lemma same_slots_at r r' s i : same_slots r r' -> slot_at r' s i = slot_at r s i.
Proof.
  intros [_ Hp]. specialize (Hp s). unfold slot_at.
  destruct (peers r !! s), (peers r' !! s); simpl in *; congruence.
Qed.

Lemma same_slots_progress r r' : wf nobody r -> same_slots r r' -> progress nobody r (r', []).
Proof.
  intros Hwf Hsame. apply progress_same_slots; [done | intros; by apply same_slots_at | | |];
    destruct Hsame as [Hh Hp].
  - by rewrite Hh.
  - intros p [peer E]. specialize (Hp p). rewrite E in Hp. simpl in Hp.
    destruct (peers r' !! p); [by eexists | done].
  - intros s peer E. specialize (Hp s). rewrite E in Hp. simpl in Hp.
    destruct (peers r !! s) eqn:E'; [| done]. apply (wf_sender _ _ Hwf) in E'. simpl in Hp. congruence.
Qed.

Lemma same_slots_update r r' p f :
  rewriters r' = rewriters r -> peers r' = alter f p (peers r) ->
  (forall peer, input (f peer) = input peer /\ outputs (f peer) = outputs peer
     /\ send_binding (f peer) = send_binding peer) -> same_slots r r'.
Proof.
  intros Hh Hp Hf. split; [done |]. intros q. rewrite Hp. destruct (decide (p = q)) as [-> | Hne].
  - rewrite lookup_alter_eq. destruct (peers r !! q) as [peer |]; simpl; [| done].
    by destruct (Hf peer) as (-> & -> & ->).
  - by rewrite lookup_alter_ne.
Qed.

Lemma nothing_routed_jobs : routed_jobs nothing_routed = [].
Proof. done. Qed.

Lemma route_locked_spec env now r p expected pkt r' routed :
  route_locked env now r p expected pkt = Some (r', routed) ->
  same_slots r r'
  /\ (routed_jobs routed = []
      \/ routed_targets routed = collect_targets_locked r' p).
Proof.
  unfold route_locked. intros Hr.
  destruct (closed r); [injection Hr as <- <-; by split; [| left] |].
  destruct (peers r !! p) as [source |]; [| injection Hr as <- <-; by split; [| left]].
  destruct (is_source env source expected); simpl in Hr;
    [| injection Hr as <- <-; by split; [| left]].
  destruct (negb _ && _); [injection Hr as <- <-; split; [by destruct (IsRtcp pkt) | by left] |].
  destruct (apply_rtp_faults _ _ _ _) as [packets fault].
  apply bind_Some in Hr as (s1 & _ & Hr). apply bind_Some in Hr as (s2 & _ & Hr).
  injection Hr as <- <-. split.
  - eapply same_slots_update; [by destruct (IsRtcp pkt) | simpl; by destruct (IsRtcp pkt) | done].
  - unfold routed_jobs. simpl. destruct (immediate s2); [by left | by right].
Qed.

Lemma forward_locked_spec env r item r' routed :
  forward_locked env r item = (r', routed) ->
  same_slots r r'
  /\ (routed_jobs routed = []
      \/ routed_targets routed = collect_targets_locked r' (delayed_publisher item)).
Proof.
  unfold forward_locked. intros Hr.
  destruct (closed r); [injection Hr as <- <-; by split; [| left] |].
  destruct (peers r !! _) as [source |]; [| injection Hr as <- <-; by split; [| left]].
  destruct (is_source env source _); simpl in Hr; injection Hr as <- <-; [| by split; [| left]].
  split; [by eapply same_slots_update | by right].
Qed.

(** ** All operations *)

Inductive Op : Type :=
  | RegisterTrack (env : Env Media) (next_ssrc : Z) (owner : PeerId) (track : option (Track Media))
  | RoutePacket (env : Tracks) (now : Z * Z) (publisher : PeerId) (expected : WeakTrack) (pkt : bytes)
  | TimerFires (now : Z)
  | ForwardDelayed (env : Tracks) (item : DelayedPacket)
  | RemovePeer (env : Env Media) (id : PeerId)
  | Close (env : Tracks)
  | UpdateFaultConfig (config : RtpFaultConfig).

(** One operation under the router's lock, with the sends it starts. *)
Definition exec (r : Router) (op : Op) : option (Router * list (PeerId * list Job)) :=
  match op with
  | RegisterTrack env next_ssrc owner track =>
    let '(r, _, _) := register_track env next_ssrc r owner track (Some owner) in Some (r, [])
  | RoutePacket env now p expected pkt =>
    '(r, routed) ← route_locked env now r p expected pkt;
    Some (r, [(p, routed_jobs routed)])
  | TimerFires now => Some ((take_due now r).1, [])
  | ForwardDelayed env item =>
    let '(r, routed) := forward_locked env r item in
    Some (r, [(delayed_publisher item, routed_jobs routed)])
  | RemovePeer env id => Some ((remove_peer env r id).1, [])
  | Close env => Some ((close (Media := Media) env r).1, [])
  | UpdateFaultConfig config => Some (update_fault_config r config, [])
  end.

Lemma routed_fresh r' p routed :
  wf nobody r' ->
  routed_jobs routed = [] \/ routed_targets routed = collect_targets_locked r' p ->
  Forall (job_fresh r' p) (routed_jobs routed).
Proof.
  intros Hwf [-> | E]; [done |]. unfold routed_jobs. rewrite E. by apply collected_fresh.
Qed.

(** What the clients hear of the effects of an operation. *)
Definition hear_effect (v : view) (e : Effect Media) : view :=
  match e with SendBinding to m o => tell v to m o | _ => v end.

Lemma hear_publish env notices v : foldl hear_effect v (publish env notices) = foldl hear v notices.
Proof.
  revert v. induction notices as [| n notices IH]; intros v; [done |].
  unfold publish in *. rewrite bind_cons, foldl_app, IH. cbn [foldl]. f_equal.
  unfold publish_one, hear. rewrite foldl_app.
  assert (forall l, l = [] \/ (exists t h, l = [@SetMediaHandler Media t h]) ->
    foldl hear_effect v l = v) as Hquiet.
  { intros l [-> | (t & h & ->)]; done. }
  rewrite Hquiet; [by destruct (notice_send n) |].
  destruct (lock env _); [right | by left]. destruct (notice_publisher n); eauto.
Qed.

(** What a registration guarantees, whatever was registered. *)
Record outcome (r : Router) (acc : Router * list (Effect Media)) : Prop := {
  outcome_wf : wf nobody acc.1;
  outcome_evolves : evolves r acc.1;
  outcome_view v : view_ok v r -> view_ok (foldl hear_effect v acc.2) acc.1;
}.

Lemma outcome_of_progress (env : Env Media) r r' n effs :
  progress nobody r (r', n) -> (forall v, foldl hear_effect v effs = v) ->
  outcome r (r', effs ++ publish env n).
Proof.
  intros [Hwf Hev Hv] Heffs. split; [done.. |]. intros v Hok. simpl.
  rewrite foldl_app, Heffs, hear_publish. by apply Hv.
Qed.

Lemma outcome_quiet r effs :
  wf nobody r -> (forall v, foldl hear_effect v effs = v) -> outcome r (r, effs).
Proof.
  intros Hwf He. split; [done | apply evolves_refl, (wf_fit _ _ Hwf) |]. intros v Hv. simpl.
  by rewrite He.
Qed.

Lemma register_input_outcome (env : Env Media) r owner track :
  wf nobody r ->
  let acc := register_input env r owner track (Some owner) in
  outcome r acc
  /\ (closed r = false -> forall s, is_Some (peers acc.1 !! s) -> served env acc.1 s).
Proof.
  intros Hwf. unfold register_input. destruct (closed r); [by split; [apply outcome_quiet |] |].
  set (m := mid_extension_id _).
  pose proof (set_input_progress nobody env r owner (track_id track) m Hwf) as Hset.
  destruct (set_input _ _ _ _ _ _) as [r1 source_changed]. simpl in Hset.
  pose proof (progress_wf _ _ _ Hset) as Hwf1. simpl in Hwf1.
  assert (progress nobody r1 (if source_changed then restart_sources r1 owner else (r1, []))) as Hre.
  { destruct source_changed; apply advances_progress; [by apply restart_sources_advances |].
    by apply advances_refl. }
  destruct (if source_changed then _ else _) as [r2 n2].
  pose proof (progress_wf _ _ _ Hre) as Hwf2. simpl in Hwf2.
  destruct (assign_available_spec nobody env r2 Hwf2) as (Hadv & Hserved & _).
  destruct (assign_available_locked env r2) as [r3 n3]. simpl in *. split.
  - apply (outcome_of_progress env r r3 (n2 ++ n3) [_; _; _]); [| done].
    apply (progress_nil _ _ _ _ Hset).
    apply (progress_app _ _ _ _ _ _ Hre). by apply advances_progress.
  - intros _ s Hs. apply Hserved. by apply (legal_peers _ _ _ s (proj1 Hadv)).
Qed.

Lemma register_output_outcome (env : Env Media) next_ssrc r owner track :
  wf nobody r ->
  let '(r', _, effs) := register_output env next_ssrc r owner track (Some owner) in
  outcome r (r', effs)
  /\ (closed r = false -> forall s, is_Some (peers r' !! s) -> served env r' s).
Proof.
  intros Hwf. unfold register_output. destruct (allocate_slot_ssrc next_ssrc) as [ssrc next].
  destruct (closed r); [by split; [apply outcome_quiet |] |].
  pose proof (place_output_progress nobody r owner (mid track) ssrc (track_id track) Hwf) as Hplace.
  destruct (place_output _ _ _ _ _ _) as [r1 n1].
  pose proof (progress_wf _ _ _ Hplace) as Hwf1. simpl in Hwf1.
  destruct (assign_available_spec nobody env r1 Hwf1) as (Hadv & Hserved & _).
  destruct (assign_available_locked env r1) as [r2 n2]. simpl in *. split.
  - apply (outcome_of_progress env r r2 (n1 ++ n2) [_; _]); [| done].
    apply (progress_app _ _ _ _ _ _ Hplace).
    by apply advances_progress.
  - intros _ s Hs. apply Hserved. by apply (legal_peers _ _ _ s (proj1 Hadv)).
Qed.

Lemma register_track_outcome (env : Env Media) next_ssrc r owner track :
  wf nobody r ->
  let '(r', _, effs) := register_track env next_ssrc r owner track (Some owner) in
  outcome r (r', effs).
Proof.
  intros Hwf. unfold register_track. destruct track as [track |]; [| by apply outcome_quiet].
  destruct (negb _); [by apply outcome_quiet |].
  destruct (direction track); [| | by apply outcome_quiet].
  - destruct (register_input_outcome env r owner track Hwf) as [Ho _].
    by destruct (register_input _ _ _ _ _).
  - pose proof (register_output_outcome env next_ssrc r owner track Hwf) as Ho.
    destruct (register_output _ _ _ _ _ _) as [[r' n] effs]. by destruct Ho.
Qed.

Lemma remove_peer_removed (env : Env Media) r id :
  closed r = false ->
  remove_peer env r id = ((removed env r id).1, publish env (removed env r id).2).
Proof.
  intros Hc. unfold remove_peer, removed. rewrite Hc.
  destruct (free_slots _ _) as [r1 n1]. by destruct (assign_available_locked env r1).
Qed.

Lemma exec_progress r op r' new :
  wf nobody r -> exec r op = Some (r', new) ->
  wf nobody r' /\ evolves r r'
  /\ Forall (fun l => Forall (job_fresh r' l.1) l.2) new.
Proof.
  intros Hwf. assert (evolves r r) as Hrefl by apply evolves_refl, (wf_fit _ _ Hwf).
  destruct op as [env next owner track | env now p expected pkt | now | env item | env id | env | cfg];
    simpl; intros He.
  - pose proof (register_track_outcome env next r owner track Hwf) as Ho.
    destruct (register_track _ _ _ _ _ _) as [[r1 n] effs]. injection He as <- <-. by destruct Ho.
  - apply bind_Some in He as ([r1 routed] & Hr & [= <- <-]).
    destruct (route_locked_spec _ _ _ _ _ _ _ _ Hr) as [Hsame Hjobs].
    destruct (same_slots_progress _ _ Hwf Hsame) as [Hwf1 Hev _]. simpl in *.
    split_and!; [done.. |]. constructor; [| done]. by apply routed_fresh.
  - injection He as <- <-. unfold take_due. destruct (closed r); [done |].
    destruct (pop_due now (delay_queue r)) as [due q]. simpl.
    destruct (same_slots_progress r (with_delays r (arm_delay_timer (executor r) q (delay_timer r)) q)
      Hwf) as [Hwf1 Hev _]; done.
  - destruct (forward_locked env r item) as [r1 routed] eqn:Hr. injection He as <- <-.
    destruct (forward_locked_spec _ _ _ _ _ Hr) as [Hsame Hjobs].
    destruct (same_slots_progress _ _ Hwf Hsame) as [Hwf1 Hev _]. simpl in *.
    split_and!; [done.. |]. constructor; [| done]. by apply routed_fresh.
  - injection He as <- <-. destruct (closed r) eqn:Hc; [unfold remove_peer; by rewrite Hc |].
    rewrite remove_peer_removed by done. simpl.
    by destruct (removed_spec env r id Hwf) as (? & ? & _).
  - injection He as <- <-. unfold close. destruct (closed r); [done |]. simpl.
    split_and!; [| | done].
    + destruct Hwf. split; try done; unfold slot_at; simpl; intros *; by rewrite lookup_empty.
    + apply evolves_same; [apply (wf_fit _ _ Hwf) | done |].
      intros id o (s & i & x & Hx & _). unfold slot_at in Hx. simpl in Hx. by rewrite lookup_empty in Hx.
  - injection He as <- <-.
    by destruct (same_slots_progress r (update_fault_config r cfg) Hwf) as [Hwf1 Hev _].
Qed.

Lemma voice_sound : Sound exec (wf nobody).
Proof.
  split; [intros r; apply wf_fit | | intros; by eapply exec_progress].
  intros r h Hwf Hh. eapply (wf_same_slots nobody r); try done. apply (wf_sender _ _ Hwf).
Qed.

Lemma new_router_wf config timer_executor : wf nobody (new_router config timer_executor).
Proof.
  split; try done; unfold slot_at, generations_fit, generation_at; simpl; intros *;
    by rewrite lookup_empty.
Qed.

(** A router and no send loop. *)
Definition fresh_machine (config : RtpFaultConfig) (timer_executor : bool) : Machine :=
  mkMachine (new_router config timer_executor) [].

Lemma fresh_machine_ok config timer_executor :
  machine_ok (wf nobody) 0 (fresh_machine config timer_executor).
Proof. split; [apply new_router_wf | done]. Qed.

Lemma machine_wf config timer_executor actions m :
  machine_run exec (fresh_machine config timer_executor) actions = Some m -> wf nobody (router m).
Proof.
  intros Hrun. by destruct (machine_ok_run exec _ voice_sound 0 actions _ _
    (fresh_machine_ok config timer_executor) Hrun) as [Hwf _].
Qed.
End Operations.
