(* ===== verification/VoiceFrames.v ===== *)
(** * What the operations of the voice router leave alone

    Only routing and the delay timer touch the delay queue, and only [close]
    closes the router. *)

From S2P Require Import Prelude RtpRewrite RtpSlot SfuMedia Signaling RouterCommon SendLoops.
From S2P Require Import VoiceRouter VoiceInvariant.

Local Open Scope list_scope.

Section Frames.
Context `{Platform} `{IterationOrder} {Media : Type} `{MediaApi Media, !SlotMedia Media}.

Definition delays (r : Router) : bool * bool * list (Z * DelayedPacket) * option Z :=
  (closed r, executor r, delay_queue r, delay_timer r).

Lemma assign_publishers_delays env s ps : forall assigned r n,
  delays (assign_publishers env s ps assigned r n).1 = delays r.
Proof.
  induction ps as [| p ps IH]; intros assigned r n; simpl; [done |].
  destruct (skips _ _ _ _ _); [by apply IH |]. destruct (peers r !! s) as [sub |]; [| done].
  destruct (find_free _ _) as [[i slot] |]; [| done]. destruct (begin_source_at _ _) as [h g].
  by rewrite IH.
Qed.

Lemma assign_available_delays env r : delays (assign_available_locked env r).1 = delays r.
Proof.
  apply (foldl_inv (fun acc => delays acc.1 = delays r)); [done |].
  intros [r1 n] s E. simpl in *. by rewrite assign_publishers_delays.
Qed.

Lemma restart_sources_delays r owner : delays (restart_sources r owner).1 = delays r.
Proof.
  apply (foldl_inv (fun acc => delays acc.1 = delays r)); [done |].
  intros [r1 n] [s i] E. simpl in *. destruct (peers r1 !! s); [| done].
  destruct (slot_at r1 s i); [| done]. case_decide; [| done]. by destruct (begin_source_at _ _).
Qed.

Lemma free_slots_delays r id : delays (free_slots r id).1 = delays r.
Proof.
  apply (foldl_inv (fun acc => delays acc.1 = delays r)); [done |].
  intros [r1 n] [s i] E. simpl in *. destruct (peers r1 !! s); [| done].
  destruct (slot_at r1 s i); [| done]. by case_decide.
Qed.

Lemma peer_for_locked_delays r id : delays (peer_for_locked r id) = delays r.
Proof. unfold peer_for_locked. by destruct (peers r !! id). Qed.

Lemma register_track_delays (env : Env Media) next_ssrc r owner track send :
  delays (register_track env next_ssrc r owner track send).1.1 = delays r.
Proof.
  unfold register_track. destruct track as [track |]; [| done]. destruct (negb _); [done |].
  destruct (direction track); [| | done].
  - unfold register_input. destruct (closed r); [done |].
    destruct (set_input _ _ _ _ _ _) as [r1 changed] eqn:E1.
    assert (delays r1 = delays r) as H1'.
    { unfold set_input in E1. injection E1 as <- _. apply (peer_for_locked_delays r owner). }
    assert (delays (if changed then restart_sources r1 owner else (r1, [])).1 = delays r) as H2.
    { destruct changed; [by rewrite restart_sources_delays | done]. }
    destruct (if changed then _ else _) as [r2 n2].
    pose proof (assign_available_delays env r2) as H3.
    destruct (assign_available_locked env r2) as [r3 n3]. simpl in *. congruence.
  - unfold register_output. destruct (allocate_slot_ssrc next_ssrc) as [ssrc next].
    destruct (closed r); [done |].
    assert (delays (place_output r owner (mid track) ssrc (track_id track) send).1 = delays r) as H1'.
    { unfold place_output. destruct (peers _ !! owner); [| apply (peer_for_locked_delays r owner)].
      destruct (list_find _ _) as [[i existing] |]; [| apply (peer_for_locked_delays r owner)].
      destruct (slot_publisher existing); apply (peer_for_locked_delays r owner). }
    destruct (place_output _ _ _ _ _ _) as [r1 n1].
    pose proof (assign_available_delays env r1) as H3.
    destruct (assign_available_locked env r1) as [r2 n2]. simpl in *. congruence.
Qed.

Lemma voice_remove_peer_delays (env : Env Media) r id : delays (remove_peer env r id).1 = delays r.
Proof.
  unfold remove_peer. destruct (closed r); [done |].
  pose proof (free_slots_delays (with_peers r (delete id (peers r))) id) as E1.
  destruct (free_slots _ id) as [r1 n1]. pose proof (assign_available_delays env r1) as E2.
  destruct (assign_available_locked env r1) as [r2 n2]. simpl in *. by rewrite E2, E1.
Qed.
End Frames.
