(* ===== verification/VoiceProperties.v ===== *)
(** * What the voice router guarantees

    The properties of voice_router.cpp, over every sequence of operations and
    every interleaving of the send loops with them. *)

From S2P Require Import Prelude RtpRewrite RtpSlot SfuMedia Signaling RouterCommon SendLoops Delays Samples.
From S2P Require Import VoiceRouter VoiceInvariant VoiceFrames.

Local Open Scope list_scope.

Section Properties.
Context `{Platform} `{IterationOrder} {Media : Type} `{MediaApi Media, !SlotMedia Media}.

(** Slot invariant: in every state the router can reach, with sends of
    earlier packets interleaved at will, no rewriter is shared between slots, a
    bound slot holds the current generation of its rewriter, nobody hears
    herself, nobody is heard twice by one subscriber, only present peers are
    heard, mids are unique per peer and each peer's bindings are announced to
    that peer. *)
Theorem voice_invariant config timer_executor actions m :
  machine_run exec (fresh_machine config timer_executor) actions = Some m ->
  wf nobody (router m).
Proof. apply machine_wf. Qed.


(** Nobody is left out: after an audio track was registered and after a
    peer left, every subscriber hears every other peer with a live input,
    unless all its live slots are taken. *)
Theorem voice_served (env : Env Media) next_ssrc r owner track id :
  wf nobody r -> closed r = false ->
  (media_type track = "audio"%string -> direction track <> OtherDirection ->
   let '(r', _, _) := register_track env next_ssrc r owner (Some track) (Some owner) in
   forall s, is_Some (peers r' !! s) -> served env r' s)
  /\ let r' := (remove_peer env r id).1 in forall s, is_Some (peers r' !! s) -> served env r' s.
Proof.
  intros Hwf Hc. split.
  - intros Ht Hd. unfold register_track. rewrite Ht. simpl.
    destruct (direction track); [| | done].
    + destruct (register_input_outcome env r owner track Hwf) as [_ Hs].
      destruct (register_input _ _ _ _ _). by apply Hs.
    + pose proof (register_output_outcome env next_ssrc r owner track Hwf) as Hs.
      destruct (register_output _ _ _ _ _ _) as [[r' n] effs]. destruct Hs as [_ Hs]. by apply Hs.
  - rewrite remove_peer_removed by done. simpl.
    by destruct (removed_spec env r id Hwf) as (_ & _ & _ & Hs & _).
Qed.

(** Truthful announcements: a client that applies every track binding it is
    sent knows, for each of its mids, exactly the publisher its slot is bound
    to; registering any track and removing any peer keep it so. *)
Theorem voice_announcements (env : Env Media) next_ssrc r owner track id v :
  wf nobody r -> closed r = false -> view_ok v r ->
  (let '(r', _, effects) := register_track env next_ssrc r owner track (Some owner) in
   view_ok (foldl hear_effect v effects) r')
  /\ (let '(r', effects) := remove_peer env r id in
      view_ok (foldl hear_effect (forget v id) effects) r' /\ peers r' !! id = None).
Proof.
  intros Hwf Hc Hv. split.
  - pose proof (register_track_outcome env next_ssrc r owner track Hwf) as Ho.
    destruct (register_track _ _ _ _ _ _) as [[r' n] effs]. destruct Ho as [_ _ Hview].
    by apply Hview.
  - rewrite remove_peer_removed by done. rewrite hear_publish.
    destruct (removed_spec env r id Hwf) as (_ & _ & Hgone & _ & Hview).
    split; [by apply Hview | done].
Qed.

(** ** The unimpaired path *)

Lemma peer_loop_NoDup r : NoDup (peer_loop r).
Proof. unfold peer_loop. rewrite iterate_perm. apply NoDup_fst_map_to_list. Qed.

Lemma targets_distinct r p :
  wf nobody r -> NoDup (target_rewriter <$> collect_targets_locked r p).
Proof.
  intros Hwf. unfold collect_targets_locked, slot_loop.
  set (pick := fun at_ : PeerId * nat => _).
  assert (forall at_ t, t ∈ pick at_ -> exists slot, slot_at r at_.1 at_.2 = Some slot
            /\ target_rewriter t = slot_rewriter slot) as Hpick.
  { intros [s i] t. unfold pick. simpl. destruct (slot_at r s i) as [slot |]; [| by intros ?%elem_of_nil].
    case_decide; [| by intros ?%elem_of_nil]. intros ->%list_elem_of_singleton. by exists slot. }
  assert (forall l, NoDup l -> NoDup (target_rewriter <$> (l ≫= pick))) as Hgen.
  { induction 1 as [| [s i] l Hnin _ IH]; [constructor |]. rewrite bind_cons, fmap_app.
    apply NoDup_app. split_and!; [| | done].
    - unfold pick. simpl. destruct (slot_at r s i); [| constructor].
      case_decide; [apply NoDup_singleton | constructor].
    - intros rw Hrw Hrest. apply list_elem_of_fmap in Hrw as (t & -> & Ht).
      apply list_elem_of_fmap in Hrest as (t' & Heq & Ht').
      apply list_elem_of_bind in Ht' as ([s' i'] & Ht' & Hin).
      destruct (Hpick _ _ Ht) as (a & Ha & Hra), (Hpick _ _ Ht') as (b & Hb & Hrb).
      simpl in Ha, Hb. apply Hnin. destruct (wf_unshared _ _ Hwf _ _ _ _ _ _ Ha Hb) as [-> ->]; [congruence | done]. }
  apply Hgen. generalize (peer_loop_NoDup r). generalize (peer_loop r).
  induction 1 as [| s l Hnin _ IH]; [constructor |]. rewrite bind_cons.
  apply NoDup_app. split_and!; [| | done].
  - apply NoDup_fmap_2; [by intros i j [= ->] | apply NoDup_seq].
  - intros x Hx Hrest. apply list_elem_of_fmap in Hx as (i & -> & _).
    apply list_elem_of_bind in Hrest as (s' & Hx & Hs').
    apply list_elem_of_fmap in Hx as (j & [= -> ->] & _). done.
Qed.

Lemma route_locked_unimpaired env now r p expected pkt source :
  closed r = false -> unimpaired (fault_config r) ->
  peers r !! p = Some source -> lock env (input source) = lock env expected ->
  exists r' tapped,
    route_locked env now r p expected pkt
    = Some (r', mkRouted (collect_targets_locked r' p) (input_mid_extension_id source) [pkt] tapped)
    /\ same_slots r r'
    /\ packets_in r' = if IsRtcp pkt then packets_in r else u64 (packets_in r + 1).
Proof.
  intros Hc (Hdrop & Hreorder & Hburst & Hlink & Hdown) Hp Hin.
  unfold route_locked. rewrite Hc, Hp. unfold is_source. rewrite bool_decide_true by done.
  cbn [negb]. set (r1 := if IsRtcp pkt then r else count_in r).
  assert (fault_config r1 = fault_config r /\ peers r1 = peers r /\ rewriters r1 = rewriters r
    /\ packets_in r1 = (if IsRtcp pkt then packets_in r else u64 (packets_in r + 1)))
    as (Ef & Ep & Eh & Ei) by (unfold r1; by destruct (IsRtcp pkt)).
  rewrite Ef, Hdown, andb_false_r. unfold apply_rtp_faults.
  rewrite Hdrop, Hreorder, Hburst, Ep, orb_true_r.
  unfold schedule_faulted. rewrite Hlink, orb_true_r.
  cbn [mbind option_bind immediate sched_link sched_queue sched_timer first second tapped app].
  set (r2 := with_delays _ _ _).
  exists r2, (if packet_tap (fault_config r) then [pkt] else []). split; [done |]. split; [| exact Ei].
  by apply (same_slots_update r r2 p (fun peer => with_source peer (input_fault_state source)
    (input_link_state source))).
Qed.

(** C14 Delivery: on an unimpaired router a packet of the current input of a
    publisher always gets through the router, and reaches exactly the live,
    open tracks of the slots bound to that publisher whose rewriter accepts it,
    each with its own rewritten copy. *)
Theorem voice_delivery env now r p expected pkt source :
  wf nobody r -> closed r = false -> unimpaired (fault_config r) ->
  peers r !! p = Some source -> lock env (input source) = lock env expected ->
  exists r' sent, route env now r p expected pkt = Some (r', sent)
    /\ (forall t out, (t, out) ∈ sent <-> exists s i slot,
          slot_at r s i = Some slot /\ slot_publisher slot = Some p
          /\ slot_track slot = Some t /\ alive env t = true /\ is_open env t = true
          /\ send_ok env t out = true
          /\ exists rw rw', cells (rewriters r) !! slot_rewriter slot = Some rw
             /\ rewrite IsRtcp rw pkt (slot_generation slot) (slot_ssrc slot)
                  (input_mid_extension_id source) = Some (rw', true, out))
    /\ packets_in r' = if IsRtcp pkt then packets_in r else u64 (packets_in r + 1).
Proof.
  intros Hwf Hc Hun Hp Hin. unfold route.
  destruct (route_locked_unimpaired env now r p expected pkt source Hc Hun Hp Hin)
    as (r1 & tapped & -> & Hsame & Hcount).
  cbn [mbind option_bind routed_targets routed_mid routed_packets].
  unfold send_packets, RouterCommon.send_packets.
  set (targets := collect_targets_locked r1 p). set (m := input_mid_extension_id source).
  assert (jobs_of targets m [pkt] = (fun t => mkJob t m pkt) <$> targets) as ->.
  { unfold jobs_of. rewrite bind_cons. apply app_nil_r. }
  pose proof (progress_wf _ _ _ (same_slots_progress _ _ Hwf Hsame)) as Hwf1. simpl in Hwf1.
  destruct (run_jobs_spec env ((fun t => mkJob t m pkt) <$> targets) (rewriters r1))
    as (h & sent & Hrun & _). rewrite Hrun. cbn [mbind option_bind].
  do 2 eexists. split; [done |]. split; [| exact Hcount]. intros t out.
  assert (NoDup (target_rewriter ∘ job_target <$> ((fun t => mkJob t m pkt) <$> targets))) as Hnd.
  { rewrite <- list_fmap_compose. apply (targets_distinct r1 p Hwf1). }
  rewrite (run_jobs_distinct _ _ _ _ _ Hnd Hrun). split.
  - intros (j & h1 & outs & Hj & Hone). apply list_elem_of_fmap in Hj as (tg & -> & Ht).
    apply collect_targets_spec in Ht as (s & i & slot & Hs & Hpub & ->).
    rewrite (same_slots_at _ _ _ _ Hsame) in Hs. exists s, i, slot.
    split; [done |]. split; [done |]. rewrite <- (proj1 Hsame).
    apply (send_one_sent env (rewriters r1) m pkt (mkTarget (slot_track slot) (slot_ssrc slot)
      (slot_rewriter slot) (slot_generation slot)) t out). eauto.
  - intros (s & i & slot & Hs & Hpub & Hsend). rewrite <- (proj1 Hsame) in Hsend.
    apply (send_one_sent env (rewriters r1) m pkt (mkTarget (slot_track slot) (slot_ssrc slot)
      (slot_rewriter slot) (slot_generation slot)) t out) in Hsend as (h1 & outs & Hone & Hx).
    eexists (mkJob _ m pkt), h1, outs. split; [| done]. apply list_elem_of_fmap.
    eexists. split; [done |]. apply collect_targets_spec. exists s, i, slot.
    by rewrite (same_slots_at _ _ _ _ Hsame).
Qed.

(** ** The delay timer *)

Definition delays_ok (r : Router) : Prop := queue_ok (executor r) (delay_queue r) (delay_timer r).

Lemma delays_ok_same r r' : delays r' = delays r -> delays_ok r -> delays_ok r'.
Proof. unfold delays, delays_ok. by intros [= _ -> -> ->]. Qed.

Lemma route_locked_delays env now r p expected pkt r' routed :
  route_locked env now r p expected pkt = Some (r', routed) -> delays_ok r -> delays_ok r'.
Proof.
  unfold route_locked. intros Hr Hok. destruct (closed r); [by injection Hr as <- _ |].
  destruct (peers r !! p) as [source |]; [| by injection Hr as <- _].
  destruct (negb (is_source _ _ _)); [by injection Hr as <- _ |].
  set (r1 := if IsRtcp pkt then r else count_in r) in *.
  assert (delays r1 = delays r) as Hr1 by (unfold r1; by destruct (IsRtcp pkt)).
  apply (delays_ok_same _ _ Hr1) in Hok.
  destruct (negb _ && _); [by injection Hr as <- _ |].
  destruct (apply_rtp_faults _ _ _ _) as [packets fault].
  apply bind_Some in Hr as (s1 & Hs1 & Hr). apply bind_Some in Hr as (s2 & Hs2 & Hr).
  injection Hr as <- _. apply schedule_faulted_queue in Hs1; [| exact Hok].
  by apply schedule_faulted_queue in Hs2.
Qed.

Lemma exec_delays r op r' new : exec r op = Some (r', new) -> delays_ok r -> delays_ok r'.
Proof.
  destruct op as [env next owner track | env now p expected pkt | now | env item | env id | env | cfg];
    simpl; intros He Hok.
  - pose proof (register_track_delays env next r owner track (Some owner)) as E.
    destruct (register_track _ _ _ _ _ _) as [[r1 n] effs]. injection He as <- _.
    by apply (delays_ok_same _ _ E).
  - apply bind_Some in He as ([r1 routed] & Hr & [= <- _]). by eapply route_locked_delays.
  - injection He as <- _. unfold take_due. destruct (closed r); [done |].
    destruct (pop_due now (delay_queue r)) as [due q] eqn:E. simpl.
    pose proof (pop_due_queue _ now _ _ Hok) as Hq. by rewrite E in Hq.
  - destruct (forward_locked env r item) as [r1 routed] eqn:Hr. injection He as <- _.
    unfold forward_locked in Hr. destruct (closed r); [by injection Hr as <- _ |].
    destruct (peers r !! _); [| by injection Hr as <- _].
    destruct (negb _); by injection Hr as <- _.
  - injection He as <- _. destruct (closed r) eqn:Hc; [unfold remove_peer; by rewrite Hc |].
    rewrite remove_peer_removed by done. unfold removed. simpl.
    pose proof (free_slots_delays (with_peers r (delete id (peers r))) id) as E1.
    destruct (free_slots _ id) as [r1 n1]. pose proof (assign_available_delays env r1) as E2.
    destruct (assign_available_locked env r1) as [r2 n2]. simpl in *.
    apply (delays_ok_same r r2); [| done]. by rewrite E2, E1.
  - injection He as <- _. unfold close. destruct (closed r); [done |].
    split; [constructor |]. simpl. by destruct (executor r).
  - by injection He as <- _.
Qed.

(** No packet is stranded in the delay queue: in every reachable state the
    queue is ordered by departure and the timer waits for its first packet (and
    no timer runs when it is empty); when it fires, exactly the packets due by
    then are handed out, in departure order, and the timer waits for the next
    one. *)
Theorem voice_timer config timer_executor actions m now :
  machine_run exec (fresh_machine config timer_executor) actions = Some m ->
  delays_ok (router m)
  /\ (closed (router m) = false ->
      let q := delay_queue (router m) in
      let '(r', due) := take_due now (router m) in
      due = (filter (fun x => x.1 <= now)%Z q).*2
      /\ delay_queue r' = filter (fun x => now < x.1)%Z q /\ delays_ok r').
Proof.
  intros Hrun.
  assert (delays_ok (router m)) as Hok.
  { eapply (machine_keeps exec delays_ok); [by intros; eapply exec_delays | done | | exact Hrun].
    split; [constructor |]. simpl. by destruct timer_executor. }
  split; [done |]. intros Hc. unfold take_due. rewrite Hc.
  pose proof (pop_due_queue _ now _ _ Hok) as Hq. rewrite pop_due_spec in * by apply Hok. done.
Qed.
End Properties.

(** ** Witnesses: "a" publishes, "b" listens *)

Definition sample_actions : list (action (Op := Op (Media := SampleMedia))) :=
  [Operate (RegisterTrack sample_env 1 "a"%string (Some (sample_track 0 RecvOnly "audio" "0")));
   Operate (RegisterTrack sample_env 1 "b"%string (Some (sample_track 1 SendOnly "audio" "1")));
   Operate (RoutePacket sample_tracks (0, 0)%Z "a"%string (Some 0) sample_packet)].

Definition sample_machine : Machine :=
  default (fresh_machine no_faults false)
    (machine_run exec (fresh_machine no_faults false) sample_actions).

Definition sample_slot_b : OutputSlot :=
  mkSlot "1" 1 (Some 1) (Some "a"%string) 0 1.

Lemma voice_invariant_witness : wf nobody (router sample_machine).
Proof.
  apply (voice_invariant no_faults false sample_actions). vm_compute. reflexivity.
Defined.


Lemma sample_machine_wf : wf nobody (router sample_machine).
Proof. apply (machine_wf no_faults false sample_actions). vm_compute. reflexivity. Qed.

(** When an unknown peer leaves, "b" still hears "a". *)
Lemma voice_served_witness :
  let r' := (remove_peer sample_env (router sample_machine) "c"%string).1 in
  hears r' "b"%string "a"%string \/ no_free_slot sample_tracks r' "b"%string.
Proof.
  destruct (voice_served sample_env 1 (router sample_machine) "a"%string
    (sample_track 0 RecvOnly "audio" "0") "c"%string) as [_ H].
  - apply sample_machine_wf.
  - vm_compute. reflexivity.
  - apply H; [eexists; vm_compute; reflexivity | done | vm_compute; reflexivity].
Defined.

(** "b" knows it hears "a", and is told when "a" leaves. *)
Lemma voice_announcements_witness :
  let v := told (router sample_machine) in
  let '(r', effects) := remove_peer sample_env (router sample_machine) "a"%string in
  v "b"%string "1"%string = Some "a"%string
  /\ foldl hear_effect (forget v "a"%string) effects "b"%string "1"%string = None
  /\ peers r' !! "a"%string = None.
Proof.
  destruct (voice_announcements sample_env 1 (router sample_machine) "a"%string None "a"%string
    (told (router sample_machine))) as [_ H].
  - apply sample_machine_wf.
  - vm_compute. reflexivity.
  - apply (told_ok nobody), sample_machine_wf.
  - destruct (remove_peer _ _ _) as [r' effects] eqn:E. destruct H as [[Hv _] Hgone].
    split; [vm_compute; reflexivity |]. split; [| exact Hgone].
    assert (slot_at r' "b"%string 0 = Some (bound_slot sample_slot_b None 0)) as Hs.
    { change r' with (fst (r', effects)). rewrite <- E. vm_compute. reflexivity. }
    exact (Hv _ _ _ Hs).
Defined.

Lemma voice_delivery_witness :
  exists r' sent, route sample_tracks (0, 0)%Z (router sample_machine) "a"%string (Some 0) sample_packet
                  = Some (r', sent)
    /\ packets_in r' = 2%Z.
Proof.
  edestruct (voice_delivery sample_tracks (0, 0)%Z (router sample_machine) "a"%string (Some 0)
    sample_packet) as (r' & sent & E & _ & Hin).
  - apply sample_machine_wf.
  - vm_compute. reflexivity.
  - vm_compute. by split_and!.
  - vm_compute. reflexivity.
  - vm_compute. reflexivity.
  - exists r', sent. split; [exact E |]. rewrite Hin. vm_compute. reflexivity.
Defined.

(** A slow link: the packet of 36 bytes waits. *)
Definition slow_faults : RtpFaultConfig :=
  {| drop_every_nth := 0; reorder_every_nth := 0; burst := no_loss; link := sample_link 1;
     link_down := false; packet_tap := false |}.

Definition waiting_machine : Machine :=
  default (fresh_machine slow_faults true)
    (machine_run exec (fresh_machine slow_faults true) sample_actions).

Lemma voice_timer_witness :
  delay_timer (router waiting_machine) = Some 272000%Z
  /\ delays_ok (router waiting_machine)
  /\ length (take_due 272000 (router waiting_machine)).2 = 1.
Proof.
  destruct (voice_timer slow_faults true sample_actions waiting_machine 272000) as [Hok Hdue].
  - vm_compute. reflexivity.
  - split; [vm_compute; reflexivity |]. split; [exact Hok |].
    specialize (Hdue ltac:(vm_compute; reflexivity)).
    destruct (take_due 272000 (router waiting_machine)) as [r' due]. destruct Hdue as [-> _].
    vm_compute. reflexivity.
Defined.
