(* ===== verification/ScreenRouter.v ===== *)
(** * The screen router (screen_router.cpp)

    A peer that streams publishes a video and an audio input; a subscriber owns
    pairs of output tracks and names the publishers it watches.  A pair carries
    both media of one watched, streaming publisher.  Operations as in
    [ScreenRouter::Impl]; the video and the audio half of a peer's inputs are
    two records of one type, picked by the media type as the code does.  [None]
    is undefined behaviour of the link model. *)

From S2P Require Import Prelude Text RtpRewrite RtpSlot SfuMedia Signaling RouterCommon SendLoops.

Local Open Scope string_scope.
Local Open Scope list_scope.

(** ** State *)

Record OutputTrack := mkOutput {
  out_mid : string;
  out_ssrc : Z;
  out_track : WeakTrack;
  ready : bool;
  out_rewriter : nat;
  out_generation : Z;
}.

Record OutputPair := mkPair {
  cname : string;
  video : option OutputTrack;
  audio : option OutputTrack;
  publisher : option PeerId;
}.

(** [input_video], [video_mid_extension_id], [video_fault_state] and
    [video_link_state], or the same of the audio input. *)
Record MediaInput := mkInput {
  input : WeakTrack;
  mid_extension : option Z;
  fault_state : RtpFaultState;
  link_state : LinkModelState;
}.

Record PeerState := mkPeer {
  order : Z;
  input_video : MediaInput;
  input_audio : MediaInput;
  outputs : list OutputPair;
  send_binding : BindingSender;
  streaming : bool;
  watched_publishers : gmap PeerId Z;
  next_watch_order : Z;
}.

Record DelayedPacket := mkDelayed {
  delayed_publisher : PeerId;
  delayed_kind : string;
  expected_input : WeakTrack;
  packet : bytes;
}.

Record BindingNotice := mkNotice {
  notice_send : BindingSender;
  notice_mid : string;
  notice_publisher : option PeerId;
  notice_output : WeakTrack;
  notice_ssrc : Z;
  notice_cname : string;
  notice_kind : string;
  notice_video : WeakTrack;
}.

Record Counters := mkCounters { packets_in : Z; packets_out : Z; bytes_out : Z }.

Record Router := mkRouter {
  peers : gmap PeerId PeerState;
  rewriters : Heap;
  fault_config : RtpFaultConfig;
  next_peer_order : Z;
  closed : bool;
  executor : bool;
  delay_timer : option Z;
  delay_queue : list (Z * DelayedPacket);
  video_counters : Counters;
  audio_counters : Counters;
  keyframe_requests : Z;
}.

Definition no_input : MediaInput := mkInput None None initial_fault initial_link.

Definition new_router (config : RtpFaultConfig) (timer_executor : bool) : Router :=
  mkRouter ∅ empty_heap config 0 false timer_executor None []
    (mkCounters 0 0 0) (mkCounters 0 0 0) 0.

Definition with_peers (r : Router) (ps : gmap PeerId PeerState) : Router :=
  mkRouter ps (rewriters r) (fault_config r) (next_peer_order r) (closed r) (executor r)
    (delay_timer r) (delay_queue r) (video_counters r) (audio_counters r) (keyframe_requests r).

Definition with_heap (r : Router) (h : Heap) : Router :=
  mkRouter (peers r) h (fault_config r) (next_peer_order r) (closed r) (executor r)
    (delay_timer r) (delay_queue r) (video_counters r) (audio_counters r) (keyframe_requests r).

Definition with_delays (r : Router) (timer : option Z) (q : list (Z * DelayedPacket)) : Router :=
  mkRouter (peers r) (rewriters r) (fault_config r) (next_peer_order r) (closed r) (executor r)
    timer q (video_counters r) (audio_counters r) (keyframe_requests r).

Definition with_counters (r : Router) (v a : Counters) (keyframes : Z) : Router :=
  mkRouter (peers r) (rewriters r) (fault_config r) (next_peer_order r) (closed r) (executor r)
    (delay_timer r) (delay_queue r) v a keyframes.

(** [media_type == "video"] chooses everywhere. *)
Definition is_video (kind : string) : bool := String.eqb kind "video".

Definition pick {A} (kind : string) (v a : A) : A := if is_video kind then v else a.

Definition source_of (kind : string) (peer : PeerState) : MediaInput :=
  pick kind (input_video peer) (input_audio peer).

Definition output_of (kind : string) (pr : OutputPair) : option OutputTrack :=
  pick kind (video pr) (audio pr).

Definition with_outputs (peer : PeerState) (os : list OutputPair) : PeerState :=
  mkPeer (order peer) (input_video peer) (input_audio peer) os (send_binding peer)
    (streaming peer) (watched_publishers peer) (next_watch_order peer).

Definition with_sender (peer : PeerState) (send : BindingSender) : PeerState :=
  mkPeer (order peer) (input_video peer) (input_audio peer) (outputs peer) send
    (streaming peer) (watched_publishers peer) (next_watch_order peer).

Definition with_streaming (peer : PeerState) (on : bool) : PeerState :=
  mkPeer (order peer) (input_video peer) (input_audio peer) (outputs peer) (send_binding peer)
    on (watched_publishers peer) (next_watch_order peer).

Definition with_watched (peer : PeerState) (ws : gmap PeerId Z) (next : Z) : PeerState :=
  mkPeer (order peer) (input_video peer) (input_audio peer) (outputs peer) (send_binding peer)
    (streaming peer) ws next.

Definition with_source (kind : string) (peer : PeerState) (source : MediaInput) : PeerState :=
  mkPeer (order peer) (pick kind source (input_video peer)) (pick kind (input_audio peer) source)
    (outputs peer) (send_binding peer) (streaming peer) (watched_publishers peer)
    (next_watch_order peer).

Definition with_output (kind : string) (pr : OutputPair) (out : option OutputTrack) : OutputPair :=
  mkPair (cname pr) (pick kind out (video pr)) (pick kind (audio pr) out) (publisher pr).

Definition with_publisher (pr : OutputPair) (p : option PeerId) : OutputPair :=
  mkPair (cname pr) (video pr) (audio pr) p.

Definition with_generation (out : OutputTrack) (g : Z) : OutputTrack :=
  mkOutput (out_mid out) (out_ssrc out) (out_track out) (ready out) (out_rewriter out) g.

Definition pair_at (r : Router) (s : PeerId) (i : nat) : option OutputPair :=
  peer ← peers r !! s; outputs peer !! i.

Definition set_pair (r : Router) (s : PeerId) (i : nat) (pr : OutputPair) : Router :=
  with_peers r (alter (fun peer => with_outputs peer (<[i := pr]> (outputs peer))) s (peers r)).

(** ** Peers and watches *)

Definition new_peer (order : Z) : PeerState :=
  mkPeer order no_input no_input [] None false ∅ 0.

Definition peer_for_locked (r : Router) (id : PeerId) : Router :=
  match peers r !! id with
  | Some _ => r
  | None =>
    mkRouter (<[id := new_peer (next_peer_order r)]> (peers r)) (rewriters r) (fault_config r)
      (u64 (next_peer_order r + 1)) (closed r) (executor r) (delay_timer r) (delay_queue r)
      (video_counters r) (audio_counters r) (keyframe_requests r)
  end.

Definition peer_before (r : Router) (lhs rhs : PeerId) : bool :=
  let left := from_option order 0%Z (peers r !! lhs) in
  let right := from_option order 0%Z (peers r !! rhs) in
  if Z.eqb left right then String.leb lhs rhs else (left <? right)%Z.

Definition peer_order (r : Router) : relation PeerId :=
  fun lhs rhs => peer_before r lhs rhs = true.

#[export] Instance peer_order_dec r : RelDecision (peer_order r).
Proof. intros lhs rhs. unfold peer_order. apply _. Defined.

Definition ordered_peers_locked (r : Router) : list PeerId :=
  merge_sort (peer_order r) ((map_to_list (peers r)).*1).

(** Watches in the order they were made; ties by the age of the peer, then by id. *)
Definition watch_before (r : Router) (ws : gmap PeerId Z) (lhs rhs : PeerId) : bool :=
  let left_watch := default 0%Z (ws !! lhs) in
  let right_watch := default 0%Z (ws !! rhs) in
  if negb (Z.eqb left_watch right_watch) then (left_watch <? right_watch)%Z
  else
    match peers r !! lhs, peers r !! rhs with
    | Some l, Some r =>
      if negb (Z.eqb (order l) (order r)) then (order l <? order r)%Z
      else String.leb lhs rhs
    | _, _ => String.leb lhs rhs
    end.

Definition watch_order (r : Router) (ws : gmap PeerId Z) : relation PeerId :=
  fun lhs rhs => watch_before r ws lhs rhs = true.

#[export] Instance watch_order_dec r ws : RelDecision (watch_order r ws).
Proof. intros lhs rhs. unfold watch_order. apply _. Defined.

Definition ordered_watches_locked (r : Router) (subscriber : PeerState) : list PeerId :=
  merge_sort (watch_order r (watched_publishers subscriber))
    ((map_to_list (watched_publishers subscriber)).*1).

Section Router.
Context `{Platform} `{IterationOrder} {Media : Type} `{MediaApi Media, !SlotMedia Media}.

Definition peer_loop (r : Router) : list PeerId := iterate ((map_to_list (peers r)).*1).

Definition pair_loop (r : Router) : list (PeerId * nat) :=
  s ← peer_loop r;
  (fun i => (s, i)) <$> seq 0 (length (from_option outputs [] (peers r !! s))).

(** ** Keyframes *)

Definition request_keyframe (env : Tracks) (r : Router) (publisher_video : WeakTrack) :
    Router * list (Effect Media) :=
  match lock env publisher_video with
  | None => (r, [])
  | Some t =>
    if negb (is_open env t) then (r, [])
    else if keyframe_ok env t then
      (with_counters r (video_counters r) (audio_counters r) (u64 (keyframe_requests r + 1)),
       [RequestKeyframe t])
    else (r, [RequestKeyframe t])
  end.

(** ** Notices *)

Definition notice_of (r : Router) (sub : PeerState) (pr : OutputPair) (p : option PeerId)
    (kind : string) : list BindingNotice :=
  match output_of kind pr with
  | Some out =>
    if ready out then
      [mkNotice (send_binding sub) (out_mid out) p (out_track out) (out_ssrc out) (cname pr) kind
         (p ≫= fun p => peers r !! p ≫= fun source => input (input_video source))]
    else []
  | None => []
  end.

Definition append_pair_notices (r : Router) (sub : PeerState) (pr : OutputPair)
    (p : option PeerId) (notices : list BindingNotice) : list BindingNotice :=
  notices ++ notice_of r sub pr p "video" ++ notice_of r sub pr p "audio".

(** [end_source] on one output of a pair. *)
Definition end_output (h : Heap) (out : option OutputTrack) : Heap * option OutputTrack :=
  match out with
  | None => (h, None)
  | Some out => (end_source_at h (out_rewriter out), Some (with_generation out 0))
  end.

(** [begin_source] on one output of a pair. *)
Definition begin_output (h : Heap) (out : option OutputTrack) : Heap * option OutputTrack :=
  match out with
  | None => (h, None)
  | Some out => let '(h, g) := begin_source_at h (out_rewriter out) in
                (h, Some (with_generation out g))
  end.

Definition clear_pair_locked (r : Router) (s : PeerId) (i : nat) (notices : list BindingNotice) :
    Router * list BindingNotice :=
  match peers r !! s, pair_at r s i with
  | Some sub, Some pr =>
    match publisher pr with
    | None => (r, notices)
    | Some _ =>
      let '(h, v) := end_output (rewriters r) (video pr) in
      let '(h, a) := end_output h (audio pr) in
      let pr := mkPair (cname pr) v a None in
      let r := set_pair (with_heap r h) s i pr in
      (r, append_pair_notices r sub pr None notices)
    end
  | _, _ => (r, notices)
  end.

(** A loop body: a pair bound to [p] is cleared. *)
Definition clear_bound (p : PeerId) (acc : Router * list BindingNotice) (at_ : PeerId * nat) :
    Router * list BindingNotice :=
  let '(r, notices) := acc in
  match pair_at r at_.1 at_.2 with
  | Some pr =>
    if decide (publisher pr = Some p) then clear_pair_locked r at_.1 at_.2 notices else acc
  | None => acc
  end.

(** ** Assignment *)

Definition bound_publishers (pairs : list OutputPair) : gset PeerId :=
  list_to_set (omap publisher pairs).

Definition usable (env : Tracks) (out : option OutputTrack) : bool :=
  match out with Some out => ready out && negb (expired env (out_track out)) | None => false end.

Definition is_free (env : Tracks) (pr : OutputPair) : bool :=
  match publisher pr with
  | Some _ => false
  | None => usable env (video pr) && usable env (audio pr)
  end.

Definition find_free (env : Tracks) (pairs : list OutputPair) : option (nat * OutputPair) :=
  list_find (fun pr => is_free env pr = true) pairs.

Definition skips (env : Tracks) (r : Router) (s p : PeerId) (assigned : gset PeerId) : bool :=
  match peers r !! p with
  | None => true
  | Some source =>
    String.eqb p s || negb (streaming source) || expired env (input (input_video source))
    || bool_decide (p ∈ assigned)
  end.

Definition bind_pair (r : Router) (s : PeerId) (i : nat) (pr : OutputPair) (p : PeerId) :
    Router * OutputPair :=
  let '(h, v) := begin_output (rewriters r) (video pr) in
  let '(h, a) := begin_output h (audio pr) in
  let pr := mkPair (cname pr) v a (Some p) in
  (set_pair (with_heap r h) s i pr, pr).

Fixpoint assign_publishers (env : Tracks) (s : PeerId) (publishers : list PeerId)
    (assigned : gset PeerId) (r : Router) (notices : list BindingNotice) :
    Router * list BindingNotice :=
  match publishers with
  | [] => (r, notices)
  | p :: publishers =>
    if skips env r s p assigned then assign_publishers env s publishers assigned r notices
    else
      match peers r !! s with
      | None => (r, notices)
      | Some sub =>
        match find_free env (outputs sub) with
        | None => (r, notices)
        | Some (i, pr) =>
          let '(r, pr) := bind_pair r s i pr p in
          assign_publishers env s publishers ({[p]} ∪ assigned) r
            (append_pair_notices r sub pr (Some p) notices)
        end
      end
  end.

Definition assign_subscriber (env : Tracks) (acc : Router * list BindingNotice) (s : PeerId) :
    Router * list BindingNotice :=
  let '(r, notices) := acc in
  match peers r !! s with
  | None => acc
  | Some sub =>
    if bool_decide (watched_publishers sub = ∅) then acc
    else assign_publishers env s (ordered_watches_locked r sub) (bound_publishers (outputs sub)) r
           notices
  end.

Definition assign_available_locked (env : Tracks) (r : Router) : Router * list BindingNotice :=
  foldl (assign_subscriber env) (r, []) (ordered_peers_locked r).

(** ** Publishing *)

Definition publish_one (env : Env Media) (r : Router) (notice : BindingNotice) :
    Router * list (Effect Media) :=
  let '(r, handled) :=
    match lock env (notice_output notice) with
    | None => (r, [])
    | Some output =>
      match notice_publisher notice with
      | Some _ =>
        let format := primary_rtp_format (description_of env output) (notice_kind notice) in
        let v := is_video (notice_kind notice) in
        let handler := SetMediaHandler output (Some (SrReporter
          {| reporter_ssrc := notice_ssrc notice; reporter_cname := notice_cname notice;
             reporter_payload_type := payload_type format;
             reporter_clock_rate := clock_rate format;
             reporter_pli := if v then Some (notice_video notice) else None |})) in
        let '(r, keyframe) :=
          if v then request_keyframe env r (notice_video notice) else (r, []) in
        (r, handler :: keyframe)
      | None => (r, [SetMediaHandler output None])
      end
    end in
  (r, handled ++ match notice_send notice with
                 | Some to => [SendBinding to (notice_mid notice) (notice_publisher notice)]
                 | None => []
                 end).

Fixpoint publish (env : Env Media) (r : Router) (notices : list BindingNotice) :
    Router * list (Effect Media) :=
  match notices with
  | [] => (r, [])
  | n :: notices =>
    let '(r, effects) := publish_one env r n in
    let '(r, more) := publish env r notices in
    (r, effects ++ more)
  end.

(** ** Registering tracks *)

(** A loop body: the pairs bound to [owner] restart the source of one medium. *)
Definition restart_pair (kind : string) (owner : PeerId) (acc : Router * list BindingNotice)
    (at_ : PeerId * nat) : Router * list BindingNotice :=
  let '(r, notices) := acc in
  let '(s, i) := at_ in
  match peers r !! s, pair_at r s i with
  | Some sub, Some pr =>
    if decide (publisher pr = Some owner) then
      let '(h, out) := begin_output (rewriters r) (output_of kind pr) in
      let pr := with_output kind pr out in
      let r := set_pair (with_heap r h) s i pr in
      (r, append_pair_notices r sub pr (Some owner) notices)
    else acc
  | _, _ => acc
  end.

Definition restart_sources (kind : string) (r : Router) (owner : PeerId) :
    Router * list BindingNotice :=
  foldl (restart_pair kind owner) (r, []) (pair_loop r).

Definition set_input (env : Tracks) (kind : string) (r : Router) (owner : PeerId) (track : TrackId)
    (mid_id : option Z) (send : BindingSender) : Router * bool :=
  let r := peer_for_locked r owner in
  let source_changed :=
    negb (bool_decide (lock env (peers r !! owner ≫= fun peer => input (source_of kind peer))
                       = Some track)) in
  (with_peers r (alter (fun peer =>
     let source := source_of kind peer in
     with_source kind (with_sender peer send)
       (mkInput (Some track) mid_id
          (if source_changed then initial_fault else fault_state source)
          (if source_changed then initial_link else link_state source))) owner (peers r)),
   source_changed).

Definition register_input (env : Env Media) (r : Router) (owner : PeerId) (track : Track Media)
    (send : BindingSender) : Router * list (Effect Media) :=
  let kind := media_type track in
  let d := apply_forwarding_feedback_policy (description track) in
  let d := if is_video kind then remove_auxiliary_video_codecs d else d in
  let id := track_id track in
  let effects := [SetDescription id d; SetMediaHandler id (Some ReceivingSession);
                  OnMessage id (Some (RouteFrom owner kind))]
                 ++ (if is_video kind then [OnOpenRequestKeyframe id] else []) in
  if closed r then (r, effects)
  else
    let '(r, source_changed) := set_input env kind r owner id (mid_extension_id d) send in
    let '(r, notices) := if source_changed then restart_sources kind r owner else (r, []) in
    let '(r, assigned) := assign_available_locked env r in
    let '(r, published) := publish env r (notices ++ assigned) in
    (r, effects ++ published).

Definition has_mid (kind m : string) (pr : OutputPair) : bool :=
  match output_of kind pr with Some out => String.eqb (out_mid out) m | None => false end.

Definition lacks (kind : string) (pr : OutputPair) : bool :=
  match output_of kind pr with Some _ => false | None => true end.

(** [output_by_mid]: the index of the pair that holds the output. *)
Definition output_by_mid (peer : PeerState) (m kind : string) : option nat :=
  fst <$> list_find (fun pr => has_mid kind m pr = true) (outputs peer).

(** [output_pair_for]: the index of the pair, appended if need be. *)
Definition output_pair_for (next_ssrc : Z) (peer : PeerState) (m kind : string) :
    nat * PeerState * Z :=
  match list_find (fun pr => has_mid kind m pr = true) (outputs peer) with
  | Some (i, _) => (i, peer, next_ssrc)
  | None =>
    match list_find (fun pr => lacks kind pr = true) (outputs peer) with
    | Some (i, _) => (i, peer, next_ssrc)
    | None =>
      let '(token, next_ssrc) := allocate_slot_ssrc next_ssrc in
      let name := ("driscord-screen-slot-" ++ of_chars (to_string token))%string in
      (length (outputs peer),
       with_outputs peer (outputs peer ++ [mkPair name None None None]), next_ssrc)
    end
  end.

(** The first critical section of [register_output]. *)
Definition place_output (next_ssrc : Z) (r : Router) (owner : PeerId) (kind m : string) (ssrc : Z)
    (track : TrackId) (send : BindingSender) : Router * Z * list BindingNotice * string :=
  let r := peer_for_locked r owner in
  let r := with_peers r (alter (fun peer => with_sender peer send) owner (peers r)) in
  match peers r !! owner with
  | None => (r, next_ssrc, [], "")
  | Some peer =>
    let '(i, peer, next_ssrc) := output_pair_for next_ssrc peer m kind in
    let r := with_peers r (<[owner := peer]> (peers r)) in
    let '(r, notices) := clear_pair_locked r owner i [] in
    match pair_at r owner i with
    | None => (r, next_ssrc, notices, "")
    | Some pr =>
      let '(rw, h) := make_rewriter (rewriters r) (pick kind 90000 48000)%Z (pick kind 3000 960)%Z in
      let out := mkOutput m ssrc (Some track) false rw 0 in
      (set_pair (with_heap r h) owner i (with_output kind pr (Some out)), next_ssrc, notices,
       cname pr)
    end
  end.

Definition mark_ready (out : OutputTrack) : OutputTrack :=
  mkOutput (out_mid out) (out_ssrc out) (out_track out) true (out_rewriter out) (out_generation out).

(** The output becomes ready, if it is still this track's. *)
Definition set_ready (env : Tracks) (r : Router) (owner : PeerId) (kind m : string)
    (track : TrackId) : Router :=
  match peers r !! owner with
  | None => r
  | Some peer =>
    match output_by_mid peer m kind with
    | None => r
    | Some i =>
      match pair_at r owner i with
      | None => r
      | Some pr =>
        match output_of kind pr with
        | Some out =>
          if bool_decide (lock env (out_track out) = Some track)
          then set_pair r owner i (with_output kind pr (Some (mark_ready out)))
          else r
        | None => r
        end
      end
    end
  end.

(** The second critical section of [register_output]. *)
Definition ready_output (env : Tracks) (r : Router) (owner : PeerId) (kind m : string)
    (track : TrackId) : Router * list BindingNotice :=
  if closed r then (r, [])
  else
    match peers r !! owner with
    | None => (r, [])
    | Some _ => assign_available_locked env (set_ready env r owner kind m track)
    end.

Definition register_output (env : Env Media) (next_ssrc : Z) (r : Router) (owner : PeerId)
    (track : Track Media) (send : BindingSender) : Router * Z * list (Effect Media) :=
  let kind := media_type track in
  let m := mid track in
  let id := track_id track in
  let '(ssrc, next_ssrc) := allocate_slot_ssrc next_ssrc in
  if closed r then (r, next_ssrc, [])
  else
    let '(r, next_ssrc, notices, name) := place_output next_ssrc r owner kind m ssrc id send in
    let d := apply_forwarding_feedback_policy (description track) in
    let d := if is_video kind then remove_auxiliary_video_codecs d else d in
    let d := addSSRC (clearSSRCs d) ssrc name "driscord-screen" (name ++ "-" ++ kind)%string in
    let effects := [SetDescription id d; OnMessage id (Some Discard)] in
    let '(r, assigned) := ready_output env r owner kind m id in
    let '(r, published) := publish env r (notices ++ assigned) in
    (r, next_ssrc, effects ++ published).

Definition register_track (env : Env Media) (next_ssrc : Z) (r : Router) (owner : PeerId)
    (track : option (Track Media)) (send : BindingSender) : Router * Z * list (Effect Media) :=
  match track with
  | None => (r, next_ssrc, [])
  | Some track =>
    if negb (String.eqb (media_type track) "audio") && negb (String.eqb (media_type track) "video")
    then (r, next_ssrc, [])
    else
      match direction track with
      | RecvOnly => let '(r, effects) := register_input env r owner track send in
                    (r, next_ssrc, effects)
      | SendOnly => register_output env next_ssrc r owner track send
      | OtherDirection => (r, next_ssrc, [])
      end
  end.

(** ** Routing *)

Definition collect_targets_locked (r : Router) (p : PeerId) (kind : string) : list Target :=
  at_ ← pair_loop r;
  match pair_at r at_.1 at_.2 with
  | Some pr =>
    if decide (publisher pr = Some p) then
      match output_of kind pr with
      | Some out =>
        if ready out
        then [mkTarget (out_track out) (out_ssrc out) (out_rewriter out) (out_generation out)]
        else []
      | None => []
      end
    else []
  | None => []
  end.

Definition count_out (kind : string) (r : Router) (sent : list (TrackId * bytes)) : Router :=
  let c := pick kind (video_counters r) (audio_counters r) in
  let c := mkCounters (packets_in c) (u64 (packets_out c + Z.of_nat (length sent)))
             (u64 (bytes_out c + bytes_sent sent)) in
  with_counters r (pick kind c (video_counters r)) (pick kind (audio_counters r) c)
    (keyframe_requests r).

Definition count_in (kind : string) (r : Router) : Router :=
  let c := pick kind (video_counters r) (audio_counters r) in
  let c := mkCounters (u64 (packets_in c + 1)) (packets_out c) (bytes_out c) in
  with_counters r (pick kind c (video_counters r)) (pick kind (audio_counters r) c)
    (keyframe_requests r).

Definition send_packets (env : Tracks) (r : Router) (kind : string) (targets : list Target)
    (mid_id : option Z) (outgoing : list bytes) : option (Router * list (TrackId * bytes)) :=
  '(h, sent) ← RouterCommon.send_packets env (rewriters r) targets mid_id outgoing;
  Some (count_out kind (with_heap r h) sent, sent).

(** The packet comes from the peer's current input, and the peer streams. *)
Definition is_source (env : Tracks) (kind : string) (peer : PeerState) (expected : WeakTrack) : bool :=
  bool_decide (lock env (input (source_of kind peer)) = lock env expected) && streaming peer.

Record Routed := mkRouted {
  routed_targets : list Target;
  routed_mid : option Z;
  routed_packets : list bytes;
  routed_tapped : list bytes;
}.

Definition nothing_routed : Routed := mkRouted [] None [] [].

Definition route_locked (env : Tracks) (now : Z * Z) (r : Router) (p : PeerId) (kind : string)
    (expected : WeakTrack) (pkt : bytes) : option (Router * Routed) :=
  if closed r then Some (r, nothing_routed)
  else
    match peers r !! p with
    | None => Some (r, nothing_routed)
    | Some peer =>
      if negb (is_source env kind peer expected) then Some (r, nothing_routed)
      else
        let source := source_of kind peer in
        let rtcp := IsRtcp pkt in
        let r := if rtcp then r else count_in kind r in
        if negb rtcp && link_down (fault_config r) then Some (r, nothing_routed)
        else
          let '(packets, fault) :=
            apply_rtp_faults IsRtcp (fault_config r) (fault_state source) pkt in
          let delay := mkDelayed p kind expected in
          let cfg := link (fault_config r) in
          let s := mkSchedule (link_state source) [] (delay_queue r) (delay_timer r) in
          s ← schedule_faulted cfg (executor r) rtcp delay now.1 (first packets) s;
          s ← schedule_faulted cfg (executor r) rtcp delay now.2 (second packets) s;
          let source' := mkInput (input source) (mid_extension source) fault (sched_link s) in
          let r := with_peers r (alter (fun peer => with_source kind peer source') p (peers r)) in
          let r := with_delays r (sched_timer s) (sched_queue s) in
          let targets :=
            match immediate s with [] => [] | _ => collect_targets_locked r p kind end in
          Some (r, mkRouted targets (mid_extension source) (immediate s) (tapped packets))
    end.

Definition route (env : Tracks) (now : Z * Z) (r : Router) (p : PeerId) (kind : string)
    (expected : WeakTrack) (pkt : bytes) : option (Router * list (TrackId * bytes)) :=
  '(r, routed) ← route_locked env now r p kind expected pkt;
  send_packets env r kind (routed_targets routed) (routed_mid routed) (routed_packets routed).

(** ** The delay queue *)

Definition take_due (now : Z) (r : Router) : Router * list DelayedPacket :=
  if closed r then (r, [])
  else
    let '(due, q) := pop_due now (delay_queue r) in
    (with_delays r (arm_delay_timer (executor r) q (delay_timer r)) q, due).

Definition dequeued (l : LinkModelState) : LinkModelState :=
  mkLink (link_initialized l) (link_rng l) (link_packets_seen l) (capacity_busy_until_us l)
    (last_departure_us l)
    (if (0 <? queued_packets l)%Z then queued_packets l - 1 else queued_packets l)%Z.

Definition forward_locked (env : Tracks) (r : Router) (item : DelayedPacket) : Router * Routed :=
  let kind := delayed_kind item in
  let p := delayed_publisher item in
  if closed r then (r, nothing_routed)
  else
    match peers r !! p with
    | None => (r, nothing_routed)
    | Some peer =>
      if negb (is_source env kind peer (expected_input item)) then (r, nothing_routed)
      else
        let source := source_of kind peer in
        let source' := mkInput (input source) (mid_extension source) (fault_state source)
                         (dequeued (link_state source)) in
        let r := with_peers r (alter (fun peer => with_source kind peer source') p (peers r)) in
        (r, mkRouted (collect_targets_locked r p kind) (mid_extension source) [packet item] [])
    end.

Definition forward_delayed (env : Tracks) (r : Router) (item : DelayedPacket) :
    option (Router * list (TrackId * bytes)) :=
  let '(r, routed) := forward_locked env r item in
  send_packets env r (delayed_kind item) (routed_targets routed) (routed_mid routed)
    (routed_packets routed).

Fixpoint forward_all (env : Tracks) (r : Router) (items : list DelayedPacket) :
    option (Router * list (TrackId * bytes)) :=
  match items with
  | [] => Some (r, [])
  | item :: items =>
    '(r, sent) ← forward_delayed env r item;
    '(r, more) ← forward_all env r items;
    Some (r, sent ++ more)
  end.

Definition flush_delayed (env : Tracks) (now : Z) (r : Router) :
    option (Router * list (TrackId * bytes)) :=
  let '(r, due) := take_due now r in forward_all env r due.

(** ** Streaming, watching, leaving *)

Definition set_streaming_locked (env : Tracks) (r : Router) (id : PeerId) (on : bool) :
    Router * list BindingNotice :=
  let r := peer_for_locked r id in
  if bool_decide (streaming <$> peers r !! id = Some on) then (r, [])
  else
    let r := with_peers r (alter (fun peer => with_streaming peer on) id (peers r)) in
    let '(r, notices) := if on then (r, []) else foldl (clear_bound id) (r, []) (pair_loop r) in
    let '(r, assigned) := assign_available_locked env r in
    (r, notices ++ assigned).

Definition set_streaming (env : Env Media) (r : Router) (id : PeerId) (on : bool) :
    Router * list (Effect Media) :=
  if closed r then (r, [])
  else let '(r, notices) := set_streaming_locked env r id on in publish env r notices.

(** The loop over the pairs of one subscriber. *)
Definition own_pairs (r : Router) (s : PeerId) : list (PeerId * nat) :=
  (fun i => (s, i)) <$> seq 0 (length (from_option outputs [] (peers r !! s))).

Definition set_watching_locked (env : Tracks) (r : Router) (id publisher_id : PeerId)
    (watching : bool) : Router * list BindingNotice :=
  let r := peer_for_locked r id in
  match peers r !! id with
  | None => (r, [])
  | Some peer =>
    let ws := watched_publishers peer in
    let next := next_watch_order peer in
    if Bool.eqb watching (bool_decide (is_Some (ws !! publisher_id))) then (r, [])
    else
      let peer := if watching then with_watched peer (<[publisher_id := next]> ws) (u64 (next + 1))
                  else with_watched peer (delete publisher_id ws) next in
      let r := with_peers r (<[id := peer]> (peers r)) in
      let '(r, notices) :=
        if watching then (r, []) else foldl (clear_bound publisher_id) (r, []) (own_pairs r id) in
      let '(r, assigned) := assign_available_locked env r in
      (r, notices ++ assigned)
  end.

Definition set_watching (env : Env Media) (r : Router) (id publisher_id : PeerId)
    (watching : bool) : Router * list (Effect Media) :=
  if String.eqb id publisher_id then (r, [])
  else if closed r then (r, [])
  else
    let '(r, notices) := set_watching_locked env r id publisher_id watching in
    publish env r notices.

(** In the code each subscriber forgets the watch and clears its pairs in one
    loop; the two touch different fields. *)
Definition remove_peer_locked (env : Tracks) (r : Router) (id : PeerId) :
    Router * list BindingNotice :=
  let r := with_peers r (delete id (peers r)) in
  let r := with_peers r ((fun sub => with_watched sub (delete id (watched_publishers sub))
                                       (next_watch_order sub)) <$> peers r) in
  let '(r, notices) := foldl (clear_bound id) (r, []) (pair_loop r) in
  let '(r, assigned) := assign_available_locked env r in
  (r, notices ++ assigned).

Definition remove_peer (env : Env Media) (r : Router) (id : PeerId) :
    Router * list (Effect Media) :=
  if closed r then (r, [])
  else let '(r, notices) := remove_peer_locked env r id in publish env r notices.

Record Stats := {
  streaming_publishers : nat;
  bound_slots : nat;
  free_slots : nat;
  stat_video : Counters;
  stat_audio : Counters;
  stat_keyframe_requests : Z;
}.

Definition is_bound (pr : OutputPair) : bool :=
  match publisher pr with Some _ => true | None => false end.

Definition stats (env : Tracks) (r : Router) : Stats :=
  let ps := (map_to_list (peers r)).*2 in
  let pairs := ps ≫= outputs in
  {| streaming_publishers :=
       length (filter (fun peer => streaming peer && negb (expired env (input (input_video peer))) = true) ps);
     bound_slots := length (filter (fun pr => is_bound pr = true) pairs);
     free_slots := length (filter (fun pr => is_bound pr = false) pairs);
     stat_video := video_counters r; stat_audio := audio_counters r;
     stat_keyframe_requests := keyframe_requests r |}.

Definition live_outputs (env : Tracks) (pr : OutputPair) : list TrackId :=
  omap (fun out => lock env (out_track out)) (option_list (video pr) ++ option_list (audio pr)).

Definition live_tracks (env : Tracks) (peer : PeerState) : list TrackId :=
  option_list (lock env (input (input_video peer))) ++ option_list (lock env (input (input_audio peer)))
  ++ (outputs peer ≫= live_outputs env).

Definition close (env : Tracks) (r : Router) : Router * list (Effect Media) :=
  if closed r then (r, [])
  else
    let ids := peer_loop r ≫= (fun s => from_option (live_tracks env) [] (peers r !! s)) in
    (mkRouter ∅ (rewriters r) (fault_config r) (next_peer_order r) true (executor r) None []
       (video_counters r) (audio_counters r) (keyframe_requests r),
     ids ≫= fun t => [OnMessage t None; SetMediaHandler t None]).

Definition update_fault_config (r : Router) (config : RtpFaultConfig) : Router :=
  mkRouter (peers r) (rewriters r) config (next_peer_order r) (closed r) (executor r)
    (delay_timer r) (delay_queue r) (video_counters r) (audio_counters r) (keyframe_requests r).
End Router.
