(* ===== verification/ScreenInvariant.v ===== *)
(** * Invariants of the screen router

    [wf] is what every operation of screen_router.cpp keeps true of the pairs;
    [exec] runs any operation, so that [wf] holds in every reachable state. *)

From S2P Require Import Prelude Text RtpRewrite RtpSlot SfuMedia Signaling RouterCommon SendLoops Delays.
From S2P Require Import ScreenRouter.

Local Open Scope list_scope.

(** ** Pairs and their channels *)

Definition channel (v : bool) (pr : OutputPair) : option OutputTrack :=
  if v then video pr else audio pr.

Lemma output_of_channel kind pr : output_of kind pr = channel (is_video kind) pr.
Proof. done. Qed.

Lemma pair_at_set r h s i pr s' i' :
  pair_at (set_pair (with_heap r h) s i pr) s' i'
  = if decide (s' = s /\ i' = i) then (fun _ => pr) <$> pair_at r s i else pair_at r s' i'.
Proof.
  unfold pair_at, set_pair. simpl. destruct (decide (s' = s)) as [-> | Hs].
  - rewrite lookup_alter_eq. destruct (peers r !! s) as [peer |]; simpl; [| by case_decide].
    destruct (decide (i' = i)) as [-> | Hi].
    + rewrite decide_True by done. destruct (outputs peer !! i) as [old |] eqn:E; simpl.
      * by eapply list_lookup_insert_eq, lookup_lt_Some.
      * apply lookup_ge_None. rewrite length_insert. by apply lookup_ge_None.
    + rewrite decide_False by naive_solver. by rewrite list_lookup_insert_ne.
  - rewrite lookup_alter_ne, decide_False by naive_solver. done.
Qed.

Lemma pair_at_peer r s i pr :
  pair_at r s i = Some pr -> exists sub, peers r !! s = Some sub /\ outputs sub !! i = Some pr.
Proof. unfold pair_at. intros H. by apply bind_Some in H. Qed.

(** A peer without its outputs. *)
Definition strip (peer : PeerState) : PeerState := with_outputs peer [].

Definition same_peers (r r' : Router) : Prop :=
  forall p, strip <$> peers r' !! p = strip <$> peers r !! p.

Lemma same_peers_lookup r r' p peer' :
  same_peers r r' -> peers r' !! p = Some peer' ->
  exists peer, peers r !! p = Some peer /\ strip peer' = strip peer.
Proof.
  intros Hs Hp. specialize (Hs p). rewrite Hp in Hs. simpl in Hs.
  destruct (peers r !! p) as [peer |]; [| done]. exists peer. split; [done | by apply (inj Some) in Hs].
Qed.

Lemma same_peers_sym r r' : same_peers r r' -> same_peers r' r.
Proof. intros Hs p. by rewrite Hs. Qed.

Lemma same_peers_is_Some r r' p :
  same_peers r r' -> is_Some (peers r' !! p) <-> is_Some (peers r !! p).
Proof. intros Hs. rewrite <- (fmap_is_Some strip), Hs. apply fmap_is_Some. Qed.

Lemma set_pair_same_peers r h s i pr : same_peers r (set_pair (with_heap r h) s i pr).
Proof.
  intros p. unfold set_pair. simpl. destruct (decide (s = p)) as [-> | Hne].
  - rewrite lookup_alter_eq. by destruct (peers r !! p).
  - by rewrite lookup_alter_ne.
Qed.

#[export] Instance screen_table : SlotTable Router := {
  table_heap := rewriters;
  set_table_heap := with_heap;
  owner_of r id o := exists s i pr v out,
    pair_at r s i = Some pr /\ channel v pr = Some out /\ out_rewriter out = id /\ publisher pr = o;
}.

#[export] Instance screen_table_laws : SlotTableLaws Router.
Proof. split; [done |]. intros r h id o. done. Qed.

(** [p] streams and [s] watches it. *)
Definition entitled (r : Router) (s p : PeerId) : Prop :=
  exists sub source, peers r !! s = Some sub /\ peers r !! p = Some source
    /\ streaming source = true /\ is_Some (watched_publishers sub !! p).

(** [gone s p]: the pairs of [s] bound to [p] are being cleared. *)
Record wf (gone : PeerId -> PeerId -> Prop) (r : Router) : Prop := {
  wf_cell s i pr v out :
    pair_at r s i = Some pr -> channel v pr = Some out ->
    is_Some (cells (rewriters r) !! out_rewriter out);
  wf_fresh id rw : cells (rewriters r) !! id = Some rw -> id < next_cell (rewriters r);
  wf_fit : generations_fit r;
  (** no rewriter is shared *)
  wf_unshared s i pr v a s' i' pr' v' b :
    pair_at r s i = Some pr -> channel v pr = Some a ->
    pair_at r s' i' = Some pr' -> channel v' pr' = Some b ->
    out_rewriter a = out_rewriter b -> s = s' /\ i = i' /\ v = v';
  (** a bound pair is complete and ready, at the current generations *)
  wf_bound s i pr p v :
    pair_at r s i = Some pr -> publisher pr = Some p ->
    exists out, channel v pr = Some out /\ ready out = true
      /\ generation_at (rewriters r) (out_rewriter out) = Some (out_generation out);
  (** nobody watches herself *)
  wf_self s i pr p : pair_at r s i = Some pr -> publisher pr = Some p -> p <> s;
  (** nobody is watched twice by one subscriber *)
  wf_once s i j a b p :
    pair_at r s i = Some a -> pair_at r s j = Some b ->
    publisher a = Some p -> publisher b = Some p -> i = j;
  (** a bound publisher streams and is watched *)
  wf_entitled s i pr p :
    pair_at r s i = Some pr -> publisher pr = Some p -> entitled r s p \/ gone s p;
  (** who has outputs is told of its bindings *)
  wf_sender s peer :
    peers r !! s = Some peer ->
    send_binding peer = Some s \/ (send_binding peer = None /\ outputs peer = []);
}.

Definition nobody (s p : PeerId) : Prop := False.

Lemma entitled_same r r' s p : same_peers r r' -> entitled r s p -> entitled r' s p.
Proof.
  intros Hs (sub & source & Hsub & Hsource & Hst & Hw). apply same_peers_sym in Hs.
  destruct (same_peers_lookup _ _ _ _ Hs Hsub) as (sub' & Hsub' & Esub).
  destruct (same_peers_lookup _ _ _ _ Hs Hsource) as (source' & Hsource' & Esource).
  exists sub', source'. split_and!; [done | done | |].
  - apply (f_equal streaming) in Esource. simpl in Esource. congruence.
  - apply (f_equal watched_publishers) in Esub. simpl in Esub. by rewrite <- Esub.
Qed.

Lemma set_pair_sender gone r h s i pr q peer :
  wf gone r -> peers (set_pair (with_heap r h) s i pr) !! q = Some peer ->
  send_binding peer = Some q \/ (send_binding peer = None /\ outputs peer = []).
Proof.
  intros Hwf. unfold set_pair. simpl. destruct (decide (s = q)) as [-> | Hne].
  - rewrite lookup_alter_eq. destruct (peers r !! q) as [old |] eqn:E; [| done].
    intros [= <-]. destruct (wf_sender _ _ Hwf _ _ E) as [| [? Ho]]; [by left | right].
    simpl. by rewrite Ho.
  - rewrite lookup_alter_ne by done. apply (wf_sender _ _ Hwf).
Qed.

(** ** What the clients were told *)

Definition view : Type := PeerId -> string -> option PeerId.

Definition tell (v : view) (to : PeerId) (m : string) (o : option PeerId) : view :=
  fun s m' => if decide (s = to /\ m' = m) then o else v s m'.

Definition hear (v : view) (n : BindingNotice) : view :=
  match notice_send n with Some to => tell v to (notice_mid n) (notice_publisher n) | None => v end.

Definition has_output (r : Router) (s : PeerId) (m : string) (i : nat) (pr : OutputPair) (v : bool)
    (out : OutputTrack) : Prop :=
  pair_at r s i = Some pr /\ channel v pr = Some out /\ out_mid out = m.

Definition mids_unique (r : Router) : Prop :=
  forall s m i pr v a j pr' v' b,
    has_output r s m i pr v a -> has_output r s m j pr' v' b -> i = j /\ v = v'.

Definition view_ok (f : view) (r : Router) : Prop :=
  (forall s m i pr v out, has_output r s m i pr v out -> f s m = publisher pr)
  /\ (forall s m, (forall i pr v out, ~ has_output r s m i pr v out) -> f s m = None).

(** The notices of a pair speak of this mid. *)
Definition names (c : option OutputTrack) (m : string) : bool :=
  match c with Some out => ready out && String.eqb (out_mid out) m | None => false end.

Definition told_of (pr : OutputPair) (m : string) : bool := names (video pr) m || names (audio pr) m.

Lemma told_of_true pr m :
  told_of pr m = true <-> exists v out, channel v pr = Some out /\ ready out = true /\ out_mid out = m.
Proof.
  assert (forall c, names c m = true
    <-> exists out, c = Some out /\ ready out = true /\ out_mid out = m) as Hn.
  { intros [out |]; simpl; [| naive_solver]. rewrite andb_true_iff, String.eqb_eq. naive_solver. }
  unfold told_of. rewrite orb_true_iff, !Hn. split.
  - intros [(out & H) | (out & H)]; [exists true | exists false]; by exists out.
  - intros ([|] & out & H); [left | right]; by exists out.
Qed.

Lemma hear_names f s o (c : option OutputTrack) (n : OutputTrack -> BindingNotice) s' m :
  (forall out, notice_send (n out) = Some s /\ notice_mid (n out) = out_mid out
     /\ notice_publisher (n out) = o) ->
  foldl hear f (match c with Some out => if ready out then [n out] else [] | None => [] end) s' m
  = if bool_decide (s' = s) && names c m then o else f s' m.
Proof.
  intros Hn. destruct c as [out |]; simpl; [| by rewrite andb_false_r].
  destruct (ready out); simpl; [| by rewrite andb_false_r].
  unfold hear, tell. destruct (Hn out) as (-> & -> & ->).
  destruct (String.eqb_spec (out_mid out) m) as [<- | Hne].
  - rewrite andb_true_r. case_decide as Hd; [rewrite bool_decide_true by apply Hd | rewrite bool_decide_false];
      naive_solver.
  - rewrite andb_false_r, decide_False; naive_solver.
Qed.

Lemma hear_pair r sub s pr o f s' m :
  send_binding sub = Some s ->
  foldl hear f (append_pair_notices r sub pr o []) s' m
  = if bool_decide (s' = s) && told_of pr m then o else f s' m.
Proof.
  intros Hsend. unfold append_pair_notices, notice_of, output_of, pick, is_video, told_of.
  rewrite app_nil_l, foldl_app. simpl.
  rewrite (hear_names _ s o (audio pr) (fun out => mkNotice _ (out_mid out) o (out_track out) (out_ssrc out) _ _ _))
    by done.
  rewrite (hear_names _ s o (video pr) (fun out => mkNotice _ (out_mid out) o (out_track out) (out_ssrc out) _ _ _))
    by done.
  destruct (bool_decide (s' = s)), (names (video pr) m), (names (audio pr) m); done.
Qed.

(** ** Updating one pair *)

(** The heap of a router after some rewriters of one pair were switched. *)
Record heap_step (h h' : Heap) (mine : nat -> Prop) : Prop := {
  step_next : next_cell h' = next_cell h;
  step_dom id : is_Some (cells h' !! id) <-> is_Some (cells h !! id);
  step_fit id g : generation_at h' id = Some g -> is_u 64 g;
  step_switches : (switches h <= switches h')%Z;
  step_other id : ~ mine id -> generation_at h' id = generation_at h id;
}.

Definition rewriter_of (pr : OutputPair) (id : nat) : Prop :=
  exists v out, channel v pr = Some out /\ out_rewriter out = id.

#[export] Instance rewriter_of_dec pr id : Decision (rewriter_of pr id).
Proof.
  refine (cast_if (decide (out_rewriter <$> video pr = Some id \/ out_rewriter <$> audio pr = Some id)));
    unfold rewriter_of; setoid_rewrite fmap_Some in o || setoid_rewrite fmap_Some in n.
  - destruct o as [(out & ? & ->) | (out & ? & ->)]; [exists true | exists false]; by exists out.
  - intros ([|] & out & ? & <-); apply n; [left | right]; by exists out.
Defined.

(** The rewriter was switched once. *)
Definition bumped (h h' : Heap) (id : nat) : Prop :=
  (switches h < switches h')%Z
  /\ exists g, generation_at h id = Some g /\ generation_at h' id = Some (u64 (g + 1)).

Record legal (gone : PeerId -> PeerId -> Prop) (r r' : Router) : Prop := {
  legal_wf : wf gone r';
  legal_evolves : evolves r r';
  legal_same : same_peers r r';
}.

Section Update.
Context (gone : PeerId -> PeerId -> Prop) (r : Router) (s : PeerId) (i : nat).
Context (pr pr' : OutputPair) (h' : Heap).
Hypotheses (Hwf : wf gone r) (Hpr : pair_at r s i = Some pr)
  (Hheap : heap_step (rewriters r) h' (rewriter_of pr))
  (Hswitched : forall v out, channel v pr = Some out ->
     publisher pr' = publisher pr
       /\ generation_at h' (out_rewriter out) = generation_at (rewriters r) (out_rewriter out)
     \/ bumped (rewriters r) h' (out_rewriter out))
  (Hchannels : forall v, (fun out => (out_mid out, out_rewriter out)) <$> channel v pr'
                       = (fun out => (out_mid out, out_rewriter out)) <$> channel v pr)
  (Hbound : forall p, publisher pr' = Some p ->
     (forall v, exists out, channel v pr' = Some out /\ ready out = true
        /\ generation_at h' (out_rewriter out) = Some (out_generation out))
     /\ p <> s /\ (entitled r s p \/ gone s p)
     /\ forall j b, pair_at r s j = Some b -> publisher b = Some p -> j = i).

Let r' : Router := set_pair (with_heap r h') s i pr'.

Lemma updated_at s' i' x :
  pair_at r' s' i' = Some x ->
  (s' = s /\ i' = i /\ x = pr') \/ (~ (s' = s /\ i' = i) /\ pair_at r s' i' = Some x).
Proof using Hpr.
  unfold r'. rewrite pair_at_set, Hpr. case_decide as Hd; [| by right].
  intros [= <-]. left. by destruct Hd.
Qed.

(** Its channel, before the update. *)
Lemma updated_channel s' i' x v out :
  pair_at r' s' i' = Some x -> channel v x = Some out ->
  exists y out0, pair_at r s' i' = Some y /\ channel v y = Some out0
    /\ out_mid out0 = out_mid out /\ out_rewriter out0 = out_rewriter out.
Proof using Hpr Hchannels.
  intros Hx Hc. destruct (updated_at _ _ _ Hx) as [(-> & -> & ->) | [_ Hx']].
  - specialize (Hchannels v). rewrite Hc in Hchannels. simpl in Hchannels.
    destruct (channel v pr) as [out0 |] eqn:E; [| done]. simpl in Hchannels.
    injection Hchannels as Em Er. by exists pr, out0.
  - by exists x, out.
Qed.

Lemma not_mine s' i' x v out :
  ~ (s' = s /\ i' = i) -> pair_at r s' i' = Some x -> channel v x = Some out ->
  generation_at h' (out_rewriter out) = generation_at (rewriters r) (out_rewriter out).
Proof using Hwf Hpr Hheap.
  intros Hne Hx Hc. apply (step_other _ _ _ Hheap). intros (v' & out' & Hc' & Heq).
  apply Hne. destruct (wf_unshared _ _ Hwf _ _ _ _ _ _ _ _ _ _ Hx Hc Hpr Hc') as (-> & -> & _); done.
Qed.

Lemma legal_update_wf : wf gone r'.
Proof using Type*.
  assert (same_peers r r') as Hsame by apply set_pair_same_peers.
  split.
  - intros s' i' x v out Hx Hc.
    destruct (updated_channel _ _ _ _ _ Hx Hc) as (y & out0 & Hy & Hc0 & _ & <-).
    apply (step_dom _ _ _ Hheap). by eapply (wf_cell _ _ Hwf).
  - intros id rw Hrw. simpl. rewrite (step_next _ _ _ Hheap).
    destruct (proj1 (step_dom _ _ _ Hheap id) (mk_is_Some _ _ Hrw)) as [rw0 H0].
    by eapply (wf_fresh _ _ Hwf).
  - intros id g. apply (step_fit _ _ _ Hheap).
  - intros s1 i1 x v a s2 i2 y w b Hx Ha Hy Hb Heq.
    destruct (updated_channel _ _ _ _ _ Hx Ha) as (x0 & a0 & Hx0 & Ha0 & _ & Ra).
    destruct (updated_channel _ _ _ _ _ Hy Hb) as (y0 & b0 & Hy0 & Hb0 & _ & Rb).
    eapply (wf_unshared _ _ Hwf _ _ _ _ _ _ _ _ _ _ Hx0 Ha0 Hy0 Hb0). congruence.
  - intros s1 i1 x p v Hx Hp. simpl.
    destruct (updated_at _ _ _ Hx) as [(-> & -> & ->) | [Hne Hx']]; [by destruct (Hbound _ Hp) |].
    destruct (wf_bound _ _ Hwf _ _ _ _ v Hx' Hp) as (out & Hc & Hr & Hg). exists out.
    by rewrite (not_mine _ _ _ _ _ Hne Hx' Hc).
  - intros s1 i1 x p Hx Hp.
    destruct (updated_at _ _ _ Hx) as [(-> & -> & ->) | [Hne Hx']]; [by destruct (Hbound _ Hp) as (_ & ? & _) |].
    by eapply (wf_self _ _ Hwf).
  - intros s1 i1 j a b p Ha Hb Hpa Hpb.
    destruct (updated_at _ _ _ Ha) as [(-> & -> & ->) | [Hna Ha']],
      (updated_at _ _ _ Hb) as [(? & -> & ->) | [Hnb Hb']]; [done | | |].
    + destruct (Hbound _ Hpa) as (_ & _ & _ & Honly). by rewrite (Honly _ _ Hb' Hpb).
    + subst s1. destruct (Hbound _ Hpb) as (_ & _ & _ & Honly). by rewrite (Honly _ _ Ha' Hpa).
    + by eapply (wf_once _ _ Hwf).
  - intros s1 i1 x p Hx Hp.
    assert (entitled r s1 p \/ gone s1 p) as [He | Hg]; [| left | by right].
    + destruct (updated_at _ _ _ Hx) as [(-> & -> & ->) | [Hne Hx']].
      * by destruct (Hbound _ Hp) as (_ & _ & ? & _).
      * by eapply (wf_entitled _ _ Hwf).
    + by apply (entitled_same r).
  - intros q peer. by apply (set_pair_sender gone).
Qed.

Lemma legal_update : legal gone r r'.
Proof using Type*.
  split; [apply legal_update_wf | | apply set_pair_same_peers].
  apply evolves_cases; [apply (wf_fit _ _ Hwf) | |].
  - unfold switched. simpl. pose proof (step_switches _ _ _ Hheap). lia.
  - intros id g Hg. simpl in *.
    destruct (decide (rewriter_of pr id)) as [(v & out & Hc & <-) | Hother].
    + destruct (Hswitched _ _ Hc) as [[Hpub Hsame] | [Hsw (g0 & Hg0 & Hg1)]].
      * left. rewrite Hsame. split; [done |].
        intros o (s1 & i1 & x & v1 & out1 & Hx & Hc1 & Hrw & Ho).
        destruct (updated_channel _ _ _ _ _ Hx Hc1) as (y & out0 & Hy & Hc0 & _ & Hr0).
        exists s1, i1, y, v1, out0. split_and!; [done | done | congruence |].
        destruct (updated_at _ _ _ Hx) as [(-> & -> & ->) | [_ Hx']]; congruence.
      * right. unfold switched. simpl. split; [lia |]. congruence.
    + left. rewrite (step_other _ _ _ Hheap) by done. split; [done |].
      intros o (s1 & i1 & x & v1 & out1 & Hx & Hc1 & Hrw & Ho).
      destruct (updated_channel _ _ _ _ _ Hx Hc1) as (y & out0 & Hy & Hc0 & _ & Hr0).
      exists s1, i1, y, v1, out0. split_and!; [done | done | congruence |].
      destruct (updated_at _ _ _ Hx) as [(-> & -> & ->) | [_ Hx']]; [| congruence].
      destruct Hother. rewrite Hpr in Hy. injection Hy as <-. exists v1, out0. split; [done | congruence].
Qed.

Lemma updated_output s' m i' x v out :
  has_output r' s' m i' x v out -> exists y out0, has_output r s' m i' y v out0.
Proof using Hpr Hchannels.
  intros (Hx & Hc & Hm). destruct (updated_channel _ _ _ _ _ Hx Hc) as (y & out0 & Hy & Hc0 & Hm0 & _).
  exists y, out0. unfold has_output. split_and!; [done | done | congruence].
Qed.

Lemma output_updated s' m i' x v out :
  has_output r s' m i' x v out -> exists y out0, has_output r' s' m i' y v out0.
Proof using Hpr Hchannels.
  intros (Hx & Hc & Hm). unfold has_output, r'. setoid_rewrite pair_at_set. rewrite Hpr.
  destruct (decide (s' = s /\ i' = i)) as [[-> ->] | Hne]; [| by exists x, out].
  rewrite Hpr in Hx. injection Hx as <-. specialize (Hchannels v). rewrite Hc in Hchannels.
  simpl in Hchannels. destruct (channel v pr') as [out0 |] eqn:E; [| done].
  injection Hchannels as Em _. exists pr', out0. split_and!; [done | done | congruence].
Qed.

Lemma update_mids : mids_unique r -> mids_unique r'.
Proof using Hpr Hchannels.
  intros Hu s' m i1 x v a j y w b Ha Hb.
  destruct (updated_output _ _ _ _ _ _ Ha) as (x0 & a0 & Ha0).
  destruct (updated_output _ _ _ _ _ _ Hb) as (y0 & b0 & Hb0). by eapply Hu.
Qed.

(** Telling about the pair what it is bound to now. *)
Lemma update_view sub f :
  peers r !! s = Some sub ->
  (forall v out, channel v pr' = Some out -> ready out = true \/ publisher pr' = publisher pr) ->
  mids_unique r -> view_ok f r ->
  view_ok (foldl hear f (append_pair_notices r' sub pr' (publisher pr') [])) r'.
Proof using Hwf Hpr Hchannels.
  intros Hsub Hready Hu [Hv Hn].
  assert (send_binding sub = Some s) as Hsend.
  { destruct (wf_sender _ _ Hwf _ _ Hsub) as [| [_ Ho]]; [done |].
    unfold pair_at in Hpr. rewrite Hsub in Hpr. simpl in Hpr. by rewrite Ho in Hpr. }
  split; intros s' m; setoid_rewrite (hear_pair _ _ _ _ _ _ _ _ Hsend).
  - intros i1 x v out Hx. destruct (updated_output _ _ _ _ _ _ Hx) as (y & out0 & Hy).
    destruct Hx as (Hx & Hc & Hm). destruct (updated_at _ _ _ Hx) as [(-> & -> & ->) | [Hne Hx']].
    + rewrite bool_decide_true by done. destruct (told_of pr' m) eqn:Et; [done |]. simpl.
      destruct (Hready _ _ Hc) as [Hr | ->].
      * assert (told_of pr' m = true) as Et' by (apply told_of_true; by exists v, out). congruence.
      * rewrite (Hv _ _ _ _ _ _ Hy). destruct Hy as [Hy _]. congruence.
    + destruct (bool_decide (s' = s) && told_of pr' m) eqn:Et.
      * exfalso. apply andb_true_iff in Et as [->%bool_decide_eq_true Et].
        apply told_of_true in Et as (w & b & Hb & _ & Hmb). apply Hne. split; [done |].
        assert (pair_at r' s i = Some pr') as Hat by (unfold r'; by rewrite pair_at_set, decide_True, Hpr).
        destruct (updated_output s m i pr' w b ltac:(done)) as (z & b0 & Hz).
        by destruct (Hu _ _ _ _ _ _ _ _ _ _ Hy Hz).
      * destruct (Hv s' m i1 x v out) as []; done.
  - intros Hnone. destruct (bool_decide (s' = s) && told_of pr' m) eqn:Et.
    + exfalso. apply andb_true_iff in Et as [->%bool_decide_eq_true Et].
      apply told_of_true in Et as (w & b & Hb & _ & Hmb). apply (Hnone i pr' w b).
      split; [| done]. unfold r'. by rewrite pair_at_set, decide_True, Hpr.
    + apply Hn. intros i1 x v out Hx. destruct (output_updated _ _ _ _ _ _ Hx) as (y & out0 & Hy).
      by apply (Hnone i1 y v out0).
Qed.
End Update.

(** ** Switching rewriters *)

Lemma heap_step_refl h mine :
  (forall id g, generation_at h id = Some g -> is_u 64 g) -> heap_step h h mine.
Proof. intros Hfit. by split. Qed.

Lemma heap_step_trans h1 h2 h3 (m1 m2 m3 : nat -> Prop) :
  heap_step h1 h2 m1 -> heap_step h2 h3 m2 -> (forall id, m1 id -> m3 id) ->
  (forall id, m2 id -> m3 id) -> heap_step h1 h3 m3.
Proof.
  intros [] [] H1 H2. split.
  - congruence.
  - intros id. by rewrite step_dom1, step_dom0.
  - done.
  - lia.
  - intros id Hid. rewrite step_other1, step_other0; naive_solver.
Qed.

Lemma end_source_step h id rw :
  (forall id g, generation_at h id = Some g -> is_u 64 g) -> cells h !! id = Some rw ->
  heap_step h (end_source_at h id) (eq id) /\ bumped h (end_source_at h id) id.
Proof.
  intros Hfit Hrw. rewrite (end_source_at_spec _ _ _ Hrw). unfold bumped, generation_at. simpl.
  rewrite lookup_insert_eq, Hrw. split; [| split; [lia |]; by exists (generation_ rw)].
  split; simpl; try lia.
  - intros id'. destruct (decide (id' = id)) as [-> |].
    + rewrite lookup_insert_eq, Hrw. split; by eexists.
    + by rewrite lookup_insert_ne.
  - intros id' g. unfold generation_at. simpl. destruct (decide (id' = id)) as [-> |].
    + rewrite lookup_insert_eq. simpl. intros [= <-]. apply wrap_range. lia.
    + rewrite lookup_insert_ne by done. apply Hfit.
  - intros id' Hne. unfold generation_at. simpl. by rewrite lookup_insert_ne by congruence.
Qed.

Lemma begin_source_end h id :
  begin_source_at h id
  = (end_source_at h id, default 0%Z (generation_at (end_source_at h id) id)).
Proof.
  unfold begin_source_at, end_source_at, generation_at.
  destruct (cells h !! id) as [rw |] eqn:E; simpl; [by rewrite lookup_insert_eq | by rewrite E].
Qed.

(** Both rewriters of a complete pair. *)
Lemma pair_switched gone r s i pr ov oa :
  wf gone r -> pair_at r s i = Some pr -> video pr = Some ov -> audio pr = Some oa ->
  let h1 := end_source_at (rewriters r) (out_rewriter ov) in
  let h2 := end_source_at h1 (out_rewriter oa) in
  heap_step (rewriters r) h2 (rewriter_of pr)
  /\ (forall v out, channel v pr = Some out -> bumped (rewriters r) h2 (out_rewriter out))
  /\ generation_at h2 (out_rewriter ov) = generation_at h1 (out_rewriter ov).
Proof.
  intros Hwf Hpr Hv Ha h1 h2.
  destruct (wf_cell _ _ Hwf _ _ _ true _ Hpr Hv) as [rwv Hrwv].
  destruct (wf_cell _ _ Hwf _ _ _ false _ Hpr Ha) as [rwa Hrwa].
  assert (out_rewriter ov <> out_rewriter oa) as Hne.
  { intros Heq. by destruct (wf_unshared _ _ Hwf _ _ _ true _ _ _ _ false _ Hpr Hv Hpr Ha Heq)
      as (_ & _ & ?). }
  destruct (end_source_step _ _ _ (wf_fit _ _ Hwf) Hrwv) as [S1 B1]. simpl in S1, B1. fold h1 in S1, B1.
  assert (cells h1 !! out_rewriter oa = Some rwa) as Hrwa1.
  { unfold h1. rewrite (end_source_at_spec _ _ _ Hrwv). simpl. by rewrite lookup_insert_ne. }
  destruct (end_source_step _ _ _ (step_fit _ _ _ S1) Hrwa1) as [S2 B2]. fold h2 in S2, B2.
  assert (generation_at h2 (out_rewriter ov) = generation_at h1 (out_rewriter ov)) as Hkeep.
  { apply (step_other _ _ _ S2). congruence. }
  split; [| split; [| done]].
  - eapply heap_step_trans; [exact S1 | exact S2 | |]; intros id <-.
    + by exists true, ov.
    + by exists false, oa.
  - destruct B1 as [L1 (g1 & G1 & G1')], B2 as [L2 (g2 & G2 & G2')].
    intros [|] out Hc; simpl in Hc; simplify_eq; (split; [lia |]).
    + exists g1. by rewrite Hkeep.
    + exists g2. split; [| done]. rewrite <- G2. symmetry. apply (step_other _ _ _ S1). congruence.
Qed.

(** ** Steps of the loops *)

Record advances (gone : PeerId -> PeerId -> Prop) (r0 : Router)
    (acc : Router * list BindingNotice) : Prop := {
  adv_legal : legal gone r0 acc.1;
  adv_mids : mids_unique r0 -> mids_unique acc.1;
  adv_view f : mids_unique r0 -> view_ok f r0 -> view_ok (foldl hear f acc.2) acc.1;
}.

Lemma screen_legal_refl gone r : wf gone r -> legal gone r r.
Proof. intros Hr. split; [done | apply evolves_refl, (wf_fit _ _ Hr) | done]. Qed.

Lemma screen_legal_trans gone r1 r2 r3 : legal gone r1 r2 -> legal gone r2 r3 -> legal gone r1 r3.
Proof.
  intros [H1 E1 P1] [H2 E2 P2]. split; [done | by eapply evolves_trans |].
  intros p. by rewrite P2.
Qed.

Lemma screen_advances_refl gone r : wf gone r -> advances gone r (r, []).
Proof. intros Hr. split; [by apply screen_legal_refl | done | done]. Qed.

Lemma screen_advances_app gone r0 r1 n1 r2 n2 :
  advances gone r0 (r1, n1) -> advances gone r1 (r2, n2) -> advances gone r0 (r2, n1 ++ n2).
Proof.
  intros [L1 M1 V1] [L2 M2 V2]. split; simpl in *; [by eapply screen_legal_trans | auto |].
  intros f Hm Hf. rewrite foldl_app. apply V2; auto.
Qed.

Lemma append_pair_notices_app r sub pr o n :
  append_pair_notices r sub pr o n = n ++ append_pair_notices r sub pr o [].
Proof. done. Qed.

Lemma advances_update gone r s i pr pr' h' sub :
  wf gone r -> pair_at r s i = Some pr -> peers r !! s = Some sub ->
  heap_step (rewriters r) h' (rewriter_of pr) ->
  (forall v out, channel v pr = Some out ->
     publisher pr' = publisher pr
       /\ generation_at h' (out_rewriter out) = generation_at (rewriters r) (out_rewriter out)
     \/ bumped (rewriters r) h' (out_rewriter out)) ->
  (forall v, (fun out => (out_mid out, out_rewriter out)) <$> channel v pr'
           = (fun out => (out_mid out, out_rewriter out)) <$> channel v pr) ->
  (forall p, publisher pr' = Some p ->
     (forall v, exists out, channel v pr' = Some out /\ ready out = true
        /\ generation_at h' (out_rewriter out) = Some (out_generation out))
     /\ p <> s /\ (entitled r s p \/ gone s p)
     /\ forall j b, pair_at r s j = Some b -> publisher b = Some p -> j = i) ->
  (forall v out, channel v pr' = Some out -> ready out = true \/ publisher pr' = publisher pr) ->
  let r' := set_pair (with_heap r h') s i pr' in
  advances gone r (r', append_pair_notices r' sub pr' (publisher pr') []).
Proof.
  intros Hwf Hpr Hsub Hheap Hsw Hch Hb Hready r'. split.
  - by apply (legal_update gone r s i pr pr' h').
  - by apply (update_mids r s i pr pr' h').
  - intros f. by apply (update_view gone r s i pr pr' h').
Qed.

Lemma clear_pair_advances gone r s i notices :
  wf gone r ->
  exists new, (clear_pair_locked r s i notices).2 = notices ++ new
    /\ advances gone r ((clear_pair_locked r s i notices).1, new)
    /\ forall pr, pair_at (clear_pair_locked r s i notices).1 s i = Some pr -> publisher pr = None.
Proof.
  intros Hwf. unfold clear_pair_locked.
  assert (forall acc : Router * list BindingNotice, acc = (r, notices) ->
    (forall pr, pair_at r s i = Some pr -> publisher pr = None) ->
    exists new, acc.2 = notices ++ new /\ advances gone r (acc.1, new)
      /\ forall pr, pair_at acc.1 s i = Some pr -> publisher pr = None) as Hskip.
  { intros acc -> Hnone. exists []. rewrite app_nil_r. split; [done |]. split; [by apply screen_advances_refl | done]. }
  destruct (peers r !! s) as [sub |] eqn:Hsub.
  2: { apply Hskip; [done |]. intros pr Hpr. destruct (pair_at_peer _ _ _ _ Hpr) as (x & Hx & _). congruence. }
  destruct (pair_at r s i) as [pr |] eqn:Hpr; [| apply Hskip; congruence].
  destruct (publisher pr) as [p |] eqn:Hp; [| apply Hskip; congruence].
  destruct (wf_bound _ _ Hwf _ _ _ _ true Hpr Hp) as (ov & Hv & Hrv & _).
  destruct (wf_bound _ _ Hwf _ _ _ _ false Hpr Hp) as (oa & Ha & Hra & _). simpl in Hv, Ha.
  destruct (pair_switched gone r s i pr ov oa Hwf Hpr Hv Ha) as (Hstep & Hbump & _).
  rewrite Hv, Ha. unfold end_output.
  set (pr' := mkPair (cname pr) (Some (with_generation ov 0)) (Some (with_generation oa 0)) None).
  rewrite append_pair_notices_app. eexists. split; [done |]. split.
  - apply (advances_update gone r s i pr pr'); try done.
    + intros v out Hc. right. by eapply Hbump.
    + intros [|]; simpl; by rewrite ?Hv, ?Ha.
    + intros [|] out; simpl; intros [= <-]; by left.
  - simpl. intros x. rewrite pair_at_set, decide_True, Hpr by done. by intros [= <-].
Qed.

Lemma bind_pair_advances gone r s i pr sub p ov oa :
  wf gone r -> pair_at r s i = Some pr -> peers r !! s = Some sub ->
  video pr = Some ov -> audio pr = Some oa -> ready ov = true -> ready oa = true ->
  p <> s -> entitled r s p \/ gone s p ->
  (forall j b, pair_at r s j = Some b -> publisher b = Some p -> j = i) ->
  let '(r', pr') := bind_pair r s i pr p in
  advances gone r (r', append_pair_notices r' sub pr' (Some p) [])
  /\ publisher pr' = Some p
  /\ forall s' j, pair_at r' s' j = if decide (s' = s /\ j = i) then Some pr' else pair_at r s' j.
Proof.
  intros Hwf Hpr Hsub Hv Ha Hrv Hra Hself Hent Honce. unfold bind_pair, begin_output.
  rewrite Hv, Ha, !begin_source_end. simpl.
  destruct (pair_switched gone r s i pr ov oa Hwf Hpr Hv Ha) as (Hstep & Hbump & Hkeep).
  set (h1 := end_source_at (rewriters r) (out_rewriter ov)) in *.
  set (h2 := end_source_at h1 (out_rewriter oa)) in *. simpl.
  set (pr' := mkPair _ _ _ _). split; [| split; [done |]].
  - apply (advances_update gone r s i pr pr' h2 sub); try done.
    + intros v out Hc. right. by eapply Hbump.
    + intros [|]; simpl; by rewrite ?Hv, ?Ha.
    + intros q [= <-]. split; [| done].
      destruct (Hbump true ov Hv) as [_ (gv & _ & Gv)], (Hbump false oa Ha) as [_ (ga & _ & Ga)].
      intros [|]; simpl; eexists; (split; [done |]); simpl; split; try done.
      * by rewrite <- Hkeep, Gv.
      * by rewrite Ga.
    + intros [|] out; simpl; intros [= <-]; by left.
  - intros s' j. rewrite pair_at_set, Hpr. done.
Qed.

(** Restarting the source of one medium of a bound pair. *)
Lemma restart_pair_advances gone kind owner r0 acc at_ :
  advances gone r0 acc -> advances gone r0 (restart_pair kind owner acc at_).
Proof.
  intros Hacc. destruct acc as [r n], at_ as [s i]. unfold restart_pair.
  destruct (peers r !! s) as [sub |] eqn:Hsub; [| done].
  destruct (pair_at r s i) as [pr |] eqn:Hpr; [| done].
  case_decide as Hp; [| done].
  pose proof (legal_wf _ _ _ (adv_legal _ _ _ Hacc)) as Hwf. simpl in Hwf.
  destruct (wf_bound _ _ Hwf _ _ _ _ (is_video kind) Hpr Hp) as (out & Hout & Hready & Hgen).
  rewrite output_of_channel, Hout. unfold begin_output. rewrite begin_source_end.
  destruct (wf_cell _ _ Hwf _ _ _ _ _ Hpr Hout) as [rw Hrw].
  destruct (end_source_step _ _ _ (wf_fit _ _ Hwf) Hrw) as [Hstep Hbump]. simpl in Hstep, Hbump.
  set (h' := end_source_at (rewriters r) (out_rewriter out)) in *.
  set (out' := with_generation out (default 0%Z (generation_at h' (out_rewriter out)))).
  set (pr' := with_output kind pr (Some out')).
  assert (forall v, channel v pr' = if Bool.eqb v (is_video kind) then Some out' else channel v pr) as Hch.
  { intros v. unfold pr', with_output, pick. destruct v, (is_video kind) eqn:E; done. }
  rewrite append_pair_notices_app. apply (screen_advances_app _ _ _ _ _ _ Hacc).
  assert (Hu := advances_update gone r s i pr pr' h' sub Hwf Hpr Hsub). simpl in Hu.
  change (Some owner) with (Some owner). rewrite <- Hp. apply Hu.
  - eapply heap_step_trans; [by apply heap_step_refl, (wf_fit _ _ Hwf) | exact Hstep | done |].
    intros id <-. by exists (is_video kind), out.
  - intros v o Ho. destruct (Bool.eqb_spec v (is_video kind)) as [-> | Hne].
    + right. rewrite Hout in Ho. by injection Ho as <-.
    + left. split; [done |]. apply (step_other _ _ _ Hstep). intros Heq.
      destruct (wf_unshared _ _ Hwf _ _ _ _ _ _ _ _ _ _ Hpr Hout Hpr Ho Heq) as (_ & _ & ?). congruence.
  - intros v. rewrite Hch. destruct (Bool.eqb_spec v (is_video kind)) as [-> |]; [| done].
    by rewrite Hout.
  - intros p Hpub. change (publisher pr = Some p) in Hpub. split_and!.
    + intros v. rewrite Hch. destruct (Bool.eqb_spec v (is_video kind)) as [-> | Hne].
      * exists out'. split; [done |]. split; [done |]. simpl.
        destruct Hbump as [_ (g & _ & ->)]. done.
      * destruct (wf_bound _ _ Hwf _ _ _ _ v Hpr Hp) as (o & Ho & Hr & Hg). exists o.
        split; [done |]. split; [done |]. rewrite <- Hg. apply (step_other _ _ _ Hstep). intros Heq.
        destruct (wf_unshared _ _ Hwf _ _ _ _ _ _ _ _ _ _ Hpr Hout Hpr Ho Heq) as (_ & _ & ?). congruence.
    + by apply (wf_self _ _ Hwf _ _ _ _ Hpr Hpub).
    + by apply (wf_entitled _ _ Hwf _ _ _ _ Hpr Hpub).
    + intros j b Hb Hpb. by apply (wf_once _ _ Hwf _ _ _ _ _ _ Hb Hpr Hpb).
  - intros v o _. by right.
Qed.

Lemma screen_restart_sources_advances `{IterationOrder} gone kind r owner :
  wf gone r -> advances gone r (restart_sources kind r owner).
Proof.
  intros Hwf. apply (foldl_inv (advances gone r)); [by apply screen_advances_refl |].
  intros acc at_. apply restart_pair_advances.
Qed.

(** ** Clearing loops *)

Section Loops.
Context `{Platform} `{IterationOrder} {Media : Type} `{MediaApi Media, !SlotMedia Media}.

Lemma screen_peer_loop_spec r s : s ∈ peer_loop r <-> is_Some (peers r !! s).
Proof.
  unfold peer_loop. rewrite iterate_perm, list_elem_of_fmap. split.
  - intros ([s' peer] & -> & Hin). apply elem_of_map_to_list in Hin. by exists peer.
  - intros [peer Hp]. exists (s, peer). split; [done |]. by apply elem_of_map_to_list.
Qed.

Lemma pair_loop_spec r s i pr : pair_at r s i = Some pr -> (s, i) ∈ pair_loop r.
Proof.
  intros Hs. destruct (pair_at_peer _ _ _ _ Hs) as (sub & Hsub & Hi).
  unfold pair_loop. apply list_elem_of_bind. exists s.
  split; [| by apply screen_peer_loop_spec]. rewrite Hsub. simpl. apply list_elem_of_fmap.
  exists i. split; [done |]. apply elem_of_seq. apply lookup_lt_Some in Hi. lia.
Qed.

Lemma own_pairs_spec r s i pr : pair_at r s i = Some pr -> (s, i) ∈ own_pairs r s.
Proof.
  intros Hs. destruct (pair_at_peer _ _ _ _ Hs) as (sub & Hsub & Hi).
  unfold own_pairs. rewrite Hsub. simpl. apply list_elem_of_fmap.
  exists i. split; [done |]. apply elem_of_seq. apply lookup_lt_Some in Hi. lia.
Qed.

Lemma clear_pair_elsewhere r s i notices s' i' :
  (s', i') <> (s, i) -> pair_at (clear_pair_locked r s i notices).1 s' i' = pair_at r s' i'.
Proof.
  intros Hne. unfold clear_pair_locked. destruct (peers r !! s); [| done].
  destruct (pair_at r s i) as [pr |]; [| done]. destruct (publisher pr); [| done].
  destruct (end_output _ _) as [h v]. destruct (end_output _ _) as [h2 a]. simpl.
  rewrite pair_at_set, decide_False; [done |]. intros [-> ->]. done.
Qed.

Lemma clear_bound_spec gone p r notices s i :
  wf gone r ->
  let acc := clear_bound p (r, notices) (s, i) in
  (exists new, acc.2 = notices ++ new /\ advances gone r (acc.1, new))
  /\ (forall s' i', (s', i') <> (s, i) -> pair_at acc.1 s' i' = pair_at r s' i')
  /\ forall pr, pair_at acc.1 s i = Some pr -> publisher pr <> Some p.
Proof.
  intros Hwf. unfold clear_bound. simpl.
  assert (exists new, notices = notices ++ new /\ advances gone r (r, new)) as Hstay.
  { exists []. rewrite app_nil_r. split; [done | by apply screen_advances_refl]. }
  destruct (pair_at r s i) as [pr |] eqn:Hpr; [| split_and!; [done | done | simpl; congruence]].
  case_decide as Hp; [| split_and!; [done | done | simpl; congruence]].
  destruct (clear_pair_advances gone r s i notices Hwf) as (new & Hnew & Hadv & Hnone).
  split_and!; [by exists new | by intros; apply clear_pair_elsewhere |].
  intros x Hx. by rewrite (Hnone _ Hx).
Qed.

(** Clearing over a list of places: no pair there stays bound to [p], and the
    others are left alone. *)
Lemma clear_loop gone p places : forall r notices,
  wf gone r ->
  let acc := foldl (clear_bound p) (r, notices) places in
  (exists new, acc.2 = notices ++ new /\ advances gone r (acc.1, new))
  /\ forall s i pr, pair_at acc.1 s i = Some pr -> publisher pr = Some p ->
       (s, i) ∉ places /\ pair_at r s i = Some pr.
Proof.
  induction places as [| [s i] places IH]; intros r notices Hwf; cbn [foldl].
  { split; [exists []; rewrite app_nil_r; by split; [| apply screen_advances_refl] |].
    intros s i pr Hpr _. split; [by intros ?%elem_of_nil | done]. }
  destruct (clear_bound_spec gone p r notices s i Hwf) as ((new & Hnew & Hadv) & Helse & Hnone).
  destruct (clear_bound p (r, notices) (s, i)) as [r1 n1]. simpl in *. subst n1.
  destruct (IH r1 (notices ++ new) (legal_wf _ _ _ (adv_legal _ _ _ Hadv)))
    as [(new2 & -> & Hadv2) Hrest].
  split.
  - exists (new ++ new2). rewrite app_assoc. split; [done |]. by apply (screen_advances_app _ _ _ _ _ _ Hadv).
  - intros s' i' x Hx Hpx. destruct (Hrest _ _ _ Hx Hpx) as [Hin Hx1].
    assert ((s', i') <> (s, i)) as Hne.
    { intros [= -> ->]. by apply (Hnone _ Hx1). }
    split; [| by rewrite <- Helse]. intros [|]%elem_of_cons; done.
Qed.

(** The exceptions of the invariant that the loop removed. *)
Lemma wf_cleared (gone gone' : PeerId -> PeerId -> Prop) r :
  wf gone r ->
  (forall s i pr p, pair_at r s i = Some pr -> publisher pr = Some p -> gone s p -> gone' s p) ->
  wf gone' r.
Proof.
  intros [] Hg. split; try done. intros s i pr p Hpr Hp.
  destruct (wf_entitled0 _ _ _ _ Hpr Hp); [by left | right]. eauto.
Qed.

(** ** Assignment *)

Definition hears (r : Router) (s p : PeerId) : Prop :=
  exists i pr, pair_at r s i = Some pr /\ publisher pr = Some p.

Definition no_free_pair (env : Tracks) (r : Router) (s : PeerId) : Prop :=
  forall i pr, pair_at r s i = Some pr -> is_free env pr = false.

(** [s] watches [p], who streams with a live video input. *)
Definition watchable (env : Tracks) (r : Router) (s p : PeerId) : Prop :=
  p <> s /\ exists sub source, peers r !! s = Some sub /\ peers r !! p = Some source
    /\ streaming source = true /\ is_Some (watched_publishers sub !! p)
    /\ expired env (input (input_video source)) = false.

Definition served (env : Tracks) (r : Router) (s : PeerId) : Prop :=
  forall p, watchable env r s p -> hears r s p \/ no_free_pair env r s.

Lemma watchable_same env r r' s p : same_peers r r' -> watchable env r' s p -> watchable env r s p.
Proof.
  intros Hs (Hne & sub & source & Hsub & Hsource & Hst & Hw & Hx).
  destruct (same_peers_lookup _ _ _ _ Hs Hsub) as (sub' & Hsub' & Esub).
  destruct (same_peers_lookup _ _ _ _ Hs Hsource) as (source' & Hsource' & Esource).
  split; [done |]. exists sub', source'. split_and!; [done | done | | |].
  - apply (f_equal streaming) in Esource. simpl in Esource. congruence.
  - apply (f_equal watched_publishers) in Esub. simpl in Esub. by rewrite <- Esub.
  - apply (f_equal input_video) in Esource. simpl in Esource. by rewrite <- Esource.
Qed.

(** What assigning pairs of [s] does. *)
Record assigns (env : Tracks) (s : PeerId) (publishers : list PeerId) (r r' : Router) : Prop := {
  assigns_others s' i : s' <> s -> pair_at r' s' i = pair_at r s' i;
  assigns_taken i pr :
    pair_at r s i = Some pr -> is_free env pr = false -> pair_at r' s i = Some pr;
  assigns_all p :
    p ∈ publishers -> watchable env r s p -> hears r' s p \/ no_free_pair env r' s;
}.

Lemma screen_find_free_Some env pairs i pr :
  find_free env pairs = Some (i, pr) ->
  pairs !! i = Some pr /\ publisher pr = None
  /\ exists ov oa, video pr = Some ov /\ audio pr = Some oa /\ ready ov = true /\ ready oa = true
     /\ is_free env pr = true.
Proof.
  unfold find_free. rewrite list_find_Some. intros (Hi & Hf & _). split; [done |].
  pose proof Hf as Hf'. unfold is_free, usable in Hf.
  destruct (publisher pr); [done |]. split; [done |].
  destruct (video pr) as [ov |], (audio pr) as [oa |]; try done; [| by rewrite andb_false_r in Hf].
  repeat (apply andb_true_iff in Hf as [Hf ?]).
  match goal with H : _ && _ = true |- _ => apply andb_true_iff in H as [? ?] end.
  by exists ov, oa.
Qed.

Lemma screen_find_free_None env r s sub :
  peers r !! s = Some sub -> find_free env (outputs sub) = None -> no_free_pair env r s.
Proof.
  unfold find_free, no_free_pair, pair_at. rewrite list_find_None. intros -> Hf i pr Hi.
  simpl in Hi. apply (Forall_lookup_1 _ _ _ _ Hf) in Hi. by destruct (is_free env pr).
Qed.

(** The tests of the loop, read back. *)
Lemma skips_false env r s p assigned :
  skips env r s p assigned = false ->
  p <> s /\ p ∉ assigned
  /\ exists source, peers r !! p = Some source /\ streaming source = true.
Proof.
  unfold skips. destruct (peers r !! p) as [source |]; [| done].
  rewrite !orb_false_iff, negb_false_iff, String.eqb_neq, bool_decide_eq_false.
  intros (((Hne & Hst) & _) & Ha). split; [done |]. split; [done |]. by exists source.
Qed.

Lemma skips_true env r s p assigned :
  skips env r s p assigned = true -> watchable env r s p -> p ∈ assigned.
Proof.
  unfold skips. intros Hs (Hne & sub & source & _ & Hp & Hst & _ & Hx). rewrite Hp, Hst, Hx in Hs.
  apply String.eqb_neq in Hne. rewrite Hne in Hs. simpl in Hs. by apply bool_decide_eq_true in Hs.
Qed.

Lemma screen_assign_publishers_spec gone env s publishers : forall assigned r notices,
  wf gone r ->
  (exists sub, peers r !! s = Some sub /\ forall p, p ∈ publishers -> is_Some (watched_publishers sub !! p)) ->
  (forall p, p ∈ assigned <-> hears r s p) ->
  let acc := assign_publishers env s publishers assigned r notices in
  (exists new, acc.2 = notices ++ new /\ advances gone r (acc.1, new))
  /\ assigns env s publishers r acc.1.
Proof.
  induction publishers as [| p publishers IH]; intros assigned r notices Hwf (sub & Hsub & Hw) Hassigned;
    cbn [assign_publishers].
  { split; [exists []; by rewrite app_nil_r; split; [| apply screen_advances_refl] |].
    split; try done. intros p Hp. by apply elem_of_nil in Hp. }
  destruct (skips env r s p assigned) eqn:Hskip.
  - destruct (IH assigned r notices Hwf) as [Hadv [Ho Ht Ha]]; [| done |].
    { exists sub. split; [done |]. intros q Hq. apply Hw. by right. }
    split; [done |]. split; try done. intros q [-> | Hq]%elem_of_cons Hwa; [| by apply Ha].
    apply (skips_true _ _ _ _ _ Hskip), Hassigned in Hwa as (i & pr & Hi & Hpi).
    left. exists i, pr. split; [| done]. apply Ht; [done |]. unfold is_free. by rewrite Hpi.
  - destruct (skips_false _ _ _ _ _ Hskip) as (Hps & Hpa & source & Hsource & Hst). rewrite Hsub.
    destruct (find_free env (outputs sub)) as [[i pr] |] eqn:Hfree.
    2: { split; [exists []; by rewrite app_nil_r; split; [| apply screen_advances_refl] |].
         split; try done. intros q _ _. right. by eapply screen_find_free_None. }
    destruct (screen_find_free_Some _ _ _ _ Hfree) as (Hi & Hnone & ov & oa & Hv & Ha & Hrv & Hra & Hisfree).
    assert (pair_at r s i = Some pr) as Hpr by (unfold pair_at; by rewrite Hsub).
    assert (entitled r s p) as Hent by (exists sub, source; split_and!; try done; apply Hw; by left).
    assert (forall j b, pair_at r s j = Some b -> publisher b = Some p -> j = i) as Honce.
    { intros j b Hb Hpb. destruct Hpa. apply Hassigned. by exists j, b. }
    pose proof (bind_pair_advances gone r s i pr sub p ov oa Hwf Hpr Hsub Hv Ha Hrv Hra Hps
      (or_introl Hent) Honce) as Hbind.
    destruct (bind_pair r s i pr p) as [r1 pr1]. destruct Hbind as (Hadv1 & Hp1 & Hat).
    rewrite append_pair_notices_app.
    pose proof (legal_same _ _ _ (adv_legal _ _ _ Hadv1)) as Hsame. simpl in Hsame.
    destruct (IH ({[p]} ∪ assigned) r1 (notices ++ append_pair_notices r1 sub pr1 (Some p) []))
      as [(new & Hnew & Hadv) [Ho Ht Hall]].
    + apply (legal_wf _ _ _ (adv_legal _ _ _ Hadv1)).
    + destruct (same_peers_lookup _ _ _ _ (same_peers_sym _ _ Hsame) Hsub) as (sub1 & Hsub1 & E).
      exists sub1. split; [done |]. intros q Hq. apply (f_equal watched_publishers) in E. simpl in E.
      rewrite <- E. apply Hw. by right.
    + intros q. rewrite elem_of_union, elem_of_singleton, Hassigned. unfold hears. split.
      * intros [-> | (j & b & Hb & Hqb)]; [exists i, pr1; by rewrite Hat, decide_True |].
        exists j, b. rewrite Hat, decide_False; [done |]. intros [_ ->]. congruence.
      * intros (j & b & Hb & Hqb). rewrite Hat in Hb. case_decide; [left; congruence |].
        right. by exists j, b.
    + split.
      * eexists. rewrite Hnew, <- app_assoc. split; [done |].
        by apply (screen_advances_app _ _ _ _ _ _ Hadv1 Hadv).
      * split.
        -- intros s' j Hne. rewrite Ho, Hat, decide_False; naive_solver.
        -- intros j b Hb Hfb. apply Ht; [| done]. rewrite Hat, decide_False; [done |].
           intros [_ ->]. congruence.
        -- intros q Hq Hwa. apply elem_of_cons in Hq as [-> | Hq].
           ++ left. exists i, pr1. split; [| done]. apply Ht; [by rewrite Hat, decide_True |].
              unfold is_free. by rewrite Hp1.
           ++ apply Hall; [done |]. eapply watchable_same; [| exact Hwa]. by apply same_peers_sym.
Qed.

Lemma screen_ordered_peers_spec r s : s ∈ ordered_peers_locked r <-> is_Some (peers r !! s).
Proof.
  unfold ordered_peers_locked. rewrite merge_sort_Permutation, list_elem_of_fmap. split.
  - intros ([s' peer] & -> & Hin). apply elem_of_map_to_list in Hin. by exists peer.
  - intros [peer Hp]. exists (s, peer). split; [done |]. by apply elem_of_map_to_list.
Qed.

Lemma ordered_watches_spec r sub p :
  p ∈ ordered_watches_locked r sub <-> is_Some (watched_publishers sub !! p).
Proof.
  unfold ordered_watches_locked. rewrite merge_sort_Permutation, list_elem_of_fmap. split.
  - intros ([p' n] & -> & Hin). apply elem_of_map_to_list in Hin. by exists n.
  - intros [n Hp]. exists (p, n). split; [done |]. by apply elem_of_map_to_list.
Qed.

Lemma screen_bound_publishers_spec r s sub p :
  peers r !! s = Some sub -> p ∈ bound_publishers (outputs sub) <-> hears r s p.
Proof.
  intros Hsub. unfold bound_publishers, hears, pair_at.
  rewrite elem_of_list_to_set, list_elem_of_omap, Hsub. simpl. split.
  - intros (pr & Hin & Hp). apply list_elem_of_lookup in Hin as [i Hi]. by exists i, pr.
  - intros (i & pr & Hi & Hp). exists pr. split; [| done]. by eapply list_elem_of_lookup_2.
Qed.

Lemma assign_subscriber_spec gone env r notices s :
  wf gone r ->
  let acc := assign_subscriber env (r, notices) s in
  (exists new, acc.2 = notices ++ new /\ advances gone r (acc.1, new))
  /\ (forall s' i, s' <> s -> pair_at acc.1 s' i = pair_at r s' i)
  /\ (forall i pr, pair_at r s i = Some pr -> is_free env pr = false -> pair_at acc.1 s i = Some pr)
  /\ served env acc.1 s.
Proof.
  intros Hwf. unfold assign_subscriber.
  assert (exists new, notices = notices ++ new /\ advances gone r (r, new)) as Hstay.
  { exists []. rewrite app_nil_r. split; [done | by apply screen_advances_refl]. }
  destruct (peers r !! s) as [sub |] eqn:Hsub.
  2: { split_and!; try done. intros p (_ & sub & source & Hs & _). simpl in Hs. congruence. }
  case_bool_decide as Hempty.
  { split_and!; try done. intros p (_ & sub' & source & Hs & _ & _ & Hw & _). simpl in Hs.
    rewrite Hsub in Hs. injection Hs as <-. rewrite Hempty, lookup_empty in Hw. by destruct Hw. }
  destruct (screen_assign_publishers_spec gone env s (ordered_watches_locked r sub) (bound_publishers (outputs sub))
    r notices Hwf) as [Hadv [Ho Ht Ha]].
  - exists sub. split; [done |]. intros p. by rewrite ordered_watches_spec.
  - intros p. by apply screen_bound_publishers_spec.
  - split_and!; try done. intros p Hwa.
    destruct Hadv as (new & Hnew & Hadv). pose proof (legal_same _ _ _ (adv_legal _ _ _ Hadv)) as Hsame.
    pose proof (watchable_same _ _ _ _ _ Hsame Hwa) as Hwa0. apply Ha; [| done].
    apply ordered_watches_spec. destruct Hwa0 as (_ & sub' & source & Hs & _ & _ & Hw & _). congruence.
Qed.

Lemma screen_assign_available_spec gone env r :
  wf gone r ->
  let acc := assign_available_locked env r in
  advances gone r acc
  /\ (forall s, served env acc.1 s)
  /\ (forall s i pr, pair_at r s i = Some pr -> is_free env pr = false -> pair_at acc.1 s i = Some pr).
Proof.
  intros Hwf acc.
  pose (P := fun (rest : list PeerId) (acc : Router * list BindingNotice) =>
    advances gone r acc
    /\ (forall s, is_Some (peers r !! s) -> s ∈ rest \/ served env acc.1 s)
    /\ (forall s i pr, pair_at r s i = Some pr -> is_free env pr = false ->
          pair_at acc.1 s i = Some pr)).
  assert (P [] acc) as (Hadv & Hall & Hkeep).
  2: { split_and!; [done | | done]. intros s p Hwa. pose proof Hwa as (_ & sub & _ & Hs & _).
       assert (is_Some (peers r !! s)) as Hin.
       { apply (same_peers_is_Some _ _ s (legal_same _ _ _ (adv_legal _ _ _ Hadv))). by exists sub. }
       destruct (Hall s Hin) as [Hnil%elem_of_nil | Hserved]; [done | by apply Hserved]. }
  apply (foldl_inv_rest P (assign_subscriber env)).
  { split; [by apply screen_advances_refl |]. split; [| done]. intros s Hs. left.
    by apply screen_ordered_peers_spec. }
  intros [r1 n] s rest (Hadv & Hrest & Hkeep).
  pose proof (legal_wf _ _ _ (adv_legal _ _ _ Hadv)) as Hwf1. simpl in Hwf1.
  destruct (assign_subscriber_spec gone env r1 n s Hwf1) as ((new & Hnew & Hadv2) & Ho & Ht & Hserved).
  destruct (assign_subscriber env (r1, n) s) as [r2 n2]. simpl in *. subst n2.
  split; [by apply (screen_advances_app _ _ _ _ _ _ Hadv) |]. split.
  - intros s' Hs'. destruct (decide (s' = s)) as [-> | Hne]; [by right |].
    destruct (Hrest s' Hs') as [[-> | Hin]%elem_of_cons | Hserved']; [done | by left | right].
    intros p Hwa. unfold hears, no_free_pair. setoid_rewrite Ho; [| done..].
    apply Hserved'. eapply watchable_same; [| exact Hwa].
    apply (legal_same _ _ _ (adv_legal _ _ _ Hadv2)).
  - intros s' i pr Hi Hf. specialize (Hkeep _ _ _ Hi Hf).
    destruct (decide (s' = s)) as [-> |]; [by apply Ht | by rewrite Ho].
Qed.
End Loops.

(** ** Whole operations *)

(** Like [advances], for updates of inputs, watches and peers too.  The
    announcements are those of a room where the mids of a peer differ. *)
Record progress (cond : Prop) (gone : PeerId -> PeerId -> Prop) (r0 : Router)
    (acc : Router * list BindingNotice) : Prop := {
  progress_wf : wf gone acc.1;
  progress_evolves : evolves r0 acc.1;
  progress_mids : cond -> mids_unique r0 -> mids_unique acc.1;
  progress_view f : cond -> mids_unique r0 -> view_ok f r0 -> view_ok (foldl hear f acc.2) acc.1;
}.

Lemma screen_advances_progress cond gone r0 acc : advances gone r0 acc -> progress cond gone r0 acc.
Proof. intros [[] Hm Hv]. split; auto. Qed.

Lemma screen_progress_app (cond : Prop) gone gone' r0 r1 n1 r2 n2 :
  progress cond gone r0 (r1, n1) -> progress cond gone' r1 (r2, n2) ->
  progress cond gone' r0 (r2, n1 ++ n2).
Proof.
  intros [W1 E1 M1 V1] [W2 E2 M2 V2]. split; simpl in *; [done | by eapply evolves_trans | auto |].
  intros f Hc Hm Hf. rewrite foldl_app. apply V2; auto.
Qed.

Lemma screen_progress_nil (cond : Prop) gone gone' r0 r1 acc :
  progress cond gone r0 (r1, []) -> progress cond gone' r1 acc -> progress cond gone' r0 acc.
Proof. intros H1 H2. destruct acc. by apply (screen_progress_app _ _ _ _ _ _ _ _ H1 H2). Qed.

(** A view fits every router with the same outputs and publishers. *)
Lemma view_outputs f r r' :
  (forall s m i pr v out, has_output r' s m i pr v out ->
     (exists j pr' w out', has_output r s m j pr' w out' /\ publisher pr' = publisher pr)
     \/ (publisher pr = None /\ forall i pr v out, ~ has_output r s m i pr v out)) ->
  (forall s m i pr v out, has_output r s m i pr v out ->
     exists j pr' w out', has_output r' s m j pr' w out') ->
  view_ok f r -> view_ok f r'.
Proof.
  intros H1 H2 [Hv Hn]. split.
  - intros s m i pr v out Ho. destruct (H1 _ _ _ _ _ _ Ho) as [(j & pr' & w & out' & Ho' & <-) | [-> Hnone]].
    + by eapply Hv.
    + by apply Hn.
  - intros s m Hnone. apply Hn. intros i pr v out Ho.
    destruct (H2 _ _ _ _ _ _ Ho) as (j & pr' & w & out' & Ho'). by eapply Hnone.
Qed.

Lemma wf_same_pairs gone gone' r r' :
  wf gone r -> (forall s i, pair_at r' s i = pair_at r s i) ->
  same_generations (rewriters r) (rewriters r') ->
  (forall s i pr p, pair_at r s i = Some pr -> publisher pr = Some p ->
     entitled r' s p \/ gone' s p) ->
  (forall s peer, peers r' !! s = Some peer ->
     send_binding peer = Some s \/ (send_binding peer = None /\ outputs peer = [])) ->
  wf gone' r'.
Proof.
  intros [] Hs (Hn & Hsw & Hg) Hent Hsend.
  assert (forall id, is_Some (cells (rewriters r') !! id) <-> is_Some (cells (rewriters r) !! id)) as Hc.
  { intros id. specialize (Hg id). unfold generation_at in Hg.
    rewrite <- (fmap_is_Some generation_), Hg. apply fmap_is_Some. }
  split; try (setoid_rewrite Hs; eauto; fail); [| | | | done].
  - intros s i pr v out. rewrite Hs, Hc. eauto.
  - intros id rw Hrw. rewrite Hn.
    destruct (proj1 (Hc id) (mk_is_Some _ _ Hrw)) as [rw' Hrw']. eauto.
  - intros id g. simpl. rewrite Hg. apply wf_fit0.
  - intros s i pr p v. rewrite Hs. setoid_rewrite Hg. eauto.
Qed.

Lemma progress_same_pairs cond gone gone' r r' :
  wf gone r -> (forall s i, pair_at r' s i = pair_at r s i) ->
  same_generations (rewriters r) (rewriters r') ->
  (forall s i pr p, pair_at r s i = Some pr -> publisher pr = Some p ->
     entitled r' s p \/ gone' s p) ->
  (forall s peer, peers r' !! s = Some peer ->
     send_binding peer = Some s \/ (send_binding peer = None /\ outputs peer = [])) ->
  progress cond gone' r (r', []).
Proof.
  intros Hwf Hs Hg Hent Hsend. split; simpl.
  - by eapply wf_same_pairs.
  - apply evolves_same; [apply (wf_fit _ _ Hwf) | done |].
    intros id o (s & i & pr & v & out & Hp & Ho). exists s, i, pr, v, out. by rewrite <- Hs.
  - intros _ Hm s m i pr v a j pr' w b. unfold has_output. rewrite !Hs. apply Hm.
  - intros f _ _. apply view_outputs; unfold has_output.
    + intros s m i pr v out. rewrite Hs. intros Ho. left. by exists i, pr, v, out.
    + intros s m i pr v out Ho. exists i, pr, v, out. by rewrite Hs.
Qed.

(** ** Peers *)

Lemma screen_peer_for_locked_lookup r owner p :
  peers (peer_for_locked r owner) !! p
  = if decide (p = owner) then Some (default (new_peer (next_peer_order r)) (peers r !! owner))
    else peers r !! p.
Proof.
  unfold peer_for_locked. case_decide as Hp.
  - subst. destruct (peers r !! owner) eqn:E; simpl; [done |]. by rewrite lookup_insert_eq.
  - destruct (peers r !! owner); [done |]. simpl. by rewrite lookup_insert_ne.
Qed.

Lemma screen_peer_for_locked_heap r owner : rewriters (peer_for_locked r owner) = rewriters r.
Proof. unfold peer_for_locked. by destruct (peers r !! owner). Qed.

(** A peer is added if it is new, then updated. *)
Definition entered (r : Router) (owner : PeerId) (f : PeerState -> PeerState) : Router :=
  let r := peer_for_locked r owner in with_peers r (alter f owner (peers r)).

Lemma screen_entered_lookup r owner f p :
  peers (entered r owner f) !! p
  = if decide (p = owner) then Some (f (default (new_peer (next_peer_order r)) (peers r !! owner)))
    else peers r !! p.
Proof.
  unfold entered. simpl. case_decide as Hp.
  - subst. by rewrite lookup_alter_eq, screen_peer_for_locked_lookup, decide_True.
  - by rewrite lookup_alter_ne, screen_peer_for_locked_lookup, decide_False.
Qed.

Lemma entered_pairs r owner f :
  (forall peer, outputs (f peer) = outputs peer) ->
  forall s i, pair_at (entered r owner f) s i = pair_at r s i.
Proof.
  intros Hf s i. unfold pair_at. rewrite screen_entered_lookup. case_decide as Hs; [| done].
  subst. simpl. rewrite Hf. by destruct (peers r !! owner).
Qed.

(** The update may end the entitlements [gone'] speaks of. *)
Lemma screen_entered_progress cond (gone' : PeerId -> PeerId -> Prop) r owner f :
  wf nobody r -> (forall peer, outputs (f peer) = outputs peer) ->
  (forall peer, send_binding (f peer) = Some owner \/ send_binding (f peer) = send_binding peer) ->
  (forall s p, entitled r s p -> entitled (entered r owner f) s p \/ gone' s p) ->
  progress cond gone' r (entered r owner f, []).
Proof.
  intros Hwf Hf Hsend Hent. apply (progress_same_pairs cond nobody); [done | by apply entered_pairs | | |].
  - unfold entered. simpl. by rewrite screen_peer_for_locked_heap.
  - intros s i pr p Hpr Hp. destruct (wf_entitled _ _ Hwf _ _ _ _ Hpr Hp) as [He | []]. by apply Hent.
  - intros s peer. rewrite screen_entered_lookup. case_decide as Hs; [| apply (wf_sender _ _ Hwf)].
    subst s. intros [= <-]. rewrite Hf. destruct (Hsend (default (new_peer (next_peer_order r)) (peers r !! owner)))
      as [-> | ->]; [by left |]. destruct (peers r !! owner) eqn:E; simpl; [by apply (wf_sender _ _ Hwf) | by right].
Qed.

(** Entitlements survive updates that keep streams and watches. *)
Lemma entered_entitled r owner f s p :
  (forall peer, streaming (f peer) = streaming peer) ->
  (forall peer q, is_Some (watched_publishers peer !! q) -> is_Some (watched_publishers (f peer) !! q)) ->
  entitled r s p -> entitled (entered r owner f) s p.
Proof.
  intros Hst Hw (sub & source & Hsub & Hsource & H1 & H2). unfold entitled.
  rewrite !screen_entered_lookup.
  exists (if decide (s = owner) then f sub else sub), (if decide (p = owner) then f source else source).
  split_and!.
  - case_decide; [| done]. subst. by rewrite Hsub.
  - case_decide; [| done]. subst. by rewrite Hsource.
  - case_decide; [by rewrite Hst | done].
  - case_decide; [by apply Hw | done].
Qed.

(** ** Registering an output *)

(** An empty pair is appended. *)
Lemma append_pair_progress cond gone r owner peer name :
  wf gone r -> peers r !! owner = Some peer -> send_binding peer = Some owner ->
  progress cond gone r
    (with_peers r (<[owner := with_outputs peer (outputs peer ++ [mkPair name None None None])]>
                     (peers r)), []).
Proof.
  intros Hwf Hpeer Hsend. set (r' := with_peers _ _). set (new := mkPair name None None None).
  assert (forall s i x, pair_at r' s i = Some x -> x = new \/ pair_at r s i = Some x) as Hat.
  { intros s i x. unfold pair_at, r'. simpl. destruct (decide (s = owner)) as [-> | Hs].
    - rewrite lookup_insert_eq, Hpeer. simpl. rewrite lookup_app_Some, list_lookup_singleton_Some.
      intros [| [_ [_ <-]]]; [by right | by left].
    - rewrite lookup_insert_ne by done. by right. }
  assert (forall s i x v out, pair_at r' s i = Some x -> channel v x = Some out -> pair_at r s i = Some x) as Hch.
  { intros s i x v out Hx Hc. destruct (Hat _ _ _ Hx) as [-> |]; [by destruct v | done]. }
  assert (forall s i x p, pair_at r' s i = Some x -> publisher x = Some p -> pair_at r s i = Some x) as Hpub.
  { intros s i x p Hx Hp. destruct (Hat _ _ _ Hx) as [-> |]; done. }
  assert (forall s i x, pair_at r s i = Some x -> pair_at r' s i = Some x) as Hkeep.
  { intros s i x Hx. unfold pair_at, r' in *. simpl. destruct (decide (s = owner)) as [-> | Hs].
    - rewrite lookup_insert_eq. rewrite Hpeer in Hx. simpl in *. by apply lookup_app_l_Some.
    - by rewrite lookup_insert_ne. }
  assert (same_peers r r') as Hsame.
  { intros p. unfold r'. simpl. destruct (decide (p = owner)) as [-> |].
    - by rewrite lookup_insert_eq, Hpeer.
    - by rewrite lookup_insert_ne. }
  split; simpl.
  - pose proof Hwf as []. split; [by eauto | done | done | by eauto 6 | by eauto | by eauto | by eauto 6 | |].
    + intros s i x p Hx Hp. destruct (wf_entitled0 _ _ _ _ (Hpub _ _ _ _ Hx Hp) Hp); [left | by right].
      by apply (entitled_same r).
    + intros s q. unfold r'. simpl. intros [[<- <-] | [_ Hq]]%lookup_insert_Some; [by left | eauto].
  - apply evolves_same; [apply (wf_fit _ _ Hwf) | done |].
    intros id o (s & i & x & v & out & Hx & Hc & Ho). exists s, i, x, v, out. split; [| done]. eauto.
  - intros _ Hu s m i x v a j y w b (Hx & Ha & Hma) (Hy & Hb & Hmb).
    eapply (Hu s m); (split; [| done]); eauto.
  - intros f _ _. apply view_outputs.
    + intros s m i x v out (Hx & Hc & Hm). left. exists i, x, v, out. split; [| done]. split; [| done]. eauto.
    + intros s m i x v out (Hx & Hc). exists i, x, v, out. split; [| done]. eauto.
Qed.

(** One medium of a free pair gets a new output, not ready yet. *)
Section NewOutput.
Context (gone : PeerId -> PeerId -> Prop) (r : Router) (owner : PeerId) (i : nat) (pr : OutputPair).
Context (kind : string) (out : OutputTrack) (rate step : Z).
Hypotheses (Hwf : wf gone r) (Hpr : pair_at r owner i = Some pr) (Hfree : publisher pr = None)
  (Hout : out_rewriter out = next_cell (rewriters r)).

Let h' : Heap := (make_rewriter (rewriters r) rate step).2.
Let pr' : OutputPair := with_output kind pr (Some out).
Let r' : Router := set_pair (with_heap r h') owner i pr'.

Lemma new_channel v : channel v pr' = if Bool.eqb v (is_video kind) then Some out else channel v pr.
Proof using Type. unfold pr', with_output, pick. destruct v, (is_video kind) eqn:E; done. Qed.

Lemma new_at s j :
  pair_at r' s j = if decide (s = owner /\ j = i) then Some pr' else pair_at r s j.
Proof using Hpr. unfold r'. by rewrite pair_at_set, Hpr. Qed.

Lemma new_generation id :
  generation_at h' id
  = if decide (id = next_cell (rewriters r)) then Some 0%Z else generation_at (rewriters r) id.
Proof using Type.
  unfold generation_at, h'. simpl. case_decide as Hid.
  - subst. by rewrite lookup_insert_eq.
  - by rewrite lookup_insert_ne.
Qed.

Lemma old_rewriter s j x v o :
  pair_at r s j = Some x -> channel v x = Some o -> out_rewriter o <> next_cell (rewriters r).
Proof using Hwf.
  intros Hx Ho Heq. destruct (wf_cell _ _ Hwf _ _ _ _ _ Hx Ho) as [rw Hc]. rewrite Heq in Hc.
  apply (wf_fresh _ _ Hwf) in Hc. revert Hc. apply Nat.lt_irrefl.
Qed.

(** A channel of the new state is the new output or an old one. *)
Lemma new_output_at s j x v o :
  pair_at r' s j = Some x -> channel v x = Some o ->
  (s = owner /\ j = i /\ v = is_video kind /\ o = out)
  \/ exists y, pair_at r s j = Some y /\ channel v y = Some o /\ publisher y = publisher x
       /\ ~ (s = owner /\ j = i /\ v = is_video kind).
Proof using Hpr Hfree.
  rewrite new_at. case_decide as Hd.
  - destruct Hd as [-> ->]. intros [= <-]. rewrite new_channel.
    destruct (Bool.eqb_spec v (is_video kind)) as [-> | Hne]; [intros [= <-]; by left |].
    intros Ho. right. exists pr. naive_solver.
  - intros Hx Ho. right. exists x. naive_solver.
Qed.

Lemma new_bound s j x p :
  pair_at r' s j = Some x -> publisher x = Some p ->
  pair_at r s j = Some x /\ ~ (s = owner /\ j = i).
Proof using Hpr Hfree.
  rewrite new_at. case_decide as Hd; [| done]. intros [= <-] Hp. simpl in Hp. congruence.
Qed.

Lemma new_output_wf : wf gone r'.
Proof using Type*.
  split.
  - intros s j x v o Hx Ho. simpl. apply lookup_insert_is_Some'.
    destruct (new_output_at _ _ _ _ _ Hx Ho) as [(_ & _ & _ & ->) | (y & Hy & Hc & _)]; [by left | right].
    by eapply (wf_cell _ _ Hwf).
  - intros id rw. simpl. intros [[<- _] | [_ Hw]]%lookup_insert_Some; [lia |].
    apply (wf_fresh _ _ Hwf) in Hw. lia.
  - intros id g. simpl. rewrite new_generation. case_decide; [| apply (wf_fit _ _ Hwf)].
    intros [= <-]. unfold is_u. lia.
  - intros s j x v a s' j' y w b Hx Ha Hy Hb Heq.
    destruct (new_output_at _ _ _ _ _ Hx Ha) as [(-> & -> & -> & ->) | (x0 & Hx0 & Ha0 & _)],
      (new_output_at _ _ _ _ _ Hy Hb) as [(-> & -> & -> & ->) | (y0 & Hy0 & Hb0 & _)]; [done | | |].
    + destruct (old_rewriter _ _ _ _ _ Hy0 Hb0). congruence.
    + destruct (old_rewriter _ _ _ _ _ Hx0 Ha0). congruence.
    + by eapply (wf_unshared _ _ Hwf _ _ _ _ _ _ _ _ _ _ Hx0 Ha0 Hy0 Hb0).
  - intros s j x p v Hx Hp. destruct (new_bound _ _ _ _ Hx Hp) as [Hx0 _].
    destruct (wf_bound _ _ Hwf _ _ _ _ v Hx0 Hp) as (o & Ho & Hr & Hg). exists o.
    split; [done |]. split; [done |]. simpl.
    rewrite new_generation, decide_False; [done |]. by eapply old_rewriter.
  - intros s j x p Hx Hp. destruct (new_bound _ _ _ _ Hx Hp) as [Hx0 _]. by eapply (wf_self _ _ Hwf).
  - intros s j k a b p Ha Hb Hpa Hpb. destruct (new_bound _ _ _ _ Ha Hpa) as [Ha0 _].
    destruct (new_bound _ _ _ _ Hb Hpb) as [Hb0 _]. by eapply (wf_once _ _ Hwf).
  - intros s j x p Hx Hp. destruct (new_bound _ _ _ _ Hx Hp) as [Hx0 _].
    destruct (wf_entitled _ _ Hwf _ _ _ _ Hx0 Hp); [left | by right].
    eapply entitled_same; [apply set_pair_same_peers | done].
  - intros q peer. by apply (set_pair_sender gone).
Qed.

Lemma new_output_evolves : evolves r r'.
Proof using Type*.
  apply evolves_cases; [apply (wf_fit _ _ Hwf) | unfold switched; simpl; lia |].
  intros id g Hg. simpl in *. left. rewrite new_generation.
  assert (id <> next_cell (rewriters r)) as Hid.
  { intros ->. unfold generation_at in Hg. destruct (cells (rewriters r) !! _) as [rw |] eqn:E; [| done].
    apply (wf_fresh _ _ Hwf) in E. lia. }
  rewrite decide_False by done. split; [done |].
  intros o (s & j & x & v & c & Hx & Hc & Hrw & Ho).
  destruct (new_output_at _ _ _ _ _ Hx Hc) as [(-> & -> & -> & ->) | (y & Hy & Hcy & Hp & _)]; [congruence |].
  exists s, j, y, v, c. split_and!; [done | done | done | congruence].
Qed.

(** [mid] is new to the owner, or names the output being replaced. *)
Hypothesis Hmid : forall j x v o, has_output r owner (out_mid out) j x v o -> j = i /\ v = is_video kind.
Hypothesis Hold : forall o, channel (is_video kind) pr = Some o -> out_mid o = out_mid out.

Lemma new_output_mids : mids_unique r -> mids_unique r'.
Proof using Type*.
  intros Hu s m j x v a k y w b (Hx & Ha & Hma) (Hy & Hb & Hmb).
  destruct (new_output_at _ _ _ _ _ Hx Ha) as [(-> & -> & -> & ->) | (x0 & Hx0 & Ha0 & _ & Hnx)],
    (new_output_at _ _ _ _ _ Hy Hb) as [(? & -> & -> & ->) | (y0 & Hy0 & Hb0 & _ & Hny)]; [done | | |].
  - destruct (Hmid k y0 w b) as [-> ->]; [| done]. unfold has_output. split_and!; [done | done | congruence].
  - subst s. destruct (Hmid j x0 v a) as [-> ->]; [| done]. unfold has_output. split_and!; [done | done | congruence].
  - eapply (Hu s m); unfold has_output; eauto.
Qed.

Lemma new_output_view f : view_ok f r -> view_ok f r'.
Proof using Type*.
  intros Hview. pose proof Hview as [Hv Hn]. split.
  - intros s m j x v o (Hx & Ho & Hm).
    destruct (new_output_at _ _ _ _ _ Hx Ho) as [(-> & -> & -> & ->) | (y & Hy & Hc & <- & _)].
    + rewrite new_at, decide_True in Hx by done. injection Hx as <-. simpl. rewrite Hfree.
      destruct (channel (is_video kind) pr) as [c |] eqn:Ec.
      * rewrite <- Hfree. apply (Hv owner m i pr (is_video kind) c). split_and!; [done | done |].
        rewrite <- Hm. by apply Hold.
      * apply Hn. intros j x v o Hh. rewrite <- Hm in Hh. destruct (Hmid _ _ _ _ Hh) as [-> ->].
        destruct Hh as (Hx & Hc & _). congruence.
    + apply (Hv s m j y v o). by split_and!.
  - intros s m Hnone. apply Hn. intros j x v o (Hx & Ho & Hm).
    destruct (decide (s = owner /\ j = i)) as [[-> ->] | Hne].
    + rewrite Hpr in Hx. injection Hx as <-.
      destruct (decide (v = is_video kind)) as [-> | Hv'].
      * apply (Hnone i pr' (is_video kind) out). split_and!; [by rewrite new_at, decide_True | |].
        -- by rewrite new_channel, Bool.eqb_reflx.
        -- by rewrite <- (Hold _ Ho).
      * apply (Hnone i pr' v o). split_and!; [by rewrite new_at, decide_True | | done].
        rewrite new_channel. by destruct (Bool.eqb_spec v (is_video kind)).
    + apply (Hnone j x v o). split_and!; [by rewrite new_at, decide_False | done | done].
Qed.
End NewOutput.

(** The output to come shares its mid with nothing but the output it replaces. *)
Definition mid_free (r : Router) (owner : PeerId) (kind m : string) : Prop :=
  forall i pr v out, has_output r owner m i pr v out -> v = is_video kind.

Lemma has_mid_true kind m pr :
  has_mid kind m pr = true <-> exists out, channel (is_video kind) pr = Some out /\ out_mid out = m.
Proof.
  unfold has_mid. rewrite output_of_channel. destruct (channel _ pr) as [out |]; [| naive_solver].
  rewrite String.eqb_eq. naive_solver.
Qed.

(** Where the output goes: the pair that has it, or one that lacks the medium. *)
Lemma output_pair_for_spec next_ssrc peer m kind :
  let '(i, peer', _) := output_pair_for next_ssrc peer m kind in
  exists pr, outputs peer' !! i = Some pr
    /\ (peer' = peer \/ exists name, peer' = with_outputs peer (outputs peer ++ [mkPair name None None None]))
    /\ ((exists out, channel (is_video kind) pr = Some out /\ out_mid out = m)
        \/ (channel (is_video kind) pr = None
            /\ forall x, x ∈ outputs peer' -> has_mid kind m x = false)).
Proof.
  unfold output_pair_for. destruct (list_find _ (outputs peer)) as [[i pr] |] eqn:E1.
  { apply list_find_Some in E1 as (Hi & Hm & _). exists pr. split; [done |]. split; [by left |].
    left. by apply has_mid_true. }
  apply list_find_None in E1.
  assert (forall x, x ∈ outputs peer -> has_mid kind m x = false) as Hnone.
  { intros x Hx. rewrite Forall_forall in E1. by destruct (has_mid kind m x) eqn:E; [destruct (E1 x Hx) |]. }
  destruct (list_find _ (outputs peer)) as [[i pr] |] eqn:E2.
  { apply list_find_Some in E2 as (Hi & Hl & _). exists pr. split; [done |]. split; [by left |].
    right. split; [| done]. unfold lacks in Hl. rewrite output_of_channel in Hl. by destruct (channel _ pr). }
  destruct (allocate_slot_ssrc next_ssrc) as [token next]. simpl. eexists.
  split; [by rewrite lookup_app_r, Nat.sub_diag |]. split; [right; by eexists |].
  right. split; [by destruct (is_video kind) |]. intros x. rewrite elem_of_app, list_elem_of_singleton.
  intros [| ->]; [by apply Hnone |]. unfold has_mid, output_of, pick. by destruct (is_video kind).
Qed.

Lemma set_sender_progress cond r owner :
  wf nobody r ->
  progress cond nobody r (entered r owner (fun peer => with_sender peer (Some owner)), []).
Proof.
  intros Hwf. apply screen_entered_progress; [done | done | by left |].
  intros s p He. left. by apply entered_entitled.
Qed.

(** What a list of places holds, by mid. *)
Lemma has_output_outputs r owner peer m i pr v out :
  peers r !! owner = Some peer -> has_output r owner m i pr v out ->
  pr ∈ outputs peer /\ channel v pr = Some out /\ out_mid out = m.
Proof.
  intros Hp (Hat & Hc & Hm). split; [| done]. unfold pair_at in Hat. rewrite Hp in Hat.
  by eapply list_elem_of_lookup_2.
Qed.

(** Clearing a pair keeps its mids. *)
Lemma clear_pair_at r s i notices pr :
  pair_at r s i = Some pr ->
  exists pr', pair_at (clear_pair_locked r s i notices).1 s i = Some pr'
    /\ forall v, out_mid <$> channel v pr' = out_mid <$> channel v pr.
Proof.
  intros Hpr. unfold clear_pair_locked. destruct (pair_at_peer _ _ _ _ Hpr) as (sub & Hsub & _).
  rewrite Hsub, Hpr. destruct (publisher pr); [| by exists pr].
  unfold end_output. destruct (video pr) as [ov |] eqn:Ev, (audio pr) as [oa |] eqn:Ea;
    (eexists; split; [simpl; by rewrite pair_at_set, decide_True, Hpr |]);
    intros [|]; simpl; by rewrite ?Ev, ?Ea.
Qed.

Lemma screen_place_output_progress next_ssrc r owner kind m ssrc track :
  wf nobody r ->
  let '(r', _, notices, _) := place_output next_ssrc r owner kind m ssrc track (Some owner) in
  progress (mid_free r owner kind m) nobody r (r', notices).
Proof.
  intros Hwf. unfold place_output.
  set (cond := mid_free r owner kind m).
  change (with_peers (peer_for_locked r owner) _) with (entered r owner (fun peer => with_sender peer (Some owner))).
  pose proof (set_sender_progress cond r owner Hwf) as Hr1.
  assert (forall s i, pair_at (entered r owner (fun peer => with_sender peer (Some owner))) s i = pair_at r s i)
    as Hsame1 by by apply entered_pairs.
  assert (forall peer, peers (entered r owner (fun peer => with_sender peer (Some owner))) !! owner = Some peer ->
    send_binding peer = Some owner) as Hsend.
  { intros peer. rewrite screen_entered_lookup, decide_True by done. by intros [= <-]. }
  set (r1 := entered r owner _) in *.
  destruct (peers r1 !! owner) as [peer |] eqn:Hpeer; [| done]. specialize (Hsend _ eq_refl).
  pose proof (output_pair_for_spec next_ssrc peer m kind) as Hfor.
  destruct (output_pair_for next_ssrc peer m kind) as [[i peer'] next'].
  destruct Hfor as (pr & Hi & Hpeer' & Hchoice).
  set (r2 := with_peers r1 (<[owner := peer']> (peers r1))).
  assert (progress cond nobody r1 (r2, [])) as Hr2.
  { destruct Hpeer' as [-> | [name ->]].
    - unfold r2. rewrite insert_id by done. destruct r1. apply screen_advances_progress, screen_advances_refl. apply Hr1.
    - apply append_pair_progress; [apply Hr1 | done | done]. }
  assert (peers r2 !! owner = Some peer') as Hp2 by (unfold r2; simpl; by rewrite lookup_insert_eq).
  assert (pair_at r2 owner i = Some pr) as Hpr2 by (unfold pair_at; by rewrite Hp2).
  assert (forall i x v o, has_output r2 owner m i x v o -> cond -> v = is_video kind) as Hcond2.
  { intros j x v o Ho Hcond. destruct (has_output_outputs _ _ _ _ _ _ _ _ Hp2 Ho) as (Hx & Hc & Hm).
    assert (x ∈ outputs peer) as Hx'.
    { destruct Hpeer' as [-> | [name ->]]; [done |]. simpl in Hx.
      apply elem_of_app in Hx as [| ->%list_elem_of_singleton]; [done |]. by destruct v. }
    apply list_elem_of_lookup in Hx' as [k Hk]. apply (Hcond k x v o). unfold has_output.
    rewrite <- Hsame1. unfold pair_at. by rewrite Hpeer. }
  destruct (clear_pair_advances nobody r2 owner i [] (progress_wf _ _ _ _ Hr2)) as (new & Hnew & Hclear & Hfree).
  destruct (clear_pair_at r2 owner i [] pr Hpr2) as (pr3 & Hpr3 & Hmid3).
  pose proof (clear_pair_elsewhere r2 owner i []) as Helse.
  destruct (clear_pair_locked r2 owner i []) as [r3 n3].
  cbn [fst snd] in Hnew, Hclear, Hfree, Hpr3, Helse. simpl in Hnew. subst n3.
  rewrite Hpr3. specialize (Hfree _ Hpr3).
  apply (screen_progress_nil _ _ _ _ _ _ Hr1), (screen_progress_nil _ _ _ _ _ _ Hr2).
  apply (screen_advances_progress cond) in Hclear. rewrite <- (app_nil_r new).
  apply (screen_progress_app _ _ _ _ _ _ _ _ Hclear).
  pose proof (progress_wf _ _ _ _ Hclear) as Hwf3. simpl in Hwf3.
  assert (forall j x v o, has_output r3 owner m j x v o -> exists y o', has_output r2 owner m j y v o') as Hback.
  { intros j x v o (Hx & Hc & Hm). destruct (decide (j = i)) as [-> | Hne].
    - rewrite Hpr3 in Hx. injection Hx as <-. specialize (Hmid3 v). rewrite Hc in Hmid3. simpl in Hmid3.
      destruct (channel v pr) as [o' |] eqn:Eo; [| done]. injection Hmid3 as Hmo.
      exists pr, o'. unfold has_output. split_and!; [done | done | congruence].
    - exists x, o. unfold has_output. rewrite <- Helse by congruence. done. }
  assert (cond -> mids_unique r3 -> forall j x v o, has_output r3 owner m j x v o ->
            j = i /\ v = is_video kind) as Hmid.
  { intros Hcond Hu j x v o Ho. destruct (Hback _ _ _ _ Ho) as (y & o' & Ho').
    pose proof (Hcond2 _ _ _ _ Ho' Hcond) as ->. split; [| done].
    destruct Hchoice as [(out & Hc & Hm) | [Hnone Hall]].
    - specialize (Hmid3 (is_video kind)). rewrite Hc in Hmid3. simpl in Hmid3.
      destruct (channel (is_video kind) pr3) as [o3 |] eqn:E3; [| done]. injection Hmid3 as Hm3.
      eapply (Hu owner m j x _ o i pr3 _ o3); [done |]. unfold has_output.
      split_and!; [done | done | congruence].
    - destruct (has_output_outputs _ _ _ _ _ _ _ _ Hp2 Ho') as (Hy & Hcy & Hmy).
      assert (has_mid kind m y = true) as Htrue by (apply has_mid_true; by exists o').
      rewrite (Hall _ Hy) in Htrue. done. }
  set (out := mkOutput m ssrc (Some track) false (next_cell (rewriters r3)) 0).
  assert (forall o, channel (is_video kind) pr3 = Some o -> out_mid o = out_mid out) as Hold.
  { intros o Ho. specialize (Hmid3 (is_video kind)). rewrite Ho in Hmid3. simpl in *.
    destruct Hchoice as [(o' & Hc & Hm) | [Hnone _]].
    - rewrite Hc in Hmid3. simpl in Hmid3. congruence.
    - by rewrite Hnone in Hmid3. }
  split; simpl.
  - by apply (new_output_wf nobody r3 owner i pr3 kind out).
  - by apply (new_output_evolves nobody r3 owner i pr3 kind out).
  - intros Hcond Hu. apply (new_output_mids nobody r3 owner i pr3 kind out); try done. by apply Hmid.
  - intros f Hcond Hu. apply (new_output_view nobody r3 owner i pr3 kind out); try done. by apply Hmid.
Qed.

Lemma mark_ready_progress cond r owner i pr kind out :
  wf nobody r -> pair_at r owner i = Some pr -> channel (is_video kind) pr = Some out ->
  progress cond nobody r (set_pair r owner i (with_output kind pr (Some (mark_ready out))), []).
Proof.
  intros Hwf Hpr Hout. set (pr' := with_output _ _ _).
  assert (with_heap r (rewriters r) = r) as Er by by destruct r.
  assert (forall v, channel v pr' = if Bool.eqb v (is_video kind) then Some (mark_ready out) else channel v pr)
    as Hch by (by intros [|]; unfold pr', with_output, pick; destruct (is_video kind)).
  assert (forall v, (fun o => (out_mid o, out_rewriter o)) <$> channel v pr'
                  = (fun o => (out_mid o, out_rewriter o)) <$> channel v pr) as Hsame.
  { intros v. rewrite Hch. destruct (Bool.eqb_spec v (is_video kind)) as [-> |]; [| done]. by rewrite Hout. }
  assert (legal nobody r (set_pair (with_heap r (rewriters r)) owner i pr')) as Hlegal.
  { apply (legal_update nobody r owner i pr pr' (rewriters r)); try done.
    - apply heap_step_refl, (wf_fit _ _ Hwf).
    - intros v o _. by left.
    - intros p Hp. change (publisher pr = Some p) in Hp. split_and!.
      + intros v. rewrite Hch. destruct (wf_bound _ _ Hwf _ _ _ _ v Hpr Hp) as (o & Ho & Hr & Hg).
        destruct (Bool.eqb_spec v (is_video kind)) as [-> |]; [| by exists o].
        rewrite Hout in Ho. injection Ho as <-. by exists (mark_ready out).
      + by apply (wf_self _ _ Hwf _ _ _ _ Hpr Hp).
      + by apply (wf_entitled _ _ Hwf _ _ _ _ Hpr Hp).
      + intros j b Hb Hpb. by apply (wf_once _ _ Hwf _ _ _ _ _ _ Hb Hpr Hpb). }
  rewrite <- Er at 2. split; [apply Hlegal | apply Hlegal | |]; simpl.
  - intros _. by apply (update_mids r owner i pr pr' (rewriters r)).
  - intros f _ _. apply view_outputs.
    + intros s m j x v o Ho. left.
      destruct (updated_output r owner i pr pr' (rewriters r) Hpr Hsame _ _ _ _ _ _ Ho) as (y & o' & Ho').
      exists j, y, v, o'. split; [done |]. destruct Ho as [Hx _], Ho' as [Hy _].
      rewrite pair_at_set, Hpr in Hx. case_decide as Hd; [| congruence].
      destruct Hd as [-> ->]. rewrite Hpr in Hy. by simplify_eq/=.
    + intros s m j x v o Ho.
      destruct (output_updated r owner i pr pr' (rewriters r) Hpr Hsame _ _ _ _ _ _ Ho) as (y & o' & Ho').
      by exists j, y, v, o'.
Qed.

Lemma progress_refl cond gone r : wf gone r -> progress cond gone r (r, []).
Proof. intros Hwf. by apply screen_advances_progress, screen_advances_refl. Qed.

Lemma set_ready_progress cond env r owner kind m track :
  wf nobody r -> progress cond nobody r (set_ready env r owner kind m track, []).
Proof.
  intros Hwf. unfold set_ready. destruct (peers r !! owner) as [peer |]; [| by apply progress_refl].
  destruct (output_by_mid peer m kind) as [i |]; [| by apply progress_refl].
  destruct (pair_at r owner i) as [pr |] eqn:Hpr; [| by apply progress_refl].
  destruct (output_of kind pr) as [out |] eqn:Hout; [| by apply progress_refl].
  case_bool_decide; [| by apply progress_refl]. by apply mark_ready_progress.
Qed.

Lemma screen_assign_progress cond env r :
  wf nobody r ->
  let acc := assign_available_locked env r in
  progress cond nobody r acc /\ forall s, served env acc.1 s.
Proof.
  intros Hwf. destruct (screen_assign_available_spec nobody env r Hwf) as (Hadv & Hserved & _).
  split; [by apply screen_advances_progress | done].
Qed.

Lemma ready_output_progress cond env r owner kind m track :
  wf nobody r -> progress cond nobody r (ready_output env r owner kind m track).
Proof.
  intros Hwf. unfold ready_output. destruct (closed r); [by apply progress_refl |].
  destruct (peers r !! owner); [| by apply progress_refl].
  pose proof (set_ready_progress cond env r owner kind m track Hwf) as Hr.
  apply (screen_progress_nil _ _ _ _ _ _ Hr). by apply screen_assign_progress, Hr.
Qed.

(** ** Streaming, watching, leaving *)

Section Leaving.
Context `{Platform} `{IterationOrder} {Media : Type} `{MediaApi Media, !SlotMedia Media}.

(** Clearing all pairs bound to [p] discharges the exceptions about [p]. *)
Lemma clear_all_progress cond r p places :
  wf (fun _ q => q = p) r ->
  (forall s i pr, pair_at r s i = Some pr -> publisher pr = Some p -> (s, i) ∈ places) ->
  let acc := foldl (clear_bound p) (r, []) places in
  progress cond (fun _ q => q = p) r acc /\ wf nobody acc.1.
Proof.
  intros Hwf Hall. destruct (clear_loop _ p places r [] Hwf) as [(new & Hnew & Hadv) Hrest].
  destruct (foldl _ _ _) as [r1 n1]. simpl in *. subst n1.
  split; [by apply screen_advances_progress |].
  apply (wf_cleared (fun _ q => q = p)); [by apply (adv_legal _ _ _ Hadv) |].
  intros s i pr q Hpr Hq ->. destruct (Hrest _ _ _ Hpr Hq) as [Hin Hold]. by destruct Hin; eauto.
Qed.

Lemma progress_clean (cond : Prop) gone gone' r acc :
  progress cond gone r acc -> wf gone' acc.1 -> progress cond gone' r acc.
Proof. intros [] Hwf. by split. Qed.

(** The flag, or the watch, is not yet what it is set to. *)
Definition streaming_changes (r : Router) (id : PeerId) (on : bool) : Prop :=
  default false (streaming <$> peers r !! id) <> on.

Definition watching_changes (r : Router) (id p : PeerId) (watching : bool) : Prop :=
  watching <> bool_decide (is_Some (from_option watched_publishers ∅ (peers r !! id) !! p)).

Lemma set_streaming_progress cond env r id on :
  wf nobody r ->
  let acc := set_streaming_locked env r id on in
  progress cond nobody r acc /\ (streaming_changes r id on -> forall s, served env acc.1 s).
Proof.
  intros Hwf. unfold set_streaming_locked. case_bool_decide as Hon.
  { split; [| intros Hch; destruct Hch; rewrite screen_peer_for_locked_lookup, decide_True in Hon by done;
              destruct (peers r !! id); simpl in *; congruence].
    change (peer_for_locked r id) with (peer_for_locked r id).
    assert (progress cond nobody r (entered r id (fun peer => peer), [])) as Hp.
    { apply screen_entered_progress; [done | done | by right |]. intros s p He. left.
      by apply entered_entitled. }
    unfold entered in Hp. rewrite alter_id in Hp by done.
    destruct (peer_for_locked r id) eqn:E. exact Hp. }
  change (with_peers (peer_for_locked r id) _) with (entered r id (fun peer => with_streaming peer on)).
  set (r1 := entered r id _).
  destruct on.
  - assert (progress cond nobody r (r1, [])) as Hr1.
    { apply screen_entered_progress; [done | done | by right |]. intros s p (sub & source & Hs & Hp & Hst & Hw).
      left. unfold entitled. rewrite !screen_entered_lookup.
      exists (if decide (s = id) then with_streaming sub true else sub),
        (if decide (p = id) then with_streaming source true else source). split_and!.
      - case_decide; [| done]. subst. by rewrite Hs.
      - case_decide; [| done]. subst. by rewrite Hp.
      - by case_decide.
      - by case_decide. }
    destruct (screen_assign_progress cond env r1 (progress_wf _ _ _ _ Hr1)) as [Ha Hserved].
    destruct (assign_available_locked env r1) as [r2 n2].
    split; [by apply (screen_progress_nil _ _ _ _ _ _ Hr1) | done].
  - assert (progress cond (fun _ q => q = id) r (r1, [])) as Hr1.
    { apply screen_entered_progress; [done | done | by right |]. intros s p (sub & source & Hs & Hp & Hst & Hw).
      destruct (decide (p = id)) as [-> | Hne]; [by right | left]. unfold entitled.
      rewrite !screen_entered_lookup.
      exists (if decide (s = id) then with_streaming sub false else sub), source. split_and!; try done.
      - case_decide; [| done]. subst. by rewrite Hs.
      - by rewrite decide_False.
      - by case_decide. }
    destruct (clear_all_progress cond r1 id (pair_loop r1) (progress_wf _ _ _ _ Hr1)) as [Hc Hwf2].
    { intros s i pr Hpr _. by eapply pair_loop_spec. }
    destruct (foldl (clear_bound id) (r1, []) (pair_loop r1)) as [r2 n2].
    destruct (screen_assign_progress cond env r2 Hwf2) as [Ha Hserved].
    destruct (assign_available_locked env r2) as [r3 n3]. split; [| done].
    apply (screen_progress_nil _ _ _ _ _ _ Hr1). apply (screen_progress_app _ _ _ _ _ _ _ _ Hc Ha).
Qed.

Lemma insert_alter (ps : gmap PeerId PeerState) id peer f :
  ps !! id = Some peer -> <[id := f peer]> ps = alter f id ps.
Proof.
  intros Hp. apply map_eq. intros q. destruct (decide (id = q)) as [-> | Hne].
  - by rewrite lookup_insert_eq, lookup_alter_eq, Hp.
  - by rewrite lookup_insert_ne, lookup_alter_ne.
Qed.

Definition watch (publisher_id : PeerId) (watching : bool) (peer : PeerState) : PeerState :=
  if watching
  then with_watched peer (<[publisher_id := next_watch_order peer]> (watched_publishers peer))
         (u64 (next_watch_order peer + 1))
  else with_watched peer (delete publisher_id (watched_publishers peer)) (next_watch_order peer).

Lemma entered_id r id : entered r id (fun peer => peer) = peer_for_locked r id.
Proof. unfold entered. rewrite alter_id by done. by destruct (peer_for_locked r id). Qed.

Lemma set_watching_progress cond env r id publisher_id watching :
  wf nobody r ->
  let acc := set_watching_locked env r id publisher_id watching in
  progress cond nobody r acc
  /\ (watching_changes r id publisher_id watching -> forall s, served env acc.1 s).
Proof.
  intros Hwf. unfold set_watching_locked.
  assert (progress cond nobody r (peer_for_locked r id, [])) as Hin.
  { rewrite <- entered_id. apply screen_entered_progress; [done | done | by right |].
    intros s p He. left. by apply entered_entitled. }
  assert (peers (peer_for_locked r id) !! id = Some (default (new_peer (next_peer_order r)) (peers r !! id)))
    as Hpeer by by rewrite screen_peer_for_locked_lookup, decide_True.
  rewrite Hpeer. set (peer := default _ _) in *.
  destruct (Bool.eqb_spec watching (bool_decide (is_Some (watched_publishers peer !! publisher_id)))) as [Heq | _].
  { split; [done |]. intros Hch. destruct Hch. rewrite Heq at 1. apply bool_decide_ext. unfold peer.
    by destruct (peers r !! id). }
  change (if watching then with_watched peer _ _ else _) with (watch publisher_id watching peer).
  rewrite (insert_alter _ _ _ (watch publisher_id watching) Hpeer).
  change (with_peers (peer_for_locked r id) _) with (entered r id (watch publisher_id watching)).
  set (r1 := entered r id _).
  assert (forall q, streaming (watch publisher_id watching q) = streaming q) as Hst by by destruct watching.
  assert (forall q, outputs (watch publisher_id watching q) = outputs q) as Hos by by destruct watching.
  assert (forall q, send_binding (watch publisher_id watching q) = send_binding q) as Hsb by by destruct watching.
  destruct watching.
  - assert (progress cond nobody r (r1, [])) as Hr1.
    { apply screen_entered_progress; [done.. | by right |]. intros s p He. left.
      apply entered_entitled; [done | | done]. intros q p' [n Hn]. simpl.
      destruct (decide (publisher_id = p')) as [-> |]; [by rewrite lookup_insert_eq |].
      by rewrite lookup_insert_ne. }
    destruct (screen_assign_progress cond env r1 (progress_wf _ _ _ _ Hr1)) as [Ha Hserved].
    destruct (assign_available_locked env r1) as [r2 n2].
    split; [by apply (screen_progress_nil _ _ _ _ _ _ Hr1) | done].
  - assert (progress cond (fun s q => s = id /\ q = publisher_id) r (r1, [])) as Hr1.
    { apply screen_entered_progress; [done.. | by right |]. intros s p (sub & source & Hs & Hp & Hstr & Hw).
      destruct (decide (s = id /\ p = publisher_id)) as [| Hne]; [by right | left].
      unfold entitled, r1. rewrite !screen_entered_lookup.
      exists (if decide (s = id) then watch publisher_id false sub else sub),
        (if decide (p = id) then watch publisher_id false source else source). split_and!.
      - case_decide; [| done]. subst. by rewrite Hs.
      - case_decide; [| done]. subst. by rewrite Hp.
      - case_decide; [by rewrite Hst | done].
      - case_decide; [| done]. simpl. rewrite lookup_delete_ne; [done |]. intros <-. by apply Hne. }
    pose proof (progress_wf _ _ _ _ Hr1) as Hwf1. simpl in Hwf1.
    destruct (clear_loop _ publisher_id (own_pairs r1 id) r1 [] Hwf1) as [(new & Hnew & Hadv) Hrest].
    destruct (foldl _ _ _) as [r2 n2]. simpl in Hnew, Hadv, Hrest. subst n2.
    assert (wf nobody r2) as Hwf2.
    { apply (wf_cleared (fun s q => s = id /\ q = publisher_id)); [by apply (adv_legal _ _ _ Hadv) |].
      intros s i pr q Hpr Hq [-> ->]. destruct (Hrest _ _ _ Hpr Hq) as [Hno Hold].
      apply Hno. by eapply own_pairs_spec. }
    apply (screen_advances_progress cond) in Hadv.
    destruct (screen_assign_progress cond env r2 Hwf2) as [Ha Hserved].
    destruct (assign_available_locked env r2) as [r3 n3]. split; [| done].
    apply (screen_progress_nil _ _ _ _ _ _ Hr1). apply (screen_progress_app _ _ _ _ _ _ _ _ Hadv Ha).
Qed.

Definition forget (f : view) (id : PeerId) : view :=
  fun s m => if decide (s = id) then None else f s m.

Definition unwatch (id : PeerId) (sub : PeerState) : PeerState :=
  with_watched sub (delete id (watched_publishers sub)) (next_watch_order sub).

(** The peer is erased and no longer watched; its pairs elsewhere come next. *)
Lemma erase_spec r id :
  wf nobody r ->
  let r' := with_peers r (unwatch id <$> delete id (peers r)) in
  wf (fun _ q => q = id) r' /\ evolves r r'
  /\ (forall s i, pair_at r' s i = if decide (s = id) then None else pair_at r s i).
Proof.
  intros Hwf r'.
  assert (forall s, peers r' !! s = if decide (s = id) then None else unwatch id <$> peers r !! s) as Hpeers.
  { intros s. unfold r'. simpl. rewrite lookup_fmap. case_decide as Hs.
    - subst. by rewrite lookup_delete_eq.
    - by rewrite lookup_delete_ne. }
  assert (forall s i, pair_at r' s i = if decide (s = id) then None else pair_at r s i) as Hat.
  { intros s i. unfold pair_at. rewrite Hpeers. case_decide; [done |]. by destruct (peers r !! s). }
  assert (forall s i x, pair_at r' s i = Some x -> pair_at r s i = Some x) as Hold.
  { intros s i x. rewrite Hat. by case_decide. }
  split; [| split; [| done]].
  - pose proof Hwf as []. split; [by eauto | done | done | by eauto 6 | by eauto | by eauto | by eauto 6 | |].
    + intros s i pr p Hpr Hp. destruct (decide (p = id)) as [-> | Hne]; [by right | left].
      destruct (wf_entitled0 _ _ _ _ (Hold _ _ _ Hpr) Hp) as [(sub & source & Hs & Hq & Hst & Hw) | []].
      assert (s <> id) as Hsid by (intros ->; rewrite Hat, decide_True in Hpr; done).
      exists (unwatch id sub), (unwatch id source). rewrite !Hpeers, !decide_False, Hs, Hq by done.
      split_and!; [done | done | done |]. simpl. by rewrite lookup_delete_ne.
    + intros s peer. rewrite Hpeers. case_decide; [done |]. intros Hp.
      destruct (peers r !! s) as [old |] eqn:E; [| done]. injection Hp as <-. apply (wf_sender0 s old E).
  - apply evolves_same; [apply (wf_fit _ _ Hwf) | done |].
    intros rw o (s & i & x & v & out & Hx & Ho). exists s, i, x, v, out. eauto.
Qed.

Lemma remove_peer_spec env r id :
  wf nobody r ->
  let acc := remove_peer_locked env r id in
  wf nobody acc.1 /\ evolves r acc.1 /\ peers acc.1 !! id = None
  /\ (forall s, served env acc.1 s)
  /\ (mids_unique r -> mids_unique acc.1)
  /\ forall f, mids_unique r -> view_ok f r -> view_ok (foldl hear (forget f id) acc.2) acc.1.
Proof.
  intros Hwf. unfold remove_peer_locked. destruct (erase_spec r id Hwf) as (Hwf1 & Hev1 & Hat).
  set (r1 := with_peers r (unwatch id <$> delete id (peers r))) in *.
  change (with_peers (with_peers r (delete id (peers r))) _) with r1.
  assert (peers r1 !! id = None) as Hgone.
  { unfold r1. simpl. by rewrite lookup_fmap, lookup_delete_eq. }
  assert (mids_unique r -> mids_unique r1) as Hmids1.
  { intros Hu s m i x v a j y w b (Hx & Ha) (Hy & Hb). rewrite Hat in Hx, Hy.
    case_decide; [done |]. by apply (Hu s m i x v a j y w b). }
  assert (forall f, view_ok f r -> view_ok (forget f id) r1) as Hview1.
  { intros f [Hv Hn]. unfold forget. split.
    - intros s m i x v out (Hx & Ho). rewrite Hat in Hx. case_decide; [done |]. by apply (Hv s m i x v out).
    - intros s m Hnone. case_decide as Hs; [done |]. apply Hn. intros i x v out (Hx & Ho).
      apply (Hnone i x v out). split; [| done]. by rewrite Hat, decide_False. }
  destruct (clear_loop _ id (pair_loop r1) r1 [] Hwf1) as [(new & Hnew & Hadv) Hrest].
  destruct (foldl _ _ _) as [r2 n2]. simpl in Hnew, Hadv, Hrest. subst n2.
  assert (wf nobody r2) as Hwf2.
  { apply (wf_cleared (fun _ q => q = id)); [by apply (adv_legal _ _ _ Hadv) |].
    intros s i pr q Hpr Hq ->. destruct (Hrest _ _ _ Hpr Hq) as [Hno Hold].
    apply Hno. by eapply pair_loop_spec. }
  destruct (screen_assign_available_spec nobody env r2 Hwf2) as (Hadv3 & Hserved & _).
  destruct (assign_available_locked env r2) as [r3 n3]. cbn [fst snd] in *.
  split_and!.
  - apply (legal_wf _ _ _ (adv_legal _ _ _ Hadv3)).
  - eapply evolves_trans; [exact Hev1 |].
    eapply evolves_trans; [apply (legal_evolves _ _ _ (adv_legal _ _ _ Hadv)) |].
    apply (legal_evolves _ _ _ (adv_legal _ _ _ Hadv3)).
  - apply eq_None_not_Some. rewrite (same_peers_is_Some _ _ id (legal_same _ _ _ (adv_legal _ _ _ Hadv3))).
    rewrite (same_peers_is_Some r1 _ id (legal_same _ _ _ (adv_legal _ _ _ Hadv))).
    rewrite Hgone. by intros [x Hx].
  - done.
  - intros Hu. by apply (adv_mids _ _ _ Hadv3), (adv_mids _ _ _ Hadv), Hmids1.
  - intros f Hu Hf. rewrite foldl_app. apply (adv_view _ _ _ Hadv3); [by apply (adv_mids _ _ _ Hadv), Hmids1 |].
    apply (adv_view _ _ _ Hadv); [by apply Hmids1 | by apply Hview1].
Qed.
End Leaving.

(** ** Collecting and routing *)

Section Operations.
Context `{Platform} `{IterationOrder} {Media : Type} `{MediaApi Media, !SlotMedia Media}.

Lemma screen_collect_targets_spec r p kind t :
  t ∈ collect_targets_locked r p kind <->
  exists s i pr out, pair_at r s i = Some pr /\ publisher pr = Some p
    /\ channel (is_video kind) pr = Some out /\ ready out = true
    /\ t = mkTarget (out_track out) (out_ssrc out) (out_rewriter out) (out_generation out).
Proof.
  unfold collect_targets_locked. rewrite list_elem_of_bind. split.
  - intros ([s i] & Hin & _). simpl in Hin.
    destruct (pair_at r s i) as [pr |] eqn:E; [| by apply elem_of_nil in Hin].
    case_decide; [| by apply elem_of_nil in Hin]. rewrite output_of_channel in Hin.
    destruct (channel _ pr) as [out |] eqn:Ec; [| by apply elem_of_nil in Hin].
    destruct (ready out) eqn:Er; [| by apply elem_of_nil in Hin].
    apply list_elem_of_singleton in Hin. by exists s, i, pr, out.
  - intros (s & i & pr & out & Hs & Hp & Hc & Hr & ->). exists (s, i). split; [| by eapply pair_loop_spec].
    simpl. rewrite Hs, decide_True, output_of_channel, Hc, Hr by done. by apply list_elem_of_singleton.
Qed.

Lemma screen_collected_fresh r p kind mid_id outgoing :
  wf nobody r ->
  Forall (job_fresh r p) (jobs_of (collect_targets_locked r p kind) mid_id outgoing).
Proof.
  intros Hwf. apply Forall_forall. intros j Hj. unfold jobs_of in Hj.
  apply list_elem_of_bind in Hj as (pkt & Hj & _).
  apply list_elem_of_fmap in Hj as (t & -> & Ht).
  apply screen_collect_targets_spec in Ht as (s & i & pr & out & Hs & Hp & Hc & Hr & ->). split; simpl.
  - destruct (wf_bound _ _ Hwf _ _ _ _ (is_video kind) Hs Hp) as (out' & Hc' & _ & Hg). congruence.
  - intros o (s' & i' & x & v & c & Hx & Hcx & Hrw & <-).
    destruct (wf_unshared _ _ Hwf _ _ _ _ _ _ _ _ _ _ Hx Hcx Hs Hc Hrw) as (-> & -> & _). congruence.
Qed.

Definition routed_jobs (routed : Routed) : list Job :=
  jobs_of (routed_targets routed) (routed_mid routed) (routed_packets routed).

(** Routing changes nothing but fault, link and queue states and counters. *)
Definition core (peer : PeerState) :=
  (input (input_video peer), outputs peer, send_binding peer, streaming peer, watched_publishers peer).

Definition same_core (r r' : Router) : Prop :=
  rewriters r' = rewriters r /\ forall p, core <$> peers r' !! p = core <$> peers r !! p.

Lemma same_core_at r r' s i : same_core r r' -> pair_at r' s i = pair_at r s i.
Proof.
  intros [_ Hp]. specialize (Hp s). unfold pair_at, core in *.
  destruct (peers r !! s), (peers r' !! s); simpl in *; congruence.
Qed.

Lemma same_core_lookup r r' p peer :
  same_core r r' -> peers r !! p = Some peer -> exists peer', peers r' !! p = Some peer' /\ core peer' = core peer.
Proof.
  intros [_ Hc] Hp. specialize (Hc p). rewrite Hp in Hc. destruct (peers r' !! p) as [peer' |]; [| done].
  exists peer'. split; [done |]. by apply (inj Some) in Hc.
Qed.

Lemma same_core_sym r r' : same_core r r' -> same_core r' r.
Proof. intros [Hh Hp]. split; [done |]. intros p. by rewrite Hp. Qed.

Lemma same_core_progress cond r r' : wf nobody r -> same_core r r' -> progress cond nobody r (r', []).
Proof.
  intros Hwf Hsame. apply (progress_same_pairs cond nobody); [done | intros; by apply same_core_at | | |].
  - by rewrite (proj1 Hsame).
  - intros s i pr p Hpr Hp. left.
    destruct (wf_entitled _ _ Hwf _ _ _ _ Hpr Hp) as [(sub & source & Hs & Hq & Hst & Hw) | []].
    destruct (same_core_lookup _ _ _ _ Hsame Hs) as (sub' & Hs' & Esub).
    destruct (same_core_lookup _ _ _ _ Hsame Hq) as (source' & Hq' & Esource).
    unfold core in *. exists sub', source'. split_and!; [done | done | congruence |].
    by replace (watched_publishers sub') with (watched_publishers sub) by congruence.
  - intros s peer Hp. destruct (same_core_lookup _ _ _ _ (same_core_sym _ _ Hsame) Hp) as (old & Hold & E).
    unfold core in E. destruct (wf_sender _ _ Hwf _ _ Hold) as [| [? ?]]; [left | right]; try split; congruence.
Qed.

Lemma same_core_update r r' p f :
  rewriters r' = rewriters r -> peers r' = alter f p (peers r) ->
  (forall peer, peers r !! p = Some peer -> core (f peer) = core peer) -> same_core r r'.
Proof.
  intros Hh Hp Hf. split; [done |]. intros q. rewrite Hp. destruct (decide (p = q)) as [-> | Hne].
  - rewrite lookup_alter_eq. destruct (peers r !! q) as [peer |]; simpl; [| done]. by rewrite Hf.
  - by rewrite lookup_alter_ne.
Qed.

Lemma with_source_core kind peer source :
  input source = input (source_of kind peer) -> core (with_source kind peer source) = core peer.
Proof. unfold with_source, source_of, core, pick. destruct (is_video kind); simpl; congruence. Qed.

Lemma count_in_same kind r : same_core r (count_in kind r).
Proof. by split. Qed.

Lemma screen_route_locked_spec env now r p kind expected pkt r' routed :
  route_locked env now r p kind expected pkt = Some (r', routed) ->
  same_core r r'
  /\ (routed_jobs routed = [] \/ routed_targets routed = collect_targets_locked r' p kind).
Proof.
  unfold route_locked. intros Hr.
  destruct (closed r); [injection Hr as <- <-; by split; [| left] |].
  destruct (peers r !! p) as [peer |] eqn:Hpeer; [| injection Hr as <- <-; by split; [| left]].
  destruct (is_source env kind peer expected); simpl in Hr;
    [| injection Hr as <- <-; by split; [| left]].
  destruct (negb _ && _); [injection Hr as <- <-; split; [by destruct (IsRtcp pkt) | by left] |].
  destruct (apply_rtp_faults _ _ _ _) as [packets fault].
  apply bind_Some in Hr as (s1 & _ & Hr). apply bind_Some in Hr as (s2 & _ & Hr).
  injection Hr as <- <-. split.
  - eapply same_core_update; [by destruct (IsRtcp pkt) | simpl; by destruct (IsRtcp pkt) |].
    intros q Hq. apply with_source_core. simpl. congruence.
  - unfold routed_jobs. simpl. destruct (immediate s2); [by left | by right].
Qed.

Lemma screen_forward_locked_spec env r item r' routed :
  forward_locked env r item = (r', routed) ->
  same_core r r'
  /\ (routed_jobs routed = []
      \/ routed_targets routed = collect_targets_locked r' (delayed_publisher item) (delayed_kind item)).
Proof.
  unfold forward_locked. intros Hr.
  destruct (closed r); [injection Hr as <- <-; by split; [| left] |].
  destruct (peers r !! _) as [peer |] eqn:Hpeer; [| injection Hr as <- <-; by split; [| left]].
  destruct (is_source env _ peer _); simpl in Hr; injection Hr as <- <-; [| by split; [| left]].
  split; [| by right]. eapply same_core_update; [done.. |].
  intros q Hq. apply with_source_core. simpl. congruence.
Qed.

Lemma screen_routed_fresh r' p kind routed :
  wf nobody r' ->
  routed_jobs routed = [] \/ routed_targets routed = collect_targets_locked r' p kind ->
  Forall (job_fresh r' p) (routed_jobs routed).
Proof.
  intros Hwf [-> | E]; [done |]. unfold routed_jobs. rewrite E. by apply screen_collected_fresh.
Qed.

(** ** Publishing *)

Definition hear_effect (f : view) (e : Effect Media) : view :=
  match e with SendBinding to m o => tell f to m o | _ => f end.

Definition quiet (effects : list (Effect Media)) : Prop :=
  forall f, foldl hear_effect f effects = f.

Definition with_keyframes (r : Router) (k : Z) : Router :=
  with_counters r (video_counters r) (audio_counters r) k.

Lemma request_keyframe_spec env r w :
  exists k, (request_keyframe (Media := Media) env r w).1 = with_keyframes r k
    /\ quiet (request_keyframe env r w).2.
Proof.
  unfold request_keyframe. assert (r = with_keyframes r (keyframe_requests r)) as E by by destruct r.
  destruct (lock env w); [| by eexists]. destruct (negb _); [by eexists |].
  destruct (keyframe_ok env _); by eexists.
Qed.

Lemma publish_one_spec (env : Env Media) r n :
  exists k, (publish_one env r n).1 = with_keyframes r k
    /\ forall f, foldl hear_effect f (publish_one env r n).2 = hear f n.
Proof.
  unfold publish_one, hear.
  assert (r = with_keyframes r (keyframe_requests r)) as E by by destruct r.
  assert (forall (hs : list (Effect Media)) f, quiet hs ->
    foldl hear_effect f (hs ++ match notice_send n with
      | Some to => [SendBinding to (notice_mid n) (notice_publisher n)] | None => [] end)
    = match notice_send n with Some to => tell f to (notice_mid n) (notice_publisher n) | None => f end) as Hsend.
  { intros hs f Hq. rewrite foldl_app, Hq. by destruct (notice_send n). }
  destruct (lock env (notice_output n)) as [output |]; [| eexists; split; [exact E |]; intros f; by apply Hsend].
  destruct (notice_publisher n) as [p |] eqn:Ep; [| eexists; split; [exact E |]; intros f; by apply Hsend].
  destruct (is_video (notice_kind n)); [| eexists; split; [exact E |]; intros f; by apply Hsend].
  destruct (request_keyframe_spec env r (notice_video n)) as (k & Hk & Hq).
  destruct (request_keyframe env r (notice_video n)) as [r1 keyframe]. simpl in *.
  exists k. split; [done |]. intros f. by apply Hsend.
Qed.

Lemma publish_spec (env : Env Media) notices : forall r,
  exists k, (publish env r notices).1 = with_keyframes r k
    /\ forall f, foldl hear_effect f (publish env r notices).2 = foldl hear f notices.
Proof.
  induction notices as [| n notices IH]; intros r; cbn [publish].
  { exists (keyframe_requests r). by destruct r. }
  destruct (publish_one_spec env r n) as (k & Hk & Hone). destruct (publish_one env r n) as [r1 effs].
  simpl in Hk. subst r1. destruct (IH (with_keyframes r k)) as (k2 & Hk2 & Hrest).
  destruct (publish env (with_keyframes r k) notices) as [r2 more]. simpl in *. subst r2.
  exists k2. split; [done |]. intros f. by rewrite foldl_app, Hone, Hrest.
Qed.

(** What an operation that ends in [publish] guarantees. *)
Record outcome (cond : Prop) (r : Router) (acc : Router * list (Effect Media)) : Prop := {
  outcome_wf : wf nobody acc.1;
  outcome_evolves : evolves r acc.1;
  outcome_mids : cond -> mids_unique r -> mids_unique acc.1;
  outcome_view f :
    cond -> mids_unique r -> view_ok f r -> view_ok (foldl hear_effect f acc.2) acc.1;
}.

Lemma outcome_publish cond (env : Env Media) r r1 n effs :
  progress cond nobody r (r1, n) -> quiet effs ->
  let '(r2, published) := publish env r1 n in outcome cond r (r2, effs ++ published).
Proof.
  intros [Hwf Hev Hm Hv] Hq. destruct (publish_spec env n r1) as (k & Hk & Hp).
  destruct (publish env r1 n) as [r2 published]. simpl in *. subst r2.
  assert (same_core r1 (with_keyframes r1 k)) as Hsame by by split.
  destruct (same_core_progress cond _ _ Hwf Hsame) as [Hwf2 Hev2 Hm2 Hv2]. simpl in *.
  split; simpl; [done | by eapply evolves_trans | auto |].
  intros f Hc Hu Hf. rewrite foldl_app, Hq, Hp. apply Hv2; auto.
Qed.

Lemma screen_outcome_quiet cond r effs : wf nobody r -> quiet effs -> outcome cond r (r, effs).
Proof.
  intros Hwf Hq. split; simpl; [done | apply evolves_refl, (wf_fit _ _ Hwf) | done |].
  intros f _ _ Hf. by rewrite Hq.
Qed.

Lemma served_keyframes env r k s : served env r s -> served env (with_keyframes r k) s.
Proof. done. Qed.

Lemma publish_served (env : Env Media) r n :
  (forall s, served env r s) -> forall s, served env (publish env r n).1 s.
Proof. intros Hs s. destruct (publish_spec env n r) as (k & -> & _). apply Hs. Qed.

(** ** Registration *)

Lemma screen_set_input_progress cond env kind r owner track mid_id :
  wf nobody r -> progress cond nobody r ((set_input env kind r owner track mid_id (Some owner)).1, []).
Proof.
  intros Hwf. unfold set_input. cbv zeta.
  match goal with |- context [alter ?f owner _] => set (g := f) end.
  change (progress cond nobody r (entered r owner g, [])).
  assert (forall peer, outputs (g peer) = outputs peer /\ send_binding (g peer) = Some owner
    /\ streaming (g peer) = streaming peer /\ watched_publishers (g peer) = watched_publishers peer) as Hg by done.
  apply screen_entered_progress; [done | apply Hg | left; apply Hg |].
  intros s p He. left. apply entered_entitled; [apply Hg | | done].
  intros peer q. by destruct (Hg peer) as (_ & _ & _ & ->).
Qed.

Lemma screen_register_input_outcome cond (env : Env Media) r owner track :
  wf nobody r ->
  let acc := register_input env r owner track (Some owner) in
  outcome cond r acc /\ (closed r = false -> forall s, served env acc.1 s).
Proof.
  intros Hwf. unfold register_input. set (kind := media_type track).
  set (effs := _ ++ (if is_video kind then _ else _)).
  assert (quiet effs) as Hq by (unfold effs; by destruct (is_video kind)).
  destruct (closed r); [by split; [apply screen_outcome_quiet |] |].
  set (m := mid_extension_id _).
  pose proof (screen_set_input_progress cond env kind r owner (track_id track) m Hwf) as Hset.
  destruct (set_input _ _ _ _ _ _ _) as [r1 source_changed]. simpl in Hset.
  pose proof (progress_wf _ _ _ _ Hset) as Hwf1. simpl in Hwf1.
  assert (progress cond nobody r1 (if source_changed then restart_sources kind r1 owner else (r1, []))) as Hre.
  { destruct source_changed; apply screen_advances_progress; [by apply screen_restart_sources_advances |].
    by apply screen_advances_refl. }
  destruct (if source_changed then _ else _) as [r2 n2].
  pose proof (progress_wf _ _ _ _ Hre) as Hwf2. simpl in Hwf2.
  destruct (screen_assign_available_spec nobody env r2 Hwf2) as (Hadv & Hserved & _).
  apply (screen_advances_progress cond) in Hadv.
  destruct (assign_available_locked env r2) as [r3 n3]. simpl in Hserved.
  assert (progress cond nobody r (r3, n2 ++ n3)) as Hall.
  { apply (screen_progress_nil _ _ _ _ _ _ Hset), (screen_progress_app _ _ _ _ _ _ _ _ Hre Hadv). }
  pose proof (outcome_publish cond env r r3 (n2 ++ n3) effs Hall Hq) as Hout.
  pose proof (publish_served env r3 (n2 ++ n3) Hserved) as Hs.
  destruct (publish env r3 (n2 ++ n3)) as [r4 published]. done.
Qed.

Lemma ready_output_served env r owner kind m track :
  wf nobody r -> closed r = false -> is_Some (peers r !! owner) ->
  forall s, served env (ready_output env r owner kind m track).1 s.
Proof.
  intros Hwf Hc [peer Hp]. unfold ready_output. rewrite Hc, Hp.
  pose proof (set_ready_progress True env r owner kind m track Hwf) as Hr.
  by destruct (screen_assign_available_spec nobody env _ (progress_wf _ _ _ _ Hr)) as (_ & Hs & _).
Qed.

Lemma screen_register_output_outcome (env : Env Media) next_ssrc r owner track :
  wf nobody r ->
  let '(r', _, effs) := register_output env next_ssrc r owner track (Some owner) in
  outcome (mid_free r owner (media_type track) (mid track)) r (r', effs).
Proof.
  intros Hwf. unfold register_output. destruct (allocate_slot_ssrc next_ssrc) as [ssrc next].
  destruct (closed r); [by apply screen_outcome_quiet |].
  pose proof (screen_place_output_progress next r owner (media_type track) (mid track) ssrc (track_id track) Hwf) as Hplace.
  destruct (place_output _ _ _ _ _ _ _ _) as [[[r1 next1] n1] name].
  set (cond := mid_free _ _ _ _) in *.
  pose proof (ready_output_progress cond env r1 owner (media_type track) (mid track) (track_id track)
    (progress_wf _ _ _ _ Hplace)) as Hready.
  destruct (ready_output _ _ _ _ _ _) as [r2 n2].
  pose proof (screen_progress_app _ _ _ _ _ _ _ _ Hplace Hready) as Hall.
  set (effs := [_; _]).
  pose proof (outcome_publish cond env r r2 (n1 ++ n2) effs Hall ltac:(done)) as Hout.
  by destruct (publish env r2 (n1 ++ n2)) as [r3 published].
Qed.

(** The mids of a peer stay distinct when this track is registered. *)
Definition track_fits (r : Router) (owner : PeerId) (track : option (Track Media)) : Prop :=
  match track with
  | Some track => direction track = SendOnly -> mid_free r owner (media_type track) (mid track)
  | None => True
  end.

Lemma outcome_weaken (cond cond' : Prop) r acc : (cond' -> cond) -> outcome cond r acc -> outcome cond' r acc.
Proof. intros Hc []. split; auto. Qed.

Lemma screen_register_track_outcome (env : Env Media) next_ssrc r owner track :
  wf nobody r ->
  let '(r', _, effs) := register_track env next_ssrc r owner track (Some owner) in
  outcome (track_fits r owner track) r (r', effs).
Proof.
  intros Hwf. unfold register_track. destruct track as [track |]; [| by apply screen_outcome_quiet].
  destruct (_ && _); [by apply screen_outcome_quiet |].
  destruct (direction track) eqn:Ed; [| | by apply screen_outcome_quiet].
  - destruct (screen_register_input_outcome (track_fits r owner (Some track)) env r owner track Hwf) as [Ho _].
    by destruct (register_input _ _ _ _ _).
  - pose proof (screen_register_output_outcome env next_ssrc r owner track Hwf) as Ho.
    destruct (register_output _ _ _ _ _ _) as [[r' n] effs].
    eapply outcome_weaken; [| exact Ho]. unfold track_fits. auto.
Qed.

Lemma set_streaming_outcome cond (env : Env Media) r id on :
  wf nobody r -> outcome cond r (set_streaming env r id on).
Proof.
  intros Hwf. unfold set_streaming. destruct (closed r); [by apply screen_outcome_quiet |].
  destruct (set_streaming_progress cond env r id on Hwf) as [Hp _].
  destruct (set_streaming_locked env r id on) as [r1 n].
  pose proof (outcome_publish cond env r r1 n [] Hp ltac:(done)) as Ho. by destruct (publish env r1 n).
Qed.

Lemma set_watching_outcome cond (env : Env Media) r id p on :
  wf nobody r -> outcome cond r (set_watching env r id p on).
Proof.
  intros Hwf. unfold set_watching. destruct (String.eqb id p); [by apply screen_outcome_quiet |].
  destruct (closed r); [by apply screen_outcome_quiet |].
  destruct (set_watching_progress cond env r id p on Hwf) as [Hp _].
  destruct (set_watching_locked env r id p on) as [r1 n].
  pose proof (outcome_publish cond env r r1 n [] Hp ltac:(done)) as Ho. by destruct (publish env r1 n).
Qed.

Lemma remove_peer_outcome (env : Env Media) r id :
  wf nobody r -> closed r = false ->
  let acc := remove_peer env r id in
  wf nobody acc.1 /\ evolves r acc.1 /\ peers acc.1 !! id = None
  /\ (forall s, served env acc.1 s)
  /\ (mids_unique r -> mids_unique acc.1)
  /\ forall f, mids_unique r -> view_ok f r -> view_ok (foldl hear_effect (forget f id) acc.2) acc.1.
Proof.
  intros Hwf Hc. unfold remove_peer. rewrite Hc.
  destruct (remove_peer_spec env r id Hwf) as (Hwf1 & Hev & Hgone & Hserved & Hmids & Hview).
  destruct (remove_peer_locked env r id) as [r1 n]. simpl in Hwf1, Hev, Hgone, Hserved, Hmids, Hview.
  destruct (publish_spec env n r1) as (k & Hk & Hhear).
  destruct (publish env r1 n) as [r2 effs]. simpl in *. subst r2.
  assert (same_core r1 (with_keyframes r1 k)) as Hsame by by split.
  destruct (same_core_progress True _ _ Hwf1 Hsame) as [Hwf2 Hev2 Hm2 Hv2]. simpl in *.
  split_and!; [done | by eapply evolves_trans | done | done | auto |].
  intros f Hu Hf. rewrite Hhear. apply Hv2; auto.
Qed.

(** ** All operations *)

(** One critical section each: [register_output] has two. *)
Inductive Op : Type :=
  | RegisterInput (env : Env Media) (owner : PeerId) (track : Track Media)
  | PlaceOutput (next_ssrc : Z) (owner : PeerId) (kind m : string) (ssrc : Z) (track : TrackId)
  | ReadyOutput (env : Tracks) (owner : PeerId) (kind m : string) (track : TrackId)
  | SetStreaming (env : Env Media) (id : PeerId) (on : bool)
  | SetWatching (env : Env Media) (id publisher_id : PeerId) (watching : bool)
  | RoutePacket (env : Tracks) (now : Z * Z) (p : PeerId) (kind : string) (expected : WeakTrack) (pkt : bytes)
  | TimerFires (now : Z)
  | ForwardDelayed (env : Tracks) (item : DelayedPacket)
  | RemovePeer (env : Env Media) (id : PeerId)
  | RequestKeyframeOf (env : Tracks) (publisher_video : WeakTrack)
  | Close (env : Tracks)
  | UpdateFaultConfig (config : RtpFaultConfig).

Definition exec (r : Router) (op : Op) : option (Router * list (PeerId * list Job)) :=
  match op with
  | RegisterInput env owner track => Some ((register_input env r owner track (Some owner)).1, [])
  | PlaceOutput next_ssrc owner kind m ssrc track =>
    if closed r then Some (r, [])
    else let '(r, _, _, _) := place_output next_ssrc r owner kind m ssrc track (Some owner) in Some (r, [])
  | ReadyOutput env owner kind m track => Some ((ready_output env r owner kind m track).1, [])
  | SetStreaming env id on => Some ((set_streaming env r id on).1, [])
  | SetWatching env id p on => Some ((set_watching env r id p on).1, [])
  | RoutePacket env now p kind expected pkt =>
    '(r, routed) ← route_locked env now r p kind expected pkt;
    Some (r, [(p, routed_jobs routed)])
  | TimerFires now => Some ((take_due now r).1, [])
  | ForwardDelayed env item =>
    let '(r, routed) := forward_locked env r item in
    Some (r, [(delayed_publisher item, routed_jobs routed)])
  | RemovePeer env id => Some ((remove_peer env r id).1, [])
  | RequestKeyframeOf env w => Some ((request_keyframe (Media := Media) env r w).1, [])
  | Close env => Some ((close (Media := Media) env r).1, [])
  | UpdateFaultConfig config => Some (update_fault_config r config, [])
  end.

Lemma closed_wf r r' : wf nobody r -> peers r' = ∅ -> rewriters r' = rewriters r -> wf nobody r' /\ evolves r r'.
Proof.
  intros Hwf Hp Hh.
  assert (forall s i, pair_at r' s i = None) as Hno
    by (intros s i; unfold pair_at; by rewrite Hp, lookup_empty).
  split.
  - split; try by (intros *; rewrite ?Hno, ?Hp, ?lookup_empty).
    + rewrite Hh. apply (wf_fresh _ _ Hwf).
    + unfold generations_fit. simpl. rewrite Hh. apply (wf_fit _ _ Hwf).
  - apply evolves_same; [apply (wf_fit _ _ Hwf) | simpl; by rewrite Hh |].
    intros id o (s & i & x & v & out & Hx & _). by rewrite Hno in Hx.
Qed.

Lemma screen_exec_progress r op r' new :
  wf nobody r -> exec r op = Some (r', new) ->
  wf nobody r' /\ evolves r r' /\ Forall (fun l => Forall (job_fresh r' l.1) l.2) new.
Proof.
  intros Hwf. assert (evolves r r) as Hrefl by apply evolves_refl, (wf_fit _ _ Hwf).
  destruct op as [env owner track | next owner kind m ssrc track | env owner kind m track | env id on
    | env id p on | env now p kind expected pkt | now | env item | env id | env w | env | cfg];
    simpl; intros He.
  - injection He as <- <-. by destruct (screen_register_input_outcome True env r owner track Hwf) as [[] _].
  - destruct (closed r); [by injection He as <- <- |].
    pose proof (screen_place_output_progress next r owner kind m ssrc track Hwf) as Hp.
    destruct (place_output _ _ _ _ _ _ _ _) as [[[r1 next1] n1] name]. injection He as <- <-. by destruct Hp.
  - injection He as <- <-. by destruct (ready_output_progress True env r owner kind m track Hwf).
  - injection He as <- <-. by destruct (set_streaming_outcome True env r id on Hwf).
  - injection He as <- <-. by destruct (set_watching_outcome True env r id p on Hwf).
  - apply bind_Some in He as ([r1 routed] & Hr & [= <- <-]).
    destruct (screen_route_locked_spec _ _ _ _ _ _ _ _ _ Hr) as [Hsame Hjobs].
    destruct (same_core_progress True _ _ Hwf Hsame) as [Hwf1 Hev _ _]. simpl in *.
    split_and!; [done.. |]. constructor; [| done]. by eapply screen_routed_fresh.
  - injection He as <- <-. unfold take_due. destruct (closed r); [done |].
    destruct (pop_due now (delay_queue r)) as [due q]. simpl.
    destruct (same_core_progress True r (with_delays r (arm_delay_timer (executor r) q (delay_timer r)) q)
      Hwf) as [Hwf1 Hev _ _]; done.
  - destruct (forward_locked env r item) as [r1 routed] eqn:Hr. injection He as <- <-.
    destruct (screen_forward_locked_spec _ _ _ _ _ Hr) as [Hsame Hjobs].
    destruct (same_core_progress True _ _ Hwf Hsame) as [Hwf1 Hev _ _]. simpl in *.
    split_and!; [done.. |]. constructor; [| done]. by eapply screen_routed_fresh.
  - injection He as <- <-. destruct (closed r) eqn:Hc; [unfold remove_peer; by rewrite Hc |].
    by destruct (remove_peer_outcome env r id Hwf Hc) as (? & ? & _).
  - injection He as <- <-. destruct (request_keyframe_spec env r w) as (k & -> & _).
    by destruct (same_core_progress True r (with_keyframes r k) Hwf) as [Hwf1 Hev _ _].
  - injection He as <- <-. unfold close. destruct (closed r); [done |].
    split_and!; [| | done]; by apply (closed_wf r).
  - injection He as <- <-.
    by destruct (same_core_progress True r (update_fault_config r cfg) Hwf) as [Hwf1 Hev _ _].
Qed.

Lemma screen_sound : Sound exec (wf nobody).
Proof.
  split; [intros r; apply wf_fit | | intros; by eapply screen_exec_progress].
  intros r h Hwf Hh. eapply (wf_same_pairs nobody nobody r); try done; [| apply (wf_sender _ _ Hwf)].
  intros s i pr p Hpr Hp. left. by destruct (wf_entitled _ _ Hwf _ _ _ _ Hpr Hp).
Qed.

Lemma screen_new_router_wf config timer_executor : wf nobody (new_router config timer_executor).
Proof.
  split; try done; unfold pair_at, generations_fit, generation_at; simpl; intros *;
    by rewrite lookup_empty.
Qed.

Definition fresh_machine (config : RtpFaultConfig) (timer_executor : bool) : Machine :=
  mkMachine (new_router config timer_executor) [].

Lemma screen_fresh_machine_ok config timer_executor :
  machine_ok (wf nobody) 0 (fresh_machine config timer_executor).
Proof. split; [apply screen_new_router_wf | done]. Qed.

Lemma screen_machine_wf config timer_executor actions m :
  machine_run exec (fresh_machine config timer_executor) actions = Some m -> wf nobody (router m).
Proof.
  intros Hrun. by destruct (machine_ok_run exec _ screen_sound 0 actions _ _
    (screen_fresh_machine_ok config timer_executor) Hrun) as [Hwf _].
Qed.
End Operations.
