(* ===== verification/ScreenFrames.v ===== *)
(** * What the operations of the screen router leave alone

    Only routing and the delay timer touch the delay queue, and only [close]
    closes the router. *)

From S2P Require Import Prelude RtpRewrite RtpSlot SfuMedia Signaling RouterCommon SendLoops.
From S2P Require Import ScreenRouter ScreenInvariant.

Local Open Scope list_scope.

Section Frames.
Context `{Platform} `{IterationOrder} {Media : Type} `{MediaApi Media, !SlotMedia Media}.

Definition delays (r : Router) : bool * bool * list (Z * DelayedPacket) * option Z :=
  (closed r, executor r, delay_queue r, delay_timer r).

Lemma screen_assign_publishers_delays env s ps : forall assigned r n,
  delays (assign_publishers env s ps assigned r n).1 = delays r.
Proof.
  induction ps as [| p ps IH]; intros assigned r n; simpl; [done |].
  destruct (skips _ _ _ _ _); [by apply IH |]. destruct (peers r !! s) as [sub |]; [| done].
  destruct (find_free _ _) as [[i pr] |]; [| done]. unfold bind_pair.
  destruct (begin_output _ _) as [h v]. destruct (begin_output _ _) as [h2 a]. by rewrite IH.
Qed.

Lemma screen_assign_available_delays env r : delays (assign_available_locked env r).1 = delays r.
Proof.
  apply (foldl_inv (fun acc => delays acc.1 = delays r)); [done |].
  intros [r1 n] s E. unfold assign_subscriber. destruct (peers r1 !! s); [| done].
  case_bool_decide; [done |]. by rewrite screen_assign_publishers_delays.
Qed.

Lemma clear_pair_delays r s i n : delays (clear_pair_locked r s i n).1 = delays r.
Proof.
  unfold clear_pair_locked. destruct (peers r !! s); [| done]. destruct (pair_at r s i) as [pr |]; [| done].
  destruct (publisher pr); [| done]. by destruct (end_output _ _), (end_output _ _).
Qed.

Lemma clear_loop_delays p r places n : delays (foldl (clear_bound p) (r, n) places).1 = delays r.
Proof.
  apply (foldl_inv (fun acc => delays acc.1 = delays r)); [done |].
  intros [r1 n1] at_ E. unfold clear_bound. destruct (pair_at r1 _ _); [| done].
  case_decide; [| done]. by rewrite clear_pair_delays.
Qed.

Lemma screen_restart_sources_delays kind r owner : delays (restart_sources kind r owner).1 = delays r.
Proof.
  apply (foldl_inv (fun acc => delays acc.1 = delays r)); [done |].
  intros [r1 n] [s i] E. unfold restart_pair. destruct (peers r1 !! s); [| done].
  destruct (pair_at r1 s i); [| done]. case_decide; [| done]. by destruct (begin_output _ _).
Qed.

Lemma publish_delays (env : Env Media) r n : delays (publish env r n).1 = delays r.
Proof. by destruct (publish_spec env n r) as (k & -> & _). Qed.

Lemma screen_peer_for_locked_delays r id : delays (peer_for_locked r id) = delays r.
Proof. unfold peer_for_locked. by destruct (peers r !! id). Qed.

Lemma register_input_delays (env : Env Media) r owner track send :
  delays (register_input env r owner track send).1 = delays r.
Proof.
  unfold register_input. destruct (closed r); [done |].
  destruct (set_input _ _ _ _ _ _) as [r1 changed] eqn:E1.
  assert (delays r1 = delays r) as H1'.
  { unfold set_input in E1. injection E1 as <- _. apply (screen_peer_for_locked_delays r owner). }
  assert (delays (if changed then restart_sources (media_type track) r1 owner else (r1, [])).1 = delays r)
    as H2 by (destruct changed; [by rewrite screen_restart_sources_delays | done]).
  destruct (if changed then _ else _) as [r2 n2].
  pose proof (screen_assign_available_delays env r2) as H3. destruct (assign_available_locked env r2) as [r3 n3].
  pose proof (publish_delays env r3 (n2 ++ n3)) as H4. destruct (publish env r3 _) as [r4 effs].
  simpl in *. congruence.
Qed.

Lemma place_output_delays next r owner kind m ssrc track send :
  delays (place_output next r owner kind m ssrc track send).1.1.1 = delays r.
Proof.
  unfold place_output.
  set (r1 := with_peers (peer_for_locked r owner) _).
  assert (delays r1 = delays r) as E1 by apply (screen_peer_for_locked_delays r owner).
  destruct (peers r1 !! owner) as [peer |]; [| done].
  destruct (output_pair_for _ _ _ _) as [[i peer'] next'].
  pose proof (clear_pair_delays (with_peers r1 (<[owner := peer']> (peers r1))) owner i []) as E2.
  destruct (clear_pair_locked _ _ _ _) as [r2 n2]. simpl in E2.
  destruct (pair_at r2 owner i); [| simpl; by rewrite E2].
  destruct (make_rewriter _ _ _) as [rw h]. simpl. rewrite <- E1. exact E2.
Qed.

Lemma ready_output_delays env r owner kind m track :
  delays (ready_output env r owner kind m track).1 = delays r.
Proof.
  unfold ready_output. destruct (closed r); [done |]. destruct (peers r !! owner) as [peer |] eqn:Hp; [| done].
  rewrite screen_assign_available_delays. unfold set_ready. rewrite Hp.
  destruct (output_by_mid _ _ _) as [i |]; [| done]. destruct (pair_at r owner i) as [pr |]; [| done].
  destruct (output_of kind pr); [| done]. by case_bool_decide.
Qed.

(** Clearing what must go, then assigning. *)
Lemma settle_delays env r places id (keep : bool) :
  let '(r1, n1) := if keep then (r, []) else foldl (clear_bound id) (r, []) places in
  let '(r2, n2) := assign_available_locked env r1 in delays r2 = delays r.
Proof.
  assert (delays (if keep then (r, []) else foldl (clear_bound id) (r, []) places).1 = delays r) as E1.
  { destruct keep; [done | apply clear_loop_delays]. }
  destruct (if keep then _ else _) as [r1 n1].
  pose proof (screen_assign_available_delays env r1) as E2. destruct (assign_available_locked env r1).
  simpl in *. congruence.
Qed.

Lemma set_streaming_delays (env : Env Media) r id on : delays (set_streaming env r id on).1 = delays r.
Proof.
  unfold set_streaming. destruct (closed r); [done |].
  assert (delays (set_streaming_locked env r id on).1 = delays r) as E.
  { unfold set_streaming_locked. case_bool_decide; [apply screen_peer_for_locked_delays |].
    set (r1 := with_peers _ _). pose proof (settle_delays env r1 (pair_loop r1) id on) as E.
    destruct (if on then _ else _) as [r2 n2]. destruct (assign_available_locked env r2).
    simpl. rewrite E. apply (screen_peer_for_locked_delays r id). }
  destruct (set_streaming_locked env r id on) as [r1 n]. by rewrite publish_delays.
Qed.

Lemma set_watching_delays (env : Env Media) r id p on : delays (set_watching env r id p on).1 = delays r.
Proof.
  unfold set_watching. destruct (String.eqb id p); [done |]. destruct (closed r); [done |].
  assert (delays (set_watching_locked env r id p on).1 = delays r) as E.
  { unfold set_watching_locked. destruct (peers _ !! id) as [peer |]; [| apply screen_peer_for_locked_delays].
    destruct (Bool.eqb _ _); [apply screen_peer_for_locked_delays |].
    set (r1 := with_peers _ _). pose proof (settle_delays env r1 (own_pairs r1 id) p on) as E.
    destruct (if on then (r1, []) else _) as [r2 n2]. destruct (assign_available_locked env r2).
    simpl. rewrite E. apply (screen_peer_for_locked_delays r id). }
  destruct (set_watching_locked env r id p on) as [r1 n]. by rewrite publish_delays.
Qed.

Lemma remove_peer_delays (env : Env Media) r id : delays (remove_peer env r id).1 = delays r.
Proof.
  unfold remove_peer. destruct (closed r); [done |]. unfold remove_peer_locked.
  set (r1 := with_peers _ _). pose proof (settle_delays env r1 (pair_loop r1) id false) as E.
  destruct (foldl _ _ _) as [r2 n2]. destruct (assign_available_locked env r2).
  by rewrite publish_delays, E.
Qed.

Lemma request_keyframe_delays env r w : delays (request_keyframe (Media := Media) env r w).1 = delays r.
Proof. by destruct (request_keyframe_spec (Media := Media) env r w) as (k & -> & _). Qed.

(** ** Who streams and who watches

    The bookkeeping of pairs changes no peer but for its outputs. *)

Lemma same_peers_refl r : same_peers r r.
Proof. done. Qed.

Lemma same_peers_trans r1 r2 r3 : same_peers r1 r2 -> same_peers r2 r3 -> same_peers r1 r3.
Proof. intros H1' H2 p. by rewrite H2, H1'. Qed.

Lemma bind_pair_same r s i pr p : same_peers r (bind_pair r s i pr p).1.
Proof.
  unfold bind_pair. destruct (begin_output _ _) as [h v]. destruct (begin_output _ _) as [h2 a].
  apply set_pair_same_peers.
Qed.

Lemma assign_publishers_same env s ps : forall assigned r n,
  same_peers r (assign_publishers env s ps assigned r n).1.
Proof.
  induction ps as [| p ps IH]; intros assigned r n; simpl; [done |].
  destruct (skips _ _ _ _ _); [by apply IH |]. destruct (peers r !! s) as [sub |]; [| done].
  destruct (find_free _ _) as [[i pr] |]; [| done].
  pose proof (bind_pair_same r s i pr p) as E. destruct (bind_pair r s i pr p) as [r1 pr1].
  eapply same_peers_trans; [exact E | apply IH].
Qed.

Lemma assign_available_same env r : same_peers r (assign_available_locked env r).1.
Proof.
  apply (foldl_inv (fun acc => same_peers r acc.1)); [done |].
  intros [r1 n] s E. unfold assign_subscriber. destruct (peers r1 !! s); [| done].
  case_bool_decide; [done |]. eapply same_peers_trans; [exact E | apply assign_publishers_same].
Qed.

Lemma clear_pair_same r s i n : same_peers r (clear_pair_locked r s i n).1.
Proof.
  unfold clear_pair_locked. destruct (peers r !! s); [| done]. destruct (pair_at r s i) as [pr |]; [| done].
  destruct (publisher pr); [| done]. destruct (end_output _ _), (end_output _ _). apply set_pair_same_peers.
Qed.

Lemma clear_loop_same p r places n : same_peers r (foldl (clear_bound p) (r, n) places).1.
Proof.
  apply (foldl_inv (fun acc => same_peers r acc.1)); [done |].
  intros [r1 n1] at_ E. unfold clear_bound. destruct (pair_at r1 _ _); [| done].
  case_decide; [| done]. eapply same_peers_trans; [exact E | apply clear_pair_same].
Qed.

Lemma restart_sources_same kind r owner : same_peers r (restart_sources kind r owner).1.
Proof.
  apply (foldl_inv (fun acc => same_peers r acc.1)); [done |].
  intros [r1 n] [s i] E. unfold restart_pair. destruct (peers r1 !! s); [| done].
  destruct (pair_at r1 s i); [| done]. case_decide; [| done]. destruct (begin_output _ _).
  eapply same_peers_trans; [exact E | apply set_pair_same_peers].
Qed.

Definition streams (r : Router) (p : PeerId) : bool := default false (streaming <$> peers r !! p).

Definition watches (r : Router) (s : PeerId) : gmap PeerId Z :=
  from_option watched_publishers ∅ (peers r !! s).

Record same_watching (r r' : Router) : Prop := {
  same_streams p : streams r' p = streams r p;
  same_watches s : watches r' s = watches r s;
}.

Lemma same_watching_refl r : same_watching r r.
Proof. done. Qed.

Lemma same_watching_trans r1 r2 r3 : same_watching r1 r2 -> same_watching r2 r3 -> same_watching r1 r3.
Proof. intros [] []. split; congruence. Qed.

Lemma same_peers_watching r r' : same_peers r r' -> same_watching r r'.
Proof.
  intros Hs. split; intros p; specialize (Hs p); unfold streams, watches;
    destruct (peers r !! p), (peers r' !! p); simpl in *; try done; apply (inj Some) in Hs;
    [by apply (f_equal streaming) in Hs | by apply (f_equal watched_publishers) in Hs].
Qed.

Lemma publish_watching (env : Env Media) r n : same_watching r (publish env r n).1.
Proof. by destruct (publish_spec env n r) as (k & -> & _). Qed.

Lemma peer_for_locked_watching r id : same_watching r (peer_for_locked r id).
Proof.
  split; intros p; unfold streams, watches; rewrite screen_peer_for_locked_lookup;
    case_decide; subst; destruct (peers r !! id); done.
Qed.

(** Changing the other fields of a peer. *)
Lemma alter_watching r f id :
  (forall peer, streaming (f peer) = streaming peer /\ watched_publishers (f peer) = watched_publishers peer) ->
  same_watching r (with_peers r (alter f id (peers r))).
Proof.
  intros Hf. split; intros p; unfold streams, watches; simpl;
    (destruct (decide (id = p)) as [-> |]; [rewrite lookup_alter_eq | by rewrite lookup_alter_ne]);
    destruct (peers r !! p) as [peer |]; simpl; try done; apply Hf.
Qed.

Lemma register_input_watching (env : Env Media) r owner track send :
  same_watching r (register_input env r owner track send).1.
Proof.
  unfold register_input. destruct (closed r); [done |].
  destruct (set_input _ _ _ _ _ _) as [r1 changed] eqn:E1.
  assert (same_watching r r1) as W1.
  { unfold set_input in E1. injection E1 as <- _.
    eapply same_watching_trans; [apply (peer_for_locked_watching r owner) |].
    apply (alter_watching (peer_for_locked r owner)). done. }
  assert (same_peers r1 (if changed then restart_sources (media_type track) r1 owner else (r1, [])).1)
    as S2 by (destruct changed; [apply restart_sources_same | done]).
  destruct (if changed then _ else _) as [r2 n2].
  pose proof (assign_available_same env r2) as S3. destruct (assign_available_locked env r2) as [r3 n3].
  pose proof (publish_watching env r3 (n2 ++ n3)) as W4. destruct (publish env r3 _) as [r4 effs].
  simpl in *. apply (same_watching_trans _ _ _ W1).
  eapply same_watching_trans; [| exact W4].
  by apply same_peers_watching, (same_peers_trans _ r2).
Qed.

Lemma outputs_watching r owner peer peer' :
  peers r !! owner = Some peer -> streaming peer' = streaming peer ->
  watched_publishers peer' = watched_publishers peer ->
  same_watching r (with_peers r (<[owner := peer']> (peers r))).
Proof.
  intros Hp Hs Hw. split; intros p; unfold streams, watches; simpl;
    (destruct (decide (owner = p)) as [-> |]; [rewrite lookup_insert_eq, Hp | by rewrite lookup_insert_ne]);
    done.
Qed.

Lemma place_output_watching next r owner kind m ssrc track send :
  same_watching r (place_output next r owner kind m ssrc track send).1.1.1.
Proof.
  unfold place_output. set (r1 := with_peers (peer_for_locked r owner) _).
  assert (same_watching r r1) as W1.
  { eapply same_watching_trans; [apply (peer_for_locked_watching r owner) |].
    by apply (alter_watching (peer_for_locked r owner)). }
  destruct (peers r1 !! owner) as [peer |] eqn:Hp; [| done].
  destruct (output_pair_for next peer m kind) as [[i peer'] next'] eqn:Ef.
  assert (streaming peer' = streaming peer /\ watched_publishers peer' = watched_publishers peer) as [Hs Hw].
  { unfold output_pair_for in Ef. destruct (list_find _ _) as [[j ?] |]; [by injection Ef as _ <- _ |].
    destruct (list_find _ _) as [[j ?] |]; [by injection Ef as _ <- _ |].
    destruct (allocate_slot_ssrc next). by injection Ef as _ <- _. }
  pose proof (outputs_watching r1 owner peer peer' Hp Hs Hw) as W2.
  set (r2 := with_peers r1 _) in *.
  pose proof (clear_pair_same r2 owner i []) as S3. destruct (clear_pair_locked r2 owner i []) as [r3 n3].
  apply same_peers_watching in S3. simpl in S3.
  assert (same_watching r r3) as W by (eapply same_watching_trans; [exact W1 |]; by eapply same_watching_trans).
  destruct (pair_at r3 owner i) as [pr |]; [| done].
  destruct (make_rewriter _ _ _) as [rw h]. simpl. eapply same_watching_trans; [exact W |].
  apply same_peers_watching, set_pair_same_peers.
Qed.

Lemma ready_output_watching env r owner kind m track :
  same_watching r (ready_output env r owner kind m track).1.
Proof.
  unfold ready_output. destruct (closed r); [done |]. destruct (peers r !! owner) as [peer |] eqn:Hp; [| done].
  eapply same_watching_trans; [| apply same_peers_watching, assign_available_same].
  unfold set_ready. rewrite Hp. destruct (output_by_mid _ _ _) as [i |]; [| done].
  destruct (pair_at r owner i) as [pr |]; [| done]. destruct (output_of kind pr); [| done].
  case_bool_decide; [| done]. apply same_peers_watching.
  change (set_pair r owner i) with (set_pair (with_heap r (rewriters r)) owner i).
  apply (set_pair_same_peers r (rewriters r)).
Qed.

Lemma screen_register_track_watching (env : Env Media) next r owner track send :
  same_watching r (register_track env next r owner track send).1.1.
Proof.
  unfold register_track. destruct track as [track |]; [| done]. destruct (_ && _); [done |].
  destruct (direction track); [| | done].
  - pose proof (register_input_watching env r owner track send) as W.
    by destruct (register_input _ _ _ _ _).
  - unfold register_output. destruct (allocate_slot_ssrc next) as [ssrc next1].
    destruct (closed r); [done |].
    pose proof (place_output_watching next1 r owner (media_type track) (mid track) ssrc (track_id track) send) as W1.
    destruct (place_output _ _ _ _ _ _ _ _) as [[[r1 next2] n1] name].
    pose proof (ready_output_watching env r1 owner (media_type track) (mid track) (track_id track)) as W2.
    destruct (ready_output _ _ _ _ _ _) as [r2 n2].
    pose proof (publish_watching env r2 (n1 ++ n2)) as W3. destruct (publish env r2 _) as [r3 effs].
    simpl in *. eapply same_watching_trans; [exact W1 |]. by eapply same_watching_trans.
Qed.

Lemma screen_register_track_delays (env : Env Media) next r owner track send :
  delays (register_track env next r owner track send).1.1 = delays r.
Proof.
  unfold register_track. destruct track as [track |]; [| done]. destruct (_ && _); [done |].
  destruct (direction track); [| | done].
  - pose proof (register_input_delays env r owner track send) as W.
    by destruct (register_input _ _ _ _ _).
  - unfold register_output. destruct (allocate_slot_ssrc next) as [ssrc next1].
    destruct (closed r); [done |].
    pose proof (place_output_delays next1 r owner (media_type track) (mid track) ssrc (track_id track) send) as W1.
    destruct (place_output _ _ _ _ _ _ _ _) as [[[r1 next2] n1] name].
    pose proof (ready_output_delays env r1 owner (media_type track) (mid track) (track_id track)) as W2.
    destruct (ready_output _ _ _ _ _ _) as [r2 n2].
    pose proof (publish_delays env r2 (n1 ++ n2)) as W3. destruct (publish env r2 _) as [r3 effs].
    simpl in *. congruence.
Qed.

(** Clearing, assigning, publishing. *)
Lemma settle_watching (env : Env Media) r id places (keep : bool) :
  let '(r1, n1) := if keep then (r, []) else foldl (clear_bound id) (r, []) places in
  let '(r2, n2) := assign_available_locked env r1 in same_watching r (publish env r2 (n1 ++ n2)).1.
Proof.
  assert (same_peers r (if keep then (r, []) else foldl (clear_bound id) (r, []) places).1) as S1
    by (destruct keep; [done | apply clear_loop_same]).
  destruct (if keep then _ else _) as [r1 n1].
  pose proof (assign_available_same env r1) as S2. destruct (assign_available_locked env r1) as [r2 n2].
  eapply same_watching_trans; [| apply publish_watching].
  by apply same_peers_watching, (same_peers_trans _ r1).
Qed.

Lemma set_streaming_watching (env : Env Media) r id on :
  closed r = false ->
  let r' := (set_streaming env r id on).1 in
  (forall p, streams r' p = if decide (p = id) then on else streams r p)
  /\ forall s, watches r' s = watches r s.
Proof.
  intros Hc. unfold set_streaming. rewrite Hc. unfold set_streaming_locked.
  set (r0 := peer_for_locked r id). pose proof (peer_for_locked_watching r id) as W0.
  change (peer_for_locked r id) with r0 in W0. case_bool_decide as Hon.
  - pose proof (same_watching_trans _ _ _ W0 (publish_watching env r0 [])) as [Hs Hw].
    split; [| done]. intros p. rewrite Hs. case_decide as Hp; [subst | done].
    rewrite <- (same_streams _ _ W0). unfold streams. by rewrite Hon.
  - set (r1 := with_peers r0 _). pose proof (settle_watching env r1 id (pair_loop r1) on) as W.
    destruct (if on then (r1, []) else _) as [r2 n2]. destruct (assign_available_locked env r2) as [r3 n3].
    destruct W as [Hs Hw].
    assert (is_Some (peers r0 !! id)) as [peer Hpeer]
      by (unfold r0; rewrite screen_peer_for_locked_lookup, decide_True by done; by eexists).
    split.
    + intros p. rewrite Hs. case_decide as Hp.
      * subst. unfold streams, r1. simpl. by rewrite lookup_alter_eq, Hpeer.
      * rewrite <- (same_streams _ _ W0). unfold streams, r1. simpl. by rewrite lookup_alter_ne.
    + intros s. rewrite Hw, <- (same_watches _ _ W0). unfold watches, r1. simpl.
      destruct (decide (id = s)) as [<- | Hne]; [by rewrite lookup_alter_eq, Hpeer | by rewrite lookup_alter_ne].
Qed.

Lemma set_watching_watching (env : Env Media) r id p on :
  closed r = false -> id <> p ->
  let r' := (set_watching env r id p on).1 in
  (forall q, streams r' q = streams r q)
  /\ forall s q, is_Some (watches r' s !! q)
       <-> if decide (s = id /\ q = p) then on = true else is_Some (watches r s !! q).
Proof.
  intros Hc Hne. unfold set_watching. rewrite Hc. destruct (String.eqb_spec id p) as [| _]; [done |].
  unfold set_watching_locked. set (r0 := peer_for_locked r id).
  pose proof (peer_for_locked_watching r id) as W0. change (peer_for_locked r id) with r0 in W0.
  assert (peers r0 !! id = Some (default (new_peer (next_peer_order r)) (peers r !! id))) as Hpeer
    by (unfold r0; by rewrite screen_peer_for_locked_lookup, decide_True).
  rewrite Hpeer. set (peer := default _ _) in *.
  assert (watches r0 id = watched_publishers peer) as Hwp by (unfold watches; by rewrite Hpeer).
  destruct (Bool.eqb_spec on (bool_decide (is_Some (watched_publishers peer !! p)))) as [Heq | _].
  - pose proof (same_watching_trans _ _ _ W0 (publish_watching env r0 [])) as [Hs Hw].
    split; [done |]. intros s q. rewrite Hw. case_decide as Hd; [destruct Hd as [-> ->] | done].
    rewrite <- (same_watches _ _ W0), Hwp, Heq, bool_decide_eq_true. done.
  - set (peer' := if on then with_watched _ _ _ else _). set (r1 := with_peers r0 _).
    pose proof (settle_watching env r1 p (own_pairs r1 id) on) as W.
    destruct (if on then (r1, []) else _) as [r2 n2]. destruct (assign_available_locked env r2) as [r3 n3].
    destruct W as [Hs Hw]. split.
    + intros q. rewrite Hs, <- (same_streams _ _ W0). unfold streams, r1. simpl.
      destruct (decide (id = q)) as [<- | Hq]; [rewrite lookup_insert_eq, Hpeer | by rewrite lookup_insert_ne].
      unfold peer'. by destruct on.
    + intros s q. rewrite Hw, <- (same_watches _ _ W0). unfold r1. unfold watches at 1. simpl.
      destruct (decide (id = s)) as [<- | Hs'].
      * rewrite lookup_insert_eq. simpl. rewrite Hwp. unfold peer'.
        destruct (decide (q = p)) as [-> | Hq].
        -- rewrite decide_True by done.
           destruct on; simpl; [rewrite lookup_insert_eq | rewrite lookup_delete_eq]; split; done.
        -- rewrite decide_False by naive_solver.
           destruct on; simpl; [by rewrite lookup_insert_ne | by rewrite lookup_delete_ne].
      * rewrite lookup_insert_ne by done. rewrite decide_False by naive_solver. done.
Qed.

Lemma remove_peer_watching (env : Env Media) r id :
  closed r = false ->
  let r' := (remove_peer env r id).1 in
  (forall p, streams r' p = if decide (p = id) then false else streams r p)
  /\ forall s q, is_Some (watches r' s !! q) <-> s <> id /\ q <> id /\ is_Some (watches r s !! q).
Proof.
  intros Hc. unfold remove_peer. rewrite Hc. unfold remove_peer_locked.
  set (r1 := with_peers (with_peers r _) _).
  pose proof (settle_watching env r1 id (pair_loop r1) false) as W.
  destruct (foldl _ _ _) as [r2 n2]. destruct (assign_available_locked env r2) as [r3 n3].
  destruct W as [Hs Hw].
  assert (forall p, peers r1 !! p = if decide (p = id) then None else unwatch id <$> peers r !! p) as Hp.
  { intros p. unfold r1. simpl. rewrite lookup_fmap. case_decide.
    - subst. by rewrite lookup_delete_eq.
    - by rewrite lookup_delete_ne. }
  split.
  - intros p. rewrite Hs. unfold streams. rewrite Hp. case_decide; [done |]. by destruct (peers r !! p).
  - intros s q. rewrite Hw. unfold watches. rewrite Hp. destruct (decide (s = id)) as [-> | Hne]; simpl.
    + rewrite lookup_empty. split; [by intros [] | naive_solver].
    + destruct (peers r !! s) as [peer |]; simpl.
      * rewrite lookup_delete_is_Some. naive_solver.
      * rewrite lookup_empty. naive_solver.
Qed.
End Frames.
