(* ===== verification/ScreenProperties.v ===== *)
(** * What the screen router guarantees

    The properties of screen_router.cpp, over every sequence of operations and
    every interleaving of the send loops with them. *)

From S2P Require Import Prelude Text RtpRewrite RtpSlot SfuMedia Signaling RouterCommon SendLoops Delays.
From S2P Require Import Samples ScreenRouter ScreenInvariant ScreenFrames.

Local Open Scope list_scope.

Section Properties.
Context `{Platform} `{IterationOrder} {Media : Type} `{MediaApi Media, !SlotMedia Media}.

(** C20 Pair invariant: in every state the router can reach, with sends of
    earlier packets interleaved at will, no rewriter is shared between outputs,
    a bound pair has both its outputs ready at the current generation of their
    rewriters, nobody watches herself or the same publisher twice, a bound
    publisher streams and is watched by the subscriber, and whoever has outputs
    is told of its bindings. *)
Theorem screen_invariant config timer_executor actions m :
  machine_run exec (fresh_machine config timer_executor) actions = Some m ->
  wf nobody (router m).
Proof. apply screen_machine_wf. Qed.

(** C2 Consent: whatever is sent to an output came from the publisher its pair
    is bound to at that moment, who is not the subscriber, is still streaming,
    and is still watched by the subscriber.  The targets may have been collected
    any number of operations ago: once the stream was stopped or the watch was
    dropped the output refuses the packet. *)
Theorem screen_consent config timer_executor actions m i env m' x sub j pr v out :
  machine_run exec (fresh_machine config timer_executor) actions = Some m ->
  (switches (rewriters (router m)) < 2 ^ 64)%Z ->
  machine_step exec m (SendNext i env) = Some (m', [x]) ->
  pair_at (router m) sub j = Some pr -> channel v pr = Some out ->
  out_rewriter out = target_rewriter (via x) ->
  publisher pr = Some (from x) /\ from x <> sub /\ entitled (router m) sub (from x).
Proof.
  intros Hrun Hsw Hstep Hpr Hout Hrw.
  pose proof (machine_ok_run exec _ screen_sound 0 actions _ _
    (screen_fresh_machine_ok config timer_executor) Hrun) as Hok.
  assert (publisher pr = Some (from x)) as Hpub.
  { eapply (send_isolated exec _ 0 m i env m' x); [exact Hok | simpl; lia | done |].
    by exists sub, j, pr, v, out. }
  split; [done |]. split; [by apply (wf_self _ _ (proj1 Hok) _ _ _ _ Hpr) |].
  by destruct (wf_entitled _ _ (proj1 Hok) _ _ _ _ Hpr Hpub).
Qed.

(** C18 Nobody is left out: after an input was registered, an output became
    ready, a stream or a watch changed, or a peer left, every subscriber sees
    each streaming publisher with a live video input that it watches, unless
    its complete pairs are all taken. *)
Theorem screen_served (env : Env Media) r :
  wf nobody r -> closed r = false ->
  (forall owner track s, served env (register_input env r owner track (Some owner)).1 s)
  /\ (forall owner kind m track s, is_Some (peers r !! owner) ->
        served env (ready_output env r owner kind m track).1 s)
  /\ (forall id on s, streaming_changes r id on -> served env (set_streaming env r id on).1 s)
  /\ (forall id p on s, id <> p -> watching_changes r id p on ->
        served env (set_watching env r id p on).1 s)
  /\ (forall id s, served env (remove_peer env r id).1 s).
Proof.
  intros Hwf Hc. split_and!.
  - intros owner track. by apply (screen_register_input_outcome True env r owner track Hwf).
  - intros owner kind m track s Hp. by apply ready_output_served.
  - intros id on s Hch. unfold set_streaming. rewrite Hc.
    destruct (set_streaming_progress True env r id on Hwf) as [_ Hs].
    destruct (set_streaming_locked env r id on) as [r1 n]. apply publish_served. by apply Hs.
  - intros id p on s Hne Hch. unfold set_watching. rewrite Hc.
    destruct (String.eqb_spec id p) as [-> | _]; [done |].
    destruct (set_watching_progress True env r id p on Hwf) as [_ Hs].
    destruct (set_watching_locked env r id p on) as [r1 n]. apply publish_served. by apply Hs.
  - intros id. by apply remove_peer_outcome.
Qed.

(** C19 Truthful announcements: a client that applies every screen binding it
    is sent knows, for each of its mids, exactly the publisher of the pair;
    registering a track whose mid is free, starting and stopping streams and
    watches, and removing any peer keep it so, and keep the mids distinct. *)
Theorem screen_announcements (env : Env Media) next_ssrc r owner track id p on f :
  wf nobody r -> closed r = false -> mids_unique r -> view_ok f r ->
  (let '(r', _, effects) := register_track env next_ssrc r owner track (Some owner) in
   track_fits r owner track -> mids_unique r' /\ view_ok (foldl hear_effect f effects) r')
  /\ (let '(r', effects) := set_streaming env r id on in
      mids_unique r' /\ view_ok (foldl hear_effect f effects) r')
  /\ (let '(r', effects) := set_watching env r id p on in
      mids_unique r' /\ view_ok (foldl hear_effect f effects) r')
  /\ (let '(r', effects) := remove_peer env r id in
      mids_unique r' /\ view_ok (foldl hear_effect (forget f id) effects) r'
      /\ peers r' !! id = None).
Proof.
  intros Hwf Hc Hm Hf. split_and!.
  - pose proof (screen_register_track_outcome env next_ssrc r owner track Hwf) as Ho.
    destruct (register_track _ _ _ _ _ _) as [[r' n] effs]. intros Hfits.
    split; [by apply (outcome_mids _ _ _ Ho) | by apply (outcome_view _ _ _ Ho)].
  - pose proof (set_streaming_outcome True env r id on Hwf) as Ho.
    destruct (set_streaming _ _ _ _) as [r' effs].
    split; [by apply (outcome_mids _ _ _ Ho) | by apply (outcome_view _ _ _ Ho)].
  - pose proof (set_watching_outcome True env r id p on Hwf) as Ho.
    destruct (set_watching _ _ _ _ _) as [r' effs].
    split; [by apply (outcome_mids _ _ _ Ho) | by apply (outcome_view _ _ _ Ho)].
  - destruct (remove_peer_outcome env r id Hwf Hc) as (_ & _ & Hgone & _ & Hmids & Hview).
    destruct (remove_peer _ _ _) as [r' effs]. split_and!; [by apply Hmids | by apply Hview | done].
Qed.

(** ** The unimpaired path *)

Lemma screen_peer_loop_NoDup r : NoDup (peer_loop r).
Proof. unfold peer_loop. rewrite iterate_perm. apply NoDup_fst_map_to_list. Qed.

Lemma pair_loop_NoDup r : NoDup (pair_loop r).
Proof.
  unfold pair_loop. generalize (screen_peer_loop_NoDup r). generalize (peer_loop r).
  induction 1 as [| s l Hnin _ IH]; [constructor |]. rewrite bind_cons.
  apply NoDup_app. split_and!; [| | done].
  - apply NoDup_fmap_2; [by intros i j [= ->] | apply NoDup_seq].
  - intros x Hx Hrest. apply list_elem_of_fmap in Hx as (i & -> & _).
    apply list_elem_of_bind in Hrest as (s' & Hx & Hs').
    apply list_elem_of_fmap in Hx as (j & [= -> ->] & _). done.
Qed.

Lemma screen_targets_distinct r p kind :
  wf nobody r -> NoDup (target_rewriter <$> collect_targets_locked r p kind).
Proof.
  intros Hwf. unfold collect_targets_locked.
  set (choose := fun at_ : PeerId * nat => _).
  assert (forall at_, choose at_ = [] \/ exists pr out t, pair_at r at_.1 at_.2 = Some pr
            /\ channel (is_video kind) pr = Some out /\ choose at_ = [t]
            /\ target_rewriter t = out_rewriter out) as Hchoose.
  { intros [s i]. unfold choose. simpl. destruct (pair_at r s i) as [pr |]; [| by left].
    case_decide; [| by left]. rewrite output_of_channel.
    destruct (channel _ pr) as [out |] eqn:Ec; [| by left]. destruct (ready out); [right | by left].
    eexists pr, out, _. done. }
  generalize (pair_loop_NoDup r). generalize (pair_loop r).
  induction 1 as [| at_ l Hnin _ IH]; [constructor |]. rewrite bind_cons, fmap_app.
  apply NoDup_app. split_and!; [| | done].
  - destruct (Hchoose at_) as [-> | (_ & _ & t & _ & _ & -> & _)]; [constructor | apply NoDup_singleton].
  - intros rw Hrw Hrest. apply list_elem_of_fmap in Hrest as (t' & Heq & Ht').
    apply list_elem_of_bind in Ht' as (at' & Ht' & Hin).
    destruct (Hchoose at_) as [E | (a & oa & t & Ha & Hoa & E & Hra)]; rewrite E in Hrw;
      [by apply elem_of_nil in Hrw |]. apply list_elem_of_singleton in Hrw.
    destruct (Hchoose at') as [E' | (b & ob & t'' & Hb & Hob & E' & Hrb)]; rewrite E' in Ht';
      [by apply elem_of_nil in Ht' |]. apply list_elem_of_singleton in Ht'. subst t''.
    destruct (wf_unshared _ _ Hwf _ _ _ _ _ _ _ _ _ _ Ha Hoa Hb Hob) as (Es & Ei & _); [congruence |].
    apply Hnin. destruct at_, at'. simpl in *. congruence.
Qed.

Lemma screen_route_locked_unimpaired env now r p kind expected pkt source :
  closed r = false -> unimpaired (fault_config r) ->
  peers r !! p = Some source -> is_source env kind source expected = true ->
  exists r' tapped,
    route_locked env now r p kind expected pkt
    = Some (r', mkRouted (collect_targets_locked r' p kind)
                  (mid_extension (source_of kind source)) [pkt] tapped)
    /\ same_core r r'.
Proof.
  intros Hc (Hdrop & Hreorder & Hburst & Hlink & Hdown) Hp Hsrc.
  unfold route_locked. rewrite Hc, Hp, Hsrc.
  cbn [negb]. set (r1 := if IsRtcp pkt then r else count_in kind r).
  assert (fault_config r1 = fault_config r /\ peers r1 = peers r /\ rewriters r1 = rewriters r)
    as (Ef & Ep & Eh) by (unfold r1; by destruct (IsRtcp pkt)).
  rewrite Ef, Hdown, andb_false_r. unfold apply_rtp_faults.
  rewrite Hdrop, Hreorder, Hburst, Ep, orb_true_r.
  unfold schedule_faulted. rewrite Hlink, orb_true_r.
  cbn [mbind option_bind immediate sched_link sched_queue sched_timer first second tapped app].
  set (r2 := with_delays _ _ _).
  exists r2, (if packet_tap (fault_config r) then [pkt] else []). split; [done |].
  eapply (same_core_update r r2 p); [done | done |].
  intros q Hq. apply with_source_core. simpl. congruence.
Qed.

(** Delivery: on an unimpaired router a packet of the current input of a
    streaming publisher always gets through, and reaches exactly the live, open
    tracks of that medium in the pairs bound to the publisher whose rewriter
    accepts it, each with its own rewritten copy. *)
Theorem screen_delivery env now r p kind expected pkt source :
  wf nobody r -> closed r = false -> unimpaired (fault_config r) ->
  peers r !! p = Some source -> streaming source = true ->
  lock env (input (source_of kind source)) = lock env expected ->
  exists r' sent, route env now r p kind expected pkt = Some (r', sent)
    /\ forall t bytes, (t, bytes) ∈ sent <-> exists s i pr out,
          pair_at r s i = Some pr /\ publisher pr = Some p
          /\ output_of kind pr = Some out /\ ready out = true
          /\ out_track out = Some t /\ alive env t = true /\ is_open env t = true
          /\ send_ok env t bytes = true
          /\ exists rw rw', cells (rewriters r) !! out_rewriter out = Some rw
             /\ rewrite IsRtcp rw pkt (out_generation out) (out_ssrc out)
                  (mid_extension (source_of kind source)) = Some (rw', true, bytes).
Proof.
  intros Hwf Hc Hun Hp Hst Hin. unfold route.
  assert (is_source env kind source expected = true) as Hsrc
    by (unfold is_source; by rewrite bool_decide_true, Hst).
  destruct (screen_route_locked_unimpaired env now r p kind expected pkt source Hc Hun Hp Hsrc)
    as (r1 & tapped & -> & Hsame).
  cbn [mbind option_bind routed_targets routed_mid routed_packets].
  unfold send_packets, RouterCommon.send_packets.
  set (targets := collect_targets_locked r1 p kind). set (m := mid_extension _).
  assert (jobs_of targets m [pkt] = (fun t => mkJob t m pkt) <$> targets) as ->.
  { unfold jobs_of. rewrite bind_cons. apply app_nil_r. }
  pose proof (progress_wf _ _ _ _ (same_core_progress True _ _ Hwf Hsame)) as Hwf1. simpl in Hwf1.
  destruct (run_jobs_spec env ((fun t => mkJob t m pkt) <$> targets) (rewriters r1))
    as (h & sent & Hrun & _). rewrite Hrun. cbn [mbind option_bind].
  do 2 eexists. split; [done |]. intros t b.
  assert (NoDup (target_rewriter ∘ job_target <$> ((fun t => mkJob t m pkt) <$> targets))) as Hnd.
  { rewrite <- list_fmap_compose. apply (screen_targets_distinct r1 p kind Hwf1). }
  rewrite (run_jobs_distinct _ _ _ _ _ Hnd Hrun). split.
  - intros (j & h1 & outs & Hj & Hone). apply list_elem_of_fmap in Hj as (tg & -> & Ht).
    apply screen_collect_targets_spec in Ht as (s & i & pr & out & Hs & Hpub & Hout & Hr & ->).
    rewrite (same_core_at _ _ _ _ Hsame) in Hs. exists s, i, pr, out.
    do 4 (split; [done |]). rewrite <- (proj1 Hsame).
    apply (send_one_sent env (rewriters r1) m pkt (mkTarget (out_track out) (out_ssrc out)
      (out_rewriter out) (out_generation out)) t b). eauto.
  - intros (s & i & pr & out & Hs & Hpub & Hout & Hr & Hsend). rewrite <- (proj1 Hsame) in Hsend.
    apply (send_one_sent env (rewriters r1) m pkt (mkTarget (out_track out) (out_ssrc out)
      (out_rewriter out) (out_generation out)) t b) in Hsend as (h1 & outs & Hone & Hx).
    eexists (mkJob _ m pkt), h1, outs. split; [| done]. apply list_elem_of_fmap.
    eexists. split; [done |]. apply screen_collect_targets_spec. exists s, i, pr, out.
    by rewrite (same_core_at _ _ _ _ Hsame).
Qed.

(** ** The delay timer *)

Definition delays_ok (r : Router) : Prop := queue_ok (executor r) (delay_queue r) (delay_timer r).

Lemma screen_delays_ok_same r r' : delays r' = delays r -> delays_ok r -> delays_ok r'.
Proof. unfold delays, delays_ok. by intros [= _ -> -> ->]. Qed.

Lemma screen_route_locked_delays env now r p kind expected pkt r' routed :
  route_locked env now r p kind expected pkt = Some (r', routed) -> delays_ok r -> delays_ok r'.
Proof.
  unfold route_locked. intros Hr Hok. destruct (closed r); [by injection Hr as <- _ |].
  destruct (peers r !! p) as [source |]; [| by injection Hr as <- _].
  destruct (negb (is_source _ _ _ _)); [by injection Hr as <- _ |].
  set (r1 := if IsRtcp pkt then r else count_in kind r) in *.
  assert (delays r1 = delays r) as Hr1 by (unfold r1; by destruct (IsRtcp pkt)).
  apply (screen_delays_ok_same _ _ Hr1) in Hok.
  destruct (negb _ && _); [by injection Hr as <- _ |].
  destruct (apply_rtp_faults _ _ _ _) as [packets fault].
  apply bind_Some in Hr as (s1 & Hs1 & Hr). apply bind_Some in Hr as (s2 & Hs2 & Hr).
  injection Hr as <- _. apply schedule_faulted_queue in Hs1; [| exact Hok].
  by apply schedule_faulted_queue in Hs2.
Qed.

Lemma screen_exec_delays r op r' new : exec r op = Some (r', new) -> delays_ok r -> delays_ok r'.
Proof.
  destruct op as [env owner track | next owner kind m ssrc track | env owner kind m track | env id on
    | env id p on | env now p kind expected pkt | now | env item | env id | env w | env | cfg];
    simpl; intros He Hok.
  - injection He as <- _. by apply (screen_delays_ok_same r); [apply register_input_delays |].
  - destruct (closed r); [by injection He as <- _ |].
    pose proof (place_output_delays next r owner kind m ssrc track (Some owner)) as E.
    destruct (place_output _ _ _ _ _ _ _ _) as [[[r1 next1] n1] name]. injection He as <- _.
    by apply (screen_delays_ok_same _ _ E).
  - injection He as <- _. by apply (screen_delays_ok_same r); [apply ready_output_delays |].
  - injection He as <- _. by apply (screen_delays_ok_same r); [apply set_streaming_delays |].
  - injection He as <- _. by apply (screen_delays_ok_same r); [apply set_watching_delays |].
  - apply bind_Some in He as ([r1 routed] & Hr & [= <- _]). by eapply screen_route_locked_delays.
  - injection He as <- _. unfold take_due. destruct (closed r); [done |].
    destruct (pop_due now (delay_queue r)) as [due q] eqn:E. simpl.
    pose proof (pop_due_queue _ now _ _ Hok) as Hq. by rewrite E in Hq.
  - destruct (forward_locked env r item) as [r1 routed] eqn:Hr. injection He as <- _.
    unfold forward_locked in Hr. destruct (closed r); [by injection Hr as <- _ |].
    destruct (peers r !! _); [| by injection Hr as <- _].
    destruct (negb _); by injection Hr as <- _.
  - injection He as <- _. by apply (screen_delays_ok_same r); [apply remove_peer_delays |].
  - injection He as <- _. by apply (screen_delays_ok_same r); [apply request_keyframe_delays |].
  - injection He as <- _. unfold close. destruct (closed r); [done |].
    split; [constructor |]. simpl. by destruct (executor r).
  - by injection He as <- _.
Qed.

(** No frame is stranded in the delay queue: in every reachable state the
    queue is ordered by departure and the timer waits for its first packet (and
    no timer runs when it is empty); when it fires, exactly the packets due by
    then are handed out, in departure order, and the timer waits for the next
    one. *)
Theorem screen_timer config timer_executor actions m now :
  machine_run exec (fresh_machine config timer_executor) actions = Some m ->
  delays_ok (router m)
  /\ (closed (router m) = false ->
      let q := delay_queue (router m) in
      let '(r', due) := take_due now (router m) in
      due = (filter (fun x => x.1 <= now)%Z q).*2
      /\ delay_queue r' = filter (fun x => now < x.1)%Z q /\ delays_ok r').
Proof.
  intros Hrun.
  assert (delays_ok (router m)) as Hok.
  { eapply (machine_keeps exec delays_ok); [by intros; eapply screen_exec_delays | done | | exact Hrun].
    split; [constructor |]. simpl. by destruct timer_executor. }
  split; [done |]. intros Hc. unfold take_due. rewrite Hc.
  pose proof (pop_due_queue _ now _ _ Hok) as Hq. rewrite pop_due_spec in * by apply Hok. done.
Qed.
End Properties.

(** ** Witnesses: "a" streams, "b" watches *)

(** A decidable form of [mids_unique]. *)
Definition clash (a b : option OutputTrack) : bool :=
  match a, b with Some a, Some b => String.eqb (out_mid a) (out_mid b) | _, _ => false end.

Definition places (pairs : list OutputPair) : list (nat * bool) :=
  i ← seq 0 (length pairs); [(i, true); (i, false)].

Definition channel_at (pairs : list OutputPair) (x : nat * bool) : option OutputTrack :=
  pr ← pairs !! x.1; channel x.2 pr.

Definition distinct_mids (pairs : list OutputPair) : bool :=
  forallb (fun x => forallb (fun y =>
    bool_decide (x = y) || negb (clash (channel_at pairs x) (channel_at pairs y)))
    (places pairs)) (places pairs).

Lemma distinct_mids_unique (r : Router) :
  map_Forall (fun _ peer => distinct_mids (outputs peer) = true) (peers r) -> mids_unique r.
Proof.
  intros Hall s m i pr v a j pr' v' b (Hx & Ha & Hma) (Hy & Hb & Hmb).
  apply pair_at_peer in Hx as (sub & Hs & Hi). apply pair_at_peer in Hy as (sub' & Hs' & Hj).
  assert (sub' = sub) as -> by congruence.
  specialize (Hall _ _ Hs). simpl in Hall.
  assert (forall k w c, outputs sub !! k = Some c -> (k, w) ∈ places (outputs sub)) as Hin.
  { intros k w c Hk. apply list_elem_of_bind. exists k. split; [destruct w; set_solver |].
    apply elem_of_seq. apply lookup_lt_Some in Hk. lia. }
  unfold distinct_mids in Hall. rewrite forallb_forall in Hall.
  specialize (Hall (i, v) ltac:(apply list_elem_of_In; by eapply Hin)).
  rewrite forallb_forall in Hall.
  specialize (Hall (j, v') ltac:(apply list_elem_of_In; by eapply Hin)).
  unfold channel_at in Hall. cbn [fst snd] in Hall. rewrite Hi, Hj in Hall. simpl in Hall.
  rewrite Ha, Hb in Hall. simpl in Hall. rewrite Hma, Hmb, String.eqb_refl, orb_false_r in Hall.
  apply bool_decide_eq_true in Hall. by injection Hall as -> ->.
Qed.

(** What the clients know when everything was announced. *)
Definition has_mid_of (m : string) (pr : OutputPair) : bool :=
  match video pr with Some out => String.eqb (out_mid out) m | None => false end
  || match audio pr with Some out => String.eqb (out_mid out) m | None => false end.

Definition told (r : Router) : view := fun s m =>
  match list_find (fun pr => has_mid_of m pr = true) (from_option outputs [] (peers r !! s)) with
  | Some (_, pr) => publisher pr
  | None => None
  end.

Lemma has_mid_of_true m pr :
  has_mid_of m pr = true <-> exists v out, channel v pr = Some out /\ out_mid out = m.
Proof.
  unfold has_mid_of. rewrite orb_true_iff. split.
  - intros [E | E]; [exists true | exists false]; simpl;
      [destruct (video pr) as [out |] | destruct (audio pr) as [out |]]; try done;
      exists out; split; [done | by apply String.eqb_eq | done | by apply String.eqb_eq].
  - intros ([|] & out & E & <-); simpl in E; rewrite E; [left | right]; apply String.eqb_refl.
Qed.

Lemma screen_told_ok (r : Router) : mids_unique r -> view_ok (told r) r.
Proof.
  intros Hu. unfold told. split.
  - intros s m i pr v out (Hpr & Hout & Hm).
    pose proof (pair_at_peer _ _ _ _ Hpr) as (sub & Hs & Hi). rewrite Hs. simpl.
    destruct (list_find _ _) as [[j x] |] eqn:E.
    + apply list_find_Some in E as (Hj & Hx & _). apply has_mid_of_true in Hx as (w & o & Ho & Hmo).
      destruct (Hu s m i pr v out j x w o) as [-> _]; [done | | congruence].
      split; [| done]. unfold pair_at. rewrite Hs. exact Hj.
    + apply list_find_None in E. rewrite Forall_forall in E.
      destruct (E pr); [by eapply list_elem_of_lookup_2 | apply has_mid_of_true; eauto].
  - intros s m Hnone. destruct (list_find _ _) as [[j x] |] eqn:E; [| done].
    apply list_find_Some in E as (Hj & Hx & _). apply has_mid_of_true in Hx as (w & o & Ho & Hmo).
    destruct (Hnone j x w o). split; [| done]. unfold pair_at. by destruct (peers r !! s).
Qed.

Definition sample_actions : list (action (Op := Op (Media := SampleMedia))) :=
  [Operate (RegisterInput sample_env "a"%string (sample_track 0 RecvOnly "video" "0"));
   Operate (RegisterInput sample_env "a"%string (sample_track 1 RecvOnly "audio" "1"));
   Operate (PlaceOutput 1 "b"%string "video" "2" 7 2);
   Operate (ReadyOutput sample_tracks "b"%string "video" "2" 2);
   Operate (PlaceOutput 2 "b"%string "audio" "3" 8 3);
   Operate (ReadyOutput sample_tracks "b"%string "audio" "3" 3);
   Operate (SetWatching sample_env "b"%string "a"%string true);
   Operate (SetStreaming sample_env "a"%string true);
   Operate (RoutePacket sample_tracks (0, 0)%Z "a"%string "video" (Some 0) sample_packet)].

Definition sample_machine_with (faults : RtpFaultConfig) (timer : bool) : Machine :=
  default (fresh_machine faults timer) (machine_run exec (fresh_machine faults timer) sample_actions).

Definition sample_machine : Machine := sample_machine_with no_faults false.

Definition sample_pair : OutputPair := default (mkPair "" None None None)
  (pair_at (router sample_machine) "b"%string 0).

Definition sample_output : OutputTrack := default (mkOutput "" 0 None false 0 0) (video sample_pair).

Lemma screen_invariant_witness : wf nobody (router sample_machine).
Proof. apply (screen_invariant no_faults false sample_actions). vm_compute. reflexivity. Defined.

Lemma screen_consent_witness :
  exists m' x,
    machine_step exec sample_machine (SendNext 0 sample_tracks) = Some (m', [x])
    /\ from x = "a"%string /\ from x <> "b"%string /\ entitled (router sample_machine) "b"%string (from x).
Proof.
  eexists _, _. split; [vm_compute; reflexivity |]. split; [reflexivity |].
  eapply (screen_consent no_faults false sample_actions sample_machine 0 sample_tracks _ _
    "b"%string 0 sample_pair true sample_output); vm_compute; reflexivity.
Defined.

Lemma screen_sample_machine_wf : wf nobody (router sample_machine).
Proof. apply (screen_machine_wf no_faults false sample_actions). vm_compute. reflexivity. Qed.

(** When an unknown peer leaves, "b" still sees "a". *)
Lemma screen_served_witness :
  let r' := (remove_peer sample_env (router sample_machine) "c"%string).1 in
  hears r' "b"%string "a"%string \/ no_free_pair sample_tracks r' "b"%string.
Proof.
  destruct (screen_served sample_env (router sample_machine)) as (_ & _ & _ & _ & H).
  - apply screen_sample_machine_wf.
  - vm_compute. reflexivity.
  - apply H. split; [done |]. eexists _, _. split_and!; try (vm_compute; reflexivity).
    eexists. vm_compute. reflexivity.
Defined.

Lemma sample_mids : mids_unique (router sample_machine).
Proof. apply distinct_mids_unique, (bool_decide_eq_true_1 _). vm_compute. reflexivity. Qed.

(** "b" knows it sees "a", and is told when "a" stops. *)
Lemma screen_announcements_witness :
  let f := told (router sample_machine) in
  let '(r', effects) := set_streaming sample_env (router sample_machine) "a"%string false in
  f "b"%string "2"%string = Some "a"%string
  /\ foldl hear_effect f effects "b"%string "2"%string = None.
Proof.
  destruct (screen_announcements sample_env 1 (router sample_machine) "a"%string None "a"%string
    "a"%string false (told (router sample_machine))) as (_ & H & _).
  - apply screen_sample_machine_wf.
  - vm_compute. reflexivity.
  - apply sample_mids.
  - apply screen_told_ok, sample_mids.
  - destruct (set_streaming _ _ _ _) as [r' effects] eqn:E. destruct H as [_ [Hv _]].
    split; [vm_compute; reflexivity |].
    assert (r' = (set_streaming sample_env (router sample_machine) "a"%string false).1) as -> by by rewrite E.
    rewrite (Hv "b"%string "2"%string 0 _ true _ ltac:(split_and!; vm_compute; reflexivity)).
    vm_compute. reflexivity.
Defined.

Lemma screen_delivery_witness :
  exists r' sent, route sample_tracks (0, 0)%Z (router sample_machine) "a"%string "video" (Some 0)
                    sample_packet = Some (r', sent).
Proof.
  edestruct (screen_delivery sample_tracks (0, 0)%Z (router sample_machine) "a"%string "video" (Some 0)
    sample_packet) as (r' & sent & E & _).
  - apply screen_sample_machine_wf.
  - vm_compute. reflexivity.
  - vm_compute. by split_and!.
  - vm_compute. reflexivity.
  - vm_compute. reflexivity.
  - vm_compute. reflexivity.
  - exists r', sent. exact E.
Defined.

(** A slow link: the packet waits. *)
Definition slow_faults : RtpFaultConfig :=
  {| drop_every_nth := 0; reorder_every_nth := 0; burst := no_loss; link := sample_link 1;
     link_down := false; packet_tap := false |}.

Lemma screen_timer_witness :
  let m := sample_machine_with slow_faults true in
  delays_ok (router m) /\ length (take_due 272000 (router m)).2 = 1.
Proof.
  destruct (screen_timer slow_faults true sample_actions (sample_machine_with slow_faults true) 272000)
    as [Hok Hdue].
  - vm_compute. reflexivity.
  - split; [exact Hok |]. specialize (Hdue ltac:(vm_compute; reflexivity)).
    destruct (take_due 272000 (router (sample_machine_with slow_faults true))) as [r' due].
    destruct Hdue as [-> _]. vm_compute. reflexivity.
Defined.
