(* ===== verification/WriteQueue.v ===== *)
(** * The write path of a session (core/src/utils/bounded_queue.hpp, ws_server.cpp)

    Messages for a client are queued by any thread and written one at a time:
    the message being written stays at the front of the queue until its write
    completed.  [Writer] is the part of [Session] this needs; what the executor
    and the socket still owe (posted calls of [do_write], writes in progress) is
    explicit, and [step] lets any of it happen at any moment. *)

From S2P Require Import Prelude.

(** ** BoundedQueue *)

Inductive QueuePushResult := Accepted | DroppedFull | Closed.

Record BoundedQueue (T : Type) := mkQueue { capacity : nat; queue_closed : bool; items : list T }.
Arguments mkQueue {T}.
Arguments capacity {T}.
Arguments queue_closed {T}.
Arguments items {T}.

Section Queue.
Context {T : Type}.

Definition new_queue (n : nat) : BoundedQueue T := mkQueue n false [].

Definition push_back (v : T) (q : BoundedQueue T) : BoundedQueue T * QueuePushResult :=
  if queue_closed q then (q, Closed)
  else if decide (capacity q <= length (items q)) then (q, DroppedFull)
  else (mkQueue (capacity q) (queue_closed q) (items q ++ [v]), Accepted).

Definition front (q : BoundedQueue T) : option T := head (items q).

(** Undefined on an empty queue; [on_write] tests before. *)
Definition pop_front (q : BoundedQueue T) : BoundedQueue T :=
  mkQueue (capacity q) (queue_closed q) (tail (items q)).

Definition empty (q : BoundedQueue T) : bool := match items q with [] => true | _ => false end.

Definition size (q : BoundedQueue T) : nat := length (items q).

Definition close_queue (q : BoundedQueue T) : BoundedQueue T := mkQueue (capacity q) true (items q).
End Queue.

Definition kMaxWriteQueueSize : nat := 128.

(** ** Session *)

Section Writer.
Context {T : Type}.

(** [posted]: calls of [do_write] handed to the executor; [writing]: payloads of
    the [async_write]s in progress; [session_closed]: [closed_].  The last three
    are ghosts: what was accepted, what was written, and whether a write failed. *)
Record Writer := mkWriter {
  write_queue : BoundedQueue T;
  posted : nat;
  writing : list T;
  session_closed : bool;
  accepted : list T;
  written : list T;
  broken : bool;
}.

Definition new_writer (n : nat) : Writer := mkWriter (new_queue n) 0 [] false [] [] false.

Definition enqueue (msg : T) (w : Writer) : Writer * QueuePushResult :=
  let '(q, pushed) := push_back msg (write_queue w) in
  match pushed with
  | DroppedFull | Closed => (w, pushed)
  | Accepted =>
    (mkWriter q (if Nat.eqb (size q) 1 then S (posted w) else posted w) (writing w)
       (session_closed w) (accepted w ++ [msg]) (written w) (broken w), pushed)
  end.

Definition do_write (w : Writer) : Writer :=
  match front (write_queue w) with
  | None => w
  | Some msg =>
    mkWriter (write_queue w) (posted w) (writing w ++ [msg]) (session_closed w) (accepted w)
      (written w) (broken w)
  end.

(** [on_close], as far as writing is concerned. *)
Definition on_close (w : Writer) : Writer :=
  if session_closed w then w
  else mkWriter (close_queue (write_queue w)) (posted w) (writing w) true (accepted w) (written w)
         (broken w).

(** [on_write] for the write of [msg]; [writing] no longer holds it. *)
Definition on_write (ok : bool) (msg : T) (w : Writer) : Writer :=
  if ok then
    let q := if empty (write_queue w) then write_queue w else pop_front (write_queue w) in
    let w := mkWriter q (posted w) (writing w) (session_closed w) (accepted w)
               (written w ++ [msg]) (broken w) in
    if empty q then w else do_write w
  else
    on_close (mkWriter (write_queue w) (posted w) (writing w) (session_closed w) (accepted w)
                (written w) true).

(** The executor runs a posted [do_write]. *)
Definition run_posted (w : Writer) : Writer :=
  do_write (mkWriter (write_queue w) (pred (posted w)) (writing w) (session_closed w) (accepted w)
              (written w) (broken w)).

(** The write that was started as number [i] of those in progress completes. *)
Definition complete (ok : bool) (i : nat) (msg : T) (w : Writer) : Writer :=
  on_write ok msg (mkWriter (write_queue w) (posted w) (delete i (writing w)) (session_closed w)
                     (accepted w) (written w) (broken w)).

(** Steps the executor owes, and steps of the outside world. *)
Inductive write_step : relation Writer :=
  | PostedRuns w : 0 < posted w -> write_step w (run_posted w)
  | WriteSucceeds w i msg : writing w !! i = Some msg -> write_step w (complete true i msg w).

Inductive step : relation Writer :=
  | Writes w w' : write_step w w' -> step w w'
  | WriteFails w i msg : writing w !! i = Some msg -> step w (complete false i msg w)
  | Enqueues w msg : step w (enqueue msg w).1
  | ReadFails w : step w (on_close w).

Inductive reachable (n : nat) : Writer -> Prop :=
  | Starts : reachable n (new_writer n)
  | Steps w w' : reachable n w -> step w w' -> reachable n w'.

(** ** The invariant *)

(** Who writes next: nobody, a posted [do_write], or the write in progress. *)
Inductive activity : Type := Idle | Waiting | Busy (msg : T).

Definition acts (a : activity) (w : Writer) : Prop :=
  match a with
  | Idle => posted w = 0 /\ writing w = [] /\ (items (write_queue w) = [] \/ broken w = true)
  | Waiting => posted w = 1 /\ writing w = [] /\ items (write_queue w) <> [] /\ broken w = false
  | Busy msg =>
    posted w = 0 /\ writing w = [msg] /\ front (write_queue w) = Some msg /\ broken w = false
  end.

Record writer_ok (n : nat) (w : Writer) : Prop := {
  ok_capacity : capacity (write_queue w) = n;
  ok_bound : length (items (write_queue w)) <= n;
  ok_fifo : accepted w = written w ++ items (write_queue w);
  ok_broken : broken w = true -> queue_closed (write_queue w) = true;
  ok_closed : queue_closed (write_queue w) = session_closed w;
  ok_acts : exists a, acts a w;
}.

Lemma new_writer_ok n : writer_ok n (new_writer n).
Proof. split; simpl; try done; [lia |]. exists Idle. simpl. auto. Qed.

Lemma front_Some (q : BoundedQueue T) msg : front q = Some msg <-> exists rest, items q = msg :: rest.
Proof. unfold front. destruct (items q); naive_solver. Qed.

(** [do_write] when nothing is under way. *)
Lemma do_write_ok n w :
  posted w = 0 -> writing w = [] -> broken w = false ->
  capacity (write_queue w) = n -> length (items (write_queue w)) <= n ->
  accepted w = written w ++ items (write_queue w) ->
  queue_closed (write_queue w) = session_closed w -> writer_ok n (do_write w).
Proof.
  intros Hp Hw Hb Hc Hn Hf Hcl. unfold do_write, front.
  destruct (items (write_queue w)) as [| msg rest] eqn:E; simpl.
  - split; try done; [by rewrite E | by rewrite E | congruence |]. exists Idle. simpl. auto.
  - split; simpl; rewrite ?E; try done; [congruence |].
    exists (Busy msg). simpl. rewrite Hp, Hw. unfold front. by rewrite E.
Qed.

Lemma run_posted_ok n w : writer_ok n w -> 0 < posted w -> writer_ok n (run_posted w).
Proof.
  intros [] Hp. destruct ok_acts0 as [[| | msg] Ha]; simpl in Ha; [lia | | lia].
  destruct Ha as (Hp1 & Hw & _ & Hb). apply do_write_ok; simpl; try done. by rewrite Hp1.
Qed.

Lemma writing_one n w i msg :
  writer_ok n w -> writing w !! i = Some msg ->
  i = 0 /\ writing w = [msg] /\ posted w = 0 /\ broken w = false
  /\ exists rest, items (write_queue w) = msg :: rest.
Proof.
  intros [] Hi. destruct ok_acts0 as [[| | m] Ha]; simpl in Ha.
  - destruct Ha as (_ & Hw & _). by rewrite Hw in Hi.
  - destruct Ha as (_ & Hw & _). by rewrite Hw in Hi.
  - destruct Ha as (Hp & Hw & Hf & Hb). rewrite Hw in Hi. destruct i; [| done].
    injection Hi as ->. apply front_Some in Hf. eauto.
Qed.

Lemma complete_ok n w i msg ok : writer_ok n w -> writing w !! i = Some msg -> writer_ok n (complete ok i msg w).
Proof.
  intros Hok Hi. destruct (writing_one n w i msg Hok Hi) as (-> & Hw & Hp & Hb & rest & Hr).
  destruct Hok. unfold complete, on_write. rewrite Hw. simpl. destruct ok.
  - unfold empty. rewrite Hr. simpl. rewrite Hr. simpl.
    assert (length rest <= n) by (rewrite Hr in ok_bound0; simpl in ok_bound0; lia).
    assert (accepted w = (written w ++ [msg]) ++ rest) as Hf
      by (by rewrite ok_fifo0, Hr, <- app_assoc).
    destruct rest as [| m rest]; simpl.
    + split; simpl; rewrite ?Hr; try done. exists Idle. simpl. rewrite Hr. auto.
    + apply do_write_ok; simpl; rewrite ?Hr; done.
  - unfold on_close. simpl. destruct (session_closed w) eqn:Ec; split; simpl; try done.
    + exists Idle. simpl. auto.
    + exists Idle. simpl. auto.
Qed.

Lemma enqueue_ok n w msg : writer_ok n w -> writer_ok n (enqueue msg w).1.
Proof.
  intros Hok. unfold enqueue, push_back.
  destruct (queue_closed (write_queue w)) eqn:Ecl; [done |]. case_decide as Hfull; [done |]. simpl.
  destruct Hok. assert (broken w = false) as Hb by (destruct (broken w); [by rewrite ok_broken0 in Ecl | done]).
  split; simpl; try done; [rewrite length_app; simpl; lia | by rewrite ok_fifo0, app_assoc | congruence.. |].
  unfold size. simpl. rewrite length_app. simpl.
  destruct ok_acts0 as [[| | m] Ha]; simpl in Ha.
  - destruct Ha as (Hp & Hw & [Hi | Hbr]); [| congruence]. exists Waiting. simpl. rewrite Hi, Hp. simpl. auto.
  - destruct Ha as (Hp & Hw & Hi & _). exists Waiting. simpl.
    destruct (items (write_queue w)) as [| x l]; [done |]. simpl. rewrite Nat.add_1_r. simpl. auto.
  - destruct Ha as (Hp & Hw & Hf & _). exists (Busy m). simpl. apply front_Some in Hf as [rest Hr].
    rewrite Hr. simpl. rewrite Nat.add_1_r. simpl. unfold front. simpl. auto.
Qed.

Lemma on_close_ok n w : writer_ok n w -> writer_ok n (on_close w).
Proof.
  intros Hok. unfold on_close. destruct (session_closed w) eqn:Ec; [done |]. destruct Hok.
  split; simpl; done.
Qed.

Lemma writer_reachable_ok n w : reachable n w -> writer_ok n w.
Proof.
  induction 1 as [| w w' _ IH Hstep]; [apply new_writer_ok |].
  destruct Hstep as [w w' [w'' Hp | w'' i msg Hi] | w i msg Hi | w msg | w].
  - by apply run_posted_ok.
  - by apply complete_ok.
  - by apply complete_ok.
  - by apply enqueue_ok.
  - by apply on_close_ok.
Qed.

(** C12 One writer, in order: however enqueues, completions and failures
    interleave, at most one [async_write] is in progress (the stream allows no
    more) and none while a [do_write] is posted; the queue never exceeds its
    capacity; and what was written followed by what is queued is exactly what
    was accepted, so no accepted message is lost, repeated or reordered. *)
Theorem writer_serial n w :
  reachable n w ->
  length (writing w) + posted w <= 1 /\ length (items (write_queue w)) <= n
  /\ accepted w = written w ++ items (write_queue w)
  /\ (forall msg, msg ∈ writing w -> front (write_queue w) = Some msg).
Proof.
  intros Hr. destruct (writer_reachable_ok n w Hr). split_and!; [| done | done |].
  - destruct ok_acts0 as [[| | m] Ha]; simpl in Ha; destruct Ha as (-> & -> & _); simpl; lia.
  - intros msg Hin. apply list_elem_of_lookup in Hin as [i Hi].
    destruct (writing_one n w i msg (writer_reachable_ok n w Hr) Hi) as (_ & _ & _ & _ & Hf).
    by apply front_Some.
Qed.

Lemma do_write_frame w : broken (do_write w) = broken w /\ accepted (do_write w) = accepted w.
Proof. unfold do_write. by destruct (front _). Qed.

Lemma write_step_frame w w' : write_step w w' -> broken w' = broken w /\ accepted w' = accepted w.
Proof.
  intros [w'' _ | w'' i msg _]; unfold run_posted, complete, on_write.
  - by destruct (do_write_frame (mkWriter (write_queue w'') (pred (posted w'')) (writing w'')
      (session_closed w'') (accepted w'') (written w'') (broken w''))) as [-> ->].
  - cbv zeta. match goal with |- context [if ?b then ?x else do_write ?x] => destruct b end; [done |].
    match goal with |- context [do_write ?x] => by destruct (do_write_frame x) as [-> ->] end.
Qed.

Lemma write_step_ok n w w' : writer_ok n w -> write_step w w' -> writer_ok n w'.
Proof. intros Hok Hs. destruct Hs; [by apply run_posted_ok | by apply complete_ok]. Qed.

(** A write that succeeds shortens the queue; a posted call starts one. *)
Lemma drains n k : forall w,
  writer_ok n w -> broken w = false -> length (items (write_queue w)) = k ->
  exists w', rtc write_step w w' /\ items (write_queue w') = [] /\ writer_ok n w'
    /\ accepted w' = accepted w.
Proof.
  assert (forall w, writer_ok n w -> broken w = false -> items (write_queue w) <> [] ->
    exists w1, rtc write_step w w1 /\ writer_ok n w1 /\ broken w1 = false
      /\ (exists msg, writing w1 = [msg]) /\ items (write_queue w1) = items (write_queue w)
      /\ accepted w1 = accepted w) as Hbusy.
  { intros w Hok Hb Hne. destruct (ok_acts _ _ Hok) as [[| | m] Ha]; simpl in Ha.
    - destruct Ha as (_ & _ & [|]); congruence.
    - destruct Ha as (Hp & Hw & _). assert (write_step w (run_posted w)) as Hs by (constructor; lia).
      exists (run_posted w). split; [by apply rtc_once |]. split; [by eapply write_step_ok |].
      destruct (write_step_frame _ _ Hs) as [-> ->]. split; [done |]. split; [| split; [| done]].
      + unfold run_posted, do_write, front. simpl. destruct (items _) as [| m rest] eqn:E; [done |].
        simpl. rewrite Hw. by exists m.
      + unfold run_posted, do_write. simpl. by destruct (front (write_queue w)).
    - destruct Ha as (_ & Hw & _). exists w. split_and!; try done; eauto. }
  induction k as [| k IH]; intros w Hok Hb Hk.
  { exists w. split_and!; try done. by apply nil_length_inv. }
  destruct (Hbusy w Hok Hb) as (w1 & Hrtc & Hok1 & Hb1 & (msg & Hw1) & Hitems & Hacc);
    [intros E; by rewrite E in Hk |].
  assert (writing w1 !! 0 = Some msg) as Hi by by rewrite Hw1.
  destruct (writing_one n w1 0 msg Hok1 Hi) as (_ & _ & _ & _ & rest & Hr).
  assert (write_step w1 (complete true 0 msg w1)) as Hs by by constructor.
  assert (items (write_queue (complete true 0 msg w1)) = rest) as Hrest.
  { unfold complete, on_write, empty. simpl. rewrite Hr. simpl.
    rewrite Hr. simpl. destruct rest as [| m rest]; simpl; [by rewrite Hr |].
    unfold do_write, front. simpl. rewrite Hr. simpl. by rewrite Hr. }
  destruct (IH (complete true 0 msg w1)) as (w2 & Hrtc2 & He & Hok2 & Hacc2).
  - by eapply write_step_ok.
  - by rewrite (proj1 (write_step_frame _ _ Hs)).
  - rewrite Hrest. rewrite <- Hitems, Hr in Hk. simpl in Hk. lia.
  - exists w2. split_and!; [| done | done |].
    + etrans; [exact Hrtc |]. etrans; [by apply rtc_once | done].
    + rewrite Hacc2, <- Hacc. by apply write_step_frame.
Qed.

(** No accepted message is stuck: from every reachable state in which no
    write has failed, the executor's own steps, with the writes succeeding,
    write everything that was accepted. *)
Theorem writer_drains n w :
  reachable n w -> broken w = false ->
  exists w', rtc write_step w w' /\ items (write_queue w') = [] /\ written w' = accepted w.
Proof.
  intros Hr Hb.
  destruct (drains n _ w (writer_reachable_ok n w Hr) Hb eq_refl) as (w' & Hrtc & He & Hok & Hacc).
  exists w'. split_and!; [done | done |]. rewrite <- Hacc, (ok_fifo _ _ Hok), He. by rewrite app_nil_r.
Qed.
End Writer.
Arguments Writer : clear implicits.

(** ** Witnesses: two messages, the first write in progress *)

Definition sample_writer : Writer nat :=
  (enqueue 2 (run_posted (enqueue 1 (new_writer kMaxWriteQueueSize)).1)).1.

Lemma sample_writer_reachable : reachable kMaxWriteQueueSize sample_writer.
Proof.
  eapply Steps; [| apply Enqueues]. eapply Steps; [| apply Writes, PostedRuns; simpl; lia].
  eapply Steps; [| apply Enqueues]. apply Starts.
Qed.

Lemma writer_serial_witness :
  writing sample_writer = [1] /\ length (writing sample_writer) + posted sample_writer <= 1.
Proof.
  split; [vm_compute; reflexivity |].
  by destruct (writer_serial kMaxWriteQueueSize sample_writer sample_writer_reachable) as [H _].
Defined.

Lemma writer_drains_witness :
  exists w', rtc write_step sample_writer w' /\ items (write_queue w') = [] /\ written w' = [1; 2].
Proof. apply (writer_drains kMaxWriteQueueSize sample_writer sample_writer_reachable). reflexivity. Defined.
