(* ===== verification/MediaConnections.v ===== *)
(** * Peer connections of a session (media_connections.cpp)

    A session has at most one [rtc::PeerConnection] per connection id.  An offer
    replaces it; callbacks of the library arrive on other threads, so every
    critical section is a step of its own and [step] interleaves them at will.
    [log] records what was done to the library and to the session; a call that
    follows a critical section on the same thread is logged with it.  Peer
    connections are named by the order of their creation. *)

From S2P Require Import Prelude Signaling.

Local Open Scope list_scope.

Abbreviation Pc := nat (only parsing).
Abbreviation MediaTrack := nat (only parsing).

Record Connection := mkConnection { pc : Pc; tracks : gmap string MediaTrack }.

Inductive MediaEvent :=
  | CreatePc (c : ConnectionId) (p : Pc)
  | SetRemoteDescription (p : Pc) (sdp : string)
  | AddRemoteCandidate (p : Pc) (candidate mid : string)
  | ClosePc (p : Pc)
  | CloseTrack (t : MediaTrack)
  | SendSignal (p : Pc) (m : Message)
  | TrackReady (c : ConnectionId) (p : Pc) (t : MediaTrack)
  | TrackClosed (t : MediaTrack).

#[export] Instance MediaEvent_eq_dec : EqDecision MediaEvent.
Proof. solve_decision. Defined.

(** Where the session's thread is inside [accept_offer]. *)
Inductive Phase :=
  | Idle
  | Found (c : ConnectionId) (sdp : string) (previous : option Pc)
  | Cleared (c : ConnectionId) (sdp : string)
  | Created (c : ConnectionId) (sdp : string) (p : Pc)
  | Installed (c : ConnectionId) (sdp : string) (p : Pc).

Record Media := mkMedia {
  connections : gmap ConnectionId Connection;
  next_pc : Pc;
  phase : Phase;
  log : list MediaEvent;
}.

Definition new_media : Media := mkMedia ∅ 0 Idle [].

Definition at_phase (m : Media) (p : Phase) : Media := mkMedia (connections m) (next_pc m) p (log m).

Definition logged (m : Media) (events : list MediaEvent) : Media :=
  mkMedia (connections m) (next_pc m) (phase m) (log m ++ events).

Definition find_pc (m : Media) (c : ConnectionId) : option Pc := pc <$> connections m !! c.

Definition owns (m : Media) (c : ConnectionId) (p : Pc) : bool := bool_decide (find_pc m c = Some p).

Definition close_tracks (ts : gmap string MediaTrack) : list MediaEvent :=
  CloseTrack <$> (map_to_list ts).*2.

Definition remove_and_close (c : ConnectionId) (p : Pc) (m : Media) : Media :=
  match connections m !! c with
  | Some conn =>
    if decide (pc conn = p) then
      mkMedia (delete c (connections m)) (next_pc m) (phase m)
        (log m ++ close_tracks (tracks conn) ++ [ClosePc (pc conn)])
    else m
  | None => m
  end.

(** [accept_offer], one critical section or library call at a time. *)
Definition offer_find (c : ConnectionId) (sdp : string) (m : Media) : Media :=
  at_phase m (Found c sdp (find_pc m c)).

Definition offer_clear (c : ConnectionId) (sdp : string) (previous : option Pc) (m : Media) : Media :=
  at_phase (match previous with Some p => remove_and_close c p m | None => m end) (Cleared c sdp).

(** [None]: creating the peer connection throws. *)
Definition offer_create (ok : bool) (c : ConnectionId) (sdp : string) (m : Media) : Media :=
  if ok then
    mkMedia (connections m) (S (next_pc m)) (Created c sdp (next_pc m))
      (log m ++ [CreatePc c (next_pc m)])
  else at_phase m Idle.

Definition offer_install (c : ConnectionId) (sdp : string) (p : Pc) (m : Media) : Media :=
  mkMedia (<[c := mkConnection p ∅]> (connections m)) (next_pc m) (Installed c sdp p) (log m).

Definition apply_offer (ok : bool) (c : ConnectionId) (sdp : string) (p : Pc) (m : Media) : Media :=
  let m := logged m [SetRemoteDescription p sdp] in
  at_phase (if ok then m else remove_and_close c p m) Idle.

(** The same, run to the end with nothing in between. *)
Definition accept_offer (created applied : bool) (c : ConnectionId) (sdp : string) (m : Media) : Media :=
  let previous := find_pc m c in
  let m := offer_create created c sdp (offer_clear c sdp previous (offer_find c sdp m)) in
  match phase m with
  | Created c sdp p => apply_offer applied c sdp p (offer_install c sdp p m)
  | _ => m
  end.

Definition add_remote_candidate (c : ConnectionId) (candidate mid : string) (m : Media) : Media :=
  match find_pc m c with
  | Some p => logged m [AddRemoteCandidate p candidate mid]
  | None => m
  end.

(** [onLocalDescription] and [onLocalCandidate] *)
Definition local_description (c : ConnectionId) (p : Pc) (type sdp : string) (m : Media) : Media :=
  if negb (owns m c p) then m
  else if String.eqb type "answer" then logged m [SendSignal p (Answer sdp c)] else m.

Definition local_candidate (c : ConnectionId) (p : Pc) (candidate mid : string) (m : Media) : Media :=
  if negb (owns m c p) then m else logged m [SendSignal p (Candidate candidate mid c)].

(** [onTrack] *)
Definition register_track (c : ConnectionId) (p : Pc) (mid : string) (t : MediaTrack) (m : Media) : Media :=
  match connections m !! c with
  | Some conn =>
    if decide (pc conn = p) then
      let replaced :=
        match tracks conn !! mid with
        | Some old => if decide (old = t) then [] else [CloseTrack old]
        | None => []
        end in
      mkMedia (<[c := mkConnection (pc conn) (<[mid := t]> (tracks conn))]> (connections m))
        (next_pc m) (phase m) (log m ++ replaced ++ [TrackReady c p t])
    else m
  | None => m
  end.

(** [onClosed] of a track *)
Definition track_closed (c : ConnectionId) (mid : string) (t : MediaTrack) (m : Media) : Media :=
  let m := logged m [TrackClosed t] in
  match connections m !! c with
  | Some conn =>
    if decide (tracks conn !! mid = Some t) then
      mkMedia (<[c := mkConnection (pc conn) (delete mid (tracks conn))]> (connections m))
        (next_pc m) (phase m) (log m)
    else m
  | None => m
  end.

(** [onStateChange] *)
Inductive PcState := Failed | ClosedState | OtherState.

Definition state_change (c : ConnectionId) (p : Pc) (s : PcState) (m : Media) : Media :=
  match s with
  | Failed | ClosedState => remove_and_close c p m
  | OtherState => m
  end.

Definition close_connection (conn : Connection) : list MediaEvent :=
  close_tracks (tracks conn) ++ [ClosePc (pc conn)].

Definition close (m : Media) : Media :=
  mkMedia ∅ (next_pc m) (phase m)
    (log m ++ ((map_to_list (connections m)).*2 ≫= close_connection)).

(** The session's thread calls [accept_offer], [add_remote_candidate] and
    [close]; everything else comes from the library's threads, for a peer
    connection that was created. *)
Inductive step : relation Media :=
  | OfferFinds m c sdp : phase m = Idle -> step m (offer_find c sdp m)
  | OfferClears m c sdp previous :
      phase m = Found c sdp previous -> step m (offer_clear c sdp previous m)
  | OfferCreates m c sdp ok : phase m = Cleared c sdp -> step m (offer_create ok c sdp m)
  | OfferInstalls m c sdp p : phase m = Created c sdp p -> step m (offer_install c sdp p m)
  | OfferApplies m c sdp p ok : phase m = Installed c sdp p -> step m (apply_offer ok c sdp p m)
  | CandidateArrives m c candidate mid :
      phase m = Idle -> step m (add_remote_candidate c candidate mid m)
  | SessionCloses m : phase m = Idle -> step m (close m)
  | DescriptionReady m c p type sdp : step m (local_description c p type sdp m)
  | CandidateReady m c p candidate mid : step m (local_candidate c p candidate mid m)
  | TrackArrives m c p mid t : step m (register_track c p mid t m)
  | TrackCloses m c mid t : step m (track_closed c mid t m)
  | StateChanges m c p s : step m (state_change c p s m).

(** ** The invariant *)

Definition owned (m : Media) (p : Pc) : Prop := exists c, find_pc m c = Some p.

(** A peer connection in use: owned, or created and about to be. *)
Definition in_use (m : Media) (p : Pc) : Prop :=
  owned m p \/ exists c sdp, phase m = Created c sdp p.

Definition closes (p : Pc) (events : list MediaEvent) : nat :=
  length (filter (fun e => e = ClosePc p) events).

Definition track_kept (m : Media) (t : MediaTrack) : Prop :=
  exists c conn mid, connections m !! c = Some conn /\ tracks conn !! mid = Some t.

Definition finished (m : Media) (t : MediaTrack) : Prop :=
  CloseTrack t ∈ log m \/ TrackClosed t ∈ log m.

(** No connection under this id while its offer is between clearing and installing. *)
Definition offered (m : Media) (c : ConnectionId) : Prop :=
  (exists sdp, phase m = Cleared c sdp) \/ exists sdp p, phase m = Created c sdp p.

Record media_ok (m : Media) : Prop := {
  ok_fresh p : in_use m p -> p < next_pc m;
  ok_once c c' p : find_pc m c = Some p -> find_pc m c' = Some p -> c = c';
  ok_offered c : offered m c -> find_pc m c = None;
  ok_pending c sdp p : phase m = Created c sdp p -> ~ owned m p;
  ok_closes p :
    closes p (log m) = 0 /\ (p < next_pc m -> in_use m p)
    \/ closes p (log m) = 1 /\ p < next_pc m /\ ~ in_use m p;
  ok_tracks c p t : TrackReady c p t ∈ log m -> track_kept m t \/ finished m t;
}.

Lemma new_media_ok : media_ok new_media.
Proof.
  assert (forall p, ~ in_use new_media p) as Hno by (intros p [[c Hc] | (c & sdp & Hp)]; done).
  split; try done.
  - intros p Hp. by apply Hno in Hp.
  - intros p. left. split; [done |]. simpl. lia.
  - intros c p t Hin. by apply elem_of_nil in Hin.
Qed.

Lemma closes_app p l l' : closes p (l ++ l') = closes p l + closes p l'.
Proof. unfold closes. by rewrite filter_app, length_app. Qed.

Lemma closes_none p l : (forall q, ClosePc q ∉ l) -> closes p l = 0.
Proof.
  intros Hno. unfold closes. induction l as [| e l IH]; [done |].
  rewrite filter_cons_False; [apply IH; intros q Hq; apply (Hno q); by right |].
  intros ->. apply (Hno p). by left.
Qed.

Lemma closes_close_tracks p ts : closes p (close_tracks ts) = 0.
Proof. apply closes_none. intros q Hq. unfold close_tracks in Hq. by apply list_elem_of_fmap in Hq as (t & ? & _). Qed.

Lemma closes_connection p conn : closes p (close_connection conn) = if decide (pc conn = p) then 1 else 0.
Proof.
  unfold close_connection. rewrite closes_app, closes_close_tracks. unfold closes. simpl.
  case_decide as Hp; [rewrite filter_cons_True by congruence | rewrite filter_cons_False by congruence];
    done.
Qed.

(** What only adds events that neither close nor announce anything. *)
Lemma logged_ok m events :
  (forall p, ClosePc p ∉ events) -> (forall c p t, TrackReady c p t ∉ events) ->
  media_ok m -> media_ok (logged m events).
Proof.
  intros Hnc Hnt []. split; try done.
  - intros p. unfold logged at 1 3. simpl. rewrite closes_app, (closes_none p events), Nat.add_0_r by done. apply ok_closes0.
  - intros c p t. unfold logged. simpl. rewrite elem_of_app. intros [Hin | Hin]; [| by apply Hnt in Hin].
    destruct (ok_tracks0 c p t Hin) as [Hk | Hf]; [by left | right].
    unfold finished. simpl. rewrite !elem_of_app. destruct Hf; auto.
Qed.

(** Moving between phases that own nothing. *)
Lemma at_phase_ok m ph :
  (forall c sdp p, phase m <> Created c sdp p) ->
  (forall c sdp p, ph <> Created c sdp p) ->
  (forall c sdp, ph = Cleared c sdp -> find_pc m c = None) ->
  media_ok m -> media_ok (at_phase m ph).
Proof.
  intros Hold Hnew Hclear [].
  assert (forall p, in_use (at_phase m ph) p <-> in_use m p) as Huse.
  { intros p. unfold in_use. simpl. split; (intros [Ho | (c & sdp & Hp)]; [by left |]).
    - by apply Hnew in Hp.
    - by apply Hold in Hp. }
  split; try done.
  - intros p. rewrite Huse. apply ok_fresh0.
  - intros c [[sdp Hp] | (sdp & p & Hp)]; [by eapply Hclear | by apply Hnew in Hp].
  - intros c sdp p Hp. by apply Hnew in Hp.
  - intros p. rewrite Huse. apply ok_closes0.
Qed.

Lemma find_pc_Some m c p : find_pc m c = Some p <-> exists conn, connections m !! c = Some conn /\ pc conn = p.
Proof. unfold find_pc. destruct (connections m !! c) as [conn |]; simpl; naive_solver. Qed.

Lemma closed_tracks_elem ts mid t : ts !! mid = Some t -> CloseTrack t ∈ close_tracks ts.
Proof.
  intros Ht. unfold close_tracks. apply list_elem_of_fmap. exists t. split; [done |].
  apply list_elem_of_fmap. exists (mid, t). split; [done |]. by apply elem_of_map_to_list.
Qed.

Lemma remove_and_close_ok c p m : media_ok m -> media_ok (remove_and_close c p m).
Proof.
  intros Hok. unfold remove_and_close. destruct (connections m !! c) as [conn |] eqn:Hc; [| done].
  case_decide as Hp; [| done]. subst p. set (m' := mkMedia _ _ _ _).
  assert (find_pc m c = Some (pc conn)) as Hfind by (apply find_pc_Some; eauto).
  assert (forall c', find_pc m' c' = if decide (c' = c) then None else find_pc m c') as Hfind'.
  { intros c'. unfold find_pc, m'. simpl. case_decide; [subst; by rewrite lookup_delete_eq |].
    by rewrite lookup_delete_ne. }
  pose proof Hok as [].
  assert (forall q, in_use m' q <-> in_use m q /\ q <> pc conn) as Huse.
  { intros q. split.
    - intros [[c' Hq] | (c' & sdp & Hq)].
      + rewrite Hfind' in Hq. case_decide; [done |]. split; [left; by exists c' |].
        intros ->. by specialize (ok_once0 c c' _ Hfind Hq).
      + split; [right; by exists c', sdp |]. intros ->. eapply ok_pending0; [exact Hq |]. by exists c.
    - intros [[[c' Hq] | (c' & sdp & Hq)] Hne]; [left | right; by exists c', sdp].
      exists c'. rewrite Hfind'. case_decide; [subst; congruence | done]. }
  split.
  - intros q Hq. apply Huse in Hq as [Hq _]. by apply ok_fresh0.
  - intros a b q Ha Hb. rewrite Hfind' in Ha, Hb. do 2 (case_decide; [done |]). by eapply ok_once0.
  - intros a Ha. rewrite Hfind'. case_decide; [done |]. by apply ok_offered0.
  - intros a sdp q Hq [b Hb]. rewrite Hfind' in Hb. case_decide; [done |].
    eapply ok_pending0; [exact Hq |]. by exists b.
  - intros q. unfold m' at 1 4. simpl. rewrite closes_app.
    change (close_tracks (tracks conn) ++ [ClosePc (pc conn)]) with (close_connection conn).
    rewrite closes_connection, Huse. change (next_pc m') with (next_pc m).
    assert (in_use m (pc conn)) as Hown by (left; by exists c).
    case_decide as Hq.
    + subst q. right. destruct (ok_closes0 (pc conn)) as [[-> _] | (_ & _ & Hno)]; [| done].
      split_and!; [done | by apply ok_fresh0 | tauto].
    + rewrite Nat.add_0_r. destruct (ok_closes0 q) as [[-> Hu] | (-> & Hl & Hno)]; [left | right].
      * split; [done |]. intros Hl. split; [by apply Hu | congruence].
      * split_and!; [done | done | tauto].
  - intros a q t. unfold m' at 1. simpl. rewrite elem_of_app. intros [Hin | Hin].
    + destruct (ok_tracks0 a q t Hin) as [(b & conn' & mid & Hb & Ht) | Hf].
      * destruct (decide (b = c)) as [-> | Hne]; [right | left].
        -- rewrite Hc in Hb. injection Hb as <-. left. unfold m'. simpl. rewrite !elem_of_app.
           right. left. by eapply closed_tracks_elem.
        -- exists b, conn', mid. split; [| done]. unfold m'. simpl. by rewrite lookup_delete_ne.
      * right. unfold finished, m'. simpl. rewrite !elem_of_app. destruct Hf; auto.
    + apply elem_of_app in Hin as [Hin | Hin].
      * by apply list_elem_of_fmap in Hin as (? & ? & _).
      * by apply list_elem_of_singleton in Hin.
Qed.

Lemma remove_and_close_phase c p m : phase (remove_and_close c p m) = phase m.
Proof. unfold remove_and_close. destruct (connections m !! c); [| done]. by case_decide. Qed.

(** After removing what was found, nothing is left under the id, unless another
    connection was installed meanwhile. *)
Lemma remove_and_close_find c p m :
  find_pc (remove_and_close c p m) c = if decide (find_pc m c = Some p) then None else find_pc m c.
Proof.
  unfold remove_and_close, find_pc. destruct (connections m !! c) as [conn |] eqn:Hc; simpl; [| by rewrite Hc].
  destruct (decide (pc conn = p)) as [-> | Hne].
  - rewrite decide_True by done. simpl. by rewrite lookup_delete_eq.
  - rewrite decide_False by congruence. by rewrite Hc.
Qed.

(** Closing the session is closing its connections one by one. *)
Definition close_one (m : Media) (x : ConnectionId * Connection) : Media :=
  remove_and_close x.1 (pc x.2) m.

Lemma close_one_spec m c conn :
  connections m !! c = Some conn ->
  close_one m (c, conn)
  = mkMedia (delete c (connections m)) (next_pc m) (phase m) (log m ++ close_connection conn).
Proof. intros Hc. unfold close_one, remove_and_close. simpl. by rewrite Hc, decide_True. Qed.

Lemma close_all_spec l : forall m,
  NoDup l.*1 -> (forall c conn, (c, conn) ∈ l -> connections m !! c = Some conn) ->
  (forall c conn, connections m !! c = Some conn -> (c, conn) ∈ l) ->
  foldl close_one m l
  = mkMedia ∅ (next_pc m) (phase m) (log m ++ (l.*2 ≫= close_connection)).
Proof.
  induction l as [| [c conn] l IH]; intros m Hnd Hin Hall.
  - simpl. destruct m as [cs n ph lg]. simpl in *. rewrite app_nil_r. f_equal.
    apply map_empty. intros c. destruct (cs !! c) as [conn |] eqn:E; [| done].
    apply Hall in E. by apply elem_of_nil in E.
  - rewrite fmap_cons in Hnd. apply NoDup_cons in Hnd as [Hnc Hnd]. cbn [foldl].
    rewrite close_one_spec by (apply Hin; by left). rewrite IH; simpl.
    + by rewrite app_assoc.
    + done.
    + intros c' conn' Hx. rewrite lookup_delete_ne; [apply Hin; by right |].
      intros <-. apply Hnc. apply list_elem_of_fmap. by exists (c, conn').
    + intros c' conn' Hx. apply lookup_delete_Some in Hx as [Hne Hx].
      apply Hall in Hx. apply elem_of_cons in Hx as [[= <- <-] | Hx]; [by destruct Hne | done].
Qed.

Lemma close_spec m : close m = foldl close_one m (map_to_list (connections m)).
Proof.
  symmetry. apply close_all_spec.
  - apply NoDup_fst_map_to_list.
  - intros c conn. apply elem_of_map_to_list.
  - intros c conn. apply elem_of_map_to_list.
Qed.

Lemma close_ok m : media_ok m -> media_ok (close m).
Proof.
  intros Hok. rewrite close_spec. apply (foldl_inv media_ok); [done |].
  intros m' x Hm'. by apply remove_and_close_ok.
Qed.

Lemma create_ok c sdp m :
  phase m = Cleared c sdp -> media_ok m -> media_ok (offer_create true c sdp m).
Proof.
  intros Hph Hok. pose proof Hok as []. unfold offer_create. set (m' := mkMedia _ _ _ _).
  assert (forall q, owned m' q <-> owned m q) as Howned by done.
  assert (forall q, ~ owned m q -> in_use m q -> False) as Hold.
  { intros q Hno [Ho | (a & s & Hp)]; [done | congruence]. }
  assert (forall q, in_use m' q <-> in_use m q \/ q = next_pc m) as Huse.
  { intros q. unfold in_use at 1. rewrite Howned. simpl. split.
    - intros [Ho | (a & s & [= _ _ Hq])]; [left; by left | by right].
    - intros [[Ho | (a & s & Hp)] | ->]; [by left | congruence | right; by exists c, sdp]. }
  split.
  - intros q Hq. apply Huse in Hq as [Hq | ->]; simpl; [specialize (ok_fresh0 _ Hq) |]; lia.
  - done.
  - intros a [[s [=]] | (s & q & [= -> _ _])]. apply ok_offered0. left. eauto.
  - intros a s q [= _ _ <-] Ho. specialize (ok_fresh0 (next_pc m) ltac:(by left)). lia.
  - intros q. rewrite Huse. unfold m' at 1 3. simpl. rewrite closes_app, (closes_none q [_]), Nat.add_0_r;
      [| by intros x Hx%list_elem_of_singleton].
    destruct (ok_closes0 q) as [[Hz Hu] | (Hone & Hl & Hno)]; [left | right].
    + split; [done |]. simpl. intros Hq. destruct (decide (q = next_pc m)); [by right | left; apply Hu; lia].
    + split_and!; [done | simpl; lia |]. intros [| ->]; [done | lia].
  - intros a q t. unfold m' at 1. simpl. rewrite elem_of_app. intros [Hin | Hin%list_elem_of_singleton]; [| done].
    destruct (ok_tracks0 a q t Hin) as [| Hf]; [by left | right].
    unfold finished, m'. simpl. rewrite !elem_of_app. destruct Hf; auto.
Qed.

Lemma install_ok c sdp p m :
  phase m = Created c sdp p -> media_ok m -> media_ok (offer_install c sdp p m).
Proof.
  intros Hph Hok. pose proof Hok as []. set (m' := offer_install c sdp p m).
  assert (find_pc m c = None) as Hnone by (apply ok_offered0; right; eauto).
  assert (forall c', find_pc m' c' = if decide (c' = c) then Some p else find_pc m c') as Hfind.
  { intros c'. unfold find_pc, m'. simpl. case_decide; [subst; by rewrite lookup_insert_eq |].
    by rewrite lookup_insert_ne. }
  assert (~ owned m p) as Hno by by eapply ok_pending0.
  assert (forall q, in_use m' q <-> in_use m q) as Huse.
  { intros q. split.
    - intros [[a Ha] | (a & s & [=])]. rewrite Hfind in Ha. case_decide.
      + injection Ha as <-. right. eauto.
      + left. by exists a.
    - intros [[a Ha] | (a & s & Hq)]; left.
      + exists a. rewrite Hfind. case_decide; [congruence | done].
      + exists c. rewrite Hfind, decide_True by done. congruence. }
  split.
  - intros q. rewrite Huse. apply ok_fresh0.
  - intros a b q Ha Hb. rewrite Hfind in Ha, Hb.
    destruct (decide (a = c)) as [-> |], (decide (b = c)) as [-> |]; simplify_eq; try done.
    + destruct Hno. by exists b.
    + destruct Hno. by exists a.
    + by eapply ok_once0.
  - intros a [[s [=]] | (s & q & [=])].
  - intros a s q [=].
  - intros q. rewrite Huse. apply ok_closes0.
  - intros a q t Hin. destruct (ok_tracks0 a q t Hin) as [(b & conn & mid & Hb & Ht) | Hf]; [left | by right].
    exists b, conn, mid. split; [| done]. unfold m'. simpl. rewrite lookup_insert_ne; [done |].
    intros <-. unfold find_pc in Hnone. by rewrite Hb in Hnone.
Qed.

(** Changing the tracks of a connection. *)
Lemma retrack_ok c conn ts events m :
  connections m !! c = Some conn -> media_ok m ->
  (forall p, ClosePc p ∉ events) ->
  (forall mid t, tracks conn !! mid = Some t ->
     (exists mid', ts !! mid' = Some t) \/ CloseTrack t ∈ log m ++ events \/ TrackClosed t ∈ log m ++ events) ->
  (forall a p t, TrackReady a p t ∈ events -> exists mid, ts !! mid = Some t) ->
  media_ok (mkMedia (<[c := mkConnection (pc conn) ts]> (connections m)) (next_pc m) (phase m)
              (log m ++ events)).
Proof.
  intros Hc Hok Hnc Hold Hnew. pose proof Hok as []. set (m' := mkMedia _ _ _ _).
  assert (forall c', find_pc m' c' = find_pc m c') as Hfind.
  { intros c'. unfold find_pc, m'. simpl. destruct (decide (c = c')) as [<- | Hne].
    - by rewrite lookup_insert_eq, Hc.
    - by rewrite lookup_insert_ne. }
  assert (forall q, owned m' q <-> owned m q) as Howned.
  { intros q. unfold owned. by setoid_rewrite Hfind. }
  assert (forall q, in_use m' q <-> in_use m q) as Huse.
  { intros q. unfold in_use. rewrite Howned. done. }
  split.
  - intros q. rewrite Huse. apply ok_fresh0.
  - intros a b q. rewrite !Hfind. apply ok_once0.
  - intros a Ha. rewrite Hfind. by apply ok_offered0.
  - intros a s q Hq. rewrite Howned. by eapply ok_pending0.
  - intros q. rewrite Huse. unfold m' at 1 3. simpl.
    rewrite closes_app, (closes_none q events), Nat.add_0_r by done. apply ok_closes0.
  - assert (forall mid t, ts !! mid = Some t -> track_kept m' t) as Hkeep.
    { intros mid t Ht. exists c, (mkConnection (pc conn) ts), mid. split; [| done].
      unfold m'. simpl. by rewrite lookup_insert_eq. }
    intros a q t. unfold m' at 1. simpl. rewrite elem_of_app. intros [Hin | Hin].
    + destruct (ok_tracks0 a q t Hin) as [(b & conn' & mid & Hb & Ht) | Hf].
      * destruct (decide (b = c)) as [-> | Hne].
        -- rewrite Hc in Hb. injection Hb as <-.
           destruct (Hold mid t Ht) as [[mid' Hmid'] | Hf]; [left; by eapply Hkeep | by right].
        -- left. exists b, conn', mid. split; [| done]. unfold m'. simpl. by rewrite lookup_insert_ne.
      * right. unfold finished, m'. simpl. rewrite !elem_of_app. destruct Hf; auto.
    + left. destruct (Hnew a q t Hin) as [mid Hmid]. by eapply Hkeep.
Qed.

Lemma register_track_ok c p mid t m : media_ok m -> media_ok (register_track c p mid t m).
Proof.
  intros Hok. unfold register_track. destruct (connections m !! c) as [conn |] eqn:Hc; [| done].
  case_decide as Hp; [| done]. apply retrack_ok; [done | done | | |].
  - intros q. rewrite elem_of_app, list_elem_of_singleton. intros [Hq | [=]].
    destruct (tracks conn !! mid) as [old |]; [| by apply elem_of_nil in Hq].
    case_decide; [by apply elem_of_nil in Hq | by apply list_elem_of_singleton in Hq].
  - intros mid' t' Ht. destruct (decide (mid' = mid)) as [-> | Hne].
    + rewrite Ht. case_decide as Heq.
      * left. exists mid. subst. by rewrite lookup_insert_eq.
      * right. left. rewrite !elem_of_app, !list_elem_of_singleton. auto.
    + left. exists mid'. by rewrite lookup_insert_ne.
  - intros a q t'. rewrite elem_of_app, list_elem_of_singleton. intros [Hq | [= -> -> ->]].
    + destruct (tracks conn !! mid) as [old |]; [| by apply elem_of_nil in Hq].
      case_decide; [by apply elem_of_nil in Hq | by apply list_elem_of_singleton in Hq].
    + exists mid. by rewrite lookup_insert_eq.
Qed.

Lemma track_closed_ok c mid t m : media_ok m -> media_ok (track_closed c mid t m).
Proof.
  intros Hok. unfold track_closed. change (connections (logged m _)) with (connections m).
  assert (media_ok (logged m [TrackClosed t])) as Hlog.
  { apply logged_ok; [| | done]; intros *; by rewrite list_elem_of_singleton. }
  destruct (connections m !! c) as [conn |] eqn:Hc; [| done]. case_decide as Ht; [| done].
  apply (retrack_ok c conn (delete mid (tracks conn)) [TrackClosed t] m); [done | done | | |].
  - intros q. by rewrite list_elem_of_singleton.
  - intros mid' t' Ht'. destruct (decide (mid' = mid)) as [-> | Hne].
    + right. right. rewrite elem_of_app, list_elem_of_singleton. right. congruence.
    + left. exists mid'. by rewrite lookup_delete_ne.
  - intros a q t'. by rewrite list_elem_of_singleton.
Qed.

(** What the session's thread found can only disappear meanwhile. *)
Definition found_ok (m : Media) : Prop :=
  forall c sdp previous, phase m = Found c sdp previous -> find_pc m c = previous \/ find_pc m c = None.

Lemma remove_and_close_keeps c p m c' :
  find_pc (remove_and_close c p m) c' = find_pc m c' \/ find_pc (remove_and_close c p m) c' = None.
Proof.
  destruct (decide (c' = c)) as [-> | Hne]; [rewrite remove_and_close_find; case_decide; auto | left].
  unfold remove_and_close. destruct (connections m !! c); [| done]. case_decide; [| done].
  unfold find_pc. simpl. by rewrite lookup_delete_ne.
Qed.

Lemma retrack_find c conn ts m n ph l c' :
  connections m !! c = Some conn ->
  find_pc (mkMedia (<[c := mkConnection (pc conn) ts]> (connections m)) n ph l) c' = find_pc m c'.
Proof.
  intros Hc. unfold find_pc. simpl. destruct (decide (c = c')) as [<- | Hne].
  - by rewrite lookup_insert_eq, Hc.
  - by rewrite lookup_insert_ne.
Qed.

Lemma register_track_find c p mid t m c' : find_pc (register_track c p mid t m) c' = find_pc m c'.
Proof.
  unfold register_track. destruct (connections m !! c) eqn:Hc; [| done].
  case_decide; [by apply retrack_find | done].
Qed.

Lemma track_closed_find c mid t m c' : find_pc (track_closed c mid t m) c' = find_pc m c'.
Proof.
  unfold track_closed. change (connections (logged m _)) with (connections m).
  destruct (connections m !! c) eqn:Hc; [| done]. case_decide; [by apply retrack_find | done].
Qed.

Lemma register_track_phase c p mid t m : phase (register_track c p mid t m) = phase m.
Proof. unfold register_track. destruct (connections m !! c); [| done]. by case_decide. Qed.

Lemma track_closed_phase c mid t m : phase (track_closed c mid t m) = phase m.
Proof. unfold track_closed. destruct (connections (logged m _) !! c); [| done]. by case_decide. Qed.

Lemma callback_found m m' :
  (forall c, find_pc m' c = find_pc m c \/ find_pc m' c = None) -> phase m' = phase m ->
  found_ok m -> found_ok m'.
Proof.
  intros Hf Hph Hok c sdp previous Hp. rewrite Hph in Hp. specialize (Hok c sdp previous Hp).
  destruct (Hf c) as [-> | ->]; [done | by right].
Qed.

Lemma step_found m m' : step m m' -> found_ok m -> found_ok m'.
Proof.
  intros Hs Hok. destruct Hs as [m c sdp Hph | m c sdp previous Hph | m c sdp ok Hph | m c sdp p Hph
    | m c sdp p ok Hph | m c candidate mid Hph | m Hph | m c p type sdp | m c p candidate mid
    | m c p mid t | m c mid t | m c p s]; try (intros a x previous' [=]; fail).
  - intros a x previous' [= <- <- <-]. by left.
  - destruct ok; intros a x previous' [=].
  - unfold add_remote_candidate. by destruct (find_pc m c).
  - intros a x previous' Hp. simpl in Hp. congruence.
  - unfold local_description. destruct (negb _); [done |]. by destruct (String.eqb _ _).
  - unfold local_candidate. by destruct (negb _).
  - apply (callback_found m); [| apply register_track_phase | done].
    intros a. left. apply register_track_find.
  - apply (callback_found m); [| apply track_closed_phase | done].
    intros a. left. apply track_closed_find.
  - destruct s; [| | done]; (apply (callback_found m); [| apply remove_and_close_phase | done]);
      intros a; apply remove_and_close_keeps.
Qed.

Lemma media_step_ok m m' : step m m' -> found_ok m -> media_ok m -> media_ok m'.
Proof.
  intros Hs Hfound Hok.
  assert (forall l, (forall p, ClosePc p ∉ l) -> (forall c p t, TrackReady c p t ∉ l) ->
    media_ok (logged m l)) as Hlog by (intros; by apply logged_ok).
  destruct Hs as [m c sdp Hph | m c sdp previous Hph | m c sdp ok Hph | m c sdp p Hph
    | m c sdp p ok Hph | m c candidate mid Hph | m Hph | m c p type sdp | m c p candidate mid
    | m c p mid t | m c mid t | m c p s].
  - by apply at_phase_ok; [congruence | | |].
  - unfold offer_clear. destruct previous as [p |].
    + apply at_phase_ok; [by rewrite remove_and_close_phase; congruence | done | | by apply remove_and_close_ok].
      intros a s [= <- <-]. rewrite remove_and_close_find.
      destruct (Hfound c sdp (Some p) Hph) as [-> | ->]; [by rewrite decide_True | by rewrite decide_False].
    + apply at_phase_ok; [congruence | done | | done]. intros a s [= <- <-].
      by destruct (Hfound c sdp None Hph).
  - destruct ok; [by apply create_ok |]. by apply at_phase_ok; [congruence | | |].
  - by apply install_ok.
  - unfold apply_offer.
    assert (media_ok (logged m [SetRemoteDescription p sdp])) as Hl
      by (apply Hlog; intros *; by rewrite list_elem_of_singleton).
    destruct ok; (apply at_phase_ok; [| done | done |]).
    + simpl. congruence.
    + done.
    + rewrite remove_and_close_phase. simpl. congruence.
    + by apply remove_and_close_ok.
  - unfold add_remote_candidate. destruct (find_pc m c); [| done].
    apply Hlog; intros *; by rewrite list_elem_of_singleton.
  - by apply close_ok.
  - unfold local_description. destruct (negb _); [done |]. destruct (String.eqb _ _); [| done].
    apply Hlog; intros *; by rewrite list_elem_of_singleton.
  - unfold local_candidate. destruct (negb _); [done |].
    apply Hlog; intros *; by rewrite list_elem_of_singleton.
  - by apply register_track_ok.
  - by apply track_closed_ok.
  - destruct s; [by apply remove_and_close_ok.. | done].
Qed.

Inductive reachable : Media -> Prop :=
  | Starts : reachable new_media
  | Steps m m' : reachable m -> step m m' -> reachable m'.

Lemma media_reachable_ok m : reachable m -> media_ok m /\ found_ok m.
Proof.
  induction 1 as [| m m' _ [Hok Hf] Hs]; [split; [apply new_media_ok | done] |].
  split; [by eapply media_step_ok | by eapply step_found].
Qed.

(** C10 No peer connection leaks and none is closed twice: in every
    interleaving of offers with the library's callbacks, each peer connection
    that was created is either in use, by one connection id only, or was closed
    exactly once; every track announced to the session is still registered,
    closed itself, or was closed with its connection or its successor. *)
Theorem media_no_leak m :
  reachable m ->
  (forall p, p < next_pc m ->
     in_use m p /\ closes p (log m) = 0 \/ ~ in_use m p /\ closes p (log m) = 1)
  /\ (forall c c' p, find_pc m c = Some p -> find_pc m c' = Some p -> c = c')
  /\ (forall c p t, TrackReady c p t ∈ log m -> track_kept m t \/ finished m t)
  /\ (phase m = Idle -> forall p, p < next_pc m -> closes p (log (close m)) = 1).
Proof.
  intros Hr. destruct (media_reachable_ok m Hr) as [Hok _]. pose proof Hok as []. split_and!; [| done | done |].
  - intros p Hp. destruct (ok_closes0 p) as [[Hz Hu] | (Hone & _ & Hno)]; [left | right]; auto.
  - intros Hph p Hp.
    destruct (ok_closes _ (close_ok _ Hok) p) as [[_ Hu] | (-> & _ & _)]; [| done].
    destruct (Hu Hp) as [[c Hc] | (c & sdp & Hc)]; [done | simpl in Hc; congruence].
Qed.

Lemma closed_not_owned m c p : media_ok m -> ClosePc p ∈ log m -> find_pc m c <> Some p.
Proof.
  intros Hok Hin Hc. assert (closes p (log m) <> 0) as Hnz.
  { unfold closes. apply list_elem_of_split in Hin as (l1 & l2 & ->).
    rewrite filter_app, length_app, filter_cons_True by done. simpl. lia. }
  destruct (ok_closes _ Hok p) as [[Hz _] | (_ & _ & Hno)]; [done |]. apply Hno. left. by exists c.
Qed.

Definition speaks_for (p : Pc) (e : MediaEvent) : Prop :=
  (exists s, e = SendSignal p s) \/ exists c t, e = TrackReady c p t.

Lemma remove_and_close_speaks c q m p e :
  speaks_for p e -> e ∈ log (remove_and_close c q m) -> e ∈ log m.
Proof.
  intros He. unfold remove_and_close. destruct (connections m !! c) as [conn |]; [| done].
  case_decide; [| done]. simpl. rewrite !elem_of_app, list_elem_of_singleton. intros [| [Hin | ->]]; [done | |].
  - apply list_elem_of_fmap in Hin as (t & -> & _). by destruct He as [[? [=]] | (? & ? & [=])].
  - by destruct He as [[? [=]] | (? & ? & [=])].
Qed.

Lemma logged_speaks m x p e : speaks_for p e -> ~ speaks_for p x -> e ∈ log (logged m [x]) -> e ∈ log m.
Proof. intros He Hx. simpl. rewrite elem_of_app, list_elem_of_singleton. intros [| ->]; done. Qed.

Lemma owns_true m c p : owns m c p = true -> owned m p.
Proof. unfold owns. intros H%bool_decide_eq_true. by exists c. Qed.

(** Only callbacks of a connection in use speak for it. *)
Lemma step_speaks m m' p e : step m m' -> speaks_for p e -> e ∈ log m' -> e ∈ log m \/ owned m p.
Proof.
  intros Hs He.
  assert (forall x, ~ speaks_for p x -> e ∈ log (logged m [x]) -> e ∈ log m \/ owned m p) as Hlog.
  { intros x Hx Hin. left. by eapply logged_speaks. }
  assert (forall c q, e ∈ log (remove_and_close c q m) -> e ∈ log m \/ owned m p) as Hrem.
  { intros c q Hin. left. by eapply remove_and_close_speaks. }
  destruct Hs as [m c sdp Hph | m c sdp previous Hph | m c sdp ok Hph | m c sdp q Hph
    | m c sdp q ok Hph | m c candidate mid Hph | m Hph | m c q type sdp | m c q candidate mid
    | m c q mid t | m c mid t | m c q s].
  - by left.
  - unfold offer_clear. destruct previous as [q |]; [apply Hrem | by left].
  - destruct ok; [| by left]. apply (Hlog (CreatePc c (next_pc m))). by intros [[? [=]] | (? & ? & [=])].
  - by left.
  - assert (~ speaks_for p (SetRemoteDescription q sdp)) as Hx by by intros [[? [=]] | (? & ? & [=])].
    destruct ok; [by apply Hlog |]. intros Hin. left.
    apply (logged_speaks m (SetRemoteDescription q sdp) p e He Hx).
    apply (remove_and_close_speaks c q _ p e He Hin).
  - unfold add_remote_candidate. destruct (find_pc m c) as [q |]; [| by left].
    apply (Hlog (AddRemoteCandidate q candidate mid)). by intros [[? [=]] | (? & ? & [=])].
  - rewrite close_spec. intros Hin. left. revert Hin.
    apply (foldl_inv (fun m' => e ∈ log m' -> e ∈ log m)); [done |].
    intros m' x IH Hin. apply IH. by eapply remove_and_close_speaks.
  - unfold local_description. destruct (owns m c q) eqn:Eo; [| by left]. simpl.
    destruct (String.eqb type "answer"); [| by left]. destruct (decide (q = p)) as [-> | Hne].
    + right. by eapply owns_true.
    + apply (Hlog (SendSignal q (Answer sdp c))). intros [[? E] | (? & ? & E)]; congruence.
  - unfold local_candidate. destruct (owns m c q) eqn:Eo; [| by left].
    destruct (decide (q = p)) as [-> | Hne].
    + right. by eapply owns_true.
    + apply (Hlog (SendSignal q (Candidate candidate mid c))). intros [[? E] | (? & ? & E)]; congruence.
  - unfold register_track. destruct (connections m !! c) as [conn |] eqn:Hc; [| by left].
    case_decide as Hq; [| by left]. simpl. destruct (decide (q = p)) as [-> | Hne].
    + right. exists c. apply find_pc_Some. eauto.
    + rewrite !elem_of_app, list_elem_of_singleton. intros [| [Hin | ->]]; [by left | |].
      * exfalso. destruct (tracks conn !! mid) as [old |]; [| by apply elem_of_nil in Hin].
        case_decide; [by apply elem_of_nil in Hin |]. apply list_elem_of_singleton in Hin as ->.
        by destruct He as [[? [=]] | (? & ? & [=])].
      * by destruct He as [[? [=]] | (? & ? & [=])].
  - assert (log (track_closed c mid t m) = log m ++ [TrackClosed t]) as ->.
    { unfold track_closed. destruct (connections (logged m _) !! c); [| done]. by case_decide. }
    apply (Hlog (TrackClosed t)). by intros [[? [=]] | (? & ? & [=])].
  - destruct s; [apply Hrem | apply Hrem | by left].
Qed.

(** A superseded peer connection is mute: once a peer connection was
    closed, the callbacks it still delivers leave the connections alone, and
    whatever happens next no answer, candidate or track of it is passed on. *)
Theorem media_stale_mute m p c mid t text s :
  reachable m -> ClosePc p ∈ log m ->
  register_track c p mid t m = m /\ state_change c p s m = m
  /\ local_description c p "answer" text m = m /\ local_candidate c p text mid m = m
  /\ forall m' e, step m m' -> speaks_for p e -> e ∈ log m' -> e ∈ log m.
Proof.
  intros Hr Hin. destruct (media_reachable_ok m Hr) as [Hok _].
  assert (forall a, find_pc m a <> Some p) as Hno by (intros a; by apply closed_not_owned).
  assert (owns m c p = false) as Howns by (unfold owns; by rewrite bool_decide_false).
  assert (forall x, connections m !! c = Some x -> pc x <> p) as Hpc.
  { intros x Hx Hp. apply (Hno c), find_pc_Some. eauto. }
  assert (remove_and_close c p m = m) as Hrem.
  { unfold remove_and_close. destruct (connections m !! c) as [x |] eqn:E; [| done].
    by rewrite decide_False by by apply Hpc. }
  split_and!.
  - unfold register_track. destruct (connections m !! c) as [x |] eqn:E; [| done].
    by rewrite decide_False by by apply Hpc.
  - by destruct s.
  - unfold local_description. by rewrite Howns.
  - unfold local_candidate. by rewrite Howns.
  - intros m' e Hs He Hin'. destruct (step_speaks _ _ _ _ Hs He Hin') as [| [a Ha]]; [done |].
    by apply Hno in Ha.
Qed.

(** ** Witnesses: an offer, a track, and a second offer that replaces the first *)

Definition second_offer : Media :=
  let m := offer_find Voice "o1" new_media in
  let m := offer_create true Voice "o1" (offer_clear Voice "o1" None m) in
  let m := apply_offer true Voice "o1" 0 (offer_install Voice "o1" 0 m) in
  let m := register_track Voice 0 "0" 7 m in
  offer_clear Voice "o2" (Some 0) (offer_find Voice "o2" m).

Lemma second_offer_reachable : reachable second_offer.
Proof.
  do 2 (eapply Steps; [| first [by eapply OfferClears | by apply OfferFinds]]).
  eapply Steps; [| by apply TrackArrives].
  eapply Steps; [| by eapply OfferApplies]. eapply Steps; [| by eapply OfferInstalls].
  eapply Steps; [| by eapply OfferCreates]. eapply Steps; [| by eapply OfferClears].
  eapply Steps; [| by apply OfferFinds]. apply Starts.
Qed.

Lemma media_no_leak_witness : ~ in_use second_offer 0 /\ closes 0 (log second_offer) = 1.
Proof.
  destruct (media_no_leak second_offer second_offer_reachable) as (H & _).
  destruct (H 0) as [[_ Hz] | Hd]; [vm_compute; lia | | exact Hd].
  vm_compute in Hz. discriminate.
Defined.

Lemma media_stale_mute_witness :
  log second_offer = [CreatePc Voice 0; SetRemoteDescription 0 "o1"; TrackReady Voice 0 7; CloseTrack 7; ClosePc 0]
  /\ local_description Voice 0 "answer" "late" second_offer = second_offer.
Proof.
  split; [vm_compute; reflexivity |].
  apply (media_stale_mute second_offer 0 Voice "" 0 "late" Failed second_offer_reachable).
  apply (bool_decide_eq_true_1 _). vm_compute. reflexivity.
Defined.
