(* ===== verification/Transport.v ===== *)
(** * What a client knows (core/src/transport.cpp)

    [Transport] keeps the peers of the client's room and their names, and
    reports who started and stopped streaming through callbacks; [streamers] is
    the set a listener of those callbacks keeps. *)

From S2P Require Import Prelude Signaling.

Local Open Scope list_scope.

Record Client := mkClient {
  local_id : PeerId;
  known_peers : gset PeerId;
  peer_usernames : gmap PeerId Username;
  streamers : gset PeerId;
}.

Definition new_client : Client := mkClient "" ∅ ∅ ∅.

Definition set_peer_identity (c : Client) (p : PeerId) (u : Username) : Client :=
  if String.eqb u "" then c
  else mkClient (local_id c) (known_peers c) (<[p := u]> (peer_usernames c)) (streamers c).

Definition insert_peer (c : Client) (p : PeerId) : Client :=
  mkClient (local_id c) ({[p]} ∪ known_peers c) (peer_usernames c) (streamers c).

Definition streaming_started (c : Client) (p : PeerId) : Client :=
  mkClient (local_id c) (known_peers c) (peer_usernames c) ({[p]} ∪ streamers c).

Definition streaming_stopped (c : Client) (p : PeerId) : Client :=
  mkClient (local_id c) (known_peers c) (peer_usernames c) (streamers c ∖ {[p]}).

Definition add_peer (c : Client) (p : PeerIdentity) : Client :=
  insert_peer (set_peer_identity c (peer_id p) (peer_username p)) (peer_id p).

(** Media messages go to other listeners; the rest is ignored. *)
Definition on_ws_message (c : Client) (m : Message) : Client :=
  match m with
  | Welcome id peers streaming =>
    let c := mkClient id (known_peers c) (peer_usernames c) (streamers c) in
    foldl streaming_started (foldl add_peer c peers) streaming
  | PeerJoined id u => insert_peer (set_peer_identity c id u) id
  | PeerLeft id =>
    mkClient (local_id c) (known_peers c ∖ {[id]}) (delete id (peer_usernames c)) (streamers c)
  | StreamingStart (Some p) => streaming_started c p
  | StreamingStop (Some p) => streaming_stopped c p
  | _ => c
  end.

Lemma set_peer_identity_usernames c p u q :
  peer_usernames (set_peer_identity c p u) !! q
  = if decide (q = p /\ u <> ""%string) then Some u else peer_usernames c !! q.
Proof.
  unfold set_peer_identity. destruct (String.eqb_spec u "") as [-> | Hu]; simpl.
  - rewrite decide_False; [done | naive_solver].
  - destruct (decide (q = p)) as [-> | Hq].
    + by rewrite lookup_insert_eq, decide_True.
    + rewrite lookup_insert_ne, decide_False by naive_solver. done.
Qed.

Lemma set_peer_identity_frame c p u :
  known_peers (set_peer_identity c p u) = known_peers c
  /\ streamers (set_peer_identity c p u) = streamers c.
Proof. unfold set_peer_identity. by destruct (String.eqb u ""). Qed.

Lemma add_peers_spec peers : forall c,
  NoDup (peer_id <$> peers) ->
  let c' := foldl add_peer c peers in
  known_peers c' = list_to_set (peer_id <$> peers) ∪ known_peers c
  /\ streamers c' = streamers c
  /\ (forall x, x ∈ peers -> peer_username x <> ""%string ->
        peer_usernames c' !! peer_id x = Some (peer_username x))
  /\ (forall q, (forall x, x ∈ peers -> peer_id x = q -> peer_username x = ""%string) ->
        peer_usernames c' !! q = peer_usernames c !! q).
Proof.
  induction peers as [| x peers IH]; intros c Hnd; cbn [foldl].
  { split_and!; [set_solver | done | by intros x ?%elem_of_nil | done]. }
  rewrite fmap_cons in Hnd. apply NoDup_cons in Hnd as [Hx Hnd].
  destruct (IH (add_peer c x) Hnd) as (Hk & Hs & Hn & Hq).
  destruct (set_peer_identity_frame c (peer_id x) (peer_username x)) as [Ek Es].
  split_and!.
  - rewrite Hk. simpl. rewrite Ek. set_solver.
  - by rewrite Hs.
  - intros y [-> | Hy]%elem_of_cons Hne; [| by apply Hn].
    rewrite Hq.
    + simpl. by rewrite set_peer_identity_usernames, decide_True.
    + intros z Hz Heq. destruct Hx. rewrite <- Heq. by apply list_elem_of_fmap_2.
  - intros q Hall. rewrite Hq by (intros y Hy; apply Hall; by right). simpl.
    rewrite set_peer_identity_usernames, decide_False; [done |]. intros [-> Hne]. apply Hne.
    apply (Hall x); [by left | done].
Qed.

Lemma streaming_started_spec ps : forall c,
  let c' := foldl streaming_started c ps in
  known_peers c' = known_peers c /\ peer_usernames c' = peer_usernames c
  /\ streamers c' = list_to_set ps ∪ streamers c.
Proof.
  induction ps as [| p ps IH]; intros c; simpl; [split_and!; [done.. | set_solver] |].
  destruct (IH (streaming_started c p)) as (-> & -> & ->). split_and!; [done.. |]. simpl. set_solver.
Qed.
