(* ===== verification/Server.v ===== *)
(** * Rooms and sessions (ws_server.cpp)

    The server keeps one room per room id: its sessions, who streams, who
    watches whom, and the two routers.  Handlers run one at a time on the thread
    of [io.run] (main.cpp), so each is one transition; what a handler sends is
    part of its result.  [None] is an exception that escapes [io.run] and ends
    the process.  A message is [Send]ed to a peer when it is handed to the write
    queue of its session. *)

From S2P Require Import Prelude RtpRewrite RtpSlot SfuMedia Signaling RouterCommon SendLoops Delays.
From S2P Require Import VoiceRouter VoiceInvariant ScreenRouter ScreenInvariant.

Local Open Scope list_scope.

(** [stream_defaults::kScreenReceiveSlots] *)
Definition kScreenReceiveSlots : nat := 8.

Section Server.
Context `{Platform} `{IterationOrder} {Media : Type} `{MediaApi Media, !SlotMedia Media}.

(** A room that exists has both routers: [register_and_build_welcome] creates
    them with it. *)
Record Room := mkRoom {
  sessions : gmap PeerId Username;
  streaming_peers : gset PeerId;
  video_watchers : gmap PeerId (gset PeerId);
  voice_router : VoiceRouter.Router;
  screen_router : ScreenRouter.Router;
}.

Record Server := mkServer {
  stopping : bool;
  rooms : gmap RoomId Room;
  faults : RtpFaultConfig;
}.

(** What leaves the server: messages, what the routers do to tracks, and the
    calls to a session's media connections. *)
Inductive Outgoing :=
  | Send (to : PeerId) (m : Message)
  | ToTrack (c : ConnectionId) (e : Effect Media)
  | CloseMedia (id : PeerId)
  | ToMedia (id : PeerId) (m : Message).

Definition new_server (config : RtpFaultConfig) : Server := mkServer false ∅ config.

Definition new_room (config : RtpFaultConfig) : Room :=
  mkRoom ∅ ∅ ∅ (VoiceRouter.new_router config true) (ScreenRouter.new_router config true).

Definition set_room (s : Server) (room_id : RoomId) (room : Room) : Server :=
  mkServer (stopping s) (<[room_id := room]> (rooms s)) (faults s).

Definition with_streamers (room : Room) (ps : gset PeerId) : Room :=
  mkRoom (sessions room) ps (video_watchers room) (voice_router room) (screen_router room).

Definition with_watchers (room : Room) (ws : gmap PeerId (gset PeerId)) : Room :=
  mkRoom (sessions room) (streaming_peers room) ws (voice_router room) (screen_router room).

Definition with_screen (room : Room) (r : ScreenRouter.Router) : Room :=
  mkRoom (sessions room) (streaming_peers room) (video_watchers room) (voice_router room) r.

Definition with_voice (room : Room) (r : VoiceRouter.Router) : Room :=
  mkRoom (sessions room) (streaming_peers room) (video_watchers room) r (screen_router room).

(** The binding sender of a session's track sends a [TrackBinding]. *)
Definition deliver (c : ConnectionId) (e : Effect Media) : Outgoing :=
  match e with
  | SendBinding to mid publisher => Send to (TrackBinding mid publisher c)
  | _ => ToTrack c e
  end.

Definition session_loop (room : Room) : list PeerId := iterate ((map_to_list (sessions room)).*1).

Definition room_peers (room : Room) : list PeerIdentity :=
  (fun p => {| peer_id := p; peer_username := default "" (sessions room !! p) |}) <$> session_loop room.

(** [signaling::dump] returns; it throws when a string is not UTF-8. *)
Variable dumps : Message -> bool.

Definition register_and_build_welcome (s : Server) (id : PeerId) (room_id : RoomId)
    (username : Username) : option (Server * list Outgoing * option Message) :=
  if stopping s then Some (s, [], None)
  else
    let room := default (new_room (faults s)) (rooms s !! room_id) in
    let welcome := Welcome id (room_peers room) (iterate (elements (streaming_peers room))) in
    if negb (dumps welcome) then None
    else
      let joined := PeerJoined id username in
      if negb (dumps joined) then None
      else
        let existing := session_loop room in
        let members := match sessions room !! id with
                       | Some _ => sessions room
                       | None => <[id := username]> (sessions room)
                       end in
        let room := mkRoom members (streaming_peers room) (video_watchers room)
                      (voice_router room) (screen_router room) in
        Some (set_room s room_id room, (fun p => Send p joined) <$> existing, Some welcome).

(** [on_accept] after the handshake *)
Definition on_accept (s : Server) (id : PeerId) (room_id : RoomId) (username : Username) :
    option (Server * list Outgoing) :=
  '(s, sent, welcome) ← register_and_build_welcome s id room_id username;
  Some (s, sent ++ match welcome with Some w => [Send id w] | None => [] end).

Definition broadcast (s : Server) (from : PeerId) (room_id : RoomId) (m : Message) : list Outgoing :=
  match rooms s !! room_id with
  | None => []
  | Some room => (fun p => Send p m) <$> filter (fun p => p <> from) (session_loop room)
  end.

Definition send_to (s : Server) (target : PeerId) (room_id : RoomId) (m : Message) : list Outgoing :=
  match rooms s !! room_id with
  | None => []
  | Some room => match sessions room !! target with Some _ => [Send target m] | None => [] end
  end.

Definition add_streaming_peer (env : Env Media) (s : Server) (id : PeerId) (room_id : RoomId) :
    Server * list Outgoing :=
  match rooms s !! room_id with
  | None => (s, [])
  | Some room =>
    let room := with_streamers room ({[id]} ∪ streaming_peers room) in
    let '(r, effects) := set_streaming env (screen_router room) id true in
    (set_room s room_id (with_screen room r), deliver Screen <$> effects)
  end.

Definition remove_streaming_peer (env : Env Media) (s : Server) (id : PeerId) (room_id : RoomId) :
    Server * list Outgoing :=
  match rooms s !! room_id with
  | None => (s, [])
  | Some room =>
    let room := with_streamers room (streaming_peers room ∖ {[id]}) in
    let '(r, effects) := set_streaming env (screen_router room) id false in
    (set_room s room_id (with_screen room r), deliver Screen <$> effects)
  end.

Definition watched (room : Room) (id : PeerId) : gset PeerId := default ∅ (video_watchers room !! id).

(** The decision of [add_video_watcher], for a watcher that is in the room. *)
Definition watch_rejection (room : Room) (id publisher_id : PeerId) : option WatchRejectReason :=
  if bool_decide (sessions room !! publisher_id = None) || String.eqb id publisher_id
  then Some UnknownPeer
  else if negb (bool_decide (publisher_id ∈ streaming_peers room)) then Some NotStreaming
  else if bool_decide (publisher_id ∈ watched room id) then None
  else if bool_decide (kScreenReceiveSlots <= size (watched room id)) then Some Capacity
  else None.

Definition add_video_watcher (env : Env Media) (s : Server) (id : PeerId) (room_id : RoomId)
    (publisher_id : PeerId) : Server * list Outgoing :=
  match rooms s !! room_id with
  | None => (s, [])
  | Some room =>
    match sessions room !! id with
    | None => (s, [])
    | Some _ =>
      match watch_rejection room id publisher_id with
      | Some reason => (s, [Send id (WatchRejected publisher_id reason)])
      | None =>
        if bool_decide (publisher_id ∈ watched room id) then (s, [])
        else
          let room := with_watchers room
            (<[id := {[publisher_id]} ∪ watched room id]> (video_watchers room)) in
          let '(r, effects) := set_watching env (screen_router room) id publisher_id true in
          (set_room s room_id (with_screen room r), deliver Screen <$> effects)
      end
    end
  end.

Definition remove_video_watcher (env : Env Media) (s : Server) (id : PeerId) (room_id : RoomId)
    (publisher_id : PeerId) : Server * list Outgoing :=
  match rooms s !! room_id with
  | None => (s, [])
  | Some room =>
    let ws := match video_watchers room !! id with
              | None => video_watchers room
              | Some set =>
                let set := set ∖ {[publisher_id]} in
                if decide (set = ∅) then delete id (video_watchers room)
                else <[id := set]> (video_watchers room)
              end in
    let room := with_watchers room ws in
    let '(r, effects) := set_watching env (screen_router room) id publisher_id false in
    (set_room s room_id (with_screen room r), deliver Screen <$> effects)
  end.

(** The watchers without [id], neither as a watcher nor as watched. *)
Definition forget_watcher (id : PeerId) (ws : gmap PeerId (gset PeerId)) : gmap PeerId (gset PeerId) :=
  omap (fun set : gset PeerId => let set := set ∖ {[id]} in if decide (set = ∅) then None else Some set)
    (delete id ws).

Definition unregister_session (env : Env Media) (s : Server) (id : PeerId) (room_id : RoomId) :
    Server * list Outgoing :=
  match rooms s !! room_id with
  | None => (s, [])
  | Some room =>
    match sessions room !! id with
    | None => (s, [])
    | Some _ =>
      let was_streaming := bool_decide (id ∈ streaming_peers room) in
      let members := delete id (sessions room) in
      let '(voice, unbound) := VoiceRouter.remove_peer env (voice_router room) id in
      let '(screen, cleared) := ScreenRouter.remove_peer env (screen_router room) id in
      let room := mkRoom members (streaming_peers room ∖ {[id]})
                    (forget_watcher id (video_watchers room)) voice screen in
      let farewell := (if was_streaming then [StreamingStop (Some id)] else []) ++ [PeerLeft id] in
      let told := session_loop room ≫= (fun p => Send p <$> farewell) in
      let effects := (deliver Voice <$> unbound) ++ (deliver Screen <$> cleared) ++ told in
      if decide (members = ∅) then
        let '(_, quiet) := VoiceRouter.close env voice in
        let '(_, still) := ScreenRouter.close env screen in
        (mkServer (stopping s) (delete room_id (rooms s)) (faults s),
         effects ++ (deliver Voice <$> quiet) ++ (deliver Screen <$> still))
      else (set_room s room_id room, effects)
    end
  end.

Definition on_close (env : Env Media) (s : Server) (id : PeerId) (room_id : RoomId) :
    Server * list Outgoing :=
  let '(s, effects) := unregister_session env s id room_id in (s, CloseMedia id :: effects).

(** [next_ssrc] is the process-wide counter of [allocate_slot_ssrc]. *)
Definition register_voice_track (env : Env Media) (next_ssrc : Z) (s : Server) (owner : PeerId)
    (room_id : RoomId) (track : option (Track Media)) : Server * list Outgoing :=
  match rooms s !! room_id with
  | None => (s, [])
  | Some room =>
    let '(r, _, effects) :=
      VoiceRouter.register_track env next_ssrc (voice_router room) owner track (Some owner) in
    (set_room s room_id (with_voice room r), deliver Voice <$> effects)
  end.

Definition register_screen_track (env : Env Media) (next_ssrc : Z) (s : Server) (owner : PeerId)
    (room_id : RoomId) (track : option (Track Media)) : Server * list Outgoing :=
  match rooms s !! room_id with
  | None => (s, [])
  | Some room =>
    let '(r, _, effects) :=
      ScreenRouter.register_track env next_ssrc (screen_router room) owner track (Some owner) in
    (set_room s room_id (with_screen room r), deliver Screen <$> effects)
  end.

Definition update_fault_config (s : Server) (config : RtpFaultConfig) : Server :=
  mkServer (stopping s)
    ((fun room => with_screen (with_voice room (VoiceRouter.update_fault_config (voice_router room) config))
                    (ScreenRouter.update_fault_config (screen_router room) config)) <$> rooms s)
    config.

(** The rooms are emptied first; then the routers and the sessions close. *)
Definition stop (env : Env Media) (s : Server) : Server * list Outgoing :=
  let all := (map_to_list (rooms s)).*2 in
  (mkServer true ∅ (faults s),
   (all ≫= fun room => deliver Voice <$> (VoiceRouter.close (Media := Media) env (voice_router room)).2)
   ++ (all ≫= fun room => deliver Screen <$> (ScreenRouter.close (Media := Media) env (screen_router room)).2)
   ++ (all ≫= fun room => CloseMedia <$> session_loop room)).

Definition active_sessions (s : Server) : nat :=
  sum_list ((fun room => size (sessions room)) <$> (map_to_list (rooms s)).*2).

Definition active_sessions_of (s : Server) (room_id : RoomId) : nat :=
  match rooms s !! room_id with Some room => size (sessions room) | None => 0 end.

(** [on_read]: a client's message. *)
Definition on_read (env : Env Media) (s : Server) (id : PeerId) (room_id : RoomId) (m : Message) :
    option (Server * list Outgoing) :=
  match m with
  | Offer _ _ | Candidate _ _ _ => Some (s, [ToMedia id m])
  | StreamingStart _ =>
    let '(s, effects) := add_streaming_peer env s id room_id in
    let m := StreamingStart (Some id) in
    if dumps m then Some (s, effects ++ broadcast s id room_id m) else None
  | StreamingStop _ =>
    let '(s, effects) := remove_streaming_peer env s id room_id in
    let m := StreamingStop (Some id) in
    if dumps m then Some (s, effects ++ broadcast s id room_id m) else None
  | WatchStart p => Some (add_video_watcher env s id room_id p)
  | WatchStop p => Some (remove_video_watcher env s id room_id p)
  | _ => Some (s, [])
  end.

(** ** Snapshots *)

Definition number (n : nat) : json := JInteger (Z.of_nat n).

Definition presence_of (room : Room) : json := JArray (encode_peer <$> room_peers room).

Definition presence_json (s : Server) : json :=
  JObject (foldl (fun fields id =>
    match rooms s !! id with
    | Some room => jset id (presence_of room) fields
    | None => fields
    end) [] (iterate ((map_to_list (rooms s)).*1))).

Definition voice_stats_json (env : Tracks) (r : VoiceRouter.Router) : json :=
  let st := VoiceRouter.stats env r in
  JObject (jobject [("publishers", number (VoiceRouter.publishers st));
    ("boundSlots", number (VoiceRouter.bound_slots st));
    ("packetsIn", JInteger (VoiceRouter.packets_in r));
    ("packetsOut", JInteger (VoiceRouter.packets_out r));
    ("bytesOut", JInteger (VoiceRouter.bytes_out r))])%string.

Definition screen_stats_json (env : Tracks) (r : ScreenRouter.Router) : json :=
  let st := ScreenRouter.stats env r in
  let v := stat_video st in
  let a := stat_audio st in
  JObject (jobject [("publishers", number (streaming_publishers st));
    ("boundSlots", number (ScreenRouter.bound_slots st));
    ("freeSlots", number (ScreenRouter.free_slots st));
    ("videoPacketsIn", JInteger (ScreenRouter.packets_in v));
    ("videoPacketsOut", JInteger (ScreenRouter.packets_out v));
    ("videoBytesOut", JInteger (ScreenRouter.bytes_out v));
    ("audioPacketsIn", JInteger (ScreenRouter.packets_in a));
    ("audioPacketsOut", JInteger (ScreenRouter.packets_out a));
    ("audioBytesOut", JInteger (ScreenRouter.bytes_out a));
    ("keyframeRequests", JInteger (stat_keyframe_requests st))])%string.

Definition room_stats_json (env : Tracks) (room : Room) : json :=
  JObject (jobject [("sessions", number (size (sessions room)));
    ("streamingPeers", number (size (streaming_peers room)));
    ("voice", voice_stats_json env (voice_router room));
    ("screen", screen_stats_json env (screen_router room))])%string.

Definition media_stats_json (env : Tracks) (s : Server) : json :=
  JObject (foldl (fun fields id =>
    match rooms s !! id with
    | Some room => jset id (room_stats_json env room) fields
    | None => fields
    end) [] (iterate ((map_to_list (rooms s)).*1))).
End Server.
