(* ===== verification/ServerInvariant.v ===== *)
(** * Rooms, their routers and their clients

    [room_ok] ties a room to its routers; [sees] ties it to what its clients
    know.  [step] lets the handlers of ws_server.cpp, the packets and timers of
    the routers and the send loops happen in any order. *)

From S2P Require Import Prelude RtpRewrite RtpSlot SfuMedia Signaling Transport RouterCommon SendLoops.
From S2P Require Import VoiceRouter VoiceInvariant VoiceFrames ScreenRouter ScreenInvariant ScreenFrames.
From S2P Require Import Server.

Local Open Scope list_scope.

Section Server.
Context `{Platform} `{IterationOrder} {Media : Type} `{MediaApi Media, !SlotMedia Media}.
Variable dumps : Message -> bool.

(** ** A room and its routers *)

Record room_ok (room : Room) : Prop := {
  rk_voice : VoiceInvariant.wf VoiceInvariant.nobody (voice_router room);
  rk_voice_open : VoiceRouter.closed (voice_router room) = false;
  rk_screen : wf nobody (screen_router room);
  rk_screen_open : closed (screen_router room) = false;
  (** the room and the screen router agree on who streams and who watches *)
  rk_streamers p : p ∈ streaming_peers room <-> streams (screen_router room) p = true;
  rk_watchers s p : p ∈ watched room s <-> is_Some (watches (screen_router room) s !! p);
  (** members only *)
  rk_streaming_member p : p ∈ streaming_peers room -> is_Some (sessions room !! p);
  rk_watching s p : p ∈ watched room s ->
    is_Some (sessions room !! s) /\ is_Some (sessions room !! p) /\ p <> s;
  rk_capacity s : size (watched room s) <= kScreenReceiveSlots;
}.

(** ** What the clients know *)

(** The client of [s] knows the other members, their names and their streams. *)
Record sees (room : Room) (s : PeerId) (c : Client) : Prop := {
  sees_peers p : p ∈ known_peers c <-> p <> s /\ is_Some (sessions room !! p);
  sees_names p : peer_usernames c !! p
    = if decide (p = s) then None
      else match sessions room !! p with
           | Some u => if decide (u = ""%string) then None else Some u
           | None => None
           end;
  sees_streamers p : p ∈ streamers c <-> p <> s /\ p ∈ streaming_peers room;
}.

(** The messages for one peer, in order. *)
Definition messages_to (s : PeerId) (out : list (Outgoing (Media := Media))) : list Message :=
  omap (fun o => match o with Send t m => if decide (t = s) then Some m else None | _ => None end) out.

Definition listen (c : Client) (s : PeerId) (out : list Outgoing) : Client :=
  foldl on_ws_message c (messages_to s out).

Lemma messages_to_cons s o l :
  messages_to s (o :: l)
  = match o with Send t m => if decide (t = s) then [m] else [] | _ => [] end ++ messages_to s l.
Proof. unfold messages_to. destruct o; simpl; try done. by case_decide. Qed.

Lemma messages_to_app s l l' : messages_to s (l ++ l') = messages_to s l ++ messages_to s l'.
Proof. apply omap_app. Qed.

Lemma listen_app c s l l' : listen c s (l ++ l') = listen (listen c s l) s l'.
Proof. unfold listen. by rewrite messages_to_app, foldl_app. Qed.

(** Bindings tell a client nothing about the room. *)
Lemma listen_deliver conn (effs : list (Effect Media)) c s : listen c s (deliver conn <$> effs) = c.
Proof.
  unfold listen. revert c. induction effs as [| e effs IH]; intros c; [done |].
  rewrite fmap_cons, messages_to_cons. destruct e; simpl; try apply IH.
  case_decide; simpl; apply IH.
Qed.

Lemma listen_quiet c s out : messages_to s out = [] -> listen c s out = c.
Proof. intros E. unfold listen. by rewrite E. Qed.

(** A message to everyone in a list. *)
Lemma messages_to_all s m (l : list PeerId) :
  NoDup l -> messages_to s ((fun p => Send p m) <$> l) = if decide (s ∈ l) then [m] else [].
Proof.
  induction 1 as [| p l Hnin _ IH]; [by rewrite decide_False by by intros ?%elem_of_nil |].
  rewrite fmap_cons, messages_to_cons.
  destruct (decide (p = s)) as [-> | Hne]; simpl; rewrite IH.
  - rewrite (decide_False (P := s ∈ l)), decide_True by first [done | by left]. done.
  - destruct (decide (s ∈ l)); [rewrite decide_True by by right | rewrite decide_False]; try done.
    by intros [-> | ?]%elem_of_cons.
Qed.

Lemma messages_to_all2 s ms (l : list PeerId) :
  NoDup l ->
  messages_to s (l ≫= (fun p => Send p <$> ms)) = if decide (s ∈ l) then ms else [].
Proof.
  induction 1 as [| p l Hnin _ IH]; [by rewrite decide_False by by intros ?%elem_of_nil |].
  rewrite bind_cons, messages_to_app, IH.
  assert (messages_to s (Send p <$> ms) = if decide (p = s) then ms else []) as ->.
  { clear. induction ms as [| m ms IH]; [by case_decide |].
    rewrite fmap_cons, messages_to_cons, IH. by case_decide. }
  destruct (decide (p = s)) as [-> | Hne].
  - rewrite (decide_False (P := s ∈ l)), app_nil_r, decide_True by first [done | by left]. done.
  - simpl. destruct (decide (s ∈ l)); [rewrite decide_True by by right | rewrite decide_False]; try done.
    by intros [-> | ?]%elem_of_cons.
Qed.

Lemma session_loop_perm (room : Room) : session_loop room ≡ₚ (map_to_list (sessions room)).*1.
Proof. apply iterate_perm. Qed.

Lemma session_loop_spec (room : Room) s : s ∈ session_loop room <-> is_Some (sessions room !! s).
Proof.
  rewrite session_loop_perm, list_elem_of_fmap. split.
  - intros ([p u] & -> & Hx). apply elem_of_map_to_list in Hx. by exists u.
  - intros [u Hu]. exists (s, u). split; [done |]. by apply elem_of_map_to_list.
Qed.

Lemma session_loop_NoDup (room : Room) : NoDup (session_loop room).
Proof. rewrite session_loop_perm. apply NoDup_fst_map_to_list. Qed.

Lemma room_peers_ids (room : Room) : peer_id <$> room_peers room = session_loop room.
Proof. unfold room_peers. rewrite <- list_fmap_compose. by apply list_fmap_id. Qed.

(** A client that joins learns the room from the welcome. *)
Lemma sees_welcome (room : Room) id room' :
  sessions room !! id = None -> ~ id ∈ streaming_peers room ->
  (forall p, p <> id -> sessions room' !! p = sessions room !! p) ->
  streaming_peers room' = streaming_peers room ->
  sees room' id (on_ws_message new_client
    (Welcome id (room_peers room) (iterate (elements (streaming_peers room))))).
Proof.
  intros Hid Hst Hs Hsp. simpl.
  set (c0 := mkClient id _ _ _).
  destruct (add_peers_spec (room_peers room) c0) as (Hk & Hss & Hn & Hq);
    [rewrite room_peers_ids; apply session_loop_NoDup |].
  set (c1 := foldl add_peer c0 (room_peers room)) in *.
  destruct (streaming_started_spec (iterate (elements (streaming_peers room))) c1) as (Ek & En & Es).
  set (c2 := foldl streaming_started c1 _) in *.
  assert (forall x, x ∈ room_peers room <-> exists u, sessions room !! peer_id x = Some u /\ peer_username x = u) as Hin.
  { intros x. unfold room_peers. rewrite list_elem_of_fmap. split.
    - intros (p & -> & Hp). apply session_loop_spec in Hp as [u Hu]. simpl. rewrite Hu. eauto.
    - intros (u & Hu & Hx). exists (peer_id x). split; [rewrite Hu; by destruct x; simpl in *; subst |].
      apply session_loop_spec. by exists u. }
  split.
  - intros p. rewrite Ek, Hk, room_peers_ids. simpl.
    rewrite union_empty_r_L, elem_of_list_to_set, session_loop_spec.
    destruct (decide (p = id)) as [-> | Hne]; [rewrite Hid; split; [by intros [] | naive_solver] |].
    rewrite Hs by done. naive_solver.
  - intros p. rewrite En. case_decide as Hp.
    + subst. rewrite Hq; [done |]. intros x Hx Heq. apply Hin in Hx as (u & Hu & _). congruence.
    + rewrite Hs by done. destruct (sessions room !! p) as [u |] eqn:Eu.
      * case_decide as Hu.
        -- rewrite Hq; [done |]. intros x Hx Heq. apply Hin in Hx as (u' & Hu' & Hxu). congruence.
        -- apply (Hn {| peer_id := p; peer_username := u |}); [apply Hin; by exists u | done].
      * rewrite Hq; [done |]. intros x Hx Heq. apply Hin in Hx as (u' & Hu' & _). congruence.
  - intros p. rewrite Es, Hss. simpl. rewrite union_empty_r_L, elem_of_list_to_set, iterate_perm,
      elem_of_elements, Hsp. split; [| naive_solver]. intros Hp. split; [by intros -> | done].
Qed.

Lemma sees_joined (room room' : Room) s c id u :
  s <> id -> sessions room !! id = None ->
  sessions room' = <[id := u]> (sessions room) -> streaming_peers room' = streaming_peers room ->
  sees room s c -> sees room' s (on_ws_message c (PeerJoined id u)).
Proof.
  intros Hne Hid Hs Hst [Hk Hn Hp]. simpl. destruct (set_peer_identity_frame c id u) as [Ek Es].
  split; simpl.
  - intros p. rewrite Ek, Hs, elem_of_union, elem_of_singleton, Hk.
    destruct (decide (p = id)) as [-> |]; [rewrite lookup_insert_eq | rewrite lookup_insert_ne by done];
      naive_solver.
  - intros p. rewrite set_peer_identity_usernames, Hs, Hn. destruct (decide (p = id)) as [-> | Hp'].
    + rewrite lookup_insert_eq, (decide_False (P := id = s)) by done.
      destruct (decide (u = ""%string)) as [-> | Hu].
      * case_decide as Hd; [by destruct Hd as [_ []] | rewrite Hid]. by case_decide.
      * rewrite decide_True by done. by case_decide.
    + rewrite decide_False by naive_solver. by rewrite lookup_insert_ne.
  - intros p. by rewrite Es, Hp, Hst.
Qed.

Lemma sees_same (room room' : Room) s c :
  sessions room' = sessions room -> streaming_peers room' = streaming_peers room ->
  sees room s c -> sees room' s c.
Proof. intros Hs Hst [Hk Hn Hp]. split; intros p; rewrite ?Hs, ?Hst; auto. Qed.

(** ** Handlers keep rooms in order *)

Lemma new_room_ok config : room_ok (new_room config).
Proof.
  split; simpl.
  - apply VoiceInvariant.new_router_wf.
  - done.
  - apply screen_new_router_wf.
  - done.
  - intros p. unfold streams. simpl. rewrite lookup_empty. split; [by intros ?%elem_of_empty | done].
  - intros s p. unfold watched, watches. simpl. rewrite !lookup_empty. simpl.
    rewrite lookup_empty. split; [by intros ?%elem_of_empty | by intros []].
  - by intros p ?%elem_of_empty.
  - unfold watched. simpl. intros s p. rewrite lookup_empty. by intros ?%elem_of_empty.
  - intros s. unfold watched. simpl. rewrite lookup_empty. apply Nat.le_0_l.
Qed.

Lemma join_ok room members :
  room_ok room -> (forall p, is_Some (sessions room !! p) -> is_Some (members !! p)) ->
  room_ok (mkRoom members (streaming_peers room) (video_watchers room) (voice_router room) (screen_router room)).
Proof.
  intros [] Hm. split; try done; simpl.
  - intros p Hp. by apply Hm, rk_streaming_member0.
  - intros s p Hp. destruct (rk_watching0 s p Hp) as (? & ? & ?). auto.
Qed.

(** The screen router of a room takes a step. *)
Lemma screen_ok room r streaming ws :
  room_ok room -> wf nobody r -> closed r = false ->
  (forall p, p ∈ streaming <-> streams r p = true) ->
  (forall s p, p ∈ default ∅ (ws !! s) <-> is_Some (watches r s !! p)) ->
  (forall p, p ∈ streaming -> is_Some (sessions room !! p)) ->
  (forall s p, p ∈ default ∅ (ws !! s) ->
     is_Some (sessions room !! s) /\ is_Some (sessions room !! p) /\ p <> s) ->
  (forall s, size (default ∅ (ws !! s) : gset PeerId) <= kScreenReceiveSlots) ->
  room_ok (mkRoom (sessions room) streaming ws (voice_router room) r).
Proof. intros [] *. by split. Qed.

Lemma set_streaming_ok (env : Env Media) room id on :
  room_ok room -> (on = true -> is_Some (sessions room !! id)) ->
  let r := (set_streaming env (screen_router room) id on).1 in
  room_ok (mkRoom (sessions room)
    (if on then {[id]} ∪ streaming_peers room else streaming_peers room ∖ {[id]})
    (video_watchers room) (voice_router room) r).
Proof.
  intros Hok Hid r. pose proof Hok as [].
  destruct (set_streaming_watching env (screen_router room) id on rk_screen_open0) as [Hs Hw].
  apply screen_ok; try done.
  - by apply (set_streaming_outcome True env _ id on).
  - pose proof (set_streaming_delays env (screen_router room) id on) as E. unfold delays in E.
    injection E as E _ _ _. by rewrite <- rk_screen_open0.
  - intros p. rewrite Hs. destruct on.
    + rewrite elem_of_union, elem_of_singleton, rk_streamers0. case_decide; naive_solver.
    + rewrite elem_of_difference, elem_of_singleton, rk_streamers0. case_decide; naive_solver.
  - intros s p. rewrite Hw. apply rk_watchers0.
  - intros p. destruct on; [rewrite elem_of_union, elem_of_singleton; intros [-> |] | rewrite elem_of_difference; intros [? _]];
      auto.
Qed.

Lemma set_watching_ok (env : Env Media) room id p (on : bool) ws :
  room_ok room -> id <> p ->
  (on = true -> is_Some (sessions room !! id) /\ is_Some (sessions room !! p)
     /\ size ({[p]} ∪ watched room id : gset PeerId) <= kScreenReceiveSlots) ->
  (forall s, default ∅ (ws !! s)
     = if decide (s = id) then (if on then {[p]} ∪ watched room id else watched room id ∖ {[p]})
       else watched room s) ->
  let r := (set_watching env (screen_router room) id p on).1 in
  room_ok (mkRoom (sessions room) (streaming_peers room) ws (voice_router room) r).
Proof.
  intros Hok Hne Hon Hws r. subst r. pose proof Hok as [].
  destruct (set_watching_watching env (screen_router room) id p on rk_screen_open0 Hne) as [Hs Hw].
  apply screen_ok; try done.
  - by apply (set_watching_outcome True env _ id p on).
  - pose proof (set_watching_delays env (screen_router room) id p on) as E. unfold delays in E.
    injection E as E _ _ _. by rewrite <- rk_screen_open0.
  - intros q. rewrite Hs. apply rk_streamers0.
  - intros s q. rewrite Hws, Hw. destruct (decide (s = id)) as [-> | Hs'].
    + destruct on; rewrite ?elem_of_union, ?elem_of_difference, elem_of_singleton, rk_watchers0;
        case_decide; naive_solver.
    + rewrite decide_False by naive_solver. apply rk_watchers0.
  - intros s q. rewrite Hws. destruct (decide (s = id)) as [-> | Hs']; [| apply rk_watching0].
    destruct on.
    + destruct (Hon eq_refl) as (Hid & Hp & _). rewrite elem_of_union, elem_of_singleton.
      intros [-> | Hq]; [done | by apply rk_watching0].
    + rewrite elem_of_difference. intros [Hq _]. by apply rk_watching0.
  - intros s. rewrite Hws. destruct (decide (s = id)) as [-> | Hs']; [| apply rk_capacity0].
    destruct on; [by apply Hon |]. etrans; [apply subseteq_size | apply (rk_capacity0 id)]. set_solver.
Qed.

Lemma forget_watcher_spec id (ws : gmap PeerId (gset PeerId)) s :
  default ∅ (forget_watcher id ws !! s) = if decide (s = id) then ∅ else default ∅ (ws !! s) ∖ {[id]}.
Proof.
  unfold forget_watcher. rewrite lookup_omap. destruct (decide (s = id)) as [-> | Hne].
  - by rewrite lookup_delete_eq.
  - rewrite lookup_delete_ne by done. destruct (ws !! s) as [set |]; simpl; [| set_solver].
    case_decide as He; simpl; [by rewrite He | done].
Qed.

Lemma leave_ok (env : Env Media) room id :
  room_ok room ->
  let voice := (VoiceRouter.remove_peer env (voice_router room) id).1 in
  let screen := (ScreenRouter.remove_peer env (screen_router room) id).1 in
  room_ok (mkRoom (delete id (sessions room)) (streaming_peers room ∖ {[id]})
             (forget_watcher id (video_watchers room)) voice screen).
Proof.
  intros [] voice screen. subst voice screen.
  destruct (remove_peer_watching env (screen_router room) id rk_screen_open0) as [Hs Hw].
  split; simpl.
  - rewrite remove_peer_removed by done. by apply removed_spec.
  - pose proof (voice_remove_peer_delays env (voice_router room) id) as E.
    unfold VoiceFrames.delays in E. injection E as E _ _ _. congruence.
  - by apply remove_peer_outcome.
  - pose proof (remove_peer_delays env (screen_router room) id) as E. unfold delays in E.
    injection E as E _ _ _. congruence.
  - intros p. rewrite Hs, elem_of_difference, elem_of_singleton, rk_streamers0. case_decide; naive_solver.
  - intros s p. unfold watched. simpl. rewrite forget_watcher_spec, Hw.
    destruct (decide (s = id)) as [-> | Hne]; [set_solver |].
    rewrite elem_of_difference, elem_of_singleton. change (default ∅ _) with (watched room s).
    rewrite rk_watchers0. naive_solver.
  - intros p. rewrite elem_of_difference, elem_of_singleton. intros [Hp Hne].
    rewrite lookup_delete_ne by done. by apply rk_streaming_member0.
  - intros s p. unfold watched. simpl. rewrite forget_watcher_spec.
    destruct (decide (s = id)) as [-> | Hne]; [by intros ?%elem_of_empty |].
    rewrite elem_of_difference, elem_of_singleton. intros [Hp Hpid].
    rewrite !lookup_delete_ne by done. by apply rk_watching0.
  - intros s. unfold watched. simpl. rewrite forget_watcher_spec.
    etrans; [apply subseteq_size | apply (rk_capacity0 s)]. unfold watched. case_decide; set_solver.
Qed.

Lemma voice_ok room r :
  room_ok room -> VoiceInvariant.wf VoiceInvariant.nobody r -> VoiceRouter.closed r = false ->
  room_ok (with_voice room r).
Proof. intros [] *. by split. Qed.

(** A step of the screen router that leaves streams and watches alone. *)
Lemma quiet_screen_ok room r :
  room_ok room -> wf nobody r -> closed r = false -> same_watching (screen_router room) r ->
  room_ok (with_screen room r).
Proof.
  intros Hok Hwf Hc [Hs Hw]. pose proof Hok as []. apply screen_ok; try done.
  - intros p. rewrite Hs. apply rk_streamers0.
  - intros s p. rewrite Hw. apply rk_watchers0.
Qed.

Lemma voice_track_ok (env : Env Media) next room owner track :
  room_ok room ->
  room_ok (with_voice room (VoiceRouter.register_track env next (voice_router room) owner track (Some owner)).1.1).
Proof.
  intros Hok. apply voice_ok; [done | |].
  - pose proof (register_track_outcome env next (voice_router room) owner track (rk_voice _ Hok)) as Ho.
    destruct (VoiceRouter.register_track _ _ _ _ _ _) as [[r n] effs]. apply Ho.
  - pose proof (register_track_delays env next (voice_router room) owner track (Some owner)) as E.
    unfold VoiceFrames.delays in E. injection E as E _ _ _. rewrite E. apply Hok.
Qed.

Lemma screen_track_ok (env : Env Media) next room owner track :
  room_ok room ->
  room_ok (with_screen room (register_track env next (screen_router room) owner track (Some owner)).1.1).
Proof.
  intros Hok. apply quiet_screen_ok; [done | | |].
  - pose proof (screen_register_track_outcome env next (screen_router room) owner track (rk_screen _ Hok)) as Ho.
    destruct (register_track _ _ _ _ _ _) as [[r n] effs]. apply Ho.
  - pose proof (screen_register_track_delays env next (screen_router room) owner track (Some owner)) as E.
    unfold delays in E. injection E as E _ _ _. rewrite E. apply Hok.
  - apply screen_register_track_watching.
Qed.

Lemma update_faults_ok room config :
  room_ok room ->
  room_ok (with_screen (with_voice room (VoiceRouter.update_fault_config (voice_router room) config))
             (ScreenRouter.update_fault_config (screen_router room) config)).
Proof.
  intros Hok. apply quiet_screen_ok; [apply voice_ok; [done | |] | | |]; simpl.
  - by destruct (VoiceInvariant.exec_progress (Media := Media) _ (VoiceInvariant.UpdateFaultConfig config) _ _ (rk_voice _ Hok) eq_refl).
  - apply Hok.
  - by destruct (screen_exec_progress (Media := Media) _ (UpdateFaultConfig config) _ _ (rk_screen _ Hok) eq_refl).
  - apply Hok.
  - done.
Qed.

(** ** Packets and timers leave rooms in order *)

Definition voice_forwards (op : VoiceInvariant.Op (Media := Media)) : Prop :=
  match op with
  | VoiceInvariant.RoutePacket _ _ _ _ _ | VoiceInvariant.TimerFires _
  | VoiceInvariant.ForwardDelayed _ _ => True
  | _ => False
  end.

Definition screen_forwards (op : Op (Media := Media)) : Prop :=
  match op with
  | RoutePacket _ _ _ _ _ _ | TimerFires _ | ForwardDelayed _ _ | RequestKeyframeOf _ _ => True
  | _ => False
  end.

Lemma voice_forwards_closed r op r' new :
  voice_forwards op -> VoiceInvariant.exec r op = Some (r', new) ->
  VoiceRouter.closed r' = VoiceRouter.closed r.
Proof.
  destruct op as [| env now p expected pkt | now | env item | | |]; try done; intros _; simpl; intros He.
  - apply bind_Some_inv in He as ([r1 routed] & Hr & [= <- _]). unfold VoiceRouter.route_locked in Hr.
    destruct (VoiceRouter.closed r) eqn:Hc; [by injection Hr as <- _ |].
    destruct (VoiceRouter.peers r !! p) as [peer |]; [| by injection Hr as <- _].
    destruct (negb (VoiceRouter.is_source _ _ _)); [by injection Hr as <- _ |].
    destruct (negb _ && _); [injection Hr as <- _; by destruct (IsRtcp pkt) |].
    destruct (apply_rtp_faults _ _ _ _). apply bind_Some_inv in Hr as (s1 & _ & Hr).
    apply bind_Some_inv in Hr as (s2 & _ & Hr). injection Hr as <- _. simpl. by destruct (IsRtcp pkt).
  - injection He as <- _. unfold VoiceRouter.take_due. destruct (VoiceRouter.closed r) eqn:Hc; [done |].
    by destruct (pop_due _ _).
  - destruct (VoiceRouter.forward_locked env r item) as [r1 routed] eqn:Hr. injection He as <- _.
    unfold VoiceRouter.forward_locked in Hr. destruct (VoiceRouter.closed r) eqn:Hc; [by injection Hr as <- _ |].
    destruct (VoiceRouter.peers r !! _); [| by injection Hr as <- _].
    destruct (negb _); by injection Hr as <- _.
Qed.

Lemma same_core_watching r r' : same_core r r' -> same_watching r r'.
Proof.
  intros [_ Hs]. split; intros p; specialize (Hs p); unfold streams, watches;
    destruct (peers r !! p), (peers r' !! p); simpl in *; try done; unfold core in Hs; simplify_eq; done.
Qed.

Lemma screen_forwards_quiet r op r' new :
  screen_forwards op -> exec r op = Some (r', new) ->
  closed r' = closed r /\ same_watching r r'.
Proof.
  destruct op as [| | | | | env now p kind expected pkt | now | env item | | env w | |]; try done;
    intros _; simpl; intros He.
  - apply bind_Some_inv in He as ([r1 routed] & Hr & [= <- _]).
    destruct (screen_route_locked_spec _ _ _ _ _ _ _ _ _ Hr) as [Hsame _].
    split; [| by apply same_core_watching]. unfold route_locked in Hr.
    destruct (closed r) eqn:Hc; [by injection Hr as <- _ |].
    destruct (peers r !! p) as [peer |]; [| by injection Hr as <- _].
    destruct (negb (is_source _ _ _ _)); [by injection Hr as <- _ |].
    destruct (negb _ && _); [injection Hr as <- _; by destruct (IsRtcp pkt) |].
    destruct (apply_rtp_faults _ _ _ _). apply bind_Some_inv in Hr as (s1 & _ & Hr).
    apply bind_Some_inv in Hr as (s2 & _ & Hr). injection Hr as <- _. simpl. by destruct (IsRtcp pkt).
  - injection He as <- _. unfold take_due. destruct (closed r) eqn:Hc; [done |].
    destruct (pop_due _ _). simpl. rewrite Hc. done.
  - destruct (forward_locked env r item) as [r1 routed] eqn:Hr. injection He as <- _.
    destruct (screen_forward_locked_spec _ _ _ _ _ Hr) as [Hsame _].
    split; [| by apply same_core_watching].
    unfold forward_locked in Hr. destruct (closed r) eqn:Hc; [by injection Hr as <- _ |].
    destruct (peers r !! _); [| by injection Hr as <- _].
    destruct (negb _); by injection Hr as <- _.
  - injection He as <- _. by destruct (request_keyframe_spec (Media := Media) env r w) as (k & -> & _).
Qed.

Lemma voice_runs_ok room op r new :
  room_ok room -> voice_forwards op -> VoiceInvariant.exec (voice_router room) op = Some (r, new) ->
  room_ok (with_voice room r).
Proof.
  intros Hok Hf He. apply voice_ok; [done | |].
  - by destruct (VoiceInvariant.exec_progress _ _ _ _ (rk_voice _ Hok) He).
  - rewrite (voice_forwards_closed _ _ _ _ Hf He). apply Hok.
Qed.

Lemma screen_runs_ok room op r new :
  room_ok room -> screen_forwards op -> exec (screen_router room) op = Some (r, new) ->
  room_ok (with_screen room r).
Proof.
  intros Hok Hf He. destruct (screen_forwards_quiet _ _ _ _ Hf He) as [Hc Hw].
  apply quiet_screen_ok; [done | | rewrite Hc; apply Hok | done].
  by destruct (screen_exec_progress _ _ _ _ (rk_screen _ Hok) He).
Qed.

Lemma voice_sends_ok room h :
  room_ok room -> same_generations (VoiceRouter.rewriters (voice_router room)) h ->
  room_ok (with_voice room (VoiceRouter.with_heap (voice_router room) h)).
Proof.
  intros Hok Hh. apply voice_ok; [done | | apply Hok].
  apply (sound_send _ _ voice_sound); [apply Hok | done].
Qed.

Lemma screen_sends_ok room h :
  room_ok room -> same_generations (rewriters (screen_router room)) h ->
  room_ok (with_screen room (with_heap (screen_router room) h)).
Proof.
  intros Hok Hh. apply quiet_screen_ok; [done | | apply Hok | done].
  apply (sound_send _ _ screen_sound); [apply Hok | done].
Qed.

(** ** The world: the server and what every client made of its messages *)

Inductive Handler : Type :=
  | Accepted (id : PeerId) (room_id : RoomId) (username : Username)
  | ReadMessage (env : Env Media) (id : PeerId) (room_id : RoomId) (m : Message)
  | SessionCloses (env : Env Media) (id : PeerId) (room_id : RoomId)
  | VoiceTrack (env : Env Media) (next_ssrc : Z) (owner : PeerId) (room_id : RoomId)
      (track : option (Track Media))
  | ScreenTrack (env : Env Media) (next_ssrc : Z) (owner : PeerId) (room_id : RoomId)
      (track : option (Track Media))
  | FaultsUpdated (config : RtpFaultConfig)
  | Stopped (env : Env Media).

Definition handle (s : Server) (h : Handler) : option (Server * list Outgoing) :=
  match h with
  | Accepted id room_id username => on_accept dumps s id room_id username
  | ReadMessage env id room_id m => on_read dumps env s id room_id m
  | SessionCloses env id room_id => Some (on_close env s id room_id)
  | VoiceTrack env next owner room_id track => Some (register_voice_track env next s owner room_id track)
  | ScreenTrack env next owner room_id track => Some (register_screen_track env next s owner room_id track)
  | FaultsUpdated config => Some (update_fault_config s config, [])
  | Stopped env => Some (stop env s)
  end.

Definition member (s : Server) (room_id : RoomId) (p : PeerId) : Prop :=
  exists room, rooms s !! room_id = Some room /\ is_Some (sessions room !! p).

(** A session's id is new ([generate_id] draws 64 random bits), and no message
    is read for a session after it was unregistered. *)
Definition admissible (s : Server) (h : Handler) : Prop :=
  match h with
  | Accepted id _ _ => forall room_id, ~ member s room_id id
  | ReadMessage _ id room_id _ => is_Some (rooms s !! room_id) -> member s room_id id
  | _ => True
  end.

(** A session that is accepted belongs to a new client. *)
Definition connected (h : Handler) (clients : PeerId -> Client) : PeerId -> Client :=
  match h with
  | Accepted id _ _ => fun p => if decide (p = id) then new_client else clients p
  | _ => clients
  end.

Record World := mkWorld { server : Server; clients : PeerId -> Client }.

Definition room_step (w : World) (room_id : RoomId) (room : Room) : World :=
  mkWorld (set_room (server w) room_id room) (clients w).

Inductive step : relation World :=
  | Handles w h s' out :
      admissible (server w) h -> handle (server w) h = Some (s', out) ->
      step w (mkWorld s' (fun p => listen (connected h (clients w) p) p out))
  | VoiceRuns w room_id room op r new :
      rooms (server w) !! room_id = Some room -> voice_forwards op ->
      VoiceInvariant.exec (voice_router room) op = Some (r, new) ->
      step w (room_step w room_id (with_voice room r))
  | ScreenRuns w room_id room op r new :
      rooms (server w) !! room_id = Some room -> screen_forwards op ->
      exec (screen_router room) op = Some (r, new) ->
      step w (room_step w room_id (with_screen room r))
  | VoiceSends w room_id room h :
      rooms (server w) !! room_id = Some room ->
      same_generations (VoiceRouter.rewriters (voice_router room)) h ->
      step w (room_step w room_id (with_voice room (VoiceRouter.with_heap (voice_router room) h)))
  | ScreenSends w room_id room h :
      rooms (server w) !! room_id = Some room ->
      same_generations (rewriters (screen_router room)) h ->
      step w (room_step w room_id (with_screen room (with_heap (screen_router room) h))).

Inductive reachable (config : RtpFaultConfig) : World -> Prop :=
  | Starts clients : reachable config (mkWorld (new_server config) clients)
  | Steps w w' : reachable config w -> step w w' -> reachable config w'.

Record world_ok (w : World) : Prop := {
  wo_room room_id room : rooms (server w) !! room_id = Some room -> room_ok room /\ sessions room <> ∅;
  wo_sees room_id room p :
    rooms (server w) !! room_id = Some room -> is_Some (sessions room !! p) -> sees room p (clients w p);
  wo_one a b p : member (server w) a p -> member (server w) b p -> a = b;
  wo_stopped : stopping (server w) = true -> rooms (server w) = ∅;
}.

(** One room changes; nobody enters it. *)
Lemma world_room w room_id room room' cl' :
  world_ok w -> rooms (server w) !! room_id = Some room ->
  room_ok room' -> sessions room' = sessions room ->
  (forall p, is_Some (sessions room !! p) -> sees room p (clients w p) -> sees room' p (cl' p)) ->
  (forall p, ~ is_Some (sessions room !! p) -> cl' p = clients w p) ->
  world_ok (mkWorld (set_room (server w) room_id room') cl').
Proof.
  intros [] Hr Hok Hs Hsees Hrest.
  assert (forall b p, member (set_room (server w) room_id room') b p <-> member (server w) b p) as Hm.
  { intros b p. unfold member. simpl. destruct (decide (room_id = b)) as [<- | Hne].
    - rewrite lookup_insert_eq, Hr. split; intros (x & [= <-] & Hx); [exists room | exists room'];
        by rewrite ?Hs in *.
    - by rewrite lookup_insert_ne. }
  split; simpl.
  - intros b x. destruct (decide (room_id = b)) as [<- | Hne].
    + rewrite lookup_insert_eq. intros [= <-]. rewrite Hs. split; [done |]. by apply (wo_room0 room_id).
    + rewrite lookup_insert_ne by done. apply wo_room0.
  - intros b x p. destruct (decide (room_id = b)) as [<- | Hne].
    + rewrite lookup_insert_eq. intros [= <-]. rewrite Hs. intros Hp. apply Hsees; [done |].
      by apply (wo_sees0 room_id).
    + rewrite lookup_insert_ne by done. intros Hx Hp. rewrite Hrest; [by apply (wo_sees0 b) |].
      intros Hin. apply Hne. apply (wo_one0 room_id b p); [by exists room | by exists x].
  - intros a b p. rewrite !Hm. apply wo_one0.
  - intros Hst. rewrite (wo_stopped0 Hst) in Hr. by rewrite lookup_empty in Hr.
Qed.

(** A router takes a step nobody hears of. *)
Lemma world_router w room_id room room' out :
  world_ok w -> rooms (server w) !! room_id = Some room ->
  room_ok room' -> sessions room' = sessions room -> streaming_peers room' = streaming_peers room ->
  (forall p c, listen c p out = c) ->
  world_ok (mkWorld (set_room (server w) room_id room') (fun p => listen (clients w p) p out)).
Proof.
  intros Hw Hr Hok Hs Hst Hq. apply (world_room w room_id room); try done.
  intros p _ Hp. rewrite Hq. by apply (sees_same room).
Qed.

Lemma world_quiet w cl' : world_ok w -> (forall p, cl' p = clients w p) -> world_ok (mkWorld (server w) cl').
Proof. intros [] Hcl. split; simpl; try done. intros *. rewrite Hcl. apply wo_sees0. Qed.

Lemma no_member_room (s : Server) room_id id room :
  ~ member s room_id id -> rooms s !! room_id = Some room -> sessions room !! id = None.
Proof. intros Hno Hr. apply eq_None_not_Some. intros Hid. apply Hno. by exists room. Qed.

(** Someone enters a room, which may be new. *)
Lemma accept_ok w id room_id username s' out :
  world_ok w -> (forall r, ~ member (server w) r id) ->
  on_accept dumps (server w) id room_id username = Some (s', out) ->
  world_ok (mkWorld s' (fun p => listen (if decide (p = id) then new_client else clients w p) p out)).
Proof.
  intros Hw Hno. unfold on_accept, register_and_build_welcome. pose proof Hw as [].
  destruct (stopping (server w)) eqn:Hst; simpl.
  { intros [= <- <-]. split; simpl; try done.
    - intros b x p Hx. by rewrite wo_stopped0 in Hx.
    - intros _. by apply wo_stopped0. }
  set (room := default (new_room _) _). set (welcome := Welcome _ _ _). set (joined := PeerJoined _ _).
  destruct (negb (dumps welcome)); [done |]. destruct (negb (dumps joined)); [done |]. simpl.
  assert (room_ok room /\ sessions room !! id = None) as [Hok Hid].
  { unfold room. destruct (rooms (server w) !! room_id) as [x |] eqn:Hr; simpl.
    - split; [by apply (wo_room0 room_id) | by eapply no_member_room].
    - split; [apply new_room_ok | apply lookup_empty]. }
  rewrite Hid. set (room' := mkRoom _ _ _ _ _). intros [= <- <-].
  assert (forall p, is_Some (sessions room' !! p) <-> p = id \/ is_Some (sessions room !! p)) as Hin.
  { intros p. unfold room'. simpl. rewrite lookup_insert_is_Some. destruct (decide (id = p)); naive_solver. }
  assert (forall c p, listen c p (((fun q => Send q joined) <$> session_loop room) ++ [Send id welcome])
    = if decide (p = id) then on_ws_message c welcome
      else if decide (is_Some (sessions room !! p)) then on_ws_message c joined else c) as Hlisten.
  { intros c p. unfold listen. rewrite messages_to_app, messages_to_all by apply session_loop_NoDup.
    rewrite messages_to_cons. destruct (decide (p = id)) as [-> | Hne].
    - rewrite decide_False by (rewrite session_loop_spec, Hid; by intros []). simpl. by rewrite decide_True.
    - rewrite (decide_False (P := id = p)) by congruence.
      destruct (decide (is_Some (sessions room !! p)));
        [rewrite decide_True by by apply session_loop_spec
        | rewrite decide_False by by rewrite session_loop_spec]; done. }
  assert (forall b p, member (set_room (server w) room_id room') b p
    <-> (b = room_id /\ p = id) \/ member (server w) b p) as Hm.
  { intros b p. unfold member. simpl. destruct (decide (room_id = b)) as [<- | Hne].
    - rewrite lookup_insert_eq. split.
      + intros (x & [= <-] & Hx). apply Hin in Hx as [-> | Hx]; [by left | right]. unfold room in Hx.
        destruct (rooms (server w) !! room_id) as [x |]; simpl in Hx; [by exists x |].
        rewrite lookup_empty in Hx. by destruct Hx.
      + intros Hx. exists room'. split; [done |]. apply Hin. destruct Hx as [[_ ->] | (x & Hr & Hx)]; [by left | right].
        unfold room. by rewrite Hr.
    - rewrite lookup_insert_ne by done. naive_solver. }
  split; simpl.
  - intros b x. destruct (decide (room_id = b)) as [<- | Hne]; [rewrite lookup_insert_eq | by rewrite lookup_insert_ne; eauto].
    intros [= <-]. split; [| by apply insert_non_empty]. apply join_ok; [done |]. intros p Hp. by apply Hin; right.
  - intros b x p Hx Hp. rewrite Hlisten. destruct (decide (room_id = b)) as [<- | Hne].
    + rewrite lookup_insert_eq in Hx. injection Hx as <-.
      destruct (decide (p = id)) as [-> | Hne].
      * apply sees_welcome; [done | | | done].
        -- intros Hst'. apply (rk_streaming_member _ Hok) in Hst'. rewrite Hid in Hst'. by destruct Hst'.
        -- intros q Hq. simpl. by rewrite lookup_insert_ne.
      * apply Hin in Hp as [| Hp]; [done |]. rewrite decide_True by done.
        apply (sees_joined room); try done. unfold room in Hp |- *.
        destruct (rooms (server w) !! room_id) as [x |] eqn:Hr; simpl in *; [by eapply wo_sees0 |].
        rewrite lookup_empty in Hp. by destruct Hp.
    + rewrite lookup_insert_ne in Hx by done.
      assert (p <> id) as Hpid by (intros ->; apply (Hno b); by exists x).
      rewrite !(decide_False (P := p = id)) by done. rewrite decide_False; [by eapply wo_sees0 |].
      intros Hr. apply Hne. apply (wo_one0 room_id b p); [| by exists x]. unfold room in Hr.
      destruct (rooms (server w) !! room_id) as [y |] eqn:Hy; simpl in Hr; [by exists y |].
      rewrite lookup_empty in Hr. by destruct Hr.
  - intros a b p. rewrite !Hm. intros [[-> ->] | Ha] [[-> Heq] | Hb]; subst; try done.
    + by apply Hno in Hb.
    + by apply Hno in Ha.
    + by eapply wo_one0.
  - intros Hs. congruence.
Qed.

Lemma listen_broadcast c p from m (room : Room) :
  listen c p ((fun q => Send q m) <$> filter (fun q => q <> from) (session_loop room))
  = if decide (p <> from /\ is_Some (sessions room !! p)) then on_ws_message c m else c.
Proof.
  unfold listen. rewrite messages_to_all by (apply NoDup_filter, session_loop_NoDup).
  destruct (decide (p <> from /\ is_Some (sessions room !! p))) as [Hp | Hp].
  - rewrite decide_True by (apply list_elem_of_filter; by rewrite session_loop_spec). done.
  - rewrite decide_False by (rewrite list_elem_of_filter; by rewrite session_loop_spec). done.
Qed.

(** The members hear that [id] starts or stops streaming. *)
Lemma streaming_ok w (env : Env Media) id room_id (on : bool) s1 effs :
  world_ok w -> (is_Some (rooms (server w) !! room_id) -> member (server w) room_id id) ->
  (if on then add_streaming_peer env (server w) id room_id
   else remove_streaming_peer env (server w) id room_id) = (s1, effs) ->
  let m := if on then StreamingStart (Some id) else StreamingStop (Some id) in
  world_ok (mkWorld s1 (fun p => listen (clients w p) p (effs ++ broadcast s1 id room_id m))).
Proof.
  intros Hw Hin Hs m. destruct (rooms (server w) !! room_id) as [room |] eqn:Hr.
  2: { assert (s1 = server w /\ effs = []) as [-> ->].
       { destruct on; unfold add_streaming_peer, remove_streaming_peer in Hs; rewrite Hr in Hs;
           by injection Hs as <- <-. }
       apply world_quiet; [done |]. intros p. unfold broadcast. by rewrite Hr. }
  destruct (Hin ltac:(by eexists)) as (x & Hx & Hid). assert (x = room) as -> by congruence.
  destruct (wo_room _ Hw _ _ Hr) as [Hok _].
  pose proof (set_streaming_ok env room id on Hok (fun _ => Hid)) as Hok'.
  set (streaming' := if on then _ else _) in Hok'.
  assert (s1 = set_room (server w) room_id (mkRoom (sessions room) streaming' (video_watchers room)
            (voice_router room) (set_streaming env (screen_router room) id on).1)
    /\ effs = deliver Screen <$> (set_streaming env (screen_router room) id on).2) as [-> ->].
  { unfold streaming'. destruct on; unfold add_streaming_peer, remove_streaming_peer in Hs; rewrite Hr in Hs;
      simpl in Hs; destruct (set_streaming _ _ _ _) as [r e]; by injection Hs as <- <-. }
  set (room' := mkRoom _ _ _ _ _) in *.
  assert (forall c p, listen c p ((deliver Screen <$> (set_streaming env (screen_router room) id on).2)
            ++ broadcast (set_room (server w) room_id room') id room_id m)
    = if decide (p <> id /\ is_Some (sessions room !! p)) then on_ws_message c m else c) as Hl.
  { intros c p. rewrite listen_app, listen_deliver. unfold broadcast. simpl. rewrite lookup_insert_eq.
    apply (listen_broadcast c p id m room). }
  apply (world_room w room_id room); [done | done | exact Hok' | done | |].
  - intros p Hp [Hk Hn Hst]. rewrite Hl. destruct (decide (p = id)) as [-> | Hne].
    + rewrite decide_False by naive_solver. split; [done | done |]. intros q. rewrite Hst.
      unfold room', streaming'. simpl. destruct on; set_solver.
    + rewrite decide_True by done. unfold m. destruct on; simpl; (split; [done | done |]);
        intros q; simpl; unfold room', streaming'; simpl; set_solver.
  - intros p Hp. rewrite Hl. rewrite decide_False by naive_solver. done.
Qed.

Lemma watch_rejection_None room id p :
  watch_rejection room id p = None ->
  is_Some (sessions room !! p) /\ id <> p /\ p ∈ streaming_peers room
  /\ (p ∈ watched room id \/ size (watched room id) < kScreenReceiveSlots).
Proof.
  unfold watch_rejection. destruct (String.eqb_spec id p) as [| Hne]; [by rewrite orb_true_r |].
  rewrite orb_false_r. case_bool_decide as Hp; [done |]. case_bool_decide as Hst; [| done]. simpl.
  case_bool_decide as Hw.
  - intros _. split_and!; try done; [by destruct (sessions room !! p) | by left].
  - case_bool_decide as Hc; [done |]. intros _.
    split_and!; try done; [by destruct (sessions room !! p) |]. right. lia.
Qed.

(** What was sent to one peer and concerns no room. *)
Lemma listen_reject c p id q reason : listen c p [Send id (WatchRejected q reason)] = c.
Proof. unfold listen. rewrite messages_to_cons. by case_decide. Qed.

Lemma watch_ok w (env : Env Media) id room_id p :
  world_ok w ->
  let '(s1, effs) := add_video_watcher env (server w) id room_id p in
  world_ok (mkWorld s1 (fun q => listen (clients w q) q effs)).
Proof.
  intros Hw. assert (world_ok (mkWorld (server w) (fun q => listen (clients w q) q []))) as Hquiet
    by by apply world_quiet.
  unfold add_video_watcher. destruct (rooms (server w) !! room_id) as [room |] eqn:Hr; [| done].
  destruct (sessions room !! id) as [u |] eqn:Hid; [| done].
  destruct (watch_rejection room id p) as [reason |] eqn:Hrej.
  { apply world_quiet; [done |]. intros q. apply listen_reject. }
  case_bool_decide as Hp; [done |].
  destruct (watch_rejection_None _ _ _ Hrej) as (Hpin & Hne & Hst & [| Hsize]); [done |].
  destruct (wo_room _ Hw _ _ Hr) as [Hok _].
  pose proof (set_watching_ok env room id p true
    (<[id := {[p]} ∪ watched room id]> (video_watchers room)) Hok Hne) as Hok'. simpl in Hok'.
  simpl. destruct (set_watching _ _ _ _ _) as [r e]. apply (world_router w room_id room); try done.
  - apply Hok'.
    + intros _. split_and!; [by eexists | done |].
      rewrite size_union by set_solver. rewrite size_singleton. lia.
    + intros s. case_decide as Hs; [subst; by rewrite lookup_insert_eq | by rewrite lookup_insert_ne].
  - intros q c. apply listen_deliver.
Qed.

Lemma unwatch_ok w (env : Env Media) id room_id p :
  world_ok w ->
  let '(s1, effs) := remove_video_watcher env (server w) id room_id p in
  world_ok (mkWorld s1 (fun q => listen (clients w q) q effs)).
Proof.
  intros Hw. assert (world_ok (mkWorld (server w) (fun q => listen (clients w q) q []))) as Hquiet
    by by apply world_quiet.
  unfold remove_video_watcher. destruct (rooms (server w) !! room_id) as [room |] eqn:Hr; [| done].
  set (ws := match video_watchers room !! id with Some _ => _ | None => _ end).
  destruct (wo_room _ Hw _ _ Hr) as [Hok _].
  assert (forall s, default ∅ (ws !! s) = if decide (s = id) then watched room id ∖ {[p]} else watched room s) as Hws.
  { intros s. unfold ws, watched. destruct (video_watchers room !! id) as [set |] eqn:Hset.
    - destruct (decide (set ∖ {[p]} = ∅)) as [He | He]; case_decide as Hs; subst.
      + rewrite lookup_delete_eq. simpl. by rewrite He.
      + by rewrite lookup_delete_ne.
      + by rewrite lookup_insert_eq.
      + by rewrite lookup_insert_ne.
    - case_decide; [| done]. subst. rewrite Hset. simpl. set_solver. }
  simpl. destruct (decide (id = p)) as [-> | Hne].
  - assert (set_watching env (screen_router room) p p false = (screen_router room, [])) as ->
      by (unfold set_watching; by rewrite String.eqb_refl).
    apply (world_router w room_id room); try done.
    pose proof Hok as []. apply (screen_ok room (screen_router room) (streaming_peers room) ws); try done.
    + intros s q. rewrite Hws, <- rk_watchers0. case_decide; [| done]. subst. split; [set_solver |].
      intros Hq. apply elem_of_difference. split; [done |]. apply not_elem_of_singleton.
      by apply rk_watching0.
    + intros s q. rewrite Hws. case_decide; [subst; rewrite elem_of_difference; intros [? _] |]; by apply rk_watching0.
    + intros s. rewrite Hws. etrans; [apply subseteq_size | apply (rk_capacity0 s)]. case_decide; set_solver.
  - pose proof (set_watching_ok env room id p false ws Hok Hne ltac:(done) Hws) as Hok'. simpl in Hok'.
    destruct (set_watching _ _ _ _ _) as [r e]. apply (world_router w room_id room); try done.
    intros q c. apply listen_deliver.
Qed.

(** What the members left behind hear, and what it makes of their knowledge. *)
Definition farewell (was_streaming : bool) (id : PeerId) : list Message :=
  (if was_streaming then [StreamingStop (Some id)] else []) ++ [PeerLeft id].

Lemma sees_left (room room' : Room) s c id :
  s <> id -> sessions room' = delete id (sessions room) ->
  streaming_peers room' = streaming_peers room ∖ {[id]} -> sees room s c ->
  sees room' s (foldl on_ws_message c (farewell (bool_decide (id ∈ streaming_peers room)) id)).
Proof.
  intros Hne Hs Hst [Hk Hn Hp]. unfold farewell.
  set (c1 := if bool_decide (id ∈ streaming_peers room) then streaming_stopped c id else c).
  assert (foldl on_ws_message c ((if bool_decide (id ∈ streaming_peers room) then [StreamingStop (Some id)] else [])
            ++ [PeerLeft id]) = on_ws_message c1 (PeerLeft id)) as ->
    by (unfold c1; by destruct (bool_decide _)).
  assert (known_peers c1 = known_peers c /\ peer_usernames c1 = peer_usernames c) as [Ek En]
    by (unfold c1; by destruct (bool_decide _)).
  assert (forall p, p ∈ streamers c1 <-> p ∈ streamers c /\ p <> id) as Es.
  { intros p. unfold c1. case_bool_decide as Hid; simpl.
    - by rewrite elem_of_difference, elem_of_singleton.
    - split; [| by intros []]. intros Hin. split; [done |]. intros ->. by apply Hp in Hin as [_ ?]. }
  split; simpl.
  - intros p. rewrite Ek, elem_of_difference, elem_of_singleton, Hk, Hs, lookup_delete_is_Some. naive_solver.
  - intros p. rewrite En, Hs. destruct (decide (id = p)) as [<- | Hpid].
    + rewrite !lookup_delete_eq. by case_decide.
    + by rewrite !lookup_delete_ne.
  - intros p. rewrite Es, Hp, Hst, elem_of_difference, elem_of_singleton. naive_solver.
Qed.

Lemma close_session_ok w (env : Env Media) id room_id :
  world_ok w ->
  let '(s1, out) := on_close env (server w) id room_id in
  world_ok (mkWorld s1 (fun p => listen (clients w p) p out)).
Proof.
  intros Hw. unfold on_close.
  assert (forall c p out, listen c p (CloseMedia id :: out) = listen c p out) as Hclose
    by (intros; unfold listen; by rewrite messages_to_cons).
  assert (world_ok (mkWorld (server w) (fun p => listen (clients w p) p [CloseMedia id]))) as Hquiet.
  { apply world_quiet; [done |]. intros p. by rewrite Hclose. }
  unfold unregister_session. destruct (rooms (server w) !! room_id) as [room |] eqn:Hr; [| done].
  destruct (sessions room !! id) as [u |] eqn:Hid; [| done].
  destruct (wo_room _ Hw _ _ Hr) as [Hok _].
  pose proof (leave_ok env room id Hok) as Hok'. cbv zeta in Hok'.
  destruct (VoiceRouter.remove_peer env (voice_router room) id) as [voice unbound].
  destruct (ScreenRouter.remove_peer env (screen_router room) id) as [screen cleared].
  cbn [fst] in Hok'. set (room' := mkRoom _ _ _ _ _) in *.
  change (_ ++ [PeerLeft id]) with (farewell (bool_decide (id ∈ streaming_peers room)) id).
  set (ms := farewell _ id). set (effects := (deliver Voice <$> unbound) ++ _).
  assert (forall p, is_Some (sessions room' !! p) <-> id <> p /\ is_Some (sessions room !! p)) as Hin
    by (intros p; apply lookup_delete_is_Some).
  assert (forall c p, listen c p effects
    = if decide (is_Some (sessions room' !! p)) then foldl on_ws_message c ms else c) as Hl.
  { intros c p. unfold effects. rewrite !listen_app, !listen_deliver. unfold listen.
    rewrite messages_to_all2 by apply session_loop_NoDup.
    destruct (decide (is_Some (sessions room' !! p))).
    - by rewrite decide_True by by apply session_loop_spec.
    - by rewrite decide_False by by rewrite session_loop_spec. }
  destruct (decide (delete id (sessions room) = ∅)) as [He | He].
  - (* the room goes *)
    destruct (VoiceRouter.close env voice) as [v quiet]. destruct (ScreenRouter.close env screen) as [sc still].
    assert (forall p, ~ is_Some (sessions room' !! p)) as Hempty.
    { intros p. unfold room'. simpl. rewrite He, lookup_empty. by intros []. }
    assert (forall c p, listen c p (CloseMedia id :: effects ++ (deliver Voice <$> quiet) ++ (deliver Screen <$> still)) = c) as Hq.
    { intros c p. rewrite Hclose, !listen_app, !listen_deliver, Hl. by rewrite decide_False. }
    pose proof Hw as []. split; simpl.
    + intros b x Hx. apply lookup_delete_Some in Hx as [_ Hx]. by eapply wo_room0.
    + intros b x p Hx Hp. rewrite Hq. apply lookup_delete_Some in Hx as [_ Hx]. by eapply wo_sees0.
    + intros a b p (x & Hx & Hpx) (y & Hy & Hpy). simpl in Hx, Hy.
      apply lookup_delete_Some in Hx as [_ Hx], Hy as [_ Hy].
      apply (wo_one0 a b p); [by exists x | by exists y].
    + intros Hst. rewrite (wo_stopped0 Hst) in Hr. by rewrite lookup_empty in Hr.
  - pose proof Hw as [].
    assert (forall b p, member (set_room (server w) room_id room') b p -> member (server w) b p) as Hm.
    { intros b p (x & Hx & Hp). simpl in Hx. destruct (decide (room_id = b)) as [<- | Hne].
      - rewrite lookup_insert_eq in Hx. injection Hx as <-. apply Hin in Hp as [_ Hp]. by exists room.
      - rewrite lookup_insert_ne in Hx by done. by exists x. }
    split; simpl.
    + intros b x. destruct (decide (room_id = b)) as [<- | Hne]; [rewrite lookup_insert_eq | rewrite lookup_insert_ne by done; eauto].
      by intros [= <-].
    + intros b x p Hx Hp. rewrite Hclose, Hl. destruct (decide (room_id = b)) as [<- | Hne].
      * rewrite lookup_insert_eq in Hx. injection Hx as <-. rewrite decide_True by done.
        pose proof Hp as Hp'. apply Hin in Hp' as [Hpid Hp0].
        apply (sees_left room); try done. by eapply wo_sees0.
      * rewrite lookup_insert_ne in Hx by done. rewrite decide_False; [by eapply wo_sees0 |].
        intros Hp'. apply Hin in Hp' as [_ Hp']. apply Hne.
        apply (wo_one0 room_id b p); [by exists room | by exists x].
    + intros a b p Ha Hb. by apply (wo_one0 a b p); apply Hm.
    + intros Hst. rewrite (wo_stopped0 Hst) in Hr. by rewrite lookup_empty in Hr.
Qed.

Lemma voice_track_world w (env : Env Media) next owner room_id track :
  world_ok w ->
  let '(s1, out) := register_voice_track env next (server w) owner room_id track in
  world_ok (mkWorld s1 (fun p => listen (clients w p) p out)).
Proof.
  intros Hw. unfold register_voice_track.
  destruct (rooms (server w) !! room_id) as [room |] eqn:Hr; [| by apply world_quiet].
  pose proof (voice_track_ok env next room owner track (proj1 (wo_room _ Hw _ _ Hr))) as Hok.
  destruct (VoiceRouter.register_track _ _ _ _ _ _) as [[r n] effs].
  apply (world_router w room_id room); try done. intros p c. apply listen_deliver.
Qed.

Lemma screen_track_world w (env : Env Media) next owner room_id track :
  world_ok w ->
  let '(s1, out) := register_screen_track env next (server w) owner room_id track in
  world_ok (mkWorld s1 (fun p => listen (clients w p) p out)).
Proof.
  intros Hw. unfold register_screen_track.
  destruct (rooms (server w) !! room_id) as [room |] eqn:Hr; [| by apply world_quiet].
  pose proof (screen_track_ok env next room owner track (proj1 (wo_room _ Hw _ _ Hr))) as Hok.
  destruct (register_track _ _ _ _ _ _) as [[r n] effs].
  apply (world_router w room_id room); try done. intros p c. apply listen_deliver.
Qed.

Lemma faults_world w config : world_ok w -> world_ok (mkWorld (update_fault_config (server w) config) (clients w)).
Proof.
  intros []. split; simpl.
  - intros b x. rewrite lookup_fmap. destruct (rooms (server w) !! b) as [y |] eqn:E; [| done].
    intros [= <-]. destruct (wo_room0 _ _ E). split; [by apply update_faults_ok | done].
  - intros b x p. rewrite lookup_fmap. destruct (rooms (server w) !! b) as [y |] eqn:E; [| done].
    intros [= <-] Hp. apply (sees_same y); [done.. |]. by eapply wo_sees0.
  - intros a b p (x & Hx & Hpx) (y & Hy & Hpy). simpl in Hx, Hy. rewrite lookup_fmap in Hx, Hy.
    destruct (rooms (server w) !! a) as [xa |] eqn:Ea; [| done].
    destruct (rooms (server w) !! b) as [xb |] eqn:Eb; [| done]. injection Hx as <-. injection Hy as <-.
    apply (wo_one0 a b p); [by exists xa | by exists xb].
  - intros Hst. rewrite (wo_stopped0 Hst). apply fmap_empty.
Qed.

Lemma stop_world w (env : Env Media) cl' : world_ok (mkWorld (stop env (server w)).1 cl').
Proof.
  split; simpl; try done.
  intros a b p (x & Hx & _). simpl in Hx. by rewrite lookup_empty in Hx.
Qed.

Lemma server_step_ok w w' : world_ok w -> step w w' -> world_ok w'.
Proof.
  intros Hw Hs. destruct Hs as [w h s' out Hadm Hh | w room_id room op r new Hr Hf He
    | w room_id room op r new Hr Hf He | w room_id room h Hr Hh | w room_id room h Hr Hh].
  - destruct h as [id room_id u | env id room_id m | env id room_id | env next owner room_id track
      | env next owner room_id track | config | env]; simpl in Hadm, Hh |- *.
    + by eapply accept_ok.
    + destruct m; simpl in Hh;
        try (injection Hh as <- <-; apply world_quiet; [done | intros p; by unfold listen; rewrite ?messages_to_cons]).
      * destruct (add_streaming_peer _ _ _ _) as [s1 effs] eqn:E. destruct (dumps _); [| done].
        injection Hh as <- <-. by apply (streaming_ok w env id room_id true).
      * destruct (remove_streaming_peer _ _ _ _) as [s1 effs] eqn:E. destruct (dumps _); [| done].
        injection Hh as <- <-. by apply (streaming_ok w env id room_id false).
      * pose proof (watch_ok w env id room_id peer Hw) as Hok. injection Hh as Hh. by rewrite Hh in Hok.
      * pose proof (unwatch_ok w env id room_id peer Hw) as Hok. injection Hh as Hh. by rewrite Hh in Hok.
    + pose proof (close_session_ok w env id room_id Hw) as Hok. injection Hh as Hh. by rewrite Hh in Hok.
    + pose proof (voice_track_world w env next owner room_id track Hw) as Hok. injection Hh as Hh. by rewrite Hh in Hok.
    + pose proof (screen_track_world w env next owner room_id track Hw) as Hok. injection Hh as Hh. by rewrite Hh in Hok.
    + injection Hh as <- <-. by apply (faults_world w config).
    + injection Hh as Hs' _. rewrite <- Hs'. apply (stop_world w env).
  - eapply (world_router w room_id room _ []); try done. by eapply voice_runs_ok; [by eapply wo_room | |].
  - eapply (world_router w room_id room _ []); try done. by eapply screen_runs_ok; [by eapply wo_room | |].
  - eapply (world_router w room_id room _ []); try done. by apply voice_sends_ok; [by eapply wo_room |].
  - eapply (world_router w room_id room _ []); try done. by apply screen_sends_ok; [by eapply wo_room |].
Qed.

Lemma server_reachable_ok config w : reachable config w -> world_ok w.
Proof.
  induction 1 as [cl | w w' _ IH Hs]; [| by eapply server_step_ok].
  split; simpl; try done. intros a b p (x & Hx & _). simpl in Hx. by rewrite lookup_empty in Hx.
Qed.

(** ** Runs of handlers *)

Definition admissible_b (s : Server) (h : Handler) : bool :=
  match h with
  | Accepted id _ _ =>
    bool_decide (map_Forall (fun _ room => sessions room !! id = None) (rooms s))
  | ReadMessage _ id room_id _ =>
    match rooms s !! room_id with
    | Some room => bool_decide (is_Some (sessions room !! id))
    | None => true
    end
  | _ => true
  end.

Lemma admissible_b_sound s h : admissible_b s h = true -> admissible s h.
Proof.
  destruct h as [id room_id u | env id room_id m | | | | |]; try done; simpl.
  - intros Hall%bool_decide_eq_true r (room & Hr & Hid). apply Hall in Hr. simpl in Hr.
    rewrite Hr in Hid. by destruct Hid.
  - intros Hm [room Hr]. rewrite Hr in Hm. apply bool_decide_eq_true in Hm. by exists room.
Qed.

(** Handlers that are inadmissible or end the process are left out. *)
Definition world_handle (w : World) (h : Handler) : World :=
  if admissible_b (server w) h then
    match handle (server w) h with
    | Some (s', out) => mkWorld s' (fun p => listen (connected h (clients w) p) p out)
    | None => w
    end
  else w.

Lemma world_handle_reachable config w h : reachable config w -> reachable config (world_handle w h).
Proof.
  intros Hr. unfold world_handle. destruct (admissible_b _ _) eqn:Ha; [| done].
  destruct (handle _ _) as [[s' out] |] eqn:Hh; [| done].
  eapply Steps; [exact Hr |]. by apply Handles; [apply admissible_b_sound |].
Qed.

Definition world_run (config : RtpFaultConfig) (hs : list Handler) : World :=
  foldl world_handle (mkWorld (new_server config) (fun _ => new_client)) hs.

Lemma world_run_reachable config hs : reachable config (world_run config hs).
Proof.
  apply (foldl_inv (reachable config)); [apply Starts |]. intros w h. apply world_handle_reachable.
Qed.
End Server.
