(* ===== verification/ServerProperties.v ===== *)
(** * What the server guarantees

    Rooms, presence, watching and shutdown, over every order of handlers,
    packets and timers. *)

From S2P Require Import Prelude RtpRewrite RtpSlot SfuMedia Signaling Transport RouterCommon SendLoops.
From S2P Require Import Samples VoiceRouter VoiceInvariant ScreenRouter ScreenInvariant ScreenFrames.
From S2P Require Import Server ServerInvariant.

Local Open Scope list_scope.

Section Properties.
Context `{Platform} `{IterationOrder} {Media : Type} `{MediaApi Media, !SlotMedia Media}.
Variable dumps : Message -> bool.

(** C6 Rooms are sound: in every reachable state a room has members; only
    members stream, watch or are watched, nobody watches herself or more than
    eight publishers; both routers are open and well-formed; the screen router
    streams and binds exactly for whom the room says so; and a session is in at
    most one room. *)
Theorem rooms_sound config w :
  reachable dumps config w ->
  (forall room_id room, rooms (server w) !! room_id = Some room -> room_ok room /\ sessions room <> ∅)
  /\ (forall a b p, member (server w) a p -> member (server w) b p -> a = b)
  /\ (stopping (server w) = true -> rooms (server w) = ∅).
Proof. intros Hr. by destruct (server_reachable_ok dumps config w Hr). Qed.

(** C1 Presence: in every reachable state each client that applied the
    messages handed to its session knows exactly the other members of its room,
    their names, and which of them stream. *)
Theorem presence_known config w room_id room p :
  reachable dumps config w ->
  rooms (server w) !! room_id = Some room -> is_Some (sessions room !! p) ->
  sees room p (clients w p).
Proof. intros Hr. apply (server_reachable_ok dumps config w Hr). Qed.

(** ** Isolation of rooms *)

(** A message about the room, not about a media track. *)
Definition room_message (m : Message) : Prop := match m with TrackBinding _ _ _ => False | _ => True end.

Lemma deliver_bindings c (effs : list (Effect Media)) p m :
  Send p m ∈ (deliver c <$> effs) -> ~ room_message m.
Proof.
  intros Hin. apply list_elem_of_fmap in Hin as (e & He & _). destruct e; try discriminate.
  injection He as -> ->. by intros [].
Qed.

Lemma broadcast_members (s : Server) from room_id m p m' :
  Send p m' ∈ broadcast (Media := Media) s from room_id m -> p <> from /\ member s room_id p.
Proof.
  unfold broadcast. destruct (rooms s !! room_id) as [room |] eqn:Hr; [| by intros ?%elem_of_nil].
  intros Hin. apply list_elem_of_fmap in Hin as (q & [= -> ->] & Hq).
  apply list_elem_of_filter in Hq as [Hne Hq]. split; [done |]. exists room.
  by rewrite <- session_loop_spec.
Qed.

Lemma streaming_frame (env : Env Media) (s : Server) id room_id (on : bool) s1 effs :
  (if on then add_streaming_peer env s id room_id else remove_streaming_peer env s id room_id) = (s1, effs) ->
  (forall b, b <> room_id -> rooms s1 !! b = rooms s !! b)
  /\ (forall p, member s1 room_id p -> member s room_id p)
  /\ (forall p m, Send p m ∈ effs -> ~ room_message m).
Proof.
  intros Hs. destruct (rooms s !! room_id) as [room |] eqn:Hr.
  2: { assert (s1 = s /\ effs = []) as [-> ->].
       { destruct on; unfold add_streaming_peer, remove_streaming_peer in Hs; rewrite Hr in Hs;
           by injection Hs as <- <-. }
       split_and!; try done. by intros p m ?%elem_of_nil. }
  assert (exists st r e, s1 = set_room s room_id (mkRoom (sessions room) st (video_watchers room) (voice_router room) r)
    /\ effs = deliver Screen <$> e) as (st & r & e & -> & ->).
  { destruct on; unfold add_streaming_peer, remove_streaming_peer in Hs; rewrite Hr in Hs; simpl in Hs;
      destruct (set_streaming _ _ _ _) as [r e]; injection Hs as <- <-; by eexists _, r, e. }
  split_and!.
  - intros b Hb. simpl. by rewrite lookup_insert_ne.
  - intros p (x & Hx & Hp). simpl in Hx. rewrite lookup_insert_eq in Hx. injection Hx as <-. by exists room.
  - intros p m. apply deliver_bindings.
Qed.

Lemma watch_frame (env : Env Media) (s : Server) id room_id p s1 out :
  add_video_watcher env s id room_id p = (s1, out) ->
  (forall b, b <> room_id -> rooms s1 !! b = rooms s !! b)
  /\ (forall q m, Send q m ∈ out -> room_message m -> q = id /\ member s room_id id).
Proof.
  unfold add_video_watcher. destruct (rooms s !! room_id) as [room |] eqn:Hr.
  2: { intros [= <- <-]. split; [done | by intros q m ?%elem_of_nil]. }
  destruct (sessions room !! id) as [u |] eqn:Hid.
  2: { intros [= <- <-]. split; [done | by intros q m ?%elem_of_nil]. }
  destruct (watch_rejection room id p) as [reason |].
  { intros [= <- <-]. split; [done |]. intros q m Hin%list_elem_of_singleton _. injection Hin as -> ->.
    split; [done |]. exists room. by rewrite Hid. }
  case_bool_decide; [intros [= <- <-]; split; [done | by intros q m ?%elem_of_nil] |].
  simpl. destruct (set_watching _ _ _ _ _) as [r e]. intros [= <- <-]. split.
  - intros b Hb. simpl. by rewrite lookup_insert_ne.
  - intros q m Hin Hm. by apply deliver_bindings in Hin.
Qed.

Lemma unwatch_frame (env : Env Media) (s : Server) id room_id p s1 out :
  remove_video_watcher env s id room_id p = (s1, out) ->
  (forall b, b <> room_id -> rooms s1 !! b = rooms s !! b)
  /\ (forall q m, Send q m ∈ out -> ~ room_message m).
Proof.
  unfold remove_video_watcher. destruct (rooms s !! room_id) as [room |] eqn:Hr.
  2: { intros [= <- <-]. split; [done | by intros q m ?%elem_of_nil]. }
  simpl. destruct (set_watching _ _ _ _ _) as [r e]. intros [= <- <-]. split.
  - intros b Hb. simpl. by rewrite lookup_insert_ne.
  - intros q m. apply deliver_bindings.
Qed.

(** C17 Rooms are isolated: a client's message changes its own room only, and
    what it makes the server say, track bindings apart, goes to members of that
    room: a stream announcement to the others only, a refusal to the sender. *)
Theorem rooms_isolated (env : Env Media) s id room_id m s' out :
  on_read dumps env s id room_id m = Some (s', out) ->
  (forall b, b <> room_id -> rooms s' !! b = rooms s !! b)
  /\ forall p m', Send p m' ∈ out -> room_message m' ->
       member s room_id p
       /\ match m with StreamingStart _ | StreamingStop _ => p <> id | _ => p = id end.
Proof.
  assert (forall (on : bool) (m0 : Message) (s1 : Server) (effs : list (Outgoing (Media := Media))),
    (if on then add_streaming_peer env s id room_id else remove_streaming_peer env s id room_id) = (s1, effs) ->
    (forall b, b <> room_id -> rooms s1 !! b = rooms s !! b)
    /\ forall p m', Send p m' ∈ effs ++ broadcast s1 id room_id m0 -> room_message m' ->
         member s room_id p /\ p <> id) as Hstream.
  { intros on m0 s1 effs E. destruct (streaming_frame env s id room_id on s1 effs E) as (Hr & Hm & He).
    split; [done |]. intros p m' [Hin | Hin]%elem_of_app Hm'; [by apply He in Hin |].
    apply broadcast_members in Hin as [Hne Hin]. auto. }
  destruct m; simpl; intros Ho;
    try (injection Ho as <- <-; split; [done |]; intros p m' Hin Hm';
         first [by apply elem_of_nil in Hin | by apply list_elem_of_singleton in Hin]).
  - destruct (add_streaming_peer _ _ _ _) as [s1 effs] eqn:E. destruct (dumps _); [| done].
    injection Ho as <- <-. by apply (Hstream true).
  - destruct (remove_streaming_peer _ _ _ _) as [s1 effs] eqn:E. destruct (dumps _); [| done].
    injection Ho as <- <-. by apply (Hstream false).
  - injection Ho as Ho. destruct (watch_frame env s id room_id peer s' out Ho) as [Hr Hm].
    split; [done |]. intros p m' Hin Hm'. destruct (Hm p m' Hin Hm') as [-> ?]. done.
  - injection Ho as Ho. destruct (unwatch_frame env s id room_id peer s' out Ho) as [Hr Hm].
    split; [done |]. intros p m' Hin Hm'. by apply Hm in Hin.
Qed.

(** ** Watching *)

(** A watch request is answered exactly: in a sound room it is refused as
    unknown for a stranger or oneself, as not streaming for a member without a
    stream, and as over capacity for a ninth publisher; otherwise it is granted
    silently, once, and from then on the room and its screen router both hold
    it. *)
Theorem watch_answered (env : Env Media) s id room_id room p :
  rooms s !! room_id = Some room -> room_ok room -> is_Some (sessions room !! id) ->
  let refused reason := add_video_watcher env s id room_id p = (s, [Send id (WatchRejected p reason)]) in
  if decide (sessions room !! p = None \/ id = p) then refused UnknownPeer
  else if decide (p ∉ streaming_peers room) then refused NotStreaming
  else if decide (p ∈ watched room id) then add_video_watcher env s id room_id p = (s, [])
  else if decide (kScreenReceiveSlots <= size (watched room id)) then refused Capacity
  else exists room' effects,
    add_video_watcher env s id room_id p = (set_room s room_id room', deliver Screen <$> effects)
    /\ watched room' id = {[p]} ∪ watched room id
    /\ is_Some (watches (screen_router room') id !! p)
    /\ (forall q, q <> id -> watched room' q = watched room q).
Proof.
  intros Hr Hok [u Hid] refused. unfold refused, add_video_watcher. rewrite Hr, Hid. unfold watch_rejection.
  destruct (decide (sessions room !! p = None \/ id = p)) as [Hd | Hd].
  { replace (bool_decide (sessions room !! p = None) || String.eqb id p) with true; [done |].
    symmetry. rewrite orb_true_iff, bool_decide_eq_true, String.eqb_eq. done. }
  assert (bool_decide (sessions room !! p = None) || String.eqb id p = false) as ->.
  { rewrite orb_false_iff, bool_decide_eq_false, String.eqb_neq. naive_solver. }
  case_decide as Hst; [by rewrite bool_decide_false |].
  rewrite (bool_decide_true (p ∈ streaming_peers room)) by (by destruct (decide (p ∈ streaming_peers room))).
  simpl. case_decide as Hw; [by rewrite !bool_decide_true |]. rewrite (bool_decide_false (p ∈ watched room id)) by done.
  case_decide as Hc; [by rewrite bool_decide_true |]. rewrite bool_decide_false by done. simpl.
  assert (id <> p) as Hne by naive_solver.
  destruct (set_watching_watching env (screen_router room) id p true (rk_screen_open _ Hok) Hne) as [_ Hw'].
  destruct (set_watching _ _ _ _ _) as [r e]. simpl in Hw'. do 2 eexists. split; [done |]. split_and!.
  - unfold watched at 1. simpl. by rewrite lookup_insert_eq.
  - simpl. apply Hw'. by rewrite decide_True.
  - intros q Hq. unfold watched. simpl. by rewrite lookup_insert_ne.
Qed.

(** ** Shutdown *)

(** A stopped server stays empty: in whatever happens after [stop], no room
    comes back, and a handshake that completes late is dropped without a
    welcome. *)
Theorem stop_final config w w' :
  reachable dumps config w -> stopping (server w) = true -> step dumps w w' ->
  stopping (server w') = true /\ rooms (server w') = ∅
  /\ forall id room_id u,
       on_accept (Media := Media) dumps (server w') id room_id u = Some (server w', []).
Proof.
  intros Hr Hst Hs.
  assert (rooms (server w) = ∅) as He by by apply (server_reachable_ok dumps config w Hr).
  assert (stopping (server w') = true) as Hst'.
  { destruct Hs as [w h s' out _ Hh | w room_id room op r new Hx | w room_id room op r new Hx
      | w room_id room h Hx | w room_id room h Hx]; try (by rewrite He, lookup_empty in Hx).
    destruct h as [id room_id u | env id room_id m | env id room_id | env next owner room_id track
      | env next owner room_id track | config' | env]; simpl in Hh |- *.
    - unfold on_accept, register_and_build_welcome in Hh. rewrite Hst in Hh. by injection Hh as <- _.
    - destruct m; simpl in Hh; unfold add_streaming_peer, remove_streaming_peer, add_video_watcher,
        remove_video_watcher in Hh; rewrite ?He, ?lookup_empty in Hh; try (by injection Hh as <- _);
        destruct (dumps _); try done; by injection Hh as <- _.
    - unfold on_close, unregister_session in Hh. rewrite He, lookup_empty in Hh. by injection Hh as <- _.
    - unfold register_voice_track in Hh. rewrite He, lookup_empty in Hh. by injection Hh as <- _.
    - unfold register_screen_track in Hh. rewrite He, lookup_empty in Hh. by injection Hh as <- _.
    - by injection Hh as <- _.
    - by injection Hh as <- _. }
  split; [done |]. split.
  - apply (server_reachable_ok dumps config w'); [by econstructor | done].
  - intros id room_id u. unfold on_accept, register_and_build_welcome. by rewrite Hst'.
Qed.
End Properties.

(** ** Witnesses: "a" streams in room "r", "b" watches *)

Definition sample_handlers : list (Handler (Media := SampleMedia)) :=
  [Accepted "a" "r" "Ann"; Accepted "b" "r" ""; ReadMessage sample_env "a" "r" (StreamingStart None);
   ReadMessage sample_env "b" "r" (WatchStart "a")]%string.

Definition sample_world : World := world_run (fun _ => true) no_faults sample_handlers.

Definition sample_room : Room :=
  default (new_room no_faults) (rooms (server sample_world) !! "r"%string).

Lemma sample_world_reachable : reachable (fun _ => true) no_faults sample_world.
Proof. apply world_run_reachable. Qed.

Lemma rooms_sound_witness : room_ok sample_room /\ sessions sample_room <> ∅.
Proof.
  destruct (rooms_sound (fun _ => true) no_faults sample_world sample_world_reachable) as [H _].
  apply (H "r"%string). vm_compute. reflexivity.
Defined.

(** "b" knows "a", its name, and that it streams. *)
Lemma presence_known_witness :
  let c := clients sample_world "b"%string in
  sees sample_room "b" c /\ known_peers c = {["a"]} /\ peer_usernames c !! "a" = Some "Ann"
  /\ streamers c = {["a"]}%string.
Proof.
  split.
  - apply (presence_known (fun _ => true) no_faults sample_world "r"%string).
    + apply sample_world_reachable.
    + vm_compute. reflexivity.
    + vm_compute. by eexists.
  - vm_compute. by split_and!.
Defined.

Lemma rooms_isolated_witness :
  exists s' out, on_read (fun _ => true) sample_env (server sample_world) "a" "r" (StreamingStop None)
                 = Some (s', out)
    /\ Send "b"%string (StreamingStop (Some "a"%string)) ∈ out
    /\ member (server sample_world) "r" "b".
Proof.
  destruct (on_read (fun _ => true) sample_env (server sample_world) "a" "r" (StreamingStop None))
    as [[s' out] |] eqn:E; [| vm_compute in E; discriminate].
  exists s', out. split; [reflexivity |].
  assert (Send "b"%string (StreamingStop (Some "a"%string)) ∈ out) as Hin.
  { vm_compute in E. injection E as _ <-. by left. }
  split; [exact Hin |].
  apply (rooms_isolated (fun _ => true) sample_env _ _ _ _ _ _ E) in Hin as [H _]; [exact H | done].
Defined.

(** Watching oneself is refused. *)
Lemma watch_answered_witness :
  add_video_watcher sample_env (server sample_world) "b" "r" "b"
  = (server sample_world, [Send "b" (WatchRejected "b" UnknownPeer)])%string.
Proof.
  pose proof (watch_answered sample_env (server sample_world) "b" "r" sample_room "b") as H.
  cbv zeta in H. rewrite decide_True in H by by right. apply H.
  - vm_compute. reflexivity.
  - apply (wo_room _ (server_reachable_ok (fun _ => true) no_faults sample_world sample_world_reachable)
      "r"%string). vm_compute. reflexivity.
  - vm_compute. by eexists.
Defined.

Definition stopped_world : World := world_handle (fun _ => true) sample_world (Stopped sample_env).

Lemma stop_final_witness :
  let w' := world_handle (fun _ => true) stopped_world (FaultsUpdated no_faults) in
  stopping (server w') = true /\ rooms (server w') = ∅.
Proof.
  destruct (stop_final (fun _ => true) no_faults stopped_world
    (world_handle (fun _ => true) stopped_world (FaultsUpdated no_faults))
    (world_handle_reachable _ _ _ _ sample_world_reachable)) as (H1 & H2 & _).
  - vm_compute. reflexivity.
  - by apply (Handles (fun _ => true) stopped_world (FaultsUpdated no_faults)).
  - split; [exact H1 | exact H2].
Defined.
