(* ===== verification/Url.v ===== *)
(** * URLs of the signaling server

    [url_escape] (api_authenticator.cpp) and the request-target parsing of
    ws_server.cpp: [parse_room_id], [url_decode] and [parse_query_param]. *)

From S2P Require Import Prelude Text.

Local Open Scope char_scope.

(** ** Percent encoding *)

Definition unreserved (c : ascii) : bool :=
  in_range 97 122 c || in_range 65 90 c || in_range 48 57 c
  || is_char "-" c || is_char "." c || is_char "_" c || is_char "~" c.

(** The digits of [kHex]. *)
Definition kHex (n : Z) : ascii := if (n <? 10)%Z then char_of (48 + n) else char_of (65 + (n - 10)).

Definition escape_char (c : ascii) : text :=
  if unreserved c then [c]
  else ["%"; kHex (Z.shiftr (code c) 4); kHex (Z.land (code c) 15)].

Definition url_escape (value : text) : text := value ≫= escape_char.

(** The lambda [hex] of [url_decode]. *)
Definition hex (h : ascii) : Z :=
  if in_range 48 57 h then code h - 48
  else if in_range 97 102 h then code h - 97 + 10
  else if in_range 65 70 h then code h - 65 + 10
  else -1.

Fixpoint url_decode (s : text) : text :=
  match s with
  | [] => []
  | c :: rest =>
    if is_char "+" c then " " :: url_decode rest
    else if is_char "%" c then
      match rest with
      | h :: l :: rest' =>
        if ((0 <=? hex h) && (0 <=? hex l))%Z
        then char_of (Z.lor (Z.shiftl (hex h) 4) (hex l)) :: url_decode rest'
        else c :: url_decode rest
      | _ => c :: url_decode rest
      end
    else c :: url_decode rest
  end.

(** ** The request target *)

Definition kPrefix : text := chars "/channels/".

Definition parse_room_id (target : text) : text :=
  if bool_decide (length kPrefix < length target) && starts_with kPrefix target then
    let rest := drop (length kPrefix) target in
    let rest := match find_char "?" rest with Some q => take q rest | None => rest end in
    let rest := drop_while_back (is_char "/") rest in
    if decide (rest = []) then chars "default" else rest
  else chars "default".

(** The loop of [parse_query_param]; the rest of the query shrinks by at least
    its separator, so its length is fuel enough. *)
Fixpoint query_loop (fuel : nat) (qs key : text) : text :=
  match fuel with
  | O => []
  | S fuel =>
    if decide (qs = []) then []
    else
      let amp := find_char "&" qs in
      let pair := match amp with Some i => take i qs | None => qs end in
      let next := match amp with Some i => query_loop fuel (drop (S i) qs) key | None => [] end in
      match find_char "=" pair with
      | Some eq => if bool_decide (take eq pair = key) then url_decode (drop (S eq) pair) else next
      | None => next
      end
  end.

Definition parse_query_param (target key : text) : text :=
  match find_char "?" target with
  | None => []
  | Some q => query_loop (length target) (drop (S q) target) key
  end.

(** ** Lemmas *)

Definition plain (c : ascii) : bool := unreserved c || is_char "%" c.

Lemma escape_char_plain c : Forall (fun d => plain d = true) (escape_char c).
Proof.
  destruct c as [[] [] [] [] [] [] [] []]; repeat constructor.
Qed.

Lemma url_escape_plain s : Forall (fun d => plain d = true) (url_escape s).
Proof.
  induction s as [| c s IH]; [constructor |]. apply Forall_app. split; [apply escape_char_plain | done].
Qed.

Lemma url_decode_escape_char c s : url_decode (escape_char c ++ s) = c :: url_decode s.
Proof. destruct c as [[] [] [] [] [] [] [] []]; reflexivity. Qed.

Lemma url_decode_escape s : url_decode (url_escape s) = s.
Proof.
  induction s as [| c s IH]; [done |]. change (url_escape (c :: s)) with (escape_char c ++ url_escape s).
  by rewrite url_decode_escape_char, IH.
Qed.

#[export] Instance url_escape_inj : Inj (=) (=) url_escape.
Proof. intros s t Heq. by rewrite <- (url_decode_escape s), Heq, url_decode_escape. Qed.

Lemma plain_not d c : plain d = true -> plain c = false -> is_char c d = false.
Proof. intros Hd Hc. unfold is_char. destruct (Ascii.eqb_spec d c) as [-> |]; [congruence | done]. Qed.

Lemma escape_avoids c s : plain c = false -> Forall (fun d => is_char c d = false) (url_escape s).
Proof.
  intros Hc. eapply Forall_impl; [apply url_escape_plain |]. intros d Hd. by apply plain_not.
Qed.

(** A query is a list of [key=value] pairs joined with [&]. *)
Definition query_pair (p : text * text) : text := p.1 ++ "=" :: url_escape p.2.

Fixpoint query_string (ps : list (text * text)) : text :=
  match ps with
  | [] => []
  | [p] => query_pair p
  | p :: ps => query_pair p ++ "&" :: query_string ps
  end.

Definition is_key (k : text) : Prop :=
  Forall (fun d => is_char "=" d = false /\ is_char "&" d = false) k.

Fixpoint query_value (ps : list (text * text)) (key : text) : text :=
  match ps with
  | [] => []
  | (k, v) :: ps => if decide (k = key) then v else query_value ps key
  end.

Lemma find_char_app c pre post :
  Forall (fun d => is_char c d = false) pre -> find_char c (pre ++ c :: post) = Some (length pre).
Proof. intros Hp. apply find_if_app; [done |]. unfold is_char. apply Ascii.eqb_refl. Qed.

Lemma find_char_absent c t : Forall (fun d => is_char c d = false) t -> find_char c t = None.
Proof. apply find_if_None. Qed.

Lemma take_before {A} (pre post : list A) x : take (length pre) (pre ++ x :: post) = pre.
Proof. apply take_app_length. Qed.

Lemma drop_after {A} (pre post : list A) x : drop (S (length pre)) (pre ++ x :: post) = post.
Proof. induction pre as [| y pre IH]; [done | exact IH]. Qed.

Lemma query_pair_avoids p c :
  Forall (fun d => is_char c d = false) p.1 -> plain c = false -> c <> "=" ->
  Forall (fun d => is_char c d = false) (query_pair p).
Proof.
  intros Hk Hc Hne. apply Forall_app. split; [done |]. constructor; [| by apply escape_avoids].
  unfold is_char. by apply Ascii.eqb_neq.
Qed.

Lemma query_pair_eq p :
  Forall (fun d => is_char "=" d = false) p.1 ->
  find_char "=" (query_pair p) = Some (length p.1)
  /\ take (length p.1) (query_pair p) = p.1
  /\ url_decode (drop (S (length p.1)) (query_pair p)) = p.2.
Proof.
  intros Hk. unfold query_pair. split_and!.
  - by apply find_char_app.
  - apply take_before.
  - by rewrite drop_after, url_decode_escape.
Qed.

(** One turn of the loop, on a pair that is followed by more or by nothing. *)
Lemma query_loop_pair fuel p rest key :
  is_key p.1 ->
  query_loop (S fuel) (query_pair p ++ "&" :: rest) key
    = (if decide (p.1 = key) then p.2 else query_loop fuel rest key)
  /\ query_loop (S fuel) (query_pair p) key = (if decide (p.1 = key) then p.2 else []).
Proof.
  intros Hk. apply Forall_and in Hk as [He Ha].
  destruct (query_pair_eq p He) as (Hf & Ht & Hd).
  assert (Hamp : Forall (fun d => is_char "&" d = false) (query_pair p))
    by by apply query_pair_avoids.
  assert (Hne : query_pair p <> []) by (unfold query_pair; by destruct p.1).
  split; cbn [query_loop].
  - rewrite decide_False by (intros [? _]%app_eq_nil; done).
    rewrite (find_char_app "&" _ rest Hamp), take_before, drop_after, Hf, Ht, Hd.
    by destruct (decide (p.1 = key)) as [Hp | Hp]; [rewrite bool_decide_true | rewrite bool_decide_false].
  - rewrite decide_False by done.
    rewrite (find_char_absent "&" _ Hamp), Hf, Ht, Hd.
    by destruct (decide (p.1 = key)) as [Hp | Hp]; [rewrite bool_decide_true | rewrite bool_decide_false].
Qed.

Lemma query_loop_string ps key : forall fuel,
  length (query_string ps) <= fuel -> Forall (fun p => is_key p.1) ps ->
  query_loop fuel (query_string ps) key = query_value ps key.
Proof.
  induction ps as [| p ps IH]; intros fuel Hlen Hk; [by destruct fuel |].
  apply Forall_cons in Hk as [Hp Hk]. destruct p as [k v].
  assert (Hpos : 0 < length (query_string ((k, v) :: ps))).
  { destruct ps; simpl; unfold query_pair; rewrite !length_app; simpl; lia. }
  destruct fuel as [| fuel]; [lia |]. destruct ps as [| p2 ps].
  - simpl query_string. destruct (query_loop_pair fuel (k, v) [] key Hp) as [_ ->]. done.
  - change (query_string ((k, v) :: p2 :: ps)) with (query_pair (k, v) ++ "&" :: query_string (p2 :: ps)) in *.
    rewrite (proj1 (query_loop_pair fuel (k, v) (query_string (p2 :: ps)) key Hp)).
    rewrite IH; [done | | done]. rewrite length_app in Hlen.
    change (length ("&" :: query_string (p2 :: ps))) with (S (length (query_string (p2 :: ps)))) in Hlen. lia.
Qed.

Lemma starts_with_app p t : starts_with p (p ++ t) = true.
Proof. unfold starts_with. apply bool_decide_eq_true. apply take_app_length. Qed.

Lemma drop_while_back_app P t u :
  Forall (fun d => P d = true) u -> Forall (fun d => P d = false) t -> drop_while_back P (t ++ u) = t.
Proof.
  intros Hu Ht. unfold drop_while_back. rewrite rev_app_distr.
  assert (Hr : Forall (fun d => P d = true) (rev u)) by by apply Forall_rev.
  replace (drop_while P (rev u ++ rev t)) with (rev t); [apply rev_involutive |].
  induction Hr as [| d l Hd _ IH]; cbn [app drop_while]; [| by rewrite Hd].
  symmetry. apply drop_while_stop. by apply Forall_rev.
Qed.

Lemma replicate_all {A} (P : A -> Prop) n x : P x -> Forall P (replicate n x).
Proof. intros Hx. apply Forall_forall. by intros y [-> _]%elem_of_replicate. Qed.

Lemma parse_room_id_escaped room n query :
  room <> [] ->
  parse_room_id (kPrefix ++ url_escape room ++ replicate n "/" ++ "?" :: query) = url_escape room
  /\ parse_room_id (kPrefix ++ url_escape room ++ replicate n "/") = url_escape room.
Proof.
  intros Hr.
  assert (He : url_escape room <> []).
  { intros He. apply Hr. by rewrite <- (url_decode_escape room), He. }
  assert (Hq : Forall (fun d => is_char "?" d = false) (url_escape room ++ replicate n "/")).
  { apply Forall_app. split; [by apply escape_avoids | by apply replicate_all]. }
  assert (Hs : drop_while_back (is_char "/") (url_escape room ++ replicate n "/") = url_escape room).
  { apply drop_while_back_app; [by apply replicate_all | by apply escape_avoids]. }
  assert (Hl : forall t, bool_decide (length kPrefix < length (kPrefix ++ url_escape room ++ t)) = true).
  { intros t. apply bool_decide_eq_true. rewrite !length_app. destruct (url_escape room); [done | simpl; lia]. }
  unfold parse_room_id. rewrite !Hl, !starts_with_app, !drop_app_length. simpl andb. cbv iota zeta.
  rewrite app_assoc, (find_char_app "?" _ query Hq), take_before, (find_char_absent "?" _ Hq).
  by rewrite Hs, decide_False.
Qed.

Lemma parse_room_id_nonempty target : parse_room_id target <> [].
Proof.
  unfold parse_room_id. destruct (_ && _); [| by vm_compute].
  match goal with |- context [decide (?r = [])] => destruct (decide (r = [])) end; [by vm_compute | done].
Qed.

(** ** Properties *)

(** A URL that names a room and carries escaped parameters is read back:
    the room is the path segment, and every parameter is the value the encoder
    was given, whatever bytes it holds; the first of equal keys wins and a
    missing key is empty.  An escaped segment holds none of the separators of a
    URL, so no room name or value can add a path segment or a parameter. *)
Theorem url_roundtrip room n ps key :
  room <> [] -> Forall (fun p => is_key p.1) ps ->
  let target := kPrefix ++ url_escape room ++ replicate n "/" ++ "?" :: query_string ps in
  parse_room_id target = url_escape room
  /\ url_decode (parse_room_id target) = room
  /\ parse_query_param target key = query_value ps key
  /\ Forall (fun d => d <> "/" /\ d <> "?" /\ d <> "&" /\ d <> "=" /\ d <> "#" /\ d <> "+" /\ d <> " ")
       (url_escape room).
Proof.
  intros Hr Hk target. destruct (parse_room_id_escaped room n (query_string ps) Hr) as [Hroom _].
  split_and!.
  - done.
  - by unfold target; rewrite Hroom, url_decode_escape.
  - unfold parse_query_param.
    assert (Hq : Forall (fun d => is_char "?" d = false) (kPrefix ++ url_escape room ++ replicate n "/")).
    { apply Forall_app. split; [by repeat constructor |].
      apply Forall_app. split; [by apply escape_avoids | by apply replicate_all]. }
    assert (Ht : target = (kPrefix ++ url_escape room ++ replicate n "/") ++ "?" :: query_string ps)
      by (unfold target; by rewrite <- !app_assoc).
    rewrite Ht, (find_char_app "?" _ _ Hq), drop_after. apply query_loop_string; [| done].
    rewrite length_app. change (length ("?" :: query_string ps)) with (S (length (query_string ps))). lia.
  - eapply Forall_impl; [apply url_escape_plain |]. intros d Hd. by split_and!; intros ->.
Qed.

Theorem url_roundtrip_witness :
  let ps := [(chars "u", chars "a b&c"); (chars "t", chars "x=/+%")] in
  parse_query_param (kPrefix ++ url_escape (chars "my room/1") ++ replicate 1 "/" ++ "?" :: query_string ps)
    (chars "t") = chars "x=/+%".
Proof.
  intros ps. apply (url_roundtrip (chars "my room/1") 1 ps (chars "t")); [done |].
  repeat constructor.
Defined.
