(* ===== verification/Auth.v ===== *)
(** * Authorization by the REST API (api_authenticator.cpp)

    [create] reads the API's URL, a [Call] asks the API one question and answers
    its callback.  The network, the API and the JSON parser are parameters. *)

From S2P Require Import Prelude Text Signaling Url.

Local Open Scope list_scope.
Local Open Scope char_scope.

(** ** ApiAuthenticator::create *)

Record ApiAuthenticator := mkAuthenticator { host : text; port : text }.

Definition kScheme : text := chars "http://".

Definition invalid_host (c : ascii) : bool :=
  isspace c || iscntrl c || is_char "@" c || is_char "\" c || is_char "[" c || is_char "]" c.

(** The test on the port: [from_chars] reads all of it, into 1..65535. *)
Definition valid_port (port : text) : bool :=
  match from_chars port with
  | Some (numeric_port, port_end) =>
    bool_decide (port_end = length port) && negb (Z.eqb numeric_port 0) && (numeric_port <=? 65535)%Z
  | None => false
  end.

(** Host and port of an authority; [None] for more than one colon. *)
Definition split_authority (authority : text) : option (text * text) :=
  match rfind_char ":" authority with
  | None => Some (authority, chars "80")
  | Some colon =>
    if bool_decide (find_char ":" authority = Some colon)
    then Some (take colon authority, drop (S colon) authority)
    else None
  end.

Definition create (base_url : text) : option ApiAuthenticator :=
  if negb (starts_with kScheme base_url) then None
  else
    let rest := drop (length kScheme) base_url in
    let suffix_start := find_first_of (chars "/?#") rest in
    let authority := match suffix_start with Some i => take i rest | None => rest end in
    let suffix := match suffix_start with Some i => drop i rest | None => [] end in
    if existsb (fun c => negb (is_char "/" c)) suffix then None
    else if decide (authority = []) then None
    else
      '(host, port) ← split_authority authority;
      if decide (host = []) then None
      else if existsb invalid_host host then None
      else if valid_port port then Some (mkAuthenticator host port) else None.

(** ** The request *)

Record Request := mkRequest { request_target : text; request_host : text; request_token : text }.

Definition make_request (a : ApiAuthenticator) (target token : text) : Request :=
  mkRequest target
    (if decide (port a = chars "80") then host a else host a ++ ":" :: port a)
    (chars "Bearer " ++ token).

(** ** Identity *)

Record Identity := mkIdentity { username : string; user_id : Z }.

(** [static_cast<long long>] of a JSON integer *)
Definition s64 (z : Z) : Z := let r := u64 z in if (r <? 2 ^ 63)%Z then r else (r - 2 ^ 64)%Z.

(** Only an object has members. *)
Definition member (body : json) (key : string) : option json :=
  match body with JObject fields => jfind key fields | _ => None end.

Definition read_identity (body : json) : Identity :=
  let name := match member body "username" with Some (JString s) => s | _ => ""%string end in
  let id := match member body "user_id" with Some v => Some v | None => member body "id" end in
  mkIdentity name (match id with Some (JInteger z) => s64 z | _ => 0 end).

(** ** Call: one request, whose completions arrive in order *)

Section Call.
(** [nlohmann::json::parse]; [None] is an exception. *)
Variable json_parse : string -> option json.
(** Whether the callback throws when it is given this answer. *)
Variable callback_throws : option Identity -> bool.

Inductive Stage := Resolving | Connecting | Writing | Reading | Finished.

Record Call := mkCall { stage : Stage; callback : bool; answers : list (option Identity) }.

Definition new_call : Call := mkCall Resolving true [].

Definition at_stage (s : Stage) (c : Call) : Call := mkCall s (callback c) (answers c).

(** The flag tells that an exception leaves [finish]. *)
Definition finish (identity : option Identity) (c : Call) : Call * bool :=
  if callback c
  then (mkCall Finished false (answers c ++ [identity]), callback_throws identity)
  else (at_stage Finished c, false).

Definition fail (c : Call) : Call * bool := finish None c.

Definition on_resolve (ec : bool) (c : Call) : Call * bool :=
  if ec then fail c else (at_stage Connecting c, false).

Definition on_connect (ec : bool) (c : Call) : Call * bool :=
  if ec then fail c else (at_stage Writing c, false).

Definition on_write (ec : bool) (c : Call) : Call * bool :=
  if ec then fail c else (at_stage Reading c, false).

Record Response := mkResponse { status : Z; response_body : string }.

(** [try { finish(identity); } catch { finish(nullopt); }] *)
Definition try_finish (identity : option Identity) (c : Call) : Call * bool :=
  let '(c, threw) := finish identity c in if threw then finish None c else (c, false).

Definition on_read (ec : bool) (response : Response) (c : Call) : Call * bool :=
  if ec then fail c
  else if negb (Z.eqb (status response) 200) then finish None c
  else
    match json_parse (response_body response) with
    | None => finish None c
    | Some body =>
      let identity := read_identity body in
      if String.eqb (username identity) "" then try_finish None c
      else try_finish (Some identity) c
    end.

(** What the network does with a request. *)
Record Network := mkNetwork {
  resolve_fails : bool; connect_fails : bool; write_fails : bool; read_fails : bool;
  response : Response;
}.

(** The completion the call waits for; a finished call waits for none. *)
Definition completion (net : Network) (c : Call) : Call * bool :=
  match stage c with
  | Resolving => on_resolve (resolve_fails net) c
  | Connecting => on_connect (connect_fails net) c
  | Writing => on_write (write_fails net) c
  | Reading => on_read (read_fails net) (response net) c
  | Finished => (c, false)
  end.

Fixpoint completions (n : nat) (net : Network) (c : Call) : Call :=
  match n with O => c | S n => completions n net (completion net c).1 end.

(** A call has four completions at most. *)
Definition run (net : Network) : Call := completions 4 net new_call.

(** ** authorize_channel and authorize_user *)

Variable network : Request -> Network.

(** Every answer the callback is given. *)
Definition request (a : ApiAuthenticator) (target token : text) : list (option Identity) :=
  if decide (token = []) then [None] else answers (run (network (make_request a target token))).

Definition channel_target (channel : text) : text :=
  chars "/channels/" ++ url_escape channel ++ chars "/access".

Definition authorize_channel (a : ApiAuthenticator) (token channel : text) : list (option Identity) :=
  request a (channel_target channel) token.

Definition authorize_user (a : ApiAuthenticator) (token : text) : list (option Identity) :=
  request a (chars "/users/me") token.
End Call.

(** ** The URLs [create] accepts *)

Definition separators : text := chars "/?#".

Definition host_ok (h : text) : Prop :=
  h <> [] /\ Forall (fun c => invalid_host c = false /\ one_of (":" :: separators) c = false) h.

Definition port_ok (p : text) : Prop :=
  p <> [] /\ Forall (fun c => isdigit c = true) p /\ (0 < digits_value 0 p <= 65535)%Z.

(** [http://host], with or without a port, and any number of slashes. *)
Definition api_url (a : ApiAuthenticator) (url : text) : Prop :=
  host_ok (host a)
  /\ exists n,
       (url = kScheme ++ host a ++ replicate n "/" /\ port a = chars "80")
       \/ (url = kScheme ++ host a ++ ":" :: port a ++ replicate n "/" /\ port_ok (port a)).

Lemma valid_port_ok p : valid_port p = true <-> port_ok p.
Proof.
  unfold valid_port, port_ok. split.
  - destruct (from_chars p) as [[v n] |] eqn:Hf; [| done].
    intros ((Hn & Hz%negb_true_iff)%andb_prop & Hle)%andb_prop.
    apply bool_decide_eq_true in Hn as ->. apply from_chars_all in Hf as (Hne & Hall & -> & Hlt).
    apply Z.eqb_neq in Hz. apply Z.leb_le in Hle. split_and!; [done.. | | done].
    pose proof (digits_value_nonneg p 0 Hall). lia.
  - intros (Hne & Hall & Hlo & Hhi).
    rewrite (proj2 (from_chars_all p (digits_value 0 p))) by (split_and!; [done.. | lia]).
    rewrite bool_decide_true by done. cbn [andb].
    destruct (Z.eqb_spec (digits_value 0 p) 0); [lia |]. by apply Z.leb_le.
Qed.

Lemma all_slashes t : existsb (fun c => negb (is_char "/" c)) t = false <-> t = replicate (length t) "/".
Proof.
  rewrite existsb_false. split.
  - induction 1 as [| c t Hc _ IH]; [done |]. simpl. rewrite <- IH. f_equal.
    apply negb_false_iff in Hc. by apply Ascii.eqb_eq.
  - intros ->. by apply replicate_all.
Qed.

(** Where [create] cuts the authority from what follows it. *)
Definition cut (rest : text) : text * text :=
  match find_first_of separators rest with Some i => (take i rest, drop i rest) | None => (rest, []) end.

Lemma cut_spec rest : let '(a, s) := cut rest in
  rest = a ++ s /\ Forall (fun c => one_of separators c = false) a.
Proof.
  unfold cut, find_first_of. destruct (find_if (one_of separators) rest) as [i |] eqn:Hi.
  - rewrite take_drop. split; [done |]. by apply find_if_Some in Hi as (? & _ & _ & Hall).
  - rewrite app_nil_r. split; [done |]. by apply find_if_None.
Qed.

Lemma cut_slashes a n :
  Forall (fun c => one_of separators c = false) a -> cut (a ++ replicate n "/") = (a, replicate n "/").
Proof.
  intros Ha. unfold cut, find_first_of. destruct n as [| n]; simpl replicate.
  - rewrite app_nil_r. by rewrite (proj2 (find_if_None _ _) Ha).
  - by rewrite find_if_app, take_app_length, drop_app_length by done.
Qed.

Lemma split_authority_plain h :
  Forall (fun c => is_char ":" c = false) h -> split_authority h = Some (h, chars "80").
Proof. intros Hh. unfold split_authority. by rewrite (proj2 (rfind_char_None ":" h) Hh). Qed.

Lemma split_authority_port h p :
  Forall (fun c => is_char ":" c = false) h -> Forall (fun c => is_char ":" c = false) p ->
  split_authority (h ++ ":" :: p) = Some (h, p).
Proof.
  intros Hh Hp. unfold split_authority. rewrite (rfind_char_app h ":" p) by done.
  rewrite find_char_app by done. by rewrite bool_decide_true, take_before, drop_after.
Qed.

Lemma split_authority_inv authority h p :
  split_authority authority = Some (h, p) ->
  Forall (fun c => is_char ":" c = false) h
  /\ ((authority = h /\ p = chars "80") \/ authority = h ++ ":" :: p).
Proof.
  unfold split_authority. destruct (rfind_char ":" authority) as [i |] eqn:Hr.
  - case_bool_decide as Hf; [| done]. intros [= <- <-].
    destruct (rfind_char_split _ _ _ Hr) as [Ht _].
    split; [by apply (find_rfind_same _ _ _ Hr) | by right].
  - intros [= <- <-]. split; [by apply rfind_char_None | by left].
Qed.

(** [create] with its cuts named. *)
Lemma create_cut url :
  create url =
  if negb (starts_with kScheme url) then None
  else
    let '(authority, suffix) := cut (drop (length kScheme) url) in
    if existsb (fun c => negb (is_char "/" c)) suffix then None
    else if decide (authority = []) then None
    else
      '(h, p) ← split_authority authority;
      if decide (h = []) then None
      else if existsb invalid_host h then None
      else if valid_port p then Some (mkAuthenticator h p) else None.
Proof. unfold create, cut, separators. by destruct (starts_with _ _), (find_first_of _ _). Qed.

Lemma host_ok_Forall h : host_ok h <->
  h <> [] /\ Forall (fun c => invalid_host c = false) h
  /\ Forall (fun c => is_char ":" c = false) h /\ Forall (fun c => one_of separators c = false) h.
Proof.
  unfold host_ok. rewrite <- !Forall_and. split; intros [Hne Hall]; (split; [done |]);
    eapply Forall_impl; try exact Hall; intros c; cbn [one_of existsb]; unfold is_char;
    rewrite orb_false_iff, (Ascii.eqb_sym c ":"); tauto.
Qed.

Lemma create_sound url a : create url = Some a -> api_url a url.
Proof.
  rewrite create_cut. destruct (starts_with kScheme url) eqn:Hs; [| done]. simpl negb. cbv iota.
  pose proof (cut_spec (drop (length kScheme) url)) as Hc.
  destruct (cut (drop (length kScheme) url)) as [authority suffix]. destruct Hc as [Hrest Hauth].
  destruct (existsb _ suffix) eqn:Hsl; [done |]. case_decide as Hane; [done |].
  intros ([h p] & Hsplit & H)%bind_Some_inv. case_decide as Hne; [done |].
  destruct (existsb invalid_host h) eqn:Hinv; [done |]. destruct (valid_port p) eqn:Hport; [| done].
  injection H as <-.
  assert (Hurl : url = kScheme ++ authority ++ suffix).
  { unfold starts_with in Hs. apply bool_decide_eq_true in Hs. rewrite <- Hrest, <- Hs at 1.
    by rewrite take_drop. }
  apply all_slashes in Hsl. apply existsb_false in Hinv. apply valid_port_ok in Hport.
  destruct (split_authority_inv _ _ _ Hsplit) as [Hcol Hcase]. unfold api_url. cbn [host port].
  assert (Hh : Forall (fun c => one_of separators c = false) h).
  { destruct Hcase as [[<- _] | ->]; [done |]. by apply Forall_app in Hauth as [? _]. }
  split; [by apply host_ok_Forall |]. exists (length suffix). rewrite <- Hsl.
  destruct Hcase as [[-> ->] | ->]; [by left | right]. split; [| done]. by rewrite Hurl, <- app_assoc.
Qed.

Lemma create_complete url a : api_url a url -> create url = Some a.
Proof.
  destruct a as [h p]. intros (Hh & n & Hcase). cbn [host port] in *.
  apply host_ok_Forall in Hh as (Hne & Hinv & Hcol & Hsep).
  assert (exists authority, url = kScheme ++ authority ++ replicate n "/" /\ authority <> []
    /\ Forall (fun c => one_of separators c = false) authority
    /\ split_authority authority = Some (h, p) /\ port_ok p)
    as (authority & -> & Hane & Hasep & Hsplit & Hport).
  { destruct Hcase as [[-> ->] | [-> Hp]].
    - exists h. split; [done |]. split; [done |]. split; [done |].
      split; [by apply split_authority_plain |]. apply valid_port_ok. reflexivity.
    - exists (h ++ ":" :: p). pose proof Hp as (_ & Hdig & _).
      split; [by rewrite <- app_assoc |]. split; [by destruct h |].
      split; [| split; [| done]].
      + apply Forall_app. split; [done |]. constructor; [done |].
        eapply Forall_impl; [exact Hdig |]. intros c Hd. by destruct c as [[] [] [] [] [] [] [] []].
      + apply split_authority_port; [done |].
        eapply Forall_impl; [exact Hdig |]. intros c Hd. by destruct c as [[] [] [] [] [] [] [] []]. }
  rewrite create_cut, starts_with_app, drop_app_length. simpl negb. cbv iota.
  rewrite cut_slashes by done. rewrite (proj2 (all_slashes _)) by (by rewrite length_replicate).
  rewrite decide_False, Hsplit by done. cbn [mbind option_bind]. rewrite decide_False by done.
  by rewrite (proj2 (existsb_false _ _) Hinv), (proj2 (valid_port_ok p) Hport).
Qed.

(** ** What a call answers *)

Section Answers.
Variable json_parse : string -> option json.
Variable callback_throws : option Identity -> bool.

(** The API granted the request: 200 OK with a JSON body that has a user name. *)
Definition grants (net : Network) (i : Identity) : Prop :=
  resolve_fails net = false /\ connect_fails net = false /\ write_fails net = false
  /\ read_fails net = false /\ status (response net) = 200%Z
  /\ exists body, json_parse (response_body (response net)) = Some body
     /\ i = read_identity body /\ username i <> ""%string.

Abbreviation completions := (completions json_parse callback_throws).

(** The answer a running call is heading for. *)
Definition verdict (net : Network) : option Identity :=
  if resolve_fails net || connect_fails net || write_fails net || read_fails net
     || negb (Z.eqb (status (response net)) 200)
  then None
  else
    match json_parse (response_body (response net)) with
    | None => None
    | Some body =>
      let i := read_identity body in if String.eqb (username i) "" then None else Some i
    end.

Lemma verdict_grants net i : verdict net = Some i <-> grants net i.
Proof.
  unfold verdict, grants. destruct (resolve_fails net), (connect_fails net), (write_fails net), (read_fails net);
    cbn [orb]; try (split; [done |]; intros; destruct_and?; congruence).
  destruct (Z.eqb_spec (status (response net)) 200) as [Hst | Hst]; cbn [negb];
    [| split; [done |]; intros; destruct_and?; congruence].
  destruct (json_parse (response_body (response net))) as [body |].
  - destruct (String.eqb_spec (username (read_identity body)) "") as [He | He].
    + split; [done |]. intros (_ & _ & _ & _ & _ & b & [= <-] & -> & Hne). congruence.
    + split.
      * intros [= <-]. split_and!; try done. by exists body.
      * by intros (_ & _ & _ & _ & _ & b & [= <-] & -> & Hne).
  - split; [done |]. by intros (_ & _ & _ & _ & _ & b & ? & _).
Qed.

Lemma finished_stays n net c : stage c = Finished -> completions n net c = c.
Proof.
  intros Hs. revert c Hs. induction n as [| n IH]; intros c Hs; [done |].
  cbn [Auth.completions]. unfold completion. rewrite Hs. by apply IH.
Qed.

(** The fourth completion ends every call. *)
Lemma run_verdict net : run json_parse callback_throws net = mkCall Finished false [verdict net].
Proof.
  unfold run, verdict, new_call. cbn [Auth.completions]. unfold completion at 4. cbn [stage].
  destruct (resolve_fails net); [by cbn |]. cbn. destruct (connect_fails net); [by cbn |]. cbn.
  destruct (write_fails net); [by cbn |]. cbn. destruct (read_fails net); [by cbn |]. cbn.
  destruct (Z.eqb (status (response net)) 200); [| by cbn]. cbn [negb].
  destruct (json_parse _) as [body |]; [| by cbn].
  destruct (String.eqb _ _); cbn; destruct (callback_throws _); by cbn.
Qed.

(** A call is running and has not answered, or has answered once. *)
Definition call_ok (c : Call) : Prop :=
  (callback c = true /\ answers c = [] /\ stage c <> Finished)
  \/ (callback c = false /\ length (answers c) = 1 /\ stage c = Finished).

Lemma completion_ok net c : call_ok c -> call_ok (completion json_parse callback_throws net c).1.
Proof.
  destruct c as [s cb l]. intros [(? & ? & Hs) | (? & ? & ?)]; simpl in *; subst; [| by right].
  destruct s; try done; unfold completion; cbn [stage];
    unfold on_resolve, on_connect, on_write, on_read, fail, try_finish, finish, at_stage, call_ok;
    repeat case_match; simplify_eq/=; (by left) || (by right).
Qed.

Lemma completions_ok n net : call_ok (completions n net new_call).
Proof.
  assert (Hg : forall c, call_ok c -> call_ok (completions n net c)); [| by apply Hg; left].
  induction n as [| n IH]; intros c Hc; [done |]. by apply IH, completion_ok.
Qed.
End Answers.

(** ** Properties *)

(** C38 Every authorization ends and is answered once: whatever the network
    does and even if the callback throws, a call is finished after four
    completions and never before its only answer, and the answer is an identity
    exactly when every operation succeeded, the API replied 200 and the body is
    JSON with a user name, which is the identity's. *)
Theorem call_answers_once json_parse callback_throws net n :
  let c := completions json_parse callback_throws n net new_call in
  length (answers c) <= 1
  /\ (stage c = Finished <-> length (answers c) = 1)
  /\ (4 <= n -> stage c = Finished)
  /\ forall x, answers c = [x] -> forall i, x = Some i <-> grants json_parse net i.
Proof.
  intros c. pose proof (completions_ok json_parse callback_throws n net) as Hok. fold c in Hok.
  assert (Hadd : forall m k d, completions json_parse callback_throws (m + k) net d
    = completions json_parse callback_throws k net (completions json_parse callback_throws m net d)).
  { intros m. induction m as [| m IH]; intros k d; [done |]. cbn [Nat.add Auth.completions]. apply IH. }
  split_and!.
  - destruct Hok as [(_ & -> & _) | (_ & -> & _)]; simpl; lia.
  - destruct Hok as [(_ & Ha & Hs) | (_ & Ha & Hs)]; [rewrite Ha; simpl; by split | done].
  - intros Hn. unfold c. replace n with (4 + (n - 4)) by lia. rewrite Hadd.
    change (completions _ _ 4 net new_call) with (run json_parse callback_throws net).
    by rewrite run_verdict, finished_stays.
  - intros x Hx i. rewrite <- verdict_grants. enough (x = verdict json_parse net) as -> by done.
    assert (Hs : stage c = Finished) by (destruct Hok as [(_ & Ha & _) | (_ & _ & Hs)]; [congruence | done]).
    pose proof (Hadd n 4 new_call) as Hrun. fold c in Hrun.
    rewrite (finished_stays _ _ 4 _ _ Hs), Nat.add_comm, Hadd in Hrun.
    change (completions _ _ 4 net new_call) with (run json_parse callback_throws net) in Hrun.
    rewrite run_verdict, finished_stays in Hrun by done. rewrite <- Hrun in Hx. by injection Hx.
Qed.

(** C39 The API's URL is read exactly: [create] accepts the URLs [http://host]
    and [http://host:port], with any slashes after them, whose host is not
    empty and has no space, control character, separator, colon, bracket,
    backslash or at sign, and whose port is digits for 1 to 65535; it returns
    that host and that port, 80 when there is none, and refuses everything
    else. *)
Theorem create_accepts url a : create url = Some a <-> api_url a url.
Proof. split; [apply create_sound | apply create_complete]. Qed.
