(* ===== verification/Http.v ===== *)
(** * The door of the signaling server (ws_server.cpp)

    [Session::on_http_read] answers a plain request or upgrades it to a
    websocket, asking the API first when the server has an authenticator. *)

From S2P Require Import Prelude Text Signaling Url Auth.
From S2P Require Import RtpRewrite RtpSlot SfuMedia RouterCommon SendLoops Delays.
From S2P Require Import VoiceRouter VoiceInvariant ScreenRouter ScreenInvariant Server.

Local Open Scope list_scope.

Record HttpRequest := mkHttpRequest {
  is_upgrade : bool;
  method_get : bool;
  target : text;
  (** the Authorization header, empty when absent *)
  authorization : text;
}.

Inductive HttpStatus := NotFound | Unauthorized.

(** What the session does with the request. *)
Inductive HttpAction :=
  | AcceptWebsocket (room_id : RoomId) (username : Username)
  | SendHealth
  | SendSnapshot (path : text)
  | SendHttpError (status : HttpStatus).

Definition kBearer : text := chars "Bearer ".

Definition bearer_token (req : HttpRequest) : text :=
  let header := authorization req in
  if bool_decide (length kBearer < length header) && starts_with kBearer header
  then drop (length kBearer) header
  else parse_query_param (target req) (chars "t").

Section Http.
Variable json_parse : string -> option json.
Variable callback_throws : option Identity -> bool.
Variable network : Request -> Network.

Definition path_of (target : text) : text :=
  match find_char "?" target with Some i => take i target | None => target end.

(** One action per answer of the authenticator. *)
Definition handle_http_request (authenticator : option ApiAuthenticator) (req : HttpRequest) :
    list HttpAction :=
  let path := path_of (target req) in
  if method_get req && bool_decide (path = chars "/health") then [SendHealth]
  else if negb (method_get req)
       || (bool_decide (path <> chars "/presence") && bool_decide (path <> chars "/media_stats"))
  then [SendHttpError NotFound]
  else
    match authenticator with
    | None => [SendSnapshot path]
    | Some a =>
      (fun identity => match identity with
                       | Some _ => SendSnapshot path
                       | None => SendHttpError Unauthorized
                       end)
        <$> authorize_user json_parse callback_throws network a (bearer_token req)
    end.

Definition on_http_read (ec : bool) (authenticator : option ApiAuthenticator) (req : HttpRequest) :
    list HttpAction :=
  if ec then []
  else if negb (is_upgrade req) then handle_http_request authenticator req
  else
    let room_id := parse_room_id (target req) in
    match authenticator with
    | None => [AcceptWebsocket (of_chars room_id) (of_chars (parse_query_param (target req) (chars "u")))]
    | Some a =>
      (fun identity => match identity with
                       | Some i => AcceptWebsocket (of_chars room_id) (username i)
                       | None => SendHttpError Unauthorized
                       end)
        <$> authorize_channel json_parse callback_throws network a (bearer_token req) room_id
    end.

Section Admission.
Context `{Platform} `{IterationOrder} {Media : Type} `{MediaApi Media, !SlotMedia Media}.
Variable dumps : Message -> bool.

(** A request on a fresh connection: when the handshake succeeds the session
    joins its room. *)
Definition start_session (ec handshake_fails : bool) (authenticator : option ApiAuthenticator)
    (req : HttpRequest) (id : PeerId) (s : Server) : option (Server * list (Outgoing (Media := Media))) :=
  foldl (fun acc action =>
    '(s, out) ← acc;
    match action with
    | AcceptWebsocket room_id username =>
      if handshake_fails then Some (s, out)
      else
        '(s, sent) ← on_accept dumps s id room_id username;
        Some (s, out ++ sent)
    | _ => Some (s, out)
    end) (Some (s, [])) (on_http_read ec authenticator req).
End Admission.
End Http.

(** ** Properties *)

Section Properties.
Variable json_parse : string -> option json.
Variable callback_throws : option Identity -> bool.
Variable network : Request -> Network.

(** The API granted the target to the request's bearer. *)
Definition granted (a : ApiAuthenticator) (target : text) (req : HttpRequest) (i : Identity) : Prop :=
  bearer_token req <> []
  /\ grants json_parse (network (make_request a target (bearer_token req))) i.

Lemma request_answer a target req :
  exists x, request json_parse callback_throws network a target (bearer_token req) = [x]
  /\ forall i, x = Some i <-> granted a target req i.
Proof.
  unfold request, granted. case_decide as Ht.
  - exists None. split; [done |]. intros i. by split; [| intros [? _]].
  - rewrite run_verdict. cbn [answers]. eexists. split; [done |]. intros i.
    rewrite verdict_grants. by split; [| intros [_ ?]].
Qed.

Section Admission.
Context `{Platform} `{IterationOrder} {Media : Type} `{MediaApi Media, !SlotMedia Media}.
Variable dumps : Message -> bool.

Lemma on_accept_sessions (s s' : Server) id room_id name out :
  on_accept (Media := Media) dumps s id room_id name = Some (s', out) ->
  forall r room p u, rooms s' !! r = Some room -> sessions room !! p = Some u ->
    (exists room0, rooms s !! r = Some room0 /\ sessions room0 !! p = Some u)
    \/ (p = id /\ r = room_id /\ u = name).
Proof.
  unfold on_accept, register_and_build_welcome. intros Ha r room p u Hr Hp.
  destruct (stopping s); [injection Ha as <- _; left; by exists room |].
  destruct (negb _); [done |]. destruct (negb _); [done |]. injection Ha as <- _. cbn [set_room rooms] in Hr.
  destruct (decide (r = room_id)) as [-> | Hne]; [| rewrite lookup_insert_ne in Hr by done; left; by exists room].
  rewrite lookup_insert_eq in Hr. injection Hr as <-. cbn [sessions] in Hp.
  assert (Hold : forall v, sessions (default (new_room (faults s)) (rooms s !! room_id)) !! p = Some v ->
    exists room0, rooms s !! room_id = Some room0 /\ sessions room0 !! p = Some v).
  { intros v Hv. destruct (rooms s !! room_id) as [room0 |]; [by exists room0 | done]. }
  destruct (sessions _ !! id) as [v |] eqn:Hid; [left; by apply Hold |].
  destruct (decide (p = id)) as [-> | Hne].
  - rewrite lookup_insert_eq in Hp. injection Hp as <-. by right.
  - rewrite lookup_insert_ne in Hp by done. left. by apply Hold.
Qed.

Lemma start_session_sessions ec hs auth req id (s s' : Server) out action :
  on_http_read json_parse callback_throws network ec auth req = [action] ->
  start_session (Media := Media) json_parse callback_throws network dumps ec hs auth req id s
    = Some (s', out) ->
  forall r room p u, rooms s' !! r = Some room -> sessions room !! p = Some u ->
    (exists room0, rooms s !! r = Some room0 /\ sessions room0 !! p = Some u)
    \/ (p = id /\ action = AcceptWebsocket r u).
Proof.
  unfold start_session. intros -> Hs r room p u Hr Hp. cbn in Hs.
  assert (Hsame : s' = s -> exists room0, rooms s !! r = Some room0 /\ sessions room0 !! p = Some u)
    by (intros ->; by exists room).
  destruct action as [room_id name | | |]; try (injection Hs as <- _; left; by apply Hsame).
  destruct hs; [injection Hs as <- _; left; by apply Hsame |].
  apply bind_Some_inv in Hs as ([s2 sent] & Ha & Hs). injection Hs as <- _.
  destruct (on_accept_sessions _ _ _ _ _ _ Ha r room p u Hr Hp) as [? | (-> & -> & ->)]; [by left | by right].
Qed.
End Admission.

(** The action an answer of the API is turned into. *)
Definition admit_action (room_id : RoomId) (x : option Identity) : HttpAction :=
  match x with
  | Some i => AcceptWebsocket room_id (username i)
  | None => SendHttpError Unauthorized
  end.

Definition snapshot_action (path : text) (x : option Identity) : HttpAction :=
  match x with Some _ => SendSnapshot path | None => SendHttpError Unauthorized end.

Lemma admit_action_accepts r x room_id u :
  admit_action r x = AcceptWebsocket room_id u <-> room_id = r /\ exists i, username i = u /\ x = Some i.
Proof.
  destruct x as [i |]; simpl; split.
  - intros [= <- <-]. split; [done |]. by exists i.
  - by intros (-> & i' & <- & [= <-]).
  - done.
  - by intros (_ & ? & _ & ?).
Qed.

Lemma snapshot_action_sends path x path' :
  snapshot_action path x = SendSnapshot path' <-> path' = path /\ exists i, x = Some i.
Proof.
  destruct x as [i |]; simpl; split.
  - intros [= <-]. split; [done |]. by exists i.
  - by intros (-> & _).
  - done.
  - by intros (_ & ? & ?).
Qed.

Lemma on_http_read_upgrade a req x :
  is_upgrade req = true ->
  request json_parse callback_throws network a (channel_target (parse_room_id (target req)))
    (bearer_token req) = [x] ->
  on_http_read json_parse callback_throws network false (Some a) req
    = [admit_action (of_chars (parse_room_id (target req))) x].
Proof. unfold on_http_read, authorize_channel. by intros -> ->. Qed.

(** A plain request: the action, and whether a snapshot is asked for. *)
Lemma on_http_read_plain a req x :
  is_upgrade req = false ->
  request json_parse callback_throws network a (chars "/users/me") (bearer_token req) = [x] ->
  let path := path_of (target req) in
  let snapshot := method_get req = true /\ (path = chars "/presence" \/ path = chars "/media_stats") in
  exists action, on_http_read json_parse callback_throws network false (Some a) req = [action]
  /\ (snapshot -> action = snapshot_action path x)
  /\ (~ snapshot -> action = SendHealth \/ action = SendHttpError NotFound).
Proof.
  unfold on_http_read, handle_http_request, authorize_user. intros -> ->. cbn [negb]. cbv zeta.
  set (path := path_of (target req)). destruct (method_get req); cbn [andb negb orb].
  - destruct (bool_decide_reflect (path = chars "/health")) as [-> | Hh]; cbn [andb].
    { eexists. split; [done |]. split; [by intros [_ [?|?]] | by left]. }
    destruct (bool_decide_reflect (path <> chars "/presence")) as [H1 | H1],
      (bool_decide_reflect (path <> chars "/media_stats")) as [H2 | H2]; cbn [andb];
      eexists; (split; [done |]); split; naive_solver.
  - eexists. split; [done |]. split; [by intros [? _] | by right].
Qed.

Section Gate.
Context `{Platform} `{IterationOrder} {Media : Type} `{MediaApi Media, !SlotMedia Media}.
Variable dumps : Message -> bool.

(** C4 Nobody passes an authenticated server without the API: every request is
    answered by one action; a websocket is accepted for a room and a name
    exactly when the API grants that room to the request's bearer token under
    that name, so the [u] parameter names nobody; a snapshot of the rooms is
    served exactly to a GET of its path by a bearer the API knows; and a
    session joins a room only as the member the API granted. *)
Theorem door_gated a req :
  exists action,
    on_http_read json_parse callback_throws network false (Some a) req = [action]
    /\ (forall room_id u, action = AcceptWebsocket room_id u <->
          is_upgrade req = true /\ room_id = of_chars (parse_room_id (target req))
          /\ exists i, username i = u /\ granted a (channel_target (parse_room_id (target req))) req i)
    /\ (forall path, action = SendSnapshot path <->
          is_upgrade req = false /\ method_get req = true /\ path = path_of (target req)
          /\ (path = chars "/presence" \/ path = chars "/media_stats")
          /\ exists i, granted a (chars "/users/me") req i)
    /\ (forall hs id s s' out room_id room p u,
          start_session (Media := Media) json_parse callback_throws network dumps
            false hs (Some a) req id s = Some (s', out) ->
          rooms s' !! room_id = Some room -> sessions room !! p = Some u ->
          (exists room0, rooms s !! room_id = Some room0 /\ sessions room0 !! p = Some u)
          \/ (p = id /\ room_id = of_chars (parse_room_id (target req))
              /\ exists i, username i = u /\ granted a (channel_target (parse_room_id (target req))) req i)).
Proof.
  destruct (is_upgrade req) eqn:Hup.
  - destruct (request_answer a (channel_target (parse_room_id (target req))) req) as (x & Hx & Hg).
    pose proof (on_http_read_upgrade a req x Hup Hx) as Hread.
    assert (Hacc : forall room_id u, admit_action (of_chars (parse_room_id (target req))) x
      = AcceptWebsocket room_id u <-> true = true /\ room_id = of_chars (parse_room_id (target req))
        /\ exists i, username i = u /\ granted a (channel_target (parse_room_id (target req))) req i).
    { intros room_id u. rewrite admit_action_accepts. setoid_rewrite Hg. tauto. }
    eexists. split; [exact Hread |]. split; [exact Hacc |]. split.
    + intros path. split; [by destruct x | by intros [? _]].
    + intros hs id s s' out room_id room p u Hs Hr Hp.
      destruct (start_session_sessions _ _ _ _ _ _ _ _ _ _ Hread Hs room_id room p u Hr Hp)
        as [? | (-> & Ha)]; [by left |]. apply Hacc in Ha as (_ & ? & ?). by right.
  - destruct (request_answer a (chars "/users/me") req) as (x & Hx & Hg).
    destruct (on_http_read_plain a req x Hup Hx) as (action & Hread & Hyes & Hno).
    set (path := path_of (target req)) in *.
    assert (Hsnap : (method_get req = true /\ (path = chars "/presence" \/ path = chars "/media_stats"))
      \/ ~ (method_get req = true /\ (path = chars "/presence" \/ path = chars "/media_stats"))).
    { destruct (decide (method_get req = true /\ (path = chars "/presence" \/ path = chars "/media_stats"))); tauto. }
    assert (Hnot : forall room_id u, action <> AcceptWebsocket room_id u).
    { destruct Hsnap as [Hsn | Hsn]; [rewrite (Hyes Hsn); by destruct x | by destruct (Hno Hsn) as [-> | ->]]. }
    exists action. split; [done |]. split; [| split].
    + intros room_id u. split; [by intros ?%Hnot | by intros [? _]].
    + intros path'. destruct Hsnap as [Hsn | Hsn].
      * rewrite (Hyes Hsn), snapshot_action_sends. setoid_rewrite Hg. naive_solver.
      * split; [by destruct (Hno Hsn) as [-> | ->] | naive_solver].
    + intros hs id s s' out room_id room p u Hs Hr Hp.
      destruct (start_session_sessions _ _ _ _ _ _ _ _ _ _ Hread Hs room_id room p u Hr Hp)
        as [? | (_ & Ha)]; [by left | by apply Hnot in Ha].
Qed.
End Gate.
End Properties.
