(* ===== verification/Startup.v ===== *)
(** * Configuration and start (main.cpp, the constructor of WebSocketServer)

    The environment and the arguments become a configuration or an error.
    [std::getenv] and the parser of an ICE server URL are parameters. *)

From S2P Require Import Prelude Text Signaling Url Auth.

Local Open Scope list_scope.
Local Open Scope char_scope.

(** [std::getenv] *)
Abbreviation Environment := (text -> option text) (only parsing).

Inductive StartError := BadPort | UnusableApiUrl | MissingApiUrl.

Section Startup.
Variable getenv : Environment.

Definition env_flag (name : text) : bool :=
  match getenv name with
  | Some value => bool_decide (value = chars "1") || bool_decide (value = chars "true")
  | None => false
  end.

(** [None] is a thrown exception, of [std::stoul] or the range check. *)
Definition parse_port (value : text) : option Z :=
  match stoul value with
  | None => None
  | Some (parsed, consumed) =>
    if bool_decide (consumed <> length value) || Z.eqb parsed 0 || (65535 <? parsed)%Z then None
    else Some parsed
  end.

Definition make_authenticator : Expected (option ApiAuthenticator) StartError :=
  match getenv (chars "DRISCORD_API_URL") with
  | Some (c :: url) =>
    match create (c :: url) with
    | Some a => Value (Some a)
    | None => Unexpected UnusableApiUrl
    end
  | _ =>
    if negb (env_flag (chars "DRISCORD_ALLOW_ANONYMOUS")) then Unexpected MissingApiUrl else Value None
  end.

(** ** The constructor of WebSocketServer *)

Definition env_port (name : text) (fallback : Z) : Z :=
  match getenv name with
  | Some v => default fallback (parse_port v)
  | None => fallback
  end.

Definition ice_port_range : Z * Z :=
  let first := env_port (chars "DRISCORD_ICE_PORT_MIN") 49160 in
  let last := env_port (chars "DRISCORD_ICE_PORT_MAX") 49200 in
  if (last <? first)%Z then (49160, 49200)%Z else (first, last).

(** The constructor [rtc::IceServer(url)] does not throw. *)
Variable ice_server : text -> bool.

Definition is_blank (c : ascii) : bool := is_char " " c || is_char (char_of 9) c.

(** [std::getline] up to a comma, until the stream ends. *)
Fixpoint getlines (acc value : text) : list text :=
  match value with
  | [] => if decide (acc = []) then [] else [acc]
  | c :: rest => if is_char "," c then acc :: getlines [] rest else getlines (acc ++ [c]) rest
  end.

Definition ice_url (url : text) : option text :=
  match find_if (fun c => negb (is_blank c)) url with
  | None => None
  | Some first => Some (drop_while_back is_blank (drop first url))
  end.

Definition ice_servers : list text :=
  let value := default (chars "stun:stun.l.google.com:19302") (getenv (chars "DRISCORD_ICE_STUN_URLS")) in
  if decide (value = chars "none") then []
  else filter (fun url => ice_server url = true) (omap ice_url (getlines [] value)).

(** ** main *)

Record Config := mkConfig {
  listen_port : Z;
  authenticator : option ApiAuthenticator;
  port_range : Z * Z;
  stun_urls : list text;
}.

(** Up to the listening socket; [argument] is [argv[1]]. *)
Definition configure (argument : option text) : Expected Config StartError :=
  let from_env :=
    match getenv (chars "DRISCORD_PORT") with Some v => parse_port v | None => Some 9001%Z end in
  let port :=
    match from_env, argument with
    | None, _ => None
    | Some port, Some v => parse_port v
    | Some port, None => Some port
    end in
  match port with
  | None => Unexpected BadPort
  | Some port =>
    a ←! make_authenticator;
    Value (mkConfig port a ice_port_range ice_servers)
  end.
End Startup.

(** ** Lemmas *)

Definition is_port (p : Z) : Prop := (1 <= p <= 65535)%Z.

Lemma parse_port_range v p : parse_port v = Some p -> is_port p.
Proof.
  unfold parse_port. destruct (stoul v) as [[n used] |] eqn:Hs; [| done].
  destruct (_ || _) eqn:Hc; [done |]. intros [= <-].
  apply orb_false_iff in Hc as [[_ Hz%Z.eqb_neq]%orb_false_iff Hle%Z.ltb_ge].
  apply stoul_nonneg in Hs. unfold is_port. lia.
Qed.

Lemma parse_port_to_string p : is_port p -> parse_port (to_string p) = Some p.
Proof.
  intros Hp. unfold parse_port, is_port in *. rewrite stoul_to_string by lia.
  rewrite bool_decide_false by (intros Hn; by apply Hn).
  destruct (Z.eqb_spec p 0); [lia |]. by destruct (Z.ltb_spec 65535 p); [lia |].
Qed.

Lemma ice_port_range_spec getenv :
  let '(first, last) := ice_port_range getenv in is_port first /\ is_port last /\ (first <= last)%Z.
Proof.
  assert (Hp : forall name fallback, is_port fallback -> is_port (env_port getenv name fallback)).
  { intros name fallback Hf. unfold env_port. destruct (getenv name) as [v |]; [| done].
    destruct (parse_port v) as [p |] eqn:Hv; [by eapply parse_port_range | done]. }
  unfold ice_port_range. cbv zeta. destruct (Z.ltb_spec (env_port getenv (chars "DRISCORD_ICE_PORT_MAX") 49200)
    (env_port getenv (chars "DRISCORD_ICE_PORT_MIN") 49160)); [by vm_compute |].
  split_and!; [by apply Hp .. | done].
Qed.

(** The URL of the API, when it is set. *)
Definition api_setting (getenv : Environment) : option text :=
  match getenv (chars "DRISCORD_API_URL") with Some (c :: url) => Some (c :: url) | _ => None end.

Lemma make_authenticator_spec getenv :
  make_authenticator getenv =
  match api_setting getenv with
  | Some url => match create url with Some a => Value (Some a) | None => Unexpected UnusableApiUrl end
  | None => if env_flag getenv (chars "DRISCORD_ALLOW_ANONYMOUS") then Value None
            else Unexpected MissingApiUrl
  end.
Proof.
  unfold make_authenticator, api_setting.
  destruct (getenv _) as [[| c url] |]; try done; by destruct (env_flag _ _).
Qed.

Lemma env_flag_true getenv name :
  env_flag getenv name = true
  <-> getenv name = Some (chars "1") \/ getenv name = Some (chars "true").
Proof.
  unfold env_flag. destruct (getenv name) as [v |]; [| naive_solver].
  rewrite orb_true_iff, !bool_decide_eq_true. naive_solver.
Qed.

(** ** Properties *)

(** The server starts closed: a start succeeds without an authenticator
    only when no API URL is set and the operator allowed anonymous clients with
    [1] or [true]; with an API URL it succeeds only if the URL is usable, and
    then every session is checked against its host and port.  A server that
    starts listens on a port from 1 to 65535 and gives media a range of such
    ports that is not empty. *)
Theorem startup_closed getenv ice_server argument config :
  configure getenv ice_server argument = Value config ->
  is_port (listen_port config)
  /\ is_port (port_range config).1 /\ is_port (port_range config).2
  /\ ((port_range config).1 <= (port_range config).2)%Z
  /\ match authenticator config with
     | None => api_setting getenv = None
               /\ (getenv (chars "DRISCORD_ALLOW_ANONYMOUS") = Some (chars "1")
                   \/ getenv (chars "DRISCORD_ALLOW_ANONYMOUS") = Some (chars "true"))
     | Some a => exists url, api_setting getenv = Some url /\ api_url a url
     end.
Proof.
  unfold configure. intros Hc.
  match type of Hc with match ?m with _ => _ end = _ => destruct m as [p |] eqn:Hp; [| done] end.
  destruct (make_authenticator getenv) as [auth | e] eqn:Hauth; [| done]. injection Hc as <-.
  cbn [listen_port port_range Startup.authenticator]. split.
  { destruct argument as [v |].
    - destruct (match getenv _ with Some _ => _ | None => _ end); [by eapply parse_port_range | done].
    - destruct (getenv _) as [v |]; [| injection Hp as <-; by vm_compute].
      destruct (parse_port v) as [q |] eqn:Hq; [| done]. injection Hp as <-. by eapply parse_port_range. }
  pose proof (ice_port_range_spec getenv) as Hr. destruct (ice_port_range getenv) as [lo hi].
  destruct Hr as (? & ? & ?). split_and!; [done.. |].
  rewrite make_authenticator_spec in Hauth. destruct (api_setting getenv) as [url |].
  - destruct (create url) as [a |] eqn:Ha; [| done]. injection Hauth as <-.
    exists url. split; [done | by apply create_sound].
  - destruct (env_flag _ _) eqn:Hf; [| done]. injection Hauth as <-. by apply env_flag_true in Hf.
Qed.

Definition sample_environment : Environment := fun name =>
  if decide (name = chars "DRISCORD_API_URL") then Some (chars "http://api:8000/")
  else if decide (name = chars "DRISCORD_ICE_PORT_MIN") then Some (chars "50000")
  else None.

Theorem startup_closed_witness :
  exists config, configure sample_environment (fun _ => true) (Some (chars "9002")) = Value config
  /\ exists url, api_setting sample_environment = Some url
     /\ api_url (mkAuthenticator (chars "api") (chars "8000")) url.
Proof.
  assert (Hc : configure sample_environment (fun _ => true) (Some (chars "9002"))
    = Value (mkConfig 9002 (Some (mkAuthenticator (chars "api") (chars "8000"))) (49160, 49200)%Z
        [chars "stun:stun.l.google.com:19302"])) by by vm_compute.
  eexists. split; [exact Hc |].
  exact (proj2 (proj2 (proj2 (proj2 (startup_closed _ _ _ _ Hc))))).
Defined.

(** [std::stoul] lets a port be written with white space, a sign, or as a
    negative number that wraps around. *)
Lemma parse_port_wraps :
  parse_port (chars "-18446744073709551536") = Some 80%Z
  /\ parse_port (char_of 9 :: chars " +8080") = Some 8080%Z.
Proof. by vm_compute. Qed.
