(* ===== verification/Proxy.v ===== *)
(** * Proxy configuration (core/src/utils/proxy_config.cpp)

    Proxy URLs, the NO_PROXY list and the choice of a proxy from the
    environment.  [std::getenv] is a parameter. *)

From S2P Require Import Prelude Text Url.

Local Open Scope list_scope.
Local Open Scope char_scope.

Inductive Scheme := Http | Socks5.

#[export] Instance Scheme_eq_dec : EqDecision Scheme.
Proof. solve_decision. Defined.

Record ProxyConfig := mkProxy {
  scheme : Scheme;
  host : text;
  port : Z;
  username : text;
  password : text;
}.

#[export] Instance ProxyConfig_eq_dec : EqDecision ProxyConfig.
Proof. solve_decision. Defined.

Definition authenticated (p : ProxyConfig) : bool := negb (bool_decide (username p = [])).

Definition kDefaultHttpPort : Z := 8080.
Definition kDefaultSocksPort : Z := 1080.

(** [None] of the whole is [nullopt]; the accumulator is [unsigned]. *)
Definition parse_port (t : text) : option Z :=
  if bool_decide (t = []) || bool_decide (5 < length t) then None
  else if existsb (fun c => negb (isdigit c)) t then None
  else
    let value := foldl (fun v c => u32 (v * 10 + digit_value c)) 0%Z t in
    if Z.eqb value 0 || (65535 <? value)%Z then None else Some value.

(** Host and port; [None] when [split_host_port] returns false. *)
Definition split_host_port (authority : text) : option (text * option Z) :=
  match authority with
  | [] => None
  | c :: inner =>
    if is_char "[" c then
      match find_char "]" inner with
      | None | Some O => None
      | Some close =>
        match drop (S close) inner with
        | [] => Some (take close inner, None)
        | d :: rest =>
          if is_char ":" d then p ← parse_port rest; Some (take close inner, Some p) else None
        end
      end
    else
      match rfind_char ":" authority with
      | None => Some (authority, None)
      | Some colon =>
        if negb (bool_decide (find_char ":" authority = Some colon)) then Some (authority, None)
        else if decide (take colon authority = []) then None
        else p ← parse_port (drop (S colon) authority); Some (take colon authority, Some p)
      end
  end.

Definition scheme_mark : text := chars "://".

Definition url (p : ProxyConfig) : text :=
  (match scheme p with Socks5 => chars "socks5://" | Http => chars "http://" end)
  ++ (match find_char ":" (host p) with
      | Some _ => "[" :: host p ++ ["]"]
      | None => host p
      end)
  ++ ":" :: to_string (port p).

(** The scheme and what follows it; http when there is none. *)
Definition read_scheme (t : text) : option (Scheme * text) :=
  match find_sub scheme_mark t with
  | None => Some (Http, t)
  | Some scheme_end =>
    let name := to_lower (take scheme_end t) in
    let rest := drop (scheme_end + 3) t in
    if bool_decide (name = chars "http") then Some (Http, rest)
    else if bool_decide (name = chars "socks5") || bool_decide (name = chars "socks5h")
    then Some (Socks5, rest)
    else None
  end.

(** User name, password and what follows the last at sign. *)
Definition read_credentials (t : text) : option (text * text * text) :=
  match rfind_char "@" t with
  | None => Some ([], [], t)
  | Some i =>
    let credentials := take i t in
    let '(u, p) := match find_char ":" credentials with
                   | None => (credentials, [])
                   | Some colon => (take colon credentials, drop (S colon) credentials)
                   end in
    if decide (u = []) then None else Some (u, p, drop (S i) t)
  end.

Definition default_port (s : Scheme) : Z :=
  match s with Socks5 => kDefaultSocksPort | Http => kDefaultHttpPort end.

Definition drop_path (t : text) : text :=
  match find_char "/" t with Some i => take i t | None => t end.

Definition parse_proxy_url (t : text) : option ProxyConfig :=
  let t := trim t in
  if decide (t = []) then None
  else
    '(s, t) ← read_scheme t;
    '(u, p, t) ← read_credentials t;
    '(h, port) ← split_host_port (drop_path t);
    Some (mkProxy s h (default (default_port s) port) u p).

(** ** NO_PROXY *)

(** One entry of the list, lower case and trimmed, against the host. *)
Definition entry_matches (entry host : text) : bool :=
  if decide (entry = []) then false
  else if bool_decide (entry = chars "*") then true
  else
    let '(suffix, subdomain_only) :=
      if starts_with (chars "*.") entry then (drop 2 entry, true)
      else if starts_with (chars ".") entry then (drop 1 entry, true)
      else (entry, false) in
    if decide (suffix = []) then false
    else if negb subdomain_only && bool_decide (host = suffix) then true
    else bool_decide (length suffix < length host) && ends_with suffix host
         && bool_decide (host !! (length host - length suffix - 1) = Some ".").

Definition is_separator : ascii -> bool := one_of [","; " "; char_of 9].

(** The loop, on what is left of the list; a turn drops a separator. *)
Fixpoint no_proxy_loop (fuel : nat) (rest target : text) : bool :=
  match fuel with
  | O => false
  | S fuel =>
    let stop := find_if is_separator rest in
    let entry := to_lower (trim (match stop with Some i => take i rest | None => rest end)) in
    if entry_matches entry target then true
    else match stop with Some i => no_proxy_loop fuel (drop (S i) rest) target | None => false end
  end.

Definition no_proxy_matches (no_proxy host : text) : bool :=
  if decide (host = []) then false
  else no_proxy_loop (S (length no_proxy)) no_proxy (to_lower host).

(** ** The environment *)

Section Environment.
Variable getenv : text -> option text.

Definition environment_value (name : text) : option text :=
  match getenv name with
  | None => None
  | Some value => let trimmed := trim value in if decide (trimmed = []) then None else Some trimmed
  end.

Definition proxy_variable (upper lower : text) : option text :=
  match environment_value upper with Some value => Some value | None => environment_value lower end.

(** The variables that are asked for, first to last. *)
Definition candidates (target_scheme : text) : list (text * text) :=
  let scheme := to_lower target_scheme in
  if bool_decide (scheme = chars "https") || bool_decide (scheme = chars "wss")
  then [(chars "HTTPS_PROXY", chars "https_proxy"); (chars "ALL_PROXY", chars "all_proxy");
        (chars "HTTP_PROXY", chars "http_proxy")]
  else [(chars "HTTP_PROXY", chars "http_proxy"); (chars "ALL_PROXY", chars "all_proxy")].

Fixpoint first_proxy (names : list (text * text)) : option ProxyConfig :=
  match names with
  | [] => None
  | (upper, lower) :: names =>
    match proxy_variable upper lower with
    | Some value => parse_proxy_url value
    | None => first_proxy names
    end
  end.

Definition excluded (target_host : text) : bool :=
  match proxy_variable (chars "NO_PROXY") (chars "no_proxy") with
  | Some no_proxy => no_proxy_matches no_proxy target_host
  | None => false
  end.

Definition proxy_from_environment (target_scheme target_host : text) : option ProxyConfig :=
  if excluded target_host then None else first_proxy (candidates target_scheme).

Definition after_credentials (t : text) : text :=
  match rfind_char "@" t with Some i => drop (S i) t | None => t end.

Definition proxy_for_url (u : text) : option ProxyConfig :=
  let u := trim u in
  match find_sub scheme_mark u with
  | None => None
  | Some scheme_end =>
    let authority := after_credentials (drop_path (drop (scheme_end + 3) u)) in
    '(host, _) ← split_host_port authority;
    proxy_from_environment (to_lower (take scheme_end u)) host
  end.
End Environment.

(** ** NO_PROXY against its specification *)

(** A host lies under a domain. *)
Definition under (d h : text) : Prop := exists sub, h = sub ++ "." :: d.

(** What an entry of the list covers: everything, a domain with its subdomains,
    or its subdomains only. *)
Definition covers (entry h : text) : Prop :=
  entry = chars "*"
  \/ exists d, d <> []
     /\ ((entry = d /\ starts_with (chars ".") d = false /\ starts_with (chars "*.") d = false
          /\ (h = d \/ under d h))
         \/ ((entry = "." :: d \/ entry = "*" :: "." :: d) /\ under d h)).

Lemma no_proxy_loop_fields fuel : forall rest target,
  length rest < fuel ->
  no_proxy_loop fuel rest target
  = existsb (fun f => entry_matches (to_lower (trim f)) target) (split_on is_separator rest).
Proof.
  induction fuel as [| fuel IH]; intros rest target Hlen; [lia |].
  cbn [no_proxy_loop]. rewrite split_on_find. destruct (find_if is_separator rest) as [i |] eqn:Hi; cbn [existsb].
  - destruct (entry_matches _ _); [done |]. cbn [orb]. apply IH.
    apply find_if_Some in Hi as (c & Hc & _). apply lookup_lt_Some in Hc. rewrite length_drop. lia.
  - by destruct (entry_matches _ _).
Qed.

Lemma under_test d h : d <> [] ->
  bool_decide (length d < length h) && ends_with d h
    && bool_decide (h !! (length h - length d - 1) = Some ".") = true <-> under d h.
Proof.
  intros Hd. unfold ends_with. rewrite !andb_true_iff, !bool_decide_eq_true. split.
  - intros [[Hlt [_ Hs]] Hdot]. exists (take (length h - length d - 1) h).
    apply take_drop_middle in Hdot.
    replace (S (length h - length d - 1)) with (length h - length d) in Hdot by lia.
    by rewrite Hs in Hdot.
  - intros [sub ->]. rewrite length_app. cbn [length].
    replace (length sub + S (length d) - length d) with (S (length sub)) by lia.
    replace (S (length sub) - 1) with (length sub) by lia.
    rewrite drop_after, list_lookup_middle by done. split_and!; [lia | lia | done | done].
Qed.

Lemma starts_with_inv p t : starts_with p t = true -> t = p ++ drop (length p) t.
Proof.
  unfold starts_with. intros Hs%bool_decide_eq_true. rewrite <- Hs at 1. symmetry. apply take_drop.
Qed.

(** One kind of entry: a domain, with or without its own name. *)
Lemma entry_domain d only h : 
  (if decide (d = []) then false
   else if negb only && bool_decide (h = d) then true
   else bool_decide (length d < length h) && ends_with d h
        && bool_decide (h !! (length h - length d - 1) = Some ".")) = true
  <-> d <> [] /\ ((only = false /\ h = d) \/ under d h).
Proof.
  destruct (decide (d = [])) as [-> | Hd]; [by split; [| intros [? _]] |].
  destruct (negb only && bool_decide (h = d)) eqn:Hb.
  - apply andb_true_iff in Hb as [->%negb_true_iff ->%bool_decide_eq_true]. naive_solver.
  - rewrite (under_test d h Hd). destruct only; [naive_solver |]. simpl in Hb.
    apply bool_decide_eq_false in Hb. naive_solver.
Qed.

Lemma entry_matches_covers entry h : entry_matches entry h = true <-> covers entry h.
Proof.
  unfold entry_matches, covers.
  destruct (decide (entry = [])) as [-> | Hne].
  { split; [done |]. intros [? | (d & Hd & [(<- & _) | ([? | ?] & _)])]; done. }
  destruct (bool_decide_reflect (entry = chars "*")) as [-> | Hstar]; [by split; [left |] |].
  destruct (starts_with (chars "*.") entry) eqn:H2.
  { apply starts_with_inv in H2 as Heq. rewrite entry_domain. simpl in Heq. rewrite Heq in H2 |- *.
    generalize dependent (drop 2 entry). intros d _ _. split.
    - intros [Hd [[? _] | Hu]]; [done |]. right. exists d. split; [done |]. right. by split; [right |].
    - intros [? | (d' & Hd & [(<- & _ & Hs & _) | ([? | [= ->]] & Hu)])]; [done.. |]. by split; [| right]. }
  destruct (starts_with (chars ".") entry) eqn:H1.
  { apply starts_with_inv in H1 as Heq. rewrite entry_domain. simpl in Heq. rewrite Heq in H1 |- *.
    generalize dependent (drop 1 entry). intros d _ _. split.
    - intros [Hd [[? _] | Hu]]; [done |]. right. exists d. split; [done |]. right. by split; [left |].
    - intros [? | (d' & Hd & [(<- & Hs & _) | ([[= ->] | ?] & Hu)])]; [done.. | by split; [| right] | done]. }
  rewrite entry_domain. split.
  - intros [_ Hc]. right. exists entry. split; [done |]. left. split_and!; [done.. |]. naive_solver.
  - intros [? | (d & Hd & [(-> & _ & _ & Hc) | ([-> | ->] & _)])]; [done | | done | done].
    split; [done |]. naive_solver.
Qed.

(** ** Ports and rendered URLs *)

Definition is_port (p : Z) : Prop := (1 <= p <= 65535)%Z.

Lemma u32_digits t : forall acc,
  foldl (fun v c => u32 (v * 10 + digit_value c)) (u32 acc) t = u32 (digits_value acc t).
Proof.
  induction t as [| c t IH]; intros acc; [done |]. cbn [foldl digits_value]. rewrite <- IH. f_equal.
  unfold u32, wrap. rewrite <- (Zplus_mod_idemp_l (_ * 10)), <- (Zplus_mod_idemp_l (acc * 10)).
  by rewrite Zmult_mod_idemp_l.
Qed.

Lemma parse_port_spec t p :
  parse_port t = Some p <->
  t <> [] /\ length t <= 5 /\ Forall (fun c => isdigit c = true) t /\ p = digits_value 0 t /\ is_port p.
Proof.
  unfold parse_port, is_port. rewrite (u32_digits t 0 : foldl _ 0%Z t = _).
  destruct (bool_decide_reflect (t = [])) as [-> | Hne]; [by split; [| intros [? _]] |].
  destruct (bool_decide_reflect (5 < length t)) as [Hl | Hl]; [by split; [| intros (_ & ? & _); lia] |].
  cbn [orb]. destruct (decide (Forall (fun c => isdigit c = true) t)) as [Hall | Hall].
  2: { destruct (existsb _ t) eqn:Hex; [by split; [| intros (_ & _ & ? & _)] |].
    apply existsb_false in Hex. destruct Hall. eapply Forall_impl; [exact Hex |].
    intros c Hc. by apply negb_false_iff in Hc. }
  rewrite (proj2 (existsb_false _ t)).
  2: { eapply Forall_impl; [exact Hall |]. intros c Hc. by rewrite Hc. }
  assert (Hv : u32 (digits_value 0 t) = digits_value 0 t).
  { apply wrap_small. split; [by apply digits_value_nonneg |].
    eapply Z.lt_le_trans; [by apply digits_value_bound |]. transitivity (10 ^ 5)%Z; [| done].
    rewrite Z.mul_1_l. apply Z.pow_le_mono_r; lia. }
  rewrite Hv. destruct (Z.eqb_spec (digits_value 0 t) 0) as [Hz | Hz]; cbn [orb].
  { split; [done |]. intros (_ & _ & _ & -> & ?). lia. }
  pose proof (digits_value_nonneg t 0 Hall ltac:(done)) as Hnn.
  destruct (Z.ltb_spec 65535 (digits_value 0 t)).
  { split; [done |]. intros (_ & _ & _ & -> & ?). lia. }
  split; [intros [= <-]; split_and!; [done | lia | done | done | lia | lia] | by intros (_ & _ & _ & -> & _)].
Qed.

Lemma proxy_port_to_string p : is_port p -> parse_port (to_string p) = Some p.
Proof.
  intros Hp. destruct (to_string_spec p) as (Hne & Hall & Hv & Hlen); [unfold is_port in *; lia |].
  apply parse_port_spec. split_and!; [done | | done | done | done].
  apply (Hlen 5); [lia |]. unfold is_port in Hp. lia.
Qed.

(** A host that a URL can carry. *)
Definition url_host (h : text) : Prop :=
  h <> []
  /\ Forall (fun c => is_char "/" c = false) h /\ Forall (fun c => is_char "@" c = false) h
  /\ (if bool_decide (is_Some (find_char ":" h)) then Forall (fun c => is_char "]" c = false) h
      else starts_with (chars "[") h = false).

Lemma trim_keeps c mid d : isspace c = false -> isspace d = false -> trim (c :: mid ++ [d]) = c :: mid ++ [d].
Proof.
  intros Hc Hd. unfold trim, drop_while_back. cbn [drop_while]. rewrite Hc.
  assert (Hr : rev (c :: mid ++ [d]) = d :: rev (c :: mid)) by by rewrite app_comm_cons, rev_app_distr.
  rewrite Hr. cbn [drop_while]. rewrite Hd, <- Hr. apply rev_involutive.
Qed.

Lemma digits_avoid t c :
  Forall (fun d => isdigit d = true) t -> isdigit c = false -> Forall (fun d => is_char c d = false) t.
Proof.
  intros Hall Hc. eapply Forall_impl; [exact Hall |]. intros d Hd. unfold is_char.
  by destruct (Ascii.eqb_spec d c) as [-> |]; [congruence |].
Qed.

Lemma split_host_port_rendered h p :
  url_host h -> is_port p ->
  split_host_port ((match find_char ":" h with Some _ => "[" :: h ++ ["]"] | None => h end)
                   ++ ":" :: to_string p) = Some (h, Some p).
Proof.
  intros (Hne & _ & _ & Hh) Hp.
  destruct (to_string_spec p) as (_ & Hdig & _ & _); [unfold is_port in *; lia |].
  assert (Hcol : Forall (fun d => is_char ":" d = false) (to_string p)) by by apply digits_avoid.
  destruct (find_char ":" h) as [i |] eqn:Hi;
    [rewrite bool_decide_true in Hh by done | rewrite bool_decide_false in Hh by by intros []].
  - cbn [app split_host_port]. change (is_char "[" "[") with true. cbv iota.
    rewrite <- app_assoc. cbn [app]. rewrite (find_char_app "]" h _ Hh).
    destruct (length h) eqn:Hl; [by destruct h |]. rewrite <- Hl.
    rewrite drop_after, take_before. change (is_char ":" ":") with true. cbv iota.
    by rewrite proxy_port_to_string.
  - apply find_if_None in Hi as Hno. destruct h as [| c h]; [done |].
    cbn [app split_host_port].
    assert (Hb : is_char "[" c = false).
    { unfold starts_with in Hh. apply bool_decide_eq_false in Hh. unfold is_char.
      destruct (Ascii.eqb_spec c "[") as [-> |]; [by destruct Hh | done]. }
    rewrite Hb. change (c :: h ++ ":" :: to_string p) with ((c :: h) ++ ":" :: to_string p).
    rewrite (rfind_char_app (c :: h) ":" _ Hcol), (find_char_app ":" (c :: h) _ Hno).
    rewrite bool_decide_true by done. cbn [negb]. rewrite take_before, drop_after.
    rewrite decide_False by done. by rewrite proxy_port_to_string.
Qed.

Lemma read_scheme_rendered s rest :
  read_scheme ((match s with Socks5 => chars "socks5://" | Http => chars "http://" end) ++ rest)
  = Some (s, rest).
Proof. by destruct s. Qed.

(** The authority a rendered URL carries. *)
Definition authority (p : ProxyConfig) : text :=
  (match find_char ":" (host p) with Some _ => "[" :: host p ++ ["]"] | None => host p end)
  ++ ":" :: to_string (port p).

Lemma authority_avoids p c :
  is_port (port p) -> Forall (fun d => is_char c d = false) (host p) ->
  isdigit c = false -> c <> "[" -> c <> "]" -> c <> ":" ->
  Forall (fun d => is_char c d = false) (authority p).
Proof.
  intros Hp Hh Hc H1 H2 H3. destruct (to_string_spec (port p)) as (_ & Hdig & _ & _); [unfold is_port in *; lia |].
  assert (Hch : forall d, c <> d -> is_char c d = false) by (intros d Hd; by apply Ascii.eqb_neq, not_eq_sym).
  apply Forall_app. split.
  - destruct (find_char ":" (host p)); [| done]. constructor; [by apply Hch |].
    apply Forall_app. split; [done |]. by repeat constructor; apply Hch.
  - constructor; [by apply Hch | by apply digits_avoid].
Qed.

Lemma trim_url p : is_port (port p) -> trim (url p) = url p.
Proof.
  intros Hp. destruct (to_string_spec (port p)) as (Hne & Hdig & _ & _); [unfold is_port in *; lia |].
  unfold url. destruct (exists_last Hne) as (init & d & Hd). rewrite Hd in Hdig |- *.
  apply Forall_app in Hdig as [_ Hlast]. apply Forall_cons in Hlast as [Hlast _].
  assert (Hs : exists c t, match scheme p with Socks5 => chars "socks5://" | Http => chars "http://" end = c :: t
    /\ isspace c = false) by (destruct (scheme p); by do 2 eexists).
  destruct Hs as (c & t & -> & Hc).
  set (h := match find_char ":" (host p) with Some _ => _ | None => _ end).
  replace ((c :: t) ++ h ++ ":" :: init ++ [d]) with (c :: (t ++ h ++ ":" :: init) ++ [d])
    by (simpl; by rewrite <- !app_assoc).
  apply trim_keeps; [done | by apply isdigit_not_space].
Qed.

(** ** Properties *)

(** A proxy's URL is read back as that proxy: for every scheme, every host
    that a URL can carry, IPv6 literals included, and every port, the parser
    returns scheme, host and port of the rendered URL, and no credentials,
    which the URL never shows. *)
Theorem proxy_url_roundtrip p :
  url_host (host p) -> is_port (port p) ->
  parse_proxy_url (url p) = Some (mkProxy (scheme p) (host p) (port p) [] []).
Proof.
  intros Hh Hp. pose proof Hh as (_ & Hslash & Hat & _).
  assert (Hurl : url p = (match scheme p with Socks5 => chars "socks5://" | Http => chars "http://" end)
    ++ authority p) by done.
  unfold parse_proxy_url. rewrite trim_url, Hurl by done.
  rewrite decide_False by (by destruct (scheme p)). rewrite read_scheme_rendered. cbn [mbind option_bind].
  unfold read_credentials, drop_path, find_char.
  rewrite (proj2 (rfind_char_None "@" (authority p))) by by apply authority_avoids.
  cbn [mbind option_bind].
  rewrite (proj2 (find_if_None (is_char "/") (authority p))) by by apply authority_avoids.
  unfold authority. by rewrite split_host_port_rendered.
Qed.

Theorem proxy_url_roundtrip_witness :
  parse_proxy_url (url (mkProxy Socks5 (chars "::1") 1080 (chars "u") (chars "p")))
  = Some (mkProxy Socks5 (chars "::1") 1080 [] []).
Proof.
  apply (proxy_url_roundtrip (mkProxy Socks5 (chars "::1") 1080 (chars "u") (chars "p"))); [| by vm_compute].
  split; [done |]. split; [by repeat constructor |]. split; [by repeat constructor |].
  cbn. by repeat constructor.
Defined.

(** NO_PROXY is matched as a list: the list covers a host exactly when one
    of its entries, parted by commas, blanks and tabs and read without case,
    covers it: [*] covers every host, a domain itself and its subdomains, and a
    domain after a dot or after [*.] its subdomains only. *)
Theorem no_proxy_exact no_proxy h :
  no_proxy_matches no_proxy h = true
  <-> h <> [] /\ exists f, f ∈ split_on is_separator no_proxy /\ covers (to_lower (trim f)) (to_lower h).
Proof.
  unfold no_proxy_matches. case_decide as Hh; [by split; [| intros [? _]] |].
  rewrite no_proxy_loop_fields by lia. rewrite existsb_exists. setoid_rewrite entry_matches_covers.
  setoid_rewrite <- list_elem_of_In. naive_solver.
Qed.

(** What the parser returns is usable. *)
Lemma split_host_port_ok t h port : split_host_port t = Some (h, port) ->
  h <> [] /\ forall p, port = Some p -> is_port p.
Proof.
  assert (Hp : forall t p, parse_port t = Some p -> is_port p) by by (intros u p (_ & _ & _ & _ & ?)%parse_port_spec).
  unfold split_host_port. destruct t as [| c inner]; [done |]. destruct (is_char "[" c).
  - destruct (find_char "]" inner) as [[| close] |] eqn:Hc; try done.
    apply find_if_Some in Hc as (x & Hx & _ & _).
    assert (Hne : take (S close) inner <> []) by by destruct inner.
    destruct (drop _ inner) as [| d rest]; [intros [= <- <-]; by split |].
    destruct (is_char ":" d); [| done]. intros (q & Hq & [= <- <-])%bind_Some_inv.
    split; [done |]. intros p [= <-]. by eapply Hp.
  - destruct (rfind_char ":" (c :: inner)) as [colon |] eqn:Hr; [| intros [= <- <-]; by split].
    destruct (negb _); [intros [= <- <-]; by split |]. case_decide as Hne; [done |].
    intros (q & Hq & [= <- <-])%bind_Some_inv. split; [done |]. intros p [= <-]. by eapply Hp.
Qed.

Lemma parse_proxy_url_ok t p : parse_proxy_url t = Some p ->
  host p <> [] /\ is_port (port p) /\ (username p = [] -> password p = []).
Proof.
  unfold parse_proxy_url. case_decide; [done |].
  intros ([s t1] & _ & H1)%bind_Some_inv. apply bind_Some_inv in H1 as ([[u pw] t2] & Hcred & H1).
  apply bind_Some_inv in H1 as ([h port] & Hs & [= <-]). apply split_host_port_ok in Hs as [Hh Hport].
  cbn. split_and!; [done | |].
  - destruct port as [q |]; [by apply Hport | by destruct s].
  - intros ->. revert Hcred. unfold read_credentials. destruct (rfind_char "@" t1); [| by intros [= <-]].
    destruct (match find_char ":" _ with Some _ => _ | None => _ end) as [u p']. by case_decide; [| intros [= ->]].
Qed.

(** The proxy of a target is chosen as documented: a target NO_PROXY covers
    has none; otherwise the first variable that is set decides, in the order of
    the target's scheme and the upper spelling first, even when its value is
    malformed: then there is no proxy, never one of a later variable.  A chosen
    proxy has a host and a port from 1 to 65535, and a password only with a
    user name. *)
Theorem proxy_chosen getenv s target :
  (excluded getenv target = true -> proxy_from_environment getenv s target = None)
  /\ (excluded getenv target = false ->
      (forall pre upper lower post value,
         candidates s = pre ++ (upper, lower) :: post ->
         Forall (fun n => proxy_variable getenv n.1 n.2 = None) pre ->
         proxy_variable getenv upper lower = Some value ->
         proxy_from_environment getenv s target = parse_proxy_url value)
      /\ (Forall (fun n => proxy_variable getenv n.1 n.2 = None) (candidates s) ->
          proxy_from_environment getenv s target = None))
  /\ (forall p, proxy_from_environment getenv s target = Some p ->
        host p <> [] /\ is_port (port p) /\ (username p = [] -> password p = [])).
Proof.
  assert (Hskip : forall pre post, Forall (fun n => proxy_variable getenv n.1 n.2 = None) pre ->
    first_proxy getenv (pre ++ post) = first_proxy getenv post).
  { intros pre post Hpre. induction Hpre as [| [u l] pre Hn _ IH]; [done |]. cbn in *. by rewrite Hn. }
  unfold proxy_from_environment. split_and!.
  - by intros ->.
  - intros ->. split.
    + intros pre upper lower post value -> Hpre Hv. rewrite Hskip by done. cbn. by rewrite Hv.
    + intros Hall. rewrite <- (app_nil_r (candidates s)). by rewrite Hskip.
  - intros p. destruct (excluded getenv target); [done |]. generalize (candidates s).
    induction l as [| [u l'] names IH]; [done |]. cbn. destruct (proxy_variable getenv u l'); [| apply IH].
    apply parse_proxy_url_ok.
Qed.
