(* ===== verification/Socket.v ===== *)
(** * The signaling socket of the client (core/src/transport.cpp)

    [Transport] opens one websocket at a time.  A callback of a socket first
    checks that it is the current one and then acts; both halves are separate
    steps, since they run on the socket's thread.  The websocket library and the
    environment are parameters. *)

From S2P Require Import Prelude Text Signaling Transport Proxy.

Local Open Scope list_scope.

Inductive ConnState := New | Connecting | Connected | Disconnected | Failed | Closed.

Definition state_to_string (s : ConnState) : string :=
  (match s with
   | New => "new" | Connecting => "connecting" | Connected => "connected"
   | Disconnected => "disconnected" | Failed => "failed" | Closed => "closed"
   end)%string.

#[export] Instance ConnState_eq_dec : EqDecision ConnState.
Proof. solve_decision. Defined.

Abbreviation Socket := nat (only parsing).

(** What leaves the transport. *)
Inductive Notice :=
  | Notified (connected : bool)
  | Opened (s : Socket) (url : text) (proxy : option (text * Z))
  | CloseSocket (s : Socket)
  | Payload (s : Socket) (payload : string).

Record Transport := mkTransport {
  ws : option Socket;
  ws_connected : bool;
  callbacks_frozen : bool;
  client : Client;
  state : ConnState;
  bytes_sent : Z;
  bytes_received : Z;
  (** the sockets whose end was notified: [disconnect_notified] *)
  notified : gset Socket;
  next_socket : Socket;
  log : list Notice;
}.

Definition new_transport : Transport :=
  mkTransport None false false new_client Closed 0 0 ∅ 0 [].

Definition update_state (s : ConnState) (t : Transport) : Transport :=
  mkTransport (ws t) (ws_connected t) (callbacks_frozen t) (client t) s (bytes_sent t) (bytes_received t)
    (notified t) (next_socket t) (log t).

Definition notify (connected : bool) (t : Transport) : Transport :=
  mkTransport (ws t) (ws_connected t) (callbacks_frozen t) (client t) (state t) (bytes_sent t)
    (bytes_received t) (notified t) (next_socket t) (log t ++ [Notified connected]).

Definition set_connected (b : bool) (t : Transport) : Transport :=
  mkTransport (ws t) b (callbacks_frozen t) (client t) (state t) (bytes_sent t) (bytes_received t)
    (notified t) (next_socket t) (log t).

Definition with_client (c : Client) (t : Transport) : Transport :=
  mkTransport (ws t) (ws_connected t) (callbacks_frozen t) c (state t) (bytes_sent t) (bytes_received t)
    (notified t) (next_socket t) (log t).

(** Takes the socket away and forgets the local id. *)
Definition reset_ws (w : option Socket) (t : Transport) : Transport :=
  mkTransport w (ws_connected t) (callbacks_frozen t)
    (mkClient "" (known_peers (client t)) (peer_usernames (client t)) (streamers (client t)))
    (state t) (bytes_sent t) (bytes_received t) (notified t) (next_socket t) (log t).

(** [streamers] belongs to the listener of the callbacks, not to the peers. *)
Definition clear_peers (t : Transport) : Transport :=
  with_client (mkClient (local_id (client t)) ∅ ∅ (streamers (client t))) t.

Definition is_current_socket (s : Socket) (t : Transport) : bool := bool_decide (ws t = Some s).

Definition notify_disconnected (s : Socket) (t : Transport) : Transport :=
  if decide (s ∈ notified t) then t
  else
    notify false (clear_peers
      (mkTransport (ws t) (ws_connected t) (callbacks_frozen t) (client t) (state t) (bytes_sent t)
         (bytes_received t) ({[s]} ∪ notified t) (next_socket t) (log t))).

Definition disconnect (t : Transport) : Transport :=
  let was_connected := ws_connected t in
  let socket := ws t in
  let t := clear_peers (reset_ws None (set_connected false t)) in
  let t := mkTransport (ws t) (ws_connected t) (callbacks_frozen t) (client t) (state t) (bytes_sent t)
             (bytes_received t) (notified t) (next_socket t)
             (log t ++ match socket with Some s => [CloseSocket s] | None => [] end) in
  let t := update_state Closed t in
  if was_connected then notify false t else t.

(** The proxy of a new socket; [None] refuses to connect. *)
Definition socket_proxy (getenv : text -> option text) (ws_url : text) : option (option (text * Z)) :=
  match proxy_for_url getenv ws_url with
  | None => Some None
  | Some proxy =>
    if negb (bool_decide (scheme proxy = Http)) then None
    else if authenticated proxy then None
    else Some (Some (host proxy, port proxy))
  end.

(** [created]: the constructor of [rtc::WebSocket] does not throw. *)
Definition connect (getenv : text -> option text) (created : bool) (ws_url : text) (t : Transport) :
    Transport * Expected unit unit :=
  let t := disconnect t in
  let t := mkTransport (ws t) (ws_connected t) true (client t) Connecting (bytes_sent t) (bytes_received t)
             (notified t) (next_socket t) (log t) in
  match socket_proxy getenv ws_url with
  | None => (update_state Failed t, Unexpected tt)
  | Some proxy =>
    if created then
      let s := next_socket t in
      (mkTransport (Some s) (ws_connected t) (callbacks_frozen t) (client t) (state t) (bytes_sent t)
         (bytes_received t) (notified t) (S s) (log t ++ [Opened s ws_url proxy]), Value tt)
    else (update_state Failed t, Unexpected tt)
  end.

(** ** The callbacks, after the check *)

Definition open_body (t : Transport) : Transport :=
  notify true (update_state Connected (set_connected true t)).

Definition closed_body (s : Socket) (t : Transport) : Transport :=
  let t := set_connected false t in
  let t := if is_current_socket s t then reset_ws None t else t in
  notify_disconnected s (update_state Disconnected t).

Definition error_body (s : Socket) (t : Transport) : Transport :=
  let t := set_connected false t in
  let t := if is_current_socket s t then reset_ws (ws t) t else t in
  notify_disconnected s (update_state Failed t).

Section Messages.
Variable json_parse : string -> option json.

Definition message_body (raw : string) (t : Transport) : Transport :=
  let t := mkTransport (ws t) (ws_connected t) (callbacks_frozen t) (client t) (state t) (bytes_sent t)
             (u64 (bytes_received t + Z.of_nat (String.length raw))) (notified t) (next_socket t) (log t) in
  match parse json_parse raw with
  | Value m => with_client (on_ws_message (client t) m) t
  | Unexpected _ => t
  end.

Inductive Callback := OnOpen | OnClosed | OnError | OnMessage (raw : string).

Definition body (s : Socket) (cb : Callback) (t : Transport) : Transport :=
  match cb with
  | OnOpen => open_body t
  | OnClosed => closed_body s t
  | OnError => error_body s t
  | OnMessage raw => message_body raw t
  end.

(** A whole callback: the check and the body. *)
Definition callback (s : Socket) (cb : Callback) (t : Transport) : Transport :=
  if is_current_socket s t then body s cb t else t.
End Messages.

(** ** Sending *)

Section Send.
Variable json_dump : json -> option string.
Variable send_ok : string -> bool.

(** [None] is the exception of [dump]. *)
Definition send_signal (message : json) (t : Transport) : option Transport :=
  payload ← json_dump message;
  match ws t with
  | Some s =>
    if ws_connected t && send_ok payload
    then Some (mkTransport (ws t) (ws_connected t) (callbacks_frozen t) (client t) (state t)
                 (u64 (bytes_sent t + Z.of_nat (String.length payload))) (bytes_received t) (notified t)
                 (next_socket t) (log t ++ [Payload s payload]))
    else Some t
  | None => Some t
  end.

Definition send_streaming_start : Transport -> option Transport := send_signal (encode (StreamingStart None)).
Definition send_streaming_stop : Transport -> option Transport := send_signal (encode (StreamingStop None)).
Definition send_watch_start (p : PeerId) : Transport -> option Transport := send_signal (encode (WatchStart p)).
Definition send_watch_stop (p : PeerId) : Transport -> option Transport := send_signal (encode (WatchStop p)).
Definition send_media_offer (c : ConnectionId) (sdp : string) : Transport -> option Transport :=
  send_signal (encode (Offer sdp c)).
Definition send_media_candidate (c : ConnectionId) (candidate mid : string) : Transport -> option Transport :=
  send_signal (encode (Candidate candidate mid c)).
End Send.

(** ** Runs

    The websocket library: a socket opens at most once, receives only while it
    is open, may fail once and closes once, and is silent after it closed. *)

Inductive Phase := Fresh | Live | Broken | Gone.

Definition fires (cb : Callback) (p : Phase) : option Phase :=
  match cb, p with
  | OnOpen, Fresh => Some Live
  | OnMessage _, Live => Some Live
  | OnError, (Fresh | Live) => Some Broken
  | OnClosed, (Fresh | Live | Broken) => Some Gone
  | _, _ => None
  end.

Section Runs.
Variable json_parse : string -> option json.
Variable json_dump : json -> option string.
Variable send_ok : string -> bool.

Record Run := mkRun { transport : Transport; phase : Socket -> Phase }.

Definition start : Run := mkRun new_transport (fun _ => Fresh).

Inductive step : relation Run :=
  | Connects r getenv created url :
      step r (mkRun (connect getenv created url (transport r)).1 (phase r))
  | Disconnects r : step r (mkRun (disconnect (transport r)) (phase r))
  | Calls r s cb p :
      s < next_socket (transport r) -> fires cb (phase r s) = Some p ->
      step r (mkRun (callback json_parse s cb (transport r)) (fun s' => if decide (s' = s) then p else phase r s'))
  | Sends r message t :
      send_signal json_dump send_ok message (transport r) = Some t -> step r (mkRun t (phase r)).

Inductive reachable : Run -> Prop :=
  | Starts : reachable start
  | Steps r r' : reachable r -> step r r' -> reachable r'.

(** What a connection listener knows: [None] after a second announcement of a
    connection that was never announced down. *)
Definition hear (view : option bool) (n : Notice) : option bool :=
  match n, view with
  | Notified true, Some false => Some true
  | Notified true, _ => None
  | Notified false, Some _ => Some false
  | _, _ => view
  end.

Definition view (l : list Notice) : option bool := foldl hear (Some false) l.

(** Nobody of an earlier connection is known. *)
Definition blank (c : Client) : Prop :=
  local_id c = ""%string /\ known_peers c = ∅ /\ peer_usernames c = ∅.

Record transport_ok (r : Run) : Prop := {
  to_view : view (log (transport r)) = Some (ws_connected (transport r));
  to_none : ws (transport r) = None -> ws_connected (transport r) = false /\ blank (client (transport r));
  to_some s : ws (transport r) = Some s ->
    s < next_socket (transport r) /\ phase r s <> Gone
    /\ (phase r s = Live <-> ws_connected (transport r) = true)
    /\ (ws_connected (transport r) = true -> state (transport r) = Connected)
    /\ (ws_connected (transport r) = false -> blank (client (transport r)));
  to_notified s : s ∈ notified (transport r) -> s < next_socket (transport r) /\ (phase r s = Broken \/ phase r s = Gone);
  to_broken s : ws (transport r) = Some s -> phase r s = Broken -> s ∈ notified (transport r);
  to_fresh s : next_socket (transport r) <= s -> phase r s = Fresh;
}.

Lemma view_app l n : view (l ++ [n]) = hear (view l) n.
Proof. unfold view. by rewrite foldl_app. Qed.

Lemma start_ok : transport_ok start.
Proof. by split. Qed.

Lemma disconnect_fields t :
  ws (disconnect t) = None /\ ws_connected (disconnect t) = false /\ blank (client (disconnect t))
  /\ notified (disconnect t) = notified t /\ next_socket (disconnect t) = next_socket t
  /\ state (disconnect t) = Closed
  /\ (view (log t) = Some (ws_connected t) -> view (log (disconnect t)) = Some false).
Proof.
  unfold disconnect. destruct (ws_connected t) eqn:Hc; simpl; split_and!; try done; intros Hv.
  - rewrite view_app. destruct (ws t); [rewrite view_app | rewrite app_nil_r]; by rewrite Hv.
  - destruct (ws t); [by rewrite view_app, Hv | by rewrite app_nil_r].
Qed.

Lemma disconnect_ok r : transport_ok r -> transport_ok (mkRun (disconnect (transport r)) (phase r)).
Proof.
  intros [Hv Hn Hs Ht Hb Hf].
  destruct (disconnect_fields (transport r)) as (Ew & Ec & Ebl & En & Ex & _ & Ev).
  split; simpl; rewrite ?Ew, ?Ec, ?En, ?Ex; try done. by apply Ev.
Qed.

(** [connect] cut into the disconnection and the rest. *)
Lemma connect_ok r getenv created url :
  transport_ok r -> transport_ok (mkRun (connect getenv created url (transport r)).1 (phase r)).
Proof.
  intros Hok. apply disconnect_ok in Hok as [Hv Hn Hs Ht Hb Hf]. simpl in *.
  destruct (disconnect_fields (transport r)) as (Ew & Ec & Ebl & _ & _ & _ & _).
  unfold connect. set (d := disconnect (transport r)) in *.
  rewrite Ec in Hv.
  destruct (socket_proxy getenv url) as [proxy |]; [destruct created |];
    [| by split; simpl; rewrite ?Ew, ?Ec ..].
  split; simpl; rewrite ?Ec in *; try done.
  - by rewrite view_app, Hv.
  - intros s [= <-]. rewrite (Hf (next_socket d)) by lia. split_and!; try done. lia.
  - intros s Hin. destruct (Ht s Hin). split; [lia | done].
  - intros s [= <-]. by rewrite (Hf (next_socket d)) by lia.
  - intros s Hle. apply Hf. lia.
Qed.

Lemma notify_disconnected_fields s t :
  let t' := notify_disconnected s t in
  ws t' = ws t /\ ws_connected t' = ws_connected t /\ state t' = state t
  /\ next_socket t' = next_socket t /\ notified t' = {[s]} ∪ notified t
  /\ (if decide (s ∈ notified t) then client t' = client t /\ log t' = log t
      else client t' = mkClient (local_id (client t)) ∅ ∅ (streamers (client t))
           /\ log t' = log t ++ [Notified false]).
Proof. unfold notify_disconnected. case_decide; simpl; split_and!; try done. set_solver. Qed.

Definition moved (r : Run) (s : Socket) (p : Phase) : Socket -> Phase :=
  fun s' => if decide (s' = s) then p else phase r s'.

(** A socket that is not current changes nothing but its own phase. *)
Lemma stale_ok r s cb p :
  transport_ok r -> s < next_socket (transport r) -> fires cb (phase r s) = Some p ->
  ws (transport r) <> Some s -> transport_ok (mkRun (transport r) (moved r s p)).
Proof.
  intros [Hv Hn Hs Ht Hb Hf] Hlt Hfire Hne.
  assert (Hother : forall s', ws (transport r) = Some s' -> moved r s p s' = phase r s').
  { intros s' Hs'. unfold moved. by rewrite decide_False by congruence. }
  split; simpl; try done.
  - intros s' Hs'. rewrite Hother by done. by apply Hs.
  - intros s' Hs'. destruct (Ht s' Hs') as [? Hp]. split; [done |]. unfold moved.
    case_decide as Hd; [subst s' | done]. destruct Hp as [Hp | Hp]; rewrite Hp in Hfire; destruct cb; simplify_eq/=; auto.
  - intros s' Hs'. rewrite Hother by done. by apply Hb.
  - intros s' Hle. unfold moved. rewrite decide_False by lia. by apply Hf.
Qed.

Lemma open_ok r s :
  transport_ok r -> ws (transport r) = Some s -> phase r s = Fresh ->
  transport_ok (mkRun (open_body (transport r)) (moved r s Live)).
Proof.
  intros [Hv Hn Hs Ht Hb Hf] Hws Hp. destruct (Hs s Hws) as (Hlt & _ & Hlive & _ & _).
  assert (Hc : ws_connected (transport r) = false).
  { destruct (ws_connected (transport r)); [| done]. by rewrite (proj2 Hlive) in Hp. }
  split; simpl; unfold moved; try (by rewrite Hws).
  - by rewrite view_app, Hv, Hc.
  - intros s' [= <-]%(eq_trans (eq_sym Hws)). by rewrite decide_True.
  - intros s' Hin. destruct (Ht s' Hin) as [? Hq]. split; [done |].
    case_decide as Hd; [subst s'; destruct Hq; congruence | done].
  - intros s' [= <-]%(eq_trans (eq_sym Hws)). by rewrite decide_True.
  - intros s' Hle. rewrite decide_False by lia. by apply Hf.
Qed.

Lemma message_ok r s raw :
  transport_ok r -> ws (transport r) = Some s -> phase r s = Live ->
  transport_ok (mkRun (message_body json_parse raw (transport r)) (moved r s Live)).
Proof.
  intros [Hv Hn Hs Ht Hb Hf] Hws Hp. destruct (Hs s Hws) as (Hlt & _ & Hlive & Hst & _).
  assert (Hc : ws_connected (transport r) = true) by by apply Hlive.
  assert (Hsame : forall s', moved r s Live s' = phase r s').
  { intros s'. unfold moved. by case_decide; subst. }
  assert (Hfields : exists c n, message_body json_parse raw (transport r)
    = mkTransport (ws (transport r)) (ws_connected (transport r)) (callbacks_frozen (transport r)) c
        (state (transport r)) (bytes_sent (transport r)) n (notified (transport r)) (next_socket (transport r))
        (log (transport r))).
  { unfold message_body. by destruct (parse json_parse raw); do 2 eexists. }
  destruct Hfields as (c & n & ->). split; simpl; try setoid_rewrite Hsame; try done.
  - by rewrite Hws.
  - intros s' Hs'. destruct (Hs s' Hs') as (? & ? & ? & ? & _). split_and!; try done. by rewrite Hc.
Qed.

(** An error or a close of the current socket. *)
Lemma down_ok r s p w st :
  transport_ok r -> ws (transport r) = Some s ->
  (phase r s = Broken -> p = Gone) -> (p = Broken /\ w = Some s \/ p = Gone /\ w = None) ->
  transport_ok (mkRun (notify_disconnected s (update_state st
    (reset_ws w (set_connected false (transport r))))) (moved r s p)).
Proof.
  intros [Hv Hn Hs Ht Hb Hf] Hws Hpb Hpw. destruct (Hs s Hws) as (Hlt & Hng & Hlive & _ & Hbl).
  pose proof (notify_disconnected_fields s (update_state st (reset_ws w (set_connected false (transport r)))))
    as (Ew & Ec & _ & Ex & En & Ecl). simpl in *.
  assert (Hblank : blank (client (notify_disconnected s (update_state st (reset_ws w (set_connected false (transport r))))))
    /\ view (log (notify_disconnected s (update_state st (reset_ws w (set_connected false (transport r)))))) = Some false).
  { case_decide as Hin; destruct Ecl as [Ecl Elog]; rewrite Ecl, Elog.
    - destruct (Ht s Hin) as [_ [Hp | Hp]]; [| done].
      assert (Hc : ws_connected (transport r) = false).
      { destruct (ws_connected (transport r)); [| done]. by rewrite (proj2 Hlive) in Hp. }
      destruct (Hbl Hc) as (_ & ? & ?). by rewrite Hv, Hc.
    - split; [done |]. by rewrite view_app, Hv. }
  destruct Hblank as [Hblank Hview].
  split; simpl; rewrite ?Ew, ?Ec, ?Ex, ?En; unfold moved; try done.
  - intros s' Hs'. destruct Hpw as [[-> ->] | [_ ->]]; [| done]. injection Hs' as <-.
    by rewrite decide_True.
  - intros s' [<-%elem_of_singleton | Hin]%elem_of_union.
    + rewrite decide_True by done. destruct Hpw as [[-> _] | [-> _]]; auto.
    + destruct (Ht s' Hin) as [? Hq]. split; [done |].
      destruct (decide (s' = s)) as [-> |]; [destruct Hq as [Hq | Hq]; [right; by apply Hpb | done] | done].
  - intros s' Hs' _. destruct Hpw as [[_ ->] | [_ ->]]; [| done]. injection Hs' as <-. set_solver.
  - intros s' Hle. rewrite decide_False by lia. by apply Hf.
Qed.

Lemma calls_ok r s cb p :
  transport_ok r -> s < next_socket (transport r) -> fires cb (phase r s) = Some p ->
  transport_ok (mkRun (callback json_parse s cb (transport r)) (moved r s p)).
Proof.
  intros Hok Hlt Hfire. unfold callback, is_current_socket.
  case_bool_decide as Hws; [| by eapply stale_ok].
  destruct cb as [| | | raw]; cbn [body].
  - destruct (phase r s) eqn:Hp; simplify_eq/=. by apply open_ok.
  - unfold closed_body, is_current_socket. rewrite bool_decide_true by done.
    apply down_ok; [done.. | |]; destruct (phase r s); simplify_eq/=; try done; auto.
  - unfold error_body, is_current_socket. rewrite bool_decide_true by done. cbn [ws set_connected].
    rewrite Hws. apply down_ok; [done.. | |]; destruct (phase r s); simplify_eq/=; try done; auto.
  - destruct (phase r s) eqn:Hp; simplify_eq/=. by apply message_ok.
Qed.

Lemma send_ok_run r message t :
  transport_ok r -> send_signal json_dump send_ok message (transport r) = Some t -> transport_ok (mkRun t (phase r)).
Proof.
  intros Hok (payload & _ & Hsend)%bind_Some_inv.
  assert (Hsame : transport_ok (mkRun (transport r) (phase r))) by by destruct r.
  destruct Hok as [Hv Hn Hs Ht Hb Hf].
  destruct (ws (transport r)) as [s |] eqn:Hws; [| by injection Hsend as <-].
  destruct (_ && _); injection Hsend as <-; [| done]. split; simpl; rewrite ?Hws; try done.
  by rewrite view_app, Hv.
Qed.

Lemma transport_reachable_ok r : reachable r -> transport_ok r.
Proof.
  induction 1 as [| r r' _ IH Hstep]; [apply start_ok |]. destruct Hstep.
  - by apply connect_ok.
  - by apply disconnect_ok.
  - by apply calls_ok.
  - by eapply send_ok_run.
Qed.
End Runs.

(** ** Properties *)

(** C37 The client's connection is announced truthfully: however connects,
    disconnects, sends and whole callbacks of current and stale sockets follow
    each other, the listeners' last announcement says whether the transport is
    connected and no connection is announced up twice; the transport is
    connected only with a current socket that is open; and once it is not
    connected it knows no id of its own and no peer of an earlier connection. *)
Theorem transport_truthful json_parse json_dump send_ok r :
  reachable json_parse json_dump send_ok r ->
  let t := transport r in
  view (log t) = Some (ws_connected t)
  /\ (ws_connected t = true <-> exists s, ws t = Some s /\ phase r s = Live)
  /\ (ws_connected t = true -> state t = Connected)
  /\ (ws_connected t = false -> blank (client t)).
Proof.
  intros Hr t. destruct (transport_reachable_ok _ _ _ r Hr) as [Hv Hn Hs _ _ _]. fold t in Hv, Hn, Hs.
  split; [done |]. destruct (ws t) as [s |].
  - destruct (Hs s eq_refl) as (_ & _ & Hl & Hst & Hbl). split_and!; [| done | done].
    rewrite <- Hl. split; [by exists s | by intros (s' & [= <-] & ?)].
  - destruct (Hn eq_refl) as [-> Hbl]. split_and!; [| done | done]. split; [done | by intros (? & ? & _)].
Qed.

Definition sample_run : Run :=
  let t := (connect (fun _ => None) true (chars "ws://sfu") new_transport).1 in
  mkRun (callback (fun _ => None) 0 OnOpen t) (moved (mkRun t (fun _ => Fresh)) 0 Live).

Theorem transport_truthful_witness :
  view (log (transport sample_run)) = Some true /\ exists s, ws (transport sample_run) = Some s.
Proof.
  assert (Hr : reachable (fun _ => None) (fun _ => None) (fun _ => true) sample_run).
  { eapply Steps; [eapply Steps; [apply Starts | apply (Connects _ _ _ _ (fun _ => None) true (chars "ws://sfu"))] |].
    by apply (Calls _ _ _ (mkRun (connect (fun _ => None) true (chars "ws://sfu") new_transport).1 (fun _ => Fresh)) 0 OnOpen Live); vm_compute; [lia |]. }
  destruct (transport_truthful _ _ _ _ Hr) as (Hv & Hc & _).
  split; [exact Hv |]. destruct (proj1 Hc) as (s & Hs & _); [by vm_compute | by exists s].
Defined.

(** A proxy that is configured is never bypassed: a socket is opened only
    through the http proxy, without credentials, that the environment names for
    the server's URL, and directly only when it names none; in every other case
    [connect] returns an error and leaves the transport failed, with no socket
    and no peers.  Either way the previous socket is closed first and can change
    nothing any more. *)
Theorem connect_honours_proxy json_parse getenv created ws_url t :
  let '(t', result) := connect getenv created ws_url t in
  (forall s, ws t = Some s -> s < next_socket t -> CloseSocket s ∈ log t'
     /\ forall cb, callback json_parse s cb t' = t')
  /\ ws_connected t' = false /\ blank (client t')
  /\ match result with
     | Value _ =>
       exists s proxy, ws t' = Some s /\ state t' = Connecting /\ last (log t') = Some (Opened s ws_url proxy)
       /\ match proxy_for_url getenv ws_url with
          | None => proxy = None
          | Some p => proxy = Some (host p, port p) /\ scheme p = Http /\ username p = []
          end
     | Unexpected _ =>
       ws t' = None /\ state t' = Failed
       /\ (created = true -> exists p, proxy_for_url getenv ws_url = Some p
             /\ (scheme p <> Http \/ username p <> []))
     end.
Proof.
  destruct (disconnect_fields t) as (Ew & Ec & Ebl & _ & Ex & _ & _).
  assert (Hclosed : forall s, ws t = Some s -> CloseSocket s ∈ log (disconnect t)).
  { intros s Hs. unfold disconnect. rewrite Hs. destruct (ws_connected t); simpl; set_solver. }
  destruct (connect getenv created ws_url t) as [t' result] eqn:Hcon.
  unfold connect in Hcon. set (d := disconnect t) in *. cbv zeta in Hcon. cbn [next_socket] in Hcon.
  assert (Hfail : socket_proxy getenv ws_url = None ->
    exists p, proxy_for_url getenv ws_url = Some p /\ (scheme p <> Http \/ username p <> [])).
  { unfold socket_proxy. destruct (proxy_for_url getenv ws_url) as [p |]; [| done]. exists p. split; [done |].
    revert H. destruct (bool_decide_reflect (scheme p = Http)); [cbn | by left]. unfold authenticated.
    case_bool_decide; [done | by right]. }
  assert (Hstale : forall s w, ws t = Some s -> s < next_socket t -> w = None \/ w = Some (next_socket d) ->
    bool_decide (w = Some s) = false).
  { intros s w _ Hlt Hw. apply bool_decide_eq_false. rewrite Ex in Hw. destruct Hw as [-> | ->]; [done |].
    intros [= <-]. lia. }
  destruct (socket_proxy getenv ws_url) as [proxy |] eqn:Hp; [destruct created |];
    injection Hcon as <- <-; simpl; (split; [| split_and!; try done]).
  all: try (intros s Hs Hlt; split; [by apply Hclosed || (apply elem_of_app; left; by apply Hclosed) |];
    intros cb; unfold callback, is_current_socket; simpl; by rewrite (Hstale s); auto).
  - exists (next_socket d), proxy. split_and!; [done | done | by rewrite last_snoc |].
    revert Hp. unfold socket_proxy. destruct (proxy_for_url getenv ws_url) as [p |]; [| by intros [= <-]].
    destruct (bool_decide_reflect (scheme p = Http)); [cbn | done]. unfold authenticated.
    case_bool_decide; [| done]. by intros [= <-].
  - intros _. by apply Hfail.
Qed.

(** The check and the body of a callback are two critical sections: a
    [disconnect] that comes between them leaves a transport that says it is
    connected, and has announced it, without a socket; nothing it sends leaves. *)
Lemma late_open json_dump send_ok :
  let t := (connect (fun _ => None) true (chars "ws://sfu") new_transport).1 in
  is_current_socket 0 t = true
  /\ let late := open_body (disconnect t) in
     ws late = None /\ ws_connected late = true /\ view (log late) = Some true
     /\ forall message t', send_signal json_dump send_ok message late = Some t' -> t' = late.
Proof.
  intros t. split; [done |]. split_and!; [done.. |].
  intros message t' (payload & _ & Hs)%bind_Some_inv. by injection Hs.
Qed.
