(* ===== verification/Minisign.v ===== *)
(** * Signed update files (client-qt/src/update/Minisign.cpp)

    Keys and detached signatures of minisign.  Base64, Ed25519 and BLAKE2b come
    from libraries and are parameters. *)

From S2P Require Import Prelude Text Signaling.

Local Open Scope list_scope.

(** What the code relies on: a strict decoder, [ED25519_verify] of message,
    signature and key, and the hash. *)
Class Crypto := {
  fromBase64 : text -> option text;
  ED25519_verify : text -> text -> text -> bool;
  Blake2b_512 : text -> text;
  Sha256_hex : text -> text;
}.

Record PublicKey := mkKey { keyId : text; key : text }.

Inductive SignatureError :=
  | MalformedFile | UnsupportedAlgorithm | UntrustedKey | MalformedGlobal | CommentFails | ContentFails.

Definition kKeyIdBytes : nat := 8.
Definition kPublicKeyBytes : nat := 32.
Definition kSignatureBytes : nat := 64.
Definition kSignatureAlgorithm : text := chars "ED".
Definition kKeyAlgorithm : text := chars "Ed".
Definition kTrustedCommentPrefix : text := chars "trusted comment: ".

Definition newline : ascii := char_of 10.
Definition lines (t : text) : list text := split_on (is_char newline) t.

Section Minisign.
Context `{Crypto}.

(** Empty when the line is not base64. *)
Definition decodeBase64Strict (line : text) : text := default [] (fromBase64 line).

(** The key line: the only line that is neither blank nor a comment; [None]
    when there are two. *)
Fixpoint key_line (found : text) (ls : list text) : option text :=
  match ls with
  | [] => Some found
  | line :: ls =>
    let trimmed := trim line in
    if bool_decide (trimmed = []) || starts_with (chars "untrusted comment:") trimmed then key_line found ls
    else if bool_decide (found <> []) then None
    else key_line trimmed ls
  end.

Definition parsePublicKey (t : text) : option PublicKey :=
  keyLine ← key_line [] (lines t);
  let raw := decodeBase64Strict keyLine in
  if bool_decide (length raw <> 2 + kKeyIdBytes + kPublicKeyBytes) || negb (starts_with kKeyAlgorithm raw)
  then None
  else Some (mkKey (take kKeyIdBytes (drop 2 raw)) (drop (2 + kKeyIdBytes) raw)).

(** [while (!lines.isEmpty() && lines.last().isEmpty()) lines.removeLast();] *)
Fixpoint remove_empty_last (rev_lines : list text) : list text :=
  match rev_lines with [] :: ls => remove_empty_last ls | _ => rev_lines end.

Definition signature_lines (t : text) : list text := rev (remove_empty_last (rev (lines t))).

Definition find_trusted (keys : list PublicKey) (id : text) : option PublicKey :=
  snd <$> list_find (fun k => keyId k = id /\ length (key k) = kPublicKeyBytes) keys.

(** The trusted comment of a file that verifies. *)
Definition verifyDetached (content signatureText : text) (trustedKeys : list PublicKey) :
    Expected text SignatureError :=
  match signature_lines signatureText with
  | [_; line1; line2; line3] =>
    if negb (starts_with kTrustedCommentPrefix line2) then Unexpected MalformedFile
    else
      let raw := decodeBase64Strict line1 in
      if bool_decide (length raw <> 2 + kKeyIdBytes + kSignatureBytes)
         || negb (starts_with kSignatureAlgorithm raw)
      then Unexpected UnsupportedAlgorithm
      else
        let signature := drop (2 + kKeyIdBytes) raw in
        match find_trusted trustedKeys (take kKeyIdBytes (drop 2 raw)) with
        | None => Unexpected UntrustedKey
        | Some trusted =>
          let globalSignature := decodeBase64Strict line3 in
          if bool_decide (length globalSignature <> kSignatureBytes) then Unexpected MalformedGlobal
          else
            let trustedComment := drop (length kTrustedCommentPrefix) line2 in
            if negb (ED25519_verify (signature ++ trustedComment) globalSignature (key trusted))
            then Unexpected CommentFails
            else if negb (ED25519_verify (Blake2b_512 content) signature (key trusted))
            then Unexpected ContentFails
            else Value trustedComment
        end
  | _ => Unexpected MalformedFile
  end.

(** What a verified file proves: one trusted key signed the content's hash and
    the comment together with that signature. *)
Definition signed_by (trusted : PublicKey) (content comment : text) : Prop :=
  exists signature globalSignature,
    length signature = kSignatureBytes /\ length globalSignature = kSignatureBytes
    /\ ED25519_verify (Blake2b_512 content) signature (key trusted) = true
    /\ ED25519_verify (signature ++ comment) globalSignature (key trusted) = true.

Lemma verifyDetached_sound content sig keys comment :
  verifyDetached content sig keys = Value comment ->
  exists trusted, trusted ∈ keys /\ length (key trusted) = kPublicKeyBytes /\ signed_by trusted content comment.
Proof.
  unfold verifyDetached.
  destruct (signature_lines sig) as [| l0 [| l1 [| l2 [| l3 [| ? ?]]]]]; try done.
  destruct (negb _); [done |]. destruct (_ || _) eqn:Hraw; [done |].
  apply orb_false_iff in Hraw as [Hlen%bool_decide_eq_false%dec_stable _].
  destruct (find_trusted keys _) as [k |] eqn:Hk; [| done].
  case_bool_decide as Hg; [done |]. 
  destruct (ED25519_verify (_ ++ _) _ _) eqn:Hc; [| done]. cbn [negb].
  destruct (ED25519_verify (Blake2b_512 _) _ _) eqn:Hv; [| done]. intros [= <-].
  unfold find_trusted in Hk. destruct (list_find _ keys) as [[i k'] |] eqn:Hf; [| done].
  injection Hk as <-. apply list_find_Some in Hf as (Hin & [_ Hkl] & _).
  exists k'. split; [by apply list_elem_of_lookup_2 in Hin |]. split; [done |].
  eexists _, _. split_and!; [| exact Hg | exact Hv | exact Hc]. by rewrite length_drop, Hlen.
Qed.
End Minisign.
