(* ===== verification/Manifest.v ===== *)
(** * Update manifests (client-qt/src/update/UpdateManifest.cpp)

    Versions and the manifest of a channel.  Qt's JSON is a parameter; a QString
    is a text here. *)

From S2P Require Import Prelude Text Signaling.

Local Open Scope list_scope.
Local Open Scope char_scope.

(** ** VersionTriple *)

Record VersionTriple := mkVersion { major : Z; minor : Z; patch : Z }.

(** The defaulted [operator<=>]: member by member. *)
Definition version_lt (a b : VersionTriple) : bool :=
  (major a <? major b)%Z
  || Z.eqb (major a) (major b)
     && ((minor a <? minor b)%Z
         || Z.eqb (minor a) (minor b) && (patch a <? patch b)%Z).

(** [0|[1-9][0-9]{0,8}] *)
Definition is_component (t : text) : bool :=
  match t with
  | [] => false
  | c :: rest =>
    if is_char "0" c then bool_decide (rest = [])
    else in_range 49 57 c && forallb isdigit rest && bool_decide (length rest <= 8)
  end.

(** [$] matches at the end and before a final newline. *)
Definition before_final_newline (t : text) : text :=
  match rev t with c :: u => if is_char (char_of 10) c then rev u else t | [] => t end.

Definition parse_version (t : text) : option VersionTriple :=
  match split_on (is_char ".") (before_final_newline t) with
  | [a; b; c] =>
    if is_component a && is_component b && is_component c
    then Some (mkVersion (digits_value 0 a) (digits_value 0 b) (digits_value 0 c))
    else None
  | _ => None
  end.

Definition version_string (v : VersionTriple) : text :=
  to_string (major v) ++ "." :: to_string (minor v) ++ "." :: to_string (patch v).

(** *** Lemmas *)

Definition component_range (n : Z) : Prop := (0 <= n < 10 ^ 9)%Z.

Lemma is_component_to_string n : component_range n -> is_component (to_string n) = true.
Proof.
  intros Hn. destruct (to_string_spec n) as (Hne & Hall & Hv & Hlen); [unfold component_range in *; lia |].
  specialize (Hlen 9 ltac:(lia)) as H9.
  destruct (to_string n) as [| c rest] eqn:Hs; [done |]. apply Forall_cons in Hall as [Hc Hrest].
  unfold is_component. unfold is_char. destruct (Ascii.eqb_spec c "0") as [-> | Hnz].
  - apply bool_decide_eq_true. destruct rest as [| d rest]; [done | exfalso].
    pose proof (digits_value_bound (d :: rest) 0 Hrest) as Hb. cbn [digits_value] in Hv, Hb.
    replace (0 * 10 + digit_value "0")%Z with 0%Z in Hv by done. rewrite Hv in Hb.
    specialize (Hlen (S (length rest)) ltac:(lia)). simpl in Hlen.
    assert (S (S (length rest)) <= S (length rest)); [| lia]. apply Hlen. simpl length in Hb. lia.
  - apply andb_true_iff. split; [apply andb_true_iff; split |].
    + unfold isdigit, in_range in *. apply andb_prop in Hc as [Hlo Hhi]. apply andb_true_iff. split; [| done].
      apply Z.leb_le. apply Z.leb_le in Hlo. destruct (decide (code c = 48)%Z) as [He |]; [exfalso | lia].
      apply Hnz. rewrite <- (char_of_code c), He. done.
    + apply forallb_forall. intros d Hd. rewrite Forall_forall in Hrest. apply Hrest. by apply list_elem_of_In.
    + apply bool_decide_eq_true. unfold component_range in Hn. simpl in H9. specialize (H9 ltac:(lia)). lia.
Qed.

Lemma split_on_app P pre c post :
  Forall (fun d => P d = false) pre -> P c = true -> split_on P (pre ++ c :: post) = pre :: split_on P post.
Proof.
  intros Hpre Hc. rewrite split_on_find, find_if_app by done. rewrite take_app_length. f_equal. f_equal.
  clear. induction pre as [| d pre IH]; [done | exact IH].
Qed.

Lemma split_on_none P t : Forall (fun d => P d = false) t -> split_on P t = [t].
Proof. intros Ht. by rewrite split_on_find, (proj2 (find_if_None P t) Ht). Qed.

Lemma before_final_newline_digit t d : isdigit d = true -> before_final_newline (t ++ [d]) = t ++ [d].
Proof.
  intros Hd. unfold before_final_newline. rewrite rev_app_distr. simpl.
  unfold is_char. destruct (Ascii.eqb_spec d (char_of 10)) as [-> |]; done.
Qed.

Lemma version_roundtrip v :
  component_range (major v) -> component_range (minor v) -> component_range (patch v) ->
  parse_version (version_string v) = Some v.
Proof.
  intros H1 H2 H3. unfold parse_version, version_string.
  assert (Hd : forall n, component_range n -> Forall (fun d => is_char "." d = false) (to_string n)).
  { intros n Hn. destruct (to_string_spec n) as (_ & Hall & _ & _); [unfold component_range in *; lia |].
    eapply Forall_impl; [exact Hall |]. intros d Hd. unfold is_char.
    by destruct (Ascii.eqb_spec d ".") as [-> |]. }
  assert (Hval : forall n, component_range n -> digits_value 0 (to_string n) = n).
  { intros n Hn. by destruct (to_string_spec n) as (_ & _ & ? & _); [unfold component_range in *; lia |]. }
  destruct (to_string_spec (patch v)) as (Hne & Hall & _ & _); [unfold component_range in *; lia |].
  destruct (exists_last Hne) as (init & d & Hp).
  assert (Hnl : before_final_newline (to_string (major v) ++ "." :: to_string (minor v) ++ "." :: to_string (patch v))
    = to_string (major v) ++ "." :: to_string (minor v) ++ "." :: to_string (patch v)).
  { rewrite Hp in Hall |- *. apply Forall_app in Hall as [_ Hl]. apply Forall_cons in Hl as [Hl _].
    replace (to_string (major v) ++ "." :: to_string (minor v) ++ "." :: init ++ [d])
      with ((to_string (major v) ++ "." :: to_string (minor v) ++ "." :: init) ++ [d])
      by (rewrite <- app_assoc; simpl; by rewrite <- app_assoc).
    by apply before_final_newline_digit. }
  rewrite Hnl, (split_on_app _ (to_string (major v))), (split_on_app _ (to_string (minor v))),
    split_on_none by auto.
  rewrite !is_component_to_string, !Hval by done. by destruct v.
Qed.

(** ** The manifest *)

Record UpdateFileEntry := mkEntry { name : text; sha256 : text; size : Z; url : text }.

Record UpdateManifest := mkManifest {
  version : VersionTriple;
  channel : text;
  manifest_target : text;
  file : UpdateFileEntry;
}.

Inductive ManifestError :=
  | NotAnObject | UnsupportedSchema | AnotherProject | ChannelMismatch | TargetMismatch | BadVersion
  | BadSha256 | ImplausibleSize | NonRelativeUrl | NoArchive.

(** What the code asks of QJsonDocument, QJsonObject and QJsonValue. *)
Class QJson := {
  QValue : Type;
  QObject : Type;
  (** [None]: null or not an object *)
  fromJson : text -> option QObject;
  value : QObject -> text -> QValue;
  toInt : QValue -> Z;
  toText : QValue -> text;
  toObject : QValue -> QObject;
  toArray : QValue -> list QValue;
  (** [qint64(toDouble())] *)
  toSize : QValue -> Z;
}.

Definition kMaxArchiveBytes : Z := 2 ^ 30.

Definition isRelativeUrl (u : text) : bool :=
  if bool_decide (u = []) || starts_with (chars "/") u || existsb (is_char "\") u then false
  else if existsb (is_char ":") u then false
  else forallb (fun segment => negb (bool_decide (segment = [])) && negb (bool_decide (segment = chars "..")))
         (split_on (is_char "/") u).

(** [^[0-9a-f]{64}$] *)
Definition is_sha256 (t : text) : bool :=
  let t := before_final_newline t in
  bool_decide (length t = 64) && forallb (fun c => isdigit c || in_range 97 102 c) t.

Section Manifest.
Context `{QJson}.

Definition read_entry (entry : QObject) : UpdateFileEntry :=
  mkEntry (toText (value entry (chars "name"))) (toText (value entry (chars "sha256")))
    (toSize (value entry (chars "size"))) (toText (value entry (chars "url"))).

(** The loop: the first file with the suffix decides. *)
Fixpoint find_archive (archiveSuffix : text) (files : list QValue) : Expected UpdateFileEntry ManifestError :=
  match files with
  | [] => Unexpected NoArchive
  | v :: files =>
    let file := read_entry (toObject v) in
    if negb (ends_with archiveSuffix (name file)) then find_archive archiveSuffix files
    else if negb (is_sha256 (sha256 file)) then Unexpected BadSha256
    else if (size file <=? 0)%Z || (kMaxArchiveBytes <? size file)%Z then Unexpected ImplausibleSize
    else if negb (isRelativeUrl (url file)) then Unexpected NonRelativeUrl
    else Value file
  end.

Definition parseUpdateManifest (json expectedChannel expectedTarget archiveSuffix : text) :
    Expected UpdateManifest ManifestError :=
  match fromJson json with
  | None => Unexpected NotAnObject
  | Some object =>
    if negb (Z.eqb (toInt (value object (chars "schema"))) 1) then Unexpected UnsupportedSchema
    else if negb (bool_decide (toText (value object (chars "project")) = chars "driscord"))
    then Unexpected AnotherProject
    else
      let channel := toText (value object (chars "channel")) in
      if negb (bool_decide (channel = expectedChannel)) then Unexpected ChannelMismatch
      else
        let target := toText (value object (chars "target")) in
        if negb (bool_decide (target = expectedTarget)) then Unexpected TargetMismatch
        else
          match parse_version (toText (value object (chars "version"))) with
          | None => Unexpected BadVersion
          | Some version =>
            file ←! find_archive archiveSuffix (toArray (value object (chars "files")));
            Value (mkManifest version channel target file)
          end
  end.

(** What a manifest that parses is good for. *)
Record manifest_ok (m : UpdateManifest) (expectedChannel expectedTarget archiveSuffix : text) : Prop := {
  mo_channel : channel m = expectedChannel;
  mo_target : manifest_target m = expectedTarget;
  mo_size : (0 < size (file m) <= kMaxArchiveBytes)%Z;
  mo_sha : is_sha256 (sha256 (file m)) = true;
  mo_url : isRelativeUrl (url (file m)) = true;
  mo_suffix : ends_with archiveSuffix (name (file m)) = true;
}.

Lemma find_archive_ok suffix files f :
  find_archive suffix files = Value f ->
  (0 < size f <= kMaxArchiveBytes)%Z /\ is_sha256 (sha256 f) = true /\ isRelativeUrl (url f) = true
  /\ ends_with suffix (name f) = true.
Proof.
  induction files as [| v files IH]; [done |]. cbn [find_archive].
  set (g := read_entry (toObject v)).
  destruct (ends_with suffix (name g)) eqn:Hs; [| exact IH]. cbn [negb].
  destruct (is_sha256 (sha256 g)) eqn:Hh; [| done]. cbn [negb].
  destruct (_ || _) eqn:Hsz; [done |]. destruct (isRelativeUrl (url g)) eqn:Hu; [| done]. cbn [negb]. intros [= <-].
  apply orb_false_iff in Hsz as [?%Z.leb_gt ?%Z.ltb_ge]. by split_and!; [lia | lia | ..].
Qed.

Lemma parseUpdateManifest_ok json c t suffix m :
  parseUpdateManifest json c t suffix = Value m -> manifest_ok m c t suffix.
Proof.
  unfold parseUpdateManifest. destruct (fromJson json) as [object |]; [| done].
  destruct (negb (Z.eqb _ _)); [done |]. destruct (negb (bool_decide _)); [done |].
  destruct (bool_decide_reflect (toText (value object (chars "channel")) = c)) as [<- |]; [| done].
  destruct (bool_decide_reflect (toText (value object (chars "target")) = t)) as [<- |]; [| done].
  cbn [negb]. destruct (parse_version _) as [v |]; [| done].
  destruct (find_archive _ _) as [f |] eqn:Hf; [| done]. intros [= <-].
  destruct (find_archive_ok _ _ _ Hf) as (? & ? & ? & ?). by split.
Qed.
End Manifest.
