(* ===== verification/Updater.v ===== *)
(** * The updater (client-qt/src/update/UpdateManager.cpp)

    A state machine driven by the user, timers, network replies and the
    extraction process.  Qt's network, files and processes answer through
    arguments; the contents of the downloaded file are part of the state.  A file takes
    bytes into a buffer, and the flush at [close] may fail and leave only some of them
    on the disk; the code does not notice ([Sample.truncated_installed]). *)

From S2P Require Import Prelude Text Signaling Minisign Manifest.

Local Open Scope list_scope.

Inductive Kind := NoLayout | AppImage | WindowsFlat | MacBundle.

#[export] Instance Kind_eq_dec : EqDecision Kind.
Proof. solve_decision. Defined.

(** The parts of InstallLayout and UpdateManagerConfig the machine depends on. *)
Record Config := mkConfig {
  base_url : text;
  config_channel : text;
  path_target : text;
  config_target : text;
  archive_suffix : text;
  single_file_artifact : bool;
  current_version_core : text;
  trusted_keys : list PublicKey;
  allow_automatic_checks : bool;
  layout_kind : Kind;
  layout_portable : bool;
}.

Inductive UpdateState :=
  | Disabled | Idle | Checking | UpToDate | UpdateAvailable | Downloading | Verifying | Extracting
  | ReadyToApply | Applying | Error.

#[export] Instance UpdateState_eq_dec : EqDecision UpdateState.
Proof. solve_decision. Defined.

Inductive ReplyKind := ForManifest | ForSignature (manifestBytes : text) | ForDownload.

(** A reply in flight and the generation its handlers captured. *)
Record Reply := mkReply { reply_id : nat; reply_generation : Z; reply_kind : ReplyKind; aborted : bool }.

(** [m_generation] is the 64-bit image of the number of times it was
    incremented.  [hashed] is what the hash was given, [part_file] what the
    file took, in its buffer or on the disk; [archive] is what the finished file that a
    payload comes from holds on the disk, and [archive_whole] that the flush of its
    buffer succeeded.  [applied]: what the installation was given, each with whether it
    was whole. *)
Record Manager := mkManager {
  m_state : UpdateState;
  generations : Z;
  m_activeReply : option nat;
  m_manifest : option UpdateManifest;
  m_latestVersion : text;
  m_noticeVisible : bool;
  m_dismissed : text;
  hashed : text;
  part_file : text;
  m_payload : bool;
  m_canApply : bool;
  archive : text;
  archive_whole : bool;
  replies : list Reply;
  next_reply : nat;
  (** the extraction process runs *)
  process : bool;
  applied : list (text * bool);
}.

Definition kMaxManifestBytes : Z := 64 * 1024.
Definition kMaxSignatureBytes : Z := 4 * 1024.

Definition with_state (s : UpdateState) (m : Manager) : Manager :=
  mkManager s (generations m) (m_activeReply m) (m_manifest m) (m_latestVersion m) (m_noticeVisible m)
    (m_dismissed m) (hashed m) (part_file m) (m_payload m) (m_canApply m) (archive m) (archive_whole m) (replies m)
    (next_reply m) (process m) (applied m).

Definition fail (m : Manager) : Manager := with_state Error m.

Definition with_replies (rs : list Reply) (active : option nat) (m : Manager) : Manager :=
  mkManager (m_state m) (generations m) active (m_manifest m) (m_latestVersion m) (m_noticeVisible m)
    (m_dismissed m) (hashed m) (part_file m) (m_payload m) (m_canApply m) (archive m) (archive_whole m) rs
    (next_reply m) (process m) (applied m).

Definition with_data (h f : text) (m : Manager) : Manager :=
  mkManager (m_state m) (generations m) (m_activeReply m) (m_manifest m) (m_latestVersion m)
    (m_noticeVisible m) (m_dismissed m) h f (m_payload m) (m_canApply m) (archive m) (archive_whole m) (replies m)
    (next_reply m) (process m) (applied m).

Definition with_archive (a : text) (whole : bool) (m : Manager) : Manager :=
  mkManager (m_state m) (generations m) (m_activeReply m) (m_manifest m) (m_latestVersion m)
    (m_noticeVisible m) (m_dismissed m) (hashed m) (part_file m) (m_payload m) (m_canApply m) a whole (replies m)
    (next_reply m) (process m) (applied m).

Definition with_payload (can_apply : bool) (m : Manager) : Manager :=
  mkManager (m_state m) (generations m) (m_activeReply m) (m_manifest m) (m_latestVersion m)
    (m_noticeVisible m) (m_dismissed m) (hashed m) (part_file m) true can_apply (archive m) (archive_whole m) (replies m)
    (next_reply m) (process m) (applied m).

Definition with_process (p : bool) (m : Manager) : Manager :=
  mkManager (m_state m) (generations m) (m_activeReply m) (m_manifest m) (m_latestVersion m)
    (m_noticeVisible m) (m_dismissed m) (hashed m) (part_file m) (m_payload m) (m_canApply m) (archive m) (archive_whole m)
    (replies m) (next_reply m) p (applied m).

(** A new reply of the current generation. *)
Definition get (kind : ReplyKind) (m : Manager) : Manager :=
  mkManager (m_state m) (generations m) (Some (next_reply m)) (m_manifest m) (m_latestVersion m)
    (m_noticeVisible m) (m_dismissed m) (hashed m) (part_file m) (m_payload m) (m_canApply m) (archive m) (archive_whole m)
    (mkReply (next_reply m) (generations m) kind false :: replies m) (S (next_reply m)) (process m) (applied m).

Definition next_generation (m : Manager) : Manager :=
  mkManager (m_state m) (generations m + 1) (m_activeReply m) (m_manifest m) (m_latestVersion m)
    (m_noticeVisible m) (m_dismissed m) (hashed m) (part_file m) (m_payload m) (m_canApply m) (archive m) (archive_whole m)
    (replies m) (next_reply m) (process m) (applied m).

(** The comparison every handler begins with. *)
Definition current (r : Reply) (m : Manager) : bool :=
  Z.eqb (u64 (reply_generation r)) (u64 (generations m)).

Section Updater.
Context `{Crypto} `{QJson}.
Variable config : Config.

Definition currentVersion : VersionTriple :=
  default (mkVersion 0 0 0) (parse_version (current_version_core config)).

Definition new_manager (dismissed : text) : Manager :=
  mkManager
    (if bool_decide (base_url config = []) || bool_decide (trusted_keys config = []) then Disabled else Idle)
    0 None None [] false dismissed [] [] false false [] true [] 0 false [].

(** ** Checking *)

Definition busy (s : UpdateState) : bool :=
  match s with
  | Disabled | Checking | Downloading | Verifying | Extracting | Applying => true
  | _ => false
  end.

(** Forgets what the last check found. *)
Definition clear_check (m : Manager) : Manager :=
  mkManager (m_state m) (generations m) (m_activeReply m) None [] (m_noticeVisible m)
    (m_dismissed m) (hashed m) (part_file m) false false (archive m) (archive_whole m) (replies m)
    (next_reply m) (process m) (applied m).

Definition checkForUpdates (m : Manager) : Manager :=
  if busy (m_state m) then m
  else get ForManifest (with_state Checking (clear_check (next_generation m))).

Definition fetchSignatureAndVerify (manifestBytes : text) (m : Manager) : Manager :=
  get (ForSignature manifestBytes) m.

Definition onManifestVerified (manifestBytes : text) (m : Manager) : Manager :=
  match parseUpdateManifest manifestBytes (config_channel config) (config_target config) (archive_suffix config) with
  | Unexpected _ => fail m
  | Value manifest =>
    let latest := version_string (version manifest) in
    let newer := version_lt currentVersion (version manifest) in
    mkManager (if newer then UpdateAvailable else UpToDate) (generations m) (m_activeReply m) (Some manifest)
      latest (if newer then negb (bool_decide (latest = m_dismissed m)) else m_noticeVisible m)
      (m_dismissed m) (hashed m) (part_file m) (m_payload m) (m_canApply m) (archive m) (archive_whole m) (replies m)
      (next_reply m) (process m) (applied m)
  end.

(** The handler of a small reply; [ok]: no error and status 200. *)
Definition on_small_finished (r : Reply) (ok : bool) (bytes : text) (m : Manager) : Manager :=
  if negb (current r m) then m
  else
    let m := with_replies (replies m) None m in
    if negb ok then fail m
    else
      match reply_kind r with
      | ForManifest =>
        if (kMaxManifestBytes <? Z.of_nat (length bytes))%Z then fail m else fetchSignatureAndVerify bytes m
      | ForSignature manifestBytes =>
        if (kMaxSignatureBytes <? Z.of_nat (length bytes))%Z then fail m
        else match verifyDetached manifestBytes bytes (trusted_keys config) with
             | Unexpected _ => fail m
             | Value _ => onManifestVerified manifestBytes m
             end
      | ForDownload => m
      end.

(** ** Downloading *)

(** What the disk and the URL library answer to [downloadUpdate]. *)
Record Disk := mkDisk { same_origin : bool; staging_ok : bool; bytes_available : option Z; open_ok : bool }.

Definition beginDownload (m : Manager) : Manager := get ForDownload (next_generation m).

Definition downloadUpdate (disk : Disk) (m : Manager) : Manager :=
  match m_state m, m_manifest m with
  | UpdateAvailable, Some manifest =>
    if negb (same_origin disk) then fail m
    else if negb (staging_ok disk) then fail m
    else if match bytes_available disk with
            | Some free => (free <? 2 * size (file manifest))%Z
            | None => false
            end then fail m
    else if negb (open_ok disk) then fail m
    else beginDownload (with_state Downloading (with_data [] [] m))
  | _, _ => m
  end.

Definition abort (id : nat) (m : Manager) : Manager :=
  with_replies
    ((fun r => if Nat.eqb (reply_id r) id
               then mkReply (reply_id r) (reply_generation r) (reply_kind r) true else r) <$> replies m)
    (m_activeReply m) m.

(** A chunk arrives; [written] is how much of it the file took.  [None]: the
    manifest that is read is not there. *)
Definition on_ready_read (r : Reply) (chunk : text) (written : nat) (m : Manager) : option Manager :=
  if negb (current r m) then Some m
  else
    manifest ← m_manifest m;
    let h := hashed m ++ chunk in
    if (size (file manifest) <? Z.of_nat (length h))%Z then Some (abort (reply_id r) (with_data h (part_file m) m))
    else
      let m := with_data h (part_file m ++ take written chunk) m in
      Some (if bool_decide (written < length chunk) then abort (reply_id r) m else m).

Definition on_watchdog (m : Manager) : Manager :=
  match m_activeReply m with
  | Some id => if bool_decide (m_state m = Downloading) then abort id m else m
  | None => m
  end.

Definition discard (m : Manager) : Manager := with_data (hashed m) [] m.

(** Starting with the ELF magic and the mark of a type-2 AppImage. *)
Definition is_app_image (image : text) : bool :=
  let header := take 11 image in
  starts_with (char_of 127 :: chars "ELF") header
  && bool_decide (take 3 (drop 8 header) = chars "AI" ++ [char_of 2]).

(** What the disk answers once the download is complete.  [truncated]: the flush of the
    file's buffer failed, and the file holds that many bytes. *)
Record Finish := mkFinish { truncated : option nat; rename_ok : bool; reopen_ok : bool; writable : bool; tar_found : bool; payload_ok : bool }.

Definition stagingInsideRoot (writable : bool) : bool := layout_portable config && writable.

Definition onImageDownloaded (d : Finish) (m : Manager) : Manager :=
  if negb (reopen_ok d) then fail m
  else if negb (is_app_image (archive m)) then fail (with_archive [] true m)
  else
    with_state ReadyToApply
      (with_payload (bool_decide (layout_kind config = AppImage) && stagingInsideRoot (writable d)) m).

Definition beginExtraction (d : Finish) (m : Manager) : Manager :=
  if negb (tar_found d) then fail m
  else if negb (payload_ok d) then fail m
  else with_process true (with_state Extracting m).

(** [QFile::close] flushes the buffer; whether that failed is not looked at. *)
Definition close_file (d : Finish) (m : Manager) : Manager :=
  match truncated d with Some n => with_data (hashed m) (take n (part_file m)) m | None => m end.

Definition flush_ok (d : Finish) : bool := match truncated d with Some _ => false | None => true end.

(** [None]: the manifest that is read is not there. *)
Definition onDownloadFinished (ok : bool) (d : Finish) (m : Manager) : option Manager :=
  let m := close_file d m in
  if negb ok then Some (fail (discard m))
  else
    let m := with_state Verifying m in
    manifest ← m_manifest m;
    if negb (Z.eqb (Z.of_nat (length (hashed m))) (size (file manifest))) then Some (fail (discard m))
    else if negb (bool_decide (Sha256_hex (hashed m) = sha256 (file manifest))) then Some (fail (discard m))
    else if negb (rename_ok d) then Some (fail (discard m))
    else
      let m := with_archive (part_file m) (flush_ok d) m in
      Some (if single_file_artifact config then onImageDownloaded d m else beginExtraction d m).

Definition on_download_reply_finished (r : Reply) (ok : bool) (d : Finish) (m : Manager) : option Manager :=
  if negb (current r m) then Some m
  else onDownloadFinished ok d (with_replies (replies m) None m).

(** ** Extraction and installation *)

Definition onExtractionFinished (probe_is_file writable : bool) (m : Manager) : Manager :=
  if negb probe_is_file then fail m
  else with_state ReadyToApply (with_payload (stagingInsideRoot writable) m).

Definition on_process_finished (ok probe_is_file writable : bool) (m : Manager) : Manager :=
  let m := with_process false m in
  if negb ok then fail m else onExtractionFinished probe_is_file writable m.

(** A crash is reported as an error and, in the same call, as the end. *)
Definition on_process_error (m : Manager) : Manager := fail (with_process false m).

(** The swap is given the archive's contents; it and the restart may fail. *)
Definition applyAndRestart (swap_ok restarted : bool) (m : Manager) : Manager :=
  if negb (bool_decide (m_state m = ReadyToApply)) || negb (m_canApply m) || negb (m_payload m) then m
  else
    let m := with_state Applying m in
    let m := mkManager (m_state m) (generations m) (m_activeReply m) (m_manifest m) (m_latestVersion m)
               (m_noticeVisible m) (m_dismissed m) (hashed m) (part_file m) (m_payload m) (m_canApply m)
               (archive m) (archive_whole m) (replies m) (next_reply m) (process m) (applied m ++ [(archive m, archive_whole m)]) in
    if negb swap_ok then fail m else if negb restarted then fail m else m.

Definition dismissNotice (m : Manager) : Manager :=
  mkManager (m_state m) (generations m) (m_activeReply m) (m_manifest m) (m_latestVersion m) false
    (if bool_decide (m_latestVersion m = []) then m_dismissed m else m_latestVersion m)
    (hashed m) (part_file m) (m_payload m) (m_canApply m) (archive m) (archive_whole m) (replies m) (next_reply m) (process m)
    (applied m).

Definition on_periodic_timer (m : Manager) : Manager :=
  match m_state m with Idle | UpToDate | Error => checkForUpdates m | _ => m end.

Definition on_startup_timer (m : Manager) : Manager :=
  match m_state m with Idle => checkForUpdates m | _ => m end.

(** ** Runs *)

Definition small (k : ReplyKind) : bool := match k with ForDownload => false | _ => true end.

(** A reply that was aborted fails and delivers nothing. *)
Inductive step : relation Manager :=
  | Checks m : step m (checkForUpdates m)
  | SmallFinishes m pre r post ok bytes :
      replies m = pre ++ r :: post -> small (reply_kind r) = true -> (aborted r = true -> ok = false) ->
      step m (on_small_finished r ok bytes (with_replies (pre ++ post) (m_activeReply m) m))
  | Downloads m disk : step m (downloadUpdate disk m)
  | Reads m r chunk written m' :
      r ∈ replies m -> reply_kind r = ForDownload -> aborted r = false ->
      on_ready_read r chunk written m = Some m' -> step m m'
  | DownloadFinishes m pre r post ok d m' :
      replies m = pre ++ r :: post -> reply_kind r = ForDownload -> (aborted r = true -> ok = false) ->
      on_download_reply_finished r ok d (with_replies (pre ++ post) (m_activeReply m) m) = Some m' -> step m m'
  | WatchdogFires m : step m (on_watchdog m)
  | ProcessFinishes m ok probe w : process m = true -> step m (on_process_finished ok probe w m)
  | ProcessFails m : process m = true -> step m (on_process_error m)
  | Applies m swap restarted : step m (applyAndRestart swap restarted m)
  | Dismisses m : step m (dismissNotice m)
  | PeriodicTimer m : step m (on_periodic_timer m)
  | StartupTimer m : step m (on_startup_timer m).

Inductive reachable : Manager -> Prop :=
  | Starts dismissed : reachable (new_manager dismissed)
  | Steps m m' : reachable m -> step m m' -> reachable m'.

(** ** What makes an update trustworthy *)

(** A trusted key signed the bytes the manifest was read from. *)
Definition authentic (mf : UpdateManifest) : Prop :=
  exists bytes comment trusted,
    trusted ∈ trusted_keys config /\ signed_by trusted bytes comment
    /\ parseUpdateManifest bytes (config_channel config) (config_target config) (archive_suffix config) = Value mf.

Definition newer (mf : UpdateManifest) : Prop := version_lt currentVersion (version mf) = true.

Definition contents_ok (mf : UpdateManifest) (contents : text) : Prop :=
  Sha256_hex contents = sha256 (file mf) /\ Z.of_nat (length contents) = size (file mf).

(** The contents of a newer release, as signed. *)
Definition trustworthy (contents : text) : Prop :=
  exists mf, authentic mf /\ newer mf /\ contents_ok mf contents.

(** A file that was to hold some contents: a part of their beginning, and all of them
    if its flush succeeded. *)
Definition file_of (full : text) (f : text * bool) : Prop := f.1 `prefix_of` full /\ (f.2 = true -> f.1 = full).

Definition delivered (f : text * bool) : Prop := exists full, trustworthy full /\ file_of full f.

Definition live (m : Manager) : list Reply := filter (fun r => reply_generation r = generations m) (replies m).

Definition live_ok (m : Manager) (r : Reply) : Prop :=
  if small (reply_kind r) then m_state m = Checking
  else m_state m = Downloading /\ (aborted r = false -> hashed m = part_file m).

Definition offers (s : UpdateState) : bool :=
  match s with UpdateAvailable | Downloading | Verifying | Extracting | ReadyToApply | Applying => true | _ => false end.

Definition has_archive (s : UpdateState) : bool :=
  match s with Extracting | ReadyToApply | Applying => true | _ => false end.

Record manager_ok (m : Manager) : Prop := {
  mk_count : (0 <= generations m)%Z;
  mk_generations : Forall (fun r => 0 <= reply_generation r <= generations m)%Z (replies m);
  mk_one : length (live m) <= 1;
  mk_live : Forall (live_ok m) (live m);
  mk_authentic mf : m_manifest m = Some mf -> authentic mf;
  mk_offers : offers (m_state m) = true -> exists mf, m_manifest m = Some mf /\ newer mf;
  mk_archive : has_archive (m_state m) = true ->
    exists mf full, m_manifest m = Some mf /\ contents_ok mf full /\ file_of full (archive m, archive_whole m);
  mk_process : process m = true -> m_state m = Extracting;
  mk_applied : Forall delivered (applied m);
}.

Lemma new_manager_ok dismissed : manager_ok (new_manager dismissed).
Proof.
  assert (Hs : m_state (new_manager dismissed) = Disabled \/ m_state (new_manager dismissed) = Idle)
    by (simpl; destruct (_ || _); auto).
  split; try done; try (by constructor); by destruct Hs as [-> | ->].
Qed.

Lemma current_true r m :
  (generations m < 2 ^ 64)%Z -> (0 <= reply_generation r <= generations m)%Z ->
  current r m = true <-> reply_generation r = generations m.
Proof.
  intros Hm Hr. unfold current. rewrite Z.eqb_eq. unfold u64. rewrite !wrap_small by (unfold is_u; lia). done.
Qed.

Lemma steps_generations m m' : step m m' -> (generations m <= generations m')%Z.
Proof.
  assert (Hc : forall m, (generations m <= generations (checkForUpdates m))%Z).
  { intros x. unfold checkForUpdates. destruct (busy _); simpl; lia. }
  intros Hs. destruct Hs.
  - apply Hc.
  - unfold on_small_finished, onManifestVerified. repeat case_match; simpl; lia.
  - unfold downloadUpdate. repeat case_match; simpl; lia.
  - unfold on_ready_read in *. case_match; [by simplify_eq|]. bind_inv.
    repeat case_match; simplify_eq/=; lia.
  - unfold on_download_reply_finished, onDownloadFinished, close_file in *.
    case_match; [by simplify_eq|]. destruct (truncated d); (case_match; [by simplify_eq|]); bind_inv;
      unfold onImageDownloaded, beginExtraction in *; repeat case_match; simplify_eq/=; lia.
  - unfold on_watchdog. repeat case_match; simpl; lia.
  - unfold on_process_finished, onExtractionFinished. repeat case_match; simpl; lia.
  - simpl; lia.
  - unfold applyAndRestart. repeat case_match; simpl; lia.
  - simpl; lia.
  - unfold on_periodic_timer. destruct (m_state m); try apply Hc; lia.
  - unfold on_startup_timer. destruct (m_state m); try apply Hc; lia.
Qed.

(** ** Every step keeps the machine sound *)

(** The part that does not depend on the state. *)
Definition base_ok (m : Manager) : Prop :=
  (0 <= generations m)%Z
  /\ Forall (fun r => 0 <= reply_generation r <= generations m)%Z (replies m)
  /\ (forall mf, m_manifest m = Some mf -> authentic mf)
  /\ Forall delivered (applied m).

Lemma ok_base m : manager_ok m -> base_ok m.
Proof. by intros []. Qed.

Lemma has_archive_offers s : has_archive s = true -> offers s = true.
Proof. by destruct s. Qed.

(** A state without a reply or a process that matters. *)
Lemma quiet_ok m :
  base_ok m -> live m = [] -> process m = false -> offers (m_state m) = false -> manager_ok m.
Proof.
  intros (? & ? & ? & ?) Hl Hp Ho. split; try done.
  - rewrite Hl. simpl. lia.
  - by rewrite Hl.
  - by rewrite Ho.
  - intros Ha%has_archive_offers. congruence.
  - congruence.
Qed.

(** A state that offers an update, with nothing in flight. *)
Lemma offer_ok m mf :
  base_ok m -> live m = [] -> m_manifest m = Some mf -> newer mf ->
  (has_archive (m_state m) = true -> exists full, contents_ok mf full /\ file_of full (archive m, archive_whole m)) ->
  (process m = true -> m_state m = Extracting) -> manager_ok m.
Proof.
  intros (? & ? & ? & ?) Hl Hmf Hn Ha Hp. split; try done.
  - rewrite Hl. simpl. lia.
  - by rewrite Hl.
  - intros _. by exists mf.
  - intros (full & ? & ?)%Ha. by exists mf, full.
Qed.

Lemma live_nil m : manager_ok m -> m_state m <> Checking -> m_state m <> Downloading -> live m = [].
Proof.
  intros Hok Hc Hd. destruct (live m) as [| r l] eqn:Hl; [done | exfalso].
  pose proof (mk_live m Hok) as Hf. rewrite Hl in Hf. apply Forall_cons in Hf as [Hr _].
  unfold live_ok in Hr. destruct (small _); [done | by destruct Hr].
Qed.

Lemma process_idle m s : manager_ok m -> m_state m = s -> s <> Extracting -> process m = false.
Proof.
  intros Hok <- Hs. destruct (process m) eqn:Hp; [| done]. by apply (mk_process m Hok) in Hp.
Qed.

Lemma live_next m : base_ok m -> live (next_generation m) = [].
Proof.
  intros (_ & Hg & _ & _). unfold live. simpl. induction Hg as [| r l Hr _ IH]; [done |].
  rewrite filter_cons, decide_False by lia. exact IH.
Qed.

Lemma base_next m : base_ok m -> base_ok (next_generation m).
Proof.
  intros (? & Hg & ? & ?). split_and!; simpl; [lia | | done | done].
  eapply Forall_impl; [exact Hg |]. simpl. lia.
Qed.

Lemma live_get kind m :
  live (get kind m) = mkReply (next_reply m) (generations m) kind false :: live m.
Proof. unfold live. simpl. by rewrite filter_cons, decide_True. Qed.

Lemma base_get kind m : base_ok m -> base_ok (get kind m).
Proof. intros (? & ? & ? & ?). split_and!; try done. constructor; [simpl; lia | done]. Qed.

(** One new reply in a state that waits for it. *)
Lemma get_ok kind m mf :
  base_ok m -> live m = [] -> process m = false ->
  (small kind = true -> m_state m = Checking) ->
  (small kind = false -> m_state m = Downloading /\ hashed m = part_file m
     /\ m_manifest m = Some mf /\ newer mf) ->
  manager_ok (get kind m).
Proof.
  intros Hb Hl Hp Hs Hd. pose proof (base_get kind m Hb) as (? & ? & ? & ?).
  assert (Hst : m_state m = Checking \/ (m_state m = Downloading /\ m_manifest m = Some mf /\ newer mf))
    by (destruct (small kind); [left; auto | right; naive_solver]).
  split; try done.
  - rewrite live_get, Hl. done.
  - rewrite live_get, Hl. repeat constructor. unfold live_ok. simpl.
    destruct (small kind); [by apply Hs | by destruct Hd as (? & ? & _)].
  - simpl. destruct Hst as [-> | (-> & ? & ?)]; [done |]. intros _. by exists mf.
  - simpl. by destruct Hst as [-> | (-> & _)].
  - simpl. congruence.
Qed.

Lemma check_ok m : manager_ok m -> manager_ok (checkForUpdates m).
Proof.
  intros Hok. unfold checkForUpdates. destruct (busy (m_state m)) eqn:Hb; [done |].
  assert (Hp : process m = false) by (apply (process_idle m (m_state m)); [done.. |]; by intros He; rewrite He in Hb).
  pose proof (base_next m (ok_base m Hok)) as (? & ? & ? & ?).
  apply (get_ok _ _ (mkManifest (mkVersion 0 0 0) [] [] (mkEntry [] [] 0 []))); try done.
  exact (live_next m (ok_base m Hok)).
Qed.

(** Taking a reply out of the list. *)
Lemma filter_remove {A} (P : A -> Prop) `{forall x, Decision (P x)} pre (x : A) post :
  filter P (pre ++ x :: post) = if decide (P x) then filter P pre ++ x :: filter P post
                                else filter P (pre ++ post).
Proof. rewrite !filter_app, filter_cons. by destruct (decide (P x)). Qed.

Lemma removed_base m pre r post a :
  base_ok m -> replies m = pre ++ r :: post -> base_ok (with_replies (pre ++ post) a m).
Proof.
  intros (? & Hg & ? & ?) Hr. split_and!; try done. simpl. rewrite Hr in Hg.
  apply Forall_app in Hg as [? Hg]. apply Forall_cons in Hg as [_ ?]. by apply Forall_app.
Qed.

Lemma removed_stale m pre r post a :
  manager_ok m -> replies m = pre ++ r :: post -> reply_generation r <> generations m ->
  manager_ok (with_replies (pre ++ post) a m).
Proof.
  intros Hok Hr Hne. destruct (removed_base m pre r post a (ok_base m Hok) Hr) as (? & ? & ? & ?).
  assert (Hl : live (with_replies (pre ++ post) a m) = live m).
  { unfold live. simpl. by rewrite Hr, filter_remove, decide_False. }
  destruct Hok. split; try done; by rewrite Hl.
Qed.

Lemma removed_live m pre r post a :
  manager_ok m -> replies m = pre ++ r :: post -> reply_generation r = generations m ->
  live (with_replies (pre ++ post) a m) = [] /\ live_ok m r.
Proof.
  intros Hok Hr He. pose proof (mk_one m Hok) as H1. pose proof (mk_live m Hok) as Hl.
  unfold live in H1, Hl. rewrite Hr, filter_remove, decide_True in H1, Hl by done.
  rewrite length_app in H1. simpl in H1. apply Forall_app in Hl as [_ Hl]. apply Forall_cons in Hl as [Hl _].
  split; [| done]. unfold live. simpl. rewrite filter_app.
  destruct (filter _ pre); [| simpl in H1; lia]. destruct (filter _ post); [done | simpl in H1; lia].
Qed.

Lemma reply_range m pre r post :
  base_ok m -> replies m = pre ++ r :: post -> (0 <= reply_generation r <= generations m)%Z.
Proof.
  intros (_ & Hg & _) Hr. rewrite Hr in Hg. apply Forall_app in Hg as [_ Hg]. by apply Forall_cons in Hg as [? _].
Qed.

Lemma verified_ok bytes comment sig m :
  base_ok m -> live m = [] -> process m = false -> m_state m = Checking ->
  verifyDetached bytes sig (trusted_keys config) = Value comment -> manager_ok (onManifestVerified bytes m).
Proof.
  intros Hb Hl Hp Hs Hv. apply verifyDetached_sound in Hv as (trusted & Hin & _ & Hsig).
  unfold onManifestVerified. destruct (parseUpdateManifest _ _ _ _) as [mf |] eqn:Hparse; [| by apply quiet_ok].
  assert (Hauth : authentic mf) by by exists bytes, comment, trusted.
  destruct Hb as (? & ? & _ & ?). destruct (version_lt currentVersion (version mf)) eqn:Hnew.
  - apply (offer_ok _ mf); try done; [| simpl; congruence]. split_and!; try done. by intros ? [= <-].
  - apply quiet_ok; try done. split_and!; try done. by intros ? [= <-].
Qed.

Lemma small_finished_ok m pre r post ok bytes :
  manager_ok m -> (generations m < 2 ^ 64)%Z -> replies m = pre ++ r :: post -> small (reply_kind r) = true ->
  manager_ok (on_small_finished r ok bytes (with_replies (pre ++ post) (m_activeReply m) m)).
Proof.
  intros Hok Hlt Hr Hs. pose proof (reply_range m pre r post (ok_base m Hok) Hr) as Hrange.
  unfold on_small_finished.
  destruct (current r (with_replies (pre ++ post) (m_activeReply m) m)) eqn:Hcur; cbn [negb].
  2: { apply (removed_stale m pre r post); [done.. |]. intros He.
    apply (proj2 (current_true r m Hlt Hrange)) in He. by unfold current in *; simpl in *; congruence. }
  apply (current_true r m Hlt Hrange) in Hcur.
  set (m1 := with_replies (replies (with_replies (pre ++ post) (m_activeReply m) m)) None _).
  assert (Hb : base_ok m1) by exact (removed_base m pre r post None (ok_base m Hok) Hr).
  destruct (removed_live m pre r post None Hok Hr Hcur) as [Hl Hlive].
  unfold live_ok in Hlive. rewrite Hs in Hlive.
  assert (Hp : process m1 = false) by by apply (process_idle m Checking).
  change (live m1 = []) in Hl. change (m_state m1 = Checking) in Hlive. clearbody m1.
  assert (Hfail : manager_ok (fail m1)) by by apply quiet_ok.
  destruct ok; [| done]. cbn [negb]. destruct (reply_kind r) as [| manifestBytes |]; [| | done].
  - destruct (_ <? _)%Z; [done |]. unfold fetchSignatureAndVerify.
    by apply (get_ok _ _ (mkManifest (mkVersion 0 0 0) [] [] (mkEntry [] [] 0 []))).
  - destruct (_ <? _)%Z; [done |]. destruct (verifyDetached _ _ _) eqn:Hv; [by eapply verified_ok | done].
Qed.

Lemma download_ok m disk : manager_ok m -> manager_ok (downloadUpdate disk m).
Proof.
  intros Hok. unfold downloadUpdate. destruct (m_state m) eqn:Hs; try done.
  destruct (m_manifest m) as [mf |] eqn:Hmf; [| done].
  assert (Hp : process m = false) by by apply (process_idle m UpdateAvailable).
  assert (Hfail : manager_ok (fail m)).
  { apply quiet_ok; [by apply (ok_base m Hok) | | done | done]. apply (live_nil m Hok); by rewrite Hs. }
  destruct (negb _); [done |]. destruct (negb _); [done |].
  destruct (match bytes_available disk with Some _ => _ | None => _ end); [done |]. destruct (negb _); [done |].
  destruct (mk_offers m Hok) as (mf' & Hmf' & Hn); [by rewrite Hs |]. rewrite Hmf in Hmf'. injection Hmf' as <-.
  assert (Hb : base_ok (with_state Downloading (with_data [] [] m))) by exact (ok_base m Hok).
  unfold beginDownload. apply (get_ok _ _ mf); try done.
  - by apply base_next.
  - by apply live_next.
Qed.

Lemma abort_live id m :
  live (abort id m) = (fun r => if Nat.eqb (reply_id r) id
    then mkReply (reply_id r) (reply_generation r) (reply_kind r) true else r) <$> live m.
Proof.
  unfold live, abort. simpl. induction (replies m) as [| r l IH]; [done |].
  rewrite fmap_cons, !filter_cons. destruct (Nat.eqb (reply_id r) id) eqn:He; simpl; destruct (decide _);
    rewrite ?fmap_cons, ?He, IH; done.
Qed.

Lemma abort_ok id m : manager_ok m -> manager_ok (abort id m).
Proof.
  intros Hok. destruct Hok as [Hc Hg H1 Hl Ha Ho Har Hp Hap]. split; try done.
  - simpl. apply Forall_fmap. eapply Forall_impl; [exact Hg |]. intros r Hr. simpl.
    by destruct (Nat.eqb _ _).
  - by rewrite abort_live, length_fmap.
  - rewrite abort_live. apply Forall_fmap. eapply Forall_impl; [exact Hl |]. intros r Hr. simpl.
    unfold live_ok in *. destruct (Nat.eqb _ _); [| done]. simpl. destruct (small _); [done |].
    split; [by destruct Hr | done].
Qed.

(** While a download runs its data may change, if the reply is aborted or the
    file keeps up with the hash. *)
Lemma data_ok m r h f :
  manager_ok m -> r ∈ live m -> small (reply_kind r) = false ->
  manager_ok (abort (reply_id r) (with_data h f m)) /\ (h = f -> manager_ok (with_data h f m)).
Proof.
  intros Hok Hin Hk. pose proof Hok as [Hc Hg H1 Hl Ha Ho Har Hp Hap].
  assert (Hone : live m = [r]).
  { destruct (live m) as [| r' [| ? ?]]; [by apply elem_of_nil in Hin | | simpl in H1; lia].
    apply list_elem_of_singleton in Hin. by subst. }
  rewrite Hone in Hl. apply Forall_cons in Hl as [Hr _]. unfold live_ok in Hr. rewrite Hk in Hr. destruct Hr as [Hst _].
  split.
  - split; try done.
    + simpl. apply Forall_fmap. eapply Forall_impl; [exact Hg |]. intros r' Hr'. simpl. by destruct (Nat.eqb _ _).
    + rewrite abort_live, length_fmap. exact H1.
    + rewrite abort_live. change (live (with_data h f m)) with (live m). rewrite Hone. simpl.
      rewrite Nat.eqb_refl. constructor; [| done]. unfold live_ok. simpl. by rewrite Hk.
  - intros <-. split; try done. change (live (with_data h h m)) with (live m). rewrite Hone.
    constructor; [| done]. unfold live_ok. by rewrite Hk.
Qed.

Lemma in_live m r : r ∈ replies m -> reply_generation r = generations m -> r ∈ live m.
Proof. intros Hin He. by apply list_elem_of_filter. Qed.

Lemma read_ok m r chunk written :
  manager_ok m -> (generations m < 2 ^ 64)%Z -> r ∈ replies m -> reply_kind r = ForDownload -> aborted r = false ->
  exists m', on_ready_read r chunk written m = Some m' /\ manager_ok m'.
Proof.
  intros Hok Hlt Hin Hk Ha. unfold on_ready_read.
  assert (Hrange : (0 <= reply_generation r <= generations m)%Z).
  { pose proof (mk_generations m Hok) as Hg. rewrite Forall_forall in Hg. by apply Hg. }
  destruct (current r m) eqn:Hcur; cbn [negb]; [| by exists m].
  apply (current_true r m Hlt Hrange) in Hcur. pose proof (in_live m r Hin Hcur) as Hlive.
  pose proof (mk_live m Hok) as Hf. rewrite Forall_forall in Hf. pose proof (Hf r Hlive) as Hr.
  unfold live_ok in Hr. rewrite Hk in Hr. simpl in Hr. destruct Hr as [Hst Hsync]. specialize (Hsync Ha).
  destruct (mk_offers m Hok) as (mf & -> & _); [by rewrite Hst |]. cbn [mbind option_bind].
  assert (Hsm : small (reply_kind r) = false) by by rewrite Hk.
  destruct (_ <? _)%Z; [eexists; split; [done |]; by apply data_ok |].
  case_bool_decide as Hw; (eexists; split; [done |]).
  - by apply (data_ok m r _ _ Hok Hlive Hsm).
  - apply (data_ok m r _ _ Hok Hlive Hsm). by rewrite take_ge, Hsync by lia.
Qed.

(** A finished download, once its reply is taken out of the list. *)
Lemma downloaded_ok m ok d mf :
  base_ok m -> live m = [] -> process m = false -> m_state m = Downloading ->
  m_manifest m = Some mf -> newer mf -> (ok = true -> hashed m = part_file m) ->
  exists m', onDownloadFinished ok d m = Some m' /\ manager_ok m'.
Proof.
  intros Hb Hl Hp Hst Hmf Hn Hsync. unfold onDownloadFinished.
  assert (Hclosed : let m' := close_file d m in base_ok m' /\ live m' = [] /\ process m' = false /\ m_manifest m' = Some mf
            /\ (ok = true -> file_of (hashed m') (part_file m', flush_ok d))).
  { unfold close_file, flush_ok. cbv zeta. destruct (truncated d) as [n |]; split_and!; try done; intros Hok; rewrite <- Hsync by done;
      split; cbn; try done. apply prefix_take. }
  cbv zeta in Hclosed. destruct Hclosed as (Hbc & Hlc & Hpc & Hmfc & Hheld). clear Hb Hl Hp Hst Hmf Hsync. set (mc := close_file d m) in *. clearbody mc.
  clear m. rename mc into m, Hbc into Hb, Hlc into Hl, Hpc into Hp, Hmfc into Hmf.
  assert (Hfail : forall m0, base_ok m0 -> live m0 = [] -> process m0 = false -> manager_ok (fail m0))
    by by intros; apply quiet_ok.
  destruct ok; cbn [negb]; [| eexists; split; [done |]; by apply Hfail].
  change (m_manifest (with_state Verifying m)) with (m_manifest m). rewrite Hmf. cbn [mbind option_bind].
  change (hashed (with_state Verifying m)) with (hashed m).
  destruct (Z.eqb_spec (Z.of_nat (length (hashed m))) (size (file mf))) as [Hsz |]; cbn [negb];
    [| eexists; split; [done |]; by apply Hfail].
  destruct (bool_decide_reflect (Sha256_hex (hashed m) = sha256 (file mf))) as [Hsha |]; cbn [negb];
    [| eexists; split; [done |]; by apply Hfail].
  destruct (rename_ok d); cbn [negb]; [| eexists; split; [done |]; by apply Hfail].
  eexists; split; [done |]. set (m1 := with_archive _ _ _).
  assert (Hcont : exists full, contents_ok mf full /\ file_of full (archive m1, archive_whole m1))
    by (exists (hashed m); split; [done | by apply Hheld]).
  assert (Hb1 : base_ok m1) by done. assert (Hl1 : live m1 = []) by done.
  assert (Hp1 : process m1 = false) by done. assert (Hmf1 : m_manifest m1 = Some mf) by done.
  clearbody m1. destruct (single_file_artifact config).
  - unfold onImageDownloaded. destruct (negb _); [by apply Hfail |]. destruct (negb _); [by apply Hfail |].
    apply (offer_ok _ mf); try done. simpl. congruence.
  - unfold beginExtraction. destruct (negb _); [by apply Hfail |]. destruct (negb _); [by apply Hfail |].
    by apply (offer_ok _ mf).
Qed.

Lemma download_finished_ok m pre r post ok d :
  manager_ok m -> (generations m < 2 ^ 64)%Z -> replies m = pre ++ r :: post -> reply_kind r = ForDownload ->
  (aborted r = true -> ok = false) ->
  exists m', on_download_reply_finished r ok d (with_replies (pre ++ post) (m_activeReply m) m) = Some m'
    /\ manager_ok m'.
Proof.
  intros Hok Hlt Hr Hk Hab. pose proof (reply_range m pre r post (ok_base m Hok) Hr) as Hrange.
  unfold on_download_reply_finished.
  destruct (current r (with_replies (pre ++ post) (m_activeReply m) m)) eqn:Hcur; cbn [negb].
  2: { eexists; split; [done |]. apply (removed_stale m pre r post); [done.. |]. intros He.
    apply (proj2 (current_true r m Hlt Hrange)) in He. by unfold current in *; simpl in *; congruence. }
  apply (current_true r m Hlt Hrange) in Hcur.
  destruct (removed_live m pre r post None Hok Hr Hcur) as [Hl Hlive].
  unfold live_ok in Hlive. rewrite Hk in Hlive. simpl in Hlive. destruct Hlive as [Hst Hsync].
  destruct (mk_offers m Hok) as (mf & Hmf & Hn); [by rewrite Hst |].
  apply (downloaded_ok _ ok d mf); try done.
  - exact (removed_base m pre r post None (ok_base m Hok) Hr).
  - by apply (process_idle m Downloading).
  - intros ->. apply Hsync. destruct (aborted r); [by discriminate Hab | done].
Qed.

Lemma extracting_ok m ok probe w :
  manager_ok m -> process m = true -> manager_ok (on_process_finished ok probe w m)
  /\ manager_ok (on_process_error m).
Proof.
  intros Hok Hp. pose proof (mk_process m Hok Hp) as Hst.
  assert (Hl : live m = []) by (apply (live_nil m Hok); by rewrite Hst).
  pose proof (ok_base m Hok) as Hb.
  assert (Hfail : manager_ok (fail (with_process false m))) by by apply quiet_ok.
  split; [| done]. unfold on_process_finished, onExtractionFinished.
  destruct (negb ok); [done |]. destruct (negb probe); [done |].
  destruct (mk_offers m Hok) as (mf & Hmf & Hn); [by rewrite Hst |].
  destruct (mk_archive m Hok) as (mf' & full & Hmf' & Hc); [by rewrite Hst |]. rewrite Hmf in Hmf'. injection Hmf' as <-.
  apply (offer_ok _ mf); try done. intros _. by exists full.
Qed.

Lemma apply_ok m swap restarted : manager_ok m -> manager_ok (applyAndRestart swap restarted m).
Proof.
  intros Hok. unfold applyAndRestart.
  destruct (bool_decide_reflect (m_state m = ReadyToApply)) as [Hst |]; cbn [negb orb]; [| done].
  destruct (negb _ || negb _); [done |].
  assert (Hl : live m = []) by (apply (live_nil m Hok); by rewrite Hst).
  destruct (mk_offers m Hok) as (mf & Hmf & Hn); [by rewrite Hst |].
  destruct (mk_archive m Hok) as (mf' & full & Hmf' & Hc & Hh); [by rewrite Hst |]. rewrite Hmf in Hmf'. injection Hmf' as <-.
  pose proof (ok_base m Hok) as (? & ? & Ha & Happ).
  assert (Hp : process m = false) by by apply (process_idle m ReadyToApply).
  match goal with |- context [negb swap] => idtac end.
  set (m1 := mkManager _ _ _ _ _ _ _ _ _ _ _ _ _ _ _ _ _).
  assert (Hb : base_ok m1).
  { split_and!; try done. simpl. apply Forall_app. split; [done |]. constructor; [| done].
    exists full. split; [| done]. exists mf. split; [by apply Ha | done]. }
  assert (Hfail : manager_ok (fail m1)) by by apply quiet_ok.
  destruct (negb swap); [done |]. destruct (negb restarted); [done |].
  apply (offer_ok _ mf); try done; [intros _; by exists full |]. intros Hpr. change (process m = true) in Hpr. congruence.
Qed.

Lemma dismiss_ok m : manager_ok m -> manager_ok (dismissNotice m).
Proof. by intros []. Qed.

Lemma step_manager_ok m m' : manager_ok m -> (generations m < 2 ^ 64)%Z -> step m m' -> manager_ok m'.
Proof.
  intros Hok Hlt Hstep.
  destruct Hstep as [| | | m r chunk w m' Hin Hk Ha E | m pre r post ok d m' Hr Hk Ha E | | | | | | |].
  - by apply check_ok.
  - by eapply small_finished_ok.
  - by apply download_ok.
  - destruct (read_ok m r chunk w Hok Hlt Hin Hk Ha) as (m2 & E2 & Hm2). congruence.
  - destruct (download_finished_ok m pre r post ok d Hok Hlt Hr Hk Ha) as (m2 & E2 & Hm2). congruence.
  - unfold on_watchdog. destruct (m_activeReply m); [| done]. case_bool_decide; [by apply abort_ok | done].
  - by apply extracting_ok.
  - by apply (extracting_ok m true true true).
  - by apply apply_ok.
  - by apply dismiss_ok.
  - unfold on_periodic_timer. destruct (m_state m); try done; by apply check_ok.
  - unfold on_startup_timer. destruct (m_state m); try done; by apply check_ok.
Qed.

Lemma manager_reachable_ok m : reachable m -> (generations m < 2 ^ 64)%Z -> manager_ok m.
Proof.
  induction 1 as [d | m m' _ IH Hstep]; intros Hlt; [apply new_manager_ok |].
  pose proof (steps_generations m m' Hstep). apply (step_manager_ok m); [apply IH; lia | lia | done].
Qed.

(** ** Property *)

(** C5 Only a signed newer release is installed: whatever the user, the timers and
    the network do, and whatever the disk refuses, in whatever order, everything handed
    to the installation, and everything offered for it, comes from the archive of a
    manifest that a trusted key signed, for this channel and target, of a version above
    the running one, with the manifest's digest and size: byte for byte when the flush
    at the end of the download wrote the file out, and otherwise its beginning.  (That
    the flush failed is not noticed: [truncated_installed].)  And no handler of a
    download reads a manifest that is not there.  Nobody else writes the file. *)
Theorem update_authentic m :
  reachable m -> (generations m < 2 ^ 64)%Z ->
  (forall contents whole, (contents, whole) ∈ applied m \/ (m_state m = ReadyToApply /\ contents = archive m /\ whole = archive_whole m) ->
     exists full, trustworthy full /\ contents `prefix_of` full /\ (whole = true -> contents = full))
  /\ (forall pre r post, replies m = pre ++ r :: post -> reply_kind r = ForDownload ->
        (forall chunk written, aborted r = false -> is_Some (on_ready_read r chunk written m))
        /\ (forall ok d, (aborted r = true -> ok = false) ->
              is_Some (on_download_reply_finished r ok d (with_replies (pre ++ post) (m_activeReply m) m)))).
Proof.
  intros Hr Hlt. pose proof (manager_reachable_ok m Hr Hlt) as Hok. split.
  - intros contents whole [Hin | (Hst & -> & ->)].
    + pose proof (mk_applied m Hok) as Hf. rewrite Forall_forall in Hf. destruct (Hf _ Hin) as (full & ? & ? & ?). by exists full.
    + destruct (mk_offers m Hok) as (mf & Hmf & Hn); [by rewrite Hst |].
      destruct (mk_archive m Hok) as (mf' & full & Hmf' & Hc & ? & ?); [by rewrite Hst |]. rewrite Hmf in Hmf'. injection Hmf' as <-.
      exists full. split; [| done]. exists mf. split; [by apply (mk_authentic m Hok) | done].
  - intros pre r post Hrep Hk. split.
    + intros chunk written Ha. destruct (read_ok m r chunk written Hok Hlt) as (m' & -> & _); try done.
      rewrite Hrep. apply elem_of_app. right. by left.
    + intros ok d Ha. destruct (download_finished_ok m pre r post ok d Hok Hlt Hrep Hk Ha) as (m' & -> & _). done.
Qed.
End Updater.

Module Sample.
#[local] Instance crypto : Crypto := {
  fromBase64 t := Some t;
  ED25519_verify _ _ _ := true;
  Blake2b_512 t := t;
  Sha256_hex _ := replicate 64 "0"%char;
}.

(** A manifest of a release whose archive has [length] bytes. *)
#[local] Instance qjson (length : Z) : QJson := {
  QValue := text;
  QObject := unit;
  fromJson _ := Some tt;
  value _ k := k;
  toInt _ := 1%Z;
  toText k :=
    if bool_decide (k = chars "version") then chars "9.0.0"
    else if bool_decide (k = chars "sha256") then replicate 64 "0"%char
    else if bool_decide (k = chars "project") then chars "driscord"
    else if bool_decide (k = chars "channel") then chars "stable"
    else if bool_decide (k = chars "target") then chars "linux"
    else chars "client.tar";
  toObject _ := tt;
  toArray k := [k];
  toSize _ := length;
}.

Definition sample_key : PublicKey := mkKey (chars "12345678") (replicate 32 "k"%char).

Definition sample_config (single : bool) : Config :=
  mkConfig (chars "https://updates") (chars "stable") (chars "linux") (chars "linux") (chars ".tar") single
    (chars "1.0.0") [sample_key] false AppImage true.

Definition sample_signature : text :=
  chars "untrusted comment" ++ newline :: chars "ED12345678" ++ replicate 64 "s"%char
  ++ newline :: chars "trusted comment: release" ++ newline :: replicate 64 "g"%char ++ [newline].

Definition reply (id : nat) (generation : Z) (kind : ReplyKind) : Reply := mkReply id generation kind false.

(** A check, a download and, unless it is a single file, an extraction; then an
    installation. *)
Section Run.
Variables (data : text) (single : bool) (d : Finish).
#[local] Existing Instance qjson.
Abbreviation config := (sample_config single).
Abbreviation json := (qjson (Z.of_nat (length data))).
Abbreviation download := (reply 2 2 ForDownload).

Definition checked : Manager := checkForUpdates (new_manager config []).
Definition fetched : Manager :=
  on_small_finished (H0 := json) config (reply 0 1 ForManifest) true (chars "{}") (with_replies [] (Some 0) checked).
Definition verified : Manager :=
  on_small_finished (H0 := json) config (reply 1 1 (ForSignature (chars "{}"))) true sample_signature
    (with_replies [] (Some 1) fetched).
Definition started : Manager := downloadUpdate (mkDisk true true None true) verified.
Definition received : Manager := default started (on_ready_read download data (length data) started).
Definition downloaded : Manager :=
  default received (on_download_reply_finished config download true d (with_replies [] (Some 2) received)).
Definition extracted : Manager := if single then downloaded else on_process_finished config true true true downloaded.
Definition installed : Manager := applyAndRestart true true extracted.
End Run.

Abbreviation tar := (chars "tar").
Abbreviation fine := (mkFinish None true true true true true).

Abbreviation tar_json := (qjson (Z.of_nat (length tar))).

(** The run's states are reachable. *)
Lemma run_to json config m m1 m2 :
  reachable (H0 := json) config m -> step (H0 := json) config m m1 -> m1 = m2 -> reachable (H0 := json) config m2.
Proof. intros Hr Hs <-. by eapply Steps. Qed.

Ltac reach_received data single :=
  let json := constr:(qjson (Z.of_nat (length data))) in
  let config := constr:(sample_config single) in
  eapply (run_to json config (started data single)); [| | reflexivity];
  [ eapply (run_to json config (verified data single));
    [ eapply (run_to json config (fetched data single));
      [ eapply (run_to json config (checked single));
        [ eapply (run_to json config); [apply (Starts config []) | apply Checks | vm_compute; reflexivity]
        | by apply (SmallFinishes (H0 := json) config (checked single) [] (reply 0 1 ForManifest) [] true (chars "{}")); vm_compute
        | vm_compute; reflexivity ]
      | by apply (SmallFinishes (H0 := json) config (fetched data single) [] (reply 1 1 (ForSignature (chars "{}"))) [] true
          sample_signature); vm_compute
      | vm_compute; reflexivity ]
    | apply (Downloads (H0 := json) config _ (mkDisk true true None true)) | vm_compute; reflexivity ]
  | apply (Reads (H0 := json) config (started data single) (reply 2 2 ForDownload) data (length data));
      [vm_compute; left | reflexivity | reflexivity | vm_compute; reflexivity] ].

Ltac reach_downloaded data single d :=
  let json := constr:(qjson (Z.of_nat (length data))) in
  let config := constr:(sample_config single) in
  eapply (run_to json config (received data single)); [reach_received data single | | reflexivity];
  apply (DownloadFinishes (H0 := json) config (received data single) [] (reply 2 2 ForDownload) [] true d);
    [vm_compute; reflexivity | reflexivity | done | vm_compute; reflexivity].

Lemma installed_reachable : reachable (H0 := tar_json) (sample_config false) (installed tar false fine).
Proof.
  eapply (run_to tar_json _ (extracted tar false fine)); [| apply (Applies _ _ true true) | vm_compute; reflexivity].
  eapply (run_to tar_json _ (downloaded tar false fine));
    [reach_downloaded constr:(tar) false constr:(fine) | apply (ProcessFinishes _ _ true true true); by vm_compute | vm_compute; reflexivity].
Qed.

Theorem update_authentic_witness :
  applied (installed tar false fine) = [(tar, true)]
  /\ exists full, trustworthy (H0 := tar_json) (sample_config false) full /\ tar `prefix_of` full /\ (true = true -> tar = full).
Proof.
  split; [by vm_compute |].
  apply (update_authentic (H0 := tar_json) (sample_config false) (installed tar false fine)); [exact installed_reachable | by vm_compute | left; vm_compute; left].
Defined.

(** An AppImage whose last bytes the disk had no room for: the size and the digest that
    are compared are those of what was received, and of the file only the header is
    read.  It is renamed, offered and installed. *)
Definition image : text := char_of 127 :: chars "ELF1234AI" ++ [char_of 2; "x"%char; "y"%char].

Abbreviation short := (mkFinish (Some 11) true true true true true).

Lemma truncated_installed :
  let m := installed image true short in
  reachable (H0 := qjson (Z.of_nat (length image))) (sample_config true) m
  /\ hashed m = image /\ applied m = [(take 11 image, false)] /\ take 11 image <> image.
Proof.
  split; [| split_and!; [by vm_compute | by vm_compute | discriminate]].
  eapply (run_to (qjson (Z.of_nat (length image))) _ (extracted image true short));
    [reach_downloaded image true constr:(short) | apply (Applies _ _ true true) | vm_compute; reflexivity].
Qed.
End Sample.
