(* ===== verification/Swap.v ===== *)
(** * Installing an update (client-qt/src/update/InstallSwap.cpp)

    [applyPayload] moves the entries of the old installation into a backup and
    those of the payload into their place, file by file, and undoes what it did
    when a move fails.  A directory is a list of named entries; the disk's
    answers, true for success, are a function of how many calls came before.
    The root, the payload and the backup are disjoint directories here: the
    program puts the payload and the backup below the root's [.update], and a
    payload that itself has an entry [.update] is outside the model. *)

From S2P Require Import Prelude Text.

Local Open Scope list_scope.

(** Whatever is not a directory is moved whole. *)
Inductive tree :=
  | File (contents : text)
  | Dir (entries : list (text * tree)).

Abbreviation directory := (list (text * tree)) (only parsing).

Fixpoint find_entry (name : text) (d : directory) : option tree :=
  match d with
  | [] => None
  | (n, t) :: d => if bool_decide (n = name) then Some t else find_entry name d
  end.

Fixpoint remove_entry (name : text) (d : directory) : directory :=
  match d with
  | [] => []
  | (n, t) :: d => if bool_decide (n = name) then d else (n, t) :: remove_entry name d
  end.

(** The entry of a name becomes [o]. *)
Definition put_entry (name : text) (o : option tree) (d : directory) : directory :=
  match o with
  | Some t => (name, t) :: remove_entry name d
  | None => remove_entry name d
  end.

(** What is left of an entry that was moved. *)
Definition left_entry (n : text) (o : option tree) : directory := match o with Some t => [(n, t)] | None => [] end.

Section Move.
Variable disk : nat -> bool.

(** What a move leaves: its success, the source, the destination and the count
    of calls. *)
Record Moved (A B : Type) := mkMoved { ok : bool; source : A; destination : B; calls : nat }.
Arguments mkMoved {A B}.
Arguments ok {A B}.
Arguments source {A B}.
Arguments destination {A B}.
Arguments calls {A B}.

(** Three attempts at most; true when one succeeds. *)
Definition renameWithRetry (now : nat) : bool * nat :=
  if disk now then (true, now + 1)
  else if disk (now + 1) then (true, now + 2)
  else (disk (now + 2), now + 3).

(** The loop over the entries of a directory. *)
Fixpoint move_entries (move : tree -> option tree -> nat -> Moved (option tree) (option tree))
    (entries to : directory) (now : nat) : Moved directory directory :=
  match entries with
  | [] => mkMoved true [] to now
  | (n, t) :: rest =>
    let r := move t (find_entry n to) now in
    let left := left_entry n (source r) in
    let to := put_entry n (destination r) to in
    if ok r then
      let r' := move_entries move rest to (calls r) in
      mkMoved (ok r') (left ++ source r') (destination r') (calls r')
    else mkMoved false (left ++ rest) to (calls r)
  end.

Fixpoint moveEntry (from : tree) (to : option tree) (now : nat) : Moved (option tree) (option tree) :=
  match from with
  | Dir entries =>
    (* mkpath has nothing to do for a directory that is there *)
    let '(inside, now) := match to with
                          | Some (Dir d) => (Some d, now)
                          | Some (File _) => (None, now)
                          | None => (if disk now then Some [] else None, now + 1)
                          end in
    match inside with
    | None => mkMoved false (Some from) to now
    | Some d =>
      let r := move_entries moveEntry entries d now in
      if negb (ok r) then mkMoved false (Some (Dir (source r))) (Some (Dir (destination r))) (calls r)
      else
        (* the result of rmdir is not looked at *)
        let gone := bool_decide (length (source r) = 0) && disk (calls r) in
        mkMoved true (if gone then None else Some (Dir (source r))) (Some (Dir (destination r))) (calls r + 1)
    end
  | File _ =>
    match to with
    | Some _ => mkMoved false (Some from) to now
    | None =>
      let '(renamed, now) := renameWithRetry now in
      if renamed then mkMoved true None (Some from) now else mkMoved false (Some from) None now
    end
  end.

(** [moveEntry(from/name, to/name)]; a source that is missing cannot be moved. *)
Definition move_named (name : text) (from to : directory) (now : nat) : Moved directory directory :=
  match find_entry name from with
  | None => mkMoved false from to (now + 3)
  | Some t =>
    let r := moveEntry t (find_entry name to) now in
    mkMoved (ok r) (put_entry name (source r) from) (put_entry name (destination r) to) (calls r)
  end.
End Move.

Arguments mkMoved {A B}.
Arguments ok {A B}.
Arguments source {A B}.
Arguments destination {A B}.
Arguments calls {A B}.

Definition moveTreePerFile (disk : nat -> bool) (from : tree) (to : option tree) : Moved (option tree) (option tree) :=
  match from with
  | File _ => mkMoved false (Some from) to 0
  | Dir _ => moveEntry disk from to 0
  end.

(** ** applyPayload *)

Record Install := mkInstall { root : directory; payload : directory; backup : directory; at_call : nat }.

(** The old entry goes to the backup, the new one to the root. *)
Definition back_up (disk : nat -> bool) (s : Install) (name : text) : bool * Install :=
  let r := move_named disk name (root s) (backup s) (at_call s) in
  (ok r, mkInstall (source r) (payload s) (destination r) (calls r)).

Definition move_in (disk : nat -> bool) (s : Install) (name : text) : bool * Install :=
  let r := move_named disk name (payload s) (root s) (at_call s) in
  (ok r, mkInstall (destination r) (source r) (backup s) (calls r)).

(** The results of the moves are not looked at. *)
Definition restore_installed (undo : nat -> bool) (s : Install) (name : text) : Install :=
  let r := move_named undo name (root s) (payload s) (at_call s) in
  mkInstall (source r) (destination r) (backup s) (calls r).

Definition restore_backup (undo : nat -> bool) (s : Install) (name : text) : Install :=
  let r := move_named undo name (backup s) (root s) (at_call s) in
  mkInstall (destination r) (payload s) (source r) (calls r).

Definition rollback (undo : nat -> bool) (installed backed_up : list text) (s : Install) : Install :=
  foldl (restore_backup undo) (foldl (restore_installed undo) s (rev installed)) (rev backed_up).

(** One turn: the old entry is backed up, the new one moved in.  [undo] is the
    disk once a move failed. *)
Fixpoint install_names (disk undo : nat -> bool) (names installed backed_up : list text) (s : Install) :
    bool * Install :=
  match names with
  | [] => (true, s)
  | name :: names =>
    let '(backed, s, backed_up') :=
      match find_entry name (root s) with
      | Some _ => let '(backed, s) := back_up disk s name in (backed, s, backed_up ++ [name])
      | None => (true, s, backed_up)
      end in
    if negb backed then (false, rollback undo installed backed_up s)
    else
      let '(moved, s) := move_in disk s name in
      if negb moved then (false, rollback undo installed backed_up' s)
      else install_names disk undo names (installed ++ [name]) backed_up' s
  end.

(** The backup directory is made first. *)
Definition applyPayload (disk undo : nat -> bool) (mkpath_ok : bool) (s : Install) : bool * Install :=
  if negb mkpath_ok then (false, s) else install_names disk undo (payload s).*1 [] [] s.

(** ** applyImageFile *)

Record Image := mkImage { image : option text; downloaded : option text; old_image : option text; image_call : nat }.

(** An old backup is removed first; a rename needs a free destination. *)
Definition applyImageFile (disk : nat -> bool) (mkpath_ok : bool) (s : Image) : bool * Image :=
  match image s, downloaded s with
  | Some old, Some new =>
    if negb mkpath_ok then (false, s)
    else
      let now := image_call s in
      let left := if disk now then None else old_image s in
      let '(aside, now) := match left with
                           | None => renameWithRetry disk (now + 1)
                           | Some _ => (false, now + 4)
                           end in
      if negb aside then (false, mkImage (Some old) (Some new) left now)
      else
        let '(placed, now) := renameWithRetry disk now in
        if placed then (true, mkImage (Some new) None (Some old) now)
        else
          let '(back, now) := renameWithRetry disk now in
          if back then (false, mkImage (Some old) (Some new) None now)
          else (false, mkImage None (Some new) (Some old) now)
  | _, _ => (false, s)
  end.

(** ** Files by their path *)

Fixpoint at_path (p : list text) (t : tree) : option text :=
  match p, t with
  | [], File c => Some c
  | n :: p, Dir d => find_entry n d ≫= at_path p
  | _, _ => None
  end.

Definition at_node (p : list text) (o : option tree) : option text := o ≫= at_path p.

(** The file below entry [n] of a directory. *)
Definition file_at (n : text) (p : list text) (d : directory) : option text := at_node p (find_entry n d).

(** The names of a directory are different. *)
Inductive wf : tree -> Prop :=
  | wf_file c : wf (File c)
  | wf_dir d : NoDup d.*1 -> Forall (fun e => wf e.2) d -> wf (Dir d).

Definition wf_directory (d : directory) : Prop := NoDup d.*1 /\ Forall (fun e => wf e.2) d.
Definition wf_node (o : option tree) : Prop := forall t, o = Some t -> wf t.

Lemma tree_nested_ind (P : tree -> Prop) :
  (forall c, P (File c)) -> (forall d, Forall (fun e => P e.2) d -> P (Dir d)) -> forall t, P t.
Proof.
  intros Hf Hd. fix IH 1. intros [c | d]; [apply Hf | apply Hd].
  induction d as [| [n t] d IHd]; constructor; [apply IH | exact IHd].
Qed.

Lemma wf_dir_iff d : wf (Dir d) <-> wf_directory d.
Proof. split; [by inversion 1 | by intros []; constructor]. Qed.

Lemma find_entry_in n t d : find_entry n d = Some t -> (n, t) ∈ d.
Proof.
  induction d as [| [m u] d IH]; [done |]. cbn [find_entry]. case_bool_decide as Hm; intros H.
  - injection H as ->. subst. left.
  - right. by apply IH.
Qed.

Lemma find_entry_None n d : n ∉ d.*1 -> find_entry n d = None.
Proof.
  intros Hn. destruct (find_entry n d) as [t |] eqn:Hf; [| done]. exfalso. apply Hn.
  apply list_elem_of_fmap. exists (n, t). split; [done | by apply find_entry_in].
Qed.

Lemma wf_find n d : wf_directory d -> wf_node (find_entry n d).
Proof.
  intros [_ Hall] t Ht%find_entry_in. rewrite Forall_forall in Hall. by apply (Hall (n, t)).
Qed.

Lemma remove_entry_names n d : (remove_entry n d).*1 `sublist_of` d.*1.
Proof.
  induction d as [| [m t] d IH]; [done |]. cbn [remove_entry]. case_bool_decide; rewrite ?fmap_cons.
  - by apply sublist_cons.
  - by apply sublist_skip.
Qed.

Lemma find_remove n m d : NoDup d.*1 -> find_entry n (remove_entry m d) = if decide (n = m) then None else find_entry n d.
Proof.
  intros Hd. induction d as [| [k t] d IH]; [by destruct (decide _) |].
  rewrite fmap_cons in Hd. apply NoDup_cons in Hd as [Hk Hd]. specialize (IH Hd). cbn [remove_entry].
  case_bool_decide as Hkm; cbn [find_entry].
  - subst k. destruct (decide (n = m)) as [-> | Hn].
    + by apply find_entry_None.
    + by rewrite bool_decide_false by congruence.
  - rewrite IH. case_bool_decide as Hkn; [| done]. subst k. by rewrite decide_False.
Qed.

Lemma wf_remove n d : wf_directory d -> wf_directory (remove_entry n d).
Proof.
  intros [Hd Hall]. split; [by eapply sublist_NoDup; [exact Hd | apply remove_entry_names] |].
  clear Hd. induction Hall as [| [m t] d Ht Hall IH]; [done |]. cbn [remove_entry].
  case_bool_decide; [done | by constructor].
Qed.

Lemma remove_absent n d : n ∉ (remove_entry n d).*1 \/ ~ NoDup d.*1.
Proof.
  destruct (decide (NoDup d.*1)) as [Hd | ?]; [left | by right].
  intros Hin. apply list_elem_of_fmap in Hin as ([m t] & -> & Hin). simpl in *.
  induction d as [| [k u] d IH]; [by apply elem_of_nil in Hin |].
  rewrite fmap_cons in Hd. apply NoDup_cons in Hd as [Hk Hd]. cbn [remove_entry] in Hin. case_bool_decide as Hkm.
  - subst k. apply Hk. apply list_elem_of_fmap. by exists (m, t).
  - apply elem_of_cons in Hin as [[= -> ->] | Hin]; [done | by apply IH].
Qed.

Lemma find_put n m o d : NoDup d.*1 -> find_entry n (put_entry m o d) = if decide (n = m) then o else find_entry n d.
Proof.
  intros Hd. destruct o as [t |]; cbn [put_entry find_entry]; [| by apply find_remove].
  rewrite find_remove by done. case_bool_decide as Hm; [by rewrite decide_True | by rewrite !decide_False by congruence].
Qed.

Lemma wf_put n o d : wf_directory d -> wf_node o -> wf_directory (put_entry n o d).
Proof.
  intros Hd Ho. pose proof (wf_remove n d Hd) as [Hr Hall]. destruct o as [t |]; [| done].
  cbn [put_entry]. split; [| constructor; [by apply Ho | done]].
  rewrite fmap_cons. constructor; [| done]. destruct (remove_absent n d) as [? | Hn]; [done |]. by destruct Hd.
Qed.

Lemma file_at_put n p m o d :
  wf_directory d -> file_at n p (put_entry m o d) = if decide (n = m) then at_node p o else file_at n p d.
Proof. intros [Hd _]. unfold file_at. rewrite find_put by done. by case_decide. Qed.

(** ** What a move does to the files *)

(** A file stays where it is or takes the free place it is moved to. *)
Definition moves (f t f' t' : option text) : Prop := (f' = f /\ t' = t) \/ (t = None /\ f' = None /\ t' = f).

Lemma moves_none t f' t' : moves None t f' t' -> f' = None /\ t' = t.
Proof. intros [[-> ->] | (-> & -> & ->)]; done. Qed.

Lemma moves_done f t t' : moves f t None t' -> t' = union f t.
Proof. intros [[<- ->] | (-> & _ & ->)]; [by destruct t | by destruct f]. Qed.

(** What moving [from] to [to] leaves: different names, no file lost, and none
    left behind after a success. *)
Definition node_moved (from to : option tree) (r : Moved (option tree) (option tree)) : Prop :=
  wf_node (source r) /\ wf_node (destination r)
  /\ (forall p, moves (at_node p from) (at_node p to) (at_node p (source r)) (at_node p (destination r)))
  /\ (ok r = true -> forall p, at_node p (source r) = None).

Definition directory_moved (from to : directory) (r : Moved directory directory) : Prop :=
  wf_directory (source r) /\ wf_directory (destination r)
  /\ (forall n p, moves (file_at n p from) (file_at n p to) (file_at n p (source r)) (file_at n p (destination r)))
  /\ (ok r = true -> forall n p, file_at n p (source r) = None).

Definition move_sound (m : tree -> option tree -> nat -> Moved (option tree) (option tree)) (t : tree) : Prop :=
  forall to now, wf t -> wf_node to -> node_moved (Some t) to (m t to now).

Lemma find_cons n m t d : find_entry n ((m, t) :: d) = if decide (n = m) then Some t else find_entry n d.
Proof. cbn [find_entry]. case_bool_decide; by case_decide; congruence. Qed.

Lemma file_at_cons n p m t d : file_at n p ((m, t) :: d) = if decide (n = m) then at_path p t else file_at n p d.
Proof. unfold file_at. rewrite find_cons. by case_decide. Qed.

Lemma file_at_left n p m o d :
  m ∉ d.*1 -> file_at n p (left_entry m o ++ d) = if decide (n = m) then at_node p o else file_at n p d.
Proof.
  intros Hm. destruct o as [t |]; simpl; [apply file_at_cons |]. case_decide; [subst | done].
  unfold file_at. by rewrite find_entry_None.
Qed.

Lemma wf_cons_inv n t d : wf_directory ((n, t) :: d) -> n ∉ d.*1 /\ wf t /\ wf_directory d.
Proof. intros [Hd Hall]. rewrite fmap_cons in Hd. apply NoDup_cons in Hd as [? ?]. apply Forall_cons in Hall as [? ?]. done. Qed.

Lemma wf_left n o d : n ∉ d.*1 -> wf_node o -> wf_directory d -> wf_directory (left_entry n o ++ d).
Proof.
  intros Hn Ho [Hd Hall]. destruct o as [t |]; [| done]. simpl. split; [rewrite fmap_cons; by constructor |].
  constructor; [by apply Ho | done].
Qed.

Lemma move_entries_sound m entries :
  Forall (fun e => move_sound m e.2) entries ->
  forall to now, wf_directory entries -> wf_directory to ->
    (source (move_entries m entries to now)).*1 `sublist_of` entries.*1
    /\ directory_moved entries to (move_entries m entries to now).
Proof.
  induction 1 as [| [k t] rest Hm _ IH]; intros to now Hwf Hto.
  { split; [done |]. repeat split; [constructor | done | apply Hto | apply Hto |]. intros n p. by left. }
  apply wf_cons_inv in Hwf as (Hk & Ht & Hrest).
  destruct (Hm (find_entry k to) now Ht (wf_find k to Hto)) as (Hs & Hd & Hmv & Hok). cbn [move_entries snd] in *.
  set (r := m t (find_entry k to) now) in *.
  pose proof (wf_put k (destination r) to Hto Hd) as Hto1.
  assert (Hput : forall n p, file_at n p (put_entry k (destination r) to)
                             = if decide (n = k) then at_node p (destination r) else file_at n p to)
    by (intros; by apply file_at_put).
  assert (Hleft : forall d : directory, (left_entry k (source r) ++ d).*1 `sublist_of` k :: d.*1).
  { intros d. destruct (source r); [by apply sublist_skip | by apply sublist_cons]. }
  destruct (ok r) eqn:Hokr.
  - specialize (Hok eq_refl).
    destruct (IH _ (calls r) Hrest Hto1) as (Hsub & Hs' & Hd' & Hmv' & Hok').
    set (r' := move_entries m rest (put_entry k (destination r) to) (calls r)) in *. cbn [ok source destination].
    assert (Hk' : k ∉ (source r').*1).
    { intros Hin. apply Hk. by eapply (sublist_subseteq _ _ Hsub). }
    split; [by etrans; [apply Hleft | apply sublist_skip] |]. split; [by apply wf_left |]. split; [done |]. split.
    + intros n p. cbn [source destination]. rewrite file_at_left, file_at_cons by done. specialize (Hmv' n p). rewrite Hput in Hmv'.
      case_decide as Hn; [subst n | done].
      assert (Hnone : file_at k p rest = None) by (unfold file_at; by rewrite find_entry_None).
      rewrite Hnone in Hmv'. apply moves_none in Hmv' as [_ ->]. apply Hmv.
    + intros Ho n p. cbn [ok source] in *. rewrite file_at_left by done. case_decide; [apply Hok | by apply Hok'].
  - cbn [ok source destination]. split; [apply Hleft |]. split; [by apply wf_left |]. split; [done |]. split; [| done].
    intros n p. cbn [source destination]. rewrite file_at_left, file_at_cons, Hput by done. case_decide; [subst n; apply Hmv | by left].
Qed.

Lemma wf_Dir_node d : wf_directory d -> wf_node (Some (Dir d)).
Proof. intros Hd t [= <-]. by apply wf_dir_iff. Qed.

Lemma at_node_Dir n p d : at_node (n :: p) (Some (Dir d)) = file_at n p d.
Proof. done. Qed.

Lemma node_kept t to now : wf t -> wf_node to -> node_moved (Some t) to (mkMoved false (Some t) to now).
Proof. intros Ht Hto. split; [by intros ? [= <-] |]. split; [done |]. split; [by left | done]. Qed.

(** The end of a directory's move, for a destination holding the files of [inside]. *)
Lemma directory_node_moved d to inside o s e k gone k' :
  (forall p, at_node p (Some (Dir inside)) = at_node p to) ->
  directory_moved d inside (mkMoved o s e k) -> (gone = true -> o = true) ->
  node_moved (Some (Dir d)) to (mkMoved o (if gone then None else Some (Dir s)) (Some (Dir e)) k').
Proof.
  intros Heq (Hs & He & Hmv & Hok) Hgone. cbn [ok source destination] in *.
  assert (Hempty : o = true -> forall p, at_node p (Some (Dir s)) = None) by (intros Ho [| n p]; [done | by apply Hok]).
  split; [destruct gone; [done | by apply wf_Dir_node] |]. split; [by apply wf_Dir_node |]. split.
  - intros p. cbn [source destination]. rewrite <- Heq.
    replace (at_node p (if gone then None else Some (Dir s))) with (at_node p (Some (Dir s)))
      by (destruct gone; [by rewrite Hempty by auto | done]).
    destruct p as [| n p]; [by left | apply Hmv].
  - intros Ho p. cbn [source]. destruct gone; [done | by apply Hempty].
Qed.

Lemma moveEntry_sound disk t : move_sound (moveEntry disk) t.
Proof.
  induction t as [c | d IH] using tree_nested_ind; intros to now Hwf Hto; cbn [moveEntry].
  - destruct to as [t' |]; [by apply node_kept |].
    destruct (renameWithRetry disk now) as [[] now']; [| by apply node_kept].
    split; [done |]. split; [by intros ? [= <-] |]. split; [intros p; by right | done].
  - assert (Hd : wf_directory d) by by apply wf_dir_iff.
    destruct (match to with Some (Dir _) => _ | Some (File _) => _ | None => _ end) as [[inside |] now'] eqn:Hto';
      [| by apply node_kept].
    assert (Hin : wf_directory inside /\ forall p, at_node p (Some (Dir inside)) = at_node p to).
    { destruct to as [[c | e] |].
      - done.
      - injection Hto' as -> _. split; [by apply wf_dir_iff, Hto | done].
      - destruct (disk now); [| done]. injection Hto' as <- _. by split; [repeat constructor | intros []]. }
    destruct Hin as [Hin Heq]. destruct (move_entries_sound _ _ IH inside now' Hd Hin) as (_ & Hmv).
    destruct (move_entries _ d inside now') as [o s e k]. cbn [ok source destination calls].
    destruct o; cbn [negb].
    + by apply (directory_node_moved _ _ inside _ _ _ k).
    + by apply (directory_node_moved _ _ inside false _ _ k false).
Qed.

(** Moving the entry [name] leaves the others alone. *)
Lemma move_named_sound disk name from to now :
  wf_directory from -> wf_directory to ->
  let r := move_named disk name from to now in
  wf_directory (source r) /\ wf_directory (destination r)
  /\ (forall n p, moves (file_at n p from) (file_at n p to) (file_at n p (source r)) (file_at n p (destination r)))
  /\ (forall n p, n <> name -> file_at n p (source r) = file_at n p from /\ file_at n p (destination r) = file_at n p to)
  /\ (ok r = true -> forall p, file_at name p (source r) = None).
Proof.
  intros Hfrom Hto r. subst r. unfold move_named. destruct (find_entry name from) as [t |] eqn:Hf.
  2: { cbn [ok source destination]. do 2 (split; [done |]). split; [by left | done]. }
  pose proof (wf_find name from Hfrom) as Ht. rewrite Hf in Ht.
  destruct (moveEntry_sound disk t (find_entry name to) now (Ht t eq_refl) (wf_find name to Hto)) as (Hs & Hd & Hmv & Hok).
  set (r := moveEntry disk t (find_entry name to) now) in *. cbn [ok source destination].
  split; [by apply wf_put |]. split; [by apply wf_put |]. split; [| split].
  - intros n p. rewrite !file_at_put by done. case_decide; [| by left]. subst n. unfold file_at. rewrite Hf. apply Hmv.
  - intros n p Hn. by rewrite !file_at_put, !decide_False by done.
  - intros Ho p. rewrite file_at_put, decide_True by done. by apply Hok.
Qed.

(** ** What installing does to the files *)

Definition wf_install (s : Install) : Prop :=
  wf_directory (root s) /\ wf_directory (payload s) /\ wf_directory (backup s).

(** The files of a path in the three directories. *)
Definition copies (n : text) (p : list text) (s : Install) : list (option text) :=
  [file_at n p (root s); file_at n p (payload s); file_at n p (backup s)].

(** Different names, and the files of every path in some order. *)
Definition same_files (s s' : Install) : Prop := wf_install s' /\ forall n p, copies n p s' ≡ₚ copies n p s.

Lemma moves_near f t f' t' (x : option text) : moves f t f' t' -> [f'; t'; x] ≡ₚ [f; t; x].
Proof. intros [[-> ->] | (-> & -> & ->)]; [done | apply perm_swap]. Qed.

Lemma moves_far f t f' t' (x : option text) : moves f t f' t' -> [f'; x; t'] ≡ₚ [f; x; t].
Proof. intros [[-> ->] | (-> & -> & ->)]; [done | apply (Permutation_rev [None; x; f])]. Qed.

Lemma same_files_trans s1 s2 s3 : same_files s1 s2 -> same_files s2 s3 -> same_files s1 s3.
Proof. intros [_ H1] [? H2]. split; [done |]. intros n p. by rewrite H2. Qed.

Lemma back_up_same disk s name : wf_install s -> same_files s (back_up disk s name).2.
Proof.
  intros (Hr & Hp & Hb). destruct (move_named_sound disk name _ _ (at_call s) Hr Hb) as (? & ? & Hmv & _).
  split; [done |]. intros n p. by apply moves_far.
Qed.

Lemma move_in_same disk s name : wf_install s -> same_files s (move_in disk s name).2.
Proof.
  intros (Hr & Hp & Hb). destruct (move_named_sound disk name _ _ (at_call s) Hp Hr) as (? & ? & Hmv & _).
  split; [done |]. intros n p. unfold copies. rewrite perm_swap, (perm_swap (file_at n p (payload s))). by apply moves_near.
Qed.

Lemma restore_installed_same undo s name : wf_install s -> same_files s (restore_installed undo s name).
Proof.
  intros (Hr & Hp & Hb). destruct (move_named_sound undo name _ _ (at_call s) Hr Hp) as (? & ? & Hmv & _).
  split; [done |]. intros n p. by apply moves_near.
Qed.

Lemma restore_backup_same undo s name : wf_install s -> same_files s (restore_backup undo s name).
Proof.
  intros (Hr & Hp & Hb). destruct (move_named_sound undo name _ _ (at_call s) Hb Hr) as (? & ? & Hmv & _).
  split; [done |]. intros n p. specialize (Hmv n p). unfold copies.
  rewrite (Permutation_rev [file_at n p (root s); _; _]).
  rewrite (Permutation_rev [file_at n p (root (restore_backup undo s name)); _; _]). simpl. by apply moves_far.
Qed.

Lemma foldl_same (f : Install -> text -> Install) names s :
  (forall s name, wf_install s -> same_files s (f s name)) -> wf_install s -> same_files s (foldl f s names).
Proof.
  intros Hf. revert s. induction names as [| n names IH]; intros s Hs; [done |].
  pose proof (Hf s n Hs) as Hn. eapply same_files_trans; [exact Hn | apply IH, Hn].
Qed.

Lemma rollback_same undo installed backed_up s : wf_install s -> same_files s (rollback undo installed backed_up s).
Proof.
  intros Hs. pose proof (foldl_same _ (rev installed) s (restore_installed_same undo) Hs) as Hi.
  eapply same_files_trans; [exact Hi | apply foldl_same; [apply restore_backup_same | apply Hi]].
Qed.

Lemma install_names_same disk undo names installed backed_up s :
  wf_install s -> same_files s (install_names disk undo names installed backed_up s).2.
Proof.
  revert installed backed_up s. induction names as [| name names IH]; intros installed backed_up s Hs; [done |].
  cbn [install_names].
  assert (Hback : forall backed s' b',
    match find_entry name (root s) with
    | Some _ => let '(backed, s) := back_up disk s name in (backed, s, backed_up ++ [name])
    | None => (true, s, backed_up)
    end = (backed, s', b') -> same_files s s').
  { intros backed s' b'. pose proof (back_up_same disk s name Hs) as H.
    destruct (find_entry name (root s)); [destruct (back_up disk s name) |]; by intros [= _ <- _]. }
  destruct (match find_entry name (root s) with Some _ => _ | None => _ end) as [[backed s1] b1].
  specialize (Hback _ _ _ eq_refl). destruct backed; cbn [negb].
  2: { eapply same_files_trans; [exact Hback | apply rollback_same, Hback]. }
  pose proof (move_in_same disk s1 name (proj1 Hback)) as Hin. destruct (move_in disk s1 name) as [moved s2].
  assert (Hs2 : same_files s s2) by (by eapply same_files_trans).
  eapply same_files_trans; [exact Hs2 |]. destruct moved; cbn [negb]; [apply IH, Hs2 | apply rollback_same, Hs2].
Qed.

(** C8 Whatever calls of the disk fail, while installing and while rolling
    back, no file is lost, copied or overwritten: of every path, the root, the
    payload and the backup still hold the same files, in some order. *)
Theorem install_conserves_files disk undo mkpath_ok s n p :
  wf_install s -> copies n p (applyPayload disk undo mkpath_ok s).2 ≡ₚ copies n p s.
Proof.
  intros Hs. unfold applyPayload. destruct mkpath_ok; [| done]. by apply install_names_same.
Qed.

(** ** An install that succeeds *)

Definition backed_up_entry disk (s : Install) (name : text) (backed_up : list text) : bool * Install * list text :=
  match find_entry name (root s) with
  | Some _ => let '(backed, s) := back_up disk s name in (backed, s, backed_up ++ [name])
  | None => (true, s, backed_up)
  end.

Lemma backed_up_entry_same disk s name b backed s' b' :
  wf_install s -> backed_up_entry disk s name b = (backed, s', b') -> same_files s s'.
Proof.
  intros Hs. unfold backed_up_entry. pose proof (back_up_same disk s name Hs) as H.
  destruct (find_entry name (root s)); [destruct (back_up disk s name) |]; by intros [= _ <- _].
Qed.

Lemma backed_up_entry_done disk s name b s' b' n p :
  wf_install s -> backed_up_entry disk s name b = (true, s', b') ->
  file_at n p (root s') = (if decide (n = name) then None else file_at n p (root s))
  /\ payload s' = payload s
  /\ file_at n p (backup s') = (if decide (n = name) then union (file_at n p (root s)) (file_at n p (backup s))
                                else file_at n p (backup s)).
Proof.
  intros (Hr & _ & Hb). unfold backed_up_entry. destruct (find_entry name (root s)) as [t |] eqn:Hf.
  - unfold back_up. intros [= Ho <- _]. cbn [root payload backup].
    destruct (move_named_sound disk name _ _ (at_call s) Hr Hb) as (_ & _ & Hmv & Hother & Hdone). cbn zeta in *.
    specialize (Hmv n p). case_decide as Hn.
    + subst n. rewrite (Hdone Ho) in *. repeat split. by apply moves_done.
    + destruct (Hother n p Hn) as [-> ->]. done.
  - intros [= <- _]. case_decide as Hn; [| done]. subst n. unfold file_at. rewrite Hf. simpl.
    by destruct (at_node p _).
Qed.

Lemma move_in_done disk s name s' n p :
  wf_install s -> move_in disk s name = (true, s') -> file_at name p (root s) = None ->
  file_at n p (root s') = (if decide (n = name) then file_at n p (payload s) else file_at n p (root s))
  /\ file_at n p (payload s') = (if decide (n = name) then None else file_at n p (payload s))
  /\ backup s' = backup s.
Proof.
  intros (Hr & Hp & _). unfold move_in. intros [= Ho <-] Hfree. cbn [root payload backup].
  destruct (move_named_sound disk name _ _ (at_call s) Hp Hr) as (_ & _ & Hmv & Hother & Hdone). cbn zeta in *.
  specialize (Hmv n p). case_decide as Hn.
  - subst n. rewrite (Hdone Ho), Hfree in *. apply moves_done in Hmv as ->. by destruct (file_at name p (payload s)).
  - destruct (Hother n p Hn) as [-> ->]. done.
Qed.

Lemma install_names_done disk undo names installed b s s' n p :
  NoDup names -> wf_install s -> install_names disk undo names installed b s = (true, s') ->
  file_at n p (root s') = (if decide (n ∈ names) then file_at n p (payload s) else file_at n p (root s))
  /\ file_at n p (payload s') = (if decide (n ∈ names) then None else file_at n p (payload s))
  /\ file_at n p (backup s') = (if decide (n ∈ names) then union (file_at n p (root s)) (file_at n p (backup s))
                                else file_at n p (backup s)).
Proof.
  revert installed b s. induction names as [| name names IH]; intros installed b s Hnames Hs; cbn [install_names].
  { by intros [= <-]. }
  apply NoDup_cons in Hnames as [Hname Hnames]. fold (backed_up_entry disk s name b).
  destruct (backed_up_entry disk s name b) as [[backed s1] b1] eqn:Hb. destruct backed; cbn [negb]; [| done].
  pose proof (backed_up_entry_same _ _ _ _ _ _ _ Hs Hb) as [Hs1 _].
  pose proof (move_in_same disk s1 name Hs1) as [Hs2 _].
  destruct (move_in disk s1 name) as [moved s2] eqn:Hm. destruct moved; cbn [negb]; [| done].
  intros (-> & -> & ->)%IH; [| done | done]. cbn [snd] in Hs2.
  assert (Hfree : file_at name p (root s1) = None).
  { destruct (backed_up_entry_done _ _ _ _ _ _ name p Hs Hb) as [-> _]. by rewrite decide_True. }
  destruct (move_in_done _ _ _ _ n p Hs1 Hm Hfree) as (-> & -> & ->).
  destruct (backed_up_entry_done _ _ _ _ _ _ n p Hs Hb) as (-> & -> & ->).
  destruct (decide (n = name)) as [-> | Hn].
  - by rewrite !(decide_False (P := name ∈ names)), !(decide_True (P := name ∈ name :: names)) by (done || left).
  - destruct (decide (n ∈ names)) as [Hin | Hin].
    + by rewrite !(decide_True (P := n ∈ name :: names)) by by right.
    + by rewrite !(decide_False (P := n ∈ name :: names)) by (rewrite elem_of_cons; tauto).
Qed.

(** After a successful install the root holds the payload's files below the
    payload's entries and its own old files elsewhere, the payload is empty, and
    the old files below the payload's entries are in the backup, beside what it
    held. *)
Theorem install_success disk undo mkpath_ok s s' n p :
  wf_install s -> applyPayload disk undo mkpath_ok s = (true, s') ->
  file_at n p (root s') = (if decide (n ∈ (payload s).*1) then file_at n p (payload s) else file_at n p (root s))
  /\ file_at n p (payload s') = None
  /\ file_at n p (backup s') = (if decide (n ∈ (payload s).*1) then union (file_at n p (root s)) (file_at n p (backup s))
                                else file_at n p (backup s)).
Proof.
  intros Hs. unfold applyPayload. destruct mkpath_ok; cbn [negb]; [| done].
  intros H. apply (install_names_done _ _ _ _ _ _ _ n p) in H as (-> & -> & ->); [| apply Hs | done].
  split; [done |]. split; [| done]. case_decide as Hn; [done |].
  unfold file_at. by rewrite find_entry_None.
Qed.

(** ** An install that is rolled back *)

(** Moving a file takes all of it to a free place, or nothing. *)
Lemma move_named_file disk name c from to now :
  wf_directory from -> wf_directory to -> find_entry name from = Some (File c) ->
  let r := move_named disk name from to now in
  (ok r = true /\ find_entry name to = None
   /\ forall n, find_entry n (source r) = (if decide (n = name) then None else find_entry n from)
             /\ find_entry n (destination r) = (if decide (n = name) then Some (File c) else find_entry n to))
  \/ (ok r = false /\ forall n, find_entry n (source r) = find_entry n from /\ find_entry n (destination r) = find_entry n to).
Proof.
  intros [Hfrom _] [Hto _] Hf. unfold move_named. rewrite Hf. cbn [moveEntry].
  assert (Hsame : forall n, find_entry n (put_entry name (Some (File c)) from) = find_entry n from
                         /\ find_entry n (put_entry name (find_entry name to) to) = find_entry n to).
  { intros n. rewrite !find_put by done. split; case_decide; by subst. }
  destruct (find_entry name to) as [t |]; [by right |].
  destruct (renameWithRetry disk now) as [[] now']; [| by right]. left. split; [done |]. split; [done |].
  intros n. cbn [source destination]. by rewrite !find_put.
Qed.

Lemma move_named_file_free name c from to now :
  wf_directory from -> wf_directory to -> find_entry name from = Some (File c) -> find_entry name to = None ->
  let r := move_named (fun _ => true) name from to now in
  forall n, find_entry n (source r) = (if decide (n = name) then None else find_entry n from)
         /\ find_entry n (destination r) = (if decide (n = name) then Some (File c) else find_entry n to).
Proof.
  intros Hfrom Hto Hf Hfree r. destruct (move_named_file (fun _ => true) name c from to now Hfrom Hto Hf) as [(_ & _ & H) | [H _]]; [done |].
  unfold move_named in H. rewrite Hf, Hfree in H. done.
Qed.

Definition file_entry (name : text) (d : directory) : Prop := exists c, find_entry name d = Some (File c).

Lemma restore_installed_all l s :
  NoDup l -> wf_install s -> (forall n, n ∈ l -> file_entry n (root s) /\ find_entry n (payload s) = None) ->
  let s' := foldl (restore_installed (fun _ => true)) s l in
  wf_install s'
  /\ forall n, find_entry n (root s') = (if decide (n ∈ l) then None else find_entry n (root s))
            /\ find_entry n (payload s') = (if decide (n ∈ l) then find_entry n (root s) else find_entry n (payload s))
            /\ backup s' = backup s.
Proof.
  revert s. induction l as [| name l IH]; intros s Hl Hs Hfiles; [done |]. cbn [foldl].
  apply NoDup_cons in Hl as [Hname Hl]. pose proof (restore_installed_same (fun _ => true) s name Hs) as [Hs1 _].
  destruct (Hfiles name) as [[c Hc] Hfree]; [left |].
  pose proof (move_named_file_free name c (root s) (payload s) (at_call s) (proj1 Hs) (proj1 (proj2 Hs)) Hc Hfree) as Hmv.
  destruct (IH (restore_installed (fun _ => true) s name) Hl Hs1) as [Hs2 H2].
  { intros n Hn. destruct (Hmv n) as [Hmr Hmp]. destruct (Hfiles n) as [[c' Hc'] Hf']; [by right |].
    assert (n <> name) by congruence. rewrite decide_False in Hmr, Hmp by done. split; [| by rewrite <- Hf', <- Hmp].
    exists c'. by rewrite <- Hc', <- Hmr. }
  split; [exact Hs2 |]. intros n. destruct (H2 n) as (-> & -> & ->). destruct (Hmv n) as [Hmr Hmp].
  unfold restore_installed. cbn [root payload backup]. rewrite Hmr, Hmp.
  destruct (decide (n = name)) as [-> | Hn].
  - by rewrite !(decide_False (P := name ∈ l)), !(decide_True (P := name ∈ name :: l)) by (done || left).
  - destruct (decide (n ∈ l)) as [Hin | Hin].
    + by rewrite !(decide_True (P := n ∈ name :: l)) by by right.
    + by rewrite !(decide_False (P := n ∈ name :: l)) by (rewrite elem_of_cons; tauto).
Qed.

Lemma restore_backup_all l s :
  NoDup l -> wf_install s -> (forall n, n ∈ l -> file_entry n (backup s) /\ find_entry n (root s) = None) ->
  let s' := foldl (restore_backup (fun _ => true)) s l in
  forall n, find_entry n (root s') = (if decide (n ∈ l) then find_entry n (backup s) else find_entry n (root s))
         /\ payload s' = payload s
         /\ find_entry n (backup s') = (if decide (n ∈ l) then None else find_entry n (backup s)).
Proof.
  (* the same moves, seen with the backup as the root and the root as the payload *)
  intros Hl (Hr & Hp & Hb) Hfiles s'.
  set (turn := fun s : Install => mkInstall (backup s) (root s) (payload s) (at_call s)).
  assert (Hturn : forall l s, turn (foldl (restore_backup (fun _ => true)) s l)
                              = foldl (restore_installed (fun _ => true)) (turn s) l).
  { clear. induction l as [| n l IH]; intros s; [done |]. cbn [foldl]. by rewrite IH. }
  destruct (restore_installed_all l (turn s) Hl (conj Hb (conj Hr Hp)) Hfiles) as [_ H].
  intros n. destruct (H n) as (H1 & H2 & H3). rewrite <- Hturn in H1, H2, H3. done.
Qed.

(** What the names done so far left, starting at [s0]. *)
Definition installed_so_far (s0 : Install) (installed backed_up : list text) (s : Install) : Prop :=
  wf_install s /\ NoDup installed /\ NoDup backed_up
  /\ (forall n, n ∈ installed -> file_entry n (payload s0) /\ (n ∈ backed_up \/ find_entry n (root s0) = None))
  /\ (forall n, n ∈ backed_up -> file_entry n (root s0) /\ find_entry n (backup s0) = None)
  /\ forall n,
       find_entry n (root s) = (if decide (n ∈ installed) then find_entry n (payload s0)
                                else if decide (n ∈ backed_up) then None else find_entry n (root s0))
       /\ find_entry n (payload s) = (if decide (n ∈ installed) then None else find_entry n (payload s0))
       /\ find_entry n (backup s) = (if decide (n ∈ backed_up) then find_entry n (root s0) else find_entry n (backup s0)).

(** The three directories hold the same entries. *)
Definition restored (s s' : Install) : Prop :=
  forall n, find_entry n (root s') = find_entry n (root s) /\ find_entry n (payload s') = find_entry n (payload s)
         /\ find_entry n (backup s') = find_entry n (backup s).

Lemma elem_of_rev (l : list text) n : n ∈ rev l <-> n ∈ l.
Proof. by rewrite !list_elem_of_In, <- in_rev. Qed.

Lemma NoDup_rev_text (l : list text) : NoDup l -> NoDup (rev l).
Proof. by rewrite <- (Permutation_rev l). Qed.

Lemma decide_rev {A} (l : list text) n (x y : A) : (if decide (n ∈ rev l) then x else y) = if decide (n ∈ l) then x else y.
Proof. destruct (decide (n ∈ rev l)) as [H | H]; rewrite elem_of_rev in H; [by rewrite decide_True | by rewrite decide_False]. Qed.

Lemma rollback_restores s0 installed backed_up s :
  installed_so_far s0 installed backed_up s -> restored s0 (rollback (fun _ => true) installed backed_up s).
Proof.
  intros (Hs & Hi & Hb & Hinst & Hback & Hfind). unfold rollback.
  destruct (restore_installed_all (rev installed) s) as [Hs1 H1]; [by apply NoDup_rev_text | done | |].
  { intros n Hn%(proj1 (elem_of_rev _ _)). destruct (Hfind n) as (Hr & Hp & _).
    rewrite decide_True in Hr, Hp by done. destruct (Hinst n Hn) as [[c Hc] _]. split; [exists c; congruence | done]. }
  set (s1 := foldl _ s _) in *. clearbody s1.
  assert (Hroot : forall n, n ∈ backed_up -> find_entry n (root s1) = None).
  { intros n Hn. destruct (H1 n) as (-> & _). rewrite decide_rev. case_decide; [done |].
    destruct (Hfind n) as (-> & _). by rewrite decide_False, decide_True. }
  pose proof (restore_backup_all (rev backed_up) s1 (NoDup_rev_text _ Hb) Hs1) as H2. cbn zeta in H2.
  intros n. destruct H2 with (n := n) as (-> & -> & ->).
  { intros m Hm%(proj1 (elem_of_rev _ _)). split; [| by apply Hroot]. destruct (H1 m) as (_ & _ & ->).
    destruct (Hfind m) as (_ & _ & Hm'). rewrite decide_True in Hm' by done.
    destruct (Hback m Hm) as [[c Hc] _]. exists c. congruence. }
  rewrite !decide_rev. destruct (H1 n) as (-> & -> & ->). rewrite !decide_rev. destruct (Hfind n) as (-> & -> & ->).
  split; [| split].
  - destruct (decide (n ∈ backed_up)); [done |]. destruct (decide (n ∈ installed)) as [Hn |]; [| done].
    by destruct (Hinst n Hn) as [_ [? | ->]].
  - by destruct (decide (n ∈ installed)).
  - destruct (decide (n ∈ backed_up)) as [Hn |]; [| done]. by destruct (Hback n Hn) as [_ ->].
Qed.

Lemma decide_snoc {A} (l : list text) m n (x y : A) :
  (if decide (n ∈ l ++ [m]) then x else y) = if decide (n = m) then x else if decide (n ∈ l) then x else y.
Proof.
  destruct (decide (n ∈ l ++ [m])) as [H | H]; rewrite elem_of_app, list_elem_of_singleton in H;
    repeat case_decide; tauto.
Qed.

Lemma NoDup_snoc (l : list text) n : NoDup l -> n ∉ l -> NoDup (l ++ [n]).
Proof.
  intros Hl Hn. apply NoDup_app. split; [done |]. split; [| apply NoDup_singleton].
  intros x Hx ->%list_elem_of_singleton. done.
Qed.

(** The old entry of a new name is backed up whole, or stays. *)
Lemma backed_up_so_far disk s0 installed b s name backed s' b' :
  installed_so_far s0 installed b s -> name ∉ installed -> name ∉ b ->
  (forall t, find_entry name (root s0) = Some t -> exists c, t = File c) ->
  backed_up_entry disk s name b = (backed, s', b') ->
  (backed = true /\ installed_so_far s0 installed b' s'
   /\ find_entry name (root s') = None /\ (name ∈ b' \/ find_entry name (root s0) = None)
   /\ forall n, n <> name -> n ∈ b' -> n ∈ b)
  \/ (backed = false /\ installed_so_far s0 installed b s').
Proof.
  intros (Hs & Hi & Hb & Hinst & Hback & Hfind) Hni Hnb Hfile.
  pose proof (backed_up_entry_same disk s name b backed s' b' Hs) as Hsame. unfold backed_up_entry in *.
  destruct (Hfind name) as (Hr & Hp & Hk). rewrite !decide_False in Hr by done. rewrite decide_False in Hk by done. rewrite Hr in *.
  destruct (find_entry name (root s0)) as [t |] eqn:Hold.
  2: { intros [= <- <- <-]. left. split; [done |]. split; [done |]. split; [done |]. split; [by right | done]. }
  destruct (Hfile t eq_refl) as [c ->].
  unfold back_up in *. intros Heq. specialize (Hsame Heq) as [Hs' _]. injection Heq as <- <- <-.
  destruct (move_named_file disk name c (root s) (backup s) (at_call s) (proj1 Hs) (proj2 (proj2 Hs)) Hr)
    as [(Ho & Hfree & Hmv) | (Ho & Hmv)]; cbn zeta in *; [left | right].
  - split; [done |]. split.
    + split; [done |]. split; [done |]. split; [by apply NoDup_snoc |]. split; [| split].
      * intros n Hn. destruct (Hinst n Hn) as [? [? | ?]]; (split; [done |]); [left; set_solver | by right].
      * intros n [Hn | ->%list_elem_of_singleton]%elem_of_app; [by apply Hback |]. split; [by exists c |]. congruence.
      * intros n. cbn [root payload backup]. destruct (Hmv n) as [-> ->]. destruct (Hfind n) as (-> & -> & ->).
        rewrite !decide_snoc. destruct (decide (n = name)) as [-> |]; [| done].
        by rewrite !(decide_False (P := name ∈ installed)), Hold by done.
    + cbn [root]. destruct (Hmv name) as [-> _]. rewrite decide_True by done. split; [done |].
      split; [left; set_solver |]. intros n Hn [? | ->%list_elem_of_singleton]%elem_of_app; done.
  - split; [done |]. split; [done |]. do 4 (split; [done |]). intros n. cbn [root payload backup].
    destruct (Hmv n) as [-> ->]. apply Hfind.
Qed.

(** The new entry moves in whole, or stays in the payload. *)
Lemma move_in_so_far disk s0 installed b s name moved s' :
  installed_so_far s0 installed b s -> name ∉ installed -> file_entry name (payload s0) ->
  find_entry name (root s) = None -> (name ∈ b \/ find_entry name (root s0) = None) ->
  move_in disk s name = (moved, s') ->
  installed_so_far s0 (if moved then installed ++ [name] else installed) b s'.
Proof.
  intros (Hs & Hi & Hb & Hinst & Hback & Hfind) Hni [c Hc] Hfree Hold Heq.
  pose proof (move_in_same disk s name Hs) as [Hs' _]. unfold move_in in *. cbn [snd] in Hs'.
  destruct (Hfind name) as (_ & Hp & _). rewrite decide_False, Hc in Hp by done.
  injection Heq as <- <-.
  destruct (move_named_file disk name c (payload s) (root s) (at_call s) (proj1 (proj2 Hs)) (proj1 Hs) Hp)
    as [(-> & _ & Hmv) | (-> & Hmv)]; cbn zeta in *.
  - split; [done |]. split; [by apply NoDup_snoc |]. split; [done |]. split; [| split; [done |]].
    + intros n [Hn | ->%list_elem_of_singleton]%elem_of_app; [by apply Hinst |]. split; [by exists c | done].
    + intros n. cbn [root payload backup]. destruct (Hmv n) as [-> ->]. destruct (Hfind n) as (-> & -> & ->).
      rewrite !decide_snoc. by destruct (decide (n = name)) as [-> |].
  - split; [done |]. do 4 (split; [done |]). intros n. cbn [root payload backup].
    destruct (Hmv n) as [-> ->]. apply Hfind.
Qed.

Lemma install_names_restored disk names s0 installed b s s' :
  NoDup names -> installed_so_far s0 installed b s ->
  (forall n, n ∈ names -> n ∉ installed /\ n ∉ b) ->
  (forall n, n ∈ names -> file_entry n (payload s0)) ->
  (forall n t, n ∈ names -> find_entry n (root s0) = Some t -> exists c, t = File c) ->
  install_names disk (fun _ => true) names installed b s = (false, s') -> restored s0 s'.
Proof.
  revert installed b s. induction names as [| name names IH]; intros installed b s Hnames Hsf Hnew Hpay Hroot;
    cbn [install_names]; [done |].
  apply NoDup_cons in Hnames as [Hname Hnames]. fold (backed_up_entry disk s name b).
  destruct (Hnew name) as [Hni Hnb]; [left |].
  destruct (backed_up_entry disk s name b) as [[backed s1] b1] eqn:Hbe.
  destruct (backed_up_so_far _ _ _ _ _ _ _ _ _ Hsf Hni Hnb (fun t => Hroot name t ltac:(left)) Hbe)
    as [(-> & Hsf1 & Hfree & Hold & Hb1) | (-> & Hsf1)]; cbn [negb].
  2: { intros [= <-]. by apply rollback_restores. }
  destruct (move_in disk s1 name) as [moved s2] eqn:Hm.
  pose proof (move_in_so_far _ _ _ _ _ _ _ _ Hsf1 Hni (Hpay name ltac:(left)) Hfree Hold Hm) as Hsf2.
  destruct moved; cbn [negb].
  - apply IH; [done | done | | set_solver | set_solver].
    intros n Hn. destruct (Hnew n) as [Hn1 Hn2]; [by right |]. assert (n <> name) by congruence. set_solver.
  - intros [= <-]. by apply rollback_restores.
Qed.

(** C16 An install of files over files that fails, whatever call failed, leaves
    the root, the payload and the backup with the entries they had, when the
    moves back do not fail. *)
Theorem failed_install_restored disk mkpath_ok s s' :
  wf_install s -> (forall n, n ∈ (payload s).*1 -> file_entry n (payload s)) ->
  (forall n t, n ∈ (payload s).*1 -> find_entry n (root s) = Some t -> exists c, t = File c) ->
  applyPayload disk (fun _ => true) mkpath_ok s = (false, s') -> restored s s'.
Proof.
  intros Hs Hpay Hroot. unfold applyPayload. destruct mkpath_ok; cbn [negb]; [| by intros [= <-]].
  apply install_names_restored; [apply Hs | | set_solver | done | done].
  split; [done |]. do 2 (split; [constructor |]). repeat split; set_solver.
Qed.

(** ** The image of an AppImage *)

(** Replacing the image puts the downloaded file in its place and the old one
    in the backup; a failure leaves both where they were, but for an image that
    cannot be put back, which the backup then holds. *)
Theorem image_replaced disk mkpath_ok s :
  let r := applyImageFile disk mkpath_ok s in
  match image s, downloaded s with
  | Some old, Some new =>
      if r.1 then image r.2 = Some new /\ downloaded r.2 = None /\ old_image r.2 = Some old
      else downloaded r.2 = Some new
           /\ (image r.2 = Some old /\ (old_image r.2 = old_image s \/ old_image r.2 = None)
               \/ image r.2 = None /\ old_image r.2 = Some old)
  | _, _ => r = (false, s)
  end.
Proof.
  unfold applyImageFile. destruct (image s) as [old |] eqn:Hi; [| done]. destruct (downloaded s) as [new |] eqn:Hd; [| done].
  destruct mkpath_ok; cbn [negb]; [| simpl; rewrite Hi, Hd; tauto].
  destruct (if disk (image_call s) then None else old_image s) as [left |] eqn:Hleft.
  { assert (old_image s = Some left) by (by destruct (disk (image_call s))). simpl. repeat split. left. split; [done | by left]. }
  destruct (renameWithRetry disk (image_call s + 1)) as [[] now]; cbn [negb].
  2: { simpl. split; [done |]. left. split; [done | by right]. }
  destruct (renameWithRetry disk now) as [[] now']; [done |].
  destruct (renameWithRetry disk now') as [[] now'']; simpl; (split; [done |]); [left; split; [done | by right] | by right].
Qed.

(** ** A sample *)

Definition name_app : text := chars "app.exe".
Definition name_dll : text := chars "core.dll".

(** A payload of two files, one of them new to the root. *)
Definition sample_files : Install :=
  mkInstall [(name_app, File (chars "1"))] [(name_app, File (chars "2")); (name_dll, File (chars "3"))] [] 0.

(** The disk fails from call [k] on. *)
Definition fails_from (k n : nat) : bool := n <? k.

Lemma sample_wf : wf_install sample_files.
Proof.
  split; [| split]; (split; [by apply (bool_decide_unpack _); vm_compute |]); repeat constructor.
Qed.

Lemma install_conserves_files_witness :
  wf_install sample_files
  /\ copies name_dll [] (applyPayload (fails_from 2) (fails_from 6) true sample_files).2 ≡ₚ copies name_dll [] sample_files.
Proof. split; [exact sample_wf | apply (install_conserves_files (fails_from 2) (fails_from 6)), sample_wf]. Defined.

Lemma install_success_witness :
  exists s', applyPayload (fails_from 3) (fun _ => false) true sample_files = (true, s')
  /\ file_at name_app [] (root s') = Some (chars "2") /\ file_at name_app [] (backup s') = Some (chars "1").
Proof.
  eexists. split; [reflexivity |].
  assert (H : applyPayload (fails_from 3) (fun _ => false) true sample_files = (true, _)) by reflexivity.
  apply (install_success _ _ _ _ _ name_app []) in H as (-> & _ & ->); [| exact sample_wf]. by vm_compute.
Defined.

Lemma failed_install_restored_witness :
  exists s', applyPayload (fails_from 2) (fun _ => true) true sample_files = (false, s') /\ restored sample_files s'.
Proof.
  eexists. split; [reflexivity |]. apply (failed_install_restored (fails_from 2) true); [exact sample_wf | | | reflexivity].
  - intros n Hn. apply elem_of_cons in Hn as [-> | Hn%list_elem_of_singleton]; [| subst]; by eexists.
  - intros n t Hn Ht. apply elem_of_cons in Hn as [-> | Hn%list_elem_of_singleton]; [| subst n; by vm_compute in Ht].
    vm_compute in Ht. injection Ht as <-. by eexists.
Defined.

(** A directory whose move fails half-way is in neither of the two lists, and the
    rollback does not move it back: the root has lost a file to the backup
    although every call but the failing ones succeeded. *)
Definition sample_directory : Install :=
  mkInstall [(name_dll, Dir [(name_app, File (chars "1")); (name_dll, File (chars "2"))])]
    [(name_dll, Dir [(name_app, File (chars "3"))])] [] 0.

Lemma directory_not_restored :
  let r := applyPayload (fails_from 2) (fun _ => true) true sample_directory in
  r.1 = false /\ file_at name_dll [name_app] (root sample_directory) = Some (chars "1")
  /\ file_at name_dll [name_app] (root r.2) = None /\ file_at name_dll [name_app] (backup r.2) = Some (chars "1").
Proof. by vm_compute. Qed.
