(* ===== verification/SessionCommon.v ===== *)
(** * What the client's two sessions share (core/src/webrtc/google_webrtc_media_types.hpp, google_webrtc_peer_adapters.cpp)

    The states of a connection, the frames of decoded audio, the sinks a session
    attaches to remote tracks, and the connections it makes.  Connections and sinks
    are numbered in the order of their creation. *)

From Stdlib Require Export QArith.
From S2P Require Import Prelude.

Local Open Scope nat_scope.
Local Open Scope list_scope.

Inductive MediaConnectionState := New | Connecting | Connected | Disconnected | Failed | Closed.

(** The library's numbers for its states; anything else is a failure. *)
Definition to_public_connection_state (raw_state : Z) : MediaConnectionState :=
  match raw_state with
  | 0%Z => New
  | 1%Z => Connecting
  | 2%Z => Connected
  | 3%Z => Disconnected
  | 4%Z => Failed
  | 5%Z => Closed
  | _ => Failed
  end.

Record RemoteSinkBinding := mkBinding { binding_track : nat; sink_mid : string; sink : nat }.

#[export] Instance RemoteSinkBinding_eq_dec : EqDecision RemoteSinkBinding.
Proof. solve_decision. Defined.

(** What a sink hands on: the length of the span, and the format. *)
Record AudioView := mkView { samples : Z; sample_rate_hz : Z; channels : Z; frames : Z }.

(** What is handed on for decoded samples; [data]: the pointer is not null. *)
Definition audio_view (data : bool) (bits_per_sample sample_rate channels frames : Z) : option AudioView :=
  if negb data || negb (bits_per_sample =? 16)%Z || (sample_rate <=? 0)%Z
     || (channels =? 0)%Z || (frames =? 0)%Z || ((2 ^ 64 - 1) / channels <? frames)%Z
  then None
  else Some (mkView (u64 (frames * channels)) sample_rate channels frames).

(** The library's answers to a step: the success of its calls, in order, and a
    text where one is asked for. *)
Record Answer := mkAnswer { oks : nat -> bool; answer_text : option string }.

(** A double that is finite is a rational. *)
Inductive Double := Finite (q : Q) | NotFinite.

Definition usable_volume (volume : Double) : option Q :=
  match volume with
  | Finite q => if negb (Qle_bool 0 q) || negb (Qle_bool q 10) then None else Some q
  | NotFinite => None
  end.

Lemma usable_volume_range volume q : usable_volume volume = Some q -> volume = Finite q /\ (0 <= q <= 10)%Q.
Proof.
  destruct volume as [q' |]; [| done]. cbn. destruct (Qle_bool 0 q') eqn:H0; [| done].
  destruct (Qle_bool q' 10) eqn:H10; [| done]. intros [= <-]. by apply Qle_bool_iff in H0, H10.
Qed.

(** The length of a frame never wraps. *)
Lemma audio_view_exact data bits rate chans frms :
  (0 <= chans < 2 ^ 64)%Z -> (0 <= frms < 2 ^ 64)%Z ->
  audio_view data bits rate chans frms
  = if data && (bits =? 16)%Z && (0 <? rate)%Z && (0 <? chans)%Z && (0 <? frms)%Z && (frms * chans <? 2 ^ 64)%Z
    then Some (mkView (frms * chans) rate chans frms) else None.
Proof.
  intros Hc Hf. unfold audio_view. destruct data; [| done]. destruct (bits =? 16)%Z; [| done]. cbn [negb orb andb].
  destruct (Z.leb_spec rate 0); [by rewrite (proj2 (Z.ltb_ge 0 rate)) |]. rewrite (proj2 (Z.ltb_lt 0 rate)) by done.
  destruct (Z.eqb_spec chans 0) as [-> |]; [done |]. rewrite (proj2 (Z.ltb_lt 0 chans)) by lia.
  destruct (Z.eqb_spec frms 0) as [-> |]; [done |]. rewrite (proj2 (Z.ltb_lt 0 frms)) by lia. cbn [orb andb].
  destruct (Z.ltb_spec ((2 ^ 64 - 1) / chans) frms) as [Hbig | Hsmall].
  - rewrite (proj2 (Z.ltb_ge _ _)); [done |].
    assert (~ frms * chans <= 2 ^ 64 - 1)%Z; [| lia]. intros Hle.
    assert (frms <= (2 ^ 64 - 1) / chans)%Z by (apply Z.div_le_lower_bound; lia). lia.
  - assert (frms * chans <= 2 ^ 64 - 1)%Z.
    { pose proof (Z.mul_div_le (2 ^ 64 - 1) chans ltac:(lia)). nia. }
    rewrite (proj2 (Z.ltb_lt _ _)) by lia. unfold u64. rewrite wrap_small; [done |]. split; nia.
Qed.

(** ** Sinks *)

Definition remove_sink (b : RemoteSinkBinding) (bs : list RemoteSinkBinding) : list RemoteSinkBinding :=
  filter (fun b' => sink b' <> sink b) bs.

Lemma remove_sink_perm b bs rest :
  bs ≡ₚ b :: rest -> NoDup (sink <$> bs) -> remove_sink b bs ≡ₚ rest.
Proof.
  intros Hp Hn. rewrite Hp in Hn. unfold remove_sink. rewrite (filter_Permutation _ _ _ Hp).
  rewrite filter_cons_False by tauto. rewrite fmap_cons in Hn. apply NoDup_cons in Hn as [Hb _].
  clear Hp. induction rest as [| b' rest IH]; [done |]. rewrite fmap_cons in Hb. apply not_elem_of_cons in Hb as [Hne Hb].
  rewrite filter_cons_True by congruence. by rewrite IH.
Qed.

Lemma sink_ids_sub (n : nat) (bs rest : list RemoteSinkBinding) pre :
  bs ≡ₚ pre ++ rest -> NoDup (sink <$> bs) /\ Forall (fun b => sink b < n) bs ->
  NoDup (sink <$> rest) /\ Forall (fun b => sink b < n) rest.
Proof.
  intros Hp [Hn Hall]. rewrite Hp in Hn, Hall. rewrite fmap_app in Hn. apply NoDup_app in Hn as (_ & _ & Hn).
  apply Forall_app in Hall as [_ Hall]. done.
Qed.

Lemma remove_sinks_perm (n : nat) old bs rest :
  bs ≡ₚ old ++ rest -> NoDup (sink <$> bs) /\ Forall (fun b => sink b < n) bs ->
  foldl (fun bs b => remove_sink b bs) bs old ≡ₚ rest.
Proof.
  revert bs. induction old as [| b old IH]; intros bs Hp Hids; [done |]. cbn [foldl].
  pose proof (remove_sink_perm b bs (old ++ rest) Hp (proj1 Hids)) as Hr. apply IH; [done |].
  destruct (sink_ids_sub n bs (old ++ rest) [b] Hp Hids) as [Hn Hall]. by rewrite Hr.
Qed.

(** ** Connections *)

Lemma closed_perm (p : nat) (c : gset nat) : p ∉ c -> elements ({[p]} ∪ c) ≡ₚ p :: elements c.
Proof. apply elements_union_singleton. Qed.

Lemma held_fresh pcs held (c : gset nat) n p :
  pcs ++ held ++ elements c ≡ₚ seq 0 n -> p ∈ pcs ++ held -> p ∉ c.
Proof.
  intros Hp Hin Hc. assert (Hn : NoDup ((pcs ++ held) ++ elements c)) by (rewrite <- app_assoc, Hp; apply NoDup_seq).
  apply NoDup_app in Hn as (_ & Hd & _). apply (Hd p Hin). by apply elem_of_elements.
Qed.

Lemma closed_small pcs held (c : gset nat) n : pcs ++ held ++ elements c ≡ₚ seq 0 n -> n ∉ c.
Proof.
  intros Hp Hc. apply elem_of_elements in Hc.
  assert (Hin : n ∈ seq 0 n) by (rewrite <- Hp, !elem_of_app; auto).
  apply elem_of_seq in Hin. lia.
Qed.


Lemma filter_perm_length {A} (P : A -> Prop) `{forall x, Decision (P x)} (l l' : list A) :
  l ≡ₚ l' -> length (filter P l) = length (filter P l').
Proof. by intros ->. Qed.
