(* ===== verification/VoiceSession.v ===== *)
(** * The client's voice session (core/src/webrtc/google_webrtc_voice_session.cpp)

    The application's threads call the session, the WebRTC library's threads call
    back.  Every method is cut at its critical sections: what follows one is a
    [Task] that any later [act] may resume, so that calls and callbacks
    interleave at every unlock.  A task stands for a thread that runs on, or for
    an observer the library will call.  Peer connections, microphone tracks and
    sinks are numbered in the order of their creation; the text of errors is left
    out. *)

From S2P Require Import Prelude SessionCommon.

Local Open Scope nat_scope.
Local Open Scope list_scope.

(** ** Data *)

Record VoiceSessionConfig := mkConfig {
  remote_track_slots : Z;
  microphone_enabled_at_start : bool;
  max_microphone_bitrate_bps : Z;
}.

Definition kMaxRemoteTrackSlots : Z := 64.

(** Which of the callbacks are set. *)
Record VoiceSessionCallbacks := mkCallbacks {
  on_offer : bool;
  on_candidate : bool;
  on_remote_track : bool;
  on_remote_audio : bool;
  on_state : bool;
  on_error : bool;
}.

Inductive Event :=
  | StartReturned (result : bool)
  | Offered (sdp : string)
  | CandidateFound (candidate mid : string)
  | RemoteTrack (mid track_id : string)
  | RemoteAudio (mid : string) (view : AudioView)
  | StateChanged (state : MediaConnectionState)
  | StatsDelivered
  | ErrorReported
  | RemoteDescriptionSet (p : nat) (sdp : string)
  | RemoteCandidateAdded (p : nat) (candidate mid : string).

Record Session := mkSession {
  pc : option nat;
  microphone_source : option nat;
  microphone_track : option nat;
  remote_sinks : list RemoteSinkBinding;
  started : bool;
  start_attempted : bool;
  close_requested : bool;
  desired_microphone_enabled : bool;
}.

(** What the session has made the library hold. *)
Record Library := mkLibrary {
  created : nat;
  closed : gset nat;
  track_enabled : gmap nat bool;
  sinks : list RemoteSinkBinding;
  next_sink : nat;
}.

Inductive Task :=
  | Starting
  | Building (p t : nat) (enabled : bool)
  | Launching (p : nat)
  | Closing (p : option nat) (old_sinks : list RemoteSinkBinding)
  | LocalDescription (p : nat)
  | Answering (p : nat) (sdp : string)
  | RemoteDescription (p : nat)
  | AddingCandidate (p : nat) (candidate mid : string)
  | CandidateAdded (p : nat)
  | Toggling (t : nat) (enabled : bool)
  | Attaching (mid : string) (t : nat) (track_id : string)
  | Retaining (b : RemoteSinkBinding) (track_id : string)
  | Reporting (p : nat)
  | Calling (e : Event).

Record World := mkWorld { session : Session; library : Library; tasks : list Task; events : list Event }.

Definition with_session (s : Session) (w : World) : World := mkWorld s (library w) (tasks w) (events w).
Definition with_library (l : Library) (w : World) : World := mkWorld (session w) l (tasks w) (events w).
Definition spawn (t : Task) (w : World) : World := mkWorld (session w) (library w) (t :: tasks w) (events w).
Definition emit (e : Event) (w : World) : World := mkWorld (session w) (library w) (tasks w) (events w ++ [e]).

Definition close_pc (p : nat) (l : Library) : Library :=
  mkLibrary (created l) ({[p]} ∪ closed l) (track_enabled l) (sinks l) (next_sink l).

Definition set_track (t : nat) (enabled : bool) (l : Library) : Library :=
  mkLibrary (created l) (closed l) (<[t := enabled]> (track_enabled l)) (sinks l) (next_sink l).

Definition with_sinks (bs : list RemoteSinkBinding) (l : Library) : Library :=
  mkLibrary (created l) (closed l) (track_enabled l) bs (next_sink l).

Section Session.
Variable config : VoiceSessionConfig.
Variable callbacks : VoiceSessionCallbacks.
Variable runtime_ready : bool.

Definition new_session : Session :=
  mkSession None None None [] false false false (microphone_enabled_at_start config).

Definition new_world : World := mkWorld new_session (mkLibrary 0 ∅ ∅ [] 0) [] [].

Definition report_error (w : World) : World := if on_error callbacks then emit ErrorReported w else w.

Definition start_failed (w : World) : World := emit (StartReturned false) (report_error w).

(** ** start: to the first unlock *)

Definition start (w : World) : World :=
  let s := session w in
  if (kMaxRemoteTrackSlots <? remote_track_slots config)%Z then start_failed w
  else if ((max_microphone_bitrate_bps config <=? 0) || (510000 <? max_microphone_bitrate_bps config))%Z
  then start_failed w
  else if start_attempted s || close_requested s then emit (StartReturned (started s)) w
  else
    let w := with_session (mkSession (pc s) (microphone_source s) (microphone_track s) (remote_sinks s)
                             (started s) true (close_requested s) (desired_microphone_enabled s)) w in
    if runtime_ready then spawn Starting w else start_failed w.

(** The connection, the source and the track are made; then the wish for the
    microphone is read. *)
Definition start_create (a : Answer) (w : World) : World :=
  if negb (oks a 0) then start_failed w
  else
    let l := library w in
    let p := created l in
    let made := mkLibrary (created l + 1) (closed l) (track_enabled l) (sinks l) (next_sink l) in
    if negb (oks a 1) then start_failed (with_library (close_pc p made) w)
    else if negb (oks a 2) then start_failed (with_library (close_pc p made) w)
    else
      (* a new track is enabled *)
      spawn (Building p p (desired_microphone_enabled (session w))) (with_library (set_track p true made) w).

(** The transceivers are added; then the session takes the connection, unless it
    was closed. *)
Definition start_publish (p t : nat) (enabled : bool) (a : Answer) (w : World) : World :=
  let w := with_library (set_track t enabled (library w)) w in
  let s := session w in
  if negb (oks a 0) then start_failed (with_library (close_pc p (library w)) w)
  else if negb (forallb (fun i => oks a (1 + i)) (seq 0 (Z.to_nat (remote_track_slots config))))
  then start_failed (with_library (close_pc p (library w)) w)
  else if close_requested s then emit (StartReturned false) (with_library (close_pc p (library w)) w)
  else
    spawn (Launching p)
      (with_session (mkSession (Some p) (Some t) (Some t) (remote_sinks s) true (start_attempted s)
                       (close_requested s) (desired_microphone_enabled s)) w).

(** SetLocalDescription is called; its observer answers later. *)
Definition start_launch (p : nat) (w : World) : World :=
  spawn (LocalDescription p) (emit (StartReturned true) w).

(** ** close *)

Definition close (w : World) : World :=
  let s := session w in
  spawn (Closing (pc s) (remote_sinks s))
    (with_session (mkSession None None None [] false (start_attempted s) true (desired_microphone_enabled s)) w).

(** The library's calls after the unlock. *)
Definition close_rest (p : option nat) (old_sinks : list RemoteSinkBinding) (w : World) : World :=
  let l := library w in
  let l := with_sinks (foldl (fun bs b => remove_sink b bs) (sinks l) old_sinks) l in
  with_library (match p with Some p => close_pc p l | None => l end) w.

(** ** Descriptions and candidates *)

Definition current_pc (w : World) : option nat := pc (session w).

Definition owns (p : nat) (w : World) : bool := started (session w) && bool_decide (pc (session w) = Some p).

Definition on_local_description (p : nat) (a : Answer) (w : World) : World :=
  if negb (owns p w) then w
  else if negb (oks a 0) then report_error w
  else match answer_text a with
       | None => report_error w
       | Some sdp => if on_offer callbacks then spawn (Calling (Offered sdp)) w else w
       end.

Definition on_remote_description (p : nat) (a : Answer) (w : World) : World :=
  if owns p w && negb (oks a 0) then report_error w else w.

Definition apply_answer (sdp : string) (w : World) : World :=
  match current_pc w with
  | None => report_error w
  | Some p => spawn (Answering p sdp) w
  end.

Definition answer_rest (p : nat) (sdp : string) (a : Answer) (w : World) : World :=
  if negb (oks a 0) then report_error w
  else spawn (RemoteDescription p) (emit (RemoteDescriptionSet p sdp) w).

Definition add_remote_candidate (candidate mid : string) (w : World) : World :=
  match current_pc w with
  | None => report_error w
  | Some p => spawn (AddingCandidate p candidate mid) w
  end.

Definition candidate_rest (p : nat) (candidate mid : string) (a : Answer) (w : World) : World :=
  if negb (oks a 0) then report_error w
  else spawn (CandidateAdded p) (emit (RemoteCandidateAdded p candidate mid) w).

Definition on_candidate_added (p : nat) (a : Answer) (w : World) : World :=
  if owns p w && negb (oks a 0) then report_error w else w.

(** ** The microphone *)

Definition set_microphone_enabled (enabled : bool) (w : World) : World :=
  let s := session w in
  let w := with_session (mkSession (pc s) (microphone_source s) (microphone_track s) (remote_sinks s)
                           (started s) (start_attempted s) (close_requested s) enabled) w in
  match microphone_track s with
  | Some t => spawn (Toggling t enabled) w
  | None => w
  end.

(** A track that was released is disabled. *)
Definition microphone_enabled (w : World) : bool :=
  match microphone_track (session w) with
  | Some t => default false (track_enabled (library w) !! t)
  | None => desired_microphone_enabled (session w)
  end.

(** ** Callbacks of the library *)

(** [None]: no transceiver, or not an audio track with a mid. *)
Definition OnTrack (audio : option (string * nat * string)) (w : World) : World :=
  if negb (started (session w)) then w
  else match audio with
       | None => w
       | Some (mid, t, track_id) => spawn (Attaching mid t track_id) w
       end.

Definition tell_track (mid track_id : string) (w : World) : World :=
  if on_remote_track callbacks then spawn (Calling (RemoteTrack mid track_id)) w else w.

(** [attach_remote_audio_sink], to the lock *)
Definition attach_remote_audio_sink (mid : string) (t : nat) (track_id : string) (w : World) : World :=
  if negb (on_remote_audio callbacks) then tell_track mid track_id w
  else
    let l := library w in
    let b := mkBinding t mid (next_sink l) in
    spawn (Retaining b track_id)
      (with_library (mkLibrary (created l) (closed l) (track_enabled l) (b :: sinks l) (next_sink l + 1)) w).

(** and from the lock on: the sink is kept, or removed again. *)
Definition retain_sink (b : RemoteSinkBinding) (track_id : string) (w : World) : World :=
  let s := session w in
  let duplicate := bool_decide (sink_mid b ∈ sink_mid <$> remote_sinks s) in
  tell_track (sink_mid b) track_id
    (if started s && negb duplicate then
       with_session (mkSession (pc s) (microphone_source s) (microphone_track s) (remote_sinks s ++ [b])
                       (started s) (start_attempted s) (close_requested s) (desired_microphone_enabled s)) w
     else with_library (with_sinks (remove_sink b (sinks (library w))) (library w)) w).

(** Data of a sink; [data]: the pointer is not null. *)
Definition deliver_remote_audio (mid : string) (data : bool)
    (bits_per_sample sample_rate channels frames : Z) (w : World) : World :=
  if negb (on_remote_audio callbacks) then w
  else match audio_view data bits_per_sample sample_rate channels frames with
       | None => w
       | Some view => if negb (started (session w)) then w else spawn (Calling (RemoteAudio mid view)) w
       end.

Definition OnIceCandidate (candidate : option (string * string)) (w : World) : World :=
  if negb (started (session w)) then w
  else match candidate with
       | Some (c, mid) => if on_candidate callbacks then spawn (Calling (CandidateFound c mid)) w else w
       | None => w
       end.

Definition OnConnectionChange (raw_state : Z) (w : World) : World :=
  if on_state callbacks then emit (StateChanged (to_public_connection_state raw_state)) w else w.

(** [callback]: there is one. *)
Definition get_stats (callback : bool) (w : World) : World :=
  match current_pc w with
  | Some p => if callback then spawn (Reporting p) w else w
  | None => w
  end.

Definition on_stats (p : nat) (a : Answer) (w : World) : World :=
  if owns p w && oks a 0 then spawn (Calling StatsDelivered) w else w.

(** ** Remote tracks *)

(** [receiver_track]: whether it is audio, and the track. *)
Record Transceiver := mkTransceiver {
  transceiver_mid : option string;
  media_is_audio : bool;
  receiver_track : option (bool * nat);
}.

Fixpoint find_audio_track (mid : string) (ts : list Transceiver) : option nat :=
  match ts with
  | [] => None
  | t :: ts =>
    if negb (bool_decide (transceiver_mid t = Some mid)) || negb (media_is_audio t) then find_audio_track mid ts
    else match receiver_track t with
         | Some (true, track) => Some track
         | _ => None
         end
  end.

Definition remote_audio_track (mid : string) (transceivers : nat -> list Transceiver) (w : World) : option nat :=
  match current_pc w with
  | Some p => find_audio_track mid (transceivers p)
  | None => None
  end.

(** The source that is set, with its volume; [source] is that of a track. *)
Definition set_remote_track_volume (mid : string) (volume : Double) (transceivers : nat -> list Transceiver)
    (signaling_thread : bool) (source : nat -> option nat) (w : World) : option (nat * Q) :=
  q ← usable_volume volume;
  track ← remote_audio_track mid transceivers w;
  if signaling_thread then (fun s => (s, q)) <$> source track else None.

(** ** Interleaving *)

Inductive Act :=
  | CallStart
  | CallClose
  | CallApplyAnswer (sdp : string)
  | CallAddRemoteCandidate (candidate mid : string)
  | CallSetMicrophone (enabled : bool)
  | CallGetStats (callback : bool)
  | TrackArrives (audio : option (string * nat * string))
  | DataArrives (b : RemoteSinkBinding) (data : bool) (bits rate channels frames : Z)
  | CandidateGathered (candidate : option (string * string))
  | ConnectionChanges (raw_state : Z)
  | Resume (n : nat) (a : Answer).

Definition resume (t : Task) (a : Answer) (w : World) : World :=
  match t with
  | Starting => start_create a w
  | Building p t enabled => start_publish p t enabled a w
  | Launching p => start_launch p w
  | Closing p old_sinks => close_rest p old_sinks w
  | LocalDescription p => on_local_description p a w
  | Answering p sdp => answer_rest p sdp a w
  | RemoteDescription p => on_remote_description p a w
  | AddingCandidate p candidate mid => candidate_rest p candidate mid a w
  | CandidateAdded p => on_candidate_added p a w
  | Toggling t enabled => with_library (set_track t enabled (library w)) w
  | Attaching mid t track_id => attach_remote_audio_sink mid t track_id w
  | Retaining b track_id => retain_sink b track_id w
  | Reporting p => on_stats p a w
  | Calling e => emit e w
  end.

(** A sink that is not attached gets no data. *)
Definition act (c : Act) (w : World) : World :=
  match c with
  | CallStart => start w
  | CallClose => close w
  | CallApplyAnswer sdp => apply_answer sdp w
  | CallAddRemoteCandidate candidate mid => add_remote_candidate candidate mid w
  | CallSetMicrophone enabled => set_microphone_enabled enabled w
  | CallGetStats callback => get_stats callback w
  | TrackArrives audio => OnTrack audio w
  | DataArrives b data bits rate channels frames =>
    if bool_decide (b ∈ sinks (library w)) then deliver_remote_audio (sink_mid b) data bits rate channels frames w else w
  | CandidateGathered candidate => OnIceCandidate candidate w
  | ConnectionChanges raw_state => OnConnectionChange raw_state w
  | Resume n a =>
    match tasks w !! n with
    | Some t => resume t a (mkWorld (session w) (library w) (delete n (tasks w)) (events w))
    | None => w
    end
  end.

Definition run (cs : list Act) : World := foldl (fun w c => act c w) new_world cs.
End Session.

(** ** What is held *)

Definition held_sinks (t : Task) : list RemoteSinkBinding :=
  match t with
  | Retaining b _ => [b]
  | Closing _ bs => bs
  | _ => []
  end.

(** The connection a thread will publish or close. *)
Definition held_pc (t : Task) : list nat :=
  match t with
  | Building p _ _ => [p]
  | Closing (Some p) _ => [p]
  | _ => []
  end.

Definition is_starting (t : Task) : bool := match t with Starting => true | _ => false end.

(** The microphone's wish a thread is about to apply. *)
Definition is_toggling (t : Task) : bool := match t with Toggling _ _ => true | _ => false end.
Definition is_building (t : Task) : bool := match t with Building _ _ _ => true | _ => false end.

(** Every connection is the session's, a thread's, or closed, and only once; so
    is every sink. *)
Record session_ok (s : Session) (l : Library) (ts : list Task) : Prop := {
  ok_created : created l + length (filter (fun t => is_starting t = true) ts) <= (if start_attempted s then 1 else 0);
  ok_held : option_list (pc s) ++ (ts ≫= held_pc) ++ elements (closed l) ≡ₚ seq 0 (created l);
  ok_started : started s = true <-> is_Some (pc s);
  ok_closed : close_requested s = true -> pc s = None;
  ok_stopped : pc s = None -> remote_sinks s = [];
  ok_sinks : sinks l ≡ₚ remote_sinks s ++ (ts ≫= held_sinks);
  ok_sink_ids : NoDup (sink <$> sinks l) /\ Forall (fun b => sink b < next_sink l) (sinks l);
  ok_mids : NoDup (sink_mid <$> remote_sinks s);
}.

Definition world_ok (w : World) : Prop := session_ok (session w) (library w) (tasks w).

Lemma session_ok_perm s l ts ts' : ts ≡ₚ ts' -> session_ok s l ts -> session_ok s l ts'.
Proof.
  intros Hp []. split; try done.
  - by rewrite <- (filter_perm_length _ _ _ Hp).
  - by rewrite <- Hp.
  - by rewrite <- Hp.
Qed.

(** A task that holds nothing. *)
Definition plain (t : Task) : bool :=
  negb (is_starting t) && bool_decide (held_pc t = []) && bool_decide (held_sinks t = []).

Lemma plain_task_spec t : plain t = true -> is_starting t = false /\ held_pc t = [] /\ held_sinks t = [].
Proof. unfold plain. rewrite !andb_true_iff, negb_true_iff, !bool_decide_eq_true. tauto. Qed.

Lemma session_ok_plain s l t ts : plain t = true -> session_ok s l (t :: ts) <-> session_ok s l ts.
Proof.
  intros (Hs & Hp & Hb)%plain_task_spec.
  assert (Hf : length (filter (fun t => is_starting t = true) (t :: ts)) = length (filter (fun t => is_starting t = true) ts)).
  { by rewrite filter_cons_False by congruence. }
  split; intros []; split; try done; cbn [mbind list_bind] in *; rewrite ?Hf, ?Hp, ?Hb in *; done.
Qed.

(** Nothing but a thread's connection exists. *)
Lemma one_connection s l ts p :
  session_ok s l ts -> p ∈ ts ≫= held_pc -> created l = 1 /\ pc s = None.
Proof.
  intros Hok Hin. pose proof (ok_created s l ts Hok) as Hc. pose proof (ok_held s l ts Hok) as Hh.
  assert (Hl := Permutation_length Hh). rewrite !length_app, length_seq in Hl.
  assert (1 <= length (ts ≫= held_pc)) by (destruct (ts ≫= held_pc); [by apply elem_of_nil in Hin | simpl; lia]).
  destruct (start_attempted s), (pc s); simpl in *; (split; [lia | done || lia]).
Qed.

Lemma starting_free s l ts :
  session_ok s l ts -> Starting ∈ ts -> created l = 0.
Proof.
  intros Hok Hin. pose proof (ok_created s l ts Hok) as Hc.
  assert (1 <= length (filter (fun t => is_starting t = true) ts)).
  { destruct (filter _ ts) eqn:Hf; [| simpl; lia]. assert (Hi : Starting ∈ []); [| by apply elem_of_nil in Hi].
    rewrite <- Hf. by apply list_elem_of_filter. }
  destruct (start_attempted s); lia.
Qed.

Section SessionProofs.
Variable config : VoiceSessionConfig.
Variable callbacks : VoiceSessionCallbacks.
Variable runtime_ready : bool.

Lemma ok_emit e w : world_ok w -> world_ok (emit e w).
Proof. done. Qed.

Lemma ok_report w : world_ok w -> world_ok (report_error callbacks w).
Proof. unfold report_error. by destruct (on_error callbacks). Qed.

Lemma ok_spawn t w : plain t = true -> world_ok w -> world_ok (spawn t w).
Proof. intros Ht Hw. by apply session_ok_plain. Qed.

Lemma ok_tell_track mid id w : world_ok w -> world_ok (tell_track callbacks mid id w).
Proof. unfold tell_track. destruct (on_remote_track callbacks); [by apply ok_spawn | done]. Qed.

Lemma ok_track t enabled w : world_ok w -> world_ok (with_library (set_track t enabled (library w)) w).
Proof. intros []. by split. Qed.

Lemma new_session_ok : world_ok (new_world config).
Proof.
  split; simpl; try done.
  - by split; constructor.
  - constructor.
Qed.

Lemma session_start_ok w : world_ok w -> world_ok (start config callbacks runtime_ready w).
Proof.
  intros Hw. unfold start. destruct (_ <? _)%Z; [by apply ok_emit, ok_report |].
  destruct (_ || _); [by apply ok_emit, ok_report |]. destruct (start_attempted _ || _) eqn:Hs; [done |].
  apply orb_false_iff in Hs as [Hs _]. destruct Hw as [Hc]. rewrite Hs in Hc.
  destruct runtime_ready; [| apply ok_emit, ok_report]; split; simpl in *; try done; lia.
Qed.

Definition made (l : Library) : Library :=
  mkLibrary (created l + 1) (closed l) (track_enabled l) (sinks l) (next_sink l).

Lemma made_ok s l rest t enabled :
  session_ok s l (Starting :: rest) -> session_ok s (made l) (Building (created l) t enabled :: rest).
Proof.
  intros [Hc Hh Hst Hcl Hsp Hsi Hid Hm]. rewrite filter_cons_True in Hc by done. cbn [length] in Hc. split; simpl in *; try done.
  - rewrite filter_cons_False by done. lia.
  - rewrite <- Permutation_middle, Hh, Nat.add_1_r, seq_S. simpl. apply Permutation_cons_append.
Qed.

(** A thread closes the connection it holds. *)
Lemma close_held_ok s l t p ts :
  is_starting t = false -> held_pc t = [p] -> held_sinks t = [] ->
  session_ok s l (t :: ts) -> session_ok s (close_pc p l) ts.
Proof.
  intros Ht Hp Hb [Hc Hh Hst Hcl Hsp Hsi Hid Hm]. rewrite filter_cons_False in Hc by congruence.
  cbn [mbind list_bind] in Hh, Hsi. rewrite Hp in Hh. rewrite Hb in Hsi.
  assert (Hfresh : p ∉ closed l).
  { eapply held_fresh; [exact Hh |]. rewrite elem_of_app. right. left. }
  split; cbn [close_pc created closed sinks next_sink]; try done.
  rewrite (closed_perm p _ Hfresh), <- Hh. simpl. by rewrite <- !Permutation_middle.
Qed.

Lemma set_track_ok s l ts t enabled : session_ok s l ts -> session_ok s (set_track t enabled l) ts.
Proof. intros []. by split. Qed.

Lemma start_create_ok s l rest e a :
  session_ok s l (Starting :: rest) -> world_ok (start_create callbacks a (mkWorld s l rest e)).
Proof.
  intros Hok. unfold start_create. cbn [session library].
  assert (Hfail : session_ok s (close_pc (created l) (made l)) rest).
  { eapply (close_held_ok s (made l) (Building (created l) 0 false)); try done. by apply made_ok. }
  destruct (oks a 0); cbn [negb].
  2: { apply ok_emit, ok_report. destruct Hok as [Hc]. split; try done. rewrite filter_cons_True in Hc by done. simpl in *. lia. }
  destruct (oks a 1); cbn [negb]; [| by apply ok_emit, ok_report].
  destruct (oks a 2); cbn [negb]; [| by apply ok_emit, ok_report].
  by apply set_track_ok, made_ok.
Qed.

Lemma start_publish_ok p t enabled s l rest e a :
  session_ok s l (Building p t enabled :: rest) ->
  world_ok (start_publish config callbacks p t enabled a (mkWorld s l rest e)).
Proof.
  intros Hok%(set_track_ok _ _ _ t enabled). unfold start_publish. cbn [session library with_library tasks events].
  set (l' := set_track t enabled l) in *.
  assert (Hfail : session_ok s (close_pc p l') rest) by (by apply (close_held_ok s l' (Building p t enabled))).
  destruct (oks a 0); cbn [negb]; [| by apply ok_emit, ok_report].
  destruct (forallb _ _); cbn [negb]; [| by apply ok_emit, ok_report].
  destruct (close_requested s) eqn:Hreq; [done |].
  destruct (one_connection s l' _ p Hok) as [_ Hpc]; [simpl; left |].
  apply ok_spawn; [done |]. destruct Hok as [Hc Hh Hst Hcl Hsp Hsi Hid Hm].
  split; cbn [with_session session library tasks pc remote_sinks started start_attempted close_requested]; try done.
  - rewrite Hpc in Hh. simpl in *. by rewrite <- Hh.
Qed.

Lemma session_close_ok w : world_ok w -> world_ok (close w).
Proof.
  intros [Hc Hh Hst Hcl Hsp Hsi Hid Hm]. split; cbn; try done.
  - rewrite <- Hh. destruct (pc (session w)); simpl; by rewrite ?Permutation_middle.
  - constructor.
Qed.

Lemma close_rest_ok p old s l rest e :
  session_ok s l (Closing p old :: rest) -> world_ok (close_rest p old (mkWorld s l rest e)).
Proof.
  intros [Hc Hh Hst Hcl Hsp Hsi Hid Hm]. rewrite filter_cons_False in Hc by done.
  cbn [mbind list_bind held_sinks] in Hsi.
  assert (Hp : sinks l ≡ₚ old ++ remote_sinks s ++ (rest ≫= held_sinks)).
  { rewrite Hsi, !app_assoc. f_equiv. apply Permutation_app_comm. }
  pose proof (remove_sinks_perm _ old _ _ Hp Hid) as Hrem. pose proof (sink_ids_sub _ _ _ old Hp Hid) as Hids.
  assert (Hmid : session_ok s (with_sinks (foldl (fun bs b => remove_sink b bs) (sinks l) old) l) (Closing p [] :: rest)).
  { split; try done; cbn [with_sinks sinks next_sink].
    - by rewrite Hrem. }
  unfold world_ok, close_rest. cbn [session library tasks with_library].
  destruct p as [p |]; [by apply (close_held_ok _ _ (Closing (Some p) [])) | by apply session_ok_plain in Hmid].
Qed.

Lemma attach_ok mid t id s l rest e :
  session_ok s l (Attaching mid t id :: rest) ->
  world_ok (attach_remote_audio_sink callbacks mid t id (mkWorld s l rest e)).
Proof.
  intros Hok. apply session_ok_plain in Hok; [| done]. unfold attach_remote_audio_sink.
  destruct (on_remote_audio callbacks); cbn [negb]; [| by apply ok_tell_track].
  destruct Hok as [Hc Hh Hst Hcl Hsp Hsi [Hn Hall] Hm]. split; cbn; try done.
  - rewrite Hsi. by rewrite <- Permutation_middle.
  - split.
    + constructor; [| done]. intros (b & Hb & Hin)%list_elem_of_fmap. rewrite Forall_forall in Hall.
      specialize (Hall b Hin). lia.
    + constructor; [simpl; lia |]. eapply Forall_impl; [exact Hall |]. simpl. lia.
Qed.

Lemma retain_ok b id s l rest e :
  session_ok s l (Retaining b id :: rest) -> world_ok (retain_sink callbacks b id (mkWorld s l rest e)).
Proof.
  intros [Hc Hh Hst Hcl Hsp Hsi Hid Hm]. rewrite filter_cons_False in Hc by done. cbn [mbind list_bind held_sinks held_pc app] in Hsi, Hh.
  unfold retain_sink. cbn [session library]. apply ok_tell_track.
  destruct (started s) eqn:Hs; cbn [andb].
  2: { assert (Hp : sinks l ≡ₚ b :: remote_sinks s ++ (rest ≫= held_sinks)) by (by rewrite Hsi, <- Permutation_middle).
       destruct (sink_ids_sub _ _ _ [b] Hp Hid) as [Hn Hall]. pose proof (remove_sink_perm b _ _ Hp (proj1 Hid)) as Hr.
       split; cbn; rewrite ?Hr; try done. by rewrite Hs. }
  case_bool_decide as Hdup; cbn [negb].
  - assert (Hp : sinks l ≡ₚ b :: remote_sinks s ++ (rest ≫= held_sinks)) by (by rewrite Hsi, <- Permutation_middle).
    destruct (sink_ids_sub _ _ _ [b] Hp Hid) as [Hn Hall]. pose proof (remove_sink_perm b _ _ Hp (proj1 Hid)) as Hr.
    split; cbn; rewrite ?Hr; try done. by rewrite Hs.
  - split; cbn; try done.
    + intros Hnone. destruct (proj1 Hst eq_refl) as [p Hp]. congruence.
    + rewrite Hsi. by rewrite <- app_assoc.
    + rewrite fmap_app. apply NoDup_app. split; [done |]. split; [| apply NoDup_singleton].
      intros x Hx ->%list_elem_of_singleton. done.
Qed.

Lemma resume_ok t a s l rest e : session_ok s l (t :: rest) -> world_ok (resume config callbacks t a (mkWorld s l rest e)).
Proof.
  intros Hok. assert (Hplain : plain t = true -> session_ok s l rest) by (intros Ht; by apply session_ok_plain in Hok).
  destruct t; cbn [resume]; try (specialize (Hplain eq_refl); change (session_ok s l rest) with (world_ok (mkWorld s l rest e)) in Hplain).
  - by apply start_create_ok.
  - by apply start_publish_ok.
  - by apply ok_spawn, ok_emit.
  - by apply close_rest_ok.
  - unfold on_local_description. destruct (owns _ _), (oks a 0), (answer_text a), (on_offer callbacks);
      simpl; auto using ok_report, ok_spawn.
  - unfold answer_rest. destruct (oks a 0); simpl; auto using ok_report, ok_spawn, ok_emit.
  - unfold on_remote_description. destruct (_ && _); auto using ok_report.
  - unfold candidate_rest. destruct (oks a 0); simpl; auto using ok_report, ok_spawn, ok_emit.
  - unfold on_candidate_added. destruct (_ && _); auto using ok_report.
  - by apply set_track_ok.
  - by apply attach_ok.
  - by apply retain_ok.
  - unfold on_stats. destruct (_ && _); auto using ok_spawn.
  - by apply ok_emit.
Qed.

Lemma voice_act_ok c w : world_ok w -> world_ok (act config callbacks runtime_ready c w).
Proof.
  intros Hw. destruct c; cbn [act].
  - by apply session_start_ok.
  - by apply session_close_ok.
  - unfold apply_answer. destruct (current_pc w); auto using ok_spawn, ok_report.
  - unfold add_remote_candidate. destruct (current_pc w); auto using ok_spawn, ok_report.
  - unfold set_microphone_enabled. assert (Hs : forall s, pc s = pc (session w) -> remote_sinks s = remote_sinks (session w) ->
      started s = started (session w) -> start_attempted s = start_attempted (session w) ->
      close_requested s = close_requested (session w) -> world_ok (with_session s w)).
    { intros s H1 H2 H3 H4 H5. destruct Hw. split; simpl; by rewrite ?H1, ?H2, ?H3, ?H4, ?H5. }
    destruct (microphone_track _); [apply ok_spawn; [done |] |]; by apply Hs.
  - unfold get_stats. destruct (current_pc w), callback; auto using ok_spawn.
  - unfold OnTrack. destruct (started _), audio as [[[] ?] |]; simpl; auto using ok_spawn.
  - destruct (bool_decide _); [| done]. unfold deliver_remote_audio. destruct (on_remote_audio callbacks), (audio_view data bits rate channels frames); try done.
    simpl. destruct (started (session w)); simpl; auto using ok_spawn.
  - unfold OnIceCandidate. destruct (started _), candidate as [[] |], (on_candidate callbacks); simpl; auto using ok_spawn.
  - unfold OnConnectionChange. by destruct (on_state callbacks).
  - destruct (tasks w !! n) as [t |] eqn:Ht; [| done]. apply resume_ok.
    eapply session_ok_perm; [| exact Hw]. by apply delete_Permutation.
Qed.

Lemma session_run_ok cs : world_ok (run config callbacks runtime_ready cs).
Proof.
  unfold run. generalize (new_session_ok). generalize (new_world config). induction cs as [| c cs IH]; intros w Hw; [done |].
  by apply IH, voice_act_ok.
Qed.

(** ** The microphone *)

(** The wish, where it is about to be applied and where it is applied. *)
Record microphone_ok (s : Session) (l : Library) (ts : list Task) : Prop := {
  mic_track : microphone_track s = pc s;
  mic_building p t b : Building p t b ∈ ts -> t = p /\ b = desired_microphone_enabled s;
  mic_toggling t b : Toggling t b ∈ ts -> b = desired_microphone_enabled s;
  mic_applied t : microphone_track s = Some t ->
    (forall b, Toggling t b ∉ ts) -> track_enabled l !! t = Some (desired_microphone_enabled s);
}.

(** The microphone is only switched while no thread is starting the session or
    switching it. *)
Definition calm (c : Act) (w : World) : bool :=
  match c with
  | CallSetMicrophone _ => forallb (fun t => negb (is_building t) && negb (is_toggling t)) (tasks w)
  | _ => true
  end.

Fixpoint calm_run (cs : list Act) (w : World) : bool :=
  match cs with
  | [] => true
  | c :: cs => calm c w && calm_run cs (act config callbacks runtime_ready c w)
  end.

Definition mic_world (w : World) : Prop := microphone_ok (session w) (library w) (tasks w).

(** Changes that have nothing to do with the microphone. *)
Lemma mic_mono s l ts s' l' ts' :
  microphone_track s' = pc s' -> (microphone_track s' = microphone_track s \/ microphone_track s' = None) ->
  desired_microphone_enabled s' = desired_microphone_enabled s ->
  track_enabled l' = track_enabled l ->
  (forall p t b, Building p t b ∈ ts' -> Building p t b ∈ ts) ->
  (forall t b, Toggling t b ∈ ts' <-> Toggling t b ∈ ts) ->
  microphone_ok s l ts -> microphone_ok s' l' ts'.
Proof.
  intros Hpc Htr Hd Hl Hb Ht []. split; [done | | |]; rewrite ?Hd, ?Hl.
  - intros p t b Hin%Hb. by eapply mic_building0.
  - intros t b Hin%Ht. by eapply mic_toggling0.
  - intros t Hmt Hno. destruct Htr as [Htr | Htr]; [| congruence]. apply mic_applied0; [congruence |].
    intros b Hin%Ht. by eapply Hno.
Qed.

Definition quiet (t : Task) : bool := negb (is_building t) && negb (is_toggling t).

Lemma quiet_cons t ts : quiet t = true ->
  (forall p u b, Building p u b ∈ t :: ts <-> Building p u b ∈ ts) /\ (forall u b, Toggling u b ∈ t :: ts <-> Toggling u b ∈ ts).
Proof.
  intros Hq. split; intros; rewrite elem_of_cons; (split; [intros [<- | ?]; done | by right]).
Qed.

Lemma mic_spawn t w : quiet t = true -> mic_world w -> mic_world (spawn t w).
Proof.
  intros [Hb Ht]%(quiet_cons _ (tasks w)) Hw. eapply mic_mono; [apply Hw | by left | done | done | | done | done].
  intros p u b. cbn [spawn tasks]. by rewrite Hb.
Qed.

Lemma mic_report w : mic_world w -> mic_world (report_error callbacks w).
Proof. unfold report_error. by destruct (on_error callbacks). Qed.

Lemma mic_tell mid id w : mic_world w -> mic_world (tell_track callbacks mid id w).
Proof. unfold tell_track. destruct (on_remote_track callbacks); [by apply mic_spawn | done]. Qed.

Lemma mic_library l w : track_enabled l = track_enabled (library w) -> mic_world w -> mic_world (with_library l w).
Proof. intros Hl Hw. eapply mic_mono; [apply Hw | by left | done | exact Hl | done | done | done]. Qed.

Lemma mic_start w : mic_world w -> mic_world (start config callbacks runtime_ready w).
Proof.
  intros Hw. unfold start. destruct (_ <? _)%Z; [by apply mic_report |]. destruct (_ || _); [by apply mic_report |].
  destruct (_ || _); [done |]. assert (Hs : forall s, pc s = pc (session w) -> microphone_track s = microphone_track (session w) ->
    desired_microphone_enabled s = desired_microphone_enabled (session w) -> mic_world (with_session s w)).
  { intros s H1 H2 H3. eapply mic_mono; [| by left | done | done | done | done | exact Hw].
    cbn. rewrite H1, H2. apply Hw. }
  destruct runtime_ready; [apply mic_spawn; [done |] | apply mic_report]; by apply Hs.
Qed.

Lemma mic_create a w :
  session_ok (session w) (library w) (Starting :: tasks w) -> mic_world w -> mic_world (start_create callbacks a w).
Proof.
  intros Hok Hw. pose proof (starting_free _ _ _ Hok (list_elem_of_here _ _)) as Hfree.
  assert (Hpc : pc (session w) = None).
  { pose proof (ok_held _ _ _ Hok) as Hh. rewrite Hfree in Hh. apply Permutation_nil_r in Hh.
    by destruct (pc (session w)). }
  unfold start_create. destruct (oks a 0); [| by apply mic_report]. cbn [negb].
  destruct (oks a 1); cbn [negb]; [| by apply mic_report, mic_library].
  destruct (oks a 2); cbn [negb]; [| by apply mic_report, mic_library].
  destruct Hw as [Ht Hb Htg Ha]. split; cbn.
  - done.
  - intros p t b [[= -> -> ->] | Hin]%elem_of_cons; [done | by eapply Hb].
  - intros t b [? | Hin]%elem_of_cons; [done | by eapply Htg].
  - intros t Hmt. congruence.
Qed.

Lemma mic_publish p t enabled a w :
  session_ok (session w) (library w) (Building p t enabled :: tasks w) ->
  microphone_ok (session w) (library w) (Building p t enabled :: tasks w) ->
  mic_world (start_publish config callbacks p t enabled a w).
Proof.
  intros Hok [Ht Hb Htg Ha].
  destruct (one_connection _ _ _ p Hok) as [_ Hpc]; [simpl; left |].
  destruct (Hb p t enabled) as [-> ->]; [left |].
  assert (Hw : mic_world (with_library (set_track p (desired_microphone_enabled (session w)) (library w)) w)).
  { split; cbn; [done | | |].
    - intros p' t' b Hin. apply (Hb p'). by right.
    - intros t' b Hin. apply (Htg t'). by right.
    - intros t' Hmt. congruence. }
  unfold start_publish. cbn [session with_library library].
  destruct (oks a 0); cbn [negb]; [| by apply mic_report, mic_library].
  destruct (forallb _ _); cbn [negb]; [| by apply mic_report, mic_library].
  destruct (close_requested _); [by apply mic_library |].
  apply mic_spawn; [done |]. destruct Hw as [Ht' Hb' Htg' Ha']. split; [done | exact Hb' | exact Htg' |].
  cbn. intros t' [= <-] _. by rewrite lookup_insert_eq.
Qed.
Lemma mic_close w : mic_world w -> mic_world (close w).
Proof.
  intros Hw. apply mic_spawn; [done |]. apply (mic_mono (session w) (library w) (tasks w)); [done | by right | done | done | done | done | exact Hw].
Qed.

Lemma mic_switch enabled w :
  forallb quiet (tasks w) = true -> mic_world w -> mic_world (set_microphone_enabled enabled w).
Proof.
  intros Hq [Ht Hb Htg Ha].
  assert (Hno : forall t, t ∈ tasks w -> quiet t = true).
  { intros t Hin. rewrite forallb_forall in Hq. by apply Hq, list_elem_of_In. }
  unfold set_microphone_enabled. destruct (microphone_track (session w)) as [t |] eqn:Hmt.
  - split; cbn.
    + done.
    + intros p t' b [? | Hin]%elem_of_cons; [done |]. by apply Hno in Hin.
    + intros t' b [[= _ ->] | Hin]%elem_of_cons; [done |]. by apply Hno in Hin.
    + intros t' [= <-] Hnot. exfalso. apply (Hnot enabled). left.
  - split; cbn.
    + done.
    + intros p t' b Hin. by apply Hno in Hin.
    + intros t' b Hin. by apply Hno in Hin.
    + done.
Qed.

Lemma mic_toggle t b s l rest e :
  microphone_ok s l (Toggling t b :: rest) -> mic_world (with_library (set_track t b l) (mkWorld s l rest e)).
Proof.
  intros [Ht Hb Htg Ha]. split; cbn.
  - done.
  - intros p t' b' Hin. apply (Hb p). by right.
  - intros t' b' Hin. apply (Htg t'). by right.
  - intros t' Hmt Hno. assert (b = desired_microphone_enabled s) as -> by (apply (Htg t); left).
    destruct (decide (t' = t)) as [-> | Hne]; [by rewrite lookup_insert_eq |].
    rewrite lookup_insert_ne by done. apply Ha; [done |].
    intros b' [[= ? ?] | Hin]%elem_of_cons; [done | by eapply Hno].
Qed.

Lemma mic_resume t a s l rest e :
  session_ok s l (t :: rest) -> microphone_ok s l (t :: rest) ->
  mic_world (resume config callbacks t a (mkWorld s l rest e)).
Proof.
  intros Hok Hw.
  assert (Hq : is_toggling t = false -> mic_world (mkWorld s l rest e)).
  { intros Htog. destruct Hw as [Ht Hb Htg Ha]. split; cbn; [done | | |].
    - intros p t' b Hin. apply (Hb p). by right.
    - intros t' b Hin. apply (Htg t'). by right.
    - intros t' Hmt Hno. apply Ha; [done |]. intros b [<- | Hin]%elem_of_cons; [done | by eapply Hno]. }
  destruct t; cbn [resume]; try (specialize (Hq eq_refl)).
  - by apply mic_create.
  - by apply mic_publish.
  - by apply mic_spawn.
  - unfold close_rest. apply mic_library; [by destruct p | done].
  - unfold on_local_description. destruct (owns _ _), (oks a 0), (answer_text a), (on_offer callbacks);
      simpl; auto using mic_report, mic_spawn.
  - unfold answer_rest. destruct (oks a 0); simpl; [by apply mic_spawn | by apply mic_report].
  - unfold on_remote_description. destruct (_ && _); auto using mic_report.
  - unfold candidate_rest. destruct (oks a 0); simpl; [by apply mic_spawn | by apply mic_report].
  - unfold on_candidate_added. destruct (_ && _); auto using mic_report.
  - by apply mic_toggle.
  - unfold attach_remote_audio_sink. destruct (on_remote_audio callbacks); cbn [negb]; [| by apply mic_tell].
    apply mic_spawn; [done | by apply mic_library].
  - unfold retain_sink. apply mic_tell. destruct (_ && _); [| by apply mic_library].
    apply (mic_mono s l rest); [apply Hq | by left | done | done | done | done | exact Hq].
  - unfold on_stats. destruct (_ && _); auto using mic_spawn.
  - exact Hq.
Qed.

Lemma microphone_ok_perm s l ts ts' : ts ≡ₚ ts' -> microphone_ok s l ts -> microphone_ok s l ts'.
Proof.
  intros Hp Hw. eapply mic_mono; [apply Hw | by left | done | done | | | exact Hw]; intros; by rewrite Hp.
Qed.

Lemma mic_act c w : calm c w = true -> world_ok w -> mic_world w -> mic_world (act config callbacks runtime_ready c w).
Proof.
  intros Hcalm Hok Hw. destruct c; cbn [act].
  - by apply mic_start.
  - by apply mic_close.
  - unfold apply_answer. destruct (current_pc w); auto using mic_spawn, mic_report.
  - unfold add_remote_candidate. destruct (current_pc w); auto using mic_spawn, mic_report.
  - by apply mic_switch.
  - unfold get_stats. destruct (current_pc w), callback; auto using mic_spawn.
  - unfold OnTrack. destruct (started _), audio as [[[] ?] |]; simpl; auto using mic_spawn.
  - destruct (bool_decide _); [| done]. unfold deliver_remote_audio. destruct (on_remote_audio callbacks), (audio_view data bits rate channels frames); try done.
    simpl. destruct (started (session w)); simpl; auto using mic_spawn.
  - unfold OnIceCandidate. destruct (started _), candidate as [[] |], (on_candidate callbacks); simpl; auto using mic_spawn.
  - unfold OnConnectionChange. by destruct (on_state callbacks).
  - destruct (tasks w !! n) as [t |] eqn:Ht; [| done]. pose proof (delete_Permutation _ _ _ Ht) as Hp.
    apply mic_resume; [by eapply session_ok_perm | by eapply microphone_ok_perm].
Qed.

Lemma mic_run cs w :
  calm_run cs w = true -> world_ok w -> mic_world w ->
  mic_world (foldl (fun w c => act config callbacks runtime_ready c w) w cs).
Proof.
  revert w. induction cs as [| c cs IH]; intros w Hcalm Hok Hw; [done |]. cbn [calm_run] in Hcalm.
  apply andb_prop in Hcalm as [Hc Hcs]. cbn [foldl]. apply IH; [done | by apply voice_act_ok | by apply mic_act].
Qed.

(** ** Properties *)

(** Whatever the application and the library do, and in whatever order their
    threads run: a session makes at most one peer connection, which is always the
    session's, in the hands of one thread that will publish or close it, or
    closed, and never two of these; every attached sink is kept by the session or
    in the hands of a thread that will keep or remove it, and the session keeps one
    sink per mid.  After close() it keeps nothing, and once the threads are done
    nothing is open or attached. *)
Theorem voice_session_no_leak cs :
  let w := run config callbacks runtime_ready cs in
  created (library w) <= 1
  /\ option_list (pc (session w)) ++ (tasks w ≫= held_pc) ++ elements (closed (library w)) ≡ₚ seq 0 (created (library w))
  /\ sinks (library w) ≡ₚ remote_sinks (session w) ++ (tasks w ≫= held_sinks)
  /\ NoDup (sink_mid <$> remote_sinks (session w))
  /\ (close_requested (session w) = true ->
       started (session w) = false /\ pc (session w) = None /\ remote_sinks (session w) = []
       /\ (tasks w = [] ->
            (forall p, p < created (library w) -> p ∈ closed (library w)) /\ sinks (library w) = [])).
Proof.
  intros w. destruct (session_run_ok cs) as [Hc Hh Hst Hcl Hsp Hsi Hid Hm]. fold w in Hc, Hh, Hst, Hcl, Hsp, Hsi, Hid, Hm.
  split; [destruct (start_attempted _); lia |]. do 3 (split; [done |]). intros Hreq.
  specialize (Hcl Hreq). specialize (Hsp Hcl). split; [| split; [done | split; [done |]]].
  { destruct (started _); [| done]. destruct (proj1 Hst eq_refl) as [p Hp]. congruence. }
  intros Hdone. rewrite Hcl, Hdone in Hh. rewrite Hsp, Hdone in Hsi. simpl in Hh, Hsi. split.
  - intros p Hp. apply elem_of_elements. rewrite Hh. apply elem_of_seq. lia.
  - by apply Permutation_nil_r in Hsi.
Qed.

(** The microphone does as it was told last: in a run in which it is only
    switched while no other thread starts the session or switches it, it sends
    exactly if the last call asked for it, whenever no switch is under way. *)
Theorem microphone_obeyed cs :
  let w := run config callbacks runtime_ready cs in
  calm_run cs (new_world config) = true -> (forall t b, Toggling t b ∉ tasks w) ->
  microphone_enabled w = desired_microphone_enabled (session w).
Proof.
  intros w Hcalm Hno. assert (Hw : mic_world w).
  { apply mic_run; [done | apply new_session_ok |]. split; simpl; [done | | | done]; by intros ? ? ?%elem_of_nil || intros ? ? ? ?%elem_of_nil. }
  unfold microphone_enabled. destruct (microphone_track (session w)) as [t |] eqn:Ht; [| done].
  by rewrite (mic_applied _ _ _ Hw t Ht (Hno t)).
Qed.

(** The length of a delivered frame never wraps: a frame is delivered exactly
    while the session is started, for 16-bit samples of a positive rate, and its
    span is as long as its frames and channels say. *)
Theorem delivered_span mid data bits rate chans frms w :
  (0 <= chans < 2 ^ 64)%Z -> (0 <= frms < 2 ^ 64)%Z ->
  let usable := on_remote_audio callbacks && data && (bits =? 16)%Z && (0 <? rate)%Z && (0 <? chans)%Z && (0 <? frms)%Z
                && (frms * chans <? 2 ^ 64)%Z && started (session w) in
  deliver_remote_audio callbacks mid data bits rate chans frms w
  = if usable then spawn (Calling (RemoteAudio mid (mkView (frms * chans) rate chans frms))) w else w.
Proof.
  intros Hc Hf. unfold deliver_remote_audio. rewrite audio_view_exact by done.
  destruct (on_remote_audio callbacks); [| done]. cbn [negb andb]. destruct (_ && (frms * chans <? 2 ^ 64)%Z); cbn [andb]; [| done].
  by destruct (started (session w)).
Qed.

(** The volume of a remote source stays between 0 and 10, and only the track of
    the mid is touched. *)
Lemma remote_volume_bounded mid volume ts th src w s q :
  set_remote_track_volume mid volume ts th src w = Some (s, q) ->
  volume = Finite q /\ (0 <= q <= 10)%Q /\ exists track, remote_audio_track mid ts w = Some track /\ src track = Some s.
Proof.
  unfold set_remote_track_volume. destruct (usable_volume volume) as [q' |] eqn:Hq; [| done]. cbn [mbind option_bind].
  apply usable_volume_range in Hq as [-> Hq].
  destruct (remote_audio_track mid ts w) as [track |]; [| done]. cbn [mbind option_bind].
  destruct th; [| done]. destruct (src track) as [s' |] eqn:Hs; [| done]. intros [= <- <-].
  split; [done |]. split; [done |]. by exists track.
Qed.

(** The track of a mid is that of its first audio transceiver. *)
Lemma find_audio_track_first mid ts track :
  find_audio_track mid ts = Some track <->
  exists pre t post, ts = pre ++ t :: post /\ transceiver_mid t = Some mid /\ media_is_audio t = true
    /\ receiver_track t = Some (true, track)
    /\ Forall (fun t => transceiver_mid t <> Some mid \/ media_is_audio t = false) pre.
Proof.
  induction ts as [| t ts IH]; [split; [done | by intros ([] & ? & ? & ? & _)] |]. cbn [find_audio_track].
  destruct (bool_decide (transceiver_mid t = Some mid)) eqn:Hmid; [apply bool_decide_eq_true in Hmid | apply bool_decide_eq_false in Hmid];
    cbn [negb orb]; [destruct (media_is_audio t) eqn:Ha; cbn [negb] |].
  - split.
    + intros H. exists [], t, ts. destruct (receiver_track t) as [[[] tr] |]; simplify_eq/=. done.
    + intros ([| t' pre] & t'' & post & [= <- ->] & _ & _ & Hr & Hpre); [by rewrite Hr |].
      apply Forall_cons in Hpre as [[? | ?] _]; congruence.
  - rewrite IH. split.
    + intros (pre & t' & post & -> & H1 & H2 & H3 & H4). exists (t :: pre), t', post. repeat split; try done. constructor; auto.
    + intros ([| t' pre] & t'' & post & [= <- ->] & H1 & H2 & H3 & H4); [congruence |].
      apply Forall_cons in H4 as [_ H4]. by exists pre, t'', post.
  - rewrite IH. split.
    + intros (pre & t' & post & -> & H1 & H2 & H3 & H4). exists (t :: pre), t', post. repeat split; try done. constructor; auto.
    + intros ([| t' pre] & t'' & post & [= <- ->] & H1 & H2 & H3 & H4); [congruence |].
      apply Forall_cons in H4 as [_ H4]. by exists pre, t'', post.
Qed.
End SessionProofs.

(** ** Samples *)

Definition sample_config : VoiceSessionConfig := mkConfig 16 true 64000.
Definition sample_callbacks : VoiceSessionCallbacks := mkCallbacks true true true true true true.
Definition yes : Answer := mkAnswer (fun _ => true) (Some "v=0"%string).

(** Started, and muted afterwards. *)
Definition sample_acts : list Act := [CallStart; Resume 0 yes; Resume 0 yes; Resume 0 yes; CallSetMicrophone false; Resume 0 yes].

Lemma microphone_obeyed_witness :
  calm_run sample_config sample_callbacks true sample_acts (new_world sample_config) = true
  /\ microphone_enabled (run sample_config sample_callbacks true sample_acts) = false.
Proof.
  split; [reflexivity |]. rewrite (microphone_obeyed sample_config sample_callbacks true sample_acts); [reflexivity | reflexivity |].
  intros t b Hin. vm_compute in Hin. repeat (apply elem_of_cons in Hin as [Hin | Hin]; [done |]). by apply elem_of_nil in Hin.
Defined.

Lemma delivered_span_witness :
  deliver_remote_audio sample_callbacks "0" true 16 48000 2 480 (new_world sample_config) = new_world sample_config.
Proof. rewrite (delivered_span sample_callbacks); [reflexivity | lia | lia]. Defined.

(** Muted while the session starts, after its wish was read: the wish says no,
    no thread is at work on it, and the microphone sends. *)
Lemma microphone_left_on :
  let w := run sample_config sample_callbacks true
             [CallStart; Resume 0 yes; CallSetMicrophone false; Resume 0 yes; Resume 0 yes; Resume 0 yes; Resume 0 yes] in
  tasks w = [] /\ desired_microphone_enabled (session w) = false /\ started (session w) = true
  /\ microphone_enabled w = true.
Proof. by vm_compute. Qed.
