(* ===== verification/Floats.v ===== *)
(** * The floating-point numbers of the code

    [float] and [double] are IEEE 754 binary32 and binary64, as the Standard
    Library specifies them ([SpecFloat]); conversions and operations round to the
    nearest, ties to even.  [lround] and [llround] round ties away from zero; what
    they return for a value that is not a number, or out of range, is not
    specified: [None].  The lemmas bound what rounding adds, to quotients, scaled lengths
    and products. *)

From Stdlib Require Export SpecFloat.
From S2P Require Import Prelude.

Local Open Scope Z_scope.

#[export] Instance spec_float_eq_dec : EqDecision spec_float.
Proof. solve_decision. Defined.

(** The nearest integer, ties away from zero. *)
Definition lround (x : spec_float) : option Z :=
  match x with
  | S754_zero _ => Some 0
  | S754_finite s m e =>
    let a := if 0 <=? e then Zpos m * 2 ^ e else (Zpos m + 2 ^ (- e - 1)) / 2 ^ (- e) in
    let r := if s then - a else a in
    if (- 2 ^ 63 <=? r) && (r <? 2 ^ 63) then Some r else None
  | _ => None
  end.

Definition llround : spec_float -> option Z := lround.

(** [static_cast<int>] of a wider integer *)
Definition s32 (z : Z) : Z :=
  let r := u32 z in if r <? 2 ^ 31 then r else r - 2 ^ 32.

Module Binary32.
Definition of_Z (z : Z) : spec_float := binary_normalize 24 128 z 0 false.
Definition mul : spec_float -> spec_float -> spec_float := SFmul 24 128.
Definition div : spec_float -> spec_float -> spec_float := SFdiv 24 128.
Definition ltb : spec_float -> spec_float -> bool := SFltb.

(** [std::clamp] *)
Definition clamp (x low high : spec_float) : spec_float := if ltb x low then low else if ltb high x then high else x.
End Binary32.

Module Binary64.
Definition of_Z (z : Z) : spec_float := binary_normalize 53 1024 z 0 false.
Definition add : spec_float -> spec_float -> spec_float := SFadd 53 1024.
Definition sub : spec_float -> spec_float -> spec_float := SFsub 53 1024.
Definition mul : spec_float -> spec_float -> spec_float := SFmul 53 1024.
Definition div : spec_float -> spec_float -> spec_float := SFdiv 53 1024.
Definition ltb : spec_float -> spec_float -> bool := SFltb.
Definition leb : spec_float -> spec_float -> bool := SFleb.
End Binary64.

(** Anything times zero is zero, or not a number. *)
Lemma lround_mul_zero prec emax x y : lround (SFmul prec emax x (S754_zero false)) = Some y -> y = 0.
Proof. destruct x; cbn; congruence. Qed.

Lemma s32_range z : - 2 ^ 31 <= s32 z < 2 ^ 31.
Proof.
  unfold s32, u32, wrap. pose proof (Z.mod_pos_bound z (2 ^ 32) ltac:(lia)). cbv zeta.
  destruct (_ <? _) eqn:H1; rewrite ?Z.ltb_lt, ?Z.ltb_ge in H1; lia.
Qed.

(** ** Rounding from above *)

Lemma digits_bounds p : 2 ^ (Zpos (digits2_pos p) - 1) <= Zpos p < 2 ^ Zpos (digits2_pos p).
Proof.
  induction p as [p IH | p IH |]; cbn [digits2_pos]; [| | done];
    (rewrite Pos2Z.inj_succ; replace (Z.succ _ - 1) with (Z.succ (Zpos (digits2_pos p) - 1)) by lia;
     rewrite !Z.pow_succ_r by lia; lia).
Qed.

Lemma digits_unique p d : 2 ^ (d - 1) <= Zpos p < 2 ^ d -> 0 < d -> Zpos (digits2_pos p) = d.
Proof.
  intros [Hl Hu] Hd. pose proof (digits_bounds p) as [Hl' Hu'].
  assert (d - 1 < Zpos (digits2_pos p)) by (apply (Z.pow_lt_mono_r_iff 2); lia).
  assert (Zpos (digits2_pos p) - 1 < d) by (apply (Z.pow_lt_mono_r_iff 2); lia). lia.
Qed.

Lemma shr_1_div mrs : 0 <= shr_m mrs -> shr_m (shr_1 mrs) = shr_m mrs / 2.
Proof.
  destruct mrs as [[| [p | p |] | p] r s]; cbn [shr_1 shr_m]; intros; try done; try lia.
  - rewrite (Pos2Z.inj_xI p), Z.mul_comm, Z.div_add_l, Z.div_small by lia. lia.
  - rewrite (Pos2Z.inj_xO p), Z.mul_comm, Z.div_mul by lia. done.
Qed.

Lemma shr_div n mrs : 0 <= shr_m mrs -> shr_m (SpecFloat.iter_pos shr_1 n mrs) = shr_m mrs / 2 ^ Zpos n.
Proof.
  revert mrs. induction n as [n IH | n IH |]; intros mrs H; cbn [SpecFloat.iter_pos].
  - assert (H1 := shr_1_div mrs H). assert (0 <= shr_m (shr_1 mrs)) by (rewrite H1; apply Z.div_pos; lia).
    rewrite !IH by (rewrite ?IH by done; try apply Z.div_pos; lia). rewrite H1, !Z.div_div by lia.
    f_equal. replace (Zpos n~1) with (Zpos n + Zpos n + 1) by lia. rewrite !Z.pow_add_r by lia. lia.
  - rewrite !IH by (rewrite ?IH by done; try apply Z.div_pos; lia). rewrite Z.div_div by lia.
    f_equal. replace (Zpos n~0) with (Zpos n + Zpos n) by lia. rewrite Z.pow_add_r by lia. lia.
  - by apply shr_1_div.
Qed.

Lemma shr_m_shift m l e n : 0 <= m -> 0 <= n ->
  shr_m (shr (shr_record_of_loc m l) e n).1 = m / 2 ^ n /\ (shr (shr_record_of_loc m l) e n).2 = e + n.
Proof.
  intros Hm Hn. assert (Hr : shr_m (shr_record_of_loc m l) = m) by (by destruct l as [| []]).
  destruct n as [| n |]; cbn [shr fst snd]; [| | lia].
  - rewrite Hr, Z.div_1_r. lia.
  - rewrite shr_div, Hr by lia. done.
Qed.

Lemma nearest_even_le m l : m <= round_nearest_even m l <= m + 1.
Proof. destruct l as [| []]; cbn; try lia. destruct (Z.even m); lia. Qed.

Section RoundUp.
Variables prec emax : Z.

(** A positive number of at least [prec] bits becomes one of exactly [prec] bits,
    at most one unit of its last place above it. *)
Lemma round_up m e l :
  0 < prec -> let k := Zpos (digits2_pos m) - prec in
  0 <= k -> emin prec emax <= e + k -> e + k + 1 <= emax - prec ->
  exists m' e', binary_round_aux prec emax false (Zpos m) e l = S754_finite false m' e'
    /\ Zpos (digits2_pos m') = prec /\ e + k <= e' /\ Zpos m' * 2 ^ (e' - e) <= Zpos m + 2 ^ k.
Proof.
  intros Hp k Hk Hmin Hmax. unfold binary_round_aux.
  assert (Hs : shr_fexp prec emax (Zpos m) e l = shr (shr_record_of_loc (Zpos m) l) e k).
  { unfold shr_fexp, fexp. cbn [Zdigits2]. f_equal. lia. }
  rewrite Hs. destruct (shr_m_shift (Zpos m) l e k) as [Hq He]; [lia.. |].
  destruct (shr (shr_record_of_loc (Zpos m) l) e k) as [mrs e1]. cbn [fst snd] in Hq, He. subst e1.
  pose proof (digits_bounds m) as [Hlow Hup].
  assert (Hd : Zpos (digits2_pos m) = prec + k) by lia.
  assert (Hq1 : 2 ^ (prec - 1) <= shr_m mrs).
  { rewrite Hq. apply Z.div_le_lower_bound; [lia |]. rewrite <- Z.pow_add_r by lia.
    by replace (k + (prec - 1)) with (Zpos (digits2_pos m) - 1) by lia. }
  assert (Hq2 : shr_m mrs < 2 ^ prec).
  { rewrite Hq. apply Z.div_lt_upper_bound; [lia |]. rewrite <- Z.pow_add_r by lia. by rewrite Z.add_comm, <- Hd. }
  pose proof (nearest_even_le (shr_m mrs) (loc_of_shr_record mrs)) as Hr.
  set (r := round_nearest_even (shr_m mrs) (loc_of_shr_record mrs)) in *. clearbody r.
  assert (0 < 2 ^ (prec - 1)) by (apply Z.pow_pos_nonneg; lia).
  destruct r as [| r |]; [lia | | lia].
  assert (Hle : Zpos r * 2 ^ k <= Zpos m + 2 ^ k).
  { assert (Hdm := Z.mul_div_le (Zpos m) (2 ^ k) ltac:(apply Z.pow_pos_nonneg; lia)). rewrite <- Hq in Hdm. nia. }
  assert (Hpp : 2 ^ prec = 2 * 2 ^ (prec - 1)) by (rewrite <- Z.pow_succ_r by lia; f_equal; lia).
  destruct (Z.lt_ge_cases (Zpos r) (2 ^ prec)) as [Hlt | Hge].
  - assert (Hdr : Zpos (digits2_pos r) = prec) by (apply digits_unique; lia).
    unfold shr_fexp, fexp. cbn [Zdigits2 shr_record_of_loc]. rewrite Hdr. replace (Z.max _ _ - _) with 0 by lia. cbn [shr shr_m].
    rewrite (proj2 (Z.leb_le _ _)) by lia. exists r, (e + k). split_and!; [done | done | lia |]. by replace (e + k - e) with k by lia.
  - assert (Hr2 : Zpos r = 2 ^ prec) by lia.
    assert (Hdr : Zpos (digits2_pos r) = prec + 1).
    { apply digits_unique; [| lia]. replace (prec + 1 - 1) with prec by lia. rewrite (Z.pow_add_r 2 prec 1) by lia. lia. }
    unfold shr_fexp, fexp. cbn [Zdigits2]. rewrite Hdr. replace (Z.max _ _ - _) with 1 by lia.
    destruct (shr_m_shift (Zpos r) loc_Exact (e + k) 1) as [Hm He]; [lia.. |].
    destruct (shr _ _ _) as [mrs2 e2]. cbn [fst snd] in Hm, He. subst e2. rewrite Hm, Hr2.
    assert (Hhalf : 2 ^ prec / 2 ^ 1 = 2 ^ (prec - 1)) by (rewrite Hpp, Z.mul_comm, Z.div_mul; lia).
    rewrite Hhalf. destruct (2 ^ (prec - 1)) as [| h |] eqn:Hh; [lia | | lia].
    rewrite (proj2 (Z.leb_le _ _)) by lia. exists h, (e + k + 1). split_and!; [done | | lia |].
    + apply digits_unique; lia.
    + replace (e + k + 1 - e) with (k + 1) by lia. rewrite Z.pow_add_r by lia. nia.
Qed.
End RoundUp.

(** ** A product with one *)

Section Unit.
Variables prec emax : Z.

(** A mantissa of exactly [prec] bits, with an exponent in range, is rounded to itself. *)
Lemma round_exact s m e :
  Zpos (digits2_pos m) = prec -> emin prec emax <= e <= emax - prec ->
  binary_round_aux prec emax s (Zpos m) e loc_Exact = S754_finite s m e.
Proof.
  intros Hd He. unfold binary_round_aux, shr_fexp, fexp. cbn [Zdigits2 shr_record_of_loc]. rewrite Hd.
  replace (Z.max _ _ - e) with 0 by lia. cbn [shr shr_m loc_of_shr_record round_nearest_even Zdigits2]. rewrite Hd.
  replace (Z.max _ _ - e) with 0 by lia. cbn [shr shr_m]. by rewrite (proj2 (Z.leb_le _ _)) by lia.
Qed.

Lemma digits_iter p d : Zpos (digits2_pos (Pos.iter xO p d)) = Zpos (digits2_pos p) + Zpos d.
Proof.
  induction d as [| d IH] using Pos.peano_ind; [cbn; lia |]. rewrite Pos.iter_succ. cbn [digits2_pos]. lia.
Qed.

Lemma iter_value p d : Zpos (Pos.iter xO p d) = Zpos p * 2 ^ Zpos d.
Proof.
  induction d as [| d IH] using Pos.peano_ind; [cbn; lia |].
  rewrite Pos.iter_succ, Pos2Z.inj_xO, IH, Pos2Z.inj_succ, Z.pow_succ_r by lia. lia.
Qed.

(** An integer of fewer than [prec] bits. *)
Lemma round_integer s p :
  Zpos (digits2_pos p) < prec -> emin prec emax <= 1 - prec -> 1 < prec <= emax ->
  exists m e, binary_round prec emax s p 0 = S754_finite s m e /\ e < 0 /\ emin prec emax <= e
    /\ Zpos (digits2_pos m) = prec /\ Zpos m = Zpos p * 2 ^ (- e).
Proof.
  intros Hd Hmin Hp. unfold binary_round, fexp. rewrite Z.add_0_r.
  set (e := Z.max _ _). assert (He : e = Zpos (digits2_pos p) - prec) by lia.
  unfold shl_align. rewrite Z.sub_0_r. destruct e as [| | d] eqn:Hee; try lia.
  exists (Pos.iter xO p d), (Zneg d). rewrite round_exact by (rewrite ?digits_iter; lia).
  split_and!; [done | lia | lia | rewrite digits_iter; lia | apply iter_value].
Qed.
End Unit.

Lemma lround_integer s m e p :
  e < 0 -> Zpos m = Zpos p * 2 ^ (- e) -> Zpos p < 2 ^ 62 -> lround (S754_finite s m e) = Some (if s then Zneg p else Zpos p).
Proof.
  intros He Hm Hp. cbn [lround]. destruct (0 <=? e) eqn:Hle; [apply Z.leb_le in Hle; lia |].
  assert (Hq : (Zpos m + 2 ^ (- e - 1)) / 2 ^ (- e) = Zpos p).
  { rewrite Hm, Z.div_add_l by (apply Z.pow_nonzero; lia). rewrite Z.div_small; [lia |].
    split; [apply Z.pow_nonneg; lia | apply Z.pow_lt_mono_r; lia]. }
  rewrite Hq. destruct s; cbv zeta;
    (rewrite (proj2 (Z.leb_le _ _)), (proj2 (Z.ltb_lt _ _)) by lia); done.
Qed.

(** A single-precision product of a 16-bit integer with one rounds to the integer. *)
Lemma unit_gain z : - 2 ^ 15 <= z < 2 ^ 15 -> lround (Binary32.mul (Binary32.of_Z z) (Binary32.of_Z 1)) = Some z.
Proof.
  intros Hz. assert (Hdig : forall p, Zpos p <= 2 ^ 15 -> Zpos (digits2_pos p) < 24).
  { intros p Hp. pose proof (proj1 (digits_bounds p)) as Hpow.
    destruct (Z.lt_ge_cases (Zpos (digits2_pos p)) 24); [done |].
    assert (2 ^ 23 <= 2 ^ (Zpos (digits2_pos p) - 1)) by (apply Z.pow_le_mono_r; lia). lia. }
  assert (Hone : forall s m e, emin 24 128 <= e < 0 -> Zpos (digits2_pos m) = 24 ->
                   Binary32.mul (S754_finite s m e) (Binary32.of_Z 1) = S754_finite s m e).
  { intros s m e He Hm. unfold Binary32.mul. replace (Binary32.of_Z 1) with (S754_finite false 8388608 (-23)) by reflexivity.
    cbn [SFmul]. rewrite xorb_false_r, Pos.mul_comm.
    assert (Hmul : (8388608 * m)%positive = Pos.iter xO m 23) by (apply Pos2Z.inj; rewrite Pos2Z.inj_mul, iter_value; lia).
    assert (Hshr : shr_fexp 24 128 (Zpos (Pos.iter xO m 23)) (e + -23) loc_Exact = (Build_shr_record (Zpos m) false false, e)).
    { unfold shr_fexp, fexp. cbn [Zdigits2 shr_record_of_loc]. rewrite digits_iter, Hm.
      replace (Z.max _ _ - _) with 23 by (unfold emin in *; lia). cbv [shr Pos.iter iter_pos shr_1 orb]. f_equal. lia. }
    pose proof (round_exact 24 128 s m e Hm ltac:(unfold emin in *; lia)) as Hr. unfold binary_round_aux in *.
    rewrite Hmul, Hshr. cbn [shr_m loc_of_shr_record round_nearest_even].
    unfold shr_fexp at 1, fexp in Hr. cbn [Zdigits2 shr_record_of_loc] in Hr. rewrite Hm in Hr.
    by replace (Z.max _ _ - e) with 0 in Hr by (unfold emin in *; lia). }
  destruct z as [| p | p]; [done | |]; unfold Binary32.of_Z at 1; cbn [binary_normalize];
    [destruct (round_integer 24 128 false p) as (m & e & Hr & He & Hmin & Hm & Hv) | destruct (round_integer 24 128 true p) as (m & e & Hr & He & Hmin & Hm & Hv)];
    try (by apply Hdig; lia); try done; rewrite Hr, Hone by done;
    [apply (lround_integer false m e p) | apply (lround_integer true m e p)]; lia || done.
Qed.

(** ** Scaling down *)

Lemma of_Z_pos z : 0 < z < 2 ^ 31 ->
  exists m k, Binary64.of_Z z = S754_finite false m (- k) /\ 0 < k < 53 /\ Zpos (digits2_pos m) = 53 /\ Zpos m = z * 2 ^ k.
Proof.
  intros Hz. destruct z as [| p |]; try lia. pose proof (digits_bounds p) as [Hl _].
  assert (Zpos (digits2_pos p) - 1 < 31) by (apply (Z.pow_lt_mono_r_iff 2); lia).
  destruct (round_integer 53 1024 false p) as (m & e & Hr & He & _ & Hd & Hm); [lia | unfold emin; lia | lia |].
  exists m, (- e). rewrite Z.opp_involutive. split_and!; [done | lia | | done | done].
  pose proof (digits_bounds m) as [_ Hu]. rewrite Hd, Hm in Hu. apply (Z.pow_lt_mono_r_iff 2); nia.
Qed.

(** A positive double of full precision that is at most [limit / length], but for
    two roundings. *)
Definition at_most (x : spec_float) (length limit : Z) : Prop :=
  exists q e, x = S754_finite false q e /\ Zpos (digits2_pos q) = 53 /\ - 200 <= e <= 0
    /\ Zpos q * 2 ^ (e + 200) * length * 2 ^ 52 <= limit * 2 ^ 200 * (2 ^ 52 + 1).

Lemma at_most_div a b : 0 < a < 2 ^ 31 -> 0 < b < 2 ^ 31 -> at_most (Binary64.div (Binary64.of_Z a) (Binary64.of_Z b)) b a.
Proof.
  intros Ha Hb. destruct (of_Z_pos a Ha) as (m1 & A & -> & HA & Hd1 & Hm1). destruct (of_Z_pos b Hb) as (m2 & B & -> & HB & Hd2 & Hm2).
  pose proof (digits_bounds m1) as [Hl1 Hu1]. pose proof (digits_bounds m2) as [Hl2 Hu2]. rewrite Hd1 in Hl1, Hu1. rewrite Hd2 in Hl2, Hu2.
  unfold Binary64.div. cbn [SFdiv xorb]. unfold SFdiv_core_binary, fexp. cbn [Zdigits2]. rewrite Hd1, Hd2.
  replace (Z.min _ _) with (B - A - 53) by (unfold emin; lia). replace (- A - - B - (B - A - 53)) with 53 by lia.
  cbv iota. rewrite Z.shiftl_mul_pow2 by lia. pose proof (Z_div_mod (Zpos m1 * 2 ^ 53) (Zpos m2) ltac:(lia)) as Hdiv.
  destruct (Z.div_eucl _ _) as [q0 r]. destruct Hdiv as [Hq Hr].
  assert (Hq1 : 2 ^ 52 <= q0) by nia. assert (Hq2 : q0 < 2 ^ 54) by nia.
  destruct q0 as [| q0 |]; try lia. pose proof (digits_bounds q0) as [Hlq Huq].
  assert (53 <= Zpos (digits2_pos q0)).
  { destruct (Z.lt_ge_cases (Zpos (digits2_pos q0)) 53); [| done].
    assert (2 ^ Zpos (digits2_pos q0) <= 2 ^ 52) by (apply Z.pow_le_mono_r; lia). lia. }
  assert (Zpos (digits2_pos q0) - 1 < 54) by (apply (Z.pow_lt_mono_r_iff 2); lia).
  destruct (round_up 53 1024 q0 (B - A - 53) (new_location (Zpos m2) r)) as (q & e & -> & Hdq & He & Hle);
    [lia | lia | unfold emin; lia | lia |].
  pose proof (digits_bounds q) as [Hlq' _]. rewrite Hdq in Hlq'.
  set (k := Zpos (digits2_pos q0) - 53) in *.
  assert (Hk : 2 ^ k * 2 ^ 52 <= Zpos q0) by (rewrite <- Z.pow_add_r by lia; by replace (k + 52) with (Zpos (digits2_pos q0) - 1) by lia).
  assert (H1 : Zpos q * 2 ^ (e - (B - A - 53)) * 2 ^ 52 <= Zpos q0 * (2 ^ 52 + 1)) by lia.
  assert (Hmain : Zpos q * 2 ^ (e + 200) * b * 2 ^ 52 <= a * 2 ^ 200 * (2 ^ 52 + 1)).
  { replace (e + 200) with ((e - (B - A - 53)) + (B + (147 - A))) by lia. rewrite !Z.pow_add_r by lia.
    replace (a * 2 ^ 200) with (Zpos m1 * 2 ^ 53 * 2 ^ (147 - A))
      by (rewrite Hm1, <- !Z.mul_assoc, <- !Z.pow_add_r by lia; f_equal; f_equal; lia).
    set (x := 2 ^ (e - (B - A - 53))) in *. set (y := 2 ^ (147 - A)). assert (0 <= y) by (apply Z.pow_nonneg; lia).
    rewrite Hm2 in Hq. assert (Hz : Zpos q0 * (b * 2 ^ B) <= Zpos m1 * 2 ^ 53) by lia.
    transitivity (Zpos q0 * (2 ^ 52 + 1) * (b * 2 ^ B * y)); [| nia].
    replace (Zpos q * (x * (2 ^ B * y)) * b * 2 ^ 52) with (Zpos q * x * 2 ^ 52 * (b * 2 ^ B * y)) by lia.
    apply Z.mul_le_mono_nonneg_r; [| done]. assert (0 <= 2 ^ B) by (apply Z.pow_nonneg; lia). nia. }
  exists q, e. split_and!; [done | done | lia | | done].
  destruct (Z.le_gt_cases e 0); [done |]. exfalso.
  assert (2 ^ 201 <= 2 ^ (e + 200)) by (apply Z.pow_le_mono_r; lia). nia.
Qed.

Lemma ltb_value q1 e1 q2 e2 :
  Zpos (digits2_pos q1) = 53 -> Zpos (digits2_pos q2) = 53 -> - 200 <= e1 -> - 200 <= e2 ->
  if Binary64.ltb (S754_finite false q1 e1) (S754_finite false q2 e2)
  then Zpos q1 * 2 ^ (e1 + 200) <= Zpos q2 * 2 ^ (e2 + 200) else Zpos q2 * 2 ^ (e2 + 200) <= Zpos q1 * 2 ^ (e1 + 200).
Proof.
  intros Hd1 Hd2 He1 He2.
  assert (Hlt : forall q e q' e', Zpos (digits2_pos q) = 53 -> Zpos (digits2_pos q') = 53 -> - 200 <= e < e' ->
                  Zpos q * 2 ^ (e + 200) <= Zpos q' * 2 ^ (e' + 200)).
  { intros q e q' e' Hd Hd' He. pose proof (digits_bounds q) as [_ Hu]. pose proof (digits_bounds q') as [Hl _].
    rewrite Hd in Hu. rewrite Hd' in Hl. replace (e' + 200) with ((e + 200) + (e' - e)) by lia. rewrite (Z.pow_add_r 2 (e + 200)) by lia.
    assert (Hy : 2 ^ 1 <= 2 ^ (e' - e)) by (apply Z.pow_le_mono_r; lia). assert (0 <= 2 ^ (e + 200)) by (apply Z.pow_nonneg; lia).
    generalize dependent (2 ^ (e + 200)). generalize dependent (2 ^ (e' - e)). intros y Hy x Hx. assert (Zpos q <= 2 * Zpos q') by lia.
    transitivity (2 * Zpos q' * x); [nia |]. replace (Zpos q' * (x * y)) with (y * Zpos q' * x) by lia. nia. }
  unfold Binary64.ltb, SFltb, SFcompare. destruct (Z.compare_spec e1 e2) as [-> | H | H]; [| apply Hlt; lia | apply Hlt; lia].
  assert (0 <= 2 ^ (e2 + 200)) by (apply Z.pow_nonneg; lia).
  change (Pos.compare_cont Eq q1 q2) with (Pos.compare q1 q2). destruct (Pos.compare_spec q1 q2); nia.
Qed.

Lemma at_most_le q e q' e' length limit : Zpos (digits2_pos q) = 53 -> - 200 <= e <= 0 -> 0 < length ->
  Zpos q * 2 ^ (e + 200) <= Zpos q' * 2 ^ (e' + 200) ->
  at_most (S754_finite false q' e') length limit -> at_most (S754_finite false q e) length limit.
Proof. intros Hd He Hl Hle (q2 & e2 & [= <- <-] & _ & _ & H). exists q, e. split_and!; [done | done | lia | lia | nia]. Qed.

(** The smaller of two scales keeps to both limits. *)
Lemma at_most_min x y l1 n1 l2 n2 : 0 < l1 -> 0 < l2 -> at_most x l1 n1 -> at_most y l2 n2 ->
  let s := if Binary64.ltb y x then y else x in at_most s l1 n1 /\ at_most s l2 n2.
Proof.
  intros Hl1 Hl2 Hx Hy. pose proof Hx as (q1 & e1 & -> & Hd1 & He1 & _). pose proof Hy as (q2 & e2 & -> & Hd2 & He2 & _).
  pose proof (ltb_value q2 e2 q1 e1 Hd2 Hd1 ltac:(lia) ltac:(lia)) as Hlt. cbv zeta.
  destruct (Binary64.ltb _ _); split; try done; by eapply at_most_le.
Qed.

(** The nearest integer, down. *)
Definition floor (x : spec_float) : option Z :=
  match x with
  | S754_zero _ => Some 0
  | S754_finite s m e => let z := if s then Zneg m else Zpos m in Some (if 0 <=? e then z * 2 ^ e else z / 2 ^ (- e))
  | _ => None
  end.

(** A length that is scaled does not exceed the limit. *)
Lemma floor_scaled x length limit : 0 < length < 2 ^ 31 -> 0 < limit < 2 ^ 31 -> at_most x length limit ->
  exists z, floor (Binary64.mul (Binary64.of_Z length) x) = Some z /\ 0 <= z <= limit.
Proof.
  intros Hl Hn (q & e & -> & Hd & He & Hle). destruct (of_Z_pos length Hl) as (m & B & -> & HB & Hdm & Hm).
  pose proof (digits_bounds m) as [Hlm Hum]. pose proof (digits_bounds q) as [Hlq Huq]. rewrite Hdm in Hlm, Hum. rewrite Hd in Hlq, Huq.
  unfold Binary64.mul. cbn [SFmul xorb]. set (P := (m * q)%positive). assert (HP : Zpos P = Zpos m * Zpos q) by done.
  pose proof (digits_bounds P) as [HlP HuP]. assert (2 ^ 104 <= Zpos P) by nia. assert (Zpos P < 2 ^ 106) by nia.
  assert (104 < Zpos (digits2_pos P)) by (apply (Z.pow_lt_mono_r_iff 2); lia).
  assert (Zpos (digits2_pos P) - 1 < 106) by (apply (Z.pow_lt_mono_r_iff 2); lia).
  destruct (round_up 53 1024 P (- B + e) loc_Exact) as (m3 & e3 & -> & Hd3 & He3 & Hr); [lia | lia | unfold emin; lia | lia |].
  set (k := Zpos (digits2_pos P) - 53) in *.
  assert (Hk : 2 ^ k * 2 ^ 52 <= Zpos P) by (rewrite <- Z.pow_add_r by lia; by replace (k + 52) with (Zpos (digits2_pos P) - 1) by lia).
  assert (Hmain : Zpos m3 * 2 ^ (e3 + 200) * 2 ^ 104 <= limit * 2 ^ 200 * (2 ^ 52 + 1) * (2 ^ 52 + 1)).
  { assert (Hc : Zpos m3 * 2 ^ (e3 - (- B + e)) * 2 ^ 52 <= length * 2 ^ B * Zpos q * (2 ^ 52 + 1)) by (rewrite <- Hm; lia).
    assert (Hb : 0 < 2 ^ B) by (apply Z.pow_pos_nonneg; lia). assert (He' : 0 < 2 ^ (e + 200)) by (apply Z.pow_pos_nonneg; lia).
    apply (Z.mul_le_mono_pos_r _ _ (2 ^ B)); [done |].
    replace (Zpos m3 * 2 ^ (e3 + 200) * 2 ^ 104 * 2 ^ B) with (Zpos m3 * 2 ^ (e3 - (- B + e)) * 2 ^ 52 * 2 ^ (e + 200) * 2 ^ 52).
    - transitivity (length * 2 ^ B * Zpos q * (2 ^ 52 + 1) * 2 ^ (e + 200) * 2 ^ 52); [nia |].
      replace (length * 2 ^ B * Zpos q * (2 ^ 52 + 1) * 2 ^ (e + 200) * 2 ^ 52)
        with (Zpos q * 2 ^ (e + 200) * length * 2 ^ 52 * ((2 ^ 52 + 1) * 2 ^ B)) by lia. nia.
    - rewrite <- !Z.mul_assoc, <- !Z.pow_add_r by lia. do 2 f_equal. lia. }
  assert (Hfin : forall X D, 0 < D -> X * 2 ^ 104 <= limit * D * (2 ^ 52 + 1) * (2 ^ 52 + 1) -> X < (limit + 1) * D).
  { intros X D HD HX. apply (Z.mul_lt_mono_pos_r (2 ^ 104)); [lia |].
    apply (Z.le_lt_trans _ _ _ HX). replace ((limit + 1) * D * 2 ^ 104) with ((limit + 1) * 2 ^ 104 * D) by lia.
    replace (limit * D * (2 ^ 52 + 1) * (2 ^ 52 + 1)) with (limit * ((2 ^ 52 + 1) * (2 ^ 52 + 1)) * D) by lia.
    apply Z.mul_lt_mono_pos_r; lia. }
  cbn [floor]. destruct (Z.leb_spec 0 e3) as [Hpos | Hneg]; eexists; (split; [reflexivity |]).
  - assert (Zpos m3 * 2 ^ e3 < (limit + 1) * 1); [| lia]. apply Hfin; [lia |].
    rewrite Z.pow_add_r in Hmain by lia. set (X := Zpos m3 * 2 ^ e3) in *. assert (0 < 2 ^ 200) by (apply Z.pow_pos_nonneg; lia).
    apply (Z.mul_le_mono_pos_r _ _ (2 ^ 200)); [done |]. unfold X in *. lia.
  - assert (HD : 0 < 2 ^ (- e3)) by (apply Z.pow_pos_nonneg; lia). split; [apply Z.div_pos; lia |].
    apply Z.lt_succ_r, Z.div_lt_upper_bound; [done |]. rewrite Z.mul_comm. apply Hfin; [done |].
    assert (Hs : 0 < 2 ^ (e3 + 200)) by (apply Z.pow_pos_nonneg; lia).
    replace (2 ^ 200) with (2 ^ (e3 + 200) * 2 ^ (- e3)) in Hmain by (rewrite <- Z.pow_add_r by lia; f_equal; lia).
    apply (Z.mul_le_mono_pos_r _ _ (2 ^ (e3 + 200))); [done |]. lia.
Qed.

(** ** Products in single precision *)

Lemma shr_none r e n : n <= 0 -> shr r e n = (r, e).
Proof. by destruct n as [| ? |]; cbn; try lia. Qed.

(** The second shift of [binary_round_aux], after the mantissa was rounded. *)
Definition round_again (s : bool) (m e : Z) : spec_float :=
  let '(mrs, e) := shr_fexp 24 128 m e loc_Exact in
  match shr_m mrs with
  | Z0 => S754_zero s
  | Zpos m => if e <=? 128 - 24 then S754_finite s m e else S754_infinity s
  | Zneg _ => S754_nan
  end.

Lemma round_again_le s r e bound : 0 <= r -> - 149 <= e -> r * 2 ^ (e + 400) <= bound -> bound < 2 ^ 416 ->
  round_again s r e = S754_zero s
  \/ exists m' e', round_again s r e = S754_finite s m' e' /\ - 400 <= e' /\ Zpos m' * 2 ^ (e' + 400) <= bound.
Proof.
  intros Hr He Hval Hb. unfold round_again, shr_fexp. set (k := fexp 24 128 (Zdigits2 r + e) - e).
  destruct r as [| r |]; [left | right | lia].
  - destruct (Z.le_gt_cases k 0) as [Hz | Hz]; [by rewrite shr_none |].
    destruct (shr_m_shift 0 loc_Exact e k) as [Hz0 _]; [lia.. |].
    destruct (shr _ _ _) as [mrs2 e2]. cbn [fst] in Hz0. rewrite Hz0, Z.div_0_l by (apply Z.pow_nonzero; lia). done.
  - pose proof (digits_bounds r) as [Hlr _]. assert (Hp : 0 < 2 ^ (e + 400)) by (apply Z.pow_pos_nonneg; lia).
    assert (Hrd : Zpos (digits2_pos r) + e <= 16).
    { destruct (Z.le_gt_cases (Zpos (digits2_pos r) + e) 16); [done |]. exfalso.
      assert (H416 : 2 ^ 416 <= 2 ^ (Zpos (digits2_pos r) - 1 + (e + 400))) by (apply Z.pow_le_mono_r; lia).
      rewrite Z.pow_add_r in H416 by lia. nia. }
    assert (Hk16 : k + e <= 0) by (unfold k, fexp, emin; cbn [Zdigits2]; lia).
    destruct (Z.le_gt_cases k 0) as [Hk | Hk].
    + rewrite shr_none by done. cbn [shr_record_of_loc shr_m]. rewrite (proj2 (Z.leb_le _ _)) by lia. by exists r, e; split_and!; [| lia |].
    + destruct (shr_m_shift (Zpos r) loc_Exact e k) as [Hm2 He2]; [lia.. |].
      destruct (shr (shr_record_of_loc (Zpos r) loc_Exact) e k) as [mrs2 e2]. cbn [fst snd] in Hm2, He2. subst e2. rewrite Hm2.
      assert (Hk0 : 0 < 2 ^ k) by (apply Z.pow_pos_nonneg; lia). assert (Hdm2 := Z.mul_div_le (Zpos r) (2 ^ k) Hk0).
      assert (H1 : 1 <= Zpos r / 2 ^ k).
      { apply Z.div_le_lower_bound; [done |]. transitivity (2 ^ (Zpos (digits2_pos r) - 1)); [| done].
        rewrite Z.mul_1_r. apply Z.pow_le_mono_r; [lia |]. unfold k, fexp, emin. cbn [Zdigits2]. lia. }
      destruct (Zpos r / 2 ^ k) as [| r2 |] eqn:Hr2; try lia. rewrite (proj2 (Z.leb_le _ _)) by lia. exists r2, (e + k).
      split_and!; [done | lia |]. replace (e + k + 400) with (k + (e + 400)) by lia. rewrite Z.pow_add_r by lia. nia.
Qed.

(** Rounding to single precision a number of at most 15 bits before the point errs by
    less than the unit of its last place. *)
Lemma round_near s m e limit : 0 <= limit <= 32767 -> - 300 <= e -> Zpos m * 2 ^ (e + 400) <= limit * 2 ^ 400 ->
  let y := binary_round_aux 24 128 s (Zpos m) e loc_Exact in
  y = S754_zero s \/ exists m' e', y = S754_finite s m' e' /\ - 400 <= e' /\ Zpos m' * 2 ^ (e' + 400) <= limit * 2 ^ 400 + 2 ^ 391.
Proof.
  intros Hlimit He H. assert (Hlim : limit * 2 ^ 400 <= 32767 * 2 ^ 400) by (apply Z.mul_le_mono_nonneg_r; [vm_compute; discriminate | lia]). cbv zeta. unfold binary_round_aux. set (d := Zpos (digits2_pos m)). pose proof (digits_bounds m) as [Hlow Hup]. fold d in Hlow, Hup.
  assert (Hde : d + e <= 15).
  { destruct (Z.le_gt_cases (d + e) 15); [done |]. exfalso.
    assert (H415 : 2 ^ 415 <= 2 ^ (d - 1 + (e + 400))) by (apply Z.pow_le_mono_r; lia). rewrite Z.pow_add_r in H415 by lia.
    assert (0 < 2 ^ (e + 400)) by (apply Z.pow_pos_nonneg; lia). assert (2 ^ 415 <= Zpos m * 2 ^ (e + 400)) by nia.
    assert (32767 * 2 ^ 400 < 2 ^ 415) by (vm_compute; reflexivity). lia. }
  set (n := Z.max (d + e - 24) (-149) - e).
  assert (Hs : shr_fexp 24 128 (Zpos m) e loc_Exact = shr (shr_record_of_loc (Zpos m) loc_Exact) e n) by (unfold shr_fexp, fexp, emin; cbn [Zdigits2]; f_equal; lia).
  rewrite Hs. destruct (Z.le_gt_cases n 0) as [Hn | Hn].
  - rewrite shr_none by done. cbn [shr_record_of_loc shr_m loc_of_shr_record round_nearest_even].
    rewrite Hs, shr_none by done. cbn [shr_record_of_loc shr_m]. rewrite (proj2 (Z.leb_le _ _)) by lia.
    right. exists m, e. split_and!; [done | lia |]. assert (0 <= 2 ^ 391) by (apply Z.pow_nonneg; lia). lia.
  - destruct (shr_m_shift (Zpos m) loc_Exact e n) as [Hq Hee]; [lia.. |].
    destruct (shr (shr_record_of_loc (Zpos m) loc_Exact) e n) as [mrs e1]. cbn [fst snd] in Hq, Hee. subst e1.
    pose proof (nearest_even_le (shr_m mrs) (loc_of_shr_record mrs)) as Hr.
    set (r := round_nearest_even (shr_m mrs) (loc_of_shr_record mrs)) in *. clearbody r.
    assert (Hn0 : 0 < 2 ^ n) by (apply Z.pow_pos_nonneg; lia).
    assert (Hdm := Z.mul_div_le (Zpos m) (2 ^ n) Hn0). rewrite <- Hq in Hdm. assert (Hq0 : 0 <= shr_m mrs) by (rewrite Hq; apply Z.div_pos; lia).
    assert (Hval : r * 2 ^ (e + n + 400) <= limit * 2 ^ 400 + 2 ^ 391).
    { assert (H391 : 2 ^ (e + n + 400) <= 2 ^ 391) by (apply Z.pow_le_mono_r; lia).
      assert (Hqv : shr_m mrs * 2 ^ (e + n + 400) <= Zpos m * 2 ^ (e + 400)).
      { replace (e + n + 400) with (n + (e + 400)) by lia. rewrite Z.pow_add_r by lia. assert (0 < 2 ^ (e + 400)) by (apply Z.pow_pos_nonneg; lia). nia. }
      assert (0 < 2 ^ (e + n + 400)) by (apply Z.pow_pos_nonneg; lia). nia. }
    apply (round_again_le s r (e + n) (limit * 2 ^ 400 + 2 ^ 391)); [lia | lia | done |].
    apply (Z.le_lt_trans _ (32767 * 2 ^ 400 + 2 ^ 391)); [by apply Z.add_le_mono_r | vm_compute; reflexivity].
Qed.

(** A value of type [float] that is a number, perhaps infinite. *)
Definition is_number (x : spec_float) : Prop := valid_binary 24 128 x = true /\ x <> S754_nan.

Lemma small_mantissa k m e : - 149 <= e -> - 150 <= k -> Zpos m < 2 ^ 24 ->
  (e < k -> Zpos m * 2 ^ (e + 400) <= 2 ^ (k + 423)) /\ (e = k -> Zpos m <= 8388608 -> Zpos m * 2 ^ (e + 400) <= 2 ^ (k + 423)).
Proof.
  intros He Hk Hm. split.
  - intros Hlt. replace (k + 423) with (24 + (k + 399)) by lia. rewrite (Z.pow_add_r 2 24) by lia.
    assert (2 ^ (e + 400) <= 2 ^ (k + 399)) by (apply Z.pow_le_mono_r; lia). assert (0 < 2 ^ (e + 400)) by (apply Z.pow_pos_nonneg; lia).
    generalize dependent (2 ^ (e + 400)). generalize dependent (2 ^ (k + 399)). clear - Hm. intros a b Hb Hb0. apply Z.mul_le_mono_nonneg; lia.
  - intros -> Hle. replace (k + 423) with (23 + (k + 400)) by lia. rewrite (Z.pow_add_r 2 23) by lia.
    assert (Hp : 0 < 2 ^ (k + 400)) by (apply Z.pow_pos_nonneg; lia). revert Hp. generalize (2 ^ (k + 400)). clear - Hle. intros p Hp. apply Z.mul_le_mono_nonneg_r; lia.
Qed.

Lemma compare_cont_le a b : Pos.compare_cont Eq a b <> Gt -> Zpos a <= Zpos b.
Proof. done. Qed.
Lemma compare_cont_ge a b : Pos.compare_cont Eq b a <> Lt -> Zpos a <= Zpos b.
Proof. intros H. by apply Z.ge_le. Qed.

(** Not negative, and at most two. *)
Definition up_to_two (x : spec_float) : Prop :=
  (exists s, x = S754_zero s) \/ exists m e, x = S754_finite false m e /\ - 149 <= e /\ Zpos m * 2 ^ (e + 400) <= 2 ^ 401.

Lemma clamp_up_to_two x : is_number x -> up_to_two (Binary32.clamp x (Binary32.of_Z 0) (Binary32.of_Z 2)).
Proof.
  intros [Hv Hn]. unfold Binary32.clamp, Binary32.ltb, SFltb.
  replace (Binary32.of_Z 0) with (S754_zero false) by reflexivity.
  replace (Binary32.of_Z 2) with (S754_finite false 8388608 (-22)) by reflexivity.
  assert (Hz : up_to_two (S754_zero false)) by (left; by exists false).
  assert (Htwo : up_to_two (S754_finite false 8388608 (-22))).
  { right. exists 8388608%positive, (-22). split_and!; [done | lia | vm_compute; discriminate]. }
  destruct x as [s | [] | | [] m e]; cbn [SFcompare]; [by left; exists s | done | done | done | done |].
  cbn [valid_binary] in Hv. unfold bounded in Hv. apply andb_true_iff in Hv as [Hc _]. unfold canonical_mantissa in Hc. apply Z.eqb_eq in Hc.
  unfold fexp, emin in Hc. pose proof (digits_bounds m) as [_ Hm].
  assert (Hm24 : Zpos m < 2 ^ 24) by (eapply Z.lt_le_trans; [exact Hm | apply Z.pow_le_mono_r; lia]).
  assert (He : - 149 <= e) by lia. clear Hc Hm.
  pose proof (small_mantissa (-22) m e He ltac:(lia) Hm24) as [Hlow Heq].
  destruct (Z.compare_spec (-22) e) as [He1 | He1 | He1]; [| exact Htwo |].
  - destruct (Pos.compare_cont Eq 8388608 m) eqn:Hcmp; [| exact Htwo |]; right; exists m, e; (split_and!; [done | done |]);
      (apply Heq; [done |]); apply compare_cont_ge; by rewrite Hcmp.
  - right. exists m, e. split_and!; [done | done |]. by apply Hlow.
Qed.

(** Their products are not negative, and below ten. *)
Lemma product_below_ten x y : up_to_two x -> up_to_two y ->
  (exists s, Binary32.mul x y = S754_zero s)
  \/ exists m e, Binary32.mul x y = S754_finite false m e /\ - 400 <= e /\ Zpos m * 2 ^ (e + 400) <= 10 * 2 ^ 400.
Proof.
  intros [[s ->] | (m1 & e1 & -> & He1 & Hm1)] [[s' ->] | (m2 & e2 & -> & He2 & Hm2)]; unfold Binary32.mul; cbn [SFmul xorb]; [by left; eexists.. |].
  destruct (round_near false (m1 * m2) (e1 + e2) 4 ltac:(lia)) as [-> | (m & e & -> & He & Hm)].
  - lia.
  - apply (Z.mul_le_mono_pos_r _ _ (2 ^ 400)); [vm_compute; reflexivity |].
    replace (Zpos (m1 * m2) * 2 ^ (e1 + e2 + 400) * 2 ^ 400) with (Zpos m1 * 2 ^ (e1 + 400) * (Zpos m2 * 2 ^ (e2 + 400))).
    + transitivity (2 ^ 401 * 2 ^ 401); [| vm_compute; discriminate]. apply Z.mul_le_mono_nonneg; [| done | | done]; apply Z.mul_nonneg_nonneg; try lia; apply Z.pow_nonneg; lia.
    + rewrite Pos2Z.inj_mul. replace (Zpos m1 * 2 ^ (e1 + 400) * (Zpos m2 * 2 ^ (e2 + 400))) with (Zpos m1 * Zpos m2 * (2 ^ (e1 + 400) * 2 ^ (e2 + 400))) by ring.
      rewrite <- (Z.mul_assoc (_ * _)), <- !Z.pow_add_r by lia. do 2 f_equal. lia.
  - left. by eexists.
  - right. exists m, e. split_and!; [done | done |]. transitivity (4 * 2 ^ 400 + 2 ^ 391); [done | vm_compute; discriminate].
Qed.
