(* ===== verification/Lifecycle.v ===== *)
(** * One session at a time, among threads

    What the voice and the screen half of the client share: a slot for the current
    session, sessions that threads hold while they start or stop one, and a
    lifecycle lock.  A thread is the list of what it has still to do; [ThreadCode]
    says which instructions hold a session, which one releases the lock, and which
    one stops the current session.  [life_ok] is the invariant, and one lemma per
    kind of section keeps it. *)

From S2P Require Import Prelude.

Local Open Scope nat_scope.
Local Open Scope list_scope.

(** ** Threads under a lock *)

Section Shape.
Context {I H : Type} (held : I -> list H) (token : I -> bool).

(** The instructions that show that the lock is held. *)
Definition tokens (l : list I) : nat := length (filter (fun i => token i = true) l).

(** What is only in the hands of a thread that has the lock. *)
Fixpoint guarded (t : list I) : Prop :=
  match t with
  | [] => True
  | i :: rest => (tokens (i :: rest) = 0 -> held i = []) /\ guarded rest
  end.

Lemma tokens_perm l l' : l ≡ₚ l' -> tokens l = tokens l'.
Proof. unfold tokens. by intros ->. Qed.

Lemma tokens_app l l' : tokens (l ++ l') = tokens l + tokens l'.
Proof. unfold tokens. by rewrite filter_app, length_app. Qed.

Lemma tokens_cons i l : tokens (i :: l) = (if token i then 1 else 0) + tokens l.
Proof. unfold tokens. destruct (token i) eqn:Hi; [by rewrite filter_cons_True | by rewrite filter_cons_False by congruence]. Qed.

Lemma tokens_none l : Forall (fun i => ~ token i = true) l -> tokens l = 0.
Proof. induction 1 as [| i l Hi _ IH]; [done |]. rewrite tokens_cons, IH. by destruct (token i). Qed.

Lemma tokens_some l : tokens l <> 0 -> exists i, i ∈ l /\ token i = true.
Proof.
  induction l as [| i l IH]; [done |]. rewrite tokens_cons. destruct (token i) eqn:Hi; [exists i; split; [left | done] |].
  intros Hl. destruct IH as (j & ? & ?); [done |]. exists j. split; [by right | done].
Qed.

Lemma guarded_app l rest : guarded l -> guarded rest -> guarded (l ++ rest).
Proof.
  intros Hl Hr. induction l as [| i l IH]; [done |]. destruct Hl as [Hi Hl]. split; [| by apply IH].
  rewrite app_comm_cons, tokens_app. intros Hz. apply Hi. lia.
Qed.

Lemma guarded_push l rest : guarded rest -> tokens rest <> 0 -> guarded (l ++ rest).
Proof.
  intros Hr Hu. induction l as [| i l IH]; [done |]. split; [| done]. rewrite app_comm_cons, tokens_app. lia.
Qed.

Lemma guarded_free l : l ≫= held = [] -> guarded l.
Proof.
  induction l as [| i l IH]; [done |]. cbn [mbind list_bind]. intros [Hi Hl]%app_eq_nil. split; [done | by apply IH].
Qed.

Lemma guarded_none l : guarded l -> tokens l = 0 -> l ≫= held = [].
Proof.
  induction l as [| i l IH]; [done |]. intros [Hi Hl] Hu. cbn [mbind list_bind]. rewrite Hi by done.
  rewrite tokens_cons in Hu. apply IH; [done | lia].
Qed.

Lemma all_guarded_none ts : Forall guarded ts -> tokens (concat ts) = 0 -> concat ts ≫= held = [].
Proof.
  induction 1 as [| t ts Ht _ IH]; [done |]. cbn [concat]. rewrite tokens_app. intros Hu.
  rewrite bind_app, (guarded_none t), IH by (done || lia). done.
Qed.

(** Neither in a thread's hands, nor under the lock. *)
Definition free_list (l : list I) : Prop := l ≫= held = [] /\ tokens l = 0.

Lemma free_guarded l : free_list l -> guarded l.
Proof. intros [Hl _]. by apply guarded_free. Qed.

Lemma free_app l l' : free_list l -> free_list l' -> free_list (l ++ l').
Proof. intros [H1 H2] [H3 H4]. split; [by rewrite bind_app, H1, H3 | by rewrite tokens_app, H2, H4]. Qed.

Lemma free_cons i l : held i = [] -> token i = false -> free_list l -> free_list (i :: l).
Proof. intros Hi Ht. apply (free_app [i]). split; [cbn; by rewrite Hi | by rewrite tokens_cons, Ht]. Qed.

Lemma free_map {A} (f : A -> I) l :
  (forall x, held (f x) = [] /\ token (f x) = false) -> free_list (f <$> l).
Proof.
  intros Hf. induction l as [| x l [IH1 IH2]]; [done |]. destruct (Hf x) as [Hh Hu].
  split; [cbn [fmap list_fmap mbind list_bind]; by rewrite Hh | by rewrite fmap_cons, tokens_cons, Hu].
Qed.

Lemma free_bind {A} (f : A -> list I) l : (forall x, free_list (f x)) -> free_list (l ≫= f).
Proof. intros Hf. induction l as [| x l IH]; [done |]. cbn [mbind list_bind]. by apply free_app. Qed.
End Shape.

(** What comes [later] than every [first] of its thread. *)
Section Order.
Context {I : Type} (first later : I -> bool).

Fixpoint orderly (t : list I) : Prop :=
  match t with
  | [] => True
  | i :: rest => (later i = true -> tokens first rest = 0) /\ orderly rest
  end.

Lemma orderly_app l rest : orderly l -> orderly rest -> tokens later l = 0 \/ tokens first rest = 0 -> orderly (l ++ rest).
Proof.
  intros Hl Hr Hs. induction l as [| i l IH]; [done |]. destruct Hl as [Hi Hl]. rewrite tokens_cons in Hs. split.
  - intros Hp. rewrite tokens_app, (Hi Hp). rewrite Hp in Hs. destruct Hs; lia.
  - apply IH; [done |]. destruct Hs; [left; lia | by right].
Qed.

Lemma orderly_none l : tokens later l = 0 \/ tokens first l = 0 -> orderly l.
Proof.
  induction l as [| i l IH]; [done |]. rewrite !tokens_cons. intros Hz.
  split; [intros Hi; rewrite Hi in Hz; lia | apply IH; destruct Hz; [left | right]; lia].
Qed.

(** A step of a thread. *)
Lemma orderly_step i more rest :
  orderly more -> (later i = false -> tokens later more = 0) -> orderly (i :: rest) -> orderly (more ++ rest).
Proof.
  intros Hm Hi [Hr Hrest]. apply orderly_app; [done | done |]. destruct (later i); [right; by apply Hr | left; by apply Hi].
Qed.
End Order.

(** Lists that are free, piece by piece. *)
Ltac plain := repeat first [done | solve [auto] | apply free_cons; [done | done |] | apply free_app].

(** All the branches of a section. *)
Ltac branches :=
  repeat match goal with
    | |- context [match ?x with Some _ => _ | None => _ end] => destruct x
    | |- context [if ?b then _ else _] => destruct b
    end.

Class ThreadCode (I : Type) := {
  held_session : I -> list nat;
  is_unlock : I -> bool;
  is_stop : I -> bool;
}.

(** The slot, the sessions that were closed and made, and the lock. *)
Record Life := mkLife { current : option nat; closed_sessions : gset nat; made_sessions : nat; locked : bool }.

(** A session is only in the hands of a thread that will unlock afterwards. *)
Abbreviation unlocks := (tokens is_unlock).
Abbreviation locked_shape := (guarded held_session is_unlock).
Abbreviation plain_list := (free_list held_session is_unlock).

Section Lifecycle.
Context {I : Type} `{ThreadCode I}.

Definition stopping (ts : list (list I)) : Prop := exists i, i ∈ concat ts /\ is_stop i = true.

(** Every session is current, a thread's, or closed, and only once; at most one is
    not closed; one that is not wanted is about to be stopped. *)
Record life_ok (w : Life) (wanted : Prop) (ts : list (list I)) : Prop := {
  ok_sessions : option_list (current w) ++ (concat ts ≫= held_session) ++ elements (closed_sessions w) ≡ₚ seq 0 (made_sessions w);
  ok_one : length (option_list (current w)) + length (concat ts ≫= held_session) <= 1;
  ok_lock : unlocks (concat ts) = if locked w then 1 else 0;
  ok_shape : Forall locked_shape ts;
  ok_wanted : is_Some (current w) -> wanted \/ stopping ts;
}.

(** ** Threads that come and go *)

Lemma life_ok_perm w wanted ts ts' : ts ≡ₚ ts' -> life_ok w wanted ts -> life_ok w wanted ts'.
Proof.
  intros Hp. pose proof (concat_perm _ _ Hp) as Hc. intros [Hs Ho Hl Hsh Hw].
  split; first [by rewrite <- Hp | by rewrite <- Hc | by rewrite <- (tokens_perm is_unlock _ _ Hc) | idtac].
  intros Hse. destruct (Hw Hse) as [? | (i & Hi & ?)]; [by left | right]. exists i. by rewrite <- Hc.
Qed.

Lemma life_ok_wanted w (wanted wanted' : Prop) ts : (wanted -> wanted') -> life_ok w wanted ts -> life_ok w wanted' ts.
Proof. intros Himp [Hs Ho Hl Hsh Hw]. split; try done. intros Hse. destruct (Hw Hse); [left; auto | by right]. Qed.

(** A thread that has nothing left. *)
Lemma life_ok_done w wanted ts : life_ok w wanted ([] :: ts) -> life_ok w wanted ts.
Proof. intros [Hs Ho Hl Hsh Hw]. split; try done. by apply Forall_cons in Hsh as [_ ?]. Qed.

(** A thread that begins. *)
Lemma life_ok_begin w wanted ts l : plain_list l -> life_ok w wanted ts -> life_ok w wanted (l :: ts).
Proof.
  intros [H1 H2] [Hs Ho Hl Hsh Hw]. split; try done.
  - cbn [concat]. by rewrite bind_app, H1.
  - cbn [concat]. by rewrite bind_app, H1.
  - cbn [concat]. by rewrite tokens_app, H2.
  - constructor; [by apply guarded_free | done].
  - intros Hse. destruct (Hw Hse) as [? | (i & Hi & ?)]; [by left | right]. exists i. cbn [concat]. by rewrite elem_of_app; auto.
Qed.

(** A thread that begins and will stop: nothing need be wanted any more. *)
Lemma life_ok_unwanted w wanted wanted' ts l :
  plain_list l -> (exists i, i ∈ l /\ is_stop i = true) -> life_ok w wanted ts -> life_ok w wanted' (l :: ts).
Proof.
  intros Hl (i & Hi & Hst) Hok. pose proof (life_ok_begin w wanted ts l Hl Hok) as [Hs Ho Hlk Hsh _]. split; try done.
  intros _. right. exists i. split; [| done]. cbn [concat]. rewrite elem_of_app. by left.
Qed.

(** Nothing is in a thread's hands while the lock is free. *)
Lemma free_none w wanted ts : life_ok w wanted ts -> locked w = false -> concat ts ≫= held_session = [].
Proof. intros [Hs Ho Hl Hsh Hw] Hlock. apply (all_guarded_none held_session is_unlock); [done |]. by rewrite Hl, Hlock. Qed.

Lemma current_made w wanted ts id : life_ok w wanted ts -> current w = Some id -> id < made_sessions w.
Proof.
  intros [Hs _ _ _ _] Hid. assert (Hin : id ∈ seq 0 (made_sessions w)) by (rewrite <- Hs, Hid; left).
  apply elem_of_seq in Hin. lia.
Qed.

(** ** Sections *)

Lemma todo_bind (i : I) more rest others :
  concat ((i :: rest) :: others) ≫= held_session = held_session i ++ concat (rest :: others) ≫= held_session
  /\ concat ((more ++ rest) :: others) ≫= held_session = (more ≫= held_session) ++ concat (rest :: others) ≫= held_session.
Proof. split; [done |]. cbn [concat]. by rewrite !bind_app, app_assoc. Qed.

Lemma unlocks_head (i : I) more rest others :
  unlocks (concat ((i :: rest) :: others)) = (if is_unlock i then 1 else 0) + unlocks (concat (rest :: others))
  /\ unlocks (concat ((more ++ rest) :: others)) = unlocks more + unlocks (concat (rest :: others)).
Proof. cbn [concat app]. rewrite tokens_cons, !tokens_app. split; lia. Qed.

Lemma stopping_rest (i : I) more rest others :
  is_stop i = false -> stopping ((i :: rest) :: others) -> stopping ((more ++ rest) :: others).
Proof.
  intros Hi (j & Hin & Hj). exists j. split; [| done]. cbn [concat] in *. cbn [app] in Hin.
  apply elem_of_cons in Hin as [-> | Hin]; [congruence |]. rewrite <- app_assoc, elem_of_app. by right.
Qed.

(** One section: instruction [i] of a thread is replaced by [more].  What matters
    is what happens to the sessions and to the lock. *)
Lemma life_step w w' wanted wanted' i more rest others :
  life_ok w wanted ((i :: rest) :: others) ->
  (option_list (current w) ++ held_session i ++ elements (closed_sessions w) ≡ₚ seq 0 (made_sessions w) ->
   concat (rest :: others) ≫= held_session = [] ->
   option_list (current w') ++ (more ≫= held_session) ++ elements (closed_sessions w') ≡ₚ seq 0 (made_sessions w')
   /\ length (option_list (current w')) + length (more ≫= held_session) <= 1) ->
  (held_session i ++ (more ≫= held_session) <> [] \/ current w' <> current w \/ made_sessions w' <> made_sessions w ->
   concat (rest :: others) ≫= held_session = []) ->
  (held_session i ++ (more ≫= held_session) = [] -> current w' = current w -> made_sessions w' = made_sessions w ->
   closed_sessions w' = closed_sessions w) ->
  (unlocks more + (if locked w then 1 else 0) = (if is_unlock i then 1 else 0) + (if locked w' then 1 else 0)) ->
  (locked_shape more \/ (held_session i <> [] /\ is_unlock i = false)) ->
  (is_Some (current w') -> wanted' \/ (is_stop i = false /\ is_Some (current w) /\ (wanted -> wanted'))) ->
  life_ok w' wanted' ((more ++ rest) :: others).
Proof.
  intros [Hs Ho Hl Hsh Hw] Hmove Hnone Hstay Hlock Hshape Hwant.
  destruct (todo_bind i more rest others) as [Hb1 Hb2]. destruct (unlocks_head i more rest others) as [Hu1 Hu2].
  rewrite Hb1 in Hs, Ho. rewrite Hu1 in Hl.
  assert (Hcases : (concat (rest :: others) ≫= held_session = [])
                   \/ (held_session i ++ (more ≫= held_session) = [] /\ current w' = current w /\ made_sessions w' = made_sessions w)).
  { destruct (decide (held_session i ++ (more ≫= held_session) = [])); [| left; apply Hnone; by left].
    destruct (decide (current w' = current w)); [| left; apply Hnone; by right; left].
    destruct (decide (made_sessions w' = made_sessions w)); [by right | left; apply Hnone; by right; right]. }
  assert (Hsess : option_list (current w') ++ (concat ((more ++ rest) :: others) ≫= held_session) ++ elements (closed_sessions w')
                    ≡ₚ seq 0 (made_sessions w')
                  /\ length (option_list (current w')) + length (concat ((more ++ rest) :: others) ≫= held_session) <= 1).
  { rewrite Hb2. destruct Hcases as [Hn | (Hn & Hc & Hm)].
    - rewrite Hn, app_nil_r in *. by apply Hmove.
    - rewrite (Hstay Hn Hc Hm), Hc, Hm. apply app_eq_nil in Hn as [Hi Hmo]. rewrite Hi in Hs, Ho. by rewrite Hmo. }
  destruct Hsess as [Hs' Ho']. split; try done.
  - rewrite Hu2. lia.
  - apply Forall_cons in Hsh as [Hsh Hsho]. constructor; [| done]. destruct Hshape as [Hshape | [Hh Hiu]].
    + apply guarded_app; [done | apply Hsh].
    + apply guarded_push; [apply Hsh |]. intros Hz. apply Hh, Hsh. by rewrite tokens_cons, Hiu.
  - intros Hse. destruct (Hwant Hse) as [? | (Hst & Hcur & Himp)]; [by left |].
    destruct (Hw Hcur) as [? | Hin]; [left; auto | right]. by apply (stopping_rest i).
Qed.

(** A section that moves no session. *)
Lemma life_plain w wanted i more rest others :
  held_session i = [] -> is_unlock i = false -> is_stop i = false -> plain_list more ->
  life_ok w wanted ((i :: rest) :: others) -> life_ok w wanted ((more ++ rest) :: others).
Proof.
  intros Hi Hu Hst [Hm1 Hm2] Hok. eapply life_step; [exact Hok | ..]; rewrite ?Hi, ?Hm1, ?Hm2, ?Hu.
  - intros Hs Hn. split; [done |]. destruct (current w); simpl; lia.
  - by intros [? | [? | ?]].
  - done.
  - done.
  - left. by apply guarded_free.
  - intros Hse. by right.
Qed.

(** What a thread holds, nobody else does. *)
Lemma held_alone w wanted i rest others :
  held_session i <> [] -> life_ok w wanted ((i :: rest) :: others) ->
  current w = None /\ concat (rest :: others) ≫= held_session = [].
Proof.
  intros Hi [_ Ho _ _ _]. rewrite (proj1 (todo_bind i [] rest others)), length_app in Ho.
  destruct (concat (rest :: others) ≫= held_session), (held_session i), (current w); simpl in Ho; (done || lia).
Qed.

Lemma life_keep w wanted i id more rest others :
  held_session i = [id] -> is_unlock i = false -> is_stop i = false -> more ≫= held_session = [id] -> unlocks more = 0 ->
  life_ok w wanted ((i :: rest) :: others) -> life_ok w wanted ((more ++ rest) :: others).
Proof.
  intros Hi Hu Hst Hm1 Hm2 Hok. destruct (held_alone w wanted i rest others) as [Hc Hn]; [by rewrite Hi | done |].
  eapply life_step; [exact Hok | ..]; rewrite ?Hi, ?Hm1, ?Hm2, ?Hu, ?Hc; try done.
  - by right.
Qed.

Definition close_life (id : nat) (w : Life) : Life := mkLife (current w) ({[id]} ∪ closed_sessions w) (made_sessions w) (locked w).

Lemma life_close w wanted i id more rest others :
  held_session i = [id] -> is_unlock i = false -> is_stop i = false -> plain_list more ->
  life_ok w wanted ((i :: rest) :: others) -> life_ok (close_life id w) wanted ((more ++ rest) :: others).
Proof.
  intros Hi Hu Hst [Hm1 Hm2] Hok. destruct (held_alone w wanted i rest others) as [Hc Hn]; [by rewrite Hi | done |].
  eapply life_step; [exact Hok | ..]; cbn [close_life current closed_sessions made_sessions locked]; rewrite ?Hi, ?Hm1, ?Hm2, ?Hu, ?Hc; try done.
  - intros Hs _. split; [| simpl; lia]. cbn [app option_list] in *. rewrite elements_union_singleton; [done |].
    intros Hin. assert (Hd : NoDup (id :: elements (closed_sessions w))) by (rewrite Hs; apply NoDup_seq).
    apply NoDup_cons in Hd as [Hd _]. by apply Hd, elem_of_elements.
  - left. by apply guarded_free.
Qed.

Lemma life_take w wanted i more rest others :
  held_session i = [] -> is_unlock i = false -> is_stop i = false -> current w = None -> locked w = false ->
  more ≫= held_session = [made_sessions w] -> unlocks more = 1 -> locked_shape more ->
  life_ok w wanted ((i :: rest) :: others) ->
  life_ok (mkLife None (closed_sessions w) (made_sessions w + 1) true) wanted ((more ++ rest) :: others).
Proof.
  intros Hi Hu Hst Hc Hlock Hm1 Hm2 Hshape Hok. pose proof (free_none w wanted _ Hok Hlock) as Hfree.
  rewrite (proj1 (todo_bind i [] rest others)), Hi in Hfree.
  eapply life_step; [exact Hok | ..]; cbn [current closed_sessions made_sessions locked]; rewrite ?Hi, ?Hm1, ?Hm2, ?Hu, ?Hc, ?Hlock; try done.
  - intros Hs _. split; [| simpl; lia]. rewrite Nat.add_1_r, seq_S, <- Hs. simpl. apply Permutation_cons_append.
  - by left.
Qed.

Lemma life_stop w wanted wanted' i more rest others :
  held_session i = [] -> is_unlock i = false -> locked w = false ->
  more ≫= held_session = option_list (current w) -> unlocks more = 1 -> locked_shape more ->
  life_ok w wanted ((i :: rest) :: others) ->
  life_ok (mkLife None (closed_sessions w) (made_sessions w) true) wanted' ((more ++ rest) :: others).
Proof.
  intros Hi Hu Hlock Hm1 Hm2 Hshape Hok. pose proof (free_none w wanted _ Hok Hlock) as Hfree.
  rewrite (proj1 (todo_bind i [] rest others)), Hi in Hfree.
  eapply (life_step w _ wanted); [exact Hok | ..]; cbn [current closed_sessions made_sessions locked]; rewrite ?Hi, ?Hm1, ?Hm2, ?Hu, ?Hlock; try done.
  - intros Hs _. split; [done |]. by destruct (current w); simpl; lia.
  - by left.
Qed.

(** The lock is taken for something else. *)
Lemma life_lock w wanted i more rest others :
  held_session i = [] -> is_unlock i = false -> is_stop i = false -> locked w = false ->
  more ≫= held_session = [] -> unlocks more = 1 ->
  life_ok w wanted ((i :: rest) :: others) ->
  life_ok (mkLife (current w) (closed_sessions w) (made_sessions w) true) wanted ((more ++ rest) :: others).
Proof.
  intros Hi Hu Hst Hlock Hm1 Hm2 Hok.
  eapply life_step; [exact Hok | ..]; cbn [current closed_sessions made_sessions locked]; rewrite ?Hi, ?Hm1, ?Hm2, ?Hu, ?Hlock; try done.
  - intros Hs _. split; [done |]. destruct (current w); simpl; lia.
  - by intros [? | [? | ?]].
  - left. by apply guarded_free.
  - intros Hse. by right.
Qed.

Lemma life_publish w wanted (wanted' : Prop) i id more rest others :
  held_session i = [id] -> is_unlock i = false -> plain_list more -> wanted' ->
  life_ok w wanted ((i :: rest) :: others) ->
  life_ok (mkLife (Some id) (closed_sessions w) (made_sessions w) (locked w)) wanted' ((more ++ rest) :: others).
Proof.
  intros Hi Hu [Hm1 Hm2] Hw Hok. destruct (held_alone w wanted i rest others) as [Hc Hn]; [by rewrite Hi | done |].
  eapply (life_step w _ wanted); [exact Hok | ..]; cbn [current closed_sessions made_sessions locked]; rewrite ?Hi, ?Hm1, ?Hm2, ?Hu, ?Hc; try done.
  - left. by apply guarded_free.
  - by left.
Qed.

Lemma life_unlock w wanted i rest others :
  held_session i = [] -> is_unlock i = true -> is_stop i = false ->
  life_ok w wanted ((i :: rest) :: others) ->
  life_ok (mkLife (current w) (closed_sessions w) (made_sessions w) false) wanted (rest :: others).
Proof.
  intros Hi Hu Hst Hok. assert (Hlock : locked w = true).
  { pose proof (ok_lock w wanted _ Hok) as Hl. rewrite (proj1 (unlocks_head i [] rest others)), Hu in Hl. by destruct (locked w). }
  apply (life_step w _ wanted wanted i []); [exact Hok | ..]; cbn [current closed_sessions made_sessions locked mbind list_bind];
    rewrite ?Hi, ?Hu, ?Hlock; try done.
  - intros Hs _. split; [done |]. destruct (current w); simpl; lia.
  - by intros [? | [? | ?]].
  - by left.
  - intros Hse. by right.
Qed.

(** When nothing is wanted and no thread is at work, every session is closed. *)
Lemma life_idle w wanted :
  life_ok w wanted [] -> ~ wanted -> current w = None /\ elements (closed_sessions w) ≡ₚ seq 0 (made_sessions w).
Proof.
  intros [Hs _ _ _ Hw] Hno. assert (Hc : current w = None).
  { destruct (current w); [| done]. destruct Hw as [? | (i & Hi & _)]; [done | done | by apply elem_of_nil in Hi]. }
  split; [done |]. by rewrite Hc in Hs.
Qed.
End Lifecycle.
