(* ===== verification/ClientVoice.v ===== *)
(** * The client's control of its voice session (core/src/webrtc/google_webrtc_client.cpp)

    The members of [GoogleWebRtcClient::Impl] that belong to voice.  A thread is
    the list of what it has still to do; [act] lets a thread begin or run to its
    next critical section, so calls of the application, callbacks of the transport
    and of the sessions, and the recovery worker interleave at every unlock.
    [voice_lifecycle_mutex] is held for several sections and is a member of the
    world.  Sessions and their recovery tokens are numbered as they are made.  Of a
    session the world keeps its microphone and its remote tracks: the library makes a
    track, enabled, when the receiver gets its mid, and announces it once the session
    was given an answer ([track_made], [track_arrives]); what the client then asks of it
    is refused by a session that is closed or has no such track.  The sections that touch the
    screen's members touch none of these and are in ClientScreen. *)

From S2P Require Import Prelude Floats Lifecycle.

Local Open Scope nat_scope.
Local Open Scope list_scope.

(** Single-precision numbers; [usable] is the check of [set_remote_track_volume] of the
    number as a [double]: finite, from 0 to 10. *)
Class Float := {
  float : Type;
  float_eq_dec :: EqDecision float;
  zero : float;
  one : float;
  two : float;
  float_lt : float -> float -> bool;
  float_mul : float -> float -> float;
  is_nan : float -> bool;
  usable : float -> bool;
}.

(** What a statistics report says. *)
Record VoiceStats := mkVoiceStats {
  packets_sent : Z;
  bytes_sent : Z;
  (** packets and bytes received, packets lost, concealed samples *)
  inbound : list (Z * Z * Z * Z);
}.

Section Client.
Context `{Float}.

Definition clamp_volume (volume : float) : float :=
  if float_lt volume zero then zero else if float_lt two volume then two else volume.

Record VoiceTrackUpdate := mkUpdate {
  update_session : nat;
  update_mid : string;
  update_enabled : bool;
  update_volume : option float;
}.

(** The members that belong to voice. *)
Record Voice := mkVoice {
  voice_session : option nat;
  voice_session_token : option nat;
  voice_bindings : gmap string string;
  voice_peer_volumes : gmap string float;
  voice_peer_muted : gmap string bool;
  selected_input_device : string;
  selected_output_device : string;
  master_volume_value : float;
  voice_requested : bool;
  voice_muted : bool;
  voice_deafened : bool;
  voice_stats : option VoiceStats;
  voice_stats_in_flight : bool;
}.

(** The sessions: the microphone, whether each remote track that has a mid is enabled
    and its volume, the sessions that were given an answer, and the tracks that
    [OnTrack] announced. *)
Record Sessions := mkSessions {
  next_session : nat;
  closed : gset nat;
  microphone : gmap nat bool;
  tracks : gmap (nat * string) (bool * float);
  answered : gset nat;
  announced : gset (nat * string);
  recovery_scheduled : gset nat;
  stats_requests : list nat;
}.

Record Recovery := mkRecovery { recovery_queue : list nat; recovery_worker : bool; recovery_busy : bool; recovery_stopping : bool }.

(** What a thread does next. *)
Inductive Instr :=
  | StartVoice
  | StartSession (id : nat) (microphone_enabled : bool)
  | ApplyDevices
  | FallBack (playout : bool) (name : string)
  | Publish (id : nat)
  | Apply (u : VoiceTrackUpdate)
  | CloseSession (id : nat)
  | Unlock
  | StopVoice
  | SetMicrophone (id : nat) (enabled : bool)
  | SetPlayoutMuted (muted : bool)
  | SetPlayoutVolume (volume : float)
  | Recover (token : nat)
  | RecoveryDone
  | RequestStats (id : nat)
  | StatsFailed.

(** The screen's playout takes the master volume and the deafening. *)
Record World := mkWorld {
  voice : Voice;
  sessions : Sessions;
  recovery : Recovery;
  connected : bool;
  lifecycle_held : bool;
  playout_muted : bool;
  playout_volume : float;
  threads : list (list Instr);
}.

Definition new_voice : Voice :=
  mkVoice None None ∅ ∅ ∅ "default" "default" one false false false None false.

Definition new_world : World :=
  mkWorld new_voice (mkSessions 0 ∅ ∅ ∅ ∅ ∅ ∅ []) (mkRecovery [] false false false) false false false one [].

Definition with_voice (v : Voice) (w : World) : World :=
  mkWorld v (sessions w) (recovery w) (connected w) (lifecycle_held w) (playout_muted w) (playout_volume w) (threads w).
Definition with_sessions (s : Sessions) (w : World) : World :=
  mkWorld (voice w) s (recovery w) (connected w) (lifecycle_held w) (playout_muted w) (playout_volume w) (threads w).
Definition with_recovery (r : Recovery) (w : World) : World :=
  mkWorld (voice w) (sessions w) r (connected w) (lifecycle_held w) (playout_muted w) (playout_volume w) (threads w).
Definition with_connected (c : bool) (w : World) : World :=
  mkWorld (voice w) (sessions w) (recovery w) c (lifecycle_held w) (playout_muted w) (playout_volume w) (threads w).
Definition with_lock (held : bool) (w : World) : World :=
  mkWorld (voice w) (sessions w) (recovery w) (connected w) held (playout_muted w) (playout_volume w) (threads w).
Definition with_playout (m : bool) (x : float) (w : World) : World :=
  mkWorld (voice w) (sessions w) (recovery w) (connected w) (lifecycle_held w) m x (threads w).

(** A thread is in the world's list while it has something to do. *)
Definition spawn (todo : list Instr) (w : World) : World :=
  mkWorld (voice w) (sessions w) (recovery w) (connected w) (lifecycle_held w) (playout_muted w) (playout_volume w)
    (match todo with [] => threads w | _ => todo :: threads w end).

Definition with_session (s token : option nat) (v : Voice) : Voice :=
  mkVoice s token (voice_bindings v) (voice_peer_volumes v) (voice_peer_muted v) (selected_input_device v)
    (selected_output_device v) (master_volume_value v) (voice_requested v) (voice_muted v) (voice_deafened v)
    (voice_stats v) (voice_stats_in_flight v).
Definition with_bindings (b : gmap string string) (v : Voice) : Voice :=
  mkVoice (voice_session v) (voice_session_token v) b (voice_peer_volumes v) (voice_peer_muted v) (selected_input_device v)
    (selected_output_device v) (master_volume_value v) (voice_requested v) (voice_muted v) (voice_deafened v)
    (voice_stats v) (voice_stats_in_flight v).
Definition with_volumes (p : gmap string float) (master : float) (v : Voice) : Voice :=
  mkVoice (voice_session v) (voice_session_token v) (voice_bindings v) p (voice_peer_muted v) (selected_input_device v)
    (selected_output_device v) master (voice_requested v) (voice_muted v) (voice_deafened v)
    (voice_stats v) (voice_stats_in_flight v).
Definition with_peer_muted (m : gmap string bool) (v : Voice) : Voice :=
  mkVoice (voice_session v) (voice_session_token v) (voice_bindings v) (voice_peer_volumes v) m (selected_input_device v)
    (selected_output_device v) (master_volume_value v) (voice_requested v) (voice_muted v) (voice_deafened v)
    (voice_stats v) (voice_stats_in_flight v).
Definition with_devices (input output : string) (v : Voice) : Voice :=
  mkVoice (voice_session v) (voice_session_token v) (voice_bindings v) (voice_peer_volumes v) (voice_peer_muted v) input
    output (master_volume_value v) (voice_requested v) (voice_muted v) (voice_deafened v)
    (voice_stats v) (voice_stats_in_flight v).
Definition with_flags (requested muted deafened : bool) (v : Voice) : Voice :=
  mkVoice (voice_session v) (voice_session_token v) (voice_bindings v) (voice_peer_volumes v) (voice_peer_muted v)
    (selected_input_device v) (selected_output_device v) (master_volume_value v) requested muted deafened
    (voice_stats v) (voice_stats_in_flight v).
Definition with_stats (stats : option VoiceStats) (in_flight : bool) (v : Voice) : Voice :=
  mkVoice (voice_session v) (voice_session_token v) (voice_bindings v) (voice_peer_volumes v) (voice_peer_muted v)
    (selected_input_device v) (selected_output_device v) (master_volume_value v) (voice_requested v) (voice_muted v)
    (voice_deafened v) stats in_flight.

(** A new session, and the other members of [Sessions]. *)
Definition with_made (s : Sessions) : Sessions :=
  mkSessions (next_session s + 1) (closed s) (microphone s) (tracks s) (answered s) (announced s) (recovery_scheduled s) (stats_requests s).
Definition with_tracks (t : gmap (nat * string) (bool * float)) (s : Sessions) : Sessions :=
  mkSessions (next_session s) (closed s) (microphone s) t (answered s) (announced s) (recovery_scheduled s) (stats_requests s).
Definition with_heard (a : gset nat) (n : gset (nat * string)) (s : Sessions) : Sessions :=
  mkSessions (next_session s) (closed s) (microphone s) (tracks s) a n (recovery_scheduled s) (stats_requests s).
Definition with_scheduled (c : gset nat) (s : Sessions) : Sessions :=
  mkSessions (next_session s) (closed s) (microphone s) (tracks s) (answered s) (announced s) c (stats_requests s).
Definition with_asked (l : list nat) (s : Sessions) : Sessions :=
  mkSessions (next_session s) (closed s) (microphone s) (tracks s) (answered s) (announced s) (recovery_scheduled s) l.

(** ** Track updates *)

Definition voice_update_locked (mid : string) (v : Voice) : option VoiceTrackUpdate :=
  match voice_session v with
  | None => None
  | Some id =>
    match voice_bindings v !! mid with
    | None => Some (mkUpdate id mid false None)
    | Some peer =>
      let muted := default false (voice_peer_muted v !! peer) in
      let volume := float_mul (master_volume_value v) (default one (voice_peer_volumes v !! peer)) in
      Some (mkUpdate id mid (negb (voice_deafened v) && negb muted) (Some volume))
    end
  end.

Definition all_voice_updates_locked (v : Voice) : list VoiceTrackUpdate :=
  omap (fun mid => voice_update_locked mid v) (map_to_list (voice_bindings v)).*1.

(** What the session does with an update: a session that was closed, and a mid that no
    track has, refuse it, and so does the track a volume that is not usable. *)
Definition apply (u : VoiceTrackUpdate) (s : Sessions) : Sessions :=
  let key := (update_session u, update_mid u) in
  if bool_decide (update_session u ∈ closed s) then s
  else match tracks s !! key with
       | None => s
       | Some (_, volume) =>
         with_tracks
           (<[key := (update_enabled u,
                      match update_volume u with Some x => if usable x then x else volume | None => volume end)]> (tracks s)) s
       end.

Definition close_session (id : nat) (s : Sessions) : Sessions :=
  mkSessions (next_session s) ({[id]} ∪ closed s) (microphone s) (tracks s) (answered s) (announced s)
    (recovery_scheduled s) (stats_requests s).

Definition set_microphone (id : nat) (enabled : bool) (s : Sessions) : Sessions :=
  mkSessions (next_session s) (closed s) (<[id := enabled]> (microphone s)) (tracks s) (answered s) (announced s)
    (recovery_scheduled s) (stats_requests s).

(** ** One step of a thread *)

(** A section's effect and what the thread does next; [None]: the lock is held by
    another thread.  [answer]: the outcome of the library's calls of the section. *)
Definition start_voice_if_requested (w : World) : option (World * list Instr) :=
  let v := voice w in
  let s := sessions w in
  if lifecycle_held w then None
  else if negb (voice_requested v) || bool_decide (is_Some (voice_session v)) || negb (connected w) then Some (w, [])
  else
    let id := next_session s in
    Some (with_lock true (with_sessions (with_made s) w), [StartSession id (negb (voice_muted v)); Unlock]).

(** A session that did not start is released. *)
Definition start_session (id : nat) (microphone_enabled : bool) (answer : nat -> bool) (w : World) : World * list Instr :=
  let s := sessions w in
  if negb (answer 0) then (with_sessions (close_session id s) w, [])
  else (with_sessions (set_microphone id microphone_enabled s) w, [ApplyDevices; Publish id]).

Definition publish (id : nat) (w : World) : World * list Instr :=
  let v := voice w in
  if voice_requested v && negb (bool_decide (is_Some (voice_session v))) && connected w then
    let v := with_session (Some id) (Some id) v in
    (with_voice v w, Apply <$> all_voice_updates_locked v)
  else (w, [CloseSession id]).

Definition apply_selected_audio_devices (answer : nat -> bool) (w : World) : list Instr :=
  let v := voice w in
  (if answer 0 then [] else if answer 1 then [FallBack false (selected_input_device v)] else [])
  ++ (if answer 2 then [] else if answer 3 then [FallBack true (selected_output_device v)] else []).

(** The default was taken in place of [name]. *)
Definition fall_back (playout : bool) (name : string) (v : Voice) : Voice :=
  if playout
  then (if bool_decide (selected_output_device v = name) then with_devices (selected_input_device v) "default" v else v)
  else (if bool_decide (selected_input_device v = name) then with_devices "default" (selected_output_device v) v else v).

Definition stop_voice_session (w : World) : option (World * list Instr) :=
  let v := voice w in
  if lifecycle_held w then None
  else
    let v' := with_stats None (voice_stats_in_flight v) (with_bindings ∅ (with_session None None v)) in
    Some (with_lock true (with_voice v' w),
          (match voice_session v with Some id => [CloseSession id] | None => [] end) ++ [Unlock]).

Definition recover_voice_session (token : nat) (w : World) : list Instr :=
  let v := voice w in
  if negb (voice_requested v) || negb (bool_decide (voice_session_token v = Some token)) || negb (connected w)
  then [] else [StopVoice; StartVoice].

(** The session has a connection, or not. *)
Definition request_stats (id : nat) (answer : nat -> bool) (w : World) : World * list Instr :=
  let s := sessions w in
  if answer 0 then
    (with_sessions (with_asked (id :: stats_requests s) s) w, [])
  else (w, [StatsFailed]).

Definition exec (i : Instr) (answer : nat -> bool) (w : World) : option (World * list Instr) :=
  let v := voice w in
  let s := sessions w in
  match i with
  | StartVoice => start_voice_if_requested w
  | StartSession id microphone_enabled => Some (start_session id microphone_enabled answer w)
  | ApplyDevices => Some (w, apply_selected_audio_devices answer w)
  | FallBack playout name => Some (with_voice (fall_back playout name v) w, [])
  | Publish id => Some (publish id w)
  | Apply u => Some (with_sessions (apply u s) w, [])
  | CloseSession id => Some (with_sessions (close_session id s) w, [])
  | Unlock => Some (with_lock false w, [])
  | StopVoice => stop_voice_session w
  | SetMicrophone id enabled => Some (with_sessions (set_microphone id enabled s) w, [])
  | SetPlayoutMuted muted => Some (with_playout muted (playout_volume w) w, [])
  | SetPlayoutVolume volume => Some (with_playout (playout_muted w) (clamp_volume volume) w, [])
  | Recover token => Some (w, recover_voice_session token w)
  | RecoveryDone =>
    let r := recovery w in
    Some (with_recovery (mkRecovery (recovery_queue r) (recovery_worker r) false (recovery_stopping r)) w, [])
  | RequestStats id => Some (request_stats id answer w)
  | StatsFailed => Some (with_voice (with_stats (voice_stats v) false v) w, [])
  end.

(** Thread [n] runs its next section. *)
Definition resume (n : nat) (answer : nat -> bool) (w : World) : World :=
  match threads w !! n with
  | Some (i :: rest) =>
    match exec i answer w with
    | Some (w', more) =>
      spawn (more ++ rest)
        (mkWorld (voice w') (sessions w') (recovery w') (connected w') (lifecycle_held w') (playout_muted w')
           (playout_volume w') (delete n (threads w)))
    | None => w
    end
  | _ => w
  end.

(** ** What the application, the transport and the sessions begin *)

Definition update_all (w : World) : list Instr := Apply <$> all_voice_updates_locked (voice w).

Definition start_voice (w : World) : World :=
  let v := voice w in
  spawn [StartVoice] (with_voice (with_flags true (voice_muted v) (voice_deafened v) v) w).

Definition stop_voice (w : World) : World :=
  let v := voice w in
  spawn [StopVoice] (with_voice (with_flags false (voice_muted v) (voice_deafened v) v) w).

Definition set_muted (muted : bool) (w : World) : World :=
  let v := voice w in
  spawn (match voice_session v with Some id => [SetMicrophone id (negb muted)] | None => [] end)
    (with_voice (with_flags (voice_requested v) muted (voice_deafened v) v) w).

Definition set_deafened (deafened : bool) (w : World) : World :=
  let w := with_voice (with_flags (voice_requested (voice w)) (voice_muted (voice w)) deafened (voice w)) w in
  spawn (update_all w ++ [SetPlayoutMuted deafened]) w.

Definition set_master_volume (volume : float) (w : World) : World :=
  let clamped := clamp_volume volume in
  let w := with_voice (with_volumes (voice_peer_volumes (voice w)) clamped (voice w)) w in
  spawn (update_all w ++ [SetPlayoutVolume clamped]) w.

Definition set_peer_volume (peer : string) (volume : float) (w : World) : World :=
  let v := voice w in
  let w := with_voice (with_volumes (<[peer := clamp_volume volume]> (voice_peer_volumes v)) (master_volume_value v) v) w in
  spawn (update_all w) w.

Definition set_peer_muted (peer : string) (muted : bool) (w : World) : World :=
  let v := voice w in
  let w := with_voice (with_peer_muted (<[peer := muted]> (voice_peer_muted v)) v) w in
  spawn (update_all w) w.

(** The voice part of [remove_peer]. *)
Definition remove_peer (peer : string) (w : World) : World :=
  let v := voice w in
  with_voice (with_peer_muted (delete peer (voice_peer_muted v))
                (with_volumes (delete peer (voice_peer_volumes v)) (master_volume_value v) v)) w.

Definition peer_volume (peer : string) (w : World) : float := default one (voice_peer_volumes (voice w) !! peer).
Definition peer_muted (peer : string) (w : World) : bool := default false (voice_peer_muted (voice w) !! peer).

(** [ok]: the runtime has the device.  The call waits for the lifecycle. *)
Definition set_device (playout : bool) (name : string) (ok : bool) (w : World) : World :=
  let v := voice w in
  if lifecycle_held w || negb ok then w
  else with_voice (if playout then with_devices (selected_input_device v) name v
                   else with_devices name (selected_output_device v) v) w.

Definition apply_binding (mid : string) (peer : option string) (w : World) : World :=
  let v := voice w in
  let bindings := match peer with
                  | Some p => <[mid := p]> (voice_bindings v)
                  | None => delete mid (voice_bindings v)
                  end in
  let v := with_bindings bindings v in
  spawn (Apply <$> option_list (voice_update_locked mid v)) (with_voice v w).

(** [on_remote_track], which asks for what the mid is now *)
Definition session_track (mid : string) (w : World) : World :=
  spawn (Apply <$> option_list (voice_update_locked mid (voice w))) w.

Definition on_signaling_state (is_connected : bool) (w : World) : World :=
  spawn (if is_connected then [StartVoice] else [StopVoice]) (with_connected is_connected w).

Definition schedule_recovery (token : nat) (w : World) : World :=
  let r := recovery w in
  if recovery_stopping r then w
  else with_recovery (mkRecovery (recovery_queue r ++ [token]) true (recovery_busy r) false) w.

(** [on_state] of session [id], with a failed connection *)
Definition session_failed (id : nat) (w : World) : World :=
  let s := sessions w in
  if bool_decide (id ∈ recovery_scheduled s) then w
  else
    schedule_recovery id
      (with_sessions (with_scheduled ({[id]} ∪ recovery_scheduled s) s) w).

(** The worker takes the next task. *)
Definition run_recovery (w : World) : World :=
  let r := recovery w in
  match recovery_queue r with
  | token :: queue =>
    if recovery_worker r && negb (recovery_busy r) then
      spawn [Recover token; RecoveryDone] (with_recovery (mkRecovery queue true true (recovery_stopping r)) w)
    else w
  | [] => w
  end.

Definition stop_recovery (w : World) : World :=
  let r := recovery w in
  with_recovery (mkRecovery [] (recovery_worker r) (recovery_busy r) true) w.

Definition request_voice_stats (w : World) : World :=
  let v := voice w in
  if voice_stats_in_flight v then w
  else match voice_session v with
       | None => with_voice (with_stats None false v) w
       | Some id => spawn [RequestStats id] (with_voice (with_stats (voice_stats v) true v) w)
       end.

(** A report of session [id]; a session that was closed does not pass it on. *)
Definition stats_delivered (id : nat) (stats : VoiceStats) (w : World) : World :=
  let s := sessions w in
  if negb (bool_decide (id ∈ stats_requests s)) then w
  else
    let w := with_sessions (with_asked (filter (fun i => i <> id) (stats_requests s)) s) w in
    if bool_decide (id ∈ closed s) then w else with_voice (with_stats (Some stats) false (voice w)) w.

(** The counters of [voice_stats_json]: packets, bytes, losses, concealed samples. *)
Definition voice_totals (stats : VoiceStats) : Z * Z * Z * Z :=
  foldl (fun acc i => let '(p, b, l, c) := acc in let '(p', b', l', c') := i in
           (u64 (p + p'), u64 (b + b'), (l + l')%Z, u64 (c + c')))
    (0, 0, 0, 0)%Z (inbound stats).

(** A session's answer and candidates reach the current one; the call waits for
    the lifecycle.  The session that gets it, if any: *)
Definition apply_answer (w : World) : option nat := if lifecycle_held w then None else voice_session (voice w).

(** ** What the library does of itself *)

(** Once the description of a session that started is set, each of its receivers has
    a mid, and a track that is enabled, with volume one. *)
Definition track_made (id : nat) (mid : string) (w : World) : World :=
  let s := sessions w in
  if negb (bool_decide (is_Some (microphone s !! id))) || bool_decide (id ∈ closed s) || bool_decide (is_Some (tracks s !! (id, mid)))
  then w else with_sessions (with_tracks (<[(id, mid) := (true, one)]> (tracks s)) s) w.

Definition answer_arrives (w : World) : World :=
  match apply_answer w with
  | Some id => with_sessions (with_heard ({[id]} ∪ answered (sessions w)) (announced (sessions w)) (sessions w)) w
  | None => w
  end.

(** [OnTrack]: a track of a session that was given an answer; the session may have
    been closed since it looked whether it is started. *)
Definition track_arrives (id : nat) (mid : string) (w : World) : World :=
  let s := sessions w in
  if bool_decide (id ∈ answered s) && bool_decide (is_Some (tracks s !! (id, mid)))
  then session_track mid (with_sessions (with_heard (answered s) ({[(id, mid)]} ∪ announced s) s) w)
  else w.

Inductive Act :=
  | CallStart | CallStop
  | CallSetMuted (muted : bool)
  | CallSetDeafened (deafened : bool)
  | CallSetMasterVolume (volume : float)
  | CallSetPeerVolume (peer : string) (volume : float)
  | CallSetPeerMuted (peer : string) (muted : bool)
  | CallRemovePeer (peer : string)
  | CallSetDevice (playout : bool) (name : string) (ok : bool)
  | CallRequestStats
  | CallStopRecovery
  | BindingArrives (mid : string) (peer : option string)
  | SignalingChanges (is_connected : bool)
  | AnswerArrives
  | TrackMade (id : nat) (mid : string)
  | SessionTrack (id : nat) (mid : string)
  | SessionFails (id : nat)
  | StatsArrive (id : nat) (stats : VoiceStats)
  | RecoveryRuns
  | Resumes (n : nat) (answer : nat -> bool).

Definition act (a : Act) (w : World) : World :=
  match a with
  | CallStart => start_voice w
  | CallStop => stop_voice w
  | CallSetMuted muted => set_muted muted w
  | CallSetDeafened deafened => set_deafened deafened w
  | CallSetMasterVolume volume => set_master_volume volume w
  | CallSetPeerVolume peer volume => set_peer_volume peer volume w
  | CallSetPeerMuted peer muted => set_peer_muted peer muted w
  | CallRemovePeer peer => remove_peer peer w
  | CallSetDevice playout name ok => set_device playout name ok w
  | CallRequestStats => request_voice_stats w
  | CallStopRecovery => stop_recovery w
  | BindingArrives mid peer => apply_binding mid peer w
  | SignalingChanges is_connected => on_signaling_state is_connected w
  | AnswerArrives => answer_arrives w
  | TrackMade id mid => track_made id mid w
  | SessionTrack id mid => track_arrives id mid w
  | SessionFails id => session_failed id w
  | StatsArrive id stats => stats_delivered id stats w
  | RecoveryRuns => run_recovery w
  | Resumes n answer => resume n answer w
  end.

Definition run (acts : list Act) : World := foldl (fun w a => act a w) new_world acts.

(** ** Sessions and the lifecycle lock *)

#[export] Instance voice_code : ThreadCode Instr := {
  held_session i := match i with StartSession id _ | Publish id | CloseSession id => [id] | _ => [] end;
  is_unlock i := match i with Unlock => true | _ => false end;
  is_stop i := match i with StopVoice => true | _ => false end;
}.

Definition life (w : World) : Life :=
  mkLife (voice_session (voice w)) (closed (sessions w)) (next_session (sessions w)) (lifecycle_held w).

(** A session is wanted while the user wants voice and signaling is there. *)
Definition wanted (w : World) : Prop := voice_requested (voice w) = true /\ connected w = true.

Definition client_ok (w : World) (ts : list (list Instr)) : Prop :=
  life_ok (life w) (wanted w) ts /\ voice_session_token (voice w) = voice_session (voice w).

Definition world_ok (w : World) : Prop := client_ok w (threads w).

(** What the invariant reads of a world. *)
Definition core (w : World) :=
  (life w, voice_session_token (voice w), voice_requested (voice w), connected w).

Lemma client_ok_same w w' ts : core w = core w' -> client_ok w ts -> client_ok w' ts.
Proof.
  unfold core, client_ok, wanted. intros [= H1 H2 H3 H4 H5 H6 H7]. unfold life. by rewrite H1, H2, H3, H4, H5, H6, H7.
Qed.

Lemma client_ok_perm w ts ts' : ts ≡ₚ ts' -> client_ok w ts -> client_ok w ts'.
Proof. intros Hp [Hl Ht]. split; [by eapply life_ok_perm | done]. Qed.

Lemma spawn_ok l w : client_ok w (l :: threads w) -> world_ok (spawn l w).
Proof.
  intros [Hl Ht]. unfold world_ok, spawn. cbn [threads]. split; [| done].
  destruct l; [by apply life_ok_done | done].
Qed.

Lemma begin_ok w l : plain_list l -> world_ok w -> world_ok (spawn l w).
Proof. intros Hl [Hw Ht]. apply spawn_ok. split; [by apply life_ok_begin | done]. Qed.

Lemma plain_applies us : plain_list (Apply <$> us).
Proof. by apply free_map. Qed.

(** A section that moves no session. *)
Lemma plain_step w w' i more rest others :
  core w = core w' -> held_session i = [] -> is_unlock i = false -> is_stop i = false -> plain_list more ->
  client_ok w ((i :: rest) :: others) -> client_ok w' ((more ++ rest) :: others).
Proof. intros Hc Hi Hu Hs Hm [Hw Ht]. apply (client_ok_same w); [done |]. split; [by apply (life_plain _ _ i) | done]. Qed.

Lemma exec_ok i answer rest others w w' more :
  client_ok w ((i :: rest) :: others) -> exec i answer w = Some (w', more) -> client_ok w' ((more ++ rest) :: others).
Proof.
  intros Hok. pose proof Hok as [Hw Ht].
  destruct i; unfold exec, start_voice_if_requested, start_session, publish, apply_selected_audio_devices, fall_back,
    stop_voice_session, recover_voice_session, request_stats.
  - destruct (lifecycle_held w) eqn:Hlock; [done |].
    destruct (_ || _) eqn:Hgo; intros [= <- <-]; [by apply (plain_step w _ StartVoice) |].
    apply orb_false_iff in Hgo as [[_ Hnone]%orb_false_iff _]. apply bool_decide_eq_false in Hnone.
    assert (Hc : voice_session (voice w) = None) by (destruct (voice_session (voice w)); [by destruct Hnone | done]).
    split; [| done]. assert (Hlife : forall s, life (with_lock true (with_sessions s w)) = mkLife None (closed s) (next_session s) true)
      by (intros s; unfold life; cbn; by rewrite Hc).
    rewrite Hlife. by apply (life_take (life w) (wanted w) StartVoice).
  - destruct (answer 0); cbn [negb]; intros [= <- <-]; (split; [| done]).
    + by apply (life_keep (life w) (wanted w) (StartSession id microphone_enabled) id).
    + by apply (life_close (life w) (wanted w) (StartSession id microphone_enabled)).
  - intros [= <- <-]. apply (plain_step w _ ApplyDevices); try done.
    apply free_app; destruct (answer _); try done; by destruct (answer _).
  - intros [= <- <-]. apply (plain_step w _ (FallBack playout name)); try done. by destruct playout, (bool_decide _).
  - assert (Hkeep : client_ok w (([CloseSession id] ++ rest) :: others)).
    { split; [by apply (life_keep (life w) (wanted w) (Publish id) id) | done]. }
    destruct (voice_requested (voice w)) eqn:Hreq; cbn [andb]; [| by intros [= <- <-]].
    destruct (bool_decide _); cbn [negb andb]; [by intros [= <- <-] |].
    destruct (connected w) eqn:Hcon; intros [= <- <-]; [| done]. split; [| done].
    apply (life_publish (life w) (wanted w) _ (Publish id)); try done. apply plain_applies.
  - intros [= <- <-]. apply (plain_step w _ (Apply u)); try done. unfold apply. destruct (bool_decide _); [done |]. by destruct (tracks _ !! _) as [[]|].
  - intros [= <- <-]. split; [| done]. by apply (life_close (life w) (wanted w) (CloseSession id)).
  - intros [= <- <-]. split; [| done]. by apply (life_unlock (life w) (wanted w) Unlock).
  - destruct (lifecycle_held w) eqn:Hlock; [done |]. intros [= <- <-]. split; [| done].
    apply (life_stop (life w) (wanted w) _ StopVoice); try done; cbn; by destruct (voice_session (voice w)).
  - intros [= <- <-]. by apply (plain_step w _ (SetMicrophone id enabled)).
  - intros [= <- <-]. by apply (plain_step w _ (SetPlayoutMuted muted)).
  - intros [= <- <-]. by apply (plain_step w _ (SetPlayoutVolume volume)).
  - destruct (_ || _); intros [= <- <-]; by apply (plain_step w _ (Recover token)).
  - intros [= <- <-]. by apply (plain_step w _ RecoveryDone).
  - destruct (answer 0); intros [= <- <-]; by apply (plain_step w _ (RequestStats id)).
  - intros [= <- <-]. by apply (plain_step w _ StatsFailed).
Qed.

Lemma same_ok w w' : core w = core w' -> threads w = threads w' -> world_ok w -> world_ok w'.
Proof. unfold world_ok. intros Hc <-. by apply client_ok_same. Qed.

(** A wish or a connection that goes leaves a thread that stops the session. *)
Lemma unwanted_ok w w' :
  life w' = life w -> voice_session_token (voice w') = voice_session_token (voice w) -> threads w' = threads w ->
  world_ok w -> world_ok (spawn [StopVoice] w').
Proof.
  intros H1 H2 H3 [Hl Ht]. apply spawn_ok. rewrite H3. split.
  - rewrite H1. apply (life_ok_unwanted (life w) (wanted w)); [done | | done]. exists StopVoice. split; [left | done].
  - rewrite H2, Ht. unfold life in H1. congruence.
Qed.

(** A wish or a connection that comes. *)
Lemma wanted_ok w w' :
  life w' = life w -> voice_session_token (voice w') = voice_session_token (voice w) -> threads w' = threads w ->
  (wanted w -> wanted w') -> world_ok w -> world_ok w'.
Proof.
  intros H1 H2 H3 H4 [Hl Ht]. unfold world_ok. rewrite H3. split.
  - rewrite H1. by apply (life_ok_wanted (life w) (wanted w)).
  - rewrite H2, Ht. unfold life in H1. congruence.
Qed.

Lemma client_act_ok a w : world_ok w -> world_ok (act a w).
Proof.
  intros Hw. destruct a; cbn [act].
  - apply begin_ok; [done |]. apply (wanted_ok w); try done. by intros [_ ?].
  - by apply (unwanted_ok w).
  - unfold set_muted. destruct (voice_session (voice w)); (apply begin_ok; [done |]); by apply (same_ok w).
  - unfold set_deafened. apply begin_ok; [apply free_app; [apply plain_applies | done] |]. by apply (same_ok w).
  - unfold set_master_volume. apply begin_ok; [apply free_app; [apply plain_applies | done] |]. by apply (same_ok w).
  - unfold set_peer_volume. apply begin_ok; [apply plain_applies |]. by apply (same_ok w).
  - unfold set_peer_muted. apply begin_ok; [apply plain_applies |]. by apply (same_ok w).
  - by apply (same_ok w).
  - unfold set_device. destruct (_ || _); [done |]. apply (same_ok w); [by destruct playout | done | done].
  - unfold request_voice_stats. destruct (voice_stats_in_flight _); [done |].
    destruct (voice_session (voice w)) eqn:Hs; [apply begin_ok; [done |] |]; by apply (same_ok w).
  - by apply (same_ok w).
  - unfold apply_binding. apply begin_ok; [apply plain_applies |]. by apply (same_ok w).
  - unfold on_signaling_state. destruct is_connected; [| by apply (unwanted_ok w)].
    apply begin_ok; [done |]. apply (wanted_ok w); try done. by intros [? _].
  - unfold answer_arrives. destruct (apply_answer w); [by apply (same_ok w) | done].
  - unfold track_made. destruct (_ || _); [done | by apply (same_ok w)].
  - unfold track_arrives. destruct (_ && _); [| done]. unfold session_track. apply begin_ok; [apply plain_applies | by apply (same_ok w)].
  - unfold session_failed. destruct (bool_decide _); [done |]. unfold schedule_recovery.
    destruct (recovery_stopping _); by apply (same_ok w).
  - unfold stats_delivered. destruct (negb _); [done |]. destruct (bool_decide _); by apply (same_ok w).
  - unfold run_recovery. destruct (recovery_queue _); [done |]. destruct (_ && _); [| done].
    apply begin_ok; [done |]. by apply (same_ok w).
  - unfold resume. destruct (threads w !! n) as [[| i rest] |] eqn:Hn; [done | | done].
    destruct (exec i answer w) as [[w' more] |] eqn:He; [| done]. apply spawn_ok.
    apply (client_ok_same w'); [done |]. cbn [threads]. apply (exec_ok i answer rest _ w); [| done].
    eapply client_ok_perm; [| exact Hw]. by apply delete_Permutation.
Qed.

Lemma new_world_ok : world_ok new_world.
Proof. split; [| done]. split; simpl; try done; try lia; by intros []. Qed.

Lemma client_run_ok acts : world_ok (run acts).
Proof.
  unfold run. generalize new_world_ok. generalize new_world.
  induction acts as [| a acts IH]; intros w Hw; [done |]. by apply IH, client_act_ok.
Qed.

(** ** The settings *)

(** The track has what the update says. *)
Definition settled (u : VoiceTrackUpdate) (s : Sessions) : Prop :=
  exists x, tracks s !! (update_session u, update_mid u) = Some (update_enabled u, x)
            /\ forall y, update_volume u = Some y -> usable y = true -> x = y.

(** A session that was not published yet. *)
Definition unborn (id : nat) (s : Sessions) (l : list Instr) : Prop :=
  next_session s <= id \/ Publish id ∈ l \/ exists b, StartSession id b ∈ l.

(** Every setting is applied, or a thread is about to apply it. *)
Record settings_ok (v : Voice) (s : Sessions) (l : list Instr) : Prop := {
  set_start id b : StartSession id b ∈ l -> b = negb (voice_muted v);
  set_publish id : Publish id ∈ l -> microphone s !! id = Some (negb (voice_muted v));
  set_switch id b : SetMicrophone id b ∈ l -> b = negb (voice_muted v);
  set_mic id : voice_session v = Some id ->
    microphone s !! id = Some (negb (voice_muted v)) \/ SetMicrophone id (negb (voice_muted v)) ∈ l;
  set_apply u : Apply u ∈ l -> voice_session v = Some (update_session u) -> voice_update_locked (update_mid u) v = Some u;
  set_track mid u : voice_update_locked mid v = Some u -> (update_session u, mid) ∈ announced s -> settled u s \/ Apply u ∈ l;
  set_fresh id : unborn id s l -> id ∉ answered s /\ (forall u, Apply u ∈ l -> update_session u <> id);
  set_heard id mid : (id, mid) ∈ announced s -> id ∈ answered s /\ is_Some (tracks s !! (id, mid));
}.

(** What the settings depend on. *)
Definition relevant (i : Instr) : bool :=
  match i with StartSession _ _ | Publish _ | SetMicrophone _ _ | Apply _ => true | _ => false end.

Definition same_view (v v' : Voice) : Prop :=
  voice_session v' = voice_session v /\ voice_muted v' = voice_muted v
  /\ forall mid, voice_update_locked mid v' = voice_update_locked mid v.

Definition same_sessions (s s' : Sessions) : Prop :=
  microphone s' = microphone s /\ tracks s' = tracks s /\ answered s' = answered s /\ announced s' = announced s
  /\ next_session s' = next_session s.

Lemma settings_keep v s l v' s' l' :
  same_view v v' -> same_sessions s s' ->
  (forall i, relevant i = true -> i ∈ l' -> i ∈ l) ->
  (forall u, Apply u ∈ l -> Apply u ∈ l') -> (forall id b, SetMicrophone id b ∈ l -> SetMicrophone id b ∈ l') ->
  settings_ok v s l -> settings_ok v' s' l'.
Proof.
  intros (Hv1 & Hv2 & Hv3) (Hs1 & Hs2 & Hs3 & Hs5 & Hs4) Hin Ha Hm [H1 H2 H3 H4 H5 H6 H7 H8].
  split; rewrite ?Hv1, ?Hv2, ?Hs1, ?Hs2, ?Hs3, ?Hs5; [.. | exact H8].
  - intros id b Hi%Hin; [by eapply H1 | done].
  - intros id Hi%Hin; [by eapply H2 | done].
  - intros id b Hi%Hin; [by eapply H3 | done].
  - intros id [? | ?]%H4; [by left | right; by apply Hm].
  - intros u Hi%Hin Hse; [| done]. rewrite Hv3. by apply H5.
  - intros mid u. rewrite Hv3. intros Hu [Hset | ?]%(H6 _ _ Hu); [left | right; by apply Ha].
    unfold settled in *. by rewrite Hs2.
  - intros id Hun. destruct (H7 id) as [Hf1 Hf2].
    { unfold unborn in *. rewrite Hs4 in Hun. destruct Hun as [? | [Hi%Hin | [b Hi%Hin]]]; [by left | by right; left | done | | done].
      right; right. by exists b. }
    split; [done |]. intros u Hi%Hin; [by apply Hf2 | done].
Qed.

Lemma update_ids mid v u : voice_update_locked mid v = Some u -> voice_session v = Some (update_session u) /\ update_mid u = mid
  /\ (update_volume u = None -> update_enabled u = false).
Proof.
  unfold voice_update_locked. destruct (voice_session v) as [id |]; [| done].
  destruct (voice_bindings v !! mid); by intros [= <-].
Qed.

Lemma all_updates_spec v u : u ∈ all_voice_updates_locked v <->
  voice_update_locked (update_mid u) v = Some u /\ is_Some (voice_bindings v !! update_mid u).
Proof.
  unfold all_voice_updates_locked. rewrite list_elem_of_omap. split.
  - intros (mid & Hin & Hu). pose proof (update_ids _ _ _ Hu) as (_ & -> & _). split; [done |].
    apply list_elem_of_fmap in Hin as ([mid' peer] & -> & Hin). apply elem_of_map_to_list in Hin. by exists peer.
  - intros (Hu & peer & Hb). exists (update_mid u). split; [| done]. apply list_elem_of_fmap.
    exists (update_mid u, peer). split; [done |]. by apply elem_of_map_to_list.
Qed.

Lemma elem_of_applies u us l : Apply u ∈ (Apply <$> us) ++ l <-> u ∈ us \/ Apply u ∈ l.
Proof.
  rewrite elem_of_app, list_elem_of_fmap. split; (intros [H' | ?]; [left | by right]).
  - by destruct H' as (u' & [= ->] & ?).
  - by exists u.
Qed.

Lemma elem_of_applies_other i us l : (forall u, i <> Apply u) -> i ∈ (Apply <$> us) ++ l <-> i ∈ l.
Proof.
  intros Hi. rewrite elem_of_app, list_elem_of_fmap. split; [| by right]. intros [(u & -> & _) | ?]; [by destruct (Hi u) | done].
Qed.
(** A section that has nothing to do with the settings. *)
Lemma settings_plain v s l v' s' i more :
  same_view v v' -> same_sessions s s' ->
  (forall u, i <> Apply u) -> (forall id b, i <> SetMicrophone id b) -> Forall (fun j => relevant j = false) more ->
  settings_ok v s (i :: l) -> settings_ok v' s' (more ++ l).
Proof.
  intros Hv Hs Ha Hm Hmore. rewrite Forall_forall in Hmore. apply settings_keep; [done | done | | |].
  - intros j Hj [Hin | Hin]%elem_of_app; [by rewrite Hmore in Hj | by right].
  - intros u [<- | Hin]%elem_of_cons; [by destruct (Ha u) | rewrite elem_of_app; by right].
  - intros id b [<- | Hin]%elem_of_cons; [by destruct (Hm id b) | rewrite elem_of_app; by right].
Qed.

(** A session is about to be made, for the microphone's present setting. *)
Lemma settings_take v s l :
  settings_ok v s l -> settings_ok v (with_made s) (StartSession (next_session s) (negb (voice_muted v)) :: Unlock :: l).
Proof.
  intros [H1 H2 H3 H4 H5 H6 H7 H8].
  assert (Hin : forall j, j ∈ StartSession (next_session s) (negb (voice_muted v)) :: Unlock :: l ->
                j = StartSession (next_session s) (negb (voice_muted v)) \/ j = Unlock \/ j ∈ l).
  { intros j. by rewrite !elem_of_cons. }
  split; [.. | exact H8].
  - intros id b [[= _ ->] | [? | ?]]%Hin; [done | done | by eapply H1].
  - intros id [? | [? | ?]]%Hin; [done | done | by apply H2].
  - intros id b [? | [? | ?]]%Hin; [done | done | by eapply H3].
  - intros id [? | ?]%H4; [by left | right; by do 2 right].
  - intros u [? | [? | ?]]%Hin; [done | done | by apply H5].
  - intros mid u Hu [? | ?]%(H6 _ _ Hu); [by left | right; by do 2 right].
  - intros id Hun. assert (Hold : unborn id s l).
    { destruct Hun as [Hge | [Hp | [b Hb]]]; [left; simpl in Hge; lia | |].
      - apply Hin in Hp as [? | [? | ?]]; [done | done | by right; left].
      - apply Hin in Hb as [[= -> _] | [? | ?]]; [by left | done | right; right; by exists b]. }
    destruct (H7 id Hold) as [Hf1 Hf2]. split; [done |]. intros u [? | [? | ?]]%Hin; [done | done | by apply Hf2].
Qed.

(** The new session takes the setting of the microphone. *)
Lemma settings_started v s l id b :
  settings_ok v s (StartSession id b :: l) -> settings_ok v (set_microphone id b s) (ApplyDevices :: Publish id :: l).
Proof.
  intros [H1 H2 H3 H4 H5 H6 H7 H8]. assert (b = negb (voice_muted v)) as -> by (apply (H1 id); left).
  assert (Hin : forall j, j ∈ ApplyDevices :: Publish id :: l -> j = ApplyDevices \/ j = Publish id \/ j ∈ StartSession id (negb (voice_muted v)) :: l).
  { intros j. rewrite !elem_of_cons. tauto. }
  assert (Hmic : forall id', microphone s !! id' = Some (negb (voice_muted v)) ->
    microphone (set_microphone id (negb (voice_muted v)) s) !! id' = Some (negb (voice_muted v))).
  { intros id' Hid. cbn. destruct (decide (id' = id)) as [-> | ?]; [by rewrite lookup_insert_eq | by rewrite lookup_insert_ne]. }
  split; [.. | exact H8].
  - intros id' b [? | [? | ?]]%Hin; [done | done | by eapply H1].
  - intros id' [? | [[= ->] | ?]]%Hin; [done | by cbn; rewrite lookup_insert_eq | by apply Hmic, H2].
  - intros id' b [? | [? | ?]]%Hin; [done | done | by eapply H3].
  - intros id' [? | Hl]%H4; [left; by apply Hmic | right]. apply elem_of_cons in Hl as [? | ?]; [done | by do 2 right].
  - intros u [? | [? | ?]]%Hin; [done | done | by apply H5].
  - intros mid u Hu [? | Hl]%(H6 _ _ Hu); [by left | right]. apply elem_of_cons in Hl as [? | ?]; [done | by do 2 right].
  - intros id' Hun. destruct (H7 id') as [Hf1 Hf2].
    { destruct Hun as [Hge | [Hp | [b Hb]]]; [by left | |].
      - apply Hin in Hp as [? | [[= ->] | ?]]; [done | | by right; left].
        right; right. exists (negb (voice_muted v)). left.
      - apply Hin in Hb as [? | [? | ?]]; [done | done | right; right; by exists b]. }
    split; [done |]. intros u [? | [? | ?]]%Hin; [done | done | by apply Hf2].
Qed.

(** The session is published, and its tracks are about to be set. *)
Lemma settings_published v s l id :
  id < next_session s -> (forall id', ~ (Publish id' ∈ l)) -> (forall id' b, ~ (StartSession id' b ∈ l)) ->
  settings_ok v s (Publish id :: l) ->
  let v' := with_session (Some id) (Some id) v in
  settings_ok v' s ((Apply <$> all_voice_updates_locked v') ++ l).
Proof.
  intros Hid Hnp Hns [H1 H2 H3 H4 H5 H6 H7 H8] v'.
  assert (Hfresh := H7 id (or_intror (or_introl (list_elem_of_here _ _)))). destruct Hfresh as [Hf1 Hf2].
  split.
  - intros id' b. rewrite elem_of_applies_other by done. by intros ?%Hns.
  - intros id'. rewrite elem_of_applies_other by done. by intros ?%Hnp.
  - intros id' b. rewrite elem_of_applies_other by done. intros ?. apply (H3 id'). by right.
  - intros id' [= <-]. left. apply H2. left.
  - intros u. rewrite elem_of_applies. intros [[Hu _]%all_updates_spec | Hin]; [done |].
    intros [= Heq]. exfalso. apply (Hf2 u); [by right | done].
  - intros mid u Hu [Ha _]%H8. pose proof (update_ids _ _ _ Hu) as ([= Hid'] & _). rewrite <- Hid' in Ha. by destruct Hf1.
  - intros id' Hun. destruct Hun as [Hge | [Hp | [b Hb]]].
    + destruct (H7 id') as [Hg1 Hg2]; [by left |]. split; [done |]. intros u. rewrite elem_of_applies.
      intros [[Hu _]%all_updates_spec | Hin]; [| apply Hg2; by right].
      pose proof (update_ids _ _ _ Hu) as ([= <-] & _). lia.
    + rewrite elem_of_applies_other in Hp by done. by apply Hnp in Hp.
    + rewrite elem_of_applies_other in Hb by done. by apply Hns in Hb.
  - exact H8.
Qed.

(** One track is set. *)
Lemma settings_applied v s l u :
  (forall id, voice_session v = Some id -> id ∉ closed s) -> settings_ok v s (Apply u :: l) -> settings_ok v (apply u s) l.
Proof.
  intros Hopen [H1 H2 H3 H4 H5 H6 H7 H8].
  assert (Hsame : next_session (apply u s) = next_session s /\ microphone (apply u s) = microphone s
                  /\ answered (apply u s) = answered s /\ announced (apply u s) = announced s).
  { unfold apply. destruct (bool_decide _); [done |]. by destruct (tracks s !! _) as [[] |]. }
  destruct Hsame as (Hn & Hmi & Han & Hno).
  split; rewrite ?Hmi, ?Hno, ?Han.
  - intros id b Hin. apply (H1 id). by right.
  - intros id Hin. apply (H2 id). by right.
  - intros id b Hin. apply (H3 id). by right.
  - intros id [? | Hin]%H4; [by left | right]. by apply elem_of_cons in Hin as [? | ?].
  - intros u' Hin. apply H5. by right.
  - intros mid u0 Hu0 Hheard. pose proof (update_ids _ _ _ Hu0) as (Hses & Hmid & _).
    destruct (decide ((update_session u, update_mid u) = (update_session u0, update_mid u0))) as [Hkey | Hkey].
    + left. injection Hkey as Hk1 Hk2. assert (Hu : voice_update_locked (update_mid u) v = Some u).
      { apply H5; [left |]. by rewrite Hk1. }
      rewrite Hk2, Hmid, Hu0 in Hu. injection Hu as <-. destruct (H8 _ _ Hheard) as [_ [[e x] Htr]].
      unfold settled, apply. rewrite bool_decide_false by (by apply Hopen). rewrite Hmid, Htr.
      eexists. cbn. rewrite lookup_insert_eq. split; [done |]. by intros y -> ->.
    + destruct (H6 mid u0 Hu0 Hheard) as [Hset | Hin].
      * left. unfold settled, apply in *. destruct (bool_decide _); [done |]. destruct (tracks s !! (update_session u, _)) as [[] |]; [| done].
        cbn. by rewrite lookup_insert_ne.
      * right. by apply elem_of_cons in Hin as [[= ->] | ?].
  - intros id Hun. destruct (H7 id) as [Hf1 Hf2].
    { unfold unborn in *. rewrite Hn in Hun. destruct Hun as [? | [? | [b ?]]]; [by left | right; left; by right | right; right; exists b; by right]. }
    split; [done |]. intros u' Hin. apply Hf2. by right.
  - intros id mid [Ha Ht]%H8. split; [done |]. unfold apply. destruct (bool_decide _); [done |].
    destruct (tracks s !! (update_session u, _)) as [[] |]; [| done]. cbn. rewrite lookup_insert. by case_decide; [eexists |].
Qed.

(** The microphone is switched. *)
Lemma settings_switched v s l id b :
  settings_ok v s (SetMicrophone id b :: l) -> settings_ok v (set_microphone id b s) l.
Proof.
  intros [H1 H2 H3 H4 H5 H6 H7 H8]. assert (b = negb (voice_muted v)) as -> by (apply (H3 id); left).
  assert (Hmic : forall id', microphone s !! id' = Some (negb (voice_muted v)) ->
    microphone (set_microphone id (negb (voice_muted v)) s) !! id' = Some (negb (voice_muted v))).
  { intros id' Hid. cbn. destruct (decide (id' = id)) as [-> | ?]; [by rewrite lookup_insert_eq | by rewrite lookup_insert_ne]. }
  split; [.. | exact H8].
  - intros id' b Hin. apply (H1 id'). by right.
  - intros id' Hin. apply Hmic, H2. by right.
  - intros id' b Hin. apply (H3 id'). by right.
  - intros id' [? | [[= ->] | ?]%elem_of_cons]%H4; [left; by apply Hmic | left; cbn; by rewrite lookup_insert_eq | by right].
  - intros u Hin. apply H5. by right.
  - intros mid u Hu [? | [? | ?]%elem_of_cons]%(H6 _ _ Hu); [by left | done | by right].
  - intros id' Hun. destruct (H7 id') as [Hf1 Hf2].
    { destruct Hun as [? | [? | [b ?]]]; [by left | right; left; by right | right; right; exists b; by right]. }
    split; [done |]. intros u' Hin. apply Hf2. by right.
Qed.
(** A session is stopped. *)
Lemma settings_stopped v s l :
  settings_ok v s (StopVoice :: l) ->
  let v' := with_stats None (voice_stats_in_flight v) (with_bindings ∅ (with_session None None v)) in
  settings_ok v' s ((match voice_session v with Some id => [CloseSession id] | None => [] end ++ [Unlock]) ++ l).
Proof.
  intros [H1 H2 H3 H4 H5 H6 H7 H8] v'.
  assert (Hin : forall j, relevant j = true ->
    j ∈ (match voice_session v with Some id => [CloseSession id] | None => [] end ++ [Unlock]) ++ l -> j ∈ StopVoice :: l).
  { intros j Hj. destruct (voice_session v); cbn [app]; rewrite !elem_of_cons.
    - intros [-> | [-> | ?]]; [done | done | by right].
    - intros [-> | ?]; [done | by right]. }
  split; [.. | exact H8].
  - intros id b Hi%Hin; [by eapply H1 | done].
  - intros id Hi%Hin; [by eapply H2 | done].
  - intros id b Hi%Hin; [by eapply H3 | done].
  - done.
  - done.
  - done.
  - intros id Hun. destruct (H7 id) as [Hf1 Hf2].
    { destruct Hun as [? | [Hi%Hin | [b Hi%Hin]]]; [by left | by right; left | done | right; right; by exists b | done]. }
    split; [done |]. intros u Hi%Hin; [by apply Hf2 | done].
Qed.

Lemma open_session w ts id : client_ok w ts -> voice_session (voice w) = Some id -> id ∉ closed (sessions w).
Proof.
  intros [Hl _] Hid Hc. pose proof (ok_sessions _ _ _ Hl) as Hs. cbn [life current] in Hs. rewrite Hid in Hs. cbn in Hs.
  pose proof (NoDup_seq 0 (next_session (sessions w))) as Hn. rewrite <- Hs in Hn. apply NoDup_cons in Hn as [Hn _].
  apply Hn. apply elem_of_app. right. by apply elem_of_elements.
Qed.

Lemma exec_settings i answer rest others w w' more :
  client_ok w ((i :: rest) :: others) -> settings_ok (voice w) (sessions w) (concat ((i :: rest) :: others)) ->
  exec i answer w = Some (w', more) -> settings_ok (voice w') (sessions w') (concat ((more ++ rest) :: others)).
Proof.
  intros Hok. cbn [concat app]. rewrite <- app_assoc. set (l := rest ++ concat others). intros Hset.
  destruct i; unfold exec, start_voice_if_requested, start_session, publish, apply_selected_audio_devices, fall_back,
    stop_voice_session, recover_voice_session, request_stats.
  - destruct (lifecycle_held w); [done |]. destruct (_ || _); intros [= <- <-]; [by apply (settings_plain (voice w) (sessions w) l _ _ StartVoice []) |].
    apply settings_take. by apply (settings_plain (voice w) (sessions w) l (voice w) (sessions w) StartVoice []).
  - destruct (answer 0); cbn [negb]; intros [= <- <-]; [by apply settings_started |].
    by apply (settings_plain (voice w) (sessions w) l _ _ (StartSession id microphone_enabled) []).
  - intros [= <- <-]. apply (settings_plain (voice w) (sessions w) l _ _ ApplyDevices); try done.
    apply Forall_app. split; (destruct (answer _); [constructor |]); (destruct (answer _); repeat constructor).
  - intros [= <- <-]. apply (settings_plain (voice w) (sessions w) l _ _ (FallBack playout name) []); try done.
    destruct playout, (bool_decide _); by split.
  - assert (Hsame : settings_ok (voice w) (sessions w) ([CloseSession id] ++ l)).
    { apply (settings_plain (voice w) (sessions w) l _ _ (Publish id)); try done. by repeat constructor. }
    destruct (_ && _ && _); intros [= <- <-]; [| done].
    destruct Hok as [Hl _]. destruct (held_alone (life w) (wanted w) (Publish id) rest others) as [_ Hnil]; [done | done |].
    cbn [concat] in Hnil. fold l in Hnil. pose proof (ok_sessions _ _ _ Hl) as Hs.
    rewrite (proj1 (todo_bind (Publish id) [] rest others)) in Hs. cbn [held_session voice_code app] in Hs.
    assert (Hnone : forall j, j ∈ l -> held_session j = []).
    { intros j Hj. destruct (held_session j) as [| x ?] eqn:Hh; [done |]. exfalso.
      assert (Hx : x ∈ l ≫= held_session); [| rewrite Hnil in Hx; by apply elem_of_nil in Hx].
      apply list_elem_of_bind. exists j. split; [rewrite Hh; left | done]. }
    apply settings_published; [| by intros id' ?%Hnone | by intros id' b ?%Hnone | done].
    assert (Hin : id ∈ seq 0 (next_session (sessions w))) by (rewrite <- Hs, !elem_of_app; right; left; left).
    apply elem_of_seq in Hin. simpl. lia.
  - intros [= <- <-]. apply settings_applied; [| done]. intros id Hid. by apply (open_session w ((Apply u :: rest) :: others)).
  - intros [= <- <-]. by apply (settings_plain (voice w) (sessions w) l _ _ (CloseSession id) []).
  - intros [= <- <-]. by apply (settings_plain (voice w) (sessions w) l _ _ Unlock []).
  - destruct (lifecycle_held w); [done |]. intros [= <- <-]. by apply settings_stopped.
  - intros [= <- <-]. by apply settings_switched.
  - intros [= <- <-]. by apply (settings_plain (voice w) (sessions w) l _ _ (SetPlayoutMuted muted) []).
  - intros [= <- <-]. by apply (settings_plain (voice w) (sessions w) l _ _ (SetPlayoutVolume volume) []).
  - destruct (_ || _); intros [= <- <-]; apply (settings_plain (voice w) (sessions w) l _ _ (Recover token)); try done; by repeat constructor.
  - intros [= <- <-]. by apply (settings_plain (voice w) (sessions w) l _ _ RecoveryDone []).
  - destruct (answer 0); intros [= <- <-]; apply (settings_plain (voice w) (sessions w) l _ _ (RequestStats id)); try done; by repeat constructor.
  - intros [= <- <-]. by apply (settings_plain (voice w) (sessions w) l _ _ StatsFailed []).
Qed.

(** The user and the server change settings only while no thread is at work; a
    peer is only forgotten while it has no track. *)
Definition calm (a : Act) (w : World) : bool :=
  let idle := bool_decide (length (threads w) = 0) in
  match a with
  | CallSetMuted _ | CallSetDeafened _ | CallSetMasterVolume _ | CallSetPeerVolume _ _ | CallSetPeerMuted _ _
  | BindingArrives _ _ => idle
  | CallRemovePeer peer => idle && forallb (fun b => negb (bool_decide (b.2 = peer))) (map_to_list (voice_bindings (voice w)))
  | _ => true
  end.

Fixpoint calm_run (acts : list Act) (w : World) : bool :=
  match acts with
  | [] => true
  | a :: acts => calm a w && calm_run acts (act a w)
  end.

Definition world_settings (w : World) : Prop := settings_ok (voice w) (sessions w) (concat (threads w)).

Lemma concat_spawn l w : concat (threads (spawn l w)) = l ++ concat (threads w).
Proof. by destruct l. Qed.

Lemma spawn_settings l w :
  Forall (fun j => relevant j = false) l -> world_settings w -> world_settings (spawn l w).
Proof.
  unfold world_settings. rewrite concat_spawn. intros Hl Hw. rewrite Forall_forall in Hl. eapply settings_keep; [| | | | | exact Hw]; try done.
  - intros j Hj [Hin | ?]%elem_of_app; [by rewrite Hl in Hj | done].
  - intros u ?. rewrite elem_of_app. by right.
  - intros id b ?. rewrite elem_of_app. by right.
Qed.

(** While nothing is pending, every track is settled. *)
Lemma idle_settings v s :
  settings_ok v s [] <->
  (forall id, voice_session v = Some id -> microphone s !! id = Some (negb (voice_muted v)))
  /\ (forall mid u, voice_update_locked mid v = Some u -> (update_session u, mid) ∈ announced s -> settled u s)
  /\ (forall id, next_session s <= id -> id ∉ answered s)
  /\ (forall id mid, (id, mid) ∈ announced s -> id ∈ answered s /\ is_Some (tracks s !! (id, mid))).
Proof.
  split.
  - intros [H1 H2 H3 H4 H5 H6 H7 H8]. split_and!; [| | | exact H8].
    + intros id [? | ?%elem_of_nil]%H4; done.
    + intros mid u Hu [? | ?%elem_of_nil]%(H6 _ _ Hu); done.
    + intros id Hid. by apply H7; left.
  - intros (H4 & H6 & H7 & H8). split; try (by intros ? ?%elem_of_nil); try (by intros ? ? ?%elem_of_nil); [.. | exact H8].
    + intros id ?%H4. by left.
    + intros mid u Hu ?%(H6 _ _ Hu). by left.
    + intros id [Hge | [?%elem_of_nil | [b ?%elem_of_nil]]]; [| done | done]. split; [by apply H7 |]. by intros u ?%elem_of_nil.
Qed.

(** A change of the settings, with every bound track about to be set. *)
Lemma change_settings v s v' us :
  settings_ok v s [] -> voice_session v' = voice_session v -> voice_muted v' = voice_muted v ->
  (forall u, u ∈ us -> voice_update_locked (update_mid u) v' = Some u) ->
  (forall mid u, voice_update_locked mid v' = Some u -> u ∈ us \/ voice_update_locked mid v = Some u) ->
  (forall id, voice_session v = Some id -> id < next_session s) ->
  forall l, Forall (fun j => relevant j = false) l -> settings_ok v' s ((Apply <$> us) ++ l).
Proof.
  intros (H4 & H6 & H7 & H8)%idle_settings Hs Hm Hus Hu Hid l Hl. rewrite Forall_forall in Hl.
  assert (Hno : forall j, j ∈ (Apply <$> us) ++ l -> relevant j = true -> exists u, j = Apply u).
  { intros j [(u & -> & _)%list_elem_of_fmap | Hin]%elem_of_app Hj; [by exists u | by rewrite Hl in Hj]. }
  split; [.. | exact H8].
  - intros id b Hin. by destruct (Hno _ Hin eq_refl).
  - intros id Hin. by destruct (Hno _ Hin eq_refl).
  - intros id b Hin. by destruct (Hno _ Hin eq_refl).
  - intros id. rewrite Hs, Hm. intros ?%H4. by left.
  - intros u [Hin | Hin]%elem_of_applies _; [by apply Hus |]. by apply Hl in Hin.
  - intros mid u [Hin | Hold]%Hu Ha; [right; apply elem_of_applies; by left | left; by eapply H6].
  - intros id [Hge | [Hin | [b Hin]]]; [| by destruct (Hno _ Hin eq_refl) | by destruct (Hno _ Hin eq_refl)].
    split; [by apply H7 |]. intros u [Hin | Hin]%elem_of_applies; [| by apply Hl in Hin].
    apply Hus in Hin. pose proof (update_ids _ _ _ Hin) as (Hse & _ & _). rewrite Hs in Hse. apply Hid in Hse. lia.
Qed.

(** The setters that update all tracks. *)
Lemma change_all v s v' l :
  settings_ok v s [] -> voice_session v' = voice_session v -> voice_muted v' = voice_muted v ->
  voice_bindings v' = voice_bindings v -> (forall id, voice_session v = Some id -> id < next_session s) ->
  Forall (fun j => relevant j = false) l -> settings_ok v' s ((Apply <$> all_voice_updates_locked v') ++ l).
Proof.
  intros Hok Hs Hm Hb Hid. apply (change_settings v); try done.
  - intros u Hu. by apply all_updates_spec in Hu as [? _].
  - intros mid u Hu. pose proof (update_ids _ _ _ Hu) as (_ & Hmid & _). unfold voice_update_locked in Hu.
    rewrite Hs, Hb in Hu. destruct (voice_session v) as [id |] eqn:Hse; [| done].
    destruct (voice_bindings v !! mid) as [peer |] eqn:Hbm.
    + left. apply all_updates_spec. rewrite Hmid, Hb, Hbm. split; [| by eexists]. unfold voice_update_locked. by rewrite Hs, Hb, Hbm.
    + right. unfold voice_update_locked. by rewrite Hse, Hbm.
Qed.

Lemma idle_threads (w : World) : bool_decide (length (threads w) = 0) = true -> threads w = [].
Proof. intros Hl%bool_decide_eq_true. by apply nil_length_inv. Qed.

Lemma session_made w id : world_ok w -> voice_session (voice w) = Some id -> id < next_session (sessions w).
Proof. intros [Hl _] Hid. by apply (current_made (life w) (wanted w) (threads w)). Qed.

(** The session of the client is published. *)
Lemma current_born w id : world_ok w -> voice_session (voice w) = Some id -> ~ unborn id (sessions w) (concat (threads w)).
Proof.
  intros Hok Hse Hold. pose proof (session_made _ _ Hok Hse) as Hlt. pose proof (ok_one (life w) (wanted w) (threads w) (proj1 Hok)) as Ho.
  cbn [life current] in Ho. rewrite Hse in Ho. destruct Hold as [? | Hh]; [lia |].
  assert (Hx : id ∈ concat (threads w) ≫= held_session).
  { apply list_elem_of_bind. destruct Hh as [? | [b ?]]; [exists (Publish id) | exists (StartSession id b)]; (split; [left | done]). }
  destruct (concat (threads w) ≫= held_session); [by apply elem_of_nil in Hx | simpl in Ho; lia].
Qed.

Lemma act_settings a w : calm a w = true -> world_ok w -> world_settings w -> world_settings (act a w).
Proof.
  intros Hcalm Hok Hw. pose proof (session_made w) as Hid. destruct a; cbn [act].
  - apply spawn_settings; [by repeat constructor |]. by apply (settings_keep (voice w) (sessions w) (concat (threads w))).
  - apply spawn_settings; [by repeat constructor |]. by apply (settings_keep (voice w) (sessions w) (concat (threads w))).
  - apply idle_threads in Hcalm. unfold world_settings, set_muted. rewrite concat_spawn. cbn [with_voice threads voice sessions].
    unfold world_settings in Hw. rewrite Hcalm in *. cbn [concat] in *. apply idle_settings in Hw as (H4 & H6 & H7 & H8).
    destruct (voice_session (voice w)) as [id |] eqn:Hse; cbn [app].
    2: { apply idle_settings. split; [cbn; congruence |]. split; [| done]. intros mid u. unfold voice_update_locked. cbn. by rewrite Hse. }
    assert (Hin : forall j, j ∈ [SetMicrophone id (negb muted)] -> j = SetMicrophone id (negb muted)) by (intros j; apply list_elem_of_singleton).
    split; cbn [voice_muted with_flags]; [.. | exact H8].
    + by intros ? ? ?%Hin.
    + by intros ? ?%Hin.
    + by intros ? ? [= _ ->]%Hin.
    + intros id'. cbn. rewrite Hse. intros [= <-]. right. left.
    + by intros ? ?%Hin.
    + intros mid u Hu Ha. left. by apply (H6 mid).
    + intros id' [Hge | [?%Hin | [b ?%Hin]]]; [| done | done]. split; [by apply H7 | by intros ? ?%Hin].
  - apply idle_threads in Hcalm. unfold world_settings, set_deafened. rewrite concat_spawn, <- app_assoc. cbn [with_voice threads voice sessions].
    unfold world_settings in Hw. rewrite Hcalm in *. apply (change_all (voice w)); try done; [by intros id ?; apply Hid | by repeat constructor].
  - apply idle_threads in Hcalm. unfold world_settings, set_master_volume. rewrite concat_spawn, <- app_assoc. cbn [with_voice threads voice sessions].
    unfold world_settings in Hw. rewrite Hcalm in *. apply (change_all (voice w)); try done; [by intros id ?; apply Hid | by repeat constructor].
  - apply idle_threads in Hcalm. unfold world_settings, set_peer_volume. rewrite concat_spawn. cbn [with_voice threads voice sessions].
    unfold world_settings in Hw. rewrite Hcalm in *. apply (change_all (voice w)); try done; by intros id ?; apply Hid.
  - apply idle_threads in Hcalm. unfold world_settings, set_peer_muted. rewrite concat_spawn. cbn [with_voice threads voice sessions].
    unfold world_settings in Hw. rewrite Hcalm in *. apply (change_all (voice w)); try done; by intros id ?; apply Hid.
  - cbn [calm] in Hcalm. apply andb_prop in Hcalm as [_ Hfree]. rewrite forallb_forall in Hfree.
    apply (settings_keep (voice w) (sessions w) (concat (threads w))); try done. split; [done |]. split; [done |]. intros mid.
    unfold voice_update_locked. cbn. destruct (voice_session (voice w)); [| done].
    destruct (voice_bindings (voice w) !! mid) as [peer' |] eqn:Hb; [| done].
    assert (Hne : peer' <> peer).
    { specialize (Hfree (mid, peer')). rewrite negb_true_iff, bool_decide_eq_false in Hfree. apply Hfree.
      apply list_elem_of_In, elem_of_map_to_list, Hb. }
    by rewrite !lookup_delete_ne.
  - unfold set_device. destruct (_ || _); [done |]. apply (settings_keep (voice w) (sessions w) (concat (threads w))); try done.
    by destruct playout.
  - unfold request_voice_stats. destruct (voice_stats_in_flight _); [done |].
    destruct (voice_session (voice w)) eqn:Hse; [apply spawn_settings; [by repeat constructor |] |];
      by apply (settings_keep (voice w) (sessions w) (concat (threads w))).
  - by apply (settings_keep (voice w) (sessions w) (concat (threads w))).
  - apply idle_threads in Hcalm. unfold world_settings, apply_binding. rewrite concat_spawn. cbn [with_voice threads voice sessions].
    unfold world_settings in Hw. rewrite Hcalm in *. cbn [concat].
    set (v' := with_bindings _ (voice w)).
    assert (Hlook : forall m, voice_bindings v' !! m = if decide (m = mid) then peer else voice_bindings (voice w) !! m).
    { intros m. subst v'. cbn. destruct peer; case_decide; subst;
        by rewrite ?lookup_insert_eq, ?lookup_delete_eq, ?lookup_insert_ne, ?lookup_delete_ne. }
    apply (change_settings (voice w)); try done; [| | by intros id ?; apply Hid].
    + intros u Hu. apply list_elem_of_In in Hu. destruct (voice_update_locked mid v') as [u' |] eqn:He; [| done].
      destruct Hu as [<- | []]. by destruct (update_ids _ _ _ He) as (_ & -> & _).
    + intros m u Hu. change (voice_update_locked m v' = Some u) in Hu.
      destruct (decide (m = mid)) as [-> | Hne]; [left; rewrite Hu; left | right].
      unfold voice_update_locked in *. rewrite Hlook, decide_False in Hu by done. exact Hu.
  - unfold on_signaling_state. apply spawn_settings; [by destruct is_connected; repeat constructor |].
    by apply (settings_keep (voice w) (sessions w) (concat (threads w))).
  - unfold answer_arrives, apply_answer. destruct (lifecycle_held w); [done |].
    destruct (voice_session (voice w)) as [id |] eqn:Hse; [| done]. pose proof (current_born w id Hok Hse) as Hborn.
    destruct Hw as [H1 H2 H3 H4 H5 H6 H7 H8]. unfold world_settings. cbn. split; cbn; try done.
    + intros id' Hun. destruct (H7 id' Hun) as [Hf1 Hf2]. split; [| done]. intros [->%elem_of_singleton | ?]%elem_of_union; [by apply Hborn | done].
    + intros id' mid [? ?]%H8. split; [by apply elem_of_union_r | done].
  - unfold track_made. destruct (_ || _) eqn:Hg; [done |]. apply orb_false_iff in Hg as [_ Hnew%bool_decide_eq_false].
    destruct Hw as [H1 H2 H3 H4 H5 H6 H7 H8]. unfold world_settings. cbn. split; cbn; try done.
    + intros m u Hu Ha. destruct (H6 m u Hu Ha) as [Hset | ?]; [left | by right]. destruct (update_ids _ _ _ Hu) as (_ & Hm & _).
      unfold settled in *. cbn. rewrite Hm in *. rewrite lookup_insert_ne; [done |]. intros [= -> ->]. by destruct Hnew, (H8 _ _ Ha).
    + intros id' m [Ha Ht]%H8. split; [done |]. rewrite lookup_insert. by case_decide; [eexists |].
  - unfold track_arrives. destruct (_ && _) eqn:Hg; [| done].
    apply andb_prop in Hg as [Hans%bool_decide_eq_true Htr%bool_decide_eq_true].
    unfold session_track, world_settings. rewrite concat_spawn. cbn [voice sessions threads with_sessions spawn].
    destruct Hw as [H1 H2 H3 H4 H5 H6 H7 H8].
    assert (Hheard : forall i m, (i, m) ∈ {[(id, mid)]} ∪ announced (sessions w) -> i ∈ answered (sessions w) /\ is_Some (tracks (sessions w) !! (i, m))).
    { intros i m [[= -> ->]%elem_of_singleton | ?]%elem_of_union; [done | by apply H8]. }
    destruct (voice_update_locked mid (voice w)) as [u |] eqn:Hu.
    2: { cbn [option_list fmap list_fmap app]. split; cbn; try done. intros m u' Hu' [[= _ ->]%elem_of_singleton | ?]%elem_of_union; [congruence | by eapply H6]. }
    pose proof (update_ids _ _ _ Hu) as (Hse & Hmid & _).
    assert (Hin : forall j, j ∈ Apply u :: concat (threads w) -> j = Apply u \/ j ∈ concat (threads w)) by (intros j; by rewrite elem_of_cons).
    cbn [option_list fmap list_fmap app]. split; cbn; [.. | exact Hheard].
    + intros i b [? | ?]%Hin; [done | by eapply H1].
    + intros i [? | ?]%Hin; [done | by apply H2].
    + intros i b [? | ?]%Hin; [done | by eapply H3].
    + intros i [? | ?]%H4; [by left | right; by right].
    + intros u' [[= ->] | ?]%Hin; [by rewrite Hmid | by apply H5].
    + intros m u' Hu' [[= _ ->]%elem_of_singleton | Ha]%elem_of_union; [rewrite Hu in Hu'; injection Hu' as <-; right; left |].
      destruct (H6 m u' Hu' Ha) as [? | ?]; [by left | right; by right].
    + intros i Hun. assert (Hold : unborn i (sessions w) (concat (threads w))).
      { destruct Hun as [? | [[? | ?]%Hin | [b [? | ?]%Hin]]]; [by left | done | by right; left | done | right; right; by exists b]. }
      destruct (H7 i Hold) as [Hf1 Hf2]. split; [done |]. intros u' [[= ->] | ?]%Hin; [| by apply Hf2].
      intros <-. by apply (current_born w (update_session u)).
  - unfold session_failed. destruct (bool_decide _); [done |]. unfold schedule_recovery.
    destruct (recovery_stopping _); by apply (settings_keep (voice w) (sessions w) (concat (threads w))).
  - unfold stats_delivered. destruct (negb _); [done |].
    destruct (bool_decide _); by apply (settings_keep (voice w) (sessions w) (concat (threads w))).
  - unfold run_recovery. destruct (recovery_queue _); [done |]. destruct (_ && _); [| done].
    apply spawn_settings; [by repeat constructor |]. by apply (settings_keep (voice w) (sessions w) (concat (threads w))).
  - unfold resume. destruct (threads w !! n) as [[| i rest] |] eqn:Hn; [done | | done].
    destruct (exec i answer w) as [[w' more] |] eqn:He; [| done].
    unfold world_settings. rewrite concat_spawn. cbn [threads].
    pose proof (delete_Permutation _ _ _ Hn) as Hp.
    apply (exec_settings i answer rest (delete n (threads w)) w w' more); [by eapply client_ok_perm | | done].
    pose proof (concat_perm _ _ Hp) as Hc. eapply settings_keep; [| | | | | exact Hw]; try done; intros; by rewrite ?Hc in * || rewrite <- ?Hc.
Qed.

Lemma new_world_settings : world_settings new_world.
Proof. apply idle_settings. split; [done |]. split; done. Qed.

Lemma run_settings acts :
  calm_run acts new_world = true -> world_settings (run acts).
Proof.
  unfold run. generalize new_world_settings new_world_ok. generalize new_world.
  induction acts as [| a acts IH]; intros w Hw Hok Hcalm; [done |]. cbn [calm_run] in Hcalm.
  apply andb_prop in Hcalm as [Ha Hcalm]. cbn [foldl]. apply IH; [by apply act_settings | by apply client_act_ok | done].
Qed.

(** *** The volumes are numbers that the session takes *)

(** Of the numbers: what is clamped, and a product of two such, can be set. *)
Class FloatLaws := {
  one_number : is_nan one = false;
  clamp_one : clamp_volume one = one;
  product_usable a b : is_nan a = false -> is_nan b = false -> usable (float_mul (clamp_volume a) (clamp_volume b)) = true;
}.
Context `{!FloatLaws}.

(** No volume that is set is NaN. *)
Definition numeric (a : Act) : bool :=
  match a with CallSetMasterVolume x | CallSetPeerVolume _ x => negb (is_nan x) | _ => true end.

Definition clamped (x : float) : Prop := exists y, is_nan y = false /\ x = clamp_volume y.
Definition volumes_ok (v : Voice) : Prop :=
  clamped (master_volume_value v) /\ forall peer x, voice_peer_volumes v !! peer = Some x -> clamped x.

Lemma one_clamped : clamped one.
Proof. exists one. split; [apply one_number | by rewrite clamp_one]. Qed.

Lemma act_volumes a w : numeric a = true -> volumes_ok (voice w) -> volumes_ok (voice (act a w)).
Proof.
  intros Ha [Hm Hp]. assert (Hsame : forall v, master_volume_value v = master_volume_value (voice w) ->
    voice_peer_volumes v = voice_peer_volumes (voice w) -> volumes_ok v) by (intros v E1 E2; split; by rewrite ?E1, ?E2).
  destruct a; cbn [act numeric] in *; try apply negb_true_iff in Ha; try (by apply Hsame).
  - split; cbn; [by exists volume | exact Hp].
  - split; cbn; [exact Hm |]. intros p x. rewrite lookup_insert. case_decide; [intros [= <-]; by exists volume | apply Hp].
  - split; cbn; [exact Hm |]. intros p x [_ ?]%lookup_delete_Some. by eapply Hp.
  - unfold set_device. destruct (_ || _); [done |]. destruct playout; by apply Hsame.
  - unfold request_voice_stats. destruct (voice_stats_in_flight _); [done |]. destruct (voice_session _); by apply Hsame.
  - unfold answer_arrives. destruct (apply_answer w); by apply Hsame.
  - unfold track_made. destruct (_ || _); by apply Hsame.
  - unfold track_arrives. destruct (_ && _); by apply Hsame.
  - unfold session_failed, schedule_recovery. destruct (bool_decide _); [done |]. cbn. destruct (recovery_stopping _); by apply Hsame.
  - unfold stats_delivered. destruct (negb _); [done |]. destruct (bool_decide _); by apply Hsame.
  - unfold run_recovery. destruct (recovery_queue _); [done |]. destruct (_ && _); by apply Hsame.
  - unfold resume. destruct (threads w !! n) as [[| i rest] |]; [done | | done].
    destruct (exec i answer w) as [[w' more] |] eqn:He; [| done]. cbn. apply Hsame; revert He; destruct i;
      unfold exec, start_voice_if_requested, start_session, publish, fall_back, stop_voice_session, request_stats;
      repeat case_match; intros; simplify_eq; done.
Qed.

Lemma run_volumes acts : forallb numeric acts = true -> volumes_ok (voice (run acts)).
Proof.
  unfold run. assert (Hnew : volumes_ok (voice new_world)).
  { split; [apply one_clamped |]. intros peer x. cbn. by rewrite lookup_empty. }
  revert Hnew. generalize new_world. induction acts as [| a acts IH]; intros w Hw; [done |].
  cbn [forallb foldl]. intros [Ha Hacts]%andb_prop. apply IH; [by apply act_volumes | done].
Qed.

Lemma volume_usable v peer : volumes_ok v ->
  usable (float_mul (master_volume_value v) (default one (voice_peer_volumes v !! peer))) = true.
Proof.
  intros [(x & Hx & ->) Hp]. assert (Hc : clamped (default one (voice_peer_volumes v !! peer))).
  { destruct (voice_peer_volumes v !! peer) as [y |] eqn:Hy; [by eapply Hp | apply one_clamped]. }
  destruct Hc as (y & Hy & ->). by apply product_usable.
Qed.


(** However the application, the transport, the sessions and the recovery
    interleave: every voice session that was made is the client's, in the hands of
    the one thread that holds the lifecycle lock, or closed; at most one is not
    closed; and one that nobody wants, or that lost its signaling, is being
    stopped, so that when no thread is at work it is closed. *)
Theorem one_voice_session acts :
  let w := run acts in
  option_list (voice_session (voice w)) ++ (concat (threads w) ≫= held_session) ++ elements (closed (sessions w))
    ≡ₚ seq 0 (next_session (sessions w))
  /\ length (option_list (voice_session (voice w))) + length (concat (threads w) ≫= held_session) <= 1
  /\ (lifecycle_held w = false -> concat (threads w) ≫= held_session = [])
  /\ (voice_requested (voice w) = false \/ connected w = false ->
       threads w = [] -> voice_session (voice w) = None /\ elements (closed (sessions w)) ≡ₚ seq 0 (next_session (sessions w))).
Proof.
  intros w. destruct (client_run_ok acts) as [Hok _]. fold w in Hok.
  pose proof (free_none (life w) (wanted w) (threads w) Hok) as Hfree. pose proof Hok as [Hs Ho Hl Hsh Hw].
  do 3 (split; [done |]). intros Hno Hidle. rewrite Hidle in Hok. apply (life_idle (life w) (wanted w) Hok).
  intros [? ?]. destruct Hno; congruence.
Qed.
End Client.

(** ** Samples *)

(** IEEE 754 binary32; a [float] becomes the [double] of the same value. *)
Definition usable_float (x : spec_float) : bool :=
  match x with
  | S754_zero _ => true
  | S754_finite s m e => negb s && (if 0 <=? e then Zpos m * 2 ^ e <=? 10 else Zpos m <=? 10 * 2 ^ (- e))%Z
  | _ => false
  end.

#[export] Instance binary32 : Float := {
  float := spec_float;
  zero := Binary32.of_Z 0;
  one := Binary32.of_Z 1;
  two := Binary32.of_Z 2;
  float_lt := Binary32.ltb;
  float_mul := Binary32.mul;
  is_nan x := negb (valid_binary 24 128 x) || bool_decide (x = S754_nan);
  usable := usable_float;
}.

#[export] Instance binary32_laws : FloatLaws.
Proof.
  split; [done | vm_compute; reflexivity |]. intros a b [Ha Ha']%orb_false_iff [Hb Hb']%orb_false_iff.
  assert (Hnum : forall x, negb (valid_binary 24 128 x) = false -> bool_decide (x = S754_nan) = false -> is_number x).
  { intros x Hv%negb_false_iff Hn%bool_decide_eq_false. by split. }
  destruct (product_below_ten _ _ (clamp_up_to_two a (Hnum a Ha Ha')) (clamp_up_to_two b (Hnum b Hb Hb'))) as [[s Hp] | (m & e & Hp & He & Hm)];
    change (usable_float (Binary32.mul (Binary32.clamp a (Binary32.of_Z 0) (Binary32.of_Z 2))
                                       (Binary32.clamp b (Binary32.of_Z 0) (Binary32.of_Z 2))) = true);
    rewrite Hp; [done |]. cbn [usable_float negb andb].
  destruct (Z.leb_spec 0 e) as [Hpos | Hneg]; apply Z.leb_le.
  - rewrite Z.pow_add_r, Z.mul_assoc in Hm by lia. apply (Z.mul_le_mono_pos_r _ _ (2 ^ 400)); [vm_compute; reflexivity | done].
  - apply (Z.mul_le_mono_pos_r _ _ (2 ^ (e + 400))); [apply Z.pow_pos_nonneg; lia |].
    rewrite <- Z.mul_assoc, <- Z.pow_add_r by lia. by replace (- e + (e + 400))%Z with 400%Z by lia.
Qed.

Definition yes (_ : nat) : bool := true.
Definition next : Act := Resumes 0 yes.

(** A session that is published. *)
Definition up : list Act := [SignalingChanges true; next; CallStart; next; next; next; next; next].

(** Its answer, and a track that it announces. *)
Definition heard : list Act := [TrackMade 0 "0"; AnswerArrives; SessionTrack 0 "0"; next].

Definition sample_acts : list Act :=
  up ++ heard ++ [BindingArrives "0" (Some "p"%string); next; CallSetPeerVolume "p" (Binary32.of_Z 2); next;
                  CallSetDeafened true; next; next; CallSetMuted true; next].


(** A track that no peer has yet is turned off when it is announced. *)
Example unbound_is_off : tracks (sessions (run (up ++ heard))) !! (0, "0"%string) = Some (false, one).
Proof. vm_compute. reflexivity. Qed.

(** Muted while a session starts, after the setting was read: the user is shown
    as muted, and the microphone sends. *)
Lemma mute_lost :
  let w := run [SignalingChanges true; next; CallStart; next; CallSetMuted true; next; next; next; next] in
  threads w = [] /\ voice_session (voice w) = Some 0 /\ voice_muted (voice w) = true
  /\ microphone (sessions w) !! 0 = Some true.
Proof. by vm_compute. Qed.

(** An update computed before the user was deafened is applied after it. *)
Lemma deafened_but_heard :
  let w := run (up ++ heard ++ [BindingArrives "0" (Some "p"%string); CallSetDeafened true; next; next; next]) in
  threads w = [] /\ voice_deafened (voice w) = true /\ voice_session (voice w) = Some 0
  /\ tracks (sessions w) !! (0, "0"%string) = Some (true, one).
Proof. vm_compute. auto. Qed.

(** A session that is closed before it delivers its statistics leaves the request
    in flight: the next session is never asked. *)
Lemma statistics_stuck :
  let w := run (up ++ [CallRequestStats; next; SignalingChanges false; next; next; next;
                       StatsArrive 0 (mkVoiceStats 0 0 []); SignalingChanges true; next; next; next; next; next]) in
  threads w = [] /\ voice_session (voice w) = Some 1 /\ stats_requests (sessions w) = [] /\ request_voice_stats w = w.
Proof. by vm_compute. Qed.
