(* ===== verification/ScreenStats.v ===== *)
(** * Statistics of the watched screens (core/src/webrtc/google_webrtc_screen_stats.cpp)

    The tracker turns the library's counters, which belong to a receive slot, into
    figures per watched peer: what was received since the slot was bound to the
    peer.  Reports of an earlier session are told by their generation.  The JSON
    text of a report is its [Report]; [None] is the text of an empty one. *)

From S2P Require Import Prelude Floats.

Local Open Scope Z_scope.
Local Open Scope list_scope.

(** The counters of a receive slot the tracker reads. *)
Record ScreenInboundRtpStats := mkInbound {
  mid : string;
  video : bool;
  packets_received : Z;
  bytes_received : Z;
  packets_lost : Z;
  jitter_buffer_emitted_count : Z;
  jitter_buffer_delay_seconds : spec_float;
  jitter_buffer_target_delay_seconds : spec_float;
  concealed_samples : Z;
  frames_decoded : Z;
  frames_dropped : Z;
  key_frames_decoded : Z;
}.

(** The outbound counters of a report are not read. *)
Record ScreenSessionStats := mkStats { inbound : list ScreenInboundRtpStats }.

Record VideoReport := mkVideo {
  v_packetsReceived : Z;
  v_bytesReceived : Z;
  v_packetsLost : Z;
  v_framesDecoded : Z;
  v_framesDropped : Z;
  v_keyFramesDecoded : Z;
  v_actualDelayMs : spec_float;
  v_targetDelayMs : spec_float;
}.

Record AudioReport := mkAudio {
  a_packetsReceived : Z;
  a_bytesReceived : Z;
  a_packetsLost : Z;
  a_concealedSamples : Z;
  a_actualDelayMs : spec_float;
  a_targetDelayMs : spec_float;
}.

(** [measuredKbps]: [None] when the rounding is out of range. *)
Record Report := mkReport { measuredKbps : option Z; video_report : VideoReport; audio_report : AudioReport }.

(** [updated_at]: nanoseconds of the steady clock. *)
Record Cache := mkCache { json : option Report; received_bytes : Z; updated_at : Z }.

Definition new_cache : Cache := mkCache None 0 0.

Record Tracker := mkTracker {
  bindings : gmap string string;
  watched_peers : gset string;
  cache_by_peer : gmap string Cache;
  baselines : gmap string ScreenInboundRtpStats;
  request_in_flight : bool;
  session_generation : Z;
}.

Definition new_tracker : Tracker := mkTracker ∅ ∅ ∅ ∅ false 0.

Record Poll := mkPoll { poll_json : option Report; start_request : bool; poll_generation : Z }.

Definition average_ms (total_seconds : spec_float) (count : Z) : spec_float :=
  if count =? 0 then Binary64.of_Z (-1)
  else Binary64.div (Binary64.mul total_seconds (Binary64.of_Z 1000)) (Binary64.of_Z count).

(** ** Operations *)

Definition set_binding (m : string) (peer_id : option string) (t : Tracker) : Tracker :=
  let old := bindings t !! m in
  if bool_decide (old = peer_id) then t
  else
    let cache := match old with Some p => delete p (cache_by_peer t) | None => cache_by_peer t end in
    match peer_id with
    | Some p => mkTracker (<[m := p]> (bindings t)) (watched_peers t) (delete p cache) (delete m (baselines t))
                  (request_in_flight t) (session_generation t)
    | None => mkTracker (delete m (bindings t)) (watched_peers t) cache (delete m (baselines t))
                (request_in_flight t) (session_generation t)
    end.

Definition set_watched (peer_id : string) (watched : bool) (t : Tracker) : Tracker :=
  if watched
  then mkTracker (bindings t) ({[peer_id]} ∪ watched_peers t) (cache_by_peer t) (baselines t) (request_in_flight t) (session_generation t)
  else mkTracker (bindings t) (watched_peers t ∖ {[peer_id]}) (delete peer_id (cache_by_peer t)) (baselines t)
         (request_in_flight t) (session_generation t).

Definition clear_watched (t : Tracker) : Tracker :=
  mkTracker (bindings t) ∅ ∅ (baselines t) (request_in_flight t) (session_generation t).

(** The loop erases a binding of the peer with its baseline. *)
Definition remove_peer (peer : string) (t : Tracker) : Tracker :=
  mkTracker (filter (fun b => b.2 <> peer) (bindings t)) (watched_peers t ∖ {[peer]}) (delete peer (cache_by_peer t))
    (filter (fun b => bindings t !! b.1 <> Some peer) (baselines t)) (request_in_flight t) (session_generation t).

Definition reset_session (t : Tracker) : Tracker :=
  mkTracker ∅ (watched_peers t) ∅ ∅ false (u64 (session_generation t + 1)).

Definition with_in_flight (b : bool) (t : Tracker) : Tracker :=
  mkTracker (bindings t) (watched_peers t) (cache_by_peer t) (baselines t) b (session_generation t).

Definition poll (peer_id : string) (session_available : bool) (t : Tracker) : Poll * Tracker :=
  let start := session_available && negb (request_in_flight t) in
  (mkPoll (json (default new_cache (cache_by_peer t !! peer_id))) start (session_generation t),
   if start then with_in_flight true t else t).

Definition request_failed (generation : Z) (t : Tracker) : Tracker :=
  if generation =? session_generation t then with_in_flight false t else t.

(** ** Reports *)

(** [delta] of a counter, and of a time *)
Definition delta (baseline : option ScreenInboundRtpStats) (member : ScreenInboundRtpStats -> Z) (i : ScreenInboundRtpStats) : Z :=
  match baseline with
  | None => member i
  | Some b => if member b <=? member i then member i - member b else 0
  end.

Definition delta_seconds (baseline : option ScreenInboundRtpStats) (member : ScreenInboundRtpStats -> spec_float)
    (i : ScreenInboundRtpStats) : spec_float :=
  match baseline with
  | None => member i
  | Some b => if Binary64.leb (member b) (member i) then Binary64.sub (member i) (member b) else S754_zero false
  end.

Definition lost_delta (baseline : option ScreenInboundRtpStats) (i : ScreenInboundRtpStats) : Z :=
  match baseline with
  | Some b => Z.max 0 (packets_lost i - packets_lost b)
  | None => Z.max 0 (packets_lost i)
  end.

(** The local sums of [update_peer]; those of video and audio are alike but for
    the counters of frames and of concealed samples. *)
Record Sums := mkSums {
  packets : Z;
  bytes : Z;
  lost : Z;
  decoded : Z;
  dropped : Z;
  keyframes : Z;
  concealed : Z;
  emitted : Z;
  delay : spec_float;
  target_delay : spec_float;
}.

Definition no_sums : Sums := mkSums 0 0 0 0 0 0 0 0 (S754_zero false) (S754_zero false).

Definition add_inbound (baseline : option ScreenInboundRtpStats) (s : Sums) (i : ScreenInboundRtpStats) : Sums :=
  mkSums
    (u64 (packets s + delta baseline packets_received i))
    (u64 (bytes s + delta baseline bytes_received i))
    (u64 (lost s + lost_delta baseline i))
    (if video i then u64 (decoded s + delta baseline frames_decoded i) else decoded s)
    (if video i then u64 (dropped s + delta baseline frames_dropped i) else dropped s)
    (if video i then u64 (keyframes s + delta baseline key_frames_decoded i) else keyframes s)
    (if video i then concealed s else u64 (concealed s + delta baseline concealed_samples i))
    (u64 (emitted s + delta baseline jitter_buffer_emitted_count i))
    (Binary64.add (delay s) (delta_seconds baseline jitter_buffer_delay_seconds i))
    (Binary64.add (target_delay s) (delta_seconds baseline jitter_buffer_target_delay_seconds i)).

(** The loop over the inbound streams: the sums of video, and of audio. *)
Definition add_streams (peer_id : string) (t : Tracker) (sums : Sums * Sums) (i : ScreenInboundRtpStats) : Sums * Sums :=
  if bool_decide (bindings t !! mid i = Some peer_id) then
    let baseline := baselines t !! mid i in
    if video i then (add_inbound baseline sums.1 i, sums.2) else (sums.1, add_inbound baseline sums.2 i)
  else sums.

(** [duration<double>] of a number of nanoseconds *)
Definition seconds_of (nanoseconds : Z) : spec_float :=
  Binary64.div (Binary64.of_Z nanoseconds) (Binary64.of_Z 1000000000).

Definition measured_kbps (now received : Z) (cache : Cache) : option Z :=
  if negb (updated_at cache =? 0) && (received_bytes cache <=? received) then
    let seconds := seconds_of (now - updated_at cache) in
    if Binary64.ltb (S754_zero false) seconds then
      s32 <$> llround (Binary64.div (Binary64.div (Binary64.mul (Binary64.of_Z (received - received_bytes cache)) (Binary64.of_Z 8))
                                       seconds) (Binary64.of_Z 1000))
    else Some 0
  else Some 0.

Definition update_peer (peer_id : string) (stats : ScreenSessionStats) (now : Z) (t : Tracker) (cache : Cache) : Cache :=
  let '(v, a) := foldl (add_streams peer_id t) (no_sums, no_sums) (inbound stats) in
  let received := u64 (bytes v + bytes a) in
  mkCache
    (Some (mkReport (measured_kbps now received cache)
             (mkVideo (packets v) (bytes v) (lost v) (decoded v) (dropped v) (keyframes v)
                (average_ms (delay v) (emitted v)) (average_ms (target_delay v) (emitted v)))
             (mkAudio (packets a) (bytes a) (lost a) (concealed a)
                (average_ms (delay a) (emitted a)) (average_ms (target_delay a) (emitted a)))))
    received now.

Definition keep_baseline (bs : gmap string string) (m : gmap string ScreenInboundRtpStats) (i : ScreenInboundRtpStats) :
    gmap string ScreenInboundRtpStats :=
  if bool_decide (is_Some (bs !! mid i)) && bool_decide (m !! mid i = None) then <[mid i := i]> m else m.

Definition consume (stats : ScreenSessionStats) (generation now : Z) (t : Tracker) : Tracker :=
  if negb (generation =? session_generation t) then t
  else
    let t := mkTracker (bindings t) (watched_peers t) (cache_by_peer t) (foldl (keep_baseline (bindings t)) (baselines t) (inbound stats))
               (request_in_flight t) (session_generation t) in
    let cache := foldl (fun c peer => <[peer := update_peer peer stats now t (default new_cache (c !! peer))]> c)
                   (cache_by_peer t) (elements (watched_peers t)) in
    mkTracker (bindings t) (watched_peers t) cache (baselines t) false (session_generation t).

(** ** Runs, and what was received since a slot was bound *)

Inductive Op :=
  | SetBinding (m : string) (peer_id : option string)
  | SetWatched (peer_id : string) (watched : bool)
  | ClearWatched
  | RemovePeer (peer_id : string)
  | ResetSession
  | PollFor (peer_id : string) (session_available : bool)
  | RequestFailed (generation : Z)
  | Consume (stats : ScreenSessionStats) (generation now : Z).

Definition step (t : Tracker) (o : Op) : Tracker :=
  match o with
  | SetBinding m p => set_binding m p t
  | SetWatched p b => set_watched p b t
  | ClearWatched => clear_watched t
  | RemovePeer p => remove_peer p t
  | ResetSession => reset_session t
  | PollFor p available => (poll p available t).2
  | RequestFailed g => request_failed g t
  | Consume stats g now => consume stats g now t
  end.

(** The reference: per slot the peer it is bound to, and everything that was
    reported of the slot since, in order. *)
Abbreviation Since := (gmap string (string * list ScreenInboundRtpStats)).

Definition reported (m : string) (stats : ScreenSessionStats) : list ScreenInboundRtpStats :=
  filter (fun i => mid i = m) (inbound stats).

(** [current]: a report is one of the current session. *)
Definition since_step (current : bool) (s : Since) (o : Op) : Since :=
  match o with
  | SetBinding m p =>
    if bool_decide (fst <$> s !! m = p) then s
    else match p with Some p => <[m := (p, [])]> s | None => delete m s end
  | RemovePeer p => filter (fun b => b.2.1 <> p) s
  | ResetSession => ∅
  | Consume stats _ _ => if current then map_imap (fun m b => Some (b.1, b.2 ++ reported m stats)) s else s
  | _ => s
  end.

Definition is_current (t : Tracker) (o : Op) : bool :=
  match o with Consume _ g _ => g =? session_generation t | _ => true end.

Definition run (ops : list Op) : Tracker * Since :=
  foldl (fun '(t, s) o => (step t o, since_step (is_current t o) s o)) (new_tracker, ∅) ops.

(** What a stream gained for a peer since its slot was bound to it. *)
Definition gain (member : ScreenInboundRtpStats -> Z) (peer_id : string) (s : Since) (i : ScreenInboundRtpStats) : Z :=
  match s !! mid i with
  | Some (p, first :: _) => if bool_decide (p = peer_id) then Z.max 0 (member i - member first) else 0
  | _ => 0
  end.

(** And the streams of a kind together. *)
Definition gained (member : ScreenInboundRtpStats -> Z) (is_video : bool) (peer_id : string) (s : Since) (stats : ScreenSessionStats) : Z :=
  u64 (foldr (fun i total => gain member peer_id s i + total) 0 (filter (fun i => video i = is_video) (inbound stats))).

(** ** The tracker follows the reference *)

Record tracks (t : Tracker) (s : Since) : Prop := {
  tracks_bindings : bindings t = fst <$> s;
  tracks_baselines m : baselines t !! m = s !! m ≫= fun b => head b.2;
  tracks_caches p : p ∉ watched_peers t -> cache_by_peer t !! p = None;
}.

Lemma keep_baseline_lookup bs l m k :
  foldl (keep_baseline bs) k l !! m =
    match k !! m with
    | Some b => Some b
    | None => if bool_decide (is_Some (bs !! m)) then head (filter (fun i => mid i = m) l) else None
    end.
Proof.
  revert k. induction l as [| i l IH]; intros k; cbn [foldl].
  - rewrite filter_nil. destruct (k !! m); [done | by case_bool_decide].
  - rewrite IH, filter_cons. unfold keep_baseline. destruct (decide (mid i = m)) as [<- | Hne].
    + destruct (k !! mid i) eqn:Hk.
      * by rewrite (bool_decide_false (Some _ = None)), andb_false_r, Hk by done.
      * rewrite (bool_decide_true (None = None)), andb_true_r by done. case_bool_decide; [by rewrite lookup_insert_eq | by rewrite Hk].
    + destruct (bool_decide (is_Some (bs !! mid i)) && _); by rewrite ?lookup_insert_ne by done.
Qed.

Lemma update_caches (f : string -> Cache -> Cache) (l : list string) (k : gmap string Cache) p :
  NoDup l ->
  foldl (fun c peer => <[peer := f peer (default new_cache (c !! peer))]> c) k l !! p
  = if bool_decide (p ∈ l) then Some (f p (default new_cache (k !! p))) else k !! p.
Proof.
  intros Hd. revert k. induction Hd as [| q l Hq Hd IH]; intros k; cbn [foldl].
  - by rewrite bool_decide_false by apply not_elem_of_nil.
  - rewrite IH. destruct (decide (p = q)) as [-> | Hne].
    + rewrite bool_decide_false by done. rewrite lookup_insert_eq. by rewrite bool_decide_true by left.
    + rewrite lookup_insert_ne by done. destruct (decide (p ∈ l)).
      * by rewrite !bool_decide_true by (by try right).
      * by rewrite !bool_decide_false by (by try (intros [? | ?]%elem_of_cons)).
Qed.

Lemma consume_fields stats g now t :
  let t' := consume stats g now t in
  bindings t' = bindings t /\ watched_peers t' = watched_peers t /\ session_generation t' = session_generation t.
Proof. cbv zeta. unfold consume. by destruct (negb _). Qed.

Lemma consume_cache stats now t p :
  let t' := consume stats (session_generation t) now t in
  cache_by_peer t' !! p
  = if bool_decide (p ∈ watched_peers t) then Some (update_peer p stats now t' (default new_cache (cache_by_peer t !! p)))
    else cache_by_peer t !! p.
Proof.
  cbv zeta. unfold consume. rewrite Z.eqb_refl. cbn [negb cache_by_peer].
  etransitivity; [apply (update_caches (fun peer => update_peer peer stats now _)), NoDup_elements |].
  cbn. rewrite (bool_decide_ext (p ∈ elements (watched_peers t)) (p ∈ watched_peers t)) by apply elem_of_elements. done.
Qed.

Lemma consume_tracks stats g now t s :
  tracks t s -> tracks (consume stats g now t) (since_step (g =? session_generation t) s (Consume stats g now)).
Proof.
  intros [Hb Hl Hc]. cbn [since_step]. destruct (g =? _) eqn:Hg; [| by unfold consume; rewrite Hg].
  apply Z.eqb_eq in Hg as ->. split.
  - rewrite (proj1 (consume_fields _ _ _ _)), Hb. apply map_eq. intros m. rewrite !lookup_fmap, map_lookup_imap. by destruct (s !! m).
  - intros m. unfold consume. rewrite Z.eqb_refl. cbn [negb baselines]. rewrite keep_baseline_lookup, map_lookup_imap, Hl, Hb, lookup_fmap.
    destruct (s !! m) as [[q [| b seen]] |]; done.
  - intros p. rewrite (proj1 (proj2 (consume_fields _ _ _ _))). intros Hp. rewrite consume_cache, bool_decide_false by done. by apply Hc.
Qed.

Lemma step_tracks t s o : tracks t s -> tracks (step t o) (since_step (is_current t o) s o).
Proof.
  intros Hok. destruct o as [m q | q b | | q | | q b | g | stats g now]; [| | | | | | | by apply consume_tracks];
    destruct Hok as [Hb Hl Hc]; cbn [step since_step is_current].
  - unfold set_binding. rewrite Hb, lookup_fmap. destruct (bool_decide _); [by split |].
    split; destruct q as [q |]; cbn; rewrite ?fmap_insert, ?fmap_delete, ?Hb; try done;
      try (intros m'; destruct (decide (m' = m)) as [-> | ?];
           [by rewrite ?lookup_delete_eq, ?lookup_insert_eq | by rewrite ?lookup_delete_ne, ?lookup_insert_ne by done]);
      intros p Hp; destruct (s !! m); cbn; rewrite ?lookup_delete_None; auto.
  - destruct b; split; cbn; try done.
    + intros p Hp. apply Hc. set_solver.
    + intros p Hp. apply lookup_delete_None. destruct (decide (q = p)); [by left | right; apply Hc; set_solver].
  - by split.
  - split; cbn.
    + rewrite Hb. apply map_eq. intros m. rewrite lookup_fmap, !map_lookup_filter, lookup_fmap. destruct (s !! m) as [[p seen] |]; [| done].
      by destruct (decide (p = q)); simplify_option_eq.
    + intros m. rewrite !map_lookup_filter, Hl. destruct (s !! m) as [[p seen] |] eqn:Hm; [| done].
      assert (Hp : bindings t !! m = Some p) by (by rewrite Hb, lookup_fmap, Hm).
      destruct seen, (decide (p = q)); by simplify_option_eq.
    + intros p Hp. apply lookup_delete_None. destruct (decide (q = p)); [by left | right; apply Hc; set_solver].
  - split; cbn; try done.
  - unfold poll. by destruct (_ && _).
  - unfold request_failed. by destruct (_ =? _).
Qed.

Lemma run_tracks ops : tracks (run ops).1 (run ops).2.
Proof.
  induction ops as [| o ops IH] using rev_ind; [by split |]. unfold run in *. rewrite foldl_app. cbn [foldl].
  destruct (foldl _ _ ops) as [t s]. by apply step_tracks.
Qed.

(** ** The sums *)

Definition side (is_video : bool) (sums : Sums * Sums) : Sums := if is_video then sums.1 else sums.2.

Definition total (member : ScreenInboundRtpStats -> Z) (is_video : bool) (peer_id : string) (s : Since) (l : list ScreenInboundRtpStats) : Z :=
  foldr (fun i n => gain member peer_id s i + n) 0 (filter (fun i => video i = is_video) l).

(** [proj] is the sum of [member] over the streams of a kind. *)
Definition sums_member (proj : Sums -> Z) (member : ScreenInboundRtpStats -> Z) (is_video : bool) : Prop :=
  forall b x i, video i = is_video -> proj (add_inbound (Some b) x i) = u64 (proj x + Z.max 0 (member i - member b)).

Lemma u64_add x y : u64 (u64 x + y) = u64 (x + y).
Proof. unfold u64, wrap. by rewrite Zplus_mod_idemp_l. Qed.

Lemma u64_u64 x : u64 (u64 x) = u64 x.
Proof. unfold u64, wrap. by rewrite Zmod_mod. Qed.

Lemma stream_sum proj member is_video peer_id t s acc i :
  sums_member proj member is_video -> tracks t s -> (forall p, s !! mid i <> Some (p, [])) ->
  proj (side is_video acc) = u64 (proj (side is_video acc)) ->
  proj (side is_video (add_streams peer_id t acc i))
  = u64 (proj (side is_video acc) + if decide (video i = is_video) then gain member peer_id s i else 0).
Proof.
  intros Hadd [Hb Hl _] Hne Hacc. unfold add_streams, gain. rewrite Hb, Hl, lookup_fmap.
  destruct (s !! mid i) as [[p [| b seen]] |] eqn:Hm; cbn [fmap option_fmap option_map fst snd mbind option_bind head].
  - by destruct (Hne p).
  - rewrite (bool_decide_ext (Some p = Some peer_id) (p = peer_id)) by (split; congruence).
    case_bool_decide; [| by case_decide; rewrite Z.add_0_r].
    case_decide as Hv; [subst is_video; destruct (video i) eqn:Hv; cbn [side fst snd] in *; by apply Hadd |].
    destruct (video i), is_video; try done; cbn [side fst snd] in *; by rewrite Z.add_0_r.
  - by case_decide; rewrite Z.add_0_r.
Qed.

Lemma streams_sum proj member is_video peer_id t s l acc :
  sums_member proj member is_video -> tracks t s -> (forall i p, i ∈ l -> s !! mid i <> Some (p, [])) ->
  proj (side is_video acc) = u64 (proj (side is_video acc)) ->
  proj (side is_video (foldl (add_streams peer_id t) acc l)) = u64 (proj (side is_video acc) + total member is_video peer_id s l).
Proof.
  intros Hadd Hok. revert acc. unfold total. induction l as [| i l IH]; intros acc Hne Hacc; cbn [foldl].
  - cbn. by rewrite Z.add_0_r.
  - assert (Hi := stream_sum proj member is_video peer_id t s acc i Hadd Hok ltac:(intros; apply Hne; left) Hacc).
    rewrite IH; [| intros; apply Hne; by right | by rewrite Hi, u64_u64].
    rewrite Hi, u64_add, filter_cons. case_decide; cbn [foldr]; f_equal; lia.
Qed.

Lemma delta_max member b i : delta (Some b) member i = Z.max 0 (member i - member b).
Proof. cbn. destruct (_ <=? _) eqn:Hle; rewrite ?Z.leb_le, ?Z.leb_gt in Hle; lia. Qed.

(** Every slot that a report speaks of has a first report. *)
Lemma reported_some stats generation now (s : Since) i p :
  i ∈ inbound stats -> since_step true s (Consume stats generation now) !! mid i <> Some (p, []).
Proof.
  intros Hi. cbn [since_step]. rewrite map_lookup_imap. destruct (s !! mid i) as [[q seen] |]; [| done]. cbn. intros [= _ [_ Hr]%app_eq_nil].
  assert (Hin : i ∈ reported (mid i) stats) by (by apply list_elem_of_filter). rewrite Hr in Hin. by apply elem_of_nil in Hin.
Qed.

(** A report of the current session gives each watched peer, for video and for
    audio, what the slots that are bound to it gained since they were bound: the
    counter at the report less the counter at the slot's first report since, or
    nothing if the counter fell back, summed.  Nothing is shown of a peer that is
    not watched. *)
Theorem statistics_since_binding ops stats now :
  let t := (run ops).1 in
  let '(t', s') := run (ops ++ [Consume stats (session_generation t) now]) in
  (forall p, p ∈ watched_peers t ->
     exists r, json <$> cache_by_peer t' !! p = Some (Some r)
     /\ (let v := video_report r in
         v_packetsReceived v = gained packets_received true p s' stats
         /\ v_bytesReceived v = gained bytes_received true p s' stats
         /\ v_packetsLost v = gained packets_lost true p s' stats
         /\ v_framesDecoded v = gained frames_decoded true p s' stats
         /\ v_framesDropped v = gained frames_dropped true p s' stats
         /\ v_keyFramesDecoded v = gained key_frames_decoded true p s' stats)
     /\ (let a := audio_report r in
         a_packetsReceived a = gained packets_received false p s' stats
         /\ a_bytesReceived a = gained bytes_received false p s' stats
         /\ a_packetsLost a = gained packets_lost false p s' stats
         /\ a_concealedSamples a = gained concealed_samples false p s' stats))
  /\ (forall p available, p ∉ watched_peers t -> poll_json (poll p available t').1 = None).
Proof.
  intros t. pose proof (run_tracks (ops ++ [Consume stats (session_generation t) now])) as Hok.
  unfold run in *. rewrite foldl_app in *. cbn [foldl] in *. subst t. destruct (foldl _ _ ops) as [t s]. cbn [fst snd] in *.
  cbn [step is_current] in *. destruct (consume_fields stats (session_generation t) now t) as (_ & Hw & _).
  split; [| intros p available Hp; unfold poll; destruct Hok as [_ _ Hc]; by rewrite Hc by (by rewrite Hw)].
  intros p Hp. rewrite consume_cache, bool_decide_true by done. cbn [fmap option_fmap option_map].
  set (t' := consume stats _ now t) in *. rewrite Z.eqb_refl in *. set (s' := since_step true s _) in *.
  unfold update_peer. destruct (foldl _ _ (inbound stats)) as [v a] eqn:Hf. eexists. split; [reflexivity |].
  assert (Hsum : forall proj member is_video, sums_member proj member is_video -> proj no_sums = 0 ->
                   proj (side is_video (v, a)) = gained member is_video p s' stats).
  { intros proj member is_video Hm Hz. rewrite <- Hf. rewrite (streams_sum proj member is_video p t' s');
      [by destruct is_video; cbn [side fst snd]; rewrite Hz | done | done | intros; by apply reported_some | by destruct is_video; cbn [side fst snd]; rewrite Hz]. }
  cbn. split_and!;
    match goal with |- ?proj v = gained ?m _ _ _ _ => apply (Hsum proj m true) | |- ?proj a = gained ?m _ _ _ _ => apply (Hsum proj m false) end;
    try done; intros b x i Hv; cbn [add_inbound packets bytes lost decoded dropped keyframes concealed];
    rewrite ?Hv; by rewrite ?delta_max.
Qed.

(** ** Samples *)

Definition sample (packets : Z) : ScreenSessionStats :=
  mkStats [mkInbound "0" true packets (packets * 1000) 0 0 (S754_zero false) (S754_zero false) 0 0 0 0].

Definition sample_ops : list Op :=
  [Consume (sample 7) 0 1000000000; SetWatched "p" true; SetBinding "0" (Some "p"); Consume (sample 10) 0 2000000000].

Lemma statistics_since_binding_witness :
  exists r, json <$> cache_by_peer (consume (sample 25) 0 4000000000 (run sample_ops).1) !! "p" = Some (Some r)
  /\ v_packetsReceived (video_report r) = 15 /\ v_bytesReceived (video_report r) = 15000.
Proof.
  pose proof (statistics_since_binding sample_ops (sample 25) 4000000000) as Hs.
  destruct Hs as [Hs _]. destruct (Hs "p") as (r & Hr & (Hp & Hb & _) & _); [by vm_compute |].
  exists r. split; [exact Hr | split; [rewrite Hp | rewrite Hb]; reflexivity].
Defined.

(** 15000 bytes in two seconds. *)
Lemma measured : measured_kbps 4000000000 15000 (mkCache None 0 2000000000) = Some 60.
Proof. reflexivity. Qed.
