(* ===== verification/Playout.v ===== *)
(** * The playout of the screens' sound (core/src/webrtc/google_webrtc_pcm_playout.cpp)

    A single-producer, single-consumer queue between the WebRTC thread, which
    pushes, and the audio device, which renders, with a third thread that starts
    and stops the device.  [act] runs one thread to its next atomic operation.

    A stop and a push meet in two atomics: a stop stores [accepting_] and then loads
    [active_pushes_], a push adds to [active_pushes_] and then loads [accepting_].
    Neither load is sequentially consistent, so C++ lets it return an older value than
    the last one stored, though never older than one its thread has seen.  The model
    keeps the older values of both atomics; [age] says how far back a load reads.  The
    other atomics are independent settings.  The queue is the boost library's: a push or
    a pop of it is one step, and clearing it is only allowed while neither can run.
    [written] and [played] are history: what was queued and taken since the queue was
    last cleared.  [raced]: the queue was cleared while a push or the device could touch
    it, or a push went ahead on an older value of [accepting_]. *)

From S2P Require Import Prelude Floats.

Local Open Scope Z_scope.
Local Open Scope list_scope.

Definition kSampleRate : Z := 48000.
Definition kChannels : Z := 2.
Definition capacity : Z := kSampleRate * kChannels * 2.

(** What the producer does next: read [accepting_], push, or leave. *)
Inductive Producer := Entered (samples : list Z) | Pushing (samples : list Z) | Leaving.

(** What the control thread does next. *)
Inductive Control :=
  | Idle
  | Clearing
  | Accepting
  | StartingDevice
  | Refusing
  | Waiting
  | StoppingDevice
  | StopClearing
  | StopSilencing.

Record Playout := mkPlayout {
  queue : list Z;
  running : bool;
  accepting : bool;
  active_pushes : Z;
  volume : spec_float;
  output_level : spec_float;
  muted : bool;
  producer : option Producer;
  control : Control;
  written : list Z;
  played : list Z;
  (** the older values of the two atomics, and how many of them the other thread may
      still read *)
  older_accepting : list bool;
  accepting_lag : nat;
  older_pushes : list Z;
  pushes_lag : nat;
  raced : bool;
}.

Definition new_playout : Playout :=
  mkPlayout [] false false 0 (Binary32.of_Z 1) (S754_zero false) false None Idle [] [] [] 0 [] 0 false.

(** ** Atomics *)

(** A load that reads [age] stores back, if its thread has not seen a later one. *)
Definition observe {A} (latest : A) (older : list A) (lag age : nat) : A := nth (Nat.min age lag) (latest :: older) latest.

(** ** Control *)

Definition with_control (c : Control) (p : Playout) : Playout :=
  mkPlayout (queue p) (running p) (accepting p) (active_pushes p) (volume p) (output_level p) (muted p)
    (producer p) c (written p) (played p) (older_accepting p) (accepting_lag p) (older_pushes p) (pushes_lag p) (raced p).

(** A push is writing. *)
Definition pushing (p : Playout) : bool := match producer p with Some (Pushing _) => true | _ => false end.

(** The device may call back: it runs, or is being started. *)
Definition device_up (p : Playout) : bool := running p || match control p with StartingDevice => true | _ => false end.

Definition clear_queue (p : Playout) : Playout :=
  mkPlayout [] (running p) (accepting p) (active_pushes p) (volume p) (output_level p) (muted p)
    (producer p) (control p) [] [] (older_accepting p) (accepting_lag p) (older_pushes p) (pushes_lag p)
    (raced p || pushing p || device_up p).

(** A store: the producer may read older values for a while. *)
Definition with_accepting (b : bool) (p : Playout) : Playout :=
  mkPlayout (queue p) (running p) b (active_pushes p) (volume p) (output_level p) (muted p)
    (producer p) (control p) (written p) (played p) (accepting p :: older_accepting p) (accepting_lag p + 1)
    (older_pushes p) (pushes_lag p) (raced p).

Definition with_running (b : bool) (p : Playout) : Playout :=
  mkPlayout (queue p) b (accepting p) (active_pushes p) (volume p) (output_level p) (muted p)
    (producer p) (control p) (written p) (played p) (older_accepting p) (accepting_lag p) (older_pushes p) (pushes_lag p) (raced p).

Definition with_level (x : spec_float) (p : Playout) : Playout :=
  mkPlayout (queue p) (running p) (accepting p) (active_pushes p) (volume p) x (muted p)
    (producer p) (control p) (written p) (played p) (older_accepting p) (accepting_lag p) (older_pushes p) (pushes_lag p) (raced p).

(** The control thread has loaded [active_pushes_]. *)
Definition with_pushes_lag (lag : nat) (p : Playout) : Playout :=
  mkPlayout (queue p) (running p) (accepting p) (active_pushes p) (volume p) (output_level p) (muted p)
    (producer p) (control p) (written p) (played p) (older_accepting p) (accepting_lag p) (older_pushes p) lag (raced p).

Definition start (p : Playout) : Playout := if running p then p else with_control Clearing p.

Definition stop (p : Playout) : Playout := with_control Waiting (with_accepting false p).

(** The control thread's next step; [ok]: the device starts; [age]: that of the load of
    [active_pushes_]. *)
Definition advance (ok : bool) (age : nat) (p : Playout) : Playout :=
  match control p with
  | Idle => p
  | Clearing => with_control Accepting (clear_queue p)
  | Accepting => with_control StartingDevice (with_accepting true p)
  | StartingDevice => if ok then with_control Idle (with_running true p) else with_control Refusing p
  | Refusing => with_control Idle (with_accepting false p)
  | Waiting =>
    let seen := observe (active_pushes p) (older_pushes p) (pushes_lag p) age in
    let p := with_pushes_lag (Nat.min age (pushes_lag p)) p in
    if seen =? 0 then with_control StoppingDevice p else p
  | StoppingDevice => with_control StopClearing (with_running false p)
  | StopClearing => with_control StopSilencing (clear_queue p)
  | StopSilencing => with_control Idle (with_level (S754_zero false) p)
  end.

(** ** push *)

(** A store of [active_pushes_]. *)
Definition with_pushes (q : option Producer) (active : Z) (p : Playout) : Playout :=
  mkPlayout (queue p) (running p) (accepting p) active (volume p) (output_level p) (muted p)
    q (control p) (written p) (played p) (older_accepting p) (accepting_lag p) (active_pushes p :: older_pushes p) (pushes_lag p + 1) (raced p).

(** The producer has loaded [accepting_]; [stale]: it goes ahead on an older value. *)
Definition with_producer (q : Producer) (lag : nat) (stale : bool) (p : Playout) : Playout :=
  mkPlayout (queue p) (running p) (accepting p) (active_pushes p) (volume p) (output_level p) (muted p)
    (Some q) (control p) (written p) (played p) (older_accepting p) lag (older_pushes p) (pushes_lag p) (raced p || stale).

(** [fetch_add] reads the latest value. *)
Definition push (samples : list Z) (p : Playout) : Playout :=
  match producer p with
  | Some _ => p
  | None => with_pushes (Some (Entered samples)) (u32 (active_pushes p + 1)) p
  end.

Definition write_available (p : Playout) : Z := capacity - Z.of_nat (length (queue p)).

(** [age]: that of the load of [accepting_]. *)
Definition push_check (samples : list Z) (age : nat) (p : Playout) : Playout :=
  let size := Z.of_nat (length samples) in
  let seen := observe (accepting p) (older_accepting p) (accepting_lag p) age in
  let lag := Nat.min age (accepting_lag p) in
  if negb seen || (size =? 0) || negb (size mod kChannels =? 0) || (write_available p <? size)
  then with_producer Leaving lag false p
  else with_producer (Pushing samples) lag (negb (Nat.eqb lag 0)) p.

Definition push_write (samples : list Z) (p : Playout) : Playout :=
  mkPlayout (queue p ++ samples) (running p) (accepting p) (active_pushes p) (volume p) (output_level p) (muted p)
    (Some Leaving) (control p) (written p ++ samples) (played p)
    (older_accepting p) (accepting_lag p) (older_pushes p) (pushes_lag p) (raced p).

Definition push_next (age : nat) (p : Playout) : Playout :=
  match producer p with
  | None => p
  | Some (Entered samples) => push_check samples age p
  | Some (Pushing samples) => push_write samples p
  | Some Leaving => with_pushes None (u32 (active_pushes p - 1)) p
  end.

(** ** render *)

Definition gain (p : Playout) : spec_float := if muted p then S754_zero false else volume p.

Definition clamp16 (z : Z) : Z := if z <? - 2 ^ 15 then - 2 ^ 15 else if 2 ^ 15 - 1 <? z then 2 ^ 15 - 1 else z.

(** The new value of a sample; [None]: the gain is not a number. *)
Definition scale (g : spec_float) (sample : Z) : option Z :=
  (fun r => clamp16 (s32 r)) <$> lround (Binary32.mul (Binary32.of_Z sample) g).

(** The loop's peak. *)
Definition peak (output : list Z) : Z := foldl (fun m s => Z.max m (Z.abs s)) 0 output.

(** What the device gets for [samples] samples. *)
Definition render_output (samples : nat) (p : Playout) : option (list Z) :=
  let read := take samples (queue p) in
  scaled ← mapM (scale (gain p)) read;
  Some (scaled ++ replicate (samples - length read) 0).

Definition render (samples : nat) (p : Playout) : Playout :=
  let read := take samples (queue p) in
  let scaled := default [] (mapM (scale (gain p)) read) in
  mkPlayout (drop samples (queue p)) (running p) (accepting p) (active_pushes p) (volume p)
    (Binary32.div (Binary32.of_Z (peak scaled)) (Binary32.of_Z (2 ^ 15 - 1))) (muted p)
    (producer p) (control p) (written p) (played p ++ read)
    (older_accepting p) (accepting_lag p) (older_pushes p) (pushes_lag p) (raced p).

(** The device asks for frames while it runs, also before its start has returned. *)
Definition data_callback (frame_count : nat) (p : Playout) : Playout :=
  if device_up p then render (frame_count * Z.to_nat kChannels) p else p.

(** ** Settings *)

Definition set_volume (x : spec_float) (p : Playout) : Playout :=
  mkPlayout (queue p) (running p) (accepting p) (active_pushes p)
    (Binary32.clamp x (S754_zero false) (Binary32.of_Z 2)) (output_level p) (muted p)
    (producer p) (control p) (written p) (played p)
    (older_accepting p) (accepting_lag p) (older_pushes p) (pushes_lag p) (raced p).

Definition set_muted (b : bool) (p : Playout) : Playout :=
  mkPlayout (queue p) (running p) (accepting p) (active_pushes p) (volume p) (output_level p) b
    (producer p) (control p) (written p) (played p)
    (older_accepting p) (accepting_lag p) (older_pushes p) (pushes_lag p) (raced p).

(** ** Runs *)

Inductive Act :=
  | Start
  | Stop
  | Advance (ok : bool) (age : nat)
  | Push (samples : list Z)
  | PushNext (age : nat)
  | DataCallback (frame_count : nat)
  | SetVolume (x : spec_float)
  | SetMuted (b : bool).

Definition act (p : Playout) (a : Act) : Playout :=
  match a with
  | Start => match control p with Idle => start p | _ => p end
  | Stop => match control p with Idle => stop p | _ => p end
  | Advance ok age => advance ok age p
  | Push samples => push samples p
  | PushNext age => push_next age p
  | DataCallback n => data_callback n p
  | SetVolume x => set_volume x p
  | SetMuted b => set_muted b p
  end.

Definition idle (p : Playout) : bool := match control p with Idle => true | _ => false end.

(** The client calls one after another, and stops the playout before it starts it
    again, also after a start that failed; [fresh]: it may start. *)
Fixpoint client_run (acts : list Act) (fresh : bool) (p : Playout) : bool :=
  match acts with
  | [] => true
  | Start :: acts => idle p && fresh && client_run acts false (act p Start)
  | Stop :: acts => idle p && client_run acts true (act p Stop)
  | a :: acts => client_run acts fresh (act p a)
  end.

(** No load is stale, as when they are sequentially consistent. *)
Definition fresh_loads (acts : list Act) : bool :=
  forallb (fun a => match a with Advance _ age | PushNext age => Nat.eqb age 0 | _ => true end) acts.

Definition run (acts : list Act) : Playout := foldl act new_playout acts.

(** ** The invariant *)

Definition quiet (p : Playout) : Prop := accepting p = false /\ pushing p = false.

Definition phase_ok (fresh : bool) (p : Playout) : Prop :=
  match control p with
  | Idle => fresh = true -> quiet p /\ running p = false
  | Clearing | Accepting => fresh = false /\ quiet p /\ running p = false
  | StartingDevice | Refusing => fresh = false /\ running p = false
  | Waiting => accepting p = false
  | StoppingDevice => quiet p
  | StopClearing | StopSilencing => quiet p /\ running p = false
  end.

Definition even_length (l : list Z) : Prop := Nat.Even (length l).

(** What holds of the queue while nothing raced. *)
Record queue_ok (p : Playout) : Prop := {
  ok_history : written p = played p ++ queue p;
  ok_even : even_length (queue p) /\ even_length (played p);
  ok_capacity : Z.of_nat (length (queue p)) <= capacity;
  ok_pushing samples : producer p = Some (Pushing samples) ->
    even_length samples /\ Z.of_nat (length (queue p)) + Z.of_nat (length samples) <= capacity;
}.

Record playout_ok (p : Playout) : Prop := {
  ok_active : active_pushes p = match producer p with None => 0 | Some _ => 1 end;
  ok_queue : raced p = false -> queue_ok p;
}.

Lemma even_app l l' : even_length l -> even_length l' -> even_length (l ++ l').
Proof. intros [m Hm] [n Hn]. exists (m + n)%nat. rewrite length_app. lia. Qed.

Lemma even_take (n : nat) l : even_length l -> even_length (take (n * Z.to_nat kChannels) l).
Proof.
  intros [m Hm]. exists (Nat.min n m). rewrite length_take, Hm. change (Z.to_nat kChannels) with 2%nat. lia.
Qed.

Lemma even_drop (n : nat) l : even_length l -> even_length (drop (n * Z.to_nat kChannels) l).
Proof.
  intros [m Hm]. exists (m - n)%nat. rewrite length_drop, Hm. change (Z.to_nat kChannels) with 2%nat. lia.
Qed.

Lemma even_mod (l : list Z) : Z.of_nat (length l) mod kChannels = 0 -> even_length l.
Proof. intros Hm. exists (Z.to_nat (Z.of_nat (length l) / 2)). unfold kChannels in Hm. pose proof (Z.div_mod (Z.of_nat (length l)) 2). lia. Qed.

Lemma push_next_ok age p : playout_ok p -> playout_ok (push_next age p).
Proof.
  intros [Ha Hq]. unfold push_next. destruct (producer p) as [[samples | samples |] |] eqn:Hp; [| | | by split; rewrite ?Hp].
  - unfold push_check, write_available. destruct (_ || _) eqn:Hr; split; cbn; try done.
    + rewrite orb_false_r. intros Hn. destruct (Hq Hn) as [Hh He Hc _]. by split.
    + intros [Hn _]%orb_false_elim. destruct (Hq Hn) as [Hh He Hc _]. split; cbn; try done. intros samples' [= <-].
      apply orb_false_elim in Hr as [Hr Hsz%Z.ltb_ge]. apply orb_false_elim in Hr as [_ Hm%negb_false_iff%Z.eqb_eq].
      split; [by apply even_mod | lia].
  - split; cbn; [done |]. intros Hn. destruct (Hq Hn) as [Hh [He He'] Hc Hpu]. destruct (Hpu samples Hp) as [Hse Hle]. split; cbn; try done.
    + rewrite Hh. by rewrite <- app_assoc.
    + split; [by apply even_app | done].
    + rewrite length_app. lia.
  - split; cbn; [by rewrite Ha |]. intros Hn. destruct (Hq Hn) as [Hh He Hc _]. by split.
Qed.

(** What leaves the queue and the producer alone. *)
Lemma player_same_ok p p' :
  playout_ok p -> active_pushes p' = active_pushes p -> producer p' = producer p -> queue p' = queue p ->
  written p' = written p -> played p' = played p -> raced p' = raced p -> playout_ok p'.
Proof.
  intros [Ha Hq] E1 E2 E3 E4 E5 E6. split; [by rewrite E1, E2 |]. rewrite E6. intros Hn. destruct (Hq Hn) as [Hh He Hc Hp].
  split; by rewrite ?E2, ?E3, ?E4, ?E5.
Qed.

Lemma clear_ok c p : playout_ok p -> playout_ok (with_control c (clear_queue p)).
Proof.
  intros [Ha Hq]. split; cbn; [done |]. intros [[_ Hp]%orb_false_elim _]%orb_false_elim. split; cbn; try done.
  - by split; exists 0%nat.
  - intros samples Hs. unfold pushing in Hp. by rewrite Hs in Hp.
Qed.

Lemma advance_ok ok age p : playout_ok p -> playout_ok (advance ok age p).
Proof.
  intros Hok. unfold advance. destruct (control p); try (by apply clear_ok); try (by apply (player_same_ok p)).
  - by destruct ok; apply (player_same_ok p).
  - by destruct (_ =? 0); apply (player_same_ok p).
Qed.

Lemma act_ok p a : playout_ok p -> playout_ok (act p a).
Proof.
  intros Hok. destruct a as [| | ok age | samples | age | n | x | b]; cbn [act].
  - unfold start. by destruct (control p), (running p); try apply (player_same_ok p).
  - by destruct (control p); try apply (player_same_ok p).
  - by apply advance_ok.
  - unfold push. destruct (producer p) eqn:Hp; [done |]. destruct Hok as [Ha Hq].
    split; cbn; [by rewrite Ha, Hp |]. intros Hn. destruct (Hq Hn) as [Hh He Hc _]. by split.
  - by apply push_next_ok.
  - unfold data_callback. destruct (device_up p); [| done]. destruct Hok as [Ha Hq].
    split; cbn; [done |]. intros Hn. destruct (Hq Hn) as [Hh [He He'] Hc Hp]. split; cbn; try done.
    + by rewrite <- app_assoc, take_drop.
    + split; [by apply even_drop | by apply even_app; [| apply even_take]].
    + rewrite length_drop. lia.
    + intros samples Hs. destruct (Hp samples Hs) as [? Hle]. split; [done |]. rewrite length_drop. lia.
  - by apply (player_same_ok p).
  - by apply (player_same_ok p).
Qed.

Lemma run_ok acts : playout_ok (run acts).
Proof.
  induction acts as [| a acts IH] using rev_ind.
  - split; [done |]. intros _. by split; try done; split; exists 0%nat.
  - unfold run in *. rewrite foldl_app. by apply act_ok.
Qed.

(** *** Runs without stale loads *)

Lemma observe_fresh {A} (x : A) older lag : observe x older lag 0 = x.
Proof. by destruct lag. Qed.

(** A push that is under way finds the door closed. *)
Lemma quiet_push p : quiet p -> quiet (push_next 0 p).
Proof.
  intros [Ha Hp]. unfold push_next, quiet, pushing in *. destruct (producer p) as [[samples | samples |] |] eqn:Hq; try done.
  - unfold push_check. by rewrite observe_fresh, Ha.
  - by rewrite Hq.
Qed.

Lemma push_next_same age p : control (push_next age p) = control p /\ running (push_next age p) = running p /\ accepting (push_next age p) = accepting p.
Proof. unfold push_next, push_check. destruct (producer p) as [[] |]; try destruct (_ || _); done. Qed.

Lemma push_next_raced p : raced (push_next 0 p) = raced p.
Proof.
  unfold push_next, push_check. destruct (producer p) as [[] |]; try done. destruct (_ || _); cbn; by rewrite orb_false_r.
Qed.

Lemma phase_act fresh fresh' p a :
  playout_ok p -> phase_ok fresh p -> client_run [a] fresh p = true -> fresh_loads [a] = true ->
  fresh' = match a with Start => false | Stop => true | _ => fresh end ->
  phase_ok fresh' (act p a) /\ (raced p = false -> raced (act p a) = false).
Proof.
  intros Hok Hph Hrun Hfresh ->. destruct a as [| | ok age | samples | age | n | x | b]; cbn [act client_run fresh_loads forallb] in *.
  - unfold idle in Hrun. unfold phase_ok, start in *. destruct (control p); try done. destruct fresh; [| done].
    destruct Hph as [Hq Hr]; [done |]. by rewrite Hr.
  - unfold idle in Hrun. by destruct (control p).
  - apply andb_prop in Hfresh as [->%Nat.eqb_eq _].
    unfold phase_ok, advance, quiet, clear_queue, device_up in *. destruct (control p) eqn:Hc; cbn; rewrite ?Hc; try tauto.
    + destruct Hph as (-> & [Ha Hp] & Hr). split; [by split_and! |]. by rewrite Hp, Hr, !orb_false_r.
    + destruct Hph as [-> ?]. by destruct ok.
    + destruct Hph as [-> ?]. split; [done |]. done.
    + destruct (active_pushes p =? 0) eqn:Ha; cbn; rewrite ?Hc; [| done]. split; [| done]. split; [done |]. apply Z.eqb_eq in Ha.
      pose proof (ok_active p Hok) as Hact. unfold pushing. cbn. destruct (producer p) as [[] |]; try done; lia.
    + destruct Hph as ([Ha Hp] & Hr). split; [by split_and! |]. by rewrite Hp, Hr, !orb_false_r.
  - unfold push. destruct (producer p) eqn:Hp; [done |]. split; [| done]. unfold phase_ok, quiet, pushing in *. cbn. destruct (control p); naive_solver.
  - apply andb_prop in Hfresh as [->%Nat.eqb_eq _]. destruct (push_next_same 0 p) as (Hc & Hr & Ha). pose proof (quiet_push p) as Hq.
    split; [| by rewrite push_next_raced]. unfold phase_ok in *. rewrite Hc, Hr, ?Ha. destruct (control p); intuition.
  - unfold data_callback. by destruct (device_up p).
  - done.
  - done.
Qed.

Lemma client_run_phase acts fresh p :
  playout_ok p -> phase_ok fresh p -> raced p = false -> client_run acts fresh p = true -> fresh_loads acts = true ->
  raced (foldl act p acts) = false /\ exists fresh', phase_ok fresh' (foldl act p acts).
Proof.
  revert fresh p. induction acts as [| a acts IH]; intros fresh p Hok Hph Hr Hrun Hf; [split; [done | by exists fresh] |]. cbn [foldl].
  assert (Hone : client_run [a] fresh p = true /\ client_run acts match a with Start => false | Stop => true | _ => fresh end (act p a) = true).
  { destruct a; cbn [client_run] in *; rewrite ?andb_true_r; try done; by destruct (idle p), fresh. }
  assert (Hf' : fresh_loads [a] = true /\ fresh_loads acts = true).
  { unfold fresh_loads in *. cbn [forallb] in *. rewrite andb_true_r. by apply andb_prop. }
  destruct Hone as [Ha Hrest], Hf' as [Hfa Hfr]. destruct (phase_act _ _ p a Hok Hph Ha Hfa eq_refl) as [Hph' Hr'].
  eapply IH; [by apply act_ok | exact Hph' | by apply Hr' | done | done].
Qed.

(** The first steps after a stop was called: the push under way leaves, then
    nothing holds the control thread back. *)
Definition stop_steps (oks : bool) : list Act :=
  [PushNext 0; PushNext 0; Advance oks 0; Advance oks 0; Advance oks 0; Advance oks 0].

Lemma stop_returns p oks :
  playout_ok p -> control p = Waiting -> accepting p = false ->
  let p' := foldl act p (stop_steps oks) in
  control p' = Idle /\ producer p' = None /\ running p' = false /\ queue p' = [] /\ output_level p' = S754_zero false.
Proof.
  intros Hok Hc Hacc. cbv zeta.
  assert (Hleft : forall q, producer q = None -> active_pushes q = 0 -> control q = Waiting ->
    let q' := foldl act q (replicate 4 (Advance oks 0)) in
    control q' = Idle /\ producer q' = None /\ running q' = false /\ queue q' = [] /\ output_level q' = S754_zero false).
  { intros q Hq Ha Hcq. cbn [replicate foldl act].
    assert (H1 : advance oks 0 q = with_control StoppingDevice (with_pushes_lag 0 q)) by (unfold advance; by rewrite Hcq, observe_fresh, Ha).
    by rewrite H1. }
  cbn [stop_steps foldl]. apply (Hleft (act (act p (PushNext 0)) (PushNext 0))); cbn [act].
  all: pose proof (ok_active p Hok) as Ha; unfold push_next at 2; destruct (producer p) as [[samples | samples |] |] eqn:Hp.
  all: unfold push_check; rewrite ?observe_fresh, ?Hacc; cbn; unfold push_next; cbn; rewrite ?Hp, ?Ha; done.
Qed.

(** C33 However pushes, the device's callback and the control thread interleave, and
    whatever older values their loads return, as long as nothing raced: the samples that
    were played, and then those in the queue, are the samples that were queued, in
    order; whole frames are queued and played, never more than fit.  And when the client
    stops the playout before it starts it again, and no load of the handshake is stale
    (the code does not ask for that; [stale_load_races] shows what C++ lets happen
    otherwise), nothing races: the queue is only cleared while neither a push nor the
    device can touch it; and a stop returns, with the device stopped and the queue
    empty, as soon as the push under way has left. *)
Theorem playout_sound acts :
  let p := run acts in
  (raced p = false ->
     written p = played p ++ queue p /\ even_length (queue p) /\ even_length (played p) /\ Z.of_nat (length (queue p)) <= capacity)
  /\ (client_run acts true new_playout = true -> fresh_loads acts = true ->
      raced p = false
      /\ (control p = Clearing \/ control p = StopClearing -> device_up p = false /\ pushing p = false)
      /\ (control p = Waiting -> forall oks, let p' := foldl act p (stop_steps oks) in
            control p' = Idle /\ producer p' = None /\ running p' = false /\ queue p' = [] /\ output_level p' = S754_zero false)).
Proof.
  intros p. pose proof (run_ok acts) as Hok. fold p in Hok. split.
  { intros Hr. destruct (ok_queue p Hok Hr) as [? [? ?] ? _]. by split_and!. }
  intros Hrun Hf.
  destruct (client_run_phase acts true new_playout) as [Hr [fresh Hph]]; [by apply (run_ok []) | by intros _ | done | done | done |].
  fold (run acts) in Hr, Hph. fold p in Hr, Hph. split; [done |]. unfold phase_ok in Hph. split.
  - unfold device_up. by intros [Hc | Hc]; rewrite Hc in *; unfold quiet in Hph; destruct_and?; rewrite orb_false_r.
  - intros Hc oks. rewrite Hc in Hph. by apply stop_returns.
Qed.

(** ** What is rendered *)

Definition s16_samples (l : list Z) : Prop := Forall (fun s => - 2 ^ 15 <= s < 2 ^ 15) l.

Lemma clamp16_range z : - 2 ^ 15 <= clamp16 z < 2 ^ 15.
Proof. unfold clamp16. destruct (Z.ltb_spec z (- 2 ^ 15)); [lia |]. destruct (Z.ltb_spec (2 ^ 15 - 1) z); lia. Qed.

Lemma clamp16_id z : - 2 ^ 15 <= z < 2 ^ 15 -> clamp16 (s32 z) = z.
Proof.
  intros Hz. assert (Hs : s32 z = z).
  { unfold s32, u32, wrap. destruct (Z.lt_ge_cases z 0).
    - replace (z mod 2 ^ 32) with (z + 2 ^ 32) by (apply (Z.mod_unique _ _ (-1)); lia).
      cbv zeta. rewrite (proj2 (Z.ltb_ge _ _)) by lia. lia.
    - rewrite Z.mod_small by lia. cbv zeta. by rewrite (proj2 (Z.ltb_lt _ _)) by lia. }
  rewrite Hs. unfold clamp16. rewrite (proj2 (Z.ltb_ge _ _)), (proj2 (Z.ltb_ge _ _)) by lia. done.
Qed.

(** What the device gets is as long as it asked for, and made of 16-bit samples. *)
Lemma render_length samples p output :
  render_output samples p = Some output -> length output = samples /\ s16_samples output.
Proof.
  unfold render_output. intros (scaled & Hs & [= <-])%bind_Some. apply mapM_Some in Hs. split.
  - rewrite length_app, length_replicate, <- (Forall2_length _ _ _ Hs), length_take. lia.
  - apply Forall_app. split; [| by apply Forall_replicate].
    induction Hs as [| x y l l' Hxy _ IH]; constructor; [| done].
    unfold scale in Hxy. destruct (lround _); [| done]. injection Hxy as <-. apply clamp16_range.
Qed.

(** At full volume the queued samples, bit for bit. *)
Lemma render_exact samples p :
  muted p = false -> volume p = Binary32.of_Z 1 -> s16_samples (queue p) ->
  render_output samples p = Some (take samples (queue p) ++ replicate (samples - length (queue p)) 0).
Proof.
  intros Hm Hv Hq. unfold render_output, gain. rewrite Hm, Hv.
  assert (Hs : mapM (scale (Binary32.of_Z 1)) (take samples (queue p)) = Some (take samples (queue p))).
  { apply mapM_Some. pose proof (Forall_take _ samples _ Hq) as Ht. clear Hq. induction Ht as [| s l Hs _ IH]; constructor; [| done].
    unfold scale. rewrite unit_gain by done. cbn. by rewrite clamp16_id. }
  rewrite Hs. cbn. rewrite length_take. do 3 f_equal. lia.
Qed.

(** Silence when muted. *)
Lemma render_muted samples p output :
  muted p = true -> render_output samples p = Some output -> output = replicate samples 0.
Proof.
  intros Hm Hr. pose proof (render_length samples p output Hr) as [Hl _]. unfold render_output, gain in Hr. rewrite Hm in Hr.
  apply bind_Some in Hr as (scaled & Hs & [= <-]). apply mapM_Some in Hs.
  assert (Hz : scaled = replicate (length scaled) 0).
  { clear Hl. induction Hs as [| x y l l' Hxy _ IH]; [done |]. cbn. f_equal; [| done].
    unfold scale in Hxy. destruct (lround _) as [z |] eqn:Hz; [| done]. injection Hxy as <-.
    by apply lround_mul_zero in Hz as ->. }
  rewrite Hz, <- replicate_add in Hl |- *. rewrite length_replicate in Hl. by rewrite Hl.
Qed.

(** ** Samples *)

Definition up : list Act := [Start; Advance true 0; Advance true 0; Advance true 0].

Definition pushed (samples : list Z) : list Act := [Push samples; PushNext 0; PushNext 0; PushNext 0].

Definition sample_run : list Act :=
  up ++ pushed [7; -7] ++ pushed [1; 2; 3; 4] ++ [DataCallback 1; Push [5; 6]; PushNext 0; Stop].

Lemma playout_sound_witness :
  client_run sample_run true new_playout = true /\ played (run sample_run) = [7; -7] /\ queue (run sample_run) = [1; 2; 3; 4]
  /\ queue (foldl act (run sample_run) (stop_steps true)) = [].
Proof.
  destruct (playout_sound sample_run) as [_ Hrun]. split; [reflexivity |]. split; [reflexivity |]. split; [reflexivity |].
  destruct Hrun as (_ & _ & Hstop); [reflexivity | reflexivity |]. destruct (Hstop eq_refl true) as (_ & _ & _ & Hq & _). exact Hq.
Defined.

(** A second start after one that failed, without a stop, would clear the queue
    under a push. *)
Lemma restart_races :
  let p := run [Start; Advance true 0; Advance true 0; Push [1; 2]; PushNext 0; Advance false 0; Advance true 0; Start; Advance true 0] in
  raced p = true /\ pushing p = true.
Proof. by split. Qed.

(** The stop's load of [active_pushes_] may return the value from before the push that
    has just entered, although the push has seen the door open: C++ does not order the
    store of [accepting_] before the load, nor the push's addition before its load.  The
    client keeps to the order of its calls, and the queue is cleared under the push. *)
Lemma stale_load_races :
  let acts := up ++ [Push [1; 2]; PushNext 0; Stop; Advance true 1; Advance true 0; Advance true 0] in
  client_run acts true new_playout = true /\ raced (run acts) = true /\ pushing (run acts) = true.
Proof. by split. Qed.
