(* ===== verification/Capture.v ===== *)
(** * What the user may share (core/src/webrtc/google_webrtc_client.cpp)

    The list of screens and windows the client offers as JSON, and the selection
    it reads back when sharing starts or a thumbnail is asked for.  Titles that
    are not UTF-8 are repaired by nlohmann's printer, which is a parameter with
    the parser. *)

From S2P Require Import Prelude Text Signaling Floats.

Local Open Scope list_scope.

(** [std::stoll(text, &consumed)]: white space, a sign and digits, in the range of
    64 bits; [None] is a thrown exception. *)
Definition stoll (t : text) : option (Z * nat) :=
  let body := drop_while isspace t in
  let skipped := length t - length body in
  let '(negative, sign, digits) :=
    match body with
    | "-"%char :: rest => (true, 1, rest)
    | "+"%char :: rest => (false, 1, rest)
    | _ => (false, 0, body)
    end in
  let number := take_while isdigit digits in
  if decide (number = []) then None
  else
    let v := if negative : bool then (- digits_value 0 number)%Z else digits_value 0 number in
    if decide (- 2 ^ 63 <= v < 2 ^ 63)%Z then Some (v, skipped + sign + length number) else None.

(** [std::to_string] of a signed integer. *)
Definition to_string_signed (z : Z) : text := if (z <? 0)%Z then "-"%char :: to_string (- z) else to_string z.

Inductive DesktopCaptureKind := CaptureScreen | CaptureWindow.

Record DesktopCaptureSource := mkSource { source_id : Z; source_title : string }.

Record CaptureSelection := mkSelection { selection_kind : DesktopCaptureKind; selection_id : Z }.

Record SharingRequest := mkRequest {
  selection : CaptureSelection;
  max_width : Z;
  max_height : Z;
  fps : Z;
  share_audio : bool;
  audio_target : string;
}.

#[export] Instance DesktopCaptureKind_eq_dec : EqDecision DesktopCaptureKind.
Proof. solve_decision. Defined.
#[export] Instance CaptureSelection_eq_dec : EqDecision CaptureSelection.
Proof. solve_decision. Defined.

Definition capture_kind (type : Z) : DesktopCaptureKind := if (type =? 0)%Z then CaptureScreen else CaptureWindow.

(** [json::value("type", 0)]: any number, or a truth value, made an [int]; [None]
    is a thrown exception.  A floating-point number outside the range of [int],
    whose conversion is undefined, is no selection here. *)
Definition type_value (fields : list (string * json)) : option Z :=
  match jfind "type" fields with
  | None => Some 0%Z
  | Some (JInteger z) => Some (s32 z)
  | Some (JBool b) => Some (if b then 1 else 0)%Z
  | Some (JFloat (S754_zero _)) => Some 0%Z
  | Some (JFloat (S754_finite s m e)) =>
    let a := if (0 <=? e)%Z then (Zpos m * 2 ^ e)%Z else (Zpos m / 2 ^ (- e))%Z in
    let z := if s then (- a)%Z else a in
    if decide (- 2 ^ 31 <= z < 2 ^ 31)%Z then Some z else None
  | Some _ => None
  end.

Section Json.
Variable json_parse : string -> option json.

Definition parse_capture_selection (target_json : string) : option CaptureSelection :=
  value ← json_parse target_json;
  match value with
  | JObject fields =>
    match jfind "id" fields with
    | Some (JString id_text) =>
      '(id, consumed) ← stoll (chars id_text);
      if decide (consumed = length (chars id_text)) then
        type ← type_value fields;
        Some (mkSelection (capture_kind type) id)
      else None
    | _ => None
    end
  | _ => None
  end.

(** An entry of the list, as [json] orders its keys. *)
Definition target (kind : DesktopCaptureKind) (source : DesktopCaptureSource) : json :=
  JObject (jobject
    [("type", JInteger (match kind with CaptureScreen => 0 | CaptureWindow => 1 end));
     ("id", JString (of_chars (to_string_signed (source_id source))));
     ("name", JString (source_title source));
     ("width", JInteger 0); ("height", JInteger 0); ("x", JInteger 0); ("y", JInteger 0)]%string).

(** [list_desktop_sources] is the platform's. *)
Definition video_targets_json (sources : DesktopCaptureKind -> list DesktopCaptureSource) : json :=
  JArray ((target CaptureScreen <$> sources CaptureScreen) ++ (target CaptureWindow <$> sources CaptureWindow)).

(** ** A source that is listed can be selected *)

Lemma stoll_to_string z : (- 2 ^ 63 <= z < 2 ^ 63)%Z ->
  stoll (to_string_signed z) = Some (z, length (to_string_signed z)).
Proof.
  intros Hz. unfold to_string_signed. destruct (Z.ltb_spec z 0) as [Hneg | Hpos].
  - destruct (to_string_spec (- z)) as (Hne & Hall & Hv & _); [lia |]. unfold stoll.
    cbn [drop_while isspace in_range]. change (isspace "-") with false. cbn iota.
    rewrite take_while_all by done. rewrite decide_False by done. rewrite Hv, Z.opp_involutive, decide_True by lia.
    rewrite Nat.sub_diag. done.
  - destruct (to_string_spec z) as (Hne & Hall & Hv & _); [lia |]. unfold stoll.
    assert (Hbody : drop_while isspace (to_string z) = to_string z).
    { destruct (to_string z) as [| c t]; [done |]. apply Forall_cons in Hall as [Hc _]. cbn [drop_while].
      by rewrite isdigit_not_space. }
    rewrite Hbody, Nat.sub_diag.
    assert (Hsign : match to_string z with
                    | "-"%char :: rest => (true, 1, rest) | "+"%char :: rest => (false, 1, rest)
                    | _ => (false, 0, to_string z) end = (false, 0, to_string z)).
    { destruct (to_string z) as [| c t]; [done |]. apply Forall_cons in Hall as [Hc _].
      destruct c as [[] [] [] [] [] [] [] []]; done. }
    rewrite Hsign, take_while_all by done. rewrite decide_False by done. cbn iota. rewrite Hv, decide_True by lia. done.
Qed.

(** The client reads the selection of any entry of its list back. *)
Theorem targets_selectable sources entry kind source text :
  (forall kind source, source ∈ sources kind -> (- 2 ^ 63 <= source_id source < 2 ^ 63)%Z) ->
  source ∈ sources kind -> entry = target kind source -> json_parse text = Some entry ->
  (exists entries, video_targets_json sources = JArray entries /\ entry ∈ entries)
  /\ parse_capture_selection text = Some (mkSelection kind (source_id source)).
Proof.
  intros Hrange Hin -> Hparse. split.
  - eexists. split; [done |]. rewrite elem_of_app. destruct kind; [left | right]; by apply list_elem_of_fmap_2.
  - unfold parse_capture_selection. rewrite Hparse. cbn [mbind option_bind target].
    change (jfind "id" _) with (Some (JString (of_chars (to_string_signed (source_id source))))).
    cbn iota. rewrite chars_of_chars, stoll_to_string by by eapply Hrange. cbn [mbind option_bind].
    rewrite decide_True by done. by destruct kind.
Qed.
End Json.
