(* ===== verification/ClientScreen.v ===== *)
(** * The client's control of its screen session (core/src/webrtc/google_webrtc_client.cpp)

    The members of [GoogleWebRtcClient::Impl] that belong to screens: watching,
    sharing, the playout, statistics.  As in ClientVoice a thread is the list of
    what it has still to do, and [act] lets one begin or run to its next critical
    section.  [screen_lifecycle_mutex] and [sharing_mutex] are members of the world;
    [stop_screen_session] takes both in one step, which loses no behaviour: what
    other threads do between its two acquisitions touches neither the first lock
    nor anything the thread has read.  Sessions and captures of system audio are
    numbered as they are made.  [on_air] is the client's account of what is captured: a
    desktop capture that ends by itself (the library's capturer fails for good, see
    [thread_step] of DesktopSource) stays in it, as the client is not told. *)

From S2P Require Import Prelude Floats Signaling Capture ScreenStats Lifecycle.

Local Open Scope nat_scope.
Local Open Scope list_scope.

Definition clamp_volume (volume : spec_float) : spec_float :=
  Binary32.clamp volume (S754_zero false) (Binary32.of_Z 2).

Record ScreenAudioUpdate := mkUpdate {
  update_session : nat;
  update_mid : string;
  update_enabled : bool;
  update_volume : option spec_float;
}.

(** The members that belong to screens. *)
Record Screen := mkScreen {
  screen_session : option nat;
  screen_session_token : option nat;
  system_audio_capture : option nat;
  screen_bindings : gmap string string;
  screen_video_mids : gset string;
  screen_audio_mids : gset string;
  watched_peers : gset string;
  screen_peer_volumes : gmap string spec_float;
  screen_requested : bool;
  sharing_active : bool;
  sharing_request : option SharingRequest;
  local_preview_enabled : bool;
  local_preview_peer_id : string;
  screen_stats : Tracker;
}.

(** What may send the user's screen or sound: the desktop capture of a session,
    its video track, its system-audio track, and a capture of system audio. *)
Inductive Source := Desktop (id : nat) | VideoTrack (id : nat) | SystemTrack (id : nat) | SoundCapture (c : nat).

#[export] Instance Source_eq_dec : EqDecision Source.
Proof. solve_decision. Defined.
#[export] Instance Source_countable : Countable Source.
Proof.
  refine (inj_countable'
    (fun s => match s with Desktop n => (0, n) | VideoTrack n => (1, n) | SystemTrack n => (2, n) | SoundCapture n => (3, n) end)
    (fun p => match p with (0, n) => Desktop n | (1, n) => VideoTrack n | (2, n) => SystemTrack n | (_, n) => SoundCapture n end) _).
  by intros [].
Defined.

(** What the sessions were asked for. *)
Record Sessions := mkSessions {
  next_session : nat;
  closed : gset nat;
  next_capture : nat;
  on_air : gset Source;
  preview : gmap nat bool;
  audio_enabled : gmap (nat * string) bool;
  audio_volume : gmap (nat * string) spec_float;
  recovery_scheduled : gset nat;
  stats_requests : list (nat * Z);
}.

Record Recovery := mkRecovery { recovery_queue : list nat; recovery_worker : bool; recovery_busy : bool; recovery_stopping : bool }.

(** What the transport is given, what the application is told, and what comes from
    the transport: a rejection, the loss and the return of signaling. *)
Inductive Event :=
  | SendStreamingStart
  | SendStreamingStop
  | SendWatchStart (peer : string)
  | SendWatchStop (peer : string)
  | OnFrame (peer : string)
  | OnFrameRemoved (peer : string)
  | Rejected (peer : string)
  | Signaling (is_connected : bool).

Inductive Instr :=
  | StartScreen
  | StartPlayout
  | StartSession (id : nat) (local_preview : bool)
  | Publish (id : nat)
  | ApplyAudio (u : ScreenAudioUpdate)
  | Tell (e : Event)
  | CloseSession (id : nat)
  | StopPlayout
  | Unlock
  | StopScreen
  | SwitchOff (s : Source)
  | EndSession (id : nat)
  | Share (r : SharingRequest) (resuming : bool)
  | StartCapture (id : nat) (r : SharingRequest) (resuming : bool)
  | StartSound (id : nat) (r : SharingRequest) (resuming : bool)
  | EnableSound (id : nat) (capture : option nat) (r : SharingRequest) (resuming : bool)
  | PublishShare (id : nat) (capture : option nat) (r : SharingRequest) (resuming : bool)
  | UnlockSharing
  | RememberRequest (r : SharingRequest)
  | ForgetRequest
  | StopSharing
  | StopWatching (peer : string)
  | ChangePreview (enabled : bool)
  | SetPreview (id : nat) (enabled : bool)
  | Recover (token : nat)
  | RecoveryDone
  | RequestStats (id : nat) (generation : Z)
  | StatsFailed (generation : Z).

Record World := mkWorld {
  screen : Screen;
  sessions : Sessions;
  recovery : Recovery;
  connected : bool;
  lifecycle_held : bool;
  sharing_held : bool;
  playout_running : bool;
  threads : list (list Instr);
  events : list Event;
}.

Definition new_screen : Screen :=
  mkScreen None None None ∅ ∅ ∅ ∅ ∅ false false None false "" new_tracker.

Definition new_world : World :=
  mkWorld new_screen (mkSessions 0 ∅ 0 ∅ ∅ ∅ ∅ ∅ []) (mkRecovery [] false false false) false false false false [] [].

Definition with_screen (v : Screen) (w : World) : World :=
  mkWorld v (sessions w) (recovery w) (connected w) (lifecycle_held w) (sharing_held w) (playout_running w) (threads w) (events w).
Definition with_sessions (s : Sessions) (w : World) : World :=
  mkWorld (screen w) s (recovery w) (connected w) (lifecycle_held w) (sharing_held w) (playout_running w) (threads w) (events w).
Definition with_recovery (r : Recovery) (w : World) : World :=
  mkWorld (screen w) (sessions w) r (connected w) (lifecycle_held w) (sharing_held w) (playout_running w) (threads w) (events w).
Definition with_connected (c : bool) (w : World) : World :=
  mkWorld (screen w) (sessions w) (recovery w) c (lifecycle_held w) (sharing_held w) (playout_running w) (threads w) (events w).
Definition with_locks (lifecycle sharing : bool) (w : World) : World :=
  mkWorld (screen w) (sessions w) (recovery w) (connected w) lifecycle sharing (playout_running w) (threads w) (events w).
Definition with_playout (b : bool) (w : World) : World :=
  mkWorld (screen w) (sessions w) (recovery w) (connected w) (lifecycle_held w) (sharing_held w) b (threads w) (events w).
Definition tell (e : Event) (w : World) : World :=
  mkWorld (screen w) (sessions w) (recovery w) (connected w) (lifecycle_held w) (sharing_held w) (playout_running w) (threads w) (events w ++ [e]).
Definition with_threads (ts : list (list Instr)) (w : World) : World :=
  mkWorld (screen w) (sessions w) (recovery w) (connected w) (lifecycle_held w) (sharing_held w) (playout_running w) ts (events w).

(** A thread is in the world's list while it has something to do. *)
Definition spawn (todo : list Instr) (w : World) : World :=
  with_threads (match todo with [] => threads w | _ => todo :: threads w end) w.

Definition with_session (s token : option nat) (v : Screen) : Screen :=
  mkScreen s token (system_audio_capture v) (screen_bindings v) (screen_video_mids v) (screen_audio_mids v) (watched_peers v)
    (screen_peer_volumes v) (screen_requested v) (sharing_active v) (sharing_request v) (local_preview_enabled v)
    (local_preview_peer_id v) (screen_stats v).
Definition with_sharing (capture : option nat) (active : bool) (request : option SharingRequest) (peer : string) (v : Screen) : Screen :=
  mkScreen (screen_session v) (screen_session_token v) capture (screen_bindings v) (screen_video_mids v) (screen_audio_mids v)
    (watched_peers v) (screen_peer_volumes v) (screen_requested v) active request (local_preview_enabled v) peer (screen_stats v).
Definition with_request (request : option SharingRequest) (v : Screen) : Screen :=
  with_sharing (system_audio_capture v) (sharing_active v) request (local_preview_peer_id v) v.
Definition with_tracks (bindings : gmap string string) (video audio : gset string) (v : Screen) : Screen :=
  mkScreen (screen_session v) (screen_session_token v) (system_audio_capture v) bindings video audio
    (watched_peers v) (screen_peer_volumes v) (screen_requested v) (sharing_active v) (sharing_request v) (local_preview_enabled v)
    (local_preview_peer_id v) (screen_stats v).
Definition with_watched (watched : gset string) (stats : Tracker) (v : Screen) : Screen :=
  mkScreen (screen_session v) (screen_session_token v) (system_audio_capture v) (screen_bindings v) (screen_video_mids v)
    (screen_audio_mids v) watched (screen_peer_volumes v) (screen_requested v) (sharing_active v) (sharing_request v)
    (local_preview_enabled v) (local_preview_peer_id v) stats.
Definition with_volumes (volumes : gmap string spec_float) (v : Screen) : Screen :=
  mkScreen (screen_session v) (screen_session_token v) (system_audio_capture v) (screen_bindings v) (screen_video_mids v)
    (screen_audio_mids v) (watched_peers v) volumes (screen_requested v) (sharing_active v) (sharing_request v)
    (local_preview_enabled v) (local_preview_peer_id v) (screen_stats v).
Definition with_flags (requested preview_enabled : bool) (v : Screen) : Screen :=
  mkScreen (screen_session v) (screen_session_token v) (system_audio_capture v) (screen_bindings v) (screen_video_mids v)
    (screen_audio_mids v) (watched_peers v) (screen_peer_volumes v) requested (sharing_active v) (sharing_request v)
    preview_enabled (local_preview_peer_id v) (screen_stats v).

Definition with_made (next : nat) (s : Sessions) : Sessions :=
  mkSessions next (closed s) (next_capture s) (on_air s) (preview s) (audio_enabled s) (audio_volume s) (recovery_scheduled s) (stats_requests s).
Definition with_on_air (captures : nat) (air : gset Source) (s : Sessions) : Sessions :=
  mkSessions (next_session s) (closed s) captures air (preview s) (audio_enabled s) (audio_volume s) (recovery_scheduled s) (stats_requests s).
Definition with_preview (p : gmap nat bool) (s : Sessions) : Sessions :=
  mkSessions (next_session s) (closed s) (next_capture s) (on_air s) p (audio_enabled s) (audio_volume s) (recovery_scheduled s) (stats_requests s).
Definition with_scheduled (r : gset nat) (s : Sessions) : Sessions :=
  mkSessions (next_session s) (closed s) (next_capture s) (on_air s) (preview s) (audio_enabled s) (audio_volume s) r (stats_requests s).
Definition with_requests (r : list (nat * Z)) (s : Sessions) : Sessions :=
  mkSessions (next_session s) (closed s) (next_capture s) (on_air s) (preview s) (audio_enabled s) (audio_volume s) (recovery_scheduled s) r.

(** A session that closes stops its capture and lets its tracks go. *)
Definition close_session (id : nat) (s : Sessions) : Sessions :=
  mkSessions (next_session s) ({[id]} ∪ closed s) (next_capture s) (on_air s ∖ {[Desktop id; VideoTrack id; SystemTrack id]})
    (preview s) (audio_enabled s) (audio_volume s) (recovery_scheduled s) (stats_requests s).

Definition switch_off (x : Source) (s : Sessions) : Sessions := with_on_air (next_capture s) (on_air s ∖ {[x]}) s.
Definition switch_on (x : Source) (s : Sessions) : Sessions := with_on_air (next_capture s) ({[x]} ∪ on_air s) s.

(** ** Audio updates *)

Definition screen_update_locked (mid : string) (v : Screen) : option ScreenAudioUpdate :=
  match screen_session v with
  | None => None
  | Some id =>
    if bool_decide (mid ∈ screen_audio_mids v) then
      match screen_bindings v !! mid with
      | None => Some (mkUpdate id mid false None)
      | Some peer =>
        Some (mkUpdate id mid (bool_decide (peer ∈ watched_peers v))
                (Some (default (Binary32.of_Z 1) (screen_peer_volumes v !! peer))))
      end
    else None
  end.

Definition all_screen_updates_locked (v : Screen) : list ScreenAudioUpdate :=
  omap (fun mid => screen_update_locked mid v) (elements (screen_audio_mids v)).

Definition apply (u : ScreenAudioUpdate) (s : Sessions) : Sessions :=
  mkSessions (next_session s) (closed s) (next_capture s) (on_air s) (preview s)
    (<[(update_session u, update_mid u) := update_enabled u]> (audio_enabled s))
    (match update_volume u with
     | Some x => <[(update_session u, update_mid u) := x]> (audio_volume s)
     | None => audio_volume s
     end)
    (recovery_scheduled s) (stats_requests s).

Section Client.
(** Whether the application set the callbacks. *)
Variables on_frame on_frame_removed : bool.
(** [transport.local_id()] *)
Variable local_id : string.

Definition frame_removed (peer : string) : list Instr := if on_frame_removed then [Tell (OnFrameRemoved peer)] else [].

(** ** The session *)

Definition start_screen_if_requested (w : World) : option (World * list Instr) :=
  let v := screen w in
  let s := sessions w in
  if lifecycle_held w then None
  else if negb (screen_requested v) || bool_decide (is_Some (screen_session v)) || negb (connected w) then Some (w, [])
  else Some (with_locks true (sharing_held w) (with_sessions (with_made (next_session s + 1) s) w),
             [StartPlayout; StartSession (next_session s) (local_preview_enabled v); Unlock]).

(** A session that did not start is released. *)
Definition start_session (id : nat) (local_preview : bool) (answer : nat -> bool) (w : World) : World * list Instr :=
  let s := sessions w in
  if negb (answer 0) then (with_sessions (close_session id s) w, [StopPlayout])
  else (with_sessions (with_preview (<[id := local_preview]> (preview s)) s) w, [Publish id]).

Definition publish (id : nat) (w : World) : World * list Instr :=
  let v := screen w in
  if screen_requested v && negb (bool_decide (is_Some (screen_session v))) && connected w then
    let v := with_session (Some id) (Some id) v in
    (with_screen v w,
     (ApplyAudio <$> all_screen_updates_locked v) ++ ((fun p => Tell (SendWatchStart p)) <$> elements (watched_peers v)))
  else (w, [CloseSession id; StopPlayout]).

Definition string_le (a b : string) : Prop := String.leb a b = true.
#[global] Instance string_le_dec : RelDecision string_le := fun a b => bool_eq_dec (String.leb a b) true.

(** The peers whose frames are shown, sorted, each once. *)
Definition shown_peers (v : Screen) : list string :=
  merge_sort string_le
    (remove_dups (omap (fun b => if bool_decide (b.1 ∈ screen_video_mids v) then Some b.2 else None) (map_to_list (screen_bindings v)))).

Definition preview_removed (v : Screen) : list Instr :=
  if String.eqb (local_preview_peer_id v) "" then [] else frame_removed (local_preview_peer_id v).

(** What the old session and its capture are told after the unlock of [mutex]. *)
Definition stop_rest (v : Screen) : list Instr :=
  (match system_audio_capture v with Some c => [SwitchOff (SoundCapture c)] | None => [] end)
  ++ (match screen_session v with Some id => [SwitchOff (Desktop id); EndSession id] | None => [] end)
  ++ [StopPlayout]
  ++ (shown_peers v ≫= frame_removed)
  ++ preview_removed v.

Definition stop_screen_session (w : World) : option (World * list Instr) :=
  let v := screen w in
  if lifecycle_held w || sharing_held w then None
  else
    let v' := with_watched (watched_peers v) (reset_session (screen_stats v))
                (with_tracks ∅ ∅ ∅ (with_sharing None false (sharing_request v) "" (with_session None None v))) in
    Some (with_locks true true (with_screen v' w), stop_rest v ++ [UnlockSharing; Unlock]).

Definition recover_screen_session (token : nat) (w : World) : list Instr :=
  let v := screen w in
  if negb (screen_requested v) || negb (bool_decide (screen_session_token v = Some token)) || negb (connected w) then []
  else
    (if sharing_active v then [Tell SendStreamingStop] else [])
    ++ [StopScreen; StartScreen]
    ++ (match sharing_request v with Some r => if sharing_active v then [Share r true] else [] | None => [] end).

(** ** Sharing *)

(** What follows a sharing that failed, or succeeded. *)
Definition not_shared (resuming : bool) : list Instr := UnlockSharing :: if resuming then [ForgetRequest] else [].
Definition shared (r : SharingRequest) (resuming : bool) : list Instr :=
  Tell SendStreamingStart :: UnlockSharing :: if resuming then [] else [RememberRequest r].

Definition apply_sharing (r : SharingRequest) (resuming : bool) (w : World) : option (World * list Instr) :=
  let v := screen w in
  if sharing_held w then None
  else if sharing_active v || negb (screen_requested v) then Some (w, if resuming then [ForgetRequest] else [])
  else match screen_session v with
       | None => Some (w, if resuming then [ForgetRequest] else [])
       | Some id => Some (with_locks (lifecycle_held w) true w, [StartCapture id r resuming])
       end.

(** [start_desktop_capture]: a session that is closed has nothing to capture for. *)
Definition start_capture (id : nat) (r : SharingRequest) (resuming : bool) (answer : nat -> bool) (w : World) : World * list Instr :=
  if negb (answer 0) || bool_decide (id ∈ closed (sessions w)) then (w, not_shared resuming)
  else (with_sessions (switch_on (VideoTrack id) (switch_on (Desktop id) (sessions w))) w,
        if share_audio r then [StartSound id r resuming] else [EnableSound id None r resuming]).

Definition start_sound (id : nat) (r : SharingRequest) (resuming : bool) (answer : nat -> bool) (w : World) : World * list Instr :=
  let s := sessions w in
  if negb (answer 0) then (w, [SwitchOff (Desktop id); SwitchOff (VideoTrack id)] ++ not_shared resuming)
  else (with_sessions (with_on_air (next_capture s + 1) ({[SoundCapture (next_capture s)]} ∪ on_air s) s) w,
        [EnableSound id (Some (next_capture s)) r resuming]).

Definition enable_sound (id : nat) (capture : option nat) (r : SharingRequest) (resuming : bool) (w : World) : World * list Instr :=
  let s := sessions w in
  (with_sessions (if share_audio r
                  then (if bool_decide (id ∈ closed s) then s else switch_on (SystemTrack id) s)
                  else switch_off (SystemTrack id) s) w,
   [PublishShare id capture r resuming]).

Definition publish_share (id : nat) (capture : option nat) (r : SharingRequest) (resuming : bool) (w : World) : World * list Instr :=
  let v := screen w in
  if screen_requested v && negb (sharing_active v) && bool_decide (screen_session v = Some id) then
    (with_screen (with_sharing capture true (sharing_request v) local_id v) w, shared r resuming)
  else
    (w, (match capture with Some c => [SwitchOff (SoundCapture c)] | None => [] end)
        ++ [SwitchOff (SystemTrack id); SwitchOff (VideoTrack id); SwitchOff (Desktop id)] ++ not_shared resuming).

Definition stop_sharing_rest (v : Screen) : list Instr :=
  (match screen_session v with
   | Some id => [SwitchOff (SystemTrack id); SwitchOff (VideoTrack id); SwitchOff (Desktop id)]
   | None => []
   end)
  ++ (match system_audio_capture v with Some c => [SwitchOff (SoundCapture c)] | None => [] end)
  ++ (if sharing_active v then [Tell SendStreamingStop] else [])
  ++ preview_removed v.

Definition stop_sharing (w : World) : option (World * list Instr) :=
  let v := screen w in
  if sharing_held w then None
  else
    Some (with_locks (lifecycle_held w) true (with_screen (with_sharing None false None "" v) w),
          stop_sharing_rest v ++ [UnlockSharing]).

(** The section of [peer_stopped_streaming]. *)
Definition stop_watching (peer : string) (w : World) : World * list Instr :=
  let removed := bool_decide (peer ∈ watched_peers (screen w)) in
  let v := with_watched (watched_peers (screen w) ∖ {[peer]}) (ScreenStats.remove_peer peer (screen_stats (screen w))) (screen w) in
  (with_screen v w,
   (ApplyAudio <$> all_screen_updates_locked v) ++ (if removed then Tell (SendWatchStop peer) :: frame_removed peer else [])).

(** [set_local_preview_enabled] *)
Definition change_preview (enabled : bool) (w : World) : option (World * list Instr) :=
  let v := screen w in
  if lifecycle_held w then None
  else if eqb (local_preview_enabled v) enabled then Some (w, [])
  else
    Some (with_locks true (sharing_held w) (with_screen (with_flags (screen_requested v) enabled v) w),
      (match screen_session v with Some id => [SetPreview id enabled] | None => [] end)
      ++ (if enabled then [] else preview_removed v)
      ++ [Unlock]).

(** The session has a connection, or not. *)
Definition request_stats (id : nat) (generation : Z) (answer : nat -> bool) (w : World) : World * list Instr :=
  let s := sessions w in
  if answer 0 && negb (bool_decide (id ∈ closed s)) then (with_sessions (with_requests ((id, generation) :: stats_requests s) s) w, [])
  else (w, [StatsFailed generation]).

Definition exec (i : Instr) (answer : nat -> bool) (w : World) : option (World * list Instr) :=
  let v := screen w in
  let s := sessions w in
  match i with
  | StartScreen => start_screen_if_requested w
  | StartPlayout => Some (with_playout (playout_running w || answer 0) w, [])
  | StartSession id local_preview => Some (start_session id local_preview answer w)
  | Publish id => Some (publish id w)
  | ApplyAudio u => Some (with_sessions (apply u s) w, [])
  | Tell e => Some (tell e w, [])
  | CloseSession id | EndSession id => Some (with_sessions (close_session id s) w, [])
  | StopPlayout => Some (with_playout false w, [])
  | Unlock => Some (with_locks false (sharing_held w) w, [])
  | StopScreen => stop_screen_session w
  | SwitchOff x => Some (with_sessions (switch_off x s) w, [])
  | Share r resuming => apply_sharing r resuming w
  | StartCapture id r resuming => Some (start_capture id r resuming answer w)
  | StartSound id r resuming => Some (start_sound id r resuming answer w)
  | EnableSound id capture r resuming => Some (enable_sound id capture r resuming w)
  | PublishShare id capture r resuming => Some (publish_share id capture r resuming w)
  | UnlockSharing => Some (with_locks (lifecycle_held w) false w, [])
  | RememberRequest r => Some (with_screen (with_request (Some r) v) w, [])
  | ForgetRequest => Some (with_screen (with_request None v) w, [])
  | StopSharing => stop_sharing w
  | StopWatching peer => Some (stop_watching peer w)
  | ChangePreview enabled => change_preview enabled w
  | SetPreview id enabled => Some (with_sessions (with_preview (<[id := enabled]> (preview s)) s) w, [])
  | Recover token => Some (w, recover_screen_session token w)
  | RecoveryDone =>
    let r := recovery w in
    Some (with_recovery (mkRecovery (recovery_queue r) (recovery_worker r) false (recovery_stopping r)) w, [])
  | RequestStats id generation => Some (request_stats id generation answer w)
  | StatsFailed generation => Some (with_screen (with_watched (watched_peers v) (request_failed generation (screen_stats v)) v) w, [])
  end.

(** Thread [n] runs its next section. *)
Definition resume (n : nat) (answer : nat -> bool) (w : World) : World :=
  match threads w !! n with
  | Some (i :: rest) =>
    match exec i answer w with
    | Some (w', more) => spawn (more ++ rest) (with_threads (delete n (threads w)) w')
    | None => w
    end
  | _ => w
  end.

(** ** What the application, the transport and the sessions begin *)

Definition update_all (v : Screen) : list Instr := ApplyAudio <$> all_screen_updates_locked v.

Definition init_screen (w : World) : World :=
  let v := screen w in spawn [StartScreen] (with_screen (with_flags true (local_preview_enabled v) v) w).

Definition deinit_screen (w : World) : World :=
  let v := screen w in
  spawn ([StopSharing] ++ ((fun p => Tell (SendWatchStop p)) <$> elements (watched_peers v)) ++ [StopScreen])
    (with_screen (with_watched ∅ (clear_watched (screen_stats v)) (with_flags false (local_preview_enabled v) v)) w).

Definition join_stream (peer : string) (w : World) : World :=
  let v := screen w in
  if bool_decide (peer ∈ watched_peers v) then spawn (update_all v) w
  else
    let v := with_watched ({[peer]} ∪ watched_peers v) (set_watched peer true (screen_stats v)) v in
    spawn (update_all v ++ [Tell (SendWatchStart peer)]) (with_screen v w).

Definition leave_streams (w : World) : World :=
  let removed := elements (watched_peers (screen w)) in
  let v := with_watched ∅ (clear_watched (screen_stats (screen w))) (screen w) in
  spawn (update_all v ++ ((fun p => Tell (SendWatchStop p)) <$> removed) ++ (removed ≫= frame_removed)) (with_screen v w).

Definition leave_stream (peer : string) (w : World) : World :=
  let removed := bool_decide (peer ∈ watched_peers (screen w)) in
  let v := with_watched (watched_peers (screen w) ∖ {[peer]}) (set_watched peer false (screen_stats (screen w))) (screen w) in
  spawn (update_all v ++ (if removed then Tell (SendWatchStop peer) :: frame_removed peer else [])) (with_screen v w).

Definition peer_stopped_streaming (peer : string) (w : World) : World :=
  let '(w', more) := stop_watching peer w in spawn more w'.

(** The screen part of [remove_peer], which ends with a call of the above. *)
Definition remove_peer (peer : string) (w : World) : World :=
  spawn [StopWatching peer] (with_screen (with_volumes (delete peer (screen_peer_volumes (screen w))) (screen w)) w).

Definition handle_watch_rejected (peer : string) (w : World) : World :=
  let removed := bool_decide (peer ∈ watched_peers (screen w)) in
  let v := with_watched (watched_peers (screen w) ∖ {[peer]}) (set_watched peer false (screen_stats (screen w))) (screen w) in
  spawn (update_all v ++ (if removed then frame_removed peer else [])) (tell (Rejected peer) (with_screen v w)).

Definition set_stream_volume (peer : string) (volume : spec_float) (w : World) : World :=
  let v := with_volumes (<[peer := clamp_volume volume]> (screen_peer_volumes (screen w))) (screen w) in
  spawn (update_all v) (with_screen v w).

Definition stream_volume (peer : string) (w : World) : spec_float :=
  default (Binary32.of_Z 1) (screen_peer_volumes (screen w) !! peer).

(** [None]: the target could not be read. *)
Definition start_sharing (request : option SharingRequest) (w : World) : World :=
  match request with Some r => spawn [Share r false] w | None => w end.

Definition call_stop_sharing (w : World) : World := spawn [StopSharing] w.

Definition set_local_preview_enabled (enabled : bool) (w : World) : World := spawn [ChangePreview enabled] w.

Definition apply_binding (mid : string) (peer : option string) (w : World) : World :=
  let v := screen w in
  let old := screen_bindings v !! mid in
  let binding_changed := negb (bool_decide (old = peer)) in
  let removed := match old with
                 | Some p => if binding_changed && bool_decide (mid ∈ screen_video_mids v) && negb (String.eqb p "")
                             then frame_removed p else []
                 | None => []
                 end in
  let stats := if binding_changed then set_binding mid peer (screen_stats v) else screen_stats v in
  let bindings := match peer with Some p => <[mid := p]> (screen_bindings v) | None => delete mid (screen_bindings v) end in
  let v := with_watched (watched_peers v) stats (with_tracks bindings (screen_video_mids v) (screen_audio_mids v) v) in
  spawn ((ApplyAudio <$> option_list (screen_update_locked mid v)) ++ removed) (with_screen v w).

(** [on_remote_track] of a session *)
Definition session_track (mid : string) (video : bool) (w : World) : World :=
  let v := screen w in
  if video then with_screen (with_tracks (screen_bindings v) ({[mid]} ∪ screen_video_mids v) (screen_audio_mids v) v) w
  else
    let v := with_tracks (screen_bindings v) (screen_video_mids v) ({[mid]} ∪ screen_audio_mids v) v in
    spawn (ApplyAudio <$> option_list (screen_update_locked mid v)) (with_screen v w).

Definition deliver_video (mid : string) (w : World) : World :=
  let v := screen w in
  match screen_bindings v !! mid with
  | Some peer => if bool_decide (peer ∈ watched_peers v) && on_frame then spawn [Tell (OnFrame peer)] w else w
  | None => w
  end.

Definition deliver_local_video (w : World) : World :=
  let v := screen w in
  if sharing_active v && local_preview_enabled v && negb (String.eqb (local_preview_peer_id v) "") && on_frame
  then spawn [Tell (OnFrame (local_preview_peer_id v))] w
  else w.

Definition on_signaling_state (is_connected : bool) (w : World) : World :=
  spawn (if is_connected then [StartScreen] else [StopScreen]) (tell (Signaling is_connected) (with_connected is_connected w)).

Definition schedule_recovery (token : nat) (w : World) : World :=
  let r := recovery w in
  if recovery_stopping r then w
  else with_recovery (mkRecovery (recovery_queue r ++ [token]) true (recovery_busy r) false) w.

(** [on_state] of session [id], with a failed connection *)
Definition session_failed (id : nat) (w : World) : World :=
  let s := sessions w in
  if bool_decide (id ∈ recovery_scheduled s) then w
  else schedule_recovery id (with_sessions (with_scheduled ({[id]} ∪ recovery_scheduled s) s) w).

(** The worker takes the next task. *)
Definition run_recovery (w : World) : World :=
  let r := recovery w in
  match recovery_queue r with
  | token :: queue =>
    if recovery_worker r && negb (recovery_busy r) then
      spawn [Recover token; RecoveryDone] (with_recovery (mkRecovery queue true true (recovery_stopping r)) w)
    else w
  | [] => w
  end.

Definition stop_recovery (w : World) : World :=
  let r := recovery w in with_recovery (mkRecovery [] (recovery_worker r) (recovery_busy r) true) w.

(** The text that is returned, and the request it may start. *)
Definition screen_stats_json (peer : string) (w : World) : option Report * World :=
  let v := screen w in
  let '(p, stats) := poll peer (bool_decide (is_Some (screen_session v))) (screen_stats v) in
  (poll_json p,
   spawn (match screen_session v with
          | Some id => if start_request p then [RequestStats id (poll_generation p)] else []
          | None => []
          end)
     (with_screen (with_watched (watched_peers v) stats v) w)).

(** The [n]th of the outstanding requests is answered; a session that was closed
    does not pass the report on. *)
Definition stats_delivered (n : nat) (stats : ScreenSessionStats) (now : Z) (w : World) : World :=
  let s := sessions w in
  match stats_requests s !! n with
  | None => w
  | Some (id, generation) =>
    let w := with_sessions (with_requests (delete n (stats_requests s)) s) w in
    if bool_decide (id ∈ closed s) then w
    else with_screen (with_watched (watched_peers (screen w)) (consume stats generation now (screen_stats (screen w))) (screen w)) w
  end.

(** The session that gets an answer or a candidate; the call waits for the
    lifecycle. *)
Definition apply_answer (w : World) : option nat := if lifecycle_held w then None else screen_session (screen w).

Inductive Act :=
  | CallInit
  | CallDeinit
  | CallJoin (peer : string)
  | CallLeave (peer : string)
  | CallLeaveAll
  | CallPeerStopped (peer : string)
  | CallRemovePeer (peer : string)
  | CallStartSharing (request : option SharingRequest)
  | CallStopSharing
  | CallSetPreview (enabled : bool)
  | CallSetVolume (peer : string) (volume : spec_float)
  | CallStats (peer : string)
  | CallStopRecovery
  | BindingArrives (mid : string) (peer : option string)
  | RejectionArrives (peer : string)
  | SignalingChanges (is_connected : bool)
  | SessionTrack (mid : string) (video : bool)
  | SessionVideo (mid : string)
  | LocalVideo
  | SessionFails (id : nat)
  | StatsArrive (n : nat) (stats : ScreenSessionStats) (now : Z)
  | RecoveryRuns
  | Resumes (n : nat) (answer : nat -> bool).

Definition act (a : Act) (w : World) : World :=
  match a with
  | CallInit => init_screen w
  | CallDeinit => deinit_screen w
  | CallJoin peer => join_stream peer w
  | CallLeave peer => leave_stream peer w
  | CallLeaveAll => leave_streams w
  | CallPeerStopped peer => peer_stopped_streaming peer w
  | CallRemovePeer peer => remove_peer peer w
  | CallStartSharing request => start_sharing request w
  | CallStopSharing => call_stop_sharing w
  | CallSetPreview enabled => set_local_preview_enabled enabled w
  | CallSetVolume peer volume => set_stream_volume peer volume w
  | CallStats peer => (screen_stats_json peer w).2
  | CallStopRecovery => stop_recovery w
  | BindingArrives mid peer => apply_binding mid peer w
  | RejectionArrives peer => handle_watch_rejected peer w
  | SignalingChanges is_connected => on_signaling_state is_connected w
  | SessionTrack mid video => session_track mid video w
  | SessionVideo mid => deliver_video mid w
  | LocalVideo => deliver_local_video w
  | SessionFails id => session_failed id w
  | StatsArrive n stats now => stats_delivered n stats now w
  | RecoveryRuns => run_recovery w
  | Resumes n answer => resume n answer w
  end.

Definition run (acts : list Act) : World := foldl (fun w a => act a w) new_world acts.
End Client.
