(* ===== verification/ScreenControl.v ===== *)
(** * What holds of the client's screen session

    Invariants of the runs of ClientScreen: one session at a time, and the playout
    with it; and the means by which ScreenSharing, ScreenProgress and ScreenWatch
    prove theirs. *)

From S2P Require Import Prelude Floats Signaling Capture ScreenStats Lifecycle ClientScreen.

Local Open Scope nat_scope.
Local Open Scope list_scope.

#[export] Instance screen_code : ThreadCode Instr := {
  held_session i := match i with StartSession id _ | Publish id | CloseSession id | EndSession id => [id] | _ => [] end;
  is_unlock i := match i with Unlock => true | _ => false end;
  is_stop i := match i with StopScreen => true | _ => false end;
}.

Section Control.
Variables on_frame on_frame_removed : bool.
Variable local_id : string.

Abbreviation exec := (exec on_frame_removed local_id).
Abbreviation act := (act on_frame on_frame_removed local_id).
Abbreviation run := (run on_frame on_frame_removed local_id).
Abbreviation frame_removed := (frame_removed on_frame_removed).

(** ** Lists of instructions *)

(** Messages, callbacks and audio updates matter to none of the invariants. *)
Class Quiet {H} (held : Instr -> list H) (token : Instr -> bool) := {
  quiet_tell e : held (Tell e) = [] /\ token (Tell e) = false;
  quiet_apply u : held (ApplyAudio u) = [] /\ token (ApplyAudio u) = false;
}.

Section Quiet.
Context {H} (held : Instr -> list H) (token : Instr -> bool) `{!Quiet held token}.
Abbreviation free := (free_list held token).

Lemma free_nil : free [].
Proof. done. Qed.

Lemma free_told e l : free l -> free (Tell e :: l).
Proof. apply free_cons; apply quiet_tell. Qed.

Lemma free_frames peer : free (frame_removed peer).
Proof. unfold ClientScreen.frame_removed. destruct on_frame_removed; [by apply free_told | done]. Qed.

Lemma free_all_frames peers : free (peers ≫= frame_removed).
Proof. apply free_bind, free_frames. Qed.

Lemma free_if (b : bool) l : free l -> free (if b then l else []).
Proof. by destruct b. Qed.

Lemma free_unless (b : bool) l : free l -> free (if b then [] else l).
Proof. by destruct b. Qed.

Lemma free_updates us : free (ApplyAudio <$> us).
Proof. apply free_map. intros u. apply quiet_apply. Qed.

Lemma free_update_all v : free (update_all v).
Proof. apply free_updates. Qed.

Lemma free_tells {A} (f : A -> Event) l : free ((fun x => Tell (f x)) <$> l).
Proof. apply free_map. intros x. apply quiet_tell. Qed.

Lemma free_preview v : free (preview_removed on_frame_removed v).
Proof. apply free_unless, free_frames. Qed.
End Quiet.

Hint Extern 0 (Quiet _ _) => typeclasses eauto : core.
Hint Resolve free_nil free_told free_frames free_all_frames free_if free_unless free_updates free_update_all free_tells free_preview : core.

#[local] Instance session_quiet : Quiet held_session is_unlock.
Proof. by split. Qed.

(** ** One session *)

Definition life (w : World) : Life :=
  mkLife (screen_session (screen w)) (closed (sessions w)) (next_session (sessions w)) (lifecycle_held w).

(** A session is wanted while the user wants screens and signaling is there. *)
Definition wanted (w : World) : Prop := screen_requested (screen w) = true /\ connected w = true.

Definition session_ok (w : World) (ts : list (list Instr)) : Prop :=
  life_ok (life w) (wanted w) ts /\ screen_session_token (screen w) = screen_session (screen w).

(** What the invariant reads of a world. *)
Definition core (w : World) := (life w, screen_session_token (screen w), screen_requested (screen w), connected w).

Lemma session_ok_same w w' ts : core w = core w' -> session_ok w ts -> session_ok w' ts.
Proof.
  unfold core, session_ok, wanted. intros [= H1 H2 H3 H4 H5 H6 H7]. unfold life. by rewrite H1, H2, H3, H4, H5, H6, H7.
Qed.

Lemma plain_not_shared resuming : plain_list (not_shared resuming).
Proof. by destruct resuming. Qed.

Lemma plain_shared r resuming : plain_list (shared r resuming).
Proof. by destruct resuming. Qed.

Hint Resolve plain_not_shared plain_shared : core.

Lemma stop_rest_held v :
  stop_rest on_frame_removed v ≫= held_session = option_list (screen_session v) /\ unlocks (stop_rest on_frame_removed v) = 0.
Proof.
  pose proof (free_all_frames held_session is_unlock (shown_peers v)) as [H1 H2].
  pose proof (free_preview held_session is_unlock v) as [H3 H4].
  unfold stop_rest. rewrite !bind_app, !tokens_app, H1, H2, H3, H4. by destruct (system_audio_capture v), (screen_session v).
Qed.

Lemma plain_stop_sharing v : plain_list (stop_sharing_rest on_frame_removed v).
Proof.
  unfold stop_sharing_rest. plain; [by destruct (screen_session v) | by destruct (system_audio_capture v)].
Qed.

Hint Resolve plain_stop_sharing : core.

(** A section that moves no session. *)
Lemma plain_section w w' i more rest others :
  core w = core w' -> held_session i = [] -> is_unlock i = false -> is_stop i = false -> plain_list more ->
  session_ok w ((i :: rest) :: others) -> session_ok w' ((more ++ rest) :: others).
Proof. intros Hc Hi Hu Hs Hm [Hw Ht]. apply (session_ok_same w); [done |]. split; [by apply (life_plain _ _ i) | done]. Qed.

Lemma exec_session i answer rest others w w' more :
  session_ok w ((i :: rest) :: others) -> exec i answer w = Some (w', more) -> session_ok w' ((more ++ rest) :: others).
Proof.
  intros Hok. pose proof Hok as [Hw Ht].
  destruct i; cbn [ClientScreen.exec]; unfold start_screen_if_requested, start_session, publish, stop_screen_session, recover_screen_session,
    apply_sharing, start_capture, start_sound, enable_sound, publish_share, stop_sharing, stop_watching, change_preview, request_stats.
  - destruct (lifecycle_held w) eqn:Hlock; [done |].
    destruct (_ || _) eqn:Hgo; intros [= <- <-]; [by apply (plain_section w _ StartScreen) |].
    apply orb_false_iff in Hgo as [[_ Hnone]%orb_false_iff _]. apply bool_decide_eq_false in Hnone.
    assert (Hc : screen_session (screen w) = None) by (destruct (screen_session (screen w)); [by destruct Hnone | done]).
    split; [| done]. assert (Hlife : forall s, life (with_locks true (sharing_held w) (with_sessions s w)) = mkLife None (closed s) (next_session s) true)
      by (intros s; unfold life; cbn; by rewrite Hc).
    rewrite Hlife. by apply (life_take (life w) (wanted w) StartScreen).
  - intros [= <- <-]. by apply (plain_section w _ StartPlayout).
  - destruct (answer 0); cbn [negb]; intros [= <- <-]; (split; [| done]).
    + by apply (life_keep (life w) (wanted w) (StartSession id local_preview) id).
    + by apply (life_close (life w) (wanted w) (StartSession id local_preview)).
  - assert (Hkeep : session_ok w (([CloseSession id; StopPlayout] ++ rest) :: others)).
    { split; [by apply (life_keep (life w) (wanted w) (Publish id) id) | done]. }
    destruct (screen_requested (screen w)) eqn:Hreq; cbn [andb]; [| by intros [= <- <-]].
    destruct (bool_decide _); cbn [negb andb]; [by intros [= <- <-] |].
    destruct (connected w) eqn:Hcon; intros [= <- <-]; [| done]. split; [| done].
    apply (life_publish (life w) (wanted w) _ (Publish id)); try done. plain.
  - intros [= <- <-]. by apply (plain_section w _ (ApplyAudio u)).
  - intros [= <- <-]. by apply (plain_section w _ (Tell e)).
  - intros [= <- <-]. split; [| done]. by apply (life_close (life w) (wanted w) (CloseSession id)).
  - intros [= <- <-]. by apply (plain_section w _ StopPlayout).
  - intros [= <- <-]. split; [| done]. by apply (life_unlock (life w) (wanted w) Unlock).
  - destruct (lifecycle_held w) eqn:Hlock; [done |]. destruct (sharing_held w); [done |]. intros [= <- <-]. split; [| done].
    destruct (stop_rest_held (screen w)) as [Hh Hu].
    apply (life_stop (life w) (wanted w) _ StopScreen); try done.
    + by rewrite bind_app, Hh, app_nil_r.
    + by rewrite tokens_app, Hu.
    + by apply guarded_push.
  - intros [= <- <-]. by apply (plain_section w _ (SwitchOff s)).
  - intros [= <- <-]. split; [| done]. by apply (life_close (life w) (wanted w) (EndSession id)).
  - assert (Hplain : plain_list (if resuming then [ForgetRequest] else [])) by (by destruct resuming).
    destruct (sharing_held w); [done |]. destruct (_ || _); [intros [= <- <-]; by apply (plain_section w _ (Share r resuming)) |].
    destruct (screen_session (screen w)); intros [= <- <-]; by apply (plain_section w _ (Share r resuming)).
  - destruct (_ || _); [| destruct (share_audio r)]; intros [= <- <-]; apply (plain_section w _ (StartCapture id r resuming)); plain.
  - destruct (negb _); intros [= <- <-]; apply (plain_section w _ (StartSound id r resuming)); plain.
  - intros [= <- <-]. apply (plain_section w _ (EnableSound id capture r resuming)); try done. destruct (share_audio r); [by case_bool_decide | done].
  - destruct (_ && _); intros [= <- <-]; apply (plain_section w _ (PublishShare id capture r resuming)); plain; by destruct capture.
  - intros [= <- <-]. by apply (plain_section w _ UnlockSharing).
  - intros [= <- <-]. by apply (plain_section w _ (RememberRequest r)).
  - intros [= <- <-]. by apply (plain_section w _ ForgetRequest).
  - destruct (sharing_held w); [done |]. intros [= <- <-]. apply (plain_section w _ StopSharing); plain.
  - intros [= <- <-]. apply (plain_section w _ (StopWatching peer)); plain.
  - destruct (lifecycle_held w) eqn:Hlock; [done |]. destruct (eqb _ _); intros [= <- <-]; [by apply (plain_section w _ (ChangePreview enabled)) |].
    split; [| done]. rewrite app_assoc. set (l := _ ++ (if enabled then _ else _)).
    assert (Hl : plain_list l) by (subst l; apply free_app; [by destruct (screen_session (screen w)) | destruct enabled; plain]).
    apply (life_lock (life w) (wanted w) (ChangePreview enabled)); try done.
    + by rewrite bind_app, (proj1 Hl).
    + by rewrite tokens_app, (proj2 Hl).
  - intros [= <- <-]. by apply (plain_section w _ (SetPreview id enabled)).
  - destruct (_ || _); intros [= <- <-]; [by apply (plain_section w _ (Recover token)) |]. apply (plain_section w _ (Recover token)); try done.
    apply free_app; [by destruct (sharing_active _) |]. plain. destruct (sharing_request _); [by destruct (sharing_active _) | done].
  - intros [= <- <-]. by apply (plain_section w _ RecoveryDone).
  - destruct (_ && _); intros [= <- <-]; by apply (plain_section w _ (RequestStats id generation)).
  - intros [= <- <-]. by apply (plain_section w _ (StatsFailed generation)).
Qed.

Lemma spawn_session l w : session_ok w (l :: threads w) -> session_ok (spawn l w) (threads (spawn l w)).
Proof.
  intros [Hl Ht]. unfold spawn. cbn [threads with_threads]. split; [| done].
  destruct l; [by apply life_ok_done | done].
Qed.

Lemma begin_session l w : plain_list l -> session_ok w (threads w) -> session_ok (spawn l w) (threads (spawn l w)).
Proof. intros Hl [Hw Ht]. apply spawn_session. split; [by apply life_ok_begin | done]. Qed.

Lemma same_session w w' : core w = core w' -> threads w = threads w' -> session_ok w (threads w) -> session_ok w' (threads w').
Proof. intros Hc <-. by apply session_ok_same. Qed.

(** A wish or a connection that goes leaves a thread that stops the session. *)
Lemma unwanted_session w w' l :
  plain_list l -> StopScreen ∈ l -> life w' = life w -> screen_session_token (screen w') = screen_session_token (screen w) ->
  threads w' = threads w -> session_ok w (threads w) -> session_ok (spawn l w') (threads (spawn l w')).
Proof.
  intros Hp Hin H1 H2 H3 [Hl Ht]. apply spawn_session. rewrite H3. split.
  - rewrite H1. apply (life_ok_unwanted (life w) (wanted w)); [done | by exists StopScreen | done].
  - rewrite H2, Ht. unfold life in H1. congruence.
Qed.

(** A wish or a connection that comes. *)
Lemma wanted_session w w' :
  life w' = life w -> screen_session_token (screen w') = screen_session_token (screen w) -> threads w' = threads w ->
  (wanted w -> wanted w') -> session_ok w (threads w) -> session_ok w' (threads w').
Proof.
  intros H1 H2 H3 H4 [Hl Ht]. rewrite H3. split.
  - rewrite H1. by apply (life_ok_wanted (life w) (wanted w)).
  - rewrite H2, Ht. unfold life in H1. congruence.
Qed.

Lemma act_session a w : session_ok w (threads w) -> session_ok (act a w) (threads (act a w)).
Proof.
  intros Hw. destruct a; cbn [ClientScreen.act].
  - apply begin_session; [done |]. apply (wanted_session w); try done. by intros [_ ?].
  - apply (unwanted_session w); try done; [| by rewrite !elem_of_app; right; right; left].
    plain.
  - unfold join_stream. case_bool_decide; (apply begin_session; [plain | by apply (same_session w)]).
  - unfold leave_stream. apply begin_session; [plain | by apply (same_session w)].
  - unfold leave_streams. apply begin_session; [plain | by apply (same_session w)].
  - unfold peer_stopped_streaming, stop_watching. apply begin_session; [plain | by apply (same_session w)].
  - apply begin_session; [done | by apply (same_session w)].
  - unfold start_sharing. destruct request; [by apply begin_session | done].
  - by apply begin_session.
  - by apply begin_session.
  - unfold set_stream_volume. apply begin_session; [plain | by apply (same_session w)].
  - unfold screen_stats_json. destruct (poll _ _ _) as [p stats]. cbn [snd].
    apply begin_session; [destruct (screen_session _); [by destruct (start_request p) | done] | by apply (same_session w)].
  - by apply (same_session w).
  - unfold apply_binding. apply begin_session; [| by apply (same_session w)]. plain.
    destruct (screen_bindings _ !! mid); [| done]. destruct (_ && _); plain.
  - unfold handle_watch_rejected. apply begin_session; [plain | by apply (same_session w)].
  - unfold on_signaling_state. destruct is_connected; [| apply (unwanted_session w); try done; by left].
    apply begin_session; [done |]. apply (wanted_session w); try done. by intros [? _].
  - unfold session_track. destruct video; [by apply (same_session w) |]. apply begin_session; [plain | by apply (same_session w)].
  - unfold deliver_video. destruct (screen_bindings _ !! mid); [| done]. destruct (_ && _); [by apply begin_session | done].
  - unfold deliver_local_video. destruct (_ && _); [by apply begin_session | done].
  - unfold session_failed. destruct (bool_decide _); [done |]. unfold schedule_recovery.
    destruct (recovery_stopping _); by apply (same_session w).
  - unfold stats_delivered. destruct (stats_requests _ !! n) as [[id g] |]; [| done]. destruct (bool_decide _); by apply (same_session w).
  - unfold run_recovery. destruct (recovery_queue _); [done |]. destruct (_ && _); [| done].
    apply begin_session; [done |]. by apply (same_session w).
  - unfold resume. destruct (threads w !! n) as [[| i rest] |] eqn:Hn; [done | | done].
    destruct (exec i answer w) as [[w' more] |] eqn:He; [| done]. apply spawn_session.
    apply (session_ok_same w'); [done |]. cbn [threads with_threads]. apply (exec_session i answer rest _ w); [| done].
    destruct Hw as [Hl Ht]. split; [| done]. eapply life_ok_perm; [| exact Hl]. by apply delete_Permutation.
Qed.

Lemma run_session acts : session_ok (run acts) (threads (run acts)).
Proof.
  unfold ClientScreen.run. assert (Hnew : session_ok new_world (threads new_world)).
  { split; [| done]. split; simpl; try done; try lia; by intros []. }
  revert Hnew. generalize new_world.
  induction acts as [| a acts IH]; intros w Hw; [done |]. by apply IH, act_session.
Qed.

(** ** What a section leaves alone *)

Definition same_unless (b : bool) (P : Prop) : Prop := if b then True else P.

Lemma exec_frame i answer w w' more : exec i answer w = Some (w', more) ->
  same_unless match i with StartPlayout | StopPlayout => true | _ => false end (playout_running w' = playout_running w)
  /\ same_unless match i with Publish _ | StopScreen => true | _ => false end (screen_session (screen w') = screen_session (screen w))
  /\ same_unless match i with PublishShare _ _ _ _ | StopSharing | StopScreen => true | _ => false end
       (sharing_active (screen w') = sharing_active (screen w) /\ system_audio_capture (screen w') = system_audio_capture (screen w))
  /\ screen_requested (screen w') = screen_requested (screen w)
  /\ same_unless match i with StartCapture _ _ _ | StartSound _ _ _ | EnableSound _ _ _ _ | SwitchOff _
                   | StartSession _ _ | CloseSession _ | EndSession _ => true | _ => false end
       (on_air (sessions w') = on_air (sessions w) /\ closed (sessions w') = closed (sessions w))
  /\ same_unless match i with Share _ _ | UnlockSharing | StopSharing | StopScreen => true | _ => false end (sharing_held w' = sharing_held w)
  /\ same_unless match i with StopWatching _ => true | _ => false end (watched_peers (screen w') = watched_peers (screen w))
  /\ same_unless match i with Tell _ => true | _ => false end (events w' = events w).
Proof.
  destruct i; cbn [ClientScreen.exec same_unless]; unfold start_screen_if_requested, start_session, publish, stop_screen_session,
    recover_screen_session, apply_sharing, start_capture, start_sound, enable_sound, publish_share, stop_sharing, stop_watching,
    change_preview, request_stats;
    repeat match goal with
      | |- context [if ?b then _ else _] => destruct b eqn:?
      | |- (match screen_session ?v with _ => _ end = Some _) -> _ => destruct (screen_session v) eqn:?
      end; by intros [= <- <-].
Qed.

(** What a call or a callback begins with. *)
Definition begins (i : Instr) : bool :=
  match i with
  | StartScreen | StopScreen | Share _ _ | StopSharing | StopWatching _ | ChangePreview _ | Recover _ | RecoveryDone
  | RequestStats _ _ | Tell _ | ApplyAudio _ => true
  | _ => false
  end.

Definition begun (a : Act) (w : World) (l : list Instr) (w0 : World) : Prop :=
  act a w = spawn l w0 /\ threads w0 = threads w /\ Forall (fun i => begins i = true) l
  /\ (playout_running w0 = playout_running w /\ lifecycle_held w0 = lifecycle_held w /\ sharing_held w0 = sharing_held w)
  /\ (screen_session (screen w0) = screen_session (screen w) /\ sharing_active (screen w0) = sharing_active (screen w)
       /\ system_audio_capture (screen w0) = system_audio_capture (screen w))
  /\ (on_air (sessions w0) = on_air (sessions w) /\ closed (sessions w0) = closed (sessions w))
  /\ (screen_requested (screen w0) = screen_requested (screen w) \/ screen_requested (screen w0) = true \/ StopSharing ∈ l)
  /\ same_unless match a with CallDeinit | CallJoin _ | CallLeave _ | CallLeaveAll | CallPeerStopped _ | RejectionArrives _ => true | _ => false end
       (watched_peers (screen w0) = watched_peers (screen w))
  /\ same_unless match a with RejectionArrives _ | SignalingChanges _ => true | _ => false end (events w0 = events w).

Lemma begins_app l l' : Forall (fun i => begins i = true) l -> Forall (fun i => begins i = true) l' -> Forall (fun i => begins i = true) (l ++ l').
Proof. intros. by apply Forall_app. Qed.

Lemma begins_fmap {A} (f : A -> Instr) l : (forall x, begins (f x) = true) -> Forall (fun i => begins i = true) (f <$> l).
Proof. intros. apply Forall_fmap, Forall_true. auto. Qed.

Lemma begins_frames peer : Forall (fun i => begins i = true) (frame_removed peer).
Proof. unfold ClientScreen.frame_removed. destruct on_frame_removed; by repeat constructor. Qed.

Lemma begins_all_frames peers : Forall (fun i => begins i = true) (peers ≫= frame_removed).
Proof. induction peers; [done |]. apply begins_app; [apply begins_frames | done]. Qed.

Lemma begins_cons i l : begins i = true -> Forall (fun i => begins i = true) l -> Forall (fun i => begins i = true) (i :: l).
Proof. by constructor. Qed.

Lemma begins_nil : Forall (fun i => begins i = true) [].
Proof. done. Qed.

Lemma begins_update_all v : Forall (fun i => begins i = true) (update_all v).
Proof. by apply begins_fmap. Qed.

Hint Resolve list_elem_of_here begins_update_all begins_app begins_fmap begins_frames begins_all_frames begins_cons begins_nil : core.

Lemma spawn_nothing w : w = spawn [] w.
Proof. by destruct w. Qed.

Lemma act_begins a w : (forall n answer, a <> Resumes n answer) -> exists l w0, begun a w l w0.
Proof.
  intros Ha. unfold begun.
  destruct a; cbn [ClientScreen.act same_unless]; unfold init_screen, deinit_screen, join_stream, leave_streams, leave_stream, peer_stopped_streaming,
    remove_peer, handle_watch_rejected, set_stream_volume, start_sharing, call_stop_sharing, set_local_preview_enabled, apply_binding,
    session_track, deliver_video, deliver_local_video, on_signaling_state, session_failed, schedule_recovery, run_recovery, stop_recovery,
    screen_stats_json, stats_delivered, stop_watching;
    try (destruct (poll _ _ _)); cbn [snd];
    repeat match goal with
      | |- context [match ?x with Some _ => _ | None => _ end] => lazymatch x with context [match _ with _ => _ end] => fail | _ => destruct x eqn:? end
      | |- context [match ?x with (_, _) => _ end] => destruct x
      | |- context [match ?x with [] => _ | _ => _ end] => lazymatch x with context [match _ with _ => _ end] => fail | _ => destruct x eqn:? end
      | |- context [if ?b then _ else _] => destruct b eqn:?
      end; try (by destruct (Ha n answer)).
  all: try (eexists _, _; split; [reflexivity |]; split_and!; cbn [app]; try done; auto 20; fail).
  all: try (match goal with |- exists l w0, ?x = _ /\ _ => exists [], x end; split; [apply spawn_nothing | split_and!; cbn; auto; fail]).
Qed.

Lemma act_cases (a : Act) : (exists n answer, a = Resumes n answer) \/ (forall n answer, a <> Resumes n answer).
Proof. destruct a; try (by right); left; by eexists _, _. Qed.

(** An invariant of the runs in which calls are [allowed]. *)
Fixpoint allowed_run (allowed : Act -> World -> bool) (acts : list Act) (w : World) : bool :=
  match acts with
  | [] => true
  | a :: acts => allowed a w && allowed_run allowed acts (act a w)
  end.

Lemma allowed_all acts w : allowed_run (fun _ _ => true) acts w = true.
Proof. revert w. induction acts as [| a acts IH]; intros w; [done | by cbn]. Qed.

Lemma run_invariant (allowed : Act -> World -> bool) (P : World -> list (list Instr) -> Prop) :
  (forall ts' w ts, P w ts -> P (with_threads ts' w) ts) ->
  (forall w ts ts', ts ≡ₚ ts' -> P w ts -> P w ts') ->
  (forall w ts, P w ([] :: ts) -> P w ts) ->
  (forall a w l w0, allowed a w = true -> begun a w l w0 -> P w (threads w) -> P w0 (l :: threads w)) ->
  (forall i answer rest others w w' more,
     session_ok w ((i :: rest) :: others) -> P w ((i :: rest) :: others) -> exec i answer w = Some (w', more) ->
     P w' ((more ++ rest) :: others)) ->
  P new_world [] ->
  forall acts, allowed_run allowed acts new_world = true -> P (run acts) (threads (run acts)).
Proof.
  intros Hthreads Hperm Hnil Hbegin Hexec Hnew acts. unfold ClientScreen.run. pose proof (run_session []) as Hses.
  change [] with (threads new_world) in Hnew at 1. change (run []) with new_world in Hses.
  assert (Hspawn : forall l w, P w (l :: threads w) -> P (spawn l w) (threads (spawn l w))).
  { intros l w Hw. unfold spawn. apply Hthreads. cbn [threads with_threads]. destruct l; [by apply Hnil | done]. }
  revert Hnew Hses. generalize new_world. induction acts as [| a acts IH]; intros w Hw Hses Hall; [done |].
  cbn [allowed_run] in Hall. apply andb_prop in Hall as [Ha Hall]. cbn [foldl]. apply IH; [| by apply act_session | done]. clear IH Hall.
  destruct (act_cases a) as [(n & answer & ->) | Hno].
  - cbn [ClientScreen.act]. unfold resume. destruct (threads w !! n) as [[| i rest] |] eqn:Hn; [done | | done].
    destruct (ClientScreen.exec _ _ i answer w) as [[w' more] |] eqn:He; [| done]. apply Hspawn, Hthreads. cbn [threads with_threads].
    pose proof (delete_Permutation _ _ _ Hn) as Hp. eapply Hexec; [| by eapply Hperm | exact He].
    destruct Hses as [Hl Ht]. split; [by eapply life_ok_perm | done].
  - destruct (act_begins a w) as (l & w0 & Hb); [done |].
    pose proof Hb as (-> & Ht & _). apply Hspawn. rewrite Ht. by eapply Hbegin.
Qed.

(** ** The playout *)

(** A thread that starts the playout goes on with a session. *)
Definition starts_playout (i : Instr) : list unit := match i with StartPlayout => [tt] | _ => [] end.
Definition starts_session (i : Instr) : bool := match i with StartSession _ _ => true | _ => false end.
Definition keeps_playing (i : Instr) : Prop :=
  match i with StartSession _ _ | Publish _ | StopPlayout => True | _ => False end.

Definition playing_ok (w : World) (l : list Instr) : Prop :=
  playout_running w = true -> is_Some (screen_session (screen w)) \/ Exists keeps_playing l.

Definition playout_ok (w : World) (ts : list (list Instr)) : Prop :=
  Forall (guarded starts_playout starts_session) ts /\ playing_ok w (concat ts).

Lemma starts_free l : Forall (fun i => begins i = true) l -> guarded starts_playout starts_session l.
Proof. intros Hl. apply guarded_free. induction Hl as [| i l Hi _ IH]; [done |]. by destruct i. Qed.

#[local] Instance playout_quiet : Quiet starts_playout starts_session.
Proof. by split. Qed.

Lemma exec_starts i answer w w' more : exec i answer w = Some (w', more) -> guarded starts_playout starts_session more.
Proof.
  destruct i; cbn [ClientScreen.exec]; unfold start_screen_if_requested, start_session, publish, stop_screen_session, recover_screen_session,
    apply_sharing, start_capture, start_sound, enable_sound, publish_share, stop_sharing, stop_watching, change_preview, request_stats;
    branches; intros [= <- <-]; try done; apply free_guarded; unfold stop_rest, stop_sharing_rest, shared, not_shared; plain; branches; plain.
Qed.

Lemma playing_keep w w' i more l :
  ~ keeps_playing i -> (playout_running w' = true -> playout_running w = true) ->
  (is_Some (screen_session (screen w)) -> is_Some (screen_session (screen w')) \/ Exists keeps_playing more) ->
  playing_ok w (i :: l) -> playing_ok w' (more ++ l).
Proof.
  unfold playing_ok. intros Hi Hr Hs Hok Hrun. rewrite Exists_app. destruct (Hok (Hr Hrun)) as [Hse | [? | ?]%Exists_cons]; [| done | by right; right].
  destruct (Hs Hse); [by left | right; by left].
Qed.

Lemma exec_playing i answer rest others w w' more :
  playout_ok w ((i :: rest) :: others) -> exec i answer w = Some (w', more) -> playout_ok w' ((more ++ rest) :: others).
Proof.
  intros [Hg Hp] He. apply Forall_cons in Hg as [[Hi Hrest] Hothers]. split.
  { constructor; [| done]. apply guarded_app; [by eapply exec_starts | done]. }
  pose proof (exec_frame _ _ _ _ _ He) as (Hr & Hs & _). cbn [concat app] in *. rewrite <- app_assoc.
  destruct i; cbn [same_unless] in Hr, Hs;
    try (refine (playing_keep w w' _ more _ _ _ _ Hp); [by intros [] | by rewrite Hr | rewrite Hs; by left]).
  - intros _. right. destruct (decide (Exists (fun i => starts_session i = true) rest)) as [Hin | Hno].
    + rewrite !Exists_app. right. left. eapply Exists_impl; [exact Hin |]. by intros [].
    + exfalso. assert (Hz : tokens starts_session (StartPlayout :: rest) = 0); [| by specialize (Hi Hz)].
      rewrite tokens_cons. apply tokens_none. by apply List.Forall_Exists_neg.
  - cbn in He. injection He as He. revert He. unfold start_session. destruct (negb _); intros [= <- <-] _; right; by left.
  - cbn in He. injection He as He. revert He. unfold publish. destruct (_ && _); intros [= <- <-] _; [by left |].
    right. right. by left.
  - by cbn in He; injection He as <- <-.
  - cbn [ClientScreen.exec] in He. revert He. unfold stop_screen_session. destruct (_ || _); intros [= <- <-] _. right.
    unfold stop_rest. rewrite !Exists_app. left. left. right. right. left. by left.
Qed.

Lemma run_playing acts : playout_ok (run acts) (threads (run acts)).
Proof.
  apply (run_invariant (fun _ _ => true) playout_ok).
  - done.
  - intros w ts ts' Hp [Hg Ho]. split; [by rewrite <- Hp |]. unfold playing_ok in *. by rewrite <- (concat_perm _ _ Hp).
  - intros w ts [Hg Ho]. by apply Forall_cons in Hg as [_ Hg].
  - intros a w l w0 _ (_ & _ & Hl & (Hr & _) & (Hs & _) & _) [Hg Ho]. split.
    + constructor; [by apply starts_free | done].
    + unfold playing_ok. rewrite Hr, Hs. cbn [concat]. rewrite Exists_app. intros Hrun. destruct (Ho Hrun); [by left | by right; right].
  - intros i answer rest others w w' more _. apply exec_playing.
  - by split.
  - apply allowed_all.
Qed.
(** C30 However the application, the transport, the sessions and the recovery
    interleave: every screen session that was made is the client's, in the hands of
    the one thread that holds the lifecycle lock, or closed; at most one is not
    closed; and when no thread is at work and screens are not wanted, or signaling
    is lost, all are closed and the playout has stopped. *)
Theorem one_screen_session acts :
  let w := run acts in
  option_list (screen_session (screen w)) ++ (concat (threads w) ≫= held_session) ++ elements (closed (sessions w))
    ≡ₚ seq 0 (next_session (sessions w))
  /\ length (option_list (screen_session (screen w))) + length (concat (threads w) ≫= held_session) <= 1
  /\ (lifecycle_held w = false -> concat (threads w) ≫= held_session = [])
  /\ (screen_requested (screen w) = false \/ connected w = false -> threads w = [] ->
       screen_session (screen w) = None /\ elements (closed (sessions w)) ≡ₚ seq 0 (next_session (sessions w))
       /\ playout_running w = false).
Proof.
  intros w. destruct (run_session acts) as [Hok _]. fold w in Hok.
  pose proof (free_none (life w) (wanted w) (threads w) Hok) as Hfree. pose proof Hok as [Hs Ho Hl Hsh Hw].
  do 3 (split; [done |]). intros Hno Hidle. pose proof (run_playing acts) as [_ Hplay]. fold w in Hplay. rewrite Hidle in Hok, Hplay.
  destruct (life_idle (life w) (wanted w) Hok) as [Hc Hcl]; [intros [? ?]; destruct Hno; congruence |].
  split_and!; [done | done |]. destruct (playout_running w) eqn:Hr; [| done]. cbn in Hc.
  destruct (Hplay Hr) as [Hse | He]; [by rewrite Hc in Hse; destruct Hse | by apply Exists_nil in He].
Qed.
End Control.

#[export] Hint Extern 0 (Quiet _ _) => typeclasses eauto : core.
#[export] Hint Resolve free_nil free_told free_frames free_all_frames free_if free_unless free_updates free_update_all free_tells free_preview : core.
