(* ===== verification/ScreenSharing.v ===== *)
(** * Nothing on the air unless the user shares

    The invariant of sharing in the runs of ClientScreen: what may send the user's
    screen or sound is on only while sharing is active on the current session, or in
    the hands of the one thread that holds [sharing_mutex] and will see to it. *)

From S2P Require Import Prelude Floats Signaling Capture ScreenStats Lifecycle ClientScreen ScreenControl.

Local Open Scope nat_scope.
Local Open Scope list_scope.

Section Sharing.
Variables on_frame on_frame_removed : bool.
Variable local_id : string.

Abbreviation exec := (exec on_frame_removed local_id).
Abbreviation act := (act on_frame on_frame_removed local_id).
Abbreviation run := (run on_frame on_frame_removed local_id).

Definition sound (c : option nat) : list Source := SoundCapture <$> option_list c.
Definition tracks (id : nat) : list Source := [Desktop id; VideoTrack id; SystemTrack id].

(** What an instruction will switch off, or hand on. *)
Definition air (i : Instr) : list Source :=
  match i with
  | SwitchOff x => [x]
  | EndSession id => tracks id
  | StartSound id _ _ => [Desktop id; VideoTrack id]
  | EnableSound id c _ _ => [Desktop id; VideoTrack id] ++ sound c
  | PublishShare id c _ _ => tracks id ++ sound c
  | _ => []
  end.

(** What only the holder of [sharing_mutex] does. *)
Definition holds_sharing (i : Instr) : bool :=
  match i with
  | StartCapture _ _ _ | StartSound _ _ _ | EnableSound _ _ _ _ | PublishShare _ _ _ _ | UnlockSharing => true
  | _ => false
  end.

Definition subject (i : Instr) : option nat :=
  match i with
  | StartCapture id _ _ | StartSound id _ _ | EnableSound id _ _ _ | PublishShare id _ _ _ => Some id
  | _ => None
  end.

(** What is on when a sharing is about to take its next step. *)
Definition stage (i : Instr) : list Source :=
  match i with
  | StartSound id _ _ => [Desktop id; VideoTrack id]
  | EnableSound id c _ _ => [Desktop id; VideoTrack id] ++ sound c
  | PublishShare id c r _ => [Desktop id; VideoTrack id] ++ (if share_audio r then [SystemTrack id] else []) ++ sound c
  | _ => []
  end.

Definition sound_ok (i : Instr) : Prop :=
  match i with
  | StartSound _ r _ => share_audio r = true
  | EnableSound _ c r _ | PublishShare _ c r _ => is_Some c <-> share_audio r = true
  | _ => True
  end.

Definition staged (w : World) (i : Instr) : Prop :=
  forall id, subject i = Some id ->
    screen_session (screen w) = Some id /\ sharing_active (screen w) = false
    /\ Forall (fun x => x ∈ on_air (sessions w)) (stage i) /\ sound_ok i.

(** The source belongs to the current session, or to its capture. *)
Definition live (v : Screen) (x : Source) : Prop :=
  match x with
  | Desktop id | VideoTrack id | SystemTrack id => screen_session v = Some id
  | SoundCapture c => system_audio_capture v = Some c
  end.

Definition shown (w : World) : Prop :=
  exists id, screen_session (screen w) = Some id /\ Desktop id ∈ on_air (sessions w) /\ VideoTrack id ∈ on_air (sessions w)
  /\ forall c, system_audio_capture (screen w) = Some c -> SoundCapture c ∈ on_air (sessions w) /\ SystemTrack id ∈ on_air (sessions w).

Abbreviation pending l := (l ≫= air).

(** A sharing is the first thing its thread does. *)
Definition headed (t : list Instr) : Prop := Forall (fun i => subject i = None) (tail t).

Record share_shape (held : bool) (ts : list (list Instr)) : Prop := {
  sh_tokens : tokens holds_sharing (concat ts) = if held then 1 else 0;
  sh_guarded : Forall (guarded air holds_sharing) ts;
  sh_headed : Forall headed ts;
}.

Record share_view (w : World) (l : list Instr) : Prop := {
  sh_air x : x ∈ on_air (sessions w) -> (sharing_active (screen w) = true /\ live (screen w) x) \/ x ∈ pending l;
  sh_pending : pending l <> [] -> sharing_active (screen w) = false;
  sh_staged : Forall (staged w) l;
  sh_capture : is_Some (system_audio_capture (screen w)) -> sharing_active (screen w) = true;
  sh_shown : sharing_active (screen w) = true -> shown w;
  sh_open id : id ∈ closed (sessions w) -> Forall (fun x => x ∉ on_air (sessions w)) (tracks id);
  sh_wanted : sharing_active (screen w) = true -> screen_requested (screen w) = true \/ StopSharing ∈ l;
}.

Definition share_ok (w : World) (ts : list (list Instr)) : Prop :=
  share_shape (sharing_held w) ts /\ share_view w (concat ts).

(** ** Shape *)

#[local] Instance sharing_quiet : Quiet air holds_sharing.
Proof. by split. Qed.

Lemma subject_holds i : subject i <> None -> holds_sharing i = true.
Proof. by destruct i. Qed.

Lemma no_subjects l : tokens holds_sharing l = 0 -> Forall (fun i => subject i = None) l.
Proof.
  intros Hl. apply Forall_forall. intros i Hi. destruct (subject i) eqn:Hs; [| done].
  assert (Ht : holds_sharing i = true) by (apply subject_holds; congruence).
  assert (Hin : i ∈ filter (fun i => holds_sharing i = true) l) by (by apply list_elem_of_filter).
  unfold tokens in Hl. apply nil_length_inv in Hl. rewrite Hl in Hin. by apply elem_of_nil in Hin.
Qed.

(** The rest of the world, seen by a thread that takes, has or gives up the lock. *)
Lemma shape_rest held i rest others :
  share_shape held ((i :: rest) :: others) ->
  (held = false \/ holds_sharing i = true -> pending (rest ++ concat others) = [] /\ Forall (fun i => subject i = None) (rest ++ concat others)
     /\ tokens holds_sharing (rest ++ concat others) = 0)
  /\ (air i <> [] -> holds_sharing i = false -> Forall (fun i => subject i = None) (rest ++ concat others) /\ held = true).
Proof.
  intros [Ht Hg Hh]. cbn [concat app] in Ht. rewrite tokens_cons in Ht.
  pose proof (Forall_inv Hg) as [Hi Hrest]. pose proof (Forall_inv Hh) as Hhead. cbn in Hhead. split.
  - intros Hfree. assert (Hz : tokens holds_sharing (rest ++ concat others) = 0) by (destruct Hfree as [-> | Htok]; [lia | rewrite Htok in Ht; destruct held; lia]).
    split_and!; [| by apply no_subjects | done]. rewrite tokens_app in Hz. rewrite bind_app, (guarded_none air holds_sharing rest) by (done || lia).
    apply (all_guarded_none air holds_sharing); [by apply Forall_inv_tail in Hg | lia].
  - intros Ha Hno. rewrite Hno, tokens_app in Ht. assert (Hr : tokens holds_sharing rest <> 0).
    { intros Hz. apply Ha, Hi. rewrite tokens_cons, Hno. lia. }
    split; [| destruct held; [done | lia]]. apply Forall_app. split; [done |]. apply no_subjects. destruct held; lia.
Qed.

Lemma shape_step (held held' : bool) i more rest others :
  guarded air holds_sharing more -> Forall (fun i => subject i = None) (tail more) ->
  tokens holds_sharing more + (if held then 1 else 0) = (if holds_sharing i then 1 else 0) + (if held' then 1 else 0) ->
  share_shape held ((i :: rest) :: others) -> share_shape held' ((more ++ rest) :: others).
Proof.
  intros Hm Hs Hk [Ht Hg Hh]. cbn [concat app] in Ht. rewrite tokens_cons in Ht.
  apply Forall_cons in Hg as [[Hi Hrest] Hothers]. apply Forall_cons in Hh as [Hhead Hheads]. cbn in Hhead. split.
  - cbn [concat]. rewrite <- app_assoc, tokens_app. lia.
  - constructor; [by apply guarded_app | done].
  - constructor; [| done]. unfold headed. destruct more as [| j more]; [| by apply Forall_app]. destruct rest; [done | by apply Forall_cons in Hhead as [_ ?]].
Qed.
(** ** The view, section by section *)

Definition same_view (w w' : World) : Prop :=
  screen_session (screen w') = screen_session (screen w) /\ sharing_active (screen w') = sharing_active (screen w)
  /\ system_audio_capture (screen w') = system_audio_capture (screen w) /\ screen_requested (screen w') = screen_requested (screen w)
  /\ on_air (sessions w') = on_air (sessions w) /\ closed (sessions w') = closed (sessions w).

Lemma staged_same w w' i :
  screen_session (screen w') = screen_session (screen w) -> sharing_active (screen w') = sharing_active (screen w) ->
  on_air (sessions w') = on_air (sessions w) -> staged w i -> staged w' i.
Proof. unfold staged. by intros -> -> ->. Qed.

Lemma staged_none w l : Forall (fun i => subject i = None) l -> Forall (staged w) l.
Proof. intros Hl. eapply Forall_impl; [exact Hl |]. intros i Hi id Hid. congruence. Qed.

Lemma view_same w w' i more l :
  same_view w w' -> air i = [] -> i <> StopSharing -> pending more = [] -> Forall (fun i => subject i = None) more ->
  share_view w (i :: l) -> share_view w' (more ++ l).
Proof.
  intros (E1 & E2 & E3 & E4 & E5 & E6) Hi Hne Hm Hs [Ha Hp Hst Hc Hsh Ho Hw]. cbn [mbind list_bind] in Ha, Hp. rewrite Hi in Ha, Hp.
  split; unfold shown, live in *; rewrite ?bind_app, ?Hm, ?E1, ?E2, ?E3, ?E4, ?E5, ?E6; try done.
  - apply Forall_app. split; [by apply staged_none |]. apply Forall_cons in Hst as [_ Hst].
    eapply Forall_impl; [exact Hst |]. intros j. by apply staged_same.
  - intros Hact. destruct (Hw Hact) as [? | Hin]; [by left | right]. apply elem_of_cons in Hin as [<- | ?]; [done | by apply elem_of_app; right].
Qed.

(** No session is current while a thread has one. *)
Lemma view_idle w l : share_view w l -> screen_session (screen w) = None ->
  sharing_active (screen w) = false /\ system_audio_capture (screen w) = None /\ Forall (fun i => subject i = None) l.
Proof.
  intros [Ha Hp Hst Hc Hsh Ho Hw] Hn.
  assert (Hact : sharing_active (screen w) = false).
  { destruct (sharing_active (screen w)); [| done]. destruct (Hsh eq_refl) as (id & Hid & _). congruence. }
  split_and!; [done | |].
  - destruct (system_audio_capture (screen w)); [| done]. by rewrite Hc in Hact.
  - eapply Forall_impl; [exact Hst |]. intros i Hi. destruct (subject i) eqn:Hs; [| done]. destruct (Hi _ Hs) as [? _]. congruence.
Qed.

(** Something goes off the air while no sharing is active or on its way. *)
Lemma view_off w w' i more l :
  sharing_active (screen w') = false -> system_audio_capture (screen w') = None ->
  (forall x, x ∈ on_air (sessions w') -> x ∈ on_air (sessions w) /\ (x ∉ air i \/ x ∈ pending more)) ->
  (forall id, id ∈ closed (sessions w') -> id ∈ closed (sessions w) \/ Forall (fun x => x ∉ on_air (sessions w')) (tracks id)) ->
  sharing_active (screen w) = false -> Forall (fun i => subject i = None) (more ++ l) ->
  share_view w (i :: l) -> share_view w' (more ++ l).
Proof.
  intros E2 E3 Hoff Hcl Hact Hs [Ha Hp Hst Hc Hsh Ho Hw]. cbn [mbind list_bind] in Ha.
  split; rewrite ?E2, ?E3; try done.
  - intros x Hx. destruct (Hoff x Hx) as [Hx' Hx'']. rewrite bind_app. destruct (Ha x Hx') as [[? _] | Hin]; [congruence | right].
    apply elem_of_app. apply elem_of_app in Hin as [? | ?]; [| by right]. destruct Hx''; [done | by left].
  - by apply staged_none.
  - intros id Hid. destruct (Hcl id Hid) as [Hid' | ?]; [| done]. eapply Forall_impl; [by apply Ho |].
    intros x Hx Hin. by apply Hx, (Hoff x Hin).
Qed.

(** A sharing takes its next step. *)
Lemma view_stage w w' i j l :
  screen_session (screen w') = screen_session (screen w) -> sharing_active (screen w) = false -> sharing_active (screen w') = false ->
  system_audio_capture (screen w') = None ->
  (forall x, x ∈ on_air (sessions w') -> x ∈ on_air (sessions w) \/ x ∈ air j) ->
  (forall x, x ∈ air i -> x ∈ air j) ->
  (forall id, id ∈ closed (sessions w') -> id ∈ closed (sessions w) /\ Forall (fun x => x ∈ on_air (sessions w') -> x ∈ on_air (sessions w)) (tracks id)) ->
  staged w' j -> Forall (fun i => subject i = None) l ->
  share_view w (i :: l) -> share_view w' ([j] ++ l).
Proof.
  intros E1 Hact E2 E3 Hon Hair Hcl Hj Hs [Ha Hp Hst Hc Hsh Ho Hw]. cbn [mbind list_bind] in Ha. split; rewrite ?E2, ?E3; try done.
  - intros x Hx. right. cbn. apply elem_of_app. destruct (Hon x Hx) as [Hx' | ?]; [| by left].
    destruct (Ha x Hx') as [[? _] | Hin]; [congruence |]. apply elem_of_app in Hin as [? | ?]; [left; auto | by right].
  - constructor; [done | by apply staged_none].
  - intros id Hid. destruct (Hcl id Hid) as [Hid' Hsub]. specialize (Ho id Hid'). rewrite Forall_forall in *. intros x Hx Hin.
    by apply (Ho x Hx), Hsub.
Qed.
Lemma free_subjects l : free_list air holds_sharing l -> Forall (fun i => subject i = None) l.
Proof. intros [_ Hl]. by apply no_subjects. Qed.

Lemma tail_Forall {A} (P : A -> Prop) l : Forall P l -> Forall P (tail l).
Proof. by destruct 1. Qed.

Lemma shape_keep w w' i more rest others :
  sharing_held w' = sharing_held w -> holds_sharing i = false -> free_list air holds_sharing more ->
  share_shape (sharing_held w) ((i :: rest) :: others) -> share_shape (sharing_held w') ((more ++ rest) :: others).
Proof.
  intros -> Ht [Hm1 Hm2]. eapply shape_step; [by apply guarded_free | | by rewrite Hm2, Ht].
  assert (Hs : Forall (fun i => subject i = None) more) by (by apply no_subjects). by apply tail_Forall.
Qed.

(** A section of a thread that neither takes the sharing lock nor has it. *)
Lemma neutral_step w w' i more rest others :
  same_view w w' -> sharing_held w' = sharing_held w -> air i = [] -> holds_sharing i = false -> i <> StopSharing ->
  free_list air holds_sharing more -> share_ok w ((i :: rest) :: others) -> share_ok w' ((more ++ rest) :: others).
Proof.
  intros Hv Hh Hi Ht Hne Hm [Hshape Hview]. split; [by apply (shape_keep w _ i) |].
  cbn [concat app] in *. rewrite <- app_assoc. apply (view_same w w' i); try done; [apply Hm | by apply free_subjects].
Qed.

(** A section of the thread that has an unpublished session. *)
Lemma held_none w i rest others id :
  session_ok w ((i :: rest) :: others) -> held_session i = [id] -> screen_session (screen w) = None.
Proof. intros [Hl _] Hi. by apply (held_alone (life w) (wanted w) i rest others); [rewrite Hi | ]. Qed.

Lemma tracks_off (A : gset Source) id : Forall (fun x => x ∉ A ∖ {[Desktop id; VideoTrack id; SystemTrack id]}) (tracks id).
Proof. unfold tracks. rewrite !Forall_cons. split_and!; try done; set_solver. Qed.

Lemma session_section i answer rest others w w' more id :
  session_ok w ((i :: rest) :: others) -> held_session i = [id] -> exec i answer w = Some (w', more) ->
  share_ok w ((i :: rest) :: others) -> share_ok w' ((more ++ rest) :: others).
Proof.
  intros Hok Hi He [Hshape Hview]. pose proof (held_none _ _ _ _ _ Hok Hi) as Hn.
  destruct (view_idle w _ Hview Hn) as (Hact & Hcap & Hsub). cbn [concat app] in *. apply Forall_cons in Hsub as [_ Hsub].
  assert (Hclose : forall more, free_list air holds_sharing more -> i <> StopSharing -> sharing_held w = sharing_held w' ->
    w' = with_sessions (close_session id (sessions w)) w -> share_ok w' ((more ++ rest) :: others)).
  { intros m Hm _ Hh ->. split; [apply (shape_keep w _ i); [done | by destruct i | done | exact Hshape] |]. cbn [concat]. rewrite <- app_assoc.
    apply (view_off w _ i); try done.
    - cbn. intros x [Hx Hno]%elem_of_difference. split; [done |]. left. destruct i; try done; cbn in *; try by intros ?%elem_of_nil.
      injection Hi as ->. unfold tracks. set_solver.
    - cbn. intros id' [->%elem_of_singleton | ?]%elem_of_union; [right; apply tracks_off | by left].
    - apply Forall_app. split; [by apply free_subjects | done]. }
  destruct i; try done; cbn in Hi; injection Hi as ->; cbn [ClientScreen.exec] in He; revert He; unfold start_session, publish.
  - destruct (negb _); intros [= <- <-]; [by apply Hclose |].
    by apply (neutral_step w _ (StartSession id local_preview)).
  - destruct (_ && _); intros [= <- <-]; [| by apply (neutral_step w _ (Publish id))].
    assert (Hm : forall l peers, free_list air holds_sharing ((ApplyAudio <$> l) ++ ((fun p => Tell (SendWatchStart p)) <$> peers)))
      by (intros; apply free_app; [by apply free_map | by apply free_map]).
    split; [by apply (shape_keep w _ (Publish id)) |]. cbn [concat]. rewrite <- app_assoc. apply (view_off w _ (Publish id)); try done.
    + cbn. intros x Hx. split; [done |]. left. by intros ?%elem_of_nil.
    + cbn. intros id' ?. by left.
    + apply Forall_app. split; [by apply free_subjects | done].
  - intros [= <- <-]. by apply (Hclose []).
  - intros [= <- <-]. by apply (Hclose []).
Qed.

(** The instructions that have nothing to do with sharing. *)
Definition neutral (i : Instr) : bool :=
  match i with
  | StartScreen | StartPlayout | ApplyAudio _ | Tell _ | StopPlayout | Unlock | RememberRequest _ | ForgetRequest | StopWatching _
  | ChangePreview _ | SetPreview _ _ | Recover _ | RecoveryDone | RequestStats _ _ | StatsFailed _ => true
  | _ => false
  end.

Lemma neutral_section i answer rest others w w' more :
  neutral i = true -> exec i answer w = Some (w', more) -> share_ok w ((i :: rest) :: others) -> share_ok w' ((more ++ rest) :: others).
Proof.
  intros Hn He Hok. revert He. destruct i; try done; cbn [ClientScreen.exec];
    unfold start_screen_if_requested, recover_screen_session, stop_watching, change_preview, request_stats;
    branches; intros [= <- <-]; (eapply neutral_step; [| | | | | | exact Hok]; try done; plain).
Qed.

Lemma pending_off offs : pending (SwitchOff <$> offs) = offs.
Proof. induction offs as [| x l IH]; [done |]. cbn in *. by f_equal. Qed.

Section Token.
Variables (w : World) (i : Instr) (rest : list Instr) (others : list (list Instr)).
Hypothesis Hok : share_ok w ((i :: rest) :: others).

Lemma no_capture : sharing_active (screen w) = false -> system_audio_capture (screen w) = None.
Proof.
  intros Hact. destruct Hok as [_ Hview]. pose proof (sh_capture _ _ Hview) as Hc.
  destruct (system_audio_capture (screen w)); [| done]. by rewrite Hc in Hact.
Qed.

Lemma share_step w' more :
  guarded air holds_sharing more -> Forall (fun j => subject j = None) (tail more) ->
  tokens holds_sharing more + (if sharing_held w then 1 else 0) = (if holds_sharing i then 1 else 0) + (if sharing_held w' then 1 else 0) ->
  share_view w' (more ++ (rest ++ concat others)) -> share_ok w' ((more ++ rest) :: others).
Proof.
  intros Hg Hs Ht Hv. split; [| by cbn [concat]; rewrite <- app_assoc]. eapply shape_step; [done | done | exact Ht | apply Hok].
Qed.

Lemma holder_held : holds_sharing i = true -> sharing_held w = true.
Proof.
  intros Ht. pose proof (sh_tokens _ _ (proj1 Hok)) as Hk. cbn [concat app] in Hk. rewrite tokens_cons, Ht in Hk. by destruct (sharing_held w).
Qed.

(** The rest of the world while the lock is free, or this thread's. *)
Lemma rest_free : sharing_held w = false \/ holds_sharing i = true ->
  pending (rest ++ concat others) = [] /\ Forall (fun j => subject j = None) (rest ++ concat others).
Proof.
  intros Hfree. destruct (shape_rest _ _ _ _ (proj1 Hok)) as [Hrest _]. by destruct (Hrest Hfree) as (? & ? & _).
Qed.

Lemma view_now : share_view w (i :: (rest ++ concat others)).
Proof. apply Hok. Qed.

(** The thread that has the lock goes on to [j]. *)
Lemma stage_step w' j :
  holds_sharing j = true -> (sharing_held w = false \/ holds_sharing i = true) -> sharing_held w' = true ->
  screen_session (screen w') = screen_session (screen w) -> sharing_active (screen w) = false -> sharing_active (screen w') = false ->
  system_audio_capture (screen w') = None ->
  (forall x, x ∈ on_air (sessions w') -> x ∈ on_air (sessions w) \/ x ∈ air j) ->
  (forall x, x ∈ air i -> x ∈ air j) ->
  (forall id, id ∈ closed (sessions w') -> id ∈ closed (sessions w) /\ Forall (fun x => x ∈ on_air (sessions w') -> x ∈ on_air (sessions w)) (tracks id)) ->
  staged w' j -> share_ok w' (([j] ++ rest) :: others).
Proof.
  intros Hj Hfree Hh E1 Hact E2 E3 Hon Hair Hcl Hst. destruct (rest_free Hfree) as [_ Hs]. apply share_step.
  - by destruct j.
  - done.
  - rewrite tokens_cons, Hj, Hh. pose proof (sh_tokens _ _ (proj1 Hok)) as Ht. cbn [concat app] in Ht. rewrite tokens_cons in Ht.
    destruct (holds_sharing i), (sharing_held w); cbn; (lia || by destruct Hfree).
  - by eapply view_stage; [.. | exact view_now].
Qed.
(** The thread that has the lock gives up: it will switch off what it had on. *)
Lemma abandon_step offs resuming :
  subject i <> None -> sharing_active (screen w) = false -> (forall x, x ∈ air i -> x ∈ offs) ->
  share_ok w ((((SwitchOff <$> offs) ++ not_shared resuming) ++ rest) :: others).
Proof.
  intros Hsub Hact Hair. assert (Htok : holds_sharing i = true) by (by apply subject_holds).
  destruct (rest_free (or_intror Htok)) as [_ Hs].
  assert (Hnot : Forall (fun j => subject j = None) ((SwitchOff <$> offs) ++ not_shared resuming)).
  { apply Forall_app. split; [by apply Forall_fmap, Forall_true | by destruct resuming; repeat constructor]. }
  apply share_step.
  - apply guarded_push; [by destruct resuming | by destruct resuming].
  - by apply tail_Forall.
  - rewrite tokens_app, Htok. assert (Hz : tokens holds_sharing (SwitchOff <$> offs) = 0) by (apply tokens_none, Forall_fmap, Forall_true; done).
    rewrite Hz. by destruct resuming.
  - apply (view_off w w i); try done.
    + by apply no_capture.
    + intros x Hx. split; [done |]. destruct (decide (x ∈ air i)); [right | by left]. rewrite bind_app, pending_off. apply elem_of_app. left. auto.
    + intros id Hid. by left.
    + by apply Forall_app.
    + apply view_now.
Qed.

End Token.

Lemma take_section answer r resuming rest others w w' more :
  share_ok w ((Share r resuming :: rest) :: others) -> exec (Share r resuming) answer w = Some (w', more) ->
  share_ok w' ((more ++ rest) :: others).
Proof.
  intros Hok He. assert (Hno : forall l, l = (if resuming then [ForgetRequest] else []) -> share_ok w ((l ++ rest) :: others)).
  { intros l ->. eapply neutral_step; [| | | | | | exact Hok]; try done. by destruct resuming. }
  cbn [ClientScreen.exec] in He. unfold apply_sharing in He. destruct (sharing_held w) eqn:Hheld; [done |].
  destruct (_ || _) eqn:Hgo; [injection He as <- <-; by apply Hno |]. apply orb_false_elim in Hgo as [Hact _].
  destruct (screen_session (screen w)) as [id |] eqn:Hid; injection He as <- <-; [| by apply Hno].
  eapply (stage_step _ _ _ _ Hok); try done; [by left | exact (no_capture _ _ _ _ Hok Hact) | by left | |].
  - intros id' Hid'. split; [done |]. by repeat constructor.
  - intros id' [= <-]. by repeat constructor.
Qed.

(** What a sharing's thread knows. *)
Lemma subject_facts w i rest others id :
  share_ok w ((i :: rest) :: others) -> subject i = Some id ->
  screen_session (screen w) = Some id /\ sharing_active (screen w) = false /\ system_audio_capture (screen w) = None
  /\ Forall (fun x => x ∈ on_air (sessions w)) (stage i) /\ sound_ok i /\ (forall x, x ∈ tracks id -> x ∈ on_air (sessions w) -> id ∉ closed (sessions w)).
Proof.
  intros Hok Hs. pose proof (view_now _ _ _ _ Hok) as Hview. pose proof (Forall_inv (sh_staged _ _ Hview)) as Hst.
  destruct (Hst id Hs) as (H1 & H2 & H3 & H4). split_and!; try done; [exact (no_capture _ _ _ _ Hok H2) |].
  intros x Hx Hon Hcl. pose proof (sh_open _ _ Hview id Hcl) as Ho. rewrite Forall_forall in Ho. by apply (Ho x).
Qed.

Lemma capture_section answer id r resuming rest others w w' more :
  share_ok w ((StartCapture id r resuming :: rest) :: others) -> exec (StartCapture id r resuming) answer w = Some (w', more) ->
  share_ok w' ((more ++ rest) :: others).
Proof.
  intros Hok He. destruct (subject_facts _ _ _ _ id Hok eq_refl) as (Hid & Hact & Hcap & _). cbn in He. injection He as He.
  revert He. unfold start_capture. destruct (_ || _) eqn:Hgo; intros [= <- <-].
  - apply (abandon_step _ _ _ _ Hok [] resuming); try done.
  - apply orb_false_elim in Hgo as [_ Hopen%bool_decide_eq_false].
    assert (Hj : forall j, ((j = StartSound id r resuming /\ share_audio r = true) \/ (j = EnableSound id None r resuming /\ share_audio r = false)) ->
      share_ok (with_sessions (switch_on (VideoTrack id) (switch_on (Desktop id) (sessions w))) w) (([j] ++ rest) :: others)).
    { intros j Hj. eapply (stage_step _ _ _ _ Hok); try done; cbn.
      - by destruct Hj as [[-> _] | [-> _]].
      - by right.
      - exact (holder_held _ _ _ _ Hok eq_refl).
      - intros x Hx. destruct Hj as [[-> _] | [-> _]]; cbn; set_solver.
      - set_solver.
      - intros id' Hid'. split; [done |]. unfold tracks. rewrite !Forall_cons. split_and!; try done; set_solver.
      - intros id' Hs. assert (id' = id) as -> by (destruct Hj as [[-> _] | [-> _]]; by injection Hs). cbn. split_and!; try done.
        + destruct Hj as [[-> _] | [-> _]]; cbn; rewrite !Forall_cons; split_and!; try done; set_solver.
        + destruct Hj as [[-> Hsa] | [-> Hsa]]; cbn; [done |]. rewrite Hsa. by split; [intros [] |]. }
    destruct (share_audio r) eqn:Hsa; apply Hj; auto.
Qed.

Lemma sound_section answer id r resuming rest others w w' more :
  share_ok w ((StartSound id r resuming :: rest) :: others) -> exec (StartSound id r resuming) answer w = Some (w', more) ->
  share_ok w' ((more ++ rest) :: others).
Proof.
  intros Hok He. destruct (subject_facts _ _ _ _ id Hok eq_refl) as (Hid & Hact & Hcap & Hon & Hsa & Hopen). cbn in He. injection He as He.
  cbn in Hon. rewrite !Forall_cons in Hon. destruct Hon as (Hd & Hv & _).
  revert He. unfold start_sound. destruct (negb _); intros [= <- <-].
  - by apply (abandon_step _ _ _ _ Hok [Desktop id; VideoTrack id] resuming).
  - eapply (stage_step _ _ _ _ Hok); try done; cbn.
    + by right.
    + exact (holder_held _ _ _ _ Hok eq_refl).
    + set_solver.
    + set_solver.
    + intros id' Hid'. split; [done |]. unfold tracks. rewrite !Forall_cons. split_and!; try done; set_solver.
    + intros id' [= <-]. cbn. split_and!; try done. rewrite !Forall_cons. split_and!; try done; set_solver.
Qed.
Lemma enable_section answer id capture r resuming rest others w w' more :
  share_ok w ((EnableSound id capture r resuming :: rest) :: others) ->
  exec (EnableSound id capture r resuming) answer w = Some (w', more) -> share_ok w' ((more ++ rest) :: others).
Proof.
  intros Hok He. destruct (subject_facts _ _ _ _ id Hok eq_refl) as (Hid & Hact & Hcap & Hon & Hsound & Hopen). cbn in He. injection He as <- <-.
  cbn [stage app] in Hon. rewrite !Forall_cons in Hon. destruct Hon as (Hd & Hv & Hs).
  assert (Hcl : bool_decide (id ∈ closed (sessions w)) = false) by (apply bool_decide_eq_false, (Hopen (Desktop id)); [left | done]).
  rewrite Hcl. eapply (stage_step _ _ _ _ Hok); try done; cbn [screen sessions with_sessions].
  - by right.
  - exact (holder_held _ _ _ _ Hok eq_refl).
  - intros x. destruct (share_audio r); cbn; set_solver.
  - cbn. set_solver.
  - destruct (share_audio r); cbn; intros id' Hid'; (split; [done |]); unfold tracks; rewrite !Forall_cons; split_and!; try done;
      try set_solver.
  - intros id' [= <-]. split_and!; try done. cbn [stage sessions with_sessions].
    destruct (share_audio r); cbn [app]; rewrite !Forall_cons; (split_and!; [cbn; set_solver.. |]); destruct capture as [c |];
      cbn in Hs |- *; rewrite ?Forall_singleton in *; try done; set_solver.
Qed.

Lemma publish_section answer id capture r resuming rest others w w' more :
  share_ok w ((PublishShare id capture r resuming :: rest) :: others) ->
  exec (PublishShare id capture r resuming) answer w = Some (w', more) -> share_ok w' ((more ++ rest) :: others).
Proof.
  intros Hok He. destruct (subject_facts _ _ _ _ id Hok eq_refl) as (Hid & Hact & Hcap & Hon & Hsound & Hopen). cbn in He. injection He as He.
  pose proof (view_now _ _ _ _ Hok) as Hview.
  destruct (rest_free _ _ _ _ Hok (or_intror eq_refl)) as [Hfree Hsub]. revert He. unfold publish_share.
  rewrite Hact, Hid, bool_decide_true, andb_true_r, andb_true_r by done.
  destruct (screen_requested (screen w)) eqn:Hreq; intros [= <- <-].
  2: { match goal with |- share_ok w ((?l ++ _) :: _) =>
         replace l with ((SwitchOff <$> (sound capture ++ [SystemTrack id; VideoTrack id; Desktop id])) ++ not_shared resuming) by (by destruct capture)
       end.
       apply (abandon_step _ _ _ _ Hok); try done. cbn. set_solver. }
  assert (Hnone : Forall (fun j => subject j = None) (shared r resuming)) by (by destruct resuming; repeat constructor).
  cbn [stage app] in Hon. rewrite !Forall_cons in Hon. destruct Hon as (Hd & Hv & Hs).
  eapply (share_step _ _ _ _ Hok).
  - by destruct resuming.
  - by apply tail_Forall.
  - cbn [sharing_held with_screen holds_sharing]. by destruct resuming.
  - split.
    + cbn [sessions with_screen]. intros x Hx. left. split; [done |]. destruct (sh_air _ _ Hview x Hx) as [[? _] | Hin]; [congruence |].
      cbn [mbind list_bind] in Hin. rewrite Hfree, app_nil_r in Hin. cbn in Hin. rewrite !elem_of_cons in Hin.
      destruct Hin as [-> | [-> | [-> | Hin]]]; [done.. |]. destruct capture as [c |]; cbn in Hin; [| by apply elem_of_nil in Hin].
      by apply list_elem_of_singleton in Hin as ->.
    + intros Hne. destruct Hne. rewrite bind_app, Hfree. by destruct resuming.
    + apply staged_none. by apply Forall_app.
    + done.
    + intros _. exists id. split_and!; try done. cbn [screen with_screen with_sharing system_audio_capture sessions].
      intros c ->. cbn in Hsound. destruct Hsound as [Hsa _]. rewrite Hsa in Hs by eauto.
      cbn in Hs. rewrite !Forall_cons in Hs. by destruct Hs as (? & ? & _).
    + apply (sh_open _ _ Hview).
    + by left.
Qed.

Lemma unlock_section answer rest others w w' more :
  share_ok w ((UnlockSharing :: rest) :: others) -> exec UnlockSharing answer w = Some (w', more) -> share_ok w' ((more ++ rest) :: others).
Proof.
  intros Hok He. cbn in He. injection He as <- <-. pose proof (holder_held _ _ _ _ Hok eq_refl) as Hh.
  eapply (share_step _ _ _ _ Hok); try done; [by cbn; rewrite Hh |].
  apply (view_same w _ UnlockSharing); try done. apply (view_now _ _ _ _ Hok).
Qed.

Lemma off_section answer x rest others w w' more :
  share_ok w ((SwitchOff x :: rest) :: others) -> exec (SwitchOff x) answer w = Some (w', more) -> share_ok w' ((more ++ rest) :: others).
Proof.
  intros Hok He. cbn in He. injection He as <- <-. pose proof (view_now _ _ _ _ Hok) as Hview.
  destruct (shape_rest _ _ _ _ (proj1 Hok)) as [_ Hoff]. destruct Hoff as [Hsub Hheld]; [done | done |].
  assert (Hact : sharing_active (screen w) = false) by (by apply (sh_pending _ _ Hview)).
  eapply (share_step _ _ _ _ Hok); try done.
  apply (view_off w _ (SwitchOff x)); try done; cbn.
  - exact (no_capture _ _ _ _ Hok Hact).
  - intros y [Hy Hne]%elem_of_difference. split; [done |]. left. by intros Hin%list_elem_of_singleton; apply Hne, elem_of_singleton.
  - intros id Hid. by left.
Qed.
(** Everything that is on the air, when the lock is free, is the current sharing's. *)
Lemma free_view w i rest others :
  share_ok w ((i :: rest) :: others) -> sharing_held w = false -> forall x, x ∈ on_air (sessions w) ->
  air i = [] -> sharing_active (screen w) = true /\ live (screen w) x.
Proof.
  intros Hok Hheld x Hx Hi. destruct (rest_free _ _ _ _ Hok (or_introl Hheld)) as [Hfree _].
  destruct (sh_air _ _ (view_now _ _ _ _ Hok) x Hx) as [? | Hin]; [done |].
  cbn [mbind list_bind] in Hin. rewrite Hi, Hfree in Hin. by apply elem_of_nil in Hin.
Qed.

(** The sharing is given up under the lock: [more] will switch off what is on. *)
Lemma clear_step w w' i more rest others :
  share_ok w ((i :: rest) :: others) -> sharing_held w = false -> sharing_held w' = true -> air i = [] -> holds_sharing i = false ->
  guarded air holds_sharing more -> tokens holds_sharing more = 1 -> Forall (fun j => subject j = None) more ->
  sharing_active (screen w') = false -> system_audio_capture (screen w') = None -> sessions w' = sessions w ->
  (forall x, live (screen w) x -> x ∈ pending more) -> share_ok w' ((more ++ rest) :: others).
Proof.
  intros Hok Hheld Hheld' Hi Ht Hg Hm Hs E2 E3 Es Hcover. pose proof (view_now _ _ _ _ Hok) as Hview.
  destruct (rest_free _ _ _ _ Hok (or_introl Hheld)) as [Hfree Hsub].
  eapply (share_step _ _ _ _ Hok); [done | by apply tail_Forall | by rewrite Hheld, Hheld', Ht, Hm |].
  split; rewrite ?E2, ?E3, ?Es; try done.
  - intros x Hx. right. rewrite bind_app. apply elem_of_app. left. by apply Hcover, (free_view _ _ _ _ Hok).
  - apply staged_none. by apply Forall_app.
  - apply (sh_open _ _ Hview).
Qed.

Lemma sharing_rest_cover v x : live v x -> x ∈ pending (stop_sharing_rest on_frame_removed v).
Proof.
  unfold stop_sharing_rest. rewrite !bind_app, !elem_of_app. destruct x as [id | id | id | c]; cbn [live]; intros Hx; rewrite Hx; cbn; set_solver.
Qed.

Lemma sharing_rest_free v :
  tokens holds_sharing (stop_sharing_rest on_frame_removed v) = 0 /\ Forall (fun j => subject j = None) (stop_sharing_rest on_frame_removed v).
Proof.
  assert (Hz : tokens holds_sharing (stop_sharing_rest on_frame_removed v) = 0); [| split; [done | by apply no_subjects]].
  pose proof (free_preview on_frame_removed air holds_sharing v) as [_ Hp]. unfold stop_sharing_rest.
  rewrite !tokens_app, Hp. by destruct (screen_session v), (system_audio_capture v), (sharing_active v).
Qed.

Lemma stop_rest_cover v x : live v x -> x ∈ pending (stop_rest on_frame_removed v).
Proof.
  unfold stop_rest. rewrite !bind_app, !elem_of_app. destruct x as [id | id | id | c]; cbn [live]; intros Hx; rewrite Hx; cbn; set_solver.
Qed.

Lemma stop_rest_free v :
  tokens holds_sharing (stop_rest on_frame_removed v) = 0 /\ Forall (fun j => subject j = None) (stop_rest on_frame_removed v).
Proof.
  assert (Hz : tokens holds_sharing (stop_rest on_frame_removed v) = 0); [| split; [done | by apply no_subjects]].
  pose proof (free_preview on_frame_removed air holds_sharing v) as [_ Hp].
  pose proof (free_all_frames on_frame_removed air holds_sharing (shown_peers v)) as [_ Hf]. unfold stop_rest.
  rewrite !tokens_app, Hp, Hf. by destruct (screen_session v), (system_audio_capture v).
Qed.

Lemma stop_sharing_section answer rest others w w' more :
  share_ok w ((StopSharing :: rest) :: others) -> exec StopSharing answer w = Some (w', more) -> share_ok w' ((more ++ rest) :: others).
Proof.
  intros Hok He. cbn in He. revert He. unfold stop_sharing. destruct (sharing_held w) eqn:Hheld; [done |]. intros [= <- <-].
  destruct (sharing_rest_free (screen w)) as [Hz Hs].
  apply (clear_step w _ StopSharing); try done.
  - by apply guarded_push.
  - by rewrite tokens_app, Hz.
  - apply Forall_app. split; [done | by repeat constructor].
  - intros x Hx. rewrite bind_app. apply elem_of_app. left. by apply sharing_rest_cover.
Qed.

Lemma stop_screen_section answer rest others w w' more :
  share_ok w ((StopScreen :: rest) :: others) -> exec StopScreen answer w = Some (w', more) -> share_ok w' ((more ++ rest) :: others).
Proof.
  intros Hok He. cbn in He. revert He. unfold stop_screen_session. destruct (lifecycle_held w); [done |].
  destruct (sharing_held w) eqn:Hheld; [done |]. intros [= <- <-]. destruct (stop_rest_free (screen w)) as [Hz Hs].
  apply (clear_step w _ StopScreen); try done.
  - by apply guarded_push.
  - by rewrite tokens_app, Hz.
  - apply Forall_app. split; [done | by repeat constructor].
  - intros x Hx. rewrite bind_app. apply elem_of_app. left. by apply stop_rest_cover.
Qed.

Lemma exec_sharing i answer rest others w w' more :
  session_ok w ((i :: rest) :: others) -> share_ok w ((i :: rest) :: others) -> exec i answer w = Some (w', more) ->
  share_ok w' ((more ++ rest) :: others).
Proof.
  intros Hses Hok He. destruct (held_session i) as [| id [| ]] eqn:Hheld; [| by eapply session_section | by destruct i].
  destruct (neutral i) eqn:Hn; [by eapply neutral_section |].
  destruct i; try done; eauto using take_section, capture_section, sound_section, enable_section, publish_section, unlock_section,
    off_section, stop_sharing_section, stop_screen_section.
Qed.

Lemma run_sharing acts : share_ok (run acts) (threads (run acts)).
Proof.
  apply (run_invariant on_frame on_frame_removed local_id (fun _ _ => true) share_ok).
  - intros ts' w ts [Hs [Ha Hpe Hst Hc Hsh Ho Hw]]. by split; [| split].
  - intros w ts ts' Hp [[Ht Hg Hh] [Ha Hpe Hst Hc Hsh Ho Hw]]. pose proof (concat_perm _ _ Hp) as Hc'. split; split; try done.
    + by rewrite <- (tokens_perm holds_sharing _ _ Hc').
    + by rewrite <- Hp.
    + by rewrite <- Hp.
    + intros x Hx. rewrite <- Hc'. by apply Ha.
    + intros Hne. apply Hpe. intros Hnil. apply Hne. apply Permutation_nil_r. by rewrite <- Hc', Hnil.
    + by rewrite <- Hc'.
    + by rewrite <- Hc'.
  - intros w ts [[Ht Hg Hh] Hv]. apply Forall_cons in Hg as [_ Hg]. apply Forall_cons in Hh as [_ Hh]. by split; [split |].
  - intros a w l w0 _ (_ & Ht & Hl & (_ & _ & Hheld) & (E1 & E2 & E3) & (E5 & E6) & Hreq & _) [[Htk Hg Hh] [Ha Hpe Hst Hc Hsh Ho Hw]].
    assert (Hfree : free_list air holds_sharing l).
    { clear - Hl. induction Hl as [| i l Hi _ IH]; [done |]. by apply free_cons; [destruct i | destruct i |]. }
    split; [split | split]; rewrite ?Hheld, ?E1, ?E2, ?E3, ?E5, ?E6; cbn [concat]; rewrite ?bind_app, ?tokens_app, ?(proj1 Hfree), ?(proj2 Hfree); try done.
    + constructor; [by apply free_guarded | done].
    + constructor; [by apply tail_Forall, free_subjects | done].
    + intros x Hx. destruct (Ha x Hx) as [[? Hlive] | ?]; [left | by right]. split; [done |]. destruct x; cbn in *; congruence.
    + apply Forall_app. split; [by apply staged_none, free_subjects |]. eapply Forall_impl; [exact Hst |]. intros i. by apply staged_same.
    + intros Hact. destruct (Hsh Hact) as (id & Hid & Hd & Hv & Hsound). exists id. by rewrite E1, E3, E5.
    + intros Hact. destruct Hreq as [-> | [-> | Hin]]; [| by left | right; apply elem_of_app; by left].
      destruct (Hw Hact); [by left | right; apply elem_of_app; by right].
  - intros i answer rest others w w' more. apply exec_sharing.
  - split; split; try done. by intros [].
  - apply allowed_all.
Qed.

(** C23 However the application, the transport, the sessions and the recovery
    interleave, whenever no thread holds the sharing lock: what captures the screen
    or the sound, or sends it, belongs to the current session, whose sharing is
    active; while sharing is active that session captures and sends the screen, and
    the sound if it is shared; and when no thread is at work, sharing is only active
    while the user wants screens. *)
Theorem sharing_private acts :
  let w := run acts in
  sharing_held w = false ->
  (forall x, x ∈ on_air (sessions w) -> sharing_active (screen w) = true /\ live (screen w) x)
  /\ (sharing_active (screen w) = true -> shown w)
  /\ (threads w = [] -> sharing_active (screen w) = true -> screen_requested (screen w) = true).
Proof.
  intros w Hheld. destruct (run_sharing acts) as [[Ht Hg _] [Ha _ _ _ Hsh _ Hw]]. fold w in Ht, Hg, Ha, Hsh, Hw. rewrite Hheld in Ht.
  split_and!.
  - intros x Hx. destruct (Ha x Hx) as [? | Hin]; [done |]. rewrite (all_guarded_none air holds_sharing) in Hin by done. by apply elem_of_nil in Hin.
  - done.
  - intros Hidle Hact. destruct (Hw Hact) as [? | Hin]; [done |]. rewrite Hidle in Hin. by apply elem_of_nil in Hin.
Qed.
End Sharing.

(** ** Samples *)

Definition yes (_ : nat) : bool := true.
Definition go (n : nat) : list Act := replicate n (Resumes 0 yes).

Definition sample_request : SharingRequest := mkRequest (mkSelection CaptureScreen 1) 0 0 30 true "".

(** A session that is published, and a sharing with sound. *)
Definition up : list Act := [SignalingChanges true; CallInit] ++ go 7.
Definition sharing : list Act := up ++ [CallStartSharing (Some sample_request)] ++ go 8.

Abbreviation sample_run := (run true true "me").

Lemma sharing_private_witness :
  let w := sample_run sharing in
  sharing_held w = false /\ sharing_active (screen w) = true /\ shown w /\ screen_requested (screen w) = true.
Proof.
  destruct (sharing_private true true "me" sharing) as (_ & Hshown & Hreq); [reflexivity |].
  split_and!; [reflexivity | reflexivity | by apply Hshown | by apply Hreq].
Defined.

(** Recovery remembers the sharing before it stops the session: a stop of the user
    in between is undone, and his screen is shown again. *)
Lemma stop_undone :
  let w := sample_run (sharing ++ [SessionFails 0; RecoveryRuns] ++ go 1 ++ [CallStopSharing] ++ go 40) in
  threads w = [] /\ sharing_active (screen w) = true /\ screen_session (screen w) = Some 1
  /\ bool_decide (Desktop 1 ∈ on_air (sessions w)) = true /\ sharing_request (screen w) = None.
Proof. by vm_compute. Qed.
