(* ===== verification/ScreenProgress.v ===== *)
(** * The client's screen threads get on, and finish

    In the runs of ClientScreen no thread waits for ever for [screen_lifecycle_mutex]
    or [sharing_mutex]: whoever has a lock does nothing that waits for one, and what
    the threads have to do is bounded by what the client knows. *)

From S2P Require Import Prelude Floats Signaling Capture ScreenStats Lifecycle ClientScreen ScreenControl ScreenSharing.

Local Open Scope nat_scope.
Local Open Scope list_scope.

Section Progress.
Variables on_frame on_frame_removed : bool.
Variable local_id : string.

Abbreviation exec := (exec on_frame_removed local_id).
Abbreviation act := (act on_frame on_frame_removed local_id).
Abbreviation run := (run on_frame on_frame_removed local_id).
Abbreviation resume := (resume on_frame_removed local_id).

(** Thread [n] has something to do and need not wait for a lock. *)
Definition moves (n : nat) (answer : nat -> bool) (w : World) : bool :=
  match threads w !! n with
  | Some (i :: _) => bool_decide (is_Some (exec i answer w))
  | _ => false
  end.

(** A schedule of threads none of which waits. *)
Fixpoint all_move (schedule : list (nat * (nat -> bool))) (w : World) : bool :=
  match schedule with
  | [] => true
  | (n, answer) :: schedule => moves n answer w && all_move schedule (resume n answer w)
  end.

(** ** Locks *)

(** What waits for a lock, or goes on with something that does. *)
Definition pauses (i : Instr) : bool :=
  match i with StartScreen | StopScreen | Share _ _ | StopSharing | ChangePreview _ | Recover _ => true | _ => false end.

(** What only a thread with a lock still has to do. *)
Definition locking (i : Instr) : bool := is_unlock i || holds_sharing i.

(** A thread gives its locks back before it waits for one. *)
Abbreviation yielding := (orderly locking pauses).

(** Nothing in the list waits. *)
Abbreviation steady := (free_list (fun _ : Instr => @nil unit) pauses).

#[local] Instance steady_quiet : Quiet (fun _ : Instr => @nil unit) pauses.
Proof. by split. Qed.

Lemma begins_lockless l : Forall (fun i => begins i = true) l -> tokens locking l = 0.
Proof. intros Hl. apply tokens_none. eapply Forall_impl; [exact Hl |]. by intros []. Qed.

(** ** What a section leaves to do *)

Lemma exec_steady i answer w w' more : exec i answer w = Some (w', more) ->
  match i with Recover _ => tokens locking more = 0 | _ => steady more end.
Proof.
  destruct i; cbn [ClientScreen.exec]; unfold start_screen_if_requested, start_session, publish, stop_screen_session, recover_screen_session,
    apply_sharing, start_capture, start_sound, enable_sound, publish_share, stop_sharing, stop_watching, change_preview, request_stats;
    branches; intros [= <- <-]; try done; unfold stop_rest, stop_sharing_rest, shared, not_shared; plain; branches; plain.
Qed.

Lemma exec_yielding i answer w w' more rest :
  exec i answer w = Some (w', more) -> yielding (i :: rest) -> yielding (more ++ rest).
Proof.
  intros He. pose proof (exec_steady _ _ _ _ _ He) as Hm. apply orderly_step.
  - apply orderly_none. destruct i; (by right) || (left; by destruct Hm).
  - intros Hi. by destruct i; destruct Hm.
Qed.

Lemma run_yielding acts : Forall yielding (threads (run acts)).
Proof.
  apply (run_invariant on_frame on_frame_removed local_id (fun _ _ => true) (fun _ => Forall yielding)).
  - done.
  - intros _ ts ts' Hp Hts. by rewrite <- Hp.
  - intros _ ts Hts. by apply Forall_cons in Hts as [_ ?].
  - intros a w l w0 _ (_ & _ & Hl & _) Hts. constructor; [by apply orderly_none; right; apply begins_lockless | done].
  - intros i answer rest others w w' more _ [Hi Hts]%Forall_cons He. constructor; [by eapply exec_yielding | done].
  - done.
  - apply allowed_all.
Qed.

(** What waits, waits for a lock. *)
Lemma exec_waits i answer w : exec i answer w = None -> pauses i = true /\ (lifecycle_held w = true \/ sharing_held w = true).
Proof.
  destruct i; cbn [ClientScreen.exec]; unfold start_screen_if_requested, stop_screen_session, apply_sharing, stop_sharing, change_preview;
    destruct (lifecycle_held w), (sharing_held w); cbn [orb]; branches; intros Hn; try done; auto.
Qed.

Lemma threads_busy acts : Forall (fun t => t <> []) (threads (run acts)).
Proof.
  unfold ClientScreen.run. assert (Hnew : Forall (fun t => t <> []) (threads new_world)) by done. revert Hnew. generalize new_world.
  assert (Hspawn : forall l w, Forall (fun t => t <> []) (threads w) -> Forall (fun t => t <> []) (threads (spawn l w)))
    by (intros [] w Hw; [done | by constructor]).
  induction acts as [| a acts IH]; intros w Hw; [done |]. apply IH. clear IH. destruct (act_cases a) as [(n & answer & ->) | Hno].
  - cbn [ClientScreen.act]. unfold ClientScreen.resume. destruct (threads w !! n) as [[| i rest] |] eqn:Hn; [done | | done].
    destruct (ClientScreen.exec _ _ i answer w) as [[w' more] |]; [| done]. apply Hspawn. cbn [threads with_threads].
    pose proof (delete_Permutation _ _ _ Hn) as Hp. rewrite Hp in Hw. by apply Forall_cons in Hw as [_ ?].
  - destruct (act_begins on_frame on_frame_removed local_id a w Hno) as (l & w0 & -> & Ht & _). apply Hspawn. by rewrite Ht.
Qed.

(** The thread with a lock does not wait. *)
Lemma holder_moves t answer w : yielding t -> tokens locking t <> 0 -> exists i rest, t = i :: rest /\ is_Some (exec i answer w).
Proof.
  destruct t as [| i rest]; [done |]. intros [Hi _] Ht. exists i, rest. split; [done |].
  destruct (exec i answer w) eqn:He; [by eexists |]. destruct (exec_waits _ _ _ He) as [Hp _].
  destruct Ht. rewrite tokens_cons, (Hi Hp). by destruct i.
Qed.

Lemma tokens_concat {I} (token : I -> bool) ts : tokens token (concat ts) <> 0 -> exists n t, ts !! n = Some t /\ tokens token t <> 0.
Proof.
  induction ts as [| t ts IH]; [done |]. cbn [concat]. rewrite tokens_app. intros Hz. destruct (decide (tokens token t = 0)) as [Ht | Ht].
  - destruct IH as (n & t' & Hn & Ht'); [lia |]. by exists (S n), t'.
  - by exists 0, t.
Qed.

Lemma tokens_mono {I} (p q : I -> bool) l : (forall i, p i = true -> q i = true) -> tokens p l <= tokens q l.
Proof.
  intros Hpq. induction l as [| i l IH]; [done |]. rewrite !tokens_cons. destruct (p i) eqn:Hp; [rewrite (Hpq _ Hp); lia | destruct (q i); lia].
Qed.

Lemma run_progress acts : threads (run acts) <> [] -> exists n, forall answer, moves n answer (run acts) = true.
Proof.
  intros Hne. pose proof (run_session on_frame on_frame_removed local_id acts) as [[_ _ Hlk _ _] _]. cbn [life locked] in Hlk.
  destruct (run_sharing on_frame on_frame_removed local_id acts) as [[Hsh _ _] _].
  pose proof (run_yielding acts) as Hord. pose proof (threads_busy acts) as Hbusy. revert Hne Hlk Hsh Hord Hbusy. generalize (run acts). intros w Hne Hlk Hsh Hord Hbusy.
  destruct (decide (tokens locking (concat (threads w)) = 0)) as [Hz | Hz].
  - assert (Hfree : lifecycle_held w = false /\ sharing_held w = false).
    { pose proof (tokens_mono is_unlock locking (concat (threads w))) as H1. pose proof (tokens_mono holds_sharing locking (concat (threads w))) as H2.
      unfold locking in H1, H2. rewrite Hlk in H1. rewrite Hsh in H2.
      assert (0 < 1) by lia. split; [destruct (lifecycle_held w); [| done]; exfalso; specialize (H1 ltac:(by intros i ->)); fold locking in H1; lia |].
      destruct (sharing_held w); [| done]; exfalso; specialize (H2 ltac:(intros i ->; by rewrite orb_true_r)); fold locking in H2; lia. }
    exists 0. intros answer. unfold moves. destruct (threads w) as [| [| i rest] ts] eqn:Hts; [done | by apply Forall_cons in Hbusy as [? _] |].
    cbn. apply bool_decide_eq_true. destruct (exec i answer w) eqn:He; [by eexists |]. destruct (exec_waits _ _ _ He) as [_ Hh]. destruct Hfree, Hh; congruence.
  - destruct (tokens_concat _ _ Hz) as (n & t & Hn & Ht). exists n. intros answer. unfold moves. rewrite Hn.
    destruct (holder_moves t answer w) as (i & rest & -> & Hs); [| done |]; [by apply (Forall_lookup_1 _ _ _ _ Hord Hn) |]. by apply bool_decide_eq_true.
Qed.

(** ** How much there is to do *)

(** The tracks, the peers and the bindings that the client knows. *)
Definition knows (w : World) : nat :=
  size (screen_audio_mids (screen w)) + size (watched_peers (screen w)) + size (screen_bindings (screen w)).

(** A bound on the sections that an instruction leads to, itself included, while
    the client knows no more than [n]. *)
Definition effort (n : nat) (i : Instr) : nat :=
  match i with
  | Publish _ => n + 3
  | StartSession _ _ => n + 4
  | StartScreen => n + 7
  | StopScreen => n + 8
  | PublishShare _ _ _ _ => 7
  | EnableSound _ _ _ _ => 8
  | StartSound _ _ _ => 9
  | StartCapture _ _ _ => 10
  | Share _ _ => 11
  | StopSharing => 8
  | StopWatching _ => n + 3
  | ChangePreview _ => 4
  | Recover _ => 2 * n + 28
  | RequestStats _ _ => 2
  | _ => 1
  end.

Definition efforts (n : nat) (l : list Instr) : nat := sum_list_with (effort n) l.

Lemma efforts_app n l l' : efforts n (l ++ l') = efforts n l + efforts n l'.
Proof. apply sum_list_with_app. Qed.

Lemma efforts_cons n i l : efforts n (i :: l) = effort n i + efforts n l.
Proof. done. Qed.

Lemma efforts_perm n l l' : l ≡ₚ l' -> efforts n l = efforts n l'.
Proof. unfold efforts. by intros ->. Qed.

Lemma efforts_map {A} n (f : A -> Instr) l : (forall x, effort n (f x) = 1) -> efforts n (f <$> l) = length l.
Proof. intros Hf. induction l as [| x l IH]; [done |]. rewrite fmap_cons, efforts_cons, Hf, IH. done. Qed.

Lemma length_omap_le {A B} (f : A -> option B) l : length (omap f l) <= length l.
Proof. induction l as [| x l IH]; [done |]. cbn. destruct (f x); cbn; lia. Qed.

Lemma length_dups_le `{EqDecision A} (l : list A) : length (remove_dups l) <= length l.
Proof. induction l as [| x l IH]; [done |]. cbn. destruct (decide_rel _ _ _); cbn; lia. Qed.

Lemma updates_few v : length (all_screen_updates_locked v) <= size (screen_audio_mids v).
Proof. apply length_omap_le. Qed.

Lemma shown_few v : length (shown_peers v) <= size (screen_bindings v).
Proof.
  unfold shown_peers. rewrite (Permutation_length (merge_sort_Permutation string_le _)).
  etransitivity; [apply length_dups_le |]. etransitivity; [apply length_omap_le |]. by rewrite length_map_to_list.
Qed.

Lemma efforts_frame n peer : efforts n (frame_removed on_frame_removed peer) <= 1.
Proof. unfold frame_removed. destruct on_frame_removed; cbn; lia. Qed.

Lemma efforts_frames n peers : efforts n (peers ≫= frame_removed on_frame_removed) <= length peers.
Proof.
  induction peers as [| p peers IH]; [done |]. cbn [mbind list_bind length]. rewrite efforts_app. pose proof (efforts_frame n p). lia.
Qed.

Lemma efforts_preview n v : efforts n (preview_removed on_frame_removed v) <= 1.
Proof. unfold preview_removed. destruct (String.eqb _ _); [cbn; lia | apply efforts_frame]. Qed.

Lemma efforts_stop n v : efforts n (stop_rest on_frame_removed v) <= size (screen_bindings v) + 5.
Proof.
  unfold stop_rest. rewrite !efforts_app. pose proof (efforts_frames n (shown_peers v)). pose proof (shown_few v). pose proof (efforts_preview n v).
  destruct (system_audio_capture v), (screen_session v); cbn; lia.
Qed.

Lemma efforts_stop_sharing n v : efforts n (stop_sharing_rest on_frame_removed v) <= 6.
Proof.
  unfold stop_sharing_rest. rewrite !efforts_app. pose proof (efforts_preview n v).
  destruct (system_audio_capture v), (screen_session v), (sharing_active v); cbn; lia.
Qed.

Lemma stop_watching_effort n peer w w' more :
  knows w <= n -> stop_watching on_frame_removed peer w = (w', more) -> knows w' <= n /\ efforts n more < n + 3.
Proof.
  unfold stop_watching. cbv zeta. intros Hn [= <- <-].
  assert (Hk : size (watched_peers (screen w) ∖ {[peer]}) <= size (watched_peers (screen w))) by (apply subseteq_size, subseteq_difference_l; done).
  split; [unfold knows in *; cbn; lia |]. rewrite efforts_app, efforts_map by done.
  match goal with |- length (all_screen_updates_locked ?v) + _ < _ => pose proof (updates_few v) as Hu; cbn in Hu end.
  pose proof (efforts_frame n peer). unfold knows in Hn. destruct (bool_decide _); cbn; fold (efforts n (frame_removed on_frame_removed peer)); lia.
Qed.

Lemma publish_effort n id w w' more : knows w <= n -> publish id w = (w', more) -> knows w' <= n /\ efforts n more < n + 3.
Proof.
  unfold publish. cbv zeta. intros Hn. destruct (_ && _); intros [= <- <-]; (split; [done |]); [| cbn; lia].
  rewrite efforts_app, !efforts_map by done. unfold knows in Hn.
  match goal with |- length (all_screen_updates_locked ?v) + _ < _ => pose proof (updates_few v) as Hu; cbn in Hu end.
  change (length (elements (watched_peers (screen w)))) with (size (watched_peers (screen w))). lia.
Qed.

(** A section does not add to what the client knows, and what it leaves to do is
    less than what there was. *)
Lemma exec_effort n i answer w w' more :
  knows w <= n -> exec i answer w = Some (w', more) -> knows w' <= n /\ efforts n more < effort n i.
Proof.
  intros Hn. destruct i; cbn [ClientScreen.exec effort].
  all: lazymatch goal with
    | |- Some (publish ?id _) = _ -> _ => intros He; apply (publish_effort n id w w' more Hn); congruence
    | |- Some (stop_watching _ ?peer _) = _ -> _ => intros He; apply (stop_watching_effort n peer w w' more Hn); congruence
    | _ => idtac
    end.
  all: unfold start_screen_if_requested, start_session, stop_screen_session, recover_screen_session, apply_sharing, start_capture,
    start_sound, enable_sound, publish_share, stop_sharing, change_preview, request_stats, shared, not_shared.
  all: pose proof (efforts_stop n (screen w)) as H1; pose proof (efforts_stop_sharing n (screen w)) as H2; pose proof (efforts_preview n (screen w)) as H3.
  all: branches; intros [= <- <-].
  all: (split; [unfold knows in *; cbn in *; rewrite ?size_empty, ?map_size_empty; lia |]).
  all: unfold knows in Hn; repeat (rewrite efforts_app || rewrite efforts_cons); cbn; lia.
Qed.

Lemma resume_effort m n answer w :
  knows w <= m -> moves n answer w = true ->
  knows (resume n answer w) <= m /\ efforts m (concat (threads (resume n answer w))) < efforts m (concat (threads w)).
Proof.
  unfold moves, ClientScreen.resume. intros Hk. destruct (threads w !! n) as [[| i rest] |] eqn:Hn; [done | | done].
  intros [[w' more] He]%bool_decide_eq_true. rewrite He. destruct (exec_effort m i answer w w' more Hk He) as [Hk' Hlt].
  assert (Hspawn : forall l v ts, threads v = ts -> efforts m (concat (threads (spawn l v))) = efforts m l + efforts m (concat ts)).
  { intros l v ts <-. unfold spawn. destruct l; cbn [threads with_threads concat]; [done | by rewrite efforts_app]. }
  split; [done |]. rewrite (Hspawn _ _ (delete n (threads w))) by done. pose proof (delete_Permutation _ _ _ Hn) as Hp.
  rewrite (efforts_perm m _ _ (concat_perm _ _ Hp)). cbn [concat]. rewrite !efforts_app, efforts_cons. lia.
Qed.

Lemma schedule_short m schedule w :
  knows w <= m -> all_move schedule w = true -> length schedule <= efforts m (concat (threads w)).
Proof.
  revert w. induction schedule as [| [n answer] schedule IH]; intros w Hk; cbn [length]; [lia |].
  cbn [all_move]. intros [Hm Hs]%andb_prop. destruct (resume_effort m n answer w Hk Hm) as [Hk' Hlt].
  specialize (IH _ Hk' Hs). lia.
Qed.

Lemma run_snoc acts a : run (acts ++ [a]) = act a (run acts).
Proof. unfold ClientScreen.run. by rewrite foldl_snoc. Qed.

Lemma run_drains answer acts : exists turns, threads (run (acts ++ ((fun n => Resumes n answer) <$> turns))) = [].
Proof.
  set (m := knows (run acts)). assert (Hm : knows (run acts) <= m) by lia. clearbody m.
  remember (efforts m (concat (threads (run acts)))) as k eqn:Hk. revert acts Hm Hk.
  induction k as [k IH] using lt_wf_ind. intros acts Hm ->.
  destruct (decide (threads (run acts) = [])) as [He | Hne]; [exists []; by rewrite app_nil_r |].
  destruct (run_progress acts Hne) as [n Hn]. destruct (resume_effort m n answer (run acts) Hm (Hn answer)) as [Hm' Hlt].
  destruct (IH _ Hlt (acts ++ [Resumes n answer])) as [turns Hturns]; [by rewrite run_snoc | by rewrite run_snoc |].
  exists (n :: turns). by rewrite <- app_assoc in Hturns.
Qed.

(** C32 However the application, the transport, the sessions and the recovery
    interleave, the threads of the client neither deadlock nor go on for ever:
    while there is work, some thread need not wait for a lock, whatever it is
    answered; no more sections than [efforts] says can run before something new is
    begun; and so the threads can always come to rest. *)
Theorem screen_threads_finish acts :
  let w := run acts in
  (threads w <> [] -> exists n, forall answer, moves n answer w = true)
  /\ (forall schedule, all_move schedule w = true -> length schedule <= efforts (knows w) (concat (threads w)))
  /\ (forall answer, exists turns, threads (run (acts ++ ((fun n => Resumes n answer) <$> turns))) = []).
Proof.
  intros w. split_and!; [apply run_progress | intros schedule; by apply schedule_short | intros answer; apply run_drains].
Qed.
End Progress.

(** Two threads that want the locks in turn: the bound, and what is used of it. *)
Example efforts_used :
  let w := run true true "me" (sharing ++ [CallStopSharing; CallDeinit]) in
  efforts (knows w) (concat (threads w)) = 24 /\ length (threads w) = 2
  /\ threads (run true true "me" (sharing ++ [CallStopSharing; CallDeinit] ++ go 17)) = [].
Proof. by vm_compute. Qed.
