(* ===== verification/ScreenWatch.v ===== *)
(** * The server and the statistics know what the user watches

    The runs of ClientScreen, with the messages that the server is sent: when the
    threads that concern watching are at rest, the server has been asked for the
    screens the user watches and no others.  [calm] says what must not overlap for
    that; [late_watch] is a run in which it does. *)

From S2P Require Import Prelude Floats Signaling Capture ScreenStats Lifecycle ClientScreen ScreenControl ScreenSharing.

Local Open Scope nat_scope.
Local Open Scope list_scope.

(** ** What the server has been asked for *)

(** A new connection is a new peer to the server, and what is sent without one is
    lost. *)
Record Asked := mkAsked { online : bool; asked : gset string }.

Definition hear (a : Asked) (e : Event) : Asked :=
  match e with
  | SendWatchStart peer => if online a then mkAsked true ({[peer]} ∪ asked a) else a
  | SendWatchStop peer | Rejected peer => mkAsked (online a) (asked a ∖ {[peer]})
  | Signaling b => mkAsked b ∅
  | _ => a
  end.

Definition hear_all (es : list Event) (a : Asked) : Asked := foldl hear a es.
Definition server (w : World) : Asked := hear_all (events w) (mkAsked false ∅).

(** What of a list of instructions the server will hear. *)
Definition message (i : Instr) : option Event :=
  match i with
  | Tell (SendWatchStart _ as e) | Tell (SendWatchStop _ as e) | Tell (Rejected _ as e) | Tell (Signaling _ as e) => Some e
  | _ => None
  end.

(** What the server will have been asked for when it has heard them. *)
Definition outlook (l : list Instr) (w : World) : Asked := hear_all (omap message l) (server w).

(** What concerns watching, and what of it sends messages of its own. *)
Definition tells (i : Instr) : bool := match message i with Some _ => true | None => false end.
Definition composes (i : Instr) : bool :=
  match i with StartScreen | StartSession _ _ | Publish _ | StopWatching _ | Recover _ => true | _ => false end.
Definition concerns (i : Instr) : bool := tells i || composes i || is_stop i.

Definition concerned (t : list Instr) : bool := negb (tokens concerns t =? 0).

(** What the application, the transport and the sessions begin that concerns
    watching. *)
Definition touches (a : Act) : bool :=
  match a with
  | CallInit | CallDeinit | CallJoin _ | CallLeave _ | CallLeaveAll | CallPeerStopped _ | CallRemovePeer _
  | RejectionArrives _ | SignalingChanges _ | RecoveryRuns => true
  | _ => false
  end.

(** That begins when nothing of its kind is under way; signaling comes and goes in
    turn. *)
Definition calm (a : Act) (w : World) : bool :=
  negb (touches a) || (negb (existsb concerned (threads w))
                       && match a with SignalingChanges b => negb (eqb b (connected w)) | _ => true end).

Section Watch.
Variables on_frame on_frame_removed : bool.
Variable local_id : string.

Abbreviation exec := (exec on_frame_removed local_id).
Abbreviation act := (act on_frame on_frame_removed local_id).
Abbreviation run := (run on_frame on_frame_removed local_id).
Abbreviation frame_removed := (frame_removed on_frame_removed).

(** ** Messages *)

Lemma hear_app es es' a : hear_all (es ++ es') a = hear_all es' (hear_all es a).
Proof. apply foldl_app. Qed.

Lemma hear_cons e es a : hear_all (e :: es) a = hear_all es (hear a e).
Proof. done. Qed.

Lemma hear_starts peers a :
  hear_all (SendWatchStart <$> peers) a = if online a then mkAsked true (list_to_set peers ∪ asked a) else a.
Proof.
  revert a. induction peers as [| p peers IH]; intros a.
  - destruct a as [[] s]; [| done]. cbn. by rewrite union_empty_l_L.
  - rewrite fmap_cons, hear_cons, IH. cbn [hear list_to_set]. destruct (online a) eqn:Ho; cbn [online asked]; [f_equal; set_solver | by rewrite Ho].
Qed.

Lemma hear_stops peers a : hear_all (SendWatchStop <$> peers) a = mkAsked (online a) (asked a ∖ list_to_set peers).
Proof.
  revert a. induction peers as [| p peers IH]; intros a.
  - destruct a. cbn. by rewrite difference_empty_L.
  - rewrite fmap_cons, hear_cons, IH. cbn [hear list_to_set online asked]. f_equal. set_solver.
Qed.

Lemma server_tell e w : server (tell e w) = hear (server w) e.
Proof. unfold server, hear_all. cbn. by rewrite foldl_snoc. Qed.

Lemma outlook_app l l' w : outlook (l ++ l') w = hear_all (omap message l') (outlook l w).
Proof. unfold outlook. by rewrite omap_app, hear_app. Qed.

Lemma no_messages l : tokens tells l = 0 -> omap message l = [].
Proof.
  induction l as [| i l IH]; [done |]. rewrite tokens_cons. unfold tells. cbn. destruct (message i); [lia | exact IH].
Qed.

(** ** Lists that do not concern watching *)

Abbreviation neutral := (free_list (fun _ : Instr => @nil unit) concerns).

Lemma neutral_tokens l : neutral l <-> tokens concerns l = 0.
Proof. split; [by intros [_ ?] |]. intros Hl. split; [| done]. clear Hl. by induction l. Qed.

Lemma concerned_neutral l : concerned l = false <-> neutral l.
Proof. rewrite neutral_tokens. unfold concerned. rewrite negb_false_iff. apply Nat.eqb_eq. Qed.

Lemma neutral_app l l' : neutral (l ++ l') <-> neutral l /\ neutral l'.
Proof. rewrite !neutral_tokens, tokens_app. lia. Qed.

Lemma neutral_cons i l : neutral (i :: l) <-> concerns i = false /\ neutral l.
Proof. rewrite !neutral_tokens, tokens_cons. destruct (concerns i); intuition (done || lia). Qed.

Lemma neutral_frames peer : neutral (frame_removed peer).
Proof. unfold ClientScreen.frame_removed. by destruct on_frame_removed. Qed.

Lemma neutral_all_frames peers : neutral (peers ≫= frame_removed).
Proof. apply free_bind, neutral_frames. Qed.

Lemma neutral_updates us : neutral (ApplyAudio <$> us).
Proof. by apply free_map. Qed.

Lemma neutral_update_all v : neutral (update_all v).
Proof. apply neutral_updates. Qed.

Lemma neutral_preview v : neutral (preview_removed on_frame_removed v).
Proof. unfold preview_removed. destruct (String.eqb _ _); [done | apply neutral_frames]. Qed.

Hint Resolve neutral_frames neutral_all_frames neutral_updates neutral_update_all neutral_preview : core.

Lemma neutral_messages l : neutral l -> omap message l = [].
Proof.
  intros [_ Hl]. apply no_messages. revert Hl. induction l as [| i l IH]; [done |]. rewrite !tokens_cons. unfold concerns at 1.
  destruct (tells i); [cbn; lia |]. intros Hz. cbn. apply IH. lia.
Qed.

(** What the invariant reads of a world. *)
Definition scene (w : World) := (watched_peers (screen w), screen_session (screen w), connected w, server w).

Lemma exec_neutral i answer w w' more :
  concerns i = false -> exec i answer w = Some (w', more) -> scene w' = scene w /\ neutral more.
Proof.
  intros Hi. destruct i; try done; cbn [ClientScreen.exec]; unfold
    apply_sharing, start_capture, start_sound, enable_sound, publish_share, stop_sharing, change_preview, request_stats;
    branches; intros [= <- <-]; try done; try (split; [done |]; unfold stop_sharing_rest, shared, not_shared; plain; branches; plain; fail).
  destruct e; try done; (split; [| done]); unfold scene; by rewrite server_tell.
Qed.

(** ** What is known, and what will be *)

(** [l] is all that is still to be done about watching. *)
Record view (w : World) (l : list Instr) : Prop := {
  v_online : online (outlook l w) = connected w;
  v_known : asked (outlook l w) ⊆ watched_peers (screen w);
  v_agreed : connected w = true -> is_Some (screen_session (screen w)) -> asked (outlook l w) = watched_peers (screen w);
  v_lost : connected w = false -> is_Some (screen_session (screen w)) -> exists i, i ∈ l /\ is_stop i = true;
}.

Lemma view_scene w w' l l' :
  scene w' = scene w -> omap message l' = omap message l -> (forall i, is_stop i = true -> i ∈ l -> i ∈ l') -> view w l -> view w' l'.
Proof.
  intros [= E1 E2 E3 E4] Hm Hs [H1 H2 H3 H4]. unfold outlook in *. split; unfold outlook; rewrite ?E1, ?E2, ?E3, ?E4, ?Hm; try done.
  intros Hc Hi. destruct (H4 Hc Hi) as (i & Hin & Hst). exists i. auto.
Qed.

Lemma neutral_stop l i : neutral l -> is_stop i = true -> i ∉ l.
Proof.
  intros Hl Hi Hin. apply list_elem_of_split in Hin as (l1 & l2 & ->). apply neutral_app in Hl as [_ [Hc _]%neutral_cons].
  revert Hc. unfold concerns. rewrite Hi, orb_true_r. done.
Qed.

Lemma view_neutral w l l' : neutral l -> neutral l' -> view w l -> view w l'.
Proof.
  intros Hl Hl'. apply view_scene; [done | by rewrite !neutral_messages |]. intros i Hi Hin. by destruct (neutral_stop l i).
Qed.

Lemma outlook_cons i l w : outlook (i :: l) w = hear_all (omap message l) (match message i with Some e => hear (server w) e | None => server w end).
Proof. unfold outlook. cbn. by destruct (message i). Qed.

(** An instruction that sends something of its own ends the thread's messages. *)
Lemma outlook_last i l w : composes i = true -> (composes i = true -> tokens tells l = 0) -> outlook (i :: l) w = server w /\ omap message l = [].
Proof.
  intros Hi Hl. pose proof (no_messages l (Hl Hi)) as Hn. split; [| done]. rewrite outlook_cons, Hn. by destruct i.
Qed.

Lemma messages_told {A} (f : A -> Event) (l : list A) :
  (forall x, message (Tell (f x)) = Some (f x)) -> omap message ((fun x => Tell (f x)) <$> l) = f <$> l.
Proof. intros Hf. induction l as [| x l IH]; [done |]. rewrite !fmap_cons. cbn -[message]. by rewrite Hf, <- IH. Qed.

Lemma view_publish id w w' more rest :
  tokens tells rest = 0 -> publish id w = (w', more) -> view w (Publish id :: rest) -> view w' (more ++ rest).
Proof.
  intros Ht. destruct (outlook_last (Publish id) rest w eq_refl (fun _ => Ht)) as [Ho Hr]. unfold publish. cbv zeta.
  destruct (_ && _) eqn:Hgo; intros [= <- <-] Hv.
  - apply andb_prop in Hgo as [_ Hcon]. destruct Hv as [H1 H2 H3 H4]. rewrite Ho in *.
    assert (Hout : outlook (((ApplyAudio <$> all_screen_updates_locked (with_session (Some id) (Some id) (screen w)))
                    ++ ((fun p => Tell (SendWatchStart p)) <$> elements (watched_peers (screen w)))) ++ rest)
                    (with_screen (with_session (Some id) (Some id) (screen w)) w) = mkAsked true (watched_peers (screen w))).
    { rewrite outlook_app, Hr. rewrite outlook_app. unfold outlook at 1. rewrite (neutral_messages _ (neutral_updates _)).
      rewrite messages_told by done.
      change (server (with_screen _ w)) with (server w). change (hear_all [] (server w)) with (server w).
      rewrite hear_starts, H1, Hcon, list_to_set_elements_L, (union_comm_L (watched_peers (screen w))), subseteq_union_1_L; done. }
    split; rewrite ?Hout; cbn; try done. congruence.
  - apply (view_scene w _ (Publish id :: rest)); try done. intros i Hi [-> | Hin]%elem_of_cons; [done | by right; right].
Qed.

(** A peer that is no longer watched, of which the server is told, or knows. *)
Lemma view_unwatch peer w w' l l' :
  screen_session (screen w') = screen_session (screen w) -> connected w' = connected w ->
  watched_peers (screen w') = watched_peers (screen w) ∖ {[peer]} ->
  outlook l' w' = mkAsked (online (outlook l w)) (asked (outlook l w) ∖ {[peer]}) ->
  (forall i, is_stop i = true -> i ∈ l -> i ∈ l') ->
  view w l -> view w' l'.
Proof.
  intros E1 E2 E3 Hout Hs [H1 H2 H3 H4]. split; rewrite ?E1, ?E2, ?E3, ?Hout; try done; cbn [asked].
  - clear - H2. set_solver.
  - intros Hc Hi. by rewrite H3.
  - intros Hc Hi. destruct (H4 Hc Hi) as (i & Hin & Hst). exists i. auto.
Qed.

(** The server is told of a peer that was watched. *)
Lemma view_unwatch_if peer w w' l l' :
  screen_session (screen w') = screen_session (screen w) -> connected w' = connected w ->
  watched_peers (screen w') = watched_peers (screen w) ∖ {[peer]} ->
  outlook l' w' = hear_all (if bool_decide (peer ∈ watched_peers (screen w)) then [SendWatchStop peer] else []) (outlook l w) ->
  (forall i, is_stop i = true -> i ∈ l -> i ∈ l') ->
  view w l -> view w' l'.
Proof.
  intros E1 E2 E3 Hout Hs Hv. apply (view_unwatch peer w w' l l'); try done. rewrite Hout. case_bool_decide as Hp; [done |].
  pose proof (v_known _ _ Hv) as Hk. cbn. destruct (outlook l w) as [o a]. cbn in *. f_equal. clear - Hp Hk. set_solver.
Qed.

(** What a peer that was or was not watched leaves to do. *)
Lemma messages_leave us (removed : bool) peer :
  omap message ((ApplyAudio <$> us) ++ (if removed then Tell (SendWatchStop peer) :: frame_removed peer else []))
  = if removed then [SendWatchStop peer] else [].
Proof.
  rewrite omap_app, (neutral_messages _ (neutral_updates us)). destruct removed; [| done]. cbn.
  by rewrite (neutral_messages _ (neutral_frames peer)).
Qed.

Lemma view_stop_watching peer w w' more rest :
  tokens tells rest = 0 -> stop_watching on_frame_removed peer w = (w', more) -> view w (StopWatching peer :: rest) -> view w' (more ++ rest).
Proof.
  intros Ht. destruct (outlook_last (StopWatching peer) rest w eq_refl (fun _ => Ht)) as [Ho Hr].
  unfold stop_watching. cbv zeta. intros [= <- <-] Hv. set (v := with_watched _ _ _).
  eapply (view_unwatch_if peer); [.. | exact Hv]; try done.
  { rewrite Ho, outlook_app, Hr. unfold outlook. by rewrite messages_leave. }
  intros i Hi [-> | Hin]%elem_of_cons; [done |]. by apply elem_of_app; right.
Qed.

(** ** Sections *)

Lemma view_quiet w w' i more rest :
  scene w' = scene w -> message i = None -> is_stop i = false -> omap message more = [] -> view w (i :: rest) -> view w' (more ++ rest).
Proof.
  intros Hs Hi Hst Hm. apply view_scene; [done | rewrite omap_app, Hm; cbn; by rewrite Hi |].
  intros j Hj [-> | Hin]%elem_of_cons; [congruence | apply elem_of_app; by right].
Qed.

Lemma view_tell e w rest : view w (Tell e :: rest) -> view (tell e w) rest.
Proof.
  assert (Hout : outlook rest (tell e w) = outlook (Tell e :: rest) w) by (rewrite outlook_cons; unfold outlook; rewrite server_tell; by destruct e).
  intros [H1 H2 H3 H4]. split; rewrite ?Hout; try done. intros Hc Hi.
  destruct (H4 Hc Hi) as (i & [-> | Hin]%elem_of_cons & Hst); [done |]. by exists i.
Qed.

Lemma no_message_stop v : omap message (stop_rest on_frame_removed v) = [].
Proof.
  unfold stop_rest. rewrite !omap_app, (neutral_messages (preview_removed _ _)), (neutral_messages (_ ≫= _)) by auto.
  by destruct (system_audio_capture v), (screen_session v).
Qed.

Lemma exec_view i answer w w' more rest :
  (composes i = true -> tokens tells rest = 0) -> exec i answer w = Some (w', more) -> view w (i :: rest) -> view w' (more ++ rest).
Proof.
  intros Ho He. destruct (concerns i) eqn:Hc.
  2: { destruct (exec_neutral i answer w w' more Hc He) as [Hs Hm]. apply orb_false_iff in Hc as [[Ht _]%orb_false_iff Hst].
       apply (view_quiet w w' i); [done | by unfold tells in Ht; destruct (message i) | done | by apply neutral_messages]. }
  destruct i; try done; cbn [ClientScreen.exec] in He.
  - revert He. unfold start_screen_if_requested. branches; intros [= <- <-]; by apply (view_quiet w _ StartScreen).
  - injection He as He. revert He. unfold start_session. destruct (negb _); intros [= <- <-]; by apply (view_quiet w _ (StartSession id local_preview)).
  - apply (view_publish id w); [by apply Ho | congruence].
  - injection He as <- <-. apply view_tell.
  - revert He. unfold stop_screen_session. destruct (_ || _); [done |]. intros [= <- <-] [H1 H2 H3 H4].
    assert (Hout : forall v, outlook ((stop_rest on_frame_removed (screen w) ++ [UnlockSharing; Unlock]) ++ rest) (with_locks true true (with_screen v w))
                  = outlook (StopScreen :: rest) w).
    { intros v. rewrite outlook_cons. unfold outlook. by rewrite !omap_app, no_message_stop. }
    split; rewrite ?Hout; cbn; try done; by intros _ [].
  - apply (view_stop_watching peer w); [by apply Ho | congruence].
  - injection He as <- <-. apply (view_quiet w _ (Recover token)); try done. unfold recover_screen_session. by branches.
Qed.

Abbreviation ordered := (orderly tells composes).
Abbreviation simple := (free_list (fun _ : Instr => @nil unit) composes).

#[local] Instance simple_quiet : Quiet (fun _ : Instr => @nil unit) composes.
Proof. by split. Qed.

Lemma exec_simple i answer w w' more : exec i answer w = Some (w', more) ->
  match i with StartScreen | StartSession _ _ | Recover _ => tokens tells more = 0 | _ => simple more end.
Proof.
  destruct i; cbn [ClientScreen.exec]; unfold start_screen_if_requested, start_session, publish, stop_screen_session, recover_screen_session,
    apply_sharing, start_capture, start_sound, enable_sound, publish_share, stop_sharing, stop_watching, change_preview, request_stats;
    branches; intros [= <- <-]; try done; unfold stop_rest, stop_sharing_rest, shared, not_shared; plain; branches; plain.
Qed.

Lemma exec_ordered i answer w w' more rest : exec i answer w = Some (w', more) -> ordered (i :: rest) -> ordered (more ++ rest).
Proof.
  intros He. pose proof (exec_simple _ _ _ _ _ He) as Hm. apply orderly_step.
  - apply orderly_none. destruct i; (by right) || (left; by destruct Hm).
  - intros Hi. by destruct i; destruct Hm.
Qed.

(** ** Threads *)

Definition engaged (ts : list (list Instr)) : list (list Instr) := filter (fun t => concerned t = true) ts.

Record watch_ok (w : World) (ts : list (list Instr)) : Prop := {
  wo_one : length (engaged ts) <= 1;
  wo_ordered : Forall ordered ts;
  wo_view : view w (concat (engaged ts));
}.

Lemma engaged_neutral l ts : neutral l -> engaged (l :: ts) = engaged ts.
Proof. intros Hl%concerned_neutral. unfold engaged. apply filter_cons_False. congruence. Qed.

Lemma engaged_concerned l ts : concerned l = true -> engaged (l :: ts) = l :: engaged ts.
Proof. intros Hc. unfold engaged. by rewrite filter_cons_True. Qed.

Lemma engaged_none ts : existsb concerned ts = false -> engaged ts = [].
Proof.
  unfold engaged. induction ts as [| t ts IH]; [done |]. cbn [existsb]. intros [Ht Hts]%orb_false_iff. rewrite filter_cons_False by congruence. by apply IH.
Qed.

Lemma short_perm {A} (l l' : list A) : l ≡ₚ l' -> length l <= 1 -> l = l'.
Proof.
  intros Hp. destruct l as [| x [| ]]; cbn; intros Hl; [by apply Permutation_nil_l in Hp | by apply Permutation_singleton_l in Hp | lia].
Qed.

Lemma watch_perm w ts ts' : ts ≡ₚ ts' -> watch_ok w ts -> watch_ok w ts'.
Proof.
  intros Hp [H1 H2 H3]. assert (Hb : engaged ts = engaged ts') by (apply short_perm; [unfold engaged; by rewrite Hp | done]).
  split; [by rewrite <- Hb | by rewrite <- Hp | by rewrite <- Hb].
Qed.

Lemma watch_neutral w w' l ts : scene w' = scene w -> neutral l -> ordered l -> watch_ok w ts -> watch_ok w' (l :: ts).
Proof.
  intros Hs Hl Ho [H1 H2 H3]. split; rewrite ?(engaged_neutral l ts Hl); [done | by constructor |]. by apply (view_scene w _ (concat (engaged ts))).
Qed.

(** The one thread that concerns watching. *)
Lemma watch_alone w l ts : engaged ts = [] -> Forall ordered ts -> ordered l -> view w l -> watch_ok w (l :: ts).
Proof.
  intros Hb Ho Hl Hv. destruct (concerned l) eqn:Hc.
  - split; rewrite ?(engaged_concerned l ts Hc), ?Hb; [done | by constructor | cbn; by rewrite app_nil_r].
  - apply concerned_neutral in Hc. split; rewrite ?(engaged_neutral l ts Hc), ?Hb; [cbn; lia | by constructor | by apply (view_neutral w l)].
Qed.

Lemma exec_watch i answer rest others w w' more :
  watch_ok w ((i :: rest) :: others) -> exec i answer w = Some (w', more) -> watch_ok w' ((more ++ rest) :: others).
Proof.
  intros [H1 [Hi Ho]%Forall_cons H3] He. pose proof (exec_ordered _ _ _ _ _ _ He Hi) as Hi'. destruct (concerned (i :: rest)) eqn:Hc.
  - rewrite engaged_concerned in H1, H3 by done. destruct (engaged others) eqn:Hb; [| cbn in H1; lia]. cbn in H3. rewrite app_nil_r in H3.
    apply watch_alone; [done | done | done |]. by eapply exec_view; [apply Hi | exact He |].
  - apply concerned_neutral in Hc. pose proof (proj1 (neutral_cons i rest) Hc) as [Hn Hrest].
    destruct (exec_neutral i answer w w' more Hn He) as [Hs Hm]. rewrite engaged_neutral in H1, H3 by done.
    apply (watch_neutral w); [done | by apply neutral_app | done | by split].
Qed.

(** ** What begins *)

Lemma spawn_watch l w : watch_ok w (l :: threads w) -> watch_ok (spawn l w) (threads (spawn l w)).
Proof.
  intros [H1 H2 H3]. unfold spawn. cbn [threads with_threads].
  destruct l as [| i l].
  - rewrite engaged_neutral in H1, H3 by done. apply Forall_cons in H2 as [_ H2].
    split; [done | done | by apply (view_scene w _ (concat (engaged (threads w))))].
  - split; [done | done | by apply (view_scene w _ (concat (engaged ((i :: l) :: threads w))))].
Qed.

Lemma begin_neutral l w w' :
  scene w' = scene w -> threads w' = threads w -> neutral l -> watch_ok w (threads w) -> watch_ok (spawn l w') (threads (spawn l w')).
Proof.
  intros Hs Ht Hl Hw. apply spawn_watch. rewrite Ht. apply (watch_neutral w); try done.
  apply orderly_none. right. destruct Hl as [_ Hl]. revert Hl. induction l as [| i l IH]; [done |]. rewrite !tokens_cons. unfold concerns at 1.
  destruct (tells i); cbn; [lia |]. intros Hz. apply IH. lia.
Qed.

Lemma begin_alone l w w' :
  engaged (threads w) = [] -> threads w' = threads w -> simple l \/ tokens tells l = 0 ->
  (view w [] -> view w' l) -> watch_ok w (threads w) -> watch_ok (spawn l w') (threads (spawn l w')).
Proof.
  intros Hb Ht Hl Hv [_ H2 H3]. rewrite Hb in H3. apply spawn_watch. rewrite Ht.
  apply watch_alone; [done | done | apply orderly_none; destruct Hl as [[_ ?] | ?]; auto | by apply Hv].
Qed.

Lemma calm_touch a w : touches a = true -> calm a w = true ->
  engaged (threads w) = [] /\ match a with SignalingChanges b => b <> connected w | _ => True end.
Proof.
  unfold calm. intros ->. cbn. intros [Hq Hs]%andb_prop. split.
  - by apply negb_true_iff, engaged_none in Hq.
  - destruct a; try done. by apply negb_true_iff, eqb_false_iff in Hs.
Qed.

(** A call that begins with nothing under way, and tells what [es] says. *)
Lemma outlook_begin l w w' es : server w' = server w -> omap message l = es -> outlook l w' = hear_all es (server w).
Proof. unfold outlook. by intros -> ->. Qed.

Lemma view_begin w w' l : scene w' = scene w -> omap message l = [] -> view w [] -> view w' l.
Proof. intros Hs Hl. apply view_scene; [done | done |]. intros i _ Hin. by apply elem_of_nil in Hin. Qed.

Lemma view_leave peer w w' l :
  screen_session (screen w') = screen_session (screen w) -> connected w' = connected w -> server w' = server w ->
  watched_peers (screen w') = watched_peers (screen w) ∖ {[peer]} ->
  omap message l = (if bool_decide (peer ∈ watched_peers (screen w)) then [SendWatchStop peer] else []) ->
  view w [] -> view w' l.
Proof.
  intros E1 E2 E3 E4 Hl. apply (view_unwatch_if peer); try done; [| intros i _ Hin; by apply elem_of_nil in Hin].
  by apply (outlook_begin l w w').
Qed.

(** Nothing is watched any more. *)
Lemma view_leave_all w w' l :
  connected w' = connected w -> screen_session (screen w') = screen_session (screen w) -> server w' = server w -> watched_peers (screen w') = ∅ ->
  omap message l = SendWatchStop <$> elements (watched_peers (screen w)) -> view w [] -> view w' l.
Proof.
  intros E1 E2 E3 E4 Hl [H1 H2 H3 H4]. pose proof (outlook_begin l w w' _ E3 Hl) as Hout. rewrite hear_stops, list_to_set_elements_L in Hout.
  change (outlook [] w) with (server w) in *. assert (Hcut : asked (server w) ∖ watched_peers (screen w) = ∅) by (clear - H2; set_solver).
  rewrite Hcut in Hout. split; rewrite ?E1, ?E2, ?E4, ?Hout; try done.
  intros Hc Hi. destruct (H4 Hc Hi) as (i & Hin & _). by apply elem_of_nil in Hin.
Qed.

Lemma view_join peer w w' l :
  connected w' = connected w -> screen_session (screen w') = screen_session (screen w) -> server w' = server w ->
  watched_peers (screen w') = {[peer]} ∪ watched_peers (screen w) -> omap message l = [SendWatchStart peer] -> view w [] -> view w' l.
Proof.
  intros E1 E2 E3 E4 Hl [H1 H2 H3 H4]. pose proof (outlook_begin l w w' _ E3 Hl) as Hout. cbn in Hout.
  change (outlook [] w) with (server w) in *. split; rewrite ?E1, ?E2, ?E4, ?Hout.
  - destruct (online (server w)) eqn:Ho; cbn; congruence.
  - destruct (online (server w)); cbn; clear - H2; set_solver.
  - intros Hc Hi. rewrite Hc in H1. rewrite H1. cbn. by rewrite H3.
  - intros Hc Hi. destruct (H4 Hc Hi) as (i & Hin & _). by apply elem_of_nil in Hin.
Qed.

(** Signaling comes or goes: the server knows nothing. *)
Lemma view_signaling b w :
  b <> connected w -> view w [] -> view (tell (Signaling b) (with_connected b w)) (if b then [StartScreen] else [StopScreen]).
Proof.
  intros Hb [H1 H2 H3 H4]. assert (Hout : outlook (if b then [StartScreen] else [StopScreen]) (tell (Signaling b) (with_connected b w)) = mkAsked b ∅).
  { unfold outlook. rewrite server_tell. by destruct b. }
  split; rewrite ?Hout; cbn; try done.
  - intros -> Hi. destruct (connected w); [done |]. destruct (H4 eq_refl Hi) as (i & Hin & _). by apply elem_of_nil in Hin.
  - intros ->. exists StopScreen. split; [by left | done].
Qed.

Lemma neutral_if (b : bool) l : neutral l -> neutral (if b then l else []).
Proof. by destruct b. Qed.

Lemma neutral_both l l' : neutral l -> neutral l' -> neutral (l ++ l').
Proof. intros. by apply neutral_app. Qed.

Hint Resolve neutral_if neutral_both : core.

Lemma act_watch a w : calm a w = true -> watch_ok w (threads w) -> watch_ok (act a w) (threads (act a w)).
Proof.
  intros Hcalm Hw.
  assert (Htouch : touches a = true -> engaged (threads w) = [] /\ match a with SignalingChanges b => b <> connected w | _ => True end)
    by (intros; by apply calm_touch).
  destruct a; try (destruct (Htouch eq_refl) as [Hb Hs]); cbn [ClientScreen.act]; clear Hcalm Htouch.
  - apply (begin_alone _ w); try done; [by right | by apply view_begin].
  - apply (begin_alone _ w); try done; [left; plain |]. apply (view_leave_all w); try done.
    rewrite !omap_app, messages_told by done. apply app_nil_r.
  - unfold join_stream. case_bool_decide; [by apply (begin_neutral _ w); auto |]. apply (begin_alone _ w); try done; [left; plain |].
    apply (view_join peer); try done. by rewrite omap_app, neutral_messages by auto.
  - apply (begin_alone _ w); try done; [left; plain |]. apply (view_leave peer); try done. apply messages_leave.
  - apply (begin_alone _ w); try done; [left; plain |]. apply (view_leave_all w); try done.
    rewrite !omap_app, messages_told, !neutral_messages by auto. apply app_nil_r.
  - apply (begin_alone _ w); try done; [left; plain |]. apply (view_leave peer); try done. apply messages_leave.
  - apply (begin_alone _ w); try done; [by right | by apply view_begin].
  - destruct request; [by apply (begin_neutral _ w) | done].
  - by apply (begin_neutral _ w).
  - by apply (begin_neutral _ w).
  - by apply (begin_neutral _ w); auto.
  - unfold screen_stats_json. destruct (poll _ _ _) as [p stats]. cbn [snd].
    apply (begin_neutral _ w); try done. destruct (screen_session _); [by destruct (start_request p) | done].
  - destruct Hw as [H1 H2 H3]. split; [done | done |]. by apply (view_scene w _ (concat (engaged (threads w)))).
  - unfold apply_binding. apply (begin_neutral _ w); try done. apply neutral_both; [auto |].
    destruct (screen_bindings _ !! mid); [auto | done].
  - unfold handle_watch_rejected. apply (begin_alone _ w); try done; [left; plain |].
    apply (view_unwatch peer); try done; [| intros i _ Hin; by apply elem_of_nil in Hin].
    unfold outlook. rewrite neutral_messages by auto. by rewrite server_tell.
  - apply (begin_alone _ w); try done; [by right; destruct is_connected |]. by apply view_signaling.
  - unfold session_track. destruct video; [| by apply (begin_neutral _ w); auto]. destruct Hw as [H1 H2 H3]. split; [done | done |].
    by apply (view_scene w _ (concat (engaged (threads w)))).
  - unfold deliver_video. destruct (screen_bindings _ !! mid); [| done]. destruct (_ && _); [by apply (begin_neutral _ w) | done].
  - unfold deliver_local_video. destruct (_ && _); [by apply (begin_neutral _ w) | done].
  - assert (Hsame : scene (session_failed id w) = scene w /\ threads (session_failed id w) = threads w).
    { unfold session_failed, schedule_recovery. destruct (bool_decide _); [done |]. by destruct (recovery_stopping _). }
    destruct Hsame as [Hs Ht], Hw as [H1 H2 H3]. rewrite Ht. split; [done | done |]. by apply (view_scene w _ (concat (engaged (threads w)))).
  - assert (Hsame : scene (stats_delivered n stats now w) = scene w /\ threads (stats_delivered n stats now w) = threads w).
    { unfold stats_delivered. destruct (stats_requests _ !! n) as [[id g] |]; [| done]. by destruct (bool_decide _). }
    destruct Hsame as [Hs Ht], Hw as [H1 H2 H3]. rewrite Ht. split; [done | done |]. by apply (view_scene w _ (concat (engaged (threads w)))).
  - unfold run_recovery. destruct (recovery_queue _); [done |]. destruct (_ && _); [| done].
    apply (begin_alone _ w); try done; [by right | by apply view_begin].
  - unfold resume. destruct (threads w !! n) as [[| i rest] |] eqn:Hn; [done | | done].
    destruct (ClientScreen.exec _ _ i answer w) as [[w' more] |] eqn:He; [| done]. apply spawn_watch. cbn [threads with_threads].
    pose proof (exec_watch i answer rest (delete n (threads w)) w w' more (watch_perm _ _ _ (delete_Permutation _ _ _ Hn) Hw) He) as [H1 H2 H3].
    split; [done | done |]. by apply (view_scene w' _ (concat (engaged ((more ++ rest) :: delete n (threads w))))).
Qed.

Lemma run_watch acts :
  allowed_run on_frame on_frame_removed local_id calm acts new_world = true -> watch_ok (run acts) (threads (run acts)).
Proof.
  unfold ClientScreen.run. assert (Hnew : watch_ok new_world (threads new_world)).
  { split; [cbn; lia | done |]. split; try done. by intros _ []. }
  revert Hnew. generalize new_world. induction acts as [| a acts IH]; intros w Hw; [done |]. cbn [allowed_run]. intros [Ha Hall]%andb_prop.
  by apply IH; [apply act_watch |].
Qed.

(** ** The statistics *)

Definition counted (w : World) : Prop := ScreenStats.watched_peers (screen_stats (screen w)) = watched_peers (screen w).

Lemma counted_same v v' :
  watched_peers v' = watched_peers v -> screen_stats v' = screen_stats v ->
  ScreenStats.watched_peers (screen_stats v) = watched_peers v -> ScreenStats.watched_peers (screen_stats v') = watched_peers v'.
Proof. by intros -> ->. Qed.

Lemma consume_watched stats g now t : ScreenStats.watched_peers (consume stats g now t) = ScreenStats.watched_peers t.
Proof. unfold consume. by destruct (negb _). Qed.

Lemma binding_watched mid peer t : ScreenStats.watched_peers (set_binding mid peer t) = ScreenStats.watched_peers t.
Proof. unfold set_binding. destruct (bool_decide _); [done |]. by destruct peer. Qed.

Lemma exec_counted i answer w w' more : exec i answer w = Some (w', more) -> counted w -> counted w'.
Proof.
  destruct i; cbn [ClientScreen.exec]; unfold start_screen_if_requested, start_session, publish, stop_screen_session,
    apply_sharing, start_capture, start_sound, enable_sound, publish_share, stop_sharing, stop_watching, change_preview, request_stats;
    branches; intros [= <- <-]; unfold counted; cbn; try done; try congruence.
  unfold request_failed. intros. by destruct (_ =? _)%Z.
Qed.

Lemma act_counted a w : counted w -> counted (act a w).
Proof.
  intros Hw. unfold counted in *.
  destruct a; cbn [ClientScreen.act]; unfold join_stream, leave_stream, leave_streams, peer_stopped_streaming, stop_watching, start_sharing,
    session_track, deliver_video, deliver_local_video, session_failed, schedule_recovery, run_recovery, stats_delivered, screen_stats_json, poll,
    apply_binding.
  all: try (cbn; congruence).
  all: try (case_bool_decide; cbn; congruence).
  - by destruct request.
  - destruct (_ && _); cbn; by rewrite <- Hw.
  - cbn. destruct (negb _); [by rewrite binding_watched | done].
  - by destruct video.
  - destruct (screen_bindings _ !! mid); [| done]. by destruct (_ && _).
  - by destruct (_ && _).
  - destruct (bool_decide _); [done |]. by destruct (recovery_stopping _).
  - destruct (stats_requests _ !! n) as [[id g] |]; [| done]. destruct (bool_decide _); [done |]. cbn. by rewrite consume_watched.
  - destruct (recovery_queue _); [done |]. by destruct (_ && _).
  - unfold resume. destruct (threads w !! n) as [[| i rest] |]; [done | | done].
    destruct (ClientScreen.exec _ _ i answer w) as [[w' more] |] eqn:He; [| done]. by apply (exec_counted _ _ _ _ _ He).
Qed.

Lemma run_counted acts : counted (run acts).
Proof.
  unfold ClientScreen.run. assert (Hnew : counted new_world) by done. revert Hnew. generalize new_world.
  induction acts as [| a acts IH]; intros w Hw; [done |]. by apply IH, act_counted.
Qed.

(** C31 In a run that is calm, whenever nothing that concerns watching is under
    way: the server takes the client for connected if it is; it has been asked for
    no screen that the user does not watch; and while there is a session it has been
    asked for every one that he does, also after the connection was lost, a session
    was replaced or a peer was refused.  The statistics count the peers that he
    watches. *)
Theorem watching_told acts :
  allowed_run on_frame on_frame_removed local_id calm acts new_world = true ->
  let w := run acts in
  existsb concerned (threads w) = false ->
  online (server w) = connected w
  /\ asked (server w) ⊆ watched_peers (screen w)
  /\ (connected w = true -> is_Some (screen_session (screen w)) -> asked (server w) = watched_peers (screen w))
  /\ ScreenStats.watched_peers (screen_stats (screen w)) = watched_peers (screen w).
Proof.
  intros Hcalm w Hrest. pose proof (wo_view _ _ (run_watch acts Hcalm)) as Hv. fold w in Hv.
  rewrite (engaged_none _ Hrest) in Hv. destruct Hv as [H1 H2 H3 _]. split_and!; try done. apply run_counted.
Qed.
End Watch.

(** ** Samples *)

(** A screen is joined before there is a session, the session fails and is
    replaced, one peer is left, another refuses, while the user shares. *)
Definition watching : list Act :=
  [SignalingChanges true] ++ go 1 ++ [CallJoin "ann"] ++ go 1 ++ [CallInit] ++ go 8 ++ [CallJoin "bob"] ++ go 2 ++ [CallJoin "cat"] ++ go 2
  ++ [SessionFails 0; RecoveryRuns] ++ go 60 ++ [CallStartSharing (Some sample_request)] ++ go 3
  ++ [CallLeave "bob"] ++ go 3 ++ [RejectionArrives "cat"] ++ go 1.

Lemma watching_told_witness :
  let w := sample_run watching in
  screen_session (screen w) = Some 1 /\ elements (asked (server w)) = ["ann"] /\ asked (server w) = watched_peers (screen w).
Proof.
  destruct (watching_told true true "me" watching) as (_ & _ & Hagreed & _); [by vm_compute | by vm_compute |].
  split_and!; [by vm_compute | by vm_compute | apply Hagreed; [by vm_compute | exists 1; by vm_compute]].
Defined.

(** The announcement of a new session is read under the lock and sent after it: a
    screen that is left in between is asked for again, and nothing takes it back. *)
Lemma late_watch :
  let w := sample_run ([CallJoin "ann"] ++ go 1 ++ [CallInit] ++ go 1 ++ [SignalingChanges true] ++ go 4 ++ [CallLeave "ann"] ++ go 10) in
  threads w = [] /\ connected w = true /\ screen_session (screen w) = Some 0
  /\ elements (watched_peers (screen w)) = [] /\ elements (asked (server w)) = ["ann"].
Proof. by vm_compute. Qed.
