(* ===== verification/DesktopSource.v ===== *)
(** * The source of the shared screen (core/src/webrtc/google_webrtc_screen_adapters.cpp)

    [DesktopVideoSource]: the thread that captures the desktop, the frames it hands
    on, and thumbnails.  The capturer, libyuv and WebRTC's [AdaptFrame] are
    parameters; of libyuv the model keeps how far a call reads and writes. *)

From S2P Require Import Prelude Floats Capture.

Local Open Scope Z_scope.
Local Open Scope list_scope.

Definition int_max : Z := 2 ^ 31 - 1.
Definition size_max : Z := 2 ^ 64 - 1.

(** [static_cast<int>] of [std::floor]: [None] when it is undefined. *)
Definition floor_int (x : spec_float) : option Z :=
  z ← floor x; if (- 2 ^ 31 <=? z) && (z <? 2 ^ 31) then Some z else None.

(** [std::min] *)
Definition fmin (a b : spec_float) : spec_float := if Binary64.ltb b a then b else a.

Definition ratio (a b : Z) : spec_float := Binary64.div (Binary64.of_Z a) (Binary64.of_Z b).

Definition scaled (length : Z) (scale : spec_float) : option Z :=
  Z.max 1 <$> floor_int (Binary64.mul (Binary64.of_Z length) scale).

Definition scaled_size (width height : Z) (scale : spec_float) : option (Z * Z) :=
  w ← scaled width scale; h ← scaled height scale; Some (w, h).

(** ** Frames *)

(** A call reads [height] rows of [4 * width] bytes, [stride] apart, of a buffer. *)
Record Plane := mkPlane { buffer_size : Z; stride : Z; width : Z; height : Z }.

Inductive YuvCall :=
  | ARGBScale (source target : Plane)
  | ARGBToI420 (source : Plane)
  | ARGBToABGR (source target : Plane).

(** What [AdaptFrame] asks for. *)
Record Adapted := mkAdapted { out_width : Z; out_height : Z; crop_x : Z; crop_y : Z; crop_width : Z; crop_height : Z }.

Definition constrain (width height max_width max_height : Z) : option (Z * Z) :=
  scaled_size width height (fmin (ratio max_width width) (ratio max_height height)).

(** The size a frame has after the limits of the capture; [None]: undefined. *)
Definition constrained (width height max_width max_height : Z) : option (option (Z * Z)) :=
  if (0 <? max_width) && (0 <? max_height) && ((max_width <? width) || (max_height <? height))
  then Some <$> constrain width height max_width max_height
  else Some None.

Definition packed (width height : Z) : Plane := mkPlane (width * height * 4) (width * 4) width height.

(** The calls that are made, and the size of the frame that is sent; [ok n]: the
    [n]th call of the library succeeds. *)
Definition convert (source : Plane) (ok : nat -> bool) (adapt : Z -> Z -> option Adapted) : list YuvCall * option (Z * Z) :=
  match adapt (width source) (height source) with
  | None => ([], None)
  | Some a =>
    if negb (ok 0%nat) then ([], None)
    else if negb (ok 1%nat) then ([ARGBToI420 source], None)
    else
      let same := (crop_x a =? 0) && (crop_y a =? 0) && (crop_width a =? width source) && (crop_height a =? height source)
                  && (out_width a =? width source) && (out_height a =? height source) in
      if same then ([ARGBToI420 source], Some (width source, height source))
      else if ok 2%nat then ([ARGBToI420 source], Some (out_width a, out_height a))
      else ([ARGBToI420 source], None)
  end.

Definition acceptable (p : Plane) (timestamp_us : Z) : bool :=
  negb ((width p <=? 0) || (height p <=? 0) || (int_max / 4 <? width p) || (stride p <? width p * 4) || (timestamp_us <? 0)
        || (size_max / height p <? stride p) || (buffer_size p <? stride p * height p)).

Definition submit_bgra (bgra : Plane) (timestamp_us max_width max_height : Z) (scale_ok : bool) (ok : nat -> bool)
    (adapt : Z -> Z -> option Adapted) : option (list YuvCall * option (Z * Z)) :=
  if negb (acceptable bgra timestamp_us) then Some ([], None)
  else
    match constrained (width bgra) (height bgra) max_width max_height with
    | None => None
    | Some None => Some (convert bgra ok adapt)
    | Some (Some (w, h)) =>
      let scale := ARGBScale bgra (packed w h) in
      if scale_ok then let '(calls, sent) := convert (packed w h) ok adapt in Some (scale :: calls, sent)
      else Some ([scale], None)
    end.

(** ** Thumbnails *)

(** The calls, and the size of the thumbnail; [selected]: there is a capturer and it
    takes the source, [frame]: what it delivered in time.  A [SourceId] holds any
    64-bit number. *)
Definition grab_thumbnail (max_width max_height : Z) (selected : bool) (frame : option Plane) (ok : nat -> bool) :
    option (list YuvCall * option (Z * Z)) :=
  if (max_width <=? 0) || (max_height <=? 0) || negb selected then Some ([], None)
  else
    match frame with
    | None => Some ([], None)
    | Some p =>
      if (width p <=? 0) || (height p <=? 0) || (stride p <? width p * 4) then Some ([], None)
      else
        '(w, h) ← scaled_size (width p) (height p)
                    (fmin (fmin (Binary64.of_Z 1) (ratio max_width (width p))) (ratio max_height (height p)));
        let scale := ARGBScale p (packed w h) in
        if negb (ok 0%nat) then Some ([scale], None)
        else Some ([scale; ARGBToABGR (packed w h) (packed w h)], if ok 1%nat then Some (w, h) else None)
    end.

(** ** Bounds *)

(** The rows lie in the buffer, and their length is an [int]. *)
Definition plane_ok (p : Plane) : Prop :=
  0 < width p /\ 0 < height p /\ width p * 4 <= int_max /\ width p * 4 <= stride p
  /\ (height p - 1) * stride p + width p * 4 <= buffer_size p.

Definition call_ok (c : YuvCall) : Prop :=
  match c with
  | ARGBScale p q | ARGBToABGR p q => plane_ok p /\ plane_ok q
  | ARGBToI420 p => plane_ok p
  end.

Lemma packed_ok w h : 0 < w -> 0 < h -> w * 4 <= int_max -> plane_ok (packed w h).
Proof. intros. unfold plane_ok; cbn. nia. Qed.

Lemma scaled_limit x length limit : 0 < length < 2 ^ 31 -> 0 < limit < 2 ^ 31 -> at_most x length limit ->
  exists z, floor_int (Binary64.mul (Binary64.of_Z length) x) = Some z /\ 0 <= z <= limit.
Proof.
  intros Hl Hn Hx. destruct (floor_scaled x length limit Hl Hn Hx) as (z & Hz & Hr). exists z. split; [| done].
  unfold floor_int. rewrite Hz. cbn [mbind option_bind].
  rewrite (proj2 (Z.leb_le _ _)), (proj2 (Z.ltb_lt _ _)) by lia. done.
Qed.

(** A scale that keeps to some limits for both lengths keeps to them all. *)
Lemma scaled_size_fits x w h (ws hs : list Z) :
  0 < w < 2 ^ 31 -> 0 < h < 2 ^ 31 -> ws <> [] -> hs <> [] ->
  Forall (fun n => 0 < n < 2 ^ 31 /\ at_most x w n) ws -> Forall (fun n => 0 < n < 2 ^ 31 /\ at_most x h n) hs ->
  exists a b, scaled_size w h x = Some (a, b) /\ 1 <= a /\ 1 <= b /\ Forall (fun n => a <= n) ws /\ Forall (fun n => b <= n) hs.
Proof.
  assert (Hone : forall l ns, 0 < l < 2 ^ 31 -> ns <> [] -> Forall (fun n => 0 < n < 2 ^ 31 /\ at_most x l n) ns ->
            exists a, scaled l x = Some a /\ 1 <= a /\ Forall (fun n => a <= n) ns).
  { intros l ns Hl Hne Hall. destruct ns as [| n ns]; [done |]. pose proof Hall as [[Hn Hx] _]%Forall_cons.
    destruct (scaled_limit x l n Hl Hn Hx) as (z & Hz & _). exists (Z.max 1 z). unfold scaled. rewrite Hz.
    split_and!; [done | lia |]. eapply Forall_impl; [exact Hall |]. intros m [Hm Hxm].
    destruct (scaled_limit x l m Hl Hm Hxm) as (z' & Hz' & Hr). simplify_eq. lia. }
  intros Hw Hh Hws Hhs Haw Hah. destruct (Hone w ws Hw Hws Haw) as (a & Ha & Ha1 & Haws).
  destruct (Hone h hs Hh Hhs Hah) as (b & Hb & Hb1 & Hbhs). exists a, b. unfold scaled_size. by rewrite Ha, Hb.
Qed.

Lemma at_most_mono x l n n' : n <= n' -> at_most x l n -> at_most x l n'.
Proof. intros Hn (q & e & -> & Hd & He & Hle). exists q, e. split_and!; [done | done | lia | lia | nia]. Qed.

(** A scale below one does not enlarge anything. *)
Lemma at_most_shrinks x l n l' : 0 < n < l -> l < 2 ^ 31 -> 0 < l' -> at_most x l n -> at_most x l' l'.
Proof.
  intros Hn Hl Hl' (q & e & -> & Hd & He & Hle). exists q, e. split_and!; [done | done | lia | lia |].
  set (v := Zpos q * 2 ^ (e + 200)) in *. assert (Hv : v <= 2 ^ 200).
  { destruct (Z.le_gt_cases v (2 ^ 200)); [done |]. exfalso.
    assert (2 ^ 200 * l * 2 ^ 52 < n * 2 ^ 200 * (2 ^ 52 + 1)) by nia. lia. }
  nia.
Qed.

Lemma at_most_one l : 0 < l -> at_most (Binary64.of_Z 1) l l.
Proof. intros Hl. exists (2 ^ 52)%positive, (- 52). split_and!; [reflexivity | reflexivity | lia | lia | cbn; lia]. Qed.

Lemma fmin_at_most a b l1 n1 l2 n2 : 0 < l1 -> 0 < l2 -> at_most a l1 n1 -> at_most b l2 n2 ->
  at_most (fmin a b) l1 n1 /\ at_most (fmin a b) l2 n2.
Proof. apply at_most_min. Qed.

Lemma constrain_fits w h max_w max_h :
  0 < w < 2 ^ 31 -> 0 < h < 2 ^ 31 -> 0 < max_w < 2 ^ 31 -> 0 < max_h < 2 ^ 31 -> max_w < w \/ max_h < h ->
  exists a b, constrain w h max_w max_h = Some (a, b) /\ 1 <= a <= max_w /\ 1 <= b <= max_h /\ a <= w.
Proof.
  intros Hw Hh Hmw Hmh Hbig. unfold constrain.
  destruct (fmin_at_most (ratio max_w w) (ratio max_h h) w max_w h max_h) as [H1 H2]; [lia | lia | by apply at_most_div.. |].
  assert (H3 : at_most (fmin (ratio max_w w) (ratio max_h h)) w w).
  { destruct Hbig; [apply (at_most_mono _ _ max_w); [lia | done] | by apply (at_most_shrinks _ h max_h w); lia || done]. }
  destruct (scaled_size_fits (fmin (ratio max_w w) (ratio max_h h)) w h [max_w; w] [max_h]) as (a & b & Hs & Ha & Hb & Hws & Hhs);
    [done | done | done | done | auto using Forall_cons_2, Forall_nil_2 | auto using Forall_cons_2, Forall_nil_2 |].
  exists a, b. apply Forall_cons in Hws as [Hmw' [Hw' _]%Forall_cons]. apply Forall_cons in Hhs as [Hmh' _]. split_and!; done || lia.
Qed.

(** The frame that is sent is the converted one as [AdaptFrame] asked for it; it is
    sent if nothing refuses. *)
Lemma convert_calls p ok adapt calls sent : plane_ok p -> convert p ok adapt = (calls, sent) ->
  Forall call_ok calls /\ (forall p', ARGBToI420 p' ∈ calls -> p' = p)
  /\ (forall size, sent = Some size ->
       ARGBToI420 p ∈ calls /\ exists a, adapt (width p) (height p) = Some a /\ size = (out_width a, out_height a))
  /\ ((forall n, ok n = true) -> is_Some (adapt (width p) (height p)) -> is_Some sent).
Proof.
  intros Hp. unfold convert. assert (Hin : forall p', ARGBToI420 p' ∈ [ARGBToI420 p] -> p' = p).
  { by intros p' [= ->]%list_elem_of_singleton. }
  assert (Hnot : forall p', ARGBToI420 p' ∈ @nil YuvCall -> p' = p) by (by intros p' ?%elem_of_nil).
  destruct (adapt _ _) as [a |]; [| by intros [= <- <-]; split_and!; [apply Forall_nil | .. | intros _ [? ?]]].
  destruct (_ && _) eqn:Hsame; destruct (ok 0%nat) eqn:H0, (ok 1%nat) eqn:H1, (ok 2%nat) eqn:H2; cbn [negb]; intros [= <- <-];
    (split_and!; [auto using Forall_cons_2, Forall_nil_2 | done | | try done; intros Hok; by rewrite Hok in *]);
    intros size [= <-]; (split; [by apply list_elem_of_singleton |]); exists a; (split; [done |]); try done;
    apply andb_prop in Hsame as [[_ Hw%Z.eqb_eq]%andb_prop Hh%Z.eqb_eq]; by rewrite Hw, Hh.
Qed.

Lemma acceptable_plane p timestamp_us : acceptable p timestamp_us = true -> plane_ok p /\ 0 <= timestamp_us.
Proof.
  unfold acceptable. rewrite negb_true_iff, !orb_false_iff, !Z.leb_gt, !Z.ltb_ge. intros [[[[[[Hw Hh] Hm] Hs] Ht] Hf] Hb].
  split; [| done]. change (int_max / 4) with 536870911 in Hm. unfold plane_ok, int_max.
  replace ((height p - 1) * stride p) with (stride p * height p - stride p) by lia. split_and!; lia.
Qed.

Lemma constrained_cases w h max_w max_h :
  0 < w < 2 ^ 31 -> 0 < h < 2 ^ 31 -> 0 <= max_w < 2 ^ 31 -> 0 <= max_h < 2 ^ 31 ->
  (constrained w h max_w max_h = Some None /\ (0 < max_w -> 0 < max_h -> w <= max_w /\ h <= max_h))
  \/ exists a b, constrained w h max_w max_h = Some (Some (a, b)) /\ (0 < max_w /\ 0 < max_h) /\ 1 <= a <= max_w /\ 1 <= b <= max_h /\ a <= w.
Proof.
  intros Hw Hh Hmw Hmh. unfold constrained. destruct (_ && _) eqn:Hb.
  - right. rewrite !andb_true_iff, orb_true_iff, !Z.ltb_lt in Hb. destruct Hb as [[Hw0 Hh0] Hbig].
    destruct (constrain_fits w h max_w max_h) as (a & b & -> & Ha & Hb & Haw); [lia.. |]. by exists a, b.
  - left. split; [done |]. intros Hw0 Hh0. rewrite (proj2 (Z.ltb_lt _ _) Hw0), (proj2 (Z.ltb_lt _ _) Hh0) in Hb.
    cbn [andb] in Hb. rewrite orb_false_iff, !Z.ltb_ge in Hb. lia.
Qed.

(** [AdaptFrame] scales down, never up. *)
Definition never_enlarges (adapt : Z -> Z -> option Adapted) : Prop :=
  forall w h a, adapt w h = Some a -> out_width a <= w /\ out_height a <= h.


(** A screen of four thousand pixels, shared in 720p. *)
Definition sample_frame : Plane := mkPlane (15360 * 2160) 15360 3840 2160.
Definition no_adaptation (w h : Z) : option Adapted := Some (mkAdapted w h 0 0 w h).


(** A thumbnail is no larger than was asked for, and than the source. *)
Lemma thumbnail_in_bounds max_width max_height selected p ok :
  max_width < 2 ^ 31 -> max_height < 2 ^ 31 -> width p * 4 <= int_max -> height p < 2 ^ 31 ->
  stride p * height p <= buffer_size p ->
  exists calls sent, grab_thumbnail max_width max_height selected (Some p) ok = Some (calls, sent)
    /\ Forall call_ok calls
    /\ forall w h, sent = Some (w, h) -> 1 <= w <= max_width /\ 1 <= h <= max_height /\ w <= width p /\ h <= height p.
Proof.
  intros Hmw Hmh Hi Hh Hbuf. unfold int_max in Hi. unfold grab_thumbnail.
  destruct (Z.leb_spec max_width 0); [by exists [], None |]. destruct (Z.leb_spec max_height 0); [by exists [], None |].
  destruct selected; [| by exists [], None]. cbn [orb negb].
  destruct (Z.leb_spec (width p) 0); [by exists [], None |]. destruct (Z.leb_spec (height p) 0); [by exists [], None |].
  destruct (Z.ltb_spec (stride p) (width p * 4)); [by exists [], None |]. cbn [orb].
  set (x := fmin _ _).
  assert (Hx : at_most x (width p) (width p) /\ at_most x (width p) max_width /\ at_most x (height p) (height p) /\ at_most x (height p) max_height).
  { pose proof (at_most_div max_width (width p) ltac:(lia) ltac:(lia)) as Hr1.
    pose proof (at_most_div max_height (height p) ltac:(lia) ltac:(lia)) as Hr2.
    destruct (fmin_at_most (Binary64.of_Z 1) (ratio max_width (width p)) (width p) (width p) (width p) max_width) as [Ha Hb];
      [lia | lia | by apply at_most_one | exact Hr1 |].
    destruct (fmin_at_most (Binary64.of_Z 1) (ratio max_width (width p)) (height p) (height p) (width p) max_width) as [Hc _];
      [lia | lia | by apply at_most_one | exact Hr1 |].
    destruct (fmin_at_most _ (ratio max_height (height p)) (width p) (width p) (height p) max_height ltac:(lia) ltac:(lia) Ha Hr2) as [Hx1 Hx2].
    destruct (fmin_at_most _ (ratio max_height (height p)) (width p) max_width (height p) max_height ltac:(lia) ltac:(lia) Hb Hr2) as [Hx3 _].
    destruct (fmin_at_most _ (ratio max_height (height p)) (height p) (height p) (height p) max_height ltac:(lia) ltac:(lia) Hc Hr2) as [Hx4 _].
    done. }
  destruct Hx as (Hx1 & Hx2 & Hx3 & Hx4). clearbody x.
  destruct (scaled_size_fits x (width p) (height p) [width p; max_width] [height p; max_height]) as (a & b & Hs & Ha & Hb & Hws & Hhs);
    [lia | lia | done | done | repeat (apply Forall_cons; split; [split; [lia | done] |]); by apply Forall_nil..|].
  rewrite Hs. cbn [mbind option_bind].
  apply Forall_cons in Hws as [Hw1 [Hw2 _]%Forall_cons]. apply Forall_cons in Hhs as [Hh1 [Hh2 _]%Forall_cons].
  assert (Hp : plane_ok p).
  { unfold plane_ok, int_max. replace ((height p - 1) * stride p) with (stride p * height p - stride p) by lia. split_and!; lia. }
  assert (Hpk : plane_ok (packed a b)) by (apply packed_ok; unfold int_max; lia).
  destruct (ok 0%nat); cbn [negb]; do 2 eexists; (split; [reflexivity |]); (split; [by repeat (apply Forall_cons; split) |]).
  - intros w h Hsome. destruct (ok 1%nat); [| done]. injection Hsome as <- <-. lia.
  - done.
Qed.

(** ** The capture thread *)

Record CaptureRequest := mkCapture {
  capture_source : DesktopCaptureKind;
  native_id : Z;
  max_fps : Z;
  max_width : Z;
  max_height : Z;
}.

Definition valid_capture (r : CaptureRequest) : bool :=
  negb ((max_fps r <=? 0) || (60 <? max_fps r) || (max_width r <? 0) || (max_height r <? 0)
        || negb (Bool.eqb (max_width r =? 0) (max_height r =? 0))).

(** What the thread that was started does next. *)
Inductive Phase := Preparing | Capturing | Ended.

(** What the caller of [start_capture] or [stop_capture] does next. *)
Inductive Control := Idle | Joining (next : option CaptureRequest) | Awaiting.

Record Source := mkSource {
  capture_thread : option Phase;
  capture_stop : bool;
  capture_failed : bool;
  ready : option bool;
  limits : Z * Z;
  control : Control;
  captured : nat;
}.

Definition new_source : Source := mkSource None false false None (0, 0) Idle 0.

Definition start_capture (r : CaptureRequest) (s : Source) : Source :=
  if negb (valid_capture r) then s
  else mkSource (capture_thread s) true (capture_failed s) (ready s) (limits s) (Joining (Some r)) (captured s).

Definition stop_capture (s : Source) : Source :=
  mkSource (capture_thread s) true (capture_failed s) (ready s) (limits s) (Joining None) (captured s).

Definition joinable (s : Source) : bool := match capture_thread s with None | Some Ended => true | _ => false end.

(** The caller's next step; it waits for the thread to end, and for its promise. *)
Definition advance (s : Source) : Source :=
  match control s with
  | Idle => s
  | Joining next =>
    if negb (joinable s) then s
    else match next with
         | None => mkSource None true (capture_failed s) (ready s) (0, 0) Idle (captured s)
         | Some r => mkSource (Some Preparing) false false None (max_width r, max_height r) Awaiting (captured s)
         end
  | Awaiting =>
    match ready s with
    | None => s
    | Some true => mkSource (capture_thread s) (capture_stop s) (capture_failed s) (ready s) (limits s) Idle (captured s)
    | Some false => stop_capture s
    end
  end.

(** What the capturer does in a turn: it is made and takes the source, or not;
    it delivers a frame, none for now, or fails for good; something throws. *)
Inductive Turn := Succeeds | Nothing | FailsForGood | Throws.

Definition signal_ready (value : bool) (s : Source) : option bool := match ready s with None => Some value | r => r end.

Definition with_thread (p : Phase) (r : option bool) (failed : bool) (n : nat) (s : Source) : Source :=
  mkSource (Some p) (capture_stop s) failed r (limits s) (control s) n.

(** The thread's next step. *)
Definition thread_step (t : Turn) (s : Source) : Source :=
  match capture_thread s with
  | Some Preparing =>
    match t with
    | Succeeds => with_thread Capturing (signal_ready true s) (capture_failed s) (captured s) s
    | _ => with_thread Ended (signal_ready false s) (capture_failed s) (captured s) s
    end
  | Some Capturing =>
    if capture_stop s || capture_failed s then with_thread Ended (ready s) (capture_failed s) (captured s) s
    else match t with
         | Succeeds => with_thread Capturing (ready s) (capture_failed s) (captured s + 1) s
         | Nothing => s
         | FailsForGood => with_thread Capturing (ready s) true (captured s) s
         | Throws => with_thread Ended (signal_ready false s) (capture_failed s) (captured s) s
         end
  | _ => s
  end.

Inductive Act := Start (r : CaptureRequest) | Stop | Advance | Thread (t : Turn).

Definition act (s : Source) (a : Act) : Source :=
  match a with
  | Start r => start_capture r s
  | Stop => stop_capture s
  | Advance => advance s
  | Thread t => thread_step t s
  end.

(** The client's calls: one after the other. *)
Fixpoint client_run (acts : list Act) (s : Source) : bool :=
  match acts with
  | [] => true
  | a :: acts =>
    (match a with
     | Start _ | Stop => match control s with Idle => true | _ => false end
     | _ => true
     end) && client_run acts (act s a)
  end.

Definition run (acts : list Act) : Source := foldl act new_source acts.

(** ** The capture thread ends *)

(** While nobody starts or stops, a thread runs exactly if the last start returned
    true; while one waits for it, it was told to stop. *)
Definition source_ok (s : Source) : Prop :=
  match control s with
  | Idle => match capture_thread s with
            | None => True
            | Some Preparing => False
            | Some Capturing => capture_stop s = false /\ ready s = Some true
            | Some Ended => ready s = Some true
            end
  | Joining _ => capture_stop s = true
  | Awaiting => capture_stop s = false
                /\ match capture_thread s with
                   | None => False
                   | Some Preparing => ready s = None
                   | Some Capturing => ready s = Some true
                   | Some Ended => is_Some (ready s)
                   end
  end.

Lemma act_source_ok s a :
  (match a with Start _ | Stop => control s = Idle | _ => True end) -> source_ok s -> source_ok (act s a).
Proof.
  destruct s as [th stop failed rdy lim ctl n]. unfold source_ok. destruct a as [r | | | t]; cbn; intros Hidle Hok.
  - unfold start_capture. by destruct (valid_capture r).
  - done.
  - destruct ctl as [| next |]; cbn; [done | |].
    + by destruct th as [[] |], next.
    + by destruct rdy as [[] |], th as [[] |]; cbn; destruct_and?.
  - destruct th as [[] |], ctl, t, stop, failed, rdy as [[] |]; cbn in *; naive_solver.
Qed.

Lemma source_run_ok acts s : client_run acts s = true -> source_ok s -> source_ok (foldl act s acts).
Proof.
  revert s. induction acts as [| a acts IH]; intros s Hrun Hok; [done |]. cbn in Hrun |- *.
  apply andb_prop in Hrun as [Ha Hrun]. apply IH; [done |]. apply act_source_ok; [| done].
  destruct a, (control s); done.
Qed.

(** The thread that captures the screen runs only on the order of the last call:
    between calls it runs only if the last one was a start that returned true; a
    caller who waits for it waits at most two of its turns, in which no frame is
    captured, and a stop returns with no thread and no limits; a start learns after
    one turn whether it succeeded. *)
Theorem capture_controlled acts :
  client_run acts new_source = true ->
  let s := run acts in
  (control s = Idle -> joinable s = false -> capture_thread s = Some Capturing /\ capture_stop s = false /\ ready s = Some true)
  /\ (forall next, control s = Joining next -> forall t1 t2,
        let s' := advance (thread_step t2 (thread_step t1 s)) in
        captured s' = captured s
        /\ match next with
           | None => control s' = Idle /\ capture_thread s' = None /\ limits s' = (0, 0)
           | Some r => control s' = Awaiting /\ capture_thread s' = Some Preparing /\ limits s' = (max_width r, max_height r)
           end)
  /\ (control s = Awaiting -> forall t,
        let s' := advance (thread_step t s) in
        control s' = Idle /\ ready s' = Some true \/ control s' = Joining None /\ ready s' = Some false).
Proof.
  intros Hrun s. assert (Hok : source_ok s) by (by apply (source_run_ok acts new_source)).
  destruct s as [th stop failed rdy lim ctl n]. unfold source_ok, joinable in *. cbn in *. split_and!.
  - intros -> Hj. destruct th as [[] |]; naive_solver.
  - intros next -> t1 t2. subst stop. by destruct th as [[] |], t1, t2, next; cbn; rewrite ?andb_true_r.
  - intros -> t. destruct Hok as [-> Hok]. destruct th as [[] |], t, rdy as [[] |], failed; cbn in *; naive_solver.
Qed.

Definition sample_request : CaptureRequest := mkCapture CaptureScreen 0 30 1280 720.

Definition sample_run : list Act :=
  [Start sample_request; Advance; Thread Succeeds; Advance; Thread Succeeds; Thread Succeeds; Stop].

Lemma capture_controlled_witness :
  client_run sample_run new_source = true /\ captured (run sample_run) = 2%nat
  /\ capture_thread (advance (thread_step Nothing (thread_step Nothing (run sample_run)))) = None.
Proof.
  split; [reflexivity |]. split; [reflexivity |].
  destruct (capture_controlled sample_run) as (_ & Hjoin & _); [reflexivity |].
  destruct (Hjoin None eq_refl Nothing Nothing) as (_ & _ & Hnone & _). exact Hnone.
Defined.
