(* ===== verification/PreviewSink.v ===== *)
(** * The sink of the local preview (core/src/webrtc/google_webrtc_screen_adapters.cpp)

    [LocalVideoSink]: threads attach its sink to a track, or clear it, without
    holding its lock while they call the library.  A generation tells an attachment
    that another call overtook it.  Every critical section and every call of the
    library is a step; threads interleave between them. *)

From S2P Require Import Prelude.

Local Open Scope Z_scope.
Local Open Scope list_scope.

(** A sink on a track. *)
Record Attached := mkAttached { on_track : nat; sink_id : nat }.

#[export] Instance Attached_eq_dec : EqDecision Attached.
Proof. solve_decision. Defined.

(** What a thread does next. *)
Inductive Thread :=
  | Releasing (old : option Attached) (track : nat) (generation : Z)
  | Adding (track : nat) (generation : Z)
  | Retaining (candidate : Attached) (generation : Z)
  | Removing (a : Attached).

(** The members, of which the track and the sink are set together, and the
    sinks the library has. *)
Record LocalVideoSink := mkSink {
  generation_ : Z;
  binding : option Attached;
  attached : list Attached;
  made : nat;
  threads : list Thread;
}.

Definition new_sink : LocalVideoSink := mkSink 0 None [] 0 [].

Definition remove (a : Attached) (l : list Attached) : list Attached := filter (fun b => b <> a) l.

Definition spawn (t : Thread) (w : LocalVideoSink) : LocalVideoSink :=
  mkSink (generation_ w) (binding w) (attached w) (made w) (t :: threads w).

(** [attach], to the first unlock; it returns early if the sink is on the track. *)
Definition attach (track : option nat) (w : LocalVideoSink) : LocalVideoSink :=
  match track with
  | None => w
  | Some t =>
    match binding w with
    | Some b => if bool_decide (on_track b = t) then w
                else let g := u64 (generation_ w + 1) in spawn (Releasing (Some b) t g) (mkSink g None (attached w) (made w) (threads w))
    | None => let g := u64 (generation_ w + 1) in spawn (Releasing None t g) (mkSink g None (attached w) (made w) (threads w))
    end
  end.

Definition clear (w : LocalVideoSink) : LocalVideoSink :=
  let w' := mkSink (u64 (generation_ w + 1)) None (attached w) (made w) (threads w) in
  match binding w with Some b => spawn (Removing b) w' | None => w' end.

Definition resume (t : Thread) (w : LocalVideoSink) : LocalVideoSink :=
  match t with
  | Releasing old track g =>
    spawn (Adding track g)
      (mkSink (generation_ w) (binding w) (match old with Some a => remove a (attached w) | None => attached w end) (made w) (threads w))
  | Adding track g =>
    let a := mkAttached track (made w) in
    spawn (Retaining a g) (mkSink (generation_ w) (binding w) (a :: attached w) (made w + 1) (threads w))
  | Retaining a g =>
    if (generation_ w =? g) && bool_decide (binding w = None) then mkSink (generation_ w) (Some a) (attached w) (made w) (threads w)
    else spawn (Removing a) w
  | Removing a => mkSink (generation_ w) (binding w) (remove a (attached w)) (made w) (threads w)
  end.

Inductive Act := Attach (track : option nat) | Clear | Resume (n : nat).

Definition act (w : LocalVideoSink) (a : Act) : LocalVideoSink :=
  match a with
  | Attach track => attach track w
  | Clear => clear w
  | Resume n =>
    match threads w !! n with
    | Some t => resume t (mkSink (generation_ w) (binding w) (attached w) (made w) (delete n (threads w)))
    | None => w
    end
  end.

Definition run (acts : list Act) : LocalVideoSink := foldl act new_sink acts.

(** What the last call asked for. *)
Definition wished (wish : option nat) (a : Act) : option nat :=
  match a with
  | Attach (Some t) => Some t
  | Clear => None
  | _ => wish
  end.

Definition wish (acts : list Act) : option nat := foldl wished None acts.

(** ** The invariant *)

Definition held (t : Thread) : list Attached :=
  match t with
  | Releasing (Some a) _ _ | Retaining a _ | Removing a => [a]
  | _ => []
  end.

(** The attachment a thread is at. *)
Definition attempt (t : Thread) : list (Z * nat) :=
  match t with
  | Releasing _ track g | Adding track g => [(g, track)]
  | Retaining a g => [(g, on_track a)]
  | Removing _ => []
  end.

(** The attempt that is to succeed. *)
Definition pending (goal : option nat) (w : LocalVideoSink) : list (Z * nat) :=
  match goal, binding w with Some t, None => [(generation_ w, t)] | _, _ => [] end.

(** Every other attempt is older than the generation. *)
Record sink_ok (goal : option nat) (n : Z) (w : LocalVideoSink) : Prop := {
  sk_generation : 0 <= generation_ w <= n;
  sk_attached : attached w ≡ₚ option_list (binding w) ++ (threads w ≫= held);
  sk_ids : NoDup (attached w) /\ Forall (fun a => (sink_id a < made w)%nat) (attached w);
  sk_binding : forall b, binding w = Some b -> goal = Some (on_track b);
  sk_attempts : exists old, Forall (fun p => p.1 < generation_ w) old /\ threads w ≫= attempt ≡ₚ pending goal w ++ old;
}.

Lemma remove_perm a l rest : l ≡ₚ a :: rest -> NoDup l -> remove a l ≡ₚ rest.
Proof.
  intros Hp Hn. rewrite Hp in Hn. apply NoDup_cons in Hn as [Ha _]. unfold remove. rewrite (filter_Permutation _ _ _ Hp).
  rewrite filter_cons_False by tauto. clear Hp. induction rest as [| b rest IH]; [done |].
  apply not_elem_of_cons in Ha as [Hne Ha]. rewrite filter_cons_True by congruence. by rewrite IH.
Qed.

Lemma ids_sub (m : nat) a l rest : l ≡ₚ a :: rest -> NoDup l /\ Forall (fun a => (sink_id a < m)%nat) l ->
  NoDup rest /\ Forall (fun a => (sink_id a < m)%nat) rest.
Proof. intros Hp [Hn Hf]. rewrite Hp in Hn, Hf. by apply NoDup_cons in Hn as [_ Hn]; apply Forall_cons in Hf as [_ Hf]. Qed.

Lemma sink_ok_perm goal n w ts : threads w ≡ₚ ts -> sink_ok goal n w ->
  sink_ok goal n (mkSink (generation_ w) (binding w) (attached w) (made w) ts).
Proof.
  intros Hp [Hg Ha Hids Hb (old & Hold & Hat)]. split; cbn; [done | by rewrite <- Hp | done | done |].
  exists old. split; [done |]. unfold pending in *. cbn. by rewrite <- Hp.
Qed.

Lemma remove_held a l rest m : l ≡ₚ a :: rest -> NoDup l /\ Forall (fun a => (sink_id a < m)%nat) l ->
  remove a l ≡ₚ rest /\ NoDup (remove a l) /\ Forall (fun a => (sink_id a < m)%nat) (remove a l).
Proof.
  intros Hp Hids. pose proof (remove_perm _ _ _ Hp (proj1 Hids)) as Hr. destruct (ids_sub _ _ _ _ Hp Hids). by rewrite !Hr.
Qed.

(** A thread takes its sink off. *)
Lemma remove_ok goal n g b l m a ts : sink_ok goal n (mkSink g b l m (Removing a :: ts)) -> sink_ok goal n (mkSink g b (remove a l) m ts).
Proof.
  intros [Hg Ha Hids Hb Hat]. cbn in *.
  destruct (remove_held a l (option_list b ++ (ts ≫= held)) m) as (Hp & Hn & Hf); [by rewrite Ha, Permutation_middle | done |].
  by split.
Qed.

Lemma sink_retain_ok goal n g b l m a k ts : sink_ok goal n (mkSink g b l m (Retaining a k :: ts)) ->
  sink_ok goal n (resume (Retaining a k) (mkSink g b l m ts)).
Proof.
  intros [Hg Ha Hids Hb (old & Hold & Hat)]. cbn in *. unfold pending in Hat. cbn in Hat.
  destruct (g =? k) eqn:Hk; cbn [andb]; [apply Z.eqb_eq in Hk as -> | apply Z.eqb_neq in Hk].
  - assert (Hin : (k, on_track a) ∈ (match goal, b with Some t, None => [(k, t)] | _, _ => [] end) ++ old) by (rewrite <- Hat; left).
    assert (Hno : (k, on_track a) ∉ old) by (intros Hin'; rewrite Forall_forall in Hold; specialize (Hold _ Hin'); cbn in Hold; lia).
    apply elem_of_app in Hin as [Hin | Hin]; [| done]. destruct goal as [t |], b as [b |]; try (by apply elem_of_nil in Hin).
    apply list_elem_of_singleton in Hin as [= <-]. cbn in Hat. apply (inj (cons _)) in Hat.
    split; cbn; [done | | done | by intros b [= <-] | by exists old]. by rewrite Ha.
  - split; cbn; [done | done | done | done |].
    assert (Hin : (k, on_track a) ∈ (match goal, b with Some t, None => [(g, t)] | _, _ => [] end) ++ old) by (rewrite <- Hat; left).
    apply elem_of_app in Hin as [Hin | Hin].
    { destruct goal as [t |], b; try (by apply elem_of_nil in Hin). by apply list_elem_of_singleton in Hin as [= ?]. }
    apply elem_of_Permutation in Hin as [old' Hp]. exists old'. rewrite Hp in Hold, Hat. apply Forall_cons in Hold as [_ Hold].
    split; [done |]. rewrite <- Permutation_middle in Hat. by apply (inj (cons _)) in Hat.
Qed.

Lemma sink_resume_ok goal n g b l m t ts : sink_ok goal n (mkSink g b l m (t :: ts)) -> sink_ok goal n (resume t (mkSink g b l m ts)).
Proof.
  destruct t as [old track k | track k | a k | a]; [| | apply sink_retain_ok | apply remove_ok].
  - intros [Hg Ha Hids Hb Hat]. cbn in *. destruct old as [a |]; cbn in *; [| by split].
    destruct (remove_held a l (option_list b ++ (ts ≫= held)) m) as (Hp & Hn & Hf); [by rewrite Ha, Permutation_middle | done |].
    by split.
  - intros [Hg Ha [Hn Hf] Hb Hat]. cbn in *. split; cbn; [done | by rewrite Ha, Permutation_middle | | done | done].
    split.
    + constructor; [| done]. intros Hin. rewrite Forall_forall in Hf. specialize (Hf _ Hin). cbn in Hf. lia.
    + constructor; [cbn; lia |]. eapply Forall_impl; [exact Hf |]. cbn. lia.
Qed.

(** A new generation makes every attempt an old one. *)
Lemma all_old goal n w : sink_ok goal n w -> Forall (fun p => p.1 < generation_ w + 1) (threads w ≫= attempt).
Proof.
  intros [_ _ _ _ (old & Hold & ->)]. apply Forall_app. split; [| eapply Forall_impl; [exact Hold |]; cbn; lia].
  unfold pending. destruct goal, (binding w); try (by apply Forall_nil). apply Forall_singleton. cbn. lia.
Qed.

Lemma sink_act_ok goal n w a : n + 1 < 2 ^ 64 -> sink_ok goal n w -> sink_ok (wished goal a) (n + 1) (act w a).
Proof.
  intros Hn Hok. pose proof (all_old _ _ _ Hok) as Hold. destruct a as [[t |] | | k]; cbn [act wished].
  - unfold attach. destruct Hok as [Hg Ha Hids Hb (old & Hlt & Hat)].
    assert (Hu : u64 (generation_ w + 1) = generation_ w + 1) by (apply wrap_small; split; lia). rewrite Hu.
    destruct (binding w) as [b |] eqn:Hbd.
    + case_bool_decide as Hbt.
      * split; [lia | by rewrite Hbd | done | by intros b'; rewrite Hbd; intros [= <-]; rewrite Hbt |].
        unfold pending in *. rewrite Hbd in *. exists old. split; [done |]. rewrite Hat. by destruct goal.
      * split; cbn; [lia | | done | done | exists (threads w ≫= attempt); by split]. by rewrite Ha.
    + split; cbn; [lia | by rewrite Ha | done | done | exists (threads w ≫= attempt); by split].
  - destruct Hok as [Hg Ha Hids Hb Hat]. cbn [attach]. split; [lia | done..].
  - unfold clear. destruct Hok as [Hg Ha Hids Hb (old & Hlt & Hat)].
    assert (Hu : u64 (generation_ w + 1) = generation_ w + 1) by (apply wrap_small; split; lia). rewrite Hu.
    destruct (binding w) as [b |]; split; cbn; try done; try lia; exists (threads w ≫= attempt); by split.
  - assert (Hok' : sink_ok goal (n + 1) w) by (destruct Hok; split; [lia | done..]).
    destruct (threads w !! k) as [t |] eqn:Ht; [| done]. apply sink_resume_ok.
    by apply (sink_ok_perm _ _ _ _ (delete_Permutation _ _ _ Ht)) in Hok'.
Qed.

Lemma sink_run_ok acts goal n w : n + Z.of_nat (length acts) < 2 ^ 64 -> sink_ok goal n w ->
  exists n', sink_ok (foldl wished goal acts) n' (foldl act w acts).
Proof.
  revert goal n w. induction acts as [| a acts IH]; intros goal n w Hn Hok; [by exists n |]. cbn [foldl length] in *.
  apply (IH _ (n + 1)); [lia |]. apply sink_act_ok; [lia | done].
Qed.

(** However the threads that attach and clear the sink interleave: a sink that is
    on a track is the one that is kept, or in the hands of a thread that will take
    it off; what is kept is on the track that was asked for last; and when all
    threads are done the last call has been obeyed: one sink on its track, or none
    at all. *)
Theorem preview_follows acts :
  Z.of_nat (length acts) < 2 ^ 64 ->
  let w := run acts in
  attached w ≡ₚ option_list (binding w) ++ (threads w ≫= held)
  /\ (forall b, binding w = Some b -> wish acts = Some (on_track b))
  /\ (threads w = [] -> attached w = option_list (binding w) /\ on_track <$> binding w = wish acts).
Proof.
  intros Hlen w. destruct (sink_run_ok acts None 0 new_sink ltac:(lia)) as [n [Hg Ha Hids Hb (old & Hold & Hat)]].
  { split; cbn; [lia | done | by split; constructor | done | by exists []]. }
  change (foldl wished None acts) with (wish acts) in *. change (foldl act new_sink acts) with w in *. clearbody w.
  split; [done |]. split; [done |]. intros Hdone. rewrite Hdone in Ha, Hat. cbn in Ha, Hat. rewrite app_nil_r in Ha.
  destruct (binding w) as [b |] eqn:Hbd.
  - split; [by apply Permutation_singleton_r in Ha | by rewrite (Hb b)].
  - split; [by apply Permutation_nil_r in Ha |]. unfold pending in Hat. rewrite Hbd in Hat. destruct (wish acts); [| done].
    by apply Permutation_nil_l in Hat.
Qed.

(** Attached to a track and, before that is done, to another. *)
Definition sample_run : list Act :=
  [Attach (Some 1%nat); Resume 0; Attach (Some 2%nat); Resume 0; Resume 0; Resume 0; Resume 0; Resume 0; Resume 0].

Lemma preview_follows_witness :
  threads (run sample_run) = [] /\ on_track <$> binding (run sample_run) = Some 2%nat /\ length (attached (run sample_run)) = 1%nat.
Proof.
  destruct (preview_follows sample_run) as (_ & _ & Hdone); [by vm_compute |]. split; [reflexivity |].
  destruct (Hdone eq_refl) as [Ha Hb]. split; [exact Hb | by rewrite Ha].
Defined.
