(* ===== verification/ScreenSession.v ===== *)
(** * The client's screen session (core/src/webrtc/google_webrtc_screen_session.cpp, google_webrtc_screen_adapters.cpp)

    As in VoiceSession every method is cut at its critical sections, and what
    follows one is a [Task] that any later [act] may resume.  What [start] makes
    before it publishes it, no other thread can reach, so that it is made in one
    step.  The objects of one start share a number: the connection, the source of
    the desktop's frames and its track, the track of system audio, the sinks and the
    preview's sink.  An object lives as long as the session or a task refers to it:
    [collect] runs the destructors.  The source is that of DesktopSource: starting
    and stopping a capture are single steps. *)

From S2P Require Import Prelude SessionCommon Floats Capture DesktopSource.

Local Open Scope nat_scope.
Local Open Scope list_scope.

(** ** Data *)

Record ScreenSessionConfig := mkConfig {
  remote_stream_slots : Z;
  sharing_at_start : bool;
  system_audio_at_start : bool;
  local_preview_at_start : bool;
  max_video_bitrate_bps : Z;
  max_system_audio_bitrate_bps : Z;
}.

Definition kMaxRemoteStreamSlots : Z := 16.

(** Which of the callbacks are set. *)
Record ScreenSessionCallbacks := mkCallbacks {
  on_offer : bool;
  on_candidate : bool;
  on_remote_track : bool;
  on_remote_video : bool;
  on_local_video : bool;
  on_remote_audio : bool;
  on_state : bool;
  on_error : bool;
}.

Inductive Event :=
  | StartReturned (result : bool)
  | CaptureReturned (result : bool)
  | Offered (sdp : string)
  | CandidateFound (candidate mid : string)
  | RemoteTrack (mid track_id : string) (video : bool)
  | RemoteVideo (mid : string)
  | RemoteAudio (mid : string) (view : AudioView)
  | LocalVideo
  | FrameEncoded (p : nat)
  | StateChanged (state : MediaConnectionState)
  | StatsDelivered
  | ErrorReported
  | RemoteDescriptionSet (p : nat) (sdp : string)
  | RemoteCandidateAdded (p : nat) (candidate mid : string).

Record Session := mkSession {
  pc : option nat;
  video_source : option nat;
  video_track : option nat;
  audio_track : option nat;
  remote_sinks : option nat;
  local_preview_sink : option nat;
  started : bool;
  start_attempted : bool;
  close_requested : bool;
  desired_sharing_enabled : bool;
  desired_system_audio_enabled : bool;
  desired_local_preview_enabled : bool;
}.

(** The library, the sources and the sinks.  [kept]: the vectors of the
    [RemoteScreenSinks], with the object they belong to and whether they are of
    video; [sinks]: those attached to a track. *)
Record Library := mkLibrary {
  created : nat;
  closed : gset nat;
  capturing : gset nat;
  previewing : gset nat;
  video_enabled : gmap nat bool;
  audio_enabled : gmap nat bool;
  kept : list (nat * bool * RemoteSinkBinding);
  sinks : list RemoteSinkBinding;
  next_sink : nat;
  remote_enabled : gmap nat bool;
  remote_volume : gmap nat Q;
}.

Inductive Task :=
  | Starting (sharing system_audio : bool)
  | Launching (p : nat)
  | Closing (p : nat)
  | LocalDescription (p : nat)
  | Answering (p : nat) (sdp : string)
  | RemoteDescription (p : nat)
  | AddingCandidate (p : nat) (candidate mid : string)
  | CandidateAdded (p : nat)
  | Reporting (p : nat)
  | TogglingVideo (p : nat) (enabled : bool) (capture : bool)
  | TogglingAudio (p : nat) (enabled : bool)
  | Previewing (p : nat) (enabled : bool)
  | Capturing (p : nat) (r : CaptureRequest)
  | SharingOn (p : nat)
  | StoppingCapture (p : nat)
  | Submitting (p : nat)
  | Attaching (p : nat) (video : bool) (mid : string) (t : nat) (track_id : string)
  | Retaining (p : nat) (video : bool) (b : RemoteSinkBinding) (track_id : string)
  | SettingAudio (p : nat) (mid : string) (enabled : bool)
  | SettingVolume (p : nat) (mid : string) (volume : Q)
  | Calling (e : Event).

Record World := mkWorld { session : Session; library : Library; tasks : list Task; events : list Event }.

Definition with_session (s : Session) (w : World) : World := mkWorld s (library w) (tasks w) (events w).
Definition with_library (l : Library) (w : World) : World := mkWorld (session w) l (tasks w) (events w).
Definition spawn (t : Task) (w : World) : World := mkWorld (session w) (library w) (t :: tasks w) (events w).
Definition emit (e : Event) (w : World) : World := mkWorld (session w) (library w) (tasks w) (events w ++ [e]).

(** The six members that refer to the objects of a start. *)
Definition with_objects (o : option nat) (started attempted close_requested : bool) (s : Session) : Session :=
  mkSession o o o o o o started attempted close_requested
    (desired_sharing_enabled s) (desired_system_audio_enabled s) (desired_local_preview_enabled s).

Definition with_desired (sharing system_audio preview : bool) (s : Session) : Session :=
  mkSession (pc s) (video_source s) (video_track s) (audio_track s) (remote_sinks s) (local_preview_sink s)
    (started s) (start_attempted s) (close_requested s) sharing system_audio preview.

Definition close_pc (p : nat) (l : Library) : Library :=
  mkLibrary (created l) ({[p]} ∪ closed l) (capturing l) (previewing l) (video_enabled l) (audio_enabled l) (kept l) (sinks l)
    (next_sink l) (remote_enabled l) (remote_volume l).
Definition with_capturing (c pv : gset nat) (l : Library) : Library :=
  mkLibrary (created l) (closed l) c pv (video_enabled l) (audio_enabled l) (kept l) (sinks l) (next_sink l) (remote_enabled l) (remote_volume l).
Definition with_enabled (v a : gmap nat bool) (l : Library) : Library :=
  mkLibrary (created l) (closed l) (capturing l) (previewing l) v a (kept l) (sinks l) (next_sink l) (remote_enabled l) (remote_volume l).
Definition with_sinks (k : list (nat * bool * RemoteSinkBinding)) (bs : list RemoteSinkBinding) (next : nat) (l : Library) : Library :=
  mkLibrary (created l) (closed l) (capturing l) (previewing l) (video_enabled l) (audio_enabled l) k bs next (remote_enabled l) (remote_volume l).
Definition with_remote (e : gmap nat bool) (v : gmap nat Q) (l : Library) : Library :=
  mkLibrary (created l) (closed l) (capturing l) (previewing l) (video_enabled l) (audio_enabled l) (kept l) (sinks l) (next_sink l) e v.

(** ** The objects' lives *)

(** What a task refers to: the connection, a track or the source; the sinks; the
    preview's sink. *)
Definition holds_media (t : Task) : option nat :=
  match t with
  | Launching p | Closing p | LocalDescription p | Answering p _ | RemoteDescription p | AddingCandidate p _ _
  | CandidateAdded p | Reporting p | TogglingVideo p _ _ | TogglingAudio p _ | Previewing p _ | Capturing p _ | SharingOn p
  | StoppingCapture p | Submitting p => Some p
  | _ => None
  end.
Definition holds_sinks (t : Task) : option nat :=
  match t with
  | Closing p | Attaching p _ _ _ _ | Retaining p _ _ _ | SettingAudio p _ _ | SettingVolume p _ _ => Some p
  | _ => None
  end.
Definition holds_preview (t : Task) : option nat :=
  match t with Closing p | Previewing p _ => Some p | _ => None end.

Definition held (o : option nat) (f : Task -> option nat) (ts : list Task) (p : nat) : Prop :=
  o = Some p \/ Exists (fun t => f t = Some p) ts.
#[global] Instance held_dec o f ts p : Decision (held o f ts p) := ltac:(unfold held; apply _).

(** The sinks of an object, taken off their tracks. *)
Definition clear_sinks (dead : nat -> bool) (l : Library) : Library :=
  with_sinks (filter (fun k => dead k.1.1 = false) (kept l))
    (foldl (fun bs k => remove_sink k.2 bs) (sinks l) (filter (fun k => dead k.1.1 = true) (kept l))) (next_sink l) l.

Definition collect (w : World) : World :=
  let s := session w in
  let l := clear_sinks (fun p => negb (bool_decide (held (remote_sinks s) holds_sinks (tasks w) p))) (library w) in
  with_library
    (with_capturing (filter (held (video_source s) holds_media (tasks w)) (capturing l))
       (filter (held (local_preview_sink s) holds_preview (tasks w)) (previewing l)) l) w.

Section Session.
Variable config : ScreenSessionConfig.
Variable callbacks : ScreenSessionCallbacks.
(** The runtime has a factory, and a source for injected sound. *)
Variables runtime_ready injected : bool.

Definition new_session : Session :=
  mkSession None None None None None None false false false
    (sharing_at_start config) (system_audio_at_start config) (local_preview_at_start config).

Definition new_world : World := mkWorld new_session (mkLibrary 0 ∅ ∅ ∅ ∅ ∅ [] [] 0 ∅ ∅) [] [].

Definition report_error (w : World) : World := if on_error callbacks then emit ErrorReported w else w.
Definition start_failed (w : World) : World := emit (StartReturned false) (report_error w).

(** ** start *)

Definition start (w : World) : World :=
  let s := session w in
  if (kMaxRemoteStreamSlots <? remote_stream_slots config)%Z then start_failed w
  else if ((max_video_bitrate_bps config <=? 0) || (50000000 <? max_video_bitrate_bps config))%Z then start_failed w
  else if ((max_system_audio_bitrate_bps config <=? 0) || (510000 <? max_system_audio_bitrate_bps config))%Z then start_failed w
  else if start_attempted s || close_requested s then emit (StartReturned (started s)) w
  else
    let w := with_session (mkSession (pc s) (video_source s) (video_track s) (audio_track s) (remote_sinks s) (local_preview_sink s)
                             (started s) true (close_requested s) (desired_sharing_enabled s) (desired_system_audio_enabled s)
                             (desired_local_preview_enabled s)) w in
    if negb runtime_ready then start_failed w
    else if desired_system_audio_enabled s && negb injected then start_failed w
    else spawn (Starting (desired_sharing_enabled s) (desired_system_audio_enabled s)) w.

(** Everything is made, and published unless the session was closed. *)
Definition start_build (sharing system_audio : bool) (a : Answer) (w : World) : World :=
  if negb (oks a 0) then start_failed w
  else
    let l := library w in
    let s := session w in
    let p := created l in
    let made := mkLibrary (p + 1) (closed l) (capturing l) (previewing l) (video_enabled l) (audio_enabled l) (kept l) (sinks l)
                  (next_sink l) (remote_enabled l) (remote_volume l) in
    let failed := with_library (close_pc p made) w in
    if negb (oks a 1) || negb (oks a 2) || negb (oks a 3) || negb (oks a 4) then start_failed failed
    else if negb (forallb (fun i => oks a (5 + 2 * i) && oks a (6 + 2 * i)) (seq 0 (Z.to_nat (remote_stream_slots config))))
    then start_failed failed
    else if close_requested s then emit (StartReturned false) failed
    else
      let preview := if local_preview_at_start config && on_local_video callbacks then {[p]} ∪ previewing l else previewing l in
      spawn (Launching p)
        (with_session (with_objects (Some p) true (start_attempted s) (close_requested s) s)
           (with_library
              (with_enabled (<[p := sharing]> (video_enabled l)) (<[p := system_audio]> (audio_enabled l))
                 (with_capturing (capturing l) preview made)) w)).

Definition start_launch (p : nat) (w : World) : World := spawn (LocalDescription p) (emit (StartReturned true) w).

(** ** close *)

Definition close (w : World) : World :=
  let s := session w in
  let w' := with_session (with_objects None false (start_attempted s) true s) w in
  match pc s with Some p => spawn (Closing p) w' | None => w' end.

Definition stop_source (p : nat) (l : Library) : Library := with_capturing (capturing l ∖ {[p]}) (previewing l) l.
Definition clear_preview (p : nat) (l : Library) : Library := with_capturing (capturing l) (previewing l ∖ {[p]}) l.

Definition close_rest (p : nat) (w : World) : World :=
  with_library (close_pc p (clear_preview p (clear_sinks (fun q => bool_decide (q = p)) (stop_source p (library w))))) w.

(** ** Descriptions, candidates and statistics *)

Definition current_pc (w : World) : option nat := pc (session w).
Definition owns (p : nat) (w : World) : bool := started (session w) && bool_decide (pc (session w) = Some p).

Definition on_local_description (p : nat) (a : Answer) (w : World) : World :=
  if negb (owns p w) then w
  else if negb (oks a 0) then report_error w
  else match answer_text a with
       | None => report_error w
       | Some sdp => if on_offer callbacks then spawn (Calling (Offered sdp)) w else w
       end.

Definition on_remote_description (p : nat) (a : Answer) (w : World) : World :=
  if owns p w && negb (oks a 0) then report_error w else w.

Definition apply_answer (sdp : string) (w : World) : World :=
  match current_pc w with
  | None => report_error w
  | Some p => spawn (Answering p sdp) w
  end.

Definition answer_rest (p : nat) (sdp : string) (a : Answer) (w : World) : World :=
  if negb (oks a 0) then report_error w
  else spawn (RemoteDescription p) (emit (RemoteDescriptionSet p sdp) w).

Definition add_remote_candidate (candidate mid : string) (w : World) : World :=
  match current_pc w with
  | None => report_error w
  | Some p => spawn (AddingCandidate p candidate mid) w
  end.

Definition candidate_rest (p : nat) (candidate mid : string) (a : Answer) (w : World) : World :=
  if negb (oks a 0) then report_error w
  else spawn (CandidateAdded p) (emit (RemoteCandidateAdded p candidate mid) w).

Definition on_candidate_added (p : nat) (a : Answer) (w : World) : World :=
  if owns p w && negb (oks a 0) then report_error w else w.

(** [callback]: there is one. *)
Definition get_stats (callback : bool) (w : World) : World :=
  match current_pc w with
  | Some p => if callback then spawn (Reporting p) w else w
  | None => w
  end.

Definition on_stats (p : nat) (a : Answer) (w : World) : World :=
  if owns p w && oks a 0 then spawn (Calling StatsDelivered) w else w.

(** ** What is sent *)

Definition set_sharing (enabled capture : bool) (w : World) : World :=
  let s := session w in
  let w := with_session (with_desired enabled (desired_system_audio_enabled s) (desired_local_preview_enabled s) s) w in
  match video_track s with
  | Some p => spawn (TogglingVideo p enabled capture) w
  | None => if capture then emit (CaptureReturned true) w else w
  end.

Definition set_sharing_enabled (enabled : bool) (w : World) : World := set_sharing enabled false w.

Definition set_system_audio_enabled (enabled : bool) (w : World) : World :=
  let s := session w in
  if enabled && negb injected then report_error w
  else
    let w := with_session (with_desired (desired_sharing_enabled s) enabled (desired_local_preview_enabled s) s) w in
    match audio_track s with
    | Some p => spawn (TogglingAudio p enabled) w
    | None => w
    end.

Definition toggle_video (p : nat) (enabled capture : bool) (w : World) : World :=
  let l := library w in
  let w := with_library (with_enabled (<[p := enabled]> (video_enabled l)) (audio_enabled l) l) w in
  if capture then emit (CaptureReturned true) w else w.

Definition toggle_audio (p : nat) (enabled : bool) (w : World) : World :=
  let l := library w in with_library (with_enabled (video_enabled l) (<[p := enabled]> (audio_enabled l)) l) w.

Definition set_local_preview_enabled (enabled : bool) (w : World) : World :=
  let s := session w in
  let w := with_session (with_desired (desired_sharing_enabled s) (desired_system_audio_enabled s) enabled s) w in
  match local_preview_sink s with
  | Some p => spawn (Previewing p enabled) w
  | None => w
  end.

(** The sink is attached to the track, or cleared. *)
Definition preview_rest (p : nat) (enabled : bool) (w : World) : World :=
  let l := library w in
  with_library (if enabled && on_local_video callbacks then with_capturing (capturing l) ({[p]} ∪ previewing l) l else clear_preview p l) w.

Definition sharing_enabled (w : World) : bool :=
  match video_track (session w) with
  | Some p => default false (video_enabled (library w) !! p)
  | None => desired_sharing_enabled (session w)
  end.

Definition start_desktop_capture (r : CaptureRequest) (w : World) : World :=
  match video_source (session w) with
  | Some p => spawn (Capturing p r) w
  | None => emit (CaptureReturned false) w
  end.

(** A request that is not valid leaves the source alone; any other stops it first. *)
Definition capture_rest (p : nat) (r : CaptureRequest) (a : Answer) (w : World) : World :=
  if negb (valid_capture r) then emit (CaptureReturned false) w
  else
    let l := stop_source p (library w) in
    if oks a 0 then spawn (SharingOn p) (with_library (with_capturing ({[p]} ∪ capturing l) (previewing l) l) w)
    else emit (CaptureReturned false) (with_library l w).

Definition stop_desktop_capture (w : World) : World :=
  match video_source (session w) with
  | Some p => spawn (StoppingCapture p) w
  | None => w
  end.

Definition local_frame (w : World) : World :=
  if started (session w) && desired_local_preview_enabled (session w) && on_local_video callbacks then spawn (Calling LocalVideo) w else w.

(** A frame of the source goes to the preview's sink and, while the track is
    enabled, to the encoder. *)
Definition frame_out (p : nat) (w : World) : World :=
  let l := library w in
  let w := if bool_decide (p ∈ previewing l) then local_frame w else w in
  if default false (video_enabled l !! p) && negb (bool_decide (p ∈ closed l)) then emit (FrameEncoded p) w else w.

Definition submit_bgra_frame (w : World) : World :=
  let s := session w in
  match video_source s with
  | Some p => if started s && desired_sharing_enabled s then spawn (Submitting p) w else w
  | None => w
  end.

(** ** Remote tracks *)

(** [None]: no transceiver, or no track with a mid, or of another kind. *)
Definition OnTrack (track : option (bool * string * nat * string)) (w : World) : World :=
  let s := session w in
  if negb (started s) then w
  else match track, remote_sinks s with
       | Some (video, mid, t, track_id), Some p => spawn (Attaching p video mid t track_id) w
       | _, _ => w
       end.

(** [attach_video] and [attach_audio], to the lock *)
Definition attach (p : nat) (video : bool) (mid : string) (t : nat) (track_id : string) (w : World) : World :=
  let l := library w in
  let b := mkBinding t mid (next_sink l) in
  spawn (Retaining p video b track_id) (with_library (with_sinks (kept l) (b :: sinks l) (next_sink l + 1) l) w).

Definition kept_of (p : nat) (video : bool) (l : Library) : list RemoteSinkBinding :=
  (filter (fun k => k.1 = (p, video)) (kept l)).*2.

(** and from the lock on: the sink is kept, or removed again. *)
Definition retain (p : nat) (video : bool) (b : RemoteSinkBinding) (track_id : string) (w : World) : World :=
  let l := library w in
  let duplicate := bool_decide (sink_mid b ∈ sink_mid <$> kept_of p video l) in
  let w := with_library (if duplicate then with_sinks (kept l) (remove_sink b (sinks l)) (next_sink l) l
                         else with_sinks (kept l ++ [(p, video, b)]) (sinks l) (next_sink l) l) w in
  if on_remote_track callbacks then spawn (Calling (RemoteTrack (sink_mid b) track_id video)) w else w.

Definition remote_frame (mid : string) (w : World) : World :=
  if started (session w) && on_remote_video callbacks then spawn (Calling (RemoteVideo mid)) w else w.

Definition remote_audio (mid : string) (data : bool) (bits rate channels frames : Z) (w : World) : World :=
  match audio_view data bits rate channels frames with
  | None => w
  | Some view => if started (session w) && on_remote_audio callbacks then spawn (Calling (RemoteAudio mid view)) w else w
  end.

Definition set_remote_audio_enabled (mid : string) (enabled : bool) (w : World) : World :=
  match remote_sinks (session w) with Some p => spawn (SettingAudio p mid enabled) w | None => w end.

Definition set_remote_audio_volume (mid : string) (volume : Double) (w : World) : World :=
  match remote_sinks (session w), usable_volume volume with
  | Some p, Some q => spawn (SettingVolume p mid q) w
  | _, _ => w
  end.

Definition audio_binding (p : nat) (mid : string) (l : Library) : option RemoteSinkBinding :=
  list_find (fun b => sink_mid b = mid) (kept_of p false l) ≫= fun x => Some x.2.

Definition set_audio_enabled (p : nat) (mid : string) (enabled : bool) (w : World) : World :=
  let l := library w in
  match audio_binding p mid l with
  | Some b => with_library (with_remote (<[binding_track b := enabled]> (remote_enabled l)) (remote_volume l) l) w
  | None => w
  end.

(** The source of the track takes the volume, if there is one. *)
Definition set_audio_volume (p : nat) (mid : string) (volume : Q) (a : Answer) (w : World) : World :=
  let l := library w in
  match audio_binding p mid l with
  | Some b => if oks a 0 then with_library (with_remote (remote_enabled l) (<[binding_track b := volume]> (remote_volume l)) l) w else w
  | None => w
  end.

Definition OnIceCandidate (candidate : option (string * string)) (w : World) : World :=
  if negb (started (session w)) then w
  else match candidate with
       | Some (c, mid) => if on_candidate callbacks then spawn (Calling (CandidateFound c mid)) w else w
       | None => w
       end.

Definition OnConnectionChange (raw_state : Z) (w : World) : World :=
  if on_state callbacks then emit (StateChanged (to_public_connection_state raw_state)) w else w.

(** ** Interleaving *)

Inductive Act :=
  | CallStart
  | CallClose
  | CallApplyAnswer (sdp : string)
  | CallAddRemoteCandidate (candidate mid : string)
  | CallGetStats (callback : bool)
  | CallSetSharing (enabled : bool)
  | CallSetSystemAudio (enabled : bool)
  | CallSetLocalPreview (enabled : bool)
  | CallStartCapture (r : CaptureRequest)
  | CallStopCapture
  | CallSubmitFrame
  | CallSetRemoteAudio (mid : string) (enabled : bool)
  | CallSetRemoteVolume (mid : string) (volume : Double)
  | TrackArrives (track : option (bool * string * nat * string))
  | RemoteData (b : RemoteSinkBinding) (audio : option (bool * Z * Z * Z * Z))
  | FrameCaptured (p : nat)
  | CandidateGathered (candidate : option (string * string))
  | ConnectionChanges (raw_state : Z)
  | Resume (n : nat) (a : Answer).

Definition resume (t : Task) (a : Answer) (w : World) : World :=
  match t with
  | Starting sharing system_audio => start_build sharing system_audio a w
  | Launching p => start_launch p w
  | Closing p => close_rest p w
  | LocalDescription p => on_local_description p a w
  | Answering p sdp => answer_rest p sdp a w
  | RemoteDescription p => on_remote_description p a w
  | AddingCandidate p candidate mid => candidate_rest p candidate mid a w
  | CandidateAdded p => on_candidate_added p a w
  | Reporting p => on_stats p a w
  | TogglingVideo p enabled capture => toggle_video p enabled capture w
  | TogglingAudio p enabled => toggle_audio p enabled w
  | Previewing p enabled => preview_rest p enabled w
  | Capturing p r => capture_rest p r a w
  | SharingOn p => set_sharing true true w
  | StoppingCapture p => with_library (stop_source p (library w)) w
  | Submitting p => if oks a 0 then frame_out p w else w
  | Attaching p video mid t track_id => attach p video mid t track_id w
  | Retaining p video b track_id => retain p video b track_id w
  | SettingAudio p mid enabled => set_audio_enabled p mid enabled w
  | SettingVolume p mid volume => set_audio_volume p mid volume a w
  | Calling e => emit e w
  end.

(** A source that captures delivers frames, a sink that is attached gets data. *)
Definition step (c : Act) (w : World) : World :=
  match c with
  | CallStart => start w
  | CallClose => close w
  | CallApplyAnswer sdp => apply_answer sdp w
  | CallAddRemoteCandidate candidate mid => add_remote_candidate candidate mid w
  | CallGetStats callback => get_stats callback w
  | CallSetSharing enabled => set_sharing_enabled enabled w
  | CallSetSystemAudio enabled => set_system_audio_enabled enabled w
  | CallSetLocalPreview enabled => set_local_preview_enabled enabled w
  | CallStartCapture r => start_desktop_capture r w
  | CallStopCapture => stop_desktop_capture w
  | CallSubmitFrame => submit_bgra_frame w
  | CallSetRemoteAudio mid enabled => set_remote_audio_enabled mid enabled w
  | CallSetRemoteVolume mid volume => set_remote_audio_volume mid volume w
  | TrackArrives track => OnTrack track w
  | RemoteData b audio =>
    if bool_decide (b ∈ sinks (library w)) then
      match audio with
      | None => remote_frame (sink_mid b) w
      | Some (data, bits, rate, channels, frames) => remote_audio (sink_mid b) data bits rate channels frames w
      end
    else w
  | FrameCaptured p => if bool_decide (p ∈ capturing (library w)) then frame_out p w else w
  | CandidateGathered candidate => OnIceCandidate candidate w
  | ConnectionChanges raw_state => OnConnectionChange raw_state w
  | Resume n a =>
    match tasks w !! n with
    | Some t => resume t a (mkWorld (session w) (library w) (delete n (tasks w)) (events w))
    | None => w
    end
  end.

Definition act (c : Act) (w : World) : World := collect (step c w).

Definition run (cs : list Act) : World := foldl (fun w c => act c w) new_world cs.
End Session.
