(* ===== verification/ScreenSessionLife.v ===== *)
(** * Nothing of a screen session outlives it

    The invariant of ScreenSession's runs: what was made is the session's, in the
    hands of a thread that closes it, or closed; every attached sink is kept or in
    the hands of a thread that will keep or remove it. *)

From S2P Require Import Prelude SessionCommon Floats Capture DesktopSource ScreenSession.

Local Open Scope nat_scope.
Local Open Scope list_scope.

Definition closing (t : Task) : list nat := match t with Closing p => [p] | _ => [] end.
Definition retaining (t : Task) : list RemoteSinkBinding := match t with Retaining _ _ b _ => [b] | _ => [] end.
Definition is_starting (t : Task) : bool := match t with Starting _ _ => true | _ => false end.

Record screen_ok (s : Session) (l : Library) (ts : list Task) : Prop := {
  so_objects : video_source s = pc s /\ video_track s = pc s /\ audio_track s = pc s /\ remote_sinks s = pc s /\ local_preview_sink s = pc s;
  so_started : started s = true <-> is_Some (pc s);
  so_closed : close_requested s = true -> pc s = None;
  so_created : created l + length (filter (fun t => is_starting t = true) ts) <= (if start_attempted s then 1 else 0);
  so_held : option_list (pc s) ++ (ts ≫= closing) ++ elements (closed l) ≡ₚ seq 0 (created l);
  so_sinks : sinks l ≡ₚ (kept l).*2 ++ (ts ≫= retaining);
  so_ids : NoDup (sink <$> sinks l) /\ Forall (fun b => sink b < next_sink l) (sinks l);
  so_mids : NoDup ((fun k => (k.1, sink_mid k.2)) <$> kept l);
}.

(** What the destructors leave. *)
Record collected (s : Session) (l : Library) (ts : list Task) : Prop := {
  co_kept : Forall (fun k => held (remote_sinks s) holds_sinks ts k.1.1) (kept l);
  co_capturing : forall p, p ∈ capturing l -> held (video_source s) holds_media ts p;
  co_previewing : forall p, p ∈ previewing l -> held (local_preview_sink s) holds_preview ts p;
}.

Definition world_ok (w : World) : Prop := screen_ok (session w) (library w) (tasks w).

Lemma screen_ok_perm s l ts ts' : ts ≡ₚ ts' -> screen_ok s l ts -> screen_ok s l ts'.
Proof.
  intros Hp []. split; try done.
  - by rewrite <- (filter_perm_length _ _ _ Hp).
  - by rewrite <- Hp.
  - by rewrite <- Hp.
Qed.

Definition plain (t : Task) : bool := match t with Closing _ | Retaining _ _ _ _ | Starting _ _ => false | _ => true end.

Lemma screen_ok_plain s l t ts : plain t = true -> screen_ok s l (t :: ts) <-> screen_ok s l ts.
Proof. intros Ht. destruct t; try done; (split; intros []; split; done). Qed.

(** Members and parts of the library the invariant does not speak of. *)
Lemma screen_ok_same s s' l l' ts :
  pc s' = pc s -> video_source s' = video_source s -> video_track s' = video_track s -> audio_track s' = audio_track s ->
  remote_sinks s' = remote_sinks s -> local_preview_sink s' = local_preview_sink s -> started s' = started s ->
  start_attempted s' = start_attempted s -> close_requested s' = close_requested s ->
  created l' = created l -> closed l' = closed l -> kept l' = kept l -> sinks l' = sinks l -> next_sink l' = next_sink l ->
  screen_ok s l ts -> screen_ok s' l' ts.
Proof.
  intros E1 E2 E3 E4 E5 E6 E7 E8 E9 E10 E11 E12 E13 E14 [].
  split; rewrite ?E1, ?E2, ?E3, ?E4, ?E5, ?E6, ?E7, ?E8, ?E9, ?E10, ?E11, ?E12, ?E13, ?E14; done.
Qed.

(** ** Sinks *)

Lemma filter_split {A} (f : A -> bool) l : l ≡ₚ filter (fun x => f x = true) l ++ filter (fun x => f x = false) l.
Proof.
  induction l as [| x l IH]; [done |]. destruct (f x) eqn:Hf.
  - rewrite filter_cons_True, (filter_cons_False (fun x => f x = false)) by congruence. cbn. by f_equiv.
  - rewrite filter_cons_False, (filter_cons_True (fun x => f x = false)) by congruence. rewrite IH at 1. apply Permutation_middle.
Qed.

Lemma foldl_fmap {A B C} (f : C -> B -> C) (g : A -> B) l c : foldl (fun c a => f c (g a)) c l = foldl f c (g <$> l).
Proof. revert c. induction l as [| a l IH]; intros c; [done | apply IH]. Qed.

Lemma clear_sinks_ok dead s l ts : screen_ok s l ts -> screen_ok s (clear_sinks dead l) ts.
Proof.
  intros [Ho Hst Hcl Hc Hh Hsi Hid Hm]. pose proof (filter_split (fun k : nat * bool * RemoteSinkBinding => dead k.1.1) (kept l)) as Hsplit.
  assert (Hp : sinks l ≡ₚ (filter (fun k => dead k.1.1 = true) (kept l)).*2
                 ++ ((filter (fun k => dead k.1.1 = false) (kept l)).*2 ++ (ts ≫= retaining))).
  { rewrite Hsi, Hsplit at 1. by rewrite fmap_app, app_assoc. }
  pose proof (remove_sinks_perm _ _ _ _ Hp Hid) as Hrem. pose proof (sink_ids_sub _ _ _ _ Hp Hid) as Hids.
  split; cbn [clear_sinks with_sinks created closed kept sinks next_sink]; try done; rewrite ?(foldl_fmap (fun bs b => remove_sink b bs) snd).
  - exact Hrem.
  - by rewrite Hrem.
  - rewrite Hsplit, fmap_app in Hm. by apply NoDup_app in Hm as (_ & _ & Hm).
Qed.

Lemma collect_ok w : world_ok w -> world_ok (collect w).
Proof.
  intros Hw. unfold world_ok, collect. cbn [session library tasks with_library].
  set (dead := fun p => negb _). pose proof (clear_sinks_ok dead _ _ _ Hw) as Hc. by eapply screen_ok_same; [.. | exact Hc].
Qed.

Lemma collect_collected w : collected (session (collect w)) (library (collect w)) (tasks (collect w)).
Proof.
  unfold collect. cbn. split; cbn.
  - apply Forall_forall. intros k [Hdead _]%list_elem_of_filter. apply negb_false_iff, bool_decide_eq_true in Hdead. exact Hdead.
  - by intros p [? _]%elem_of_filter.
  - by intros p [? _]%elem_of_filter.
Qed.

(** ** Connections *)

(** A thread closes the connection it holds. *)
Lemma screen_close_held_ok s l p ts : screen_ok s l (Closing p :: ts) -> screen_ok s (close_pc p l) ts.
Proof.
  intros [Ho Hst Hcl Hc Hh Hsi Hid Hm]. rewrite filter_cons_False in Hc by done. cbn [mbind list_bind closing retaining app] in Hh, Hsi.
  assert (Hfresh : p ∉ closed l).
  { apply (held_fresh (option_list (pc s)) (p :: (ts ≫= closing)) _ (created l)); [exact Hh |]. rewrite elem_of_app. right. left. }
  split; cbn [close_pc created closed sinks next_sink kept]; try done.
  rewrite (closed_perm p _ Hfresh), <- Hh. simpl. by rewrite <- !Permutation_middle.
Qed.

Section Proofs.
Variable config : ScreenSessionConfig.
Variable callbacks : ScreenSessionCallbacks.
Variables runtime_ready injected : bool.

Lemma screen_ok_emit e w : world_ok w -> world_ok (emit e w).
Proof. done. Qed.

Lemma screen_ok_report w : world_ok w -> world_ok (report_error callbacks w).
Proof. unfold report_error. by destruct (on_error callbacks). Qed.

Lemma ok_failed w : world_ok w -> world_ok (start_failed callbacks w).
Proof. apply screen_ok_report. Qed.

Lemma screen_ok_spawn t w : plain t = true -> world_ok w -> world_ok (spawn t w).
Proof. intros Ht Hw. by apply screen_ok_plain. Qed.

Lemma screen_new_world_ok : world_ok (new_world config).
Proof.
  split; simpl; try done.
  - by split; constructor.
  - constructor.
Qed.

Lemma screen_start_ok w : world_ok w -> world_ok (start config callbacks runtime_ready injected w).
Proof.
  intros Hw. unfold start. do 3 (destruct (_ : bool); [by apply ok_failed |]).
  destruct (start_attempted _ || _) eqn:Hs; [done |]. apply orb_false_iff in Hs as [Hs _].
  destruct Hw as [Ho Hst Hcl Hc Hh Hsi Hid Hm]. rewrite Hs in Hc.
  assert (Hmark : forall ts, created (library w) + length (filter (fun t => is_starting t = true) ts) <= 1 ->
            ts ≫= closing = tasks w ≫= closing -> ts ≫= retaining = tasks w ≫= retaining ->
            screen_ok (mkSession (pc (session w)) (video_source (session w)) (video_track (session w)) (audio_track (session w))
              (remote_sinks (session w)) (local_preview_sink (session w)) (started (session w)) true (close_requested (session w))
              (desired_sharing_enabled (session w)) (desired_system_audio_enabled (session w)) (desired_local_preview_enabled (session w)))
              (library w) ts).
  { intros ts H1 H2 H3. split; cbn; rewrite ?H2, ?H3; done. }
  destruct runtime_ready; cbn [negb]; [destruct (_ && _) |].
  2: { apply (Hmark (Starting _ _ :: tasks w)); [rewrite filter_cons_True by done; cbn; lia | done | done]. }
  all: apply ok_failed, Hmark; [cbn; lia | done | done].
Qed.

Lemma start_build_ok sharing system_audio a s l rest e :
  screen_ok s l (Starting sharing system_audio :: rest) ->
  world_ok (start_build config callbacks sharing system_audio a (mkWorld s l rest e)).
Proof.
  intros [Ho Hst Hcl Hc Hh Hsi Hid Hm]. rewrite filter_cons_True in Hc by done. cbn [length mbind list_bind closing retaining app] in *.
  assert (Hzero : created l = 0) by (destruct (start_attempted s); lia).
  assert (Hpc : pc s = None).
  { rewrite Hzero in Hh. apply Permutation_nil_r, app_nil in Hh as [Hpc _]. by destruct (pc s). }
  unfold start_build. cbn [session library].
  destruct (oks a 0); cbn [negb]; [| apply ok_failed; split; cbn; done || lia].
  set (failed := with_library (close_pc (created l) _) _).
  assert (Hfail : world_ok failed).
  { unfold failed, world_ok. cbn [with_library session library tasks]. apply screen_close_held_ok. split; cbn [created closed kept sinks next_sink]; try done.
    - rewrite filter_cons_False by done. lia.
    - cbn [mbind list_bind closing app]. rewrite Nat.add_1_r, seq_S, <- Hh. cbn. rewrite <- Permutation_middle. apply Permutation_cons_append. }
  destruct (_ || _); [by apply ok_failed |]. destruct (negb _); [by apply ok_failed |].
  destruct (close_requested s) eqn:Hreq; [done |]. apply screen_ok_spawn; [done |]. rewrite Hpc in Hh. split; cbn; try done.
  - lia.
  - rewrite Nat.add_1_r, seq_S, <- Hh. cbn. apply Permutation_cons_append.
Qed.

Lemma screen_close_ok w : world_ok w -> world_ok (close w).
Proof.
  intros [Ho Hst Hcl Hc Hh Hsi Hid Hm]. unfold close. destruct (pc (session w)) as [p |] eqn:Hpc; split; cbn; try done.
  all: by split; [| intros []].
Qed.

Lemma screen_close_rest_ok p s l rest e : screen_ok s l (Closing p :: rest) -> world_ok (close_rest p (mkWorld s l rest e)).
Proof.
  intros Hok. unfold world_ok, close_rest. cbn [with_library session library tasks]. apply screen_close_held_ok.
  pose proof (clear_sinks_ok (fun q => bool_decide (q = p)) _ _ _ Hok) as Hc. by eapply screen_ok_same; [.. | exact Hc].
Qed.

Lemma screen_attach_ok p video mid t id w : world_ok w -> world_ok (attach p video mid t id w).
Proof.
  intros [Ho Hst Hcl Hc Hh Hsi [Hn Hall] Hm]. unfold attach. split; cbn; try done.
  - rewrite Hsi. by rewrite <- Permutation_middle.
  - split.
    + constructor; [| done]. intros (b & Hb & Hin)%list_elem_of_fmap. rewrite Forall_forall in Hall. specialize (Hall b Hin). lia.
    + constructor; [simpl; lia |]. eapply Forall_impl; [exact Hall |]. simpl. lia.
Qed.

Lemma screen_retain_ok p video b id s l rest e :
  screen_ok s l (Retaining p video b id :: rest) -> world_ok (retain callbacks p video b id (mkWorld s l rest e)).
Proof.
  intros [Ho Hst Hcl Hc Hh Hsi Hid Hm]. rewrite filter_cons_False in Hc by done. cbn [mbind list_bind retaining closing app] in Hsi, Hh.
  unfold retain. set (w' := with_library _ _). assert (Hw : world_ok w').
  { unfold w'. cbn [session library]. case_bool_decide as Hdup.
    - assert (Hp : sinks l ≡ₚ b :: (kept l).*2 ++ (rest ≫= retaining)) by (by rewrite Hsi, <- Permutation_middle).
      destruct (sink_ids_sub _ _ _ [b] Hp Hid) as [Hn Hall]. pose proof (remove_sink_perm b _ _ Hp (proj1 Hid)) as Hr.
      split; cbn; rewrite ?Hr; done.
    - split; cbn; try done.
      + rewrite Hsi, fmap_app. by rewrite <- app_assoc.
      + rewrite fmap_app. apply NoDup_app. split; [done |]. split; [| apply NoDup_singleton].
        intros x Hx ->%list_elem_of_singleton. apply list_elem_of_fmap in Hx as ([[q v] b'] & [= <- <- Hmid] & Hk).
        apply Hdup. unfold kept_of. apply list_elem_of_fmap. exists b'. split; [done |].
        apply list_elem_of_fmap. exists (p, video, b'). split; [done |]. by apply list_elem_of_filter. }
  clearbody w'. destruct (on_remote_track callbacks); [by apply screen_ok_spawn | done].
Qed.

(** Only the wishes change. *)
Lemma ok_wishes b1 b2 b3 w : world_ok w -> world_ok (with_session (with_desired b1 b2 b3 (session w)) w).
Proof. intros Hw. by eapply screen_ok_same; [.. | exact Hw]. Qed.

Lemma ok_library l w :
  created l = created (library w) -> closed l = closed (library w) -> kept l = kept (library w) -> sinks l = sinks (library w) ->
  next_sink l = next_sink (library w) -> world_ok w -> world_ok (with_library l w).
Proof. intros E1 E2 E3 E4 E5 Hw. eapply screen_ok_same; [.. | exact Hw]; done. Qed.

Lemma ok_set_sharing enabled capture w : world_ok w -> world_ok (set_sharing enabled capture w).
Proof.
  intros Hw. apply (ok_wishes enabled (desired_system_audio_enabled (session w)) (desired_local_preview_enabled (session w))) in Hw.
  unfold set_sharing. destruct (video_track _); [by apply screen_ok_spawn | by destruct capture].
Qed.

Lemma ok_frame p w : world_ok w -> world_ok (frame_out callbacks p w).
Proof.
  intros Hw. unfold frame_out. assert (Hl : world_ok (local_frame callbacks w)).
  { unfold local_frame. destruct (_ && _); [by apply screen_ok_spawn | done]. }
  destruct (bool_decide (p ∈ previewing _)), (_ && _); done.
Qed.

Lemma screen_resume_ok t a s l rest e : screen_ok s l (t :: rest) -> world_ok (resume config callbacks t a (mkWorld s l rest e)).
Proof.
  intros Hok. assert (Hplain : plain t = true -> world_ok (mkWorld s l rest e)) by (intros Ht; by apply screen_ok_plain in Hok).
  destruct t; cbn [resume]; try specialize (Hplain eq_refl).
  - by apply start_build_ok.
  - by apply screen_ok_spawn, screen_ok_emit.
  - by apply screen_close_rest_ok.
  - unfold on_local_description. destruct (owns _ _), (oks a 0), (answer_text a), (on_offer callbacks);
      simpl; auto using screen_ok_report, screen_ok_spawn.
  - unfold answer_rest. destruct (oks a 0); simpl; auto using screen_ok_report, screen_ok_spawn, screen_ok_emit.
  - unfold on_remote_description. destruct (_ && _); auto using screen_ok_report.
  - unfold candidate_rest. destruct (oks a 0); simpl; auto using screen_ok_report, screen_ok_spawn, screen_ok_emit.
  - unfold on_candidate_added. destruct (_ && _); auto using screen_ok_report.
  - unfold on_stats. destruct (_ && _); auto using screen_ok_spawn.
  - unfold toggle_video. destruct capture; [apply screen_ok_emit |]; by apply ok_library.
  - by apply ok_library.
  - unfold preview_rest. destruct (_ && _); by apply ok_library.
  - unfold capture_rest. destruct (valid_capture r), (oks a 0); cbn [negb]; auto using screen_ok_emit; [apply screen_ok_spawn; [done |] | apply screen_ok_emit];
      by apply ok_library.
  - by apply ok_set_sharing.
  - by apply ok_library.
  - destruct (oks a 0); [by apply ok_frame | done].
  - by apply screen_attach_ok.
  - by apply screen_retain_ok.
  - unfold set_audio_enabled. destruct (audio_binding _ _ _); [by apply ok_library | done].
  - unfold set_audio_volume. destruct (audio_binding _ _ _), (oks a 0); [by apply ok_library | done..].
  - by apply screen_ok_emit.
Qed.

Lemma step_ok c w : world_ok w -> world_ok (step config callbacks runtime_ready injected c w).
Proof.
  intros Hw. destruct c; cbn [step].
  - by apply screen_start_ok.
  - by apply screen_close_ok.
  - unfold apply_answer. destruct (current_pc w); auto using screen_ok_spawn, screen_ok_report.
  - unfold add_remote_candidate. destruct (current_pc w); auto using screen_ok_spawn, screen_ok_report.
  - unfold get_stats. destruct (current_pc w), callback; auto using screen_ok_spawn.
  - by apply ok_set_sharing.
  - unfold set_system_audio_enabled. destruct (_ && _); [by apply screen_ok_report |].
    apply (ok_wishes (desired_sharing_enabled (session w)) enabled (desired_local_preview_enabled (session w))) in Hw.
    destruct (audio_track _); [by apply screen_ok_spawn | done].
  - unfold set_local_preview_enabled.
    apply (ok_wishes (desired_sharing_enabled (session w)) (desired_system_audio_enabled (session w)) enabled) in Hw.
    destruct (local_preview_sink _); [by apply screen_ok_spawn | done].
  - unfold start_desktop_capture. destruct (video_source _); [by apply screen_ok_spawn | done].
  - unfold stop_desktop_capture. destruct (video_source _); [by apply screen_ok_spawn | done].
  - unfold submit_bgra_frame. destruct (video_source _); [| done]. destruct (_ && _); auto using screen_ok_spawn.
  - unfold set_remote_audio_enabled. destruct (remote_sinks _); [by apply screen_ok_spawn | done].
  - unfold set_remote_audio_volume. destruct (remote_sinks _), (usable_volume volume); auto using screen_ok_spawn.
  - unfold OnTrack. destruct (started _), track as [[[[] ?] ?] |], (remote_sinks (session w)); simpl; auto using screen_ok_spawn.
  - destruct (bool_decide _); [| done]. destruct audio as [[[[[data bits] rate] chans] frms] |].
    + unfold remote_audio. destruct (audio_view data bits rate chans frms); [| done]. destruct (_ && _); auto using screen_ok_spawn.
    + unfold remote_frame. destruct (_ && _); auto using screen_ok_spawn.
  - destruct (bool_decide _); [by apply ok_frame | done].
  - unfold OnIceCandidate. destruct (started _), candidate as [[] |], (on_candidate callbacks); simpl; auto using screen_ok_spawn.
  - unfold OnConnectionChange. by destruct (on_state callbacks).
  - destruct (tasks w !! n) as [t |] eqn:Ht; [| done]. apply screen_resume_ok.
    eapply screen_ok_perm; [| exact Hw]. by apply delete_Permutation.
Qed.

Lemma run_screen_ok cs :
  let w := run config callbacks runtime_ready injected cs in world_ok w /\ collected (session w) (library w) (tasks w).
Proof.
  unfold run. assert (Hnew : world_ok (new_world config) /\ collected (session (new_world config)) (library (new_world config)) (tasks (new_world config))).
  { split; [apply screen_new_world_ok |]. split; cbn; [by apply Forall_nil | by intros p ?%elem_of_empty | by intros p ?%elem_of_empty]. }
  revert Hnew. generalize (new_world config). induction cs as [| c cs IH]; intros w [Hw Hcol]; [done |]. cbn [foldl].
  apply IH. split; [by apply collect_ok, step_ok | apply collect_collected].
Qed.

(** C28 Whatever the application, the library and the capturer do, and in whatever
    order their threads run: a session makes at most one peer connection, which is
    the session's, in the hands of the thread that closes it, or closed, and never
    two of these; every sink on a remote track is kept, one per mid and kind, or in
    the hands of a thread.  After close() it keeps nothing, and once the threads
    are done nothing is open, attached or captured. *)
Theorem screen_session_no_leak cs :
  let w := run config callbacks runtime_ready injected cs in
  created (library w) <= 1
  /\ option_list (pc (session w)) ++ (tasks w ≫= closing) ++ elements (closed (library w)) ≡ₚ seq 0 (created (library w))
  /\ sinks (library w) ≡ₚ (kept (library w)).*2 ++ (tasks w ≫= retaining)
  /\ NoDup ((fun k => (k.1, sink_mid k.2)) <$> kept (library w))
  /\ (close_requested (session w) = true ->
       started (session w) = false /\ pc (session w) = None /\ video_source (session w) = None
       /\ (tasks w = [] ->
            (forall p, p < created (library w) -> p ∈ closed (library w)) /\ sinks (library w) = []
            /\ capturing (library w) = ∅ /\ previewing (library w) = ∅)).
Proof.
  intros w. destruct (run_screen_ok cs) as [[(H1 & H2 & H3 & H4 & H5) Hst Hcl Hc Hh Hsi Hid Hm] [Hk Hcap Hprev]].
  fold w in H1, H2, H3, H4, H5, Hst, Hcl, Hc, Hh, Hsi, Hid, Hm, Hk, Hcap, Hprev.
  split; [destruct (start_attempted _); lia |]. do 3 (split; [done |]). intros Hreq. specialize (Hcl Hreq).
  split; [| split; [done | split; [congruence |]]].
  { destruct (started _); [| done]. destruct (proj1 Hst eq_refl) as [p Hp]. congruence. }
  intros Hdone. rewrite Hcl, Hdone in Hh. rewrite Hdone in Hsi, Hk, Hcap, Hprev. rewrite H4, Hcl in Hk. rewrite H1, Hcl in Hcap. rewrite H5, Hcl in Hprev.
  assert (Hno : forall f p, held None f [] p -> False) by (intros f p [? | Hex]; [done | by inversion Hex]).
  split_and!.
  - intros p Hp. apply elem_of_elements. simpl in Hh. rewrite Hh. apply elem_of_seq. lia.
  - destruct (kept (library w)) as [| k ks]; [by apply Permutation_nil_r in Hsi |]. apply Forall_cons in Hk as [Hk _]. by apply Hno in Hk.
  - apply leibniz_equiv. intros p. split; [intros Hp%Hcap; by apply Hno in Hp | done].
  - apply leibniz_equiv. intros p. split; [intros Hp%Hprev; by apply Hno in Hp | done].
Qed.
End Proofs.
