(* ===== verification/ScreenServes.v ===== *)
(** * The screen session does what its client asks

    ClientScreen knows a session by what it was asked for: what is on the air, and
    whether it is closed.  Here the session of ScreenSession is shown to implement
    this: the client's calls, one after the other as [sharing_mutex] and
    [screen_lifecycle_mutex] order them, are interleaved with everything else that
    may happen to a session. *)

From S2P Require Import Prelude SessionCommon Floats Capture DesktopSource ClientScreen ScreenSession ScreenSessionLife.

Local Open Scope nat_scope.
Local Open Scope list_scope.

(** ** The client's calls *)

(** A thread of the client at work on what is sent. *)
Definition is_client (t : Task) : bool :=
  match t with
  | Starting _ _ | Launching _ | Closing _ | TogglingVideo _ _ _ | TogglingAudio _ _ | Capturing _ _ | SharingOn _ | StoppingCapture _ => true
  | _ => false
  end.

Definition clients (ts : list Task) : list Task := filter (fun t => is_client t = true) ts.

#[global] Arguments clients : simpl never.

Definition is_call (c : Act) : bool :=
  match c with
  | CallStart | CallClose | CallSetSharing _ | CallSetSystemAudio _ | CallStartCapture _ | CallStopCapture => true
  | _ => false
  end.

(** The client calls one after the other, and starts a session first. *)
Definition in_turn (c : Act) (w : World) : bool :=
  match c with
  | CallStart => bool_decide (clients (tasks w) = [])
  | CallClose | CallSetSharing _ | CallSetSystemAudio _ | CallStartCapture _ | CallStopCapture =>
    start_attempted (session w) && bool_decide (clients (tasks w) = [])
  | _ => true
  end.

Section Serves.
Variable config : ScreenSessionConfig.
Variable callbacks : ScreenSessionCallbacks.
Variable runtime_ready : bool.
(** The client's number of the session. *)
Variable id : nat.

(** Nothing is sent at the start, and the client's runtime takes injected sound. *)
Hypothesis starts_silent : sharing_at_start config = false /\ system_audio_at_start config = false.
Hypothesis within_limits :
  (remote_stream_slots config <= kMaxRemoteStreamSlots /\ 0 < max_video_bitrate_bps config <= 50000000
   /\ 0 < max_system_audio_bitrate_bps config <= 510000)%Z.

Abbreviation act := (act config callbacks runtime_ready true).
Abbreviation step := (step config callbacks runtime_ready true).

Fixpoint in_turn_run (cs : list Act) (w : World) : bool :=
  match cs with
  | [] => true
  | c :: cs => in_turn c w && in_turn_run cs (act c w)
  end.

(** What ClientScreen makes of a step. *)
Definition sound_section (enabled : bool) (s : Sessions) : Sessions :=
  if enabled then (if bool_decide (id ∈ ClientScreen.closed s) then s else switch_on (SystemTrack id) s)
  else switch_off (SystemTrack id) s.

Definition sharing_section (enabled : bool) (s : Sessions) : Sessions :=
  if enabled then (if bool_decide (id ∈ ClientScreen.closed s) then s else switch_on (VideoTrack id) s)
  else switch_off (VideoTrack id) s.

Definition asked (c : Act) (w : World) (s : Sessions) : Sessions :=
  match c with
  | CallStart =>
    if start_attempted (session w) then s
    else match clients (tasks (step c w)) with [] => close_session id s | _ => s end
  | CallClose => close_session id s
  | CallSetSharing enabled => sharing_section enabled s
  | CallSetSystemAudio enabled => sound_section enabled s
  | CallStopCapture => switch_off (Desktop id) s
  | Resume n a =>
    match tasks w !! n with
    | Some (Starting _ _) => if bool_decide (is_Some (pc (session (step c w)))) then s else close_session id s
    | Some (Capturing _ r) => if valid_capture r && oks a 0 then switch_on (VideoTrack id) (switch_on (Desktop id) s) else s
    | _ => s
    end
  | _ => s
  end.

Fixpoint asked_run (cs : list Act) (w : World) (s : Sessions) : Sessions :=
  match cs with
  | [] => s
  | c :: cs => asked_run cs (act c w) (asked c w s)
  end.

(** ** The invariant *)

Definition track_on (o : option nat) (m : gmap nat bool) : Prop := exists p, o = Some p /\ m !! p = Some true.

Definition task_ok (o : option nat) (s : Sessions) (t : Task) : Prop :=
  match t with
  | Starting sharing system_audio => sharing = false /\ system_audio = false /\ o = None
  | Launching p | Capturing p _ => o = Some p
  | Closing p => o = None /\ p = 0
  | TogglingVideo p b _ => o = Some p /\ (VideoTrack id ∈ on_air s <-> b = true)
  | TogglingAudio p b => o = Some p /\ (SystemTrack id ∈ on_air s <-> b = true)
  | SharingOn p => o = Some p /\ VideoTrack id ∈ on_air s /\ id ∉ ClientScreen.closed s
  | StoppingCapture p => o = Some p /\ Desktop id ∉ on_air s
  | _ => False
  end.

Definition video_pending (t : Task) : bool := match t with TogglingVideo _ _ _ | SharingOn _ => true | _ => false end.
Definition audio_pending (t : Task) : bool := match t with TogglingAudio _ _ => true | _ => false end.
Definition desktop_pending (t : Task) : bool := match t with StoppingCapture _ | Closing _ => true | _ => false end.
Definition is_closing (t : Task) : bool := match t with Closing _ => true | _ => false end.
Definition start_pending (t : Task) : bool := match t with Starting _ _ => true | _ => false end.

Record serves (o : option nat) (attempted : bool) (cap : gset nat) (ve ae : gmap nat bool) (cl : list Task) (s : Sessions) : Prop := {
  sv_zero : forall p, o = Some p -> p = 0;
  sv_capturing : forall q, q ∈ cap -> q = 0;
  sv_one : length cl <= 1;
  sv_tasks : Forall (task_ok o s) cl;
  sv_before : attempted = false -> o = None /\ cl = [];
  sv_gone : o = None -> existsb is_closing cl = true \/ cap = ∅;
  sv_closed : id ∈ ClientScreen.closed s <-> attempted = true /\ o = None /\ forallb (fun t => negb (start_pending t)) cl = true;
  sv_desktop : existsb desktop_pending cl = true \/ (forall q, q ∈ cap -> Desktop id ∈ on_air s);
  sv_video : existsb video_pending cl = true \/ (track_on o ve <-> VideoTrack id ∈ on_air s);
  sv_audio : existsb audio_pending cl = true \/ (track_on o ae <-> SystemTrack id ∈ on_air s);
}.

Definition served (w : World) (s : Sessions) : Prop :=
  serves (pc (session w)) (start_attempted (session w)) (capturing (library w)) (video_enabled (library w)) (audio_enabled (library w))
    (clients (tasks w)) s
  /\ (start_attempted (session w) = false -> desired_sharing_enabled (session w) = false /\ desired_system_audio_enabled (session w) = false
        /\ close_requested (session w) = false).

(** ** Everything else *)

Lemma clients_perm ts ts' : ts ≡ₚ ts' -> clients ts ≡ₚ clients ts'.
Proof. intros Hp. by apply filter_Permutation. Qed.

Lemma clients_plain t ts : is_client t = false -> clients (t :: ts) = clients ts.
Proof. intros Ht. unfold clients. by rewrite filter_cons_False by congruence. Qed.

Lemma clients_client t ts : is_client t = true -> clients (t :: ts) = t :: clients ts.
Proof. intros Ht. unfold clients. by rewrite filter_cons_True. Qed.

Lemma clients_delete n t ts : ts !! n = Some t -> clients ts ≡ₚ clients (t :: delete n ts).
Proof. intros Ht. by apply clients_perm, delete_Permutation. Qed.

(** Two worlds that differ in nothing the client's calls speak of. *)
Definition alike (w w' : World) : Prop :=
  pc (session w') = pc (session w) /\ start_attempted (session w') = start_attempted (session w)
  /\ close_requested (session w') = close_requested (session w)
  /\ desired_sharing_enabled (session w') = desired_sharing_enabled (session w)
  /\ desired_system_audio_enabled (session w') = desired_system_audio_enabled (session w)
  /\ capturing (library w') ⊆ capturing (library w)
  /\ video_enabled (library w') = video_enabled (library w) /\ audio_enabled (library w') = audio_enabled (library w)
  /\ clients (tasks w') = clients (tasks w).

Lemma alike_refl w : alike w w.
Proof. done. Qed.

Lemma alike_trans w1 w2 w3 : alike w1 w2 -> alike w2 w3 -> alike w1 w3.
Proof. unfold alike. intuition (etrans; eauto). Qed.

Lemma alike_emit e w w' : alike w w' -> alike w (emit e w').
Proof. done. Qed.

Lemma alike_report w w' : alike w w' -> alike w (report_error callbacks w').
Proof. unfold report_error. by destruct (on_error callbacks). Qed.

Lemma alike_spawn t w w' : is_client t = false -> alike w w' -> alike w (spawn t w').
Proof. intros Ht Hw. unfold alike. cbn [spawn session library tasks]. by rewrite clients_plain. Qed.

Lemma alike_library l w w' :
  capturing l ⊆ capturing (library w') -> video_enabled l = video_enabled (library w') -> audio_enabled l = audio_enabled (library w') ->
  alike w w' -> alike w (with_library l w').
Proof. intros H1 H2 H3 Hw. eapply alike_trans; [exact Hw |]. by split_and!. Qed.

Lemma alike_collect w : alike w (collect w).
Proof. unfold alike, collect. cbn. split_and!; try done. by intros p [_ Hp]%elem_of_filter. Qed.

#[local] Hint Resolve alike_refl alike_emit alike_report : core.
#[local] Hint Resolve alike_spawn : core.

Lemma alike_served w w' s : alike w w' -> served w s -> served w' s.
Proof.
  intros (E1 & E2 & E9 & E3 & E4 & E5 & E6 & E7 & E8) [[Hz Hc H1 Ht Hb Hg Hcl Hd Hv Ha] Hdes].
  unfold served. rewrite E1, E2, E3, E4, E6, E7, E8, E9. split; [| done]. split; try done.
  - intros q Hq. by apply Hc, E5.
  - intros Ho. specialize (Hg Ho) as [Hg | Hg]; [by left | right]. set_solver.
  - destruct Hd as [Hd | Hd]; [by left | right]. intros q Hq. by apply (Hd q), E5.
Qed.

Lemma frame_alike p w w' : alike w w' -> alike w (frame_out callbacks p w').
Proof.
  intros Hw. unfold frame_out. assert (Hl : alike w (local_frame callbacks w')).
  { unfold local_frame. destruct (_ && _); auto. }
  destruct (bool_decide (p ∈ previewing _)), (_ && _); auto.
Qed.

Lemma resume_alike t a w : is_client t = false -> alike w (resume config callbacks t a w).
Proof.
  intros Ht. destruct t; try discriminate Ht; cbn [resume].
  - unfold on_local_description. destruct (owns _ _), (oks a 0), (answer_text a), (on_offer callbacks); simpl; auto.
  - unfold answer_rest. destruct (oks a 0); simpl; auto.
  - unfold on_remote_description. destruct (_ && _); auto.
  - unfold candidate_rest. destruct (oks a 0); simpl; auto.
  - unfold on_candidate_added. destruct (_ && _); auto.
  - unfold on_stats. destruct (_ && _); auto.
  - unfold preview_rest. destruct (_ && _); by apply alike_library.
  - destruct (oks a 0); [by apply frame_alike | done].
  - unfold attach. apply alike_spawn; [done |]. by apply alike_library.
  - unfold retain. set (w' := with_library _ w). assert (Hw : alike w w') by (apply alike_library; by case_bool_decide || done).
    destruct (on_remote_track callbacks); auto.
  - unfold set_audio_enabled. destruct (audio_binding _ _ _); [by apply alike_library | done].
  - unfold set_audio_volume. destruct (audio_binding _ _ _), (oks a 0); done.
  - auto.
Qed.

Lemma other_alike c w : is_call c = false -> (forall n a, c <> Resume n a) -> alike w (step c w).
Proof.
  intros Hc Hn. destruct c; try done; cbn [ScreenSession.step].
  - unfold apply_answer. destruct (current_pc w); auto.
  - unfold add_remote_candidate. destruct (current_pc w); auto.
  - unfold get_stats. destruct (current_pc w), callback; auto.
  - unfold set_local_preview_enabled. destruct (local_preview_sink _); [by apply alike_spawn | done].
  - unfold submit_bgra_frame. destruct (video_source _); [| done]. destruct (_ && _); auto.
  - unfold set_remote_audio_enabled. destruct (remote_sinks _); auto.
  - unfold set_remote_audio_volume. destruct (remote_sinks _), (usable_volume volume); auto.
  - unfold OnTrack. destruct (started _), track as [[[[] ?] ?] |], (remote_sinks (session w)); simpl; auto.
  - destruct (bool_decide _); [| done]. destruct audio as [[[[[data bits] rate] chans] frms] |].
    + unfold remote_audio. destruct (audio_view data bits rate chans frms); [| done]. destruct (_ && _); auto.
    + unfold remote_frame. destruct (_ && _); auto.
  - destruct (bool_decide _); [by apply frame_alike | done].
  - unfold OnIceCandidate. destruct (started _), candidate as [[] |], (on_candidate callbacks); simpl; auto.
  - unfold OnConnectionChange. by destruct (on_state callbacks).
  - by destruct (Hn n a).
Qed.

(** ** The client's steps *)

Lemma serves_perm o a cap ve ae cl cl' s : cl ≡ₚ cl' -> serves o a cap ve ae cl s -> serves o a cap ve ae cl' s.
Proof.
  intros Hp Hs. pose proof (sv_one _ _ _ _ _ _ _ Hs) as Hone. destruct cl as [| t [| t' cl]]; cbn in Hone; [| | lia].
  - apply Permutation_nil_l in Hp. by subst.
  - apply Permutation_singleton_l in Hp. by subst.
Qed.

(** The one client's task is run. *)
Lemma clients_one t ts ts' : clients ts ≡ₚ clients (t :: ts') -> is_client t = true -> length (clients ts) <= 1 -> clients ts = [t] /\ clients ts' = [].
Proof.
  intros Hp Ht Hone. rewrite clients_client in Hp by done. pose proof (Permutation_length Hp) as Hl. cbn in Hl.
  destruct (clients ts') as [| t' cl]; [| cbn in Hl; lia]. split; [by apply Permutation_singleton_r in Hp | done].
Qed.

Ltac serve := split; cbn; rewrite ?Forall_cons, ?Forall_nil; try solve [done | lia | tauto | intros; by left | intros; by right].

Lemma off_air x : id ∈ ClientScreen.closed (close_session id x)
  /\ Desktop id ∉ on_air (close_session id x) /\ VideoTrack id ∉ on_air (close_session id x) /\ SystemTrack id ∉ on_air (close_session id x).
Proof. cbn. set_solver. Qed.

Lemma on_other (x y : Source) (A : gset Source) : x <> y -> y ∈ {[x]} ∪ A <-> y ∈ A.
Proof. set_solver. Qed.
Lemma off_other (x y : Source) (A : gset Source) : x <> y -> y ∈ A ∖ {[x]} <-> y ∈ A.
Proof. set_solver. Qed.
Lemma on_self (x : Source) (A : gset Source) : x ∈ {[x]} ∪ A <-> true = true.
Proof. set_solver. Qed.
Lemma off_self (x : Source) (A : gset Source) : x ∈ A ∖ {[x]} <-> false = true.
Proof. set_solver. Qed.
Lemma only_zero (A : gset nat) : (forall q, q ∈ A -> q = 0) -> A ∖ {[0]} = ∅.
Proof. intros H. apply leibniz_equiv. intros q. specialize (H q). set_solver. Qed.

Lemma track_off m : ~ track_on None m.
Proof. by intros (? & ? & _). Qed.

Lemma track_set p m b : track_on (Some p) (<[p := b]> m) <-> b = true.
Proof.
  split.
  - intros (q & [= <-] & Hq). rewrite lookup_insert_eq in Hq. by injection Hq.
  - intros ->. exists p. by rewrite lookup_insert_eq.
Qed.

Lemma serves_close o cap ve ae s : serves o true cap ve ae [] s ->
  serves None true cap ve ae (match o with Some p => [Closing p] | None => [] end) (close_session id s).
Proof.
  intros [Hz Hc H1 Ht Hb Hg Hcl Hd Hv Ha]. destruct (off_air s) as (Hid & Hdo & Hvo & Hao).
  pose proof (track_off ve). pose proof (track_off ae).
  destruct o as [p |]; serve.
  - split; [split; [done | by apply Hz] | done].
  - destruct (Hg eq_refl) as [? | ->]; [done | right; set_solver].
Qed.

Lemma serves_closed p cap ve ae s : serves None true cap ve ae [Closing p] s -> serves None true (cap ∖ {[p]}) ve ae [] s.
Proof.
  intros [Hz Hc H1 [[_ ->] _]%Forall_cons Hb Hg Hcl Hd Hv Ha].
  rewrite (only_zero cap Hc). by serve.
Qed.

(** A wish for a track becomes the track's state. *)
Lemma serves_sharing o cap ve ae b capture s : serves o true cap ve ae [] s ->
  serves o true cap ve ae (match o with Some p => [TogglingVideo p b capture] | None => [] end) (sharing_section b s).
Proof.
  intros [Hz Hc H1 Ht Hb Hg Hcl Hd Hv Ha]. unfold sharing_section. destruct o as [p |].
  - assert (Hno : id ∉ ClientScreen.closed s) by (intros Hin; by apply Hcl in Hin as (_ & ? & _)).
    destruct b; [rewrite bool_decide_false by done |]; serve; rewrite ?on_other, ?off_other by done; try done.
    + split; [split; [done | apply on_self] | done].
    + destruct Hd as [? | Hd]; [done |]. right. intros q Hq. rewrite on_other by done. by apply (Hd q).
    + split; [split; [done | apply off_self] | done].
    + destruct Hd as [? | Hd]; [done |]. right. intros q Hq. rewrite off_other by done. by apply (Hd q).
  - assert (Hin : id ∈ ClientScreen.closed s) by (by apply Hcl). destruct b; [by rewrite bool_decide_true |].
    destruct (Hg eq_refl) as [? | ->]; [done |]. serve; rewrite ?off_other by done; try done.
    right. split; [by intros ?%track_off | by intros ?%off_self].
Qed.

Lemma serves_sound o cap ve ae b s : serves o true cap ve ae [] s ->
  serves o true cap ve ae (match o with Some p => [TogglingAudio p b] | None => [] end) (sound_section b s).
Proof.
  intros [Hz Hc H1 Ht Hb Hg Hcl Hd Hv Ha]. unfold sound_section. destruct o as [p |].
  - assert (Hno : id ∉ ClientScreen.closed s) by (intros Hin; by apply Hcl in Hin as (_ & ? & _)).
    destruct b; [rewrite bool_decide_false by done |]; serve; rewrite ?on_other, ?off_other by done; try done.
    + split; [split; [done | apply on_self] | done].
    + destruct Hd as [? | Hd]; [done |]. right. intros q Hq. rewrite on_other by done. by apply (Hd q).
    + split; [split; [done | apply off_self] | done].
    + destruct Hd as [? | Hd]; [done |]. right. intros q Hq. rewrite off_other by done. by apply (Hd q).
  - assert (Hin : id ∈ ClientScreen.closed s) by (by apply Hcl). destruct b; [by rewrite bool_decide_true |].
    destruct (Hg eq_refl) as [? | ->]; [done |]. serve; rewrite ?off_other by done; try done.
    right. split; [by intros ?%track_off | by intros ?%off_self].
Qed.

Lemma serves_toggled p b capture cap ve ae s : serves (Some p) true cap ve ae [TogglingVideo p b capture] s ->
  serves (Some p) true cap (<[p := b]> ve) ae [] s.
Proof.
  intros [Hz Hc H1 [[_ Hb'] _]%Forall_cons Hb Hg Hcl Hd Hv Ha]. serve.
  right. rewrite track_set. tauto.
Qed.

Lemma serves_heard p b cap ve ae s : serves (Some p) true cap ve ae [TogglingAudio p b] s ->
  serves (Some p) true cap ve (<[p := b]> ae) [] s.
Proof.
  intros [Hz Hc H1 [[_ Hb'] _]%Forall_cons Hb Hg Hcl Hd Hv Ha]. serve.
  right. rewrite track_set. tauto.
Qed.

(** Capturing, and its end. *)
Lemma serves_capture p r a cap ve ae s : serves (Some p) true cap ve ae [Capturing p r] s ->
  valid_capture r = true ->
  if oks a 0 : bool
  then serves (Some p) true ({[p]} ∪ cap ∖ {[p]}) ve ae [SharingOn p] (switch_on (VideoTrack id) (switch_on (Desktop id) s))
  else serves (Some p) true (cap ∖ {[p]}) ve ae [] s.
Proof.
  intros [Hz Hc H1 Ht Hb Hg Hcl Hd Hv Ha] Hr. specialize (Hz p eq_refl) as ->.
  assert (Hno : id ∉ ClientScreen.closed s) by (intros Hin; by apply Hcl in Hin as (_ & ? & _)).
  rewrite (only_zero cap Hc). destruct (oks a 0); serve; rewrite ?on_other by done; try done.
  - by intros p [= <-].
  - intros q. by rewrite union_empty_r_L, elem_of_singleton.
  - split; [split_and!; [done | by apply on_self | done] | done].
  - right. intros q _. rewrite on_other by done. by apply on_self.
  - by intros p [= <-].
Qed.

Lemma serves_stop o cap ve ae s : serves o true cap ve ae [] s ->
  serves o true cap ve ae (match o with Some p => [StoppingCapture p] | None => [] end) (switch_off (Desktop id) s).
Proof.
  intros [Hz Hc H1 Ht Hb Hg Hcl Hd Hv Ha]. destruct o as [p |].
  - serve; rewrite ?off_other by done; try done. split; [split; [done | by intros ?%off_self] | done].
  - destruct (Hg eq_refl) as [? | ->]; [done |]. serve; rewrite ?off_other by done; done.
Qed.

Lemma serves_stopped p cap ve ae s : serves (Some p) true cap ve ae [StoppingCapture p] s ->
  serves (Some p) true (cap ∖ {[p]}) ve ae [] s.
Proof.
  intros [Hz Hc H1 Ht Hb Hg Hcl Hd Hv Ha]. specialize (Hz p eq_refl) as ->. rewrite (only_zero cap Hc). serve. by intros p [= <-].
Qed.

Lemma serves_failed a cap ve ae cl s : serves None a cap ve ae cl s -> existsb is_closing cl = false ->
  serves None true cap ve ae [] (close_session id s).
Proof.
  intros [Hz Hc H1 Ht Hb Hg Hcl Hd Hv Ha] Hno. destruct (Hg eq_refl) as [? | ->]; [congruence |].
  destruct (off_air s) as (Hid & Hdo & Hvo & Hao). pose proof (track_off ve). pose proof (track_off ae). serve.
Qed.

Lemma serves_starting cap ve ae s : serves None false cap ve ae [] s -> serves None true cap ve ae [Starting false false] s.
Proof.
  intros [Hz Hc H1 Ht Hb Hg Hcl Hd Hv Ha]. assert (Hno : id ∉ ClientScreen.closed s) by (intros Hin; by apply Hcl in Hin as (? & _)).
  serve.
Qed.

Lemma serves_built sharing system_audio cap ve ae s : serves None true cap ve ae [Starting sharing system_audio] s ->
  serves (Some 0) true cap (<[0 := sharing]> ve) (<[0 := system_audio]> ae) [Launching 0] s.
Proof.
  intros [Hz Hc H1 [(-> & -> & _) _]%Forall_cons Hb Hg Hcl Hd Hv Ha].
  assert (Hno : id ∉ ClientScreen.closed s) by (intros Hin; by apply Hcl in Hin as (_ & _ & ?)).
  assert (Hoff : forall m x, false = true \/ (track_on None m <-> x) -> (track_on (Some 0) (<[0 := false]> m) <-> x)).
  { intros m x [? | Hx]; [done |]. rewrite <- Hx, track_set. split; [done | by intros ?%track_off]. }
  serve.
  - by intros p [= <-].
  - split; [intros Hin; by destruct (Hno Hin) | by intros (_ & ? & _)].
  - right. by apply (Hoff ve).
  - right. by apply (Hoff ae).
Qed.

Lemma serves_launched o p cap ve ae s : serves o true cap ve ae [Launching p] s -> serves o true cap ve ae [] s.
Proof. intros [Hz Hc H1 Ht Hb Hg Hcl Hd Hv Ha]. serve. Qed.

Lemma serves_sharing_on p cap ve ae s : serves (Some p) true cap ve ae [SharingOn p] s ->
  serves (Some p) true cap ve ae [TogglingVideo p true true] s.
Proof.
  intros [Hz Hc H1 [(_ & Hv1 & Hno) _]%Forall_cons Hb Hg Hcl Hd Hv Ha]. serve.
Qed.

(** ** Runs *)

Lemma starting_first s l rest b1 b2 : screen_ok s l (Starting b1 b2 :: rest) -> created l = 0.
Proof. intros Hok. pose proof (so_created _ _ _ Hok) as Hc. rewrite filter_cons_True in Hc by done. cbn in Hc. destruct (start_attempted s); lia. Qed.

(** The session's part of a world that a thread of the client left. *)
Lemma served_step w' s :
  serves (pc (session w')) true (capturing (library w')) (video_enabled (library w')) (audio_enabled (library w')) (clients (tasks w')) s ->
  start_attempted (session w') = true -> served w' s.
Proof. intros Hs Ha. split; [by rewrite Ha | congruence]. Qed.

Lemma call_served c w s : is_call c = true -> in_turn c w = true -> world_ok w -> served w s -> served (step c w) (asked c w s).
Proof.
  intros Hc Hturn [(O1 & O2 & O3 & O4 & O5) _ _ _ _ _ _ _] [Hs Hdes].
  assert (Hidle : clients (tasks w) = []) by (destruct c; cbn in Hturn; try done; try apply andb_prop in Hturn as [_ Hturn]; by apply bool_decide_eq_true in Hturn).
  rewrite Hidle in Hs. destruct (start_attempted (session w)) eqn:Hatt.
  - destruct c; try done; cbn [ScreenSession.step asked]; rewrite ?Hatt.
    + destruct within_limits as (L1 & L2 & L3). unfold start.
      rewrite (proj2 (Z.ltb_ge _ _)), (proj2 (Z.leb_gt _ _)), (proj2 (Z.ltb_ge _ _)), (proj2 (Z.leb_gt _ _)), (proj2 (Z.ltb_ge _ _)) by lia.
      cbn [orb]. rewrite Hatt. cbn [orb]. apply served_step; [cbn; by rewrite Hidle | done].
    + apply served_step; [| unfold close; by destruct (pc (session w))]. apply serves_close in Hs. unfold close.
      destruct (pc (session w)); cbn; by rewrite ?clients_client, Hidle by done.
    + apply served_step; [| unfold set_sharing_enabled, set_sharing; by destruct (video_track (session w))].
      apply (serves_sharing _ _ _ _ enabled false) in Hs. unfold set_sharing_enabled, set_sharing. rewrite O2.
      destruct (pc (session w)) eqn:Hpc; cbn; rewrite ?clients_client, Hidle, Hpc by done; done.
    + unfold set_system_audio_enabled. rewrite andb_false_r, O3. apply (serves_sound _ _ _ _ enabled) in Hs.
      apply served_step; [| by destruct (pc (session w))].
      destruct (pc (session w)) eqn:Hpc; cbn; rewrite ?clients_client, Hidle, Hpc by done; done.
    + unfold start_desktop_capture. rewrite O1. destruct (pc (session w)) as [p |] eqn:Hpc; apply served_step; cbn; try done;
        rewrite ?clients_client, Hidle, Hpc by done; [| done].
      destruct Hs as [Hz Hc' H1 Ht Hb Hg Hcl Hd Hv Ha]. serve.
    + unfold stop_desktop_capture. rewrite O1. apply serves_stop in Hs. destruct (pc (session w)) as [p |] eqn:Hpc; apply served_step; cbn; try done;
        rewrite ?clients_client, Hidle, Hpc by done; done.
  - destruct c; try done; try (cbn in Hturn; by rewrite Hatt in Hturn). cbn [asked]. rewrite Hatt.
    destruct (Hdes eq_refl) as (D1 & D2 & D3). destruct (sv_before _ _ _ _ _ _ _ Hs eq_refl) as [Hpc _]. rewrite Hpc in Hs.
    cbn [ScreenSession.step]. destruct within_limits as (L1 & L2 & L3). unfold start.
    rewrite (proj2 (Z.ltb_ge _ _)), (proj2 (Z.leb_gt _ _)), (proj2 (Z.ltb_ge _ _)), (proj2 (Z.leb_gt _ _)), (proj2 (Z.ltb_ge _ _)) by lia.
    cbn [orb]. rewrite Hatt, D3, D1, D2. cbn [orb andb]. destruct runtime_ready; cbn [negb].
    + cbn [spawn with_session tasks]. rewrite clients_client by done. apply served_step; [| done]. cbn.
      rewrite clients_client, Hidle, Hpc by done. by apply serves_starting.
    + unfold start_failed, report_error. apply (serves_failed _ _ _ _ _ _) in Hs; [| done].
      destruct (on_error callbacks); cbn; rewrite Hidle; apply served_step; cbn; rewrite ?Hidle, ?Hpc; done.
Qed.

Lemma failed_served w s sess l rest e :
  serves None true (capturing l) (video_enabled l) (audio_enabled l) [] s -> pc sess = None -> start_attempted sess = true -> clients rest = [] ->
  w = start_failed callbacks (mkWorld sess l rest e) \/ w = emit (StartReturned false) (mkWorld sess l rest e) -> served w s.
Proof.
  intros Hs Hpc Ha Hr [-> | ->]; unfold start_failed, report_error; [destruct (on_error callbacks) |]; apply served_step; cbn; by rewrite ?Hpc, ?Hr.
Qed.

Lemma build_served b1 b2 a sess l rest e s :
  created l = 0 -> clients rest = [] -> start_attempted sess = true -> pc sess = None ->
  serves None true (capturing l) (video_enabled l) (audio_enabled l) [Starting b1 b2] s ->
  let w' := start_build config callbacks b1 b2 a (mkWorld sess l rest e) in
  served w' (if bool_decide (is_Some (pc (session w'))) then s else close_session id s).
Proof.
  intros Hzero Hr Ha Hpc Hs w'.
  assert (Hfail : forall w2, session w2 = sess -> served w2 (close_session id s) ->
            served w2 (if bool_decide (is_Some (pc (session w2))) then s else close_session id s)).
  { intros w2 -> H2. rewrite Hpc. by rewrite bool_decide_false by (by intros []). }
  assert (Hse : forall w2, session (report_error callbacks w2) = session w2) by (intros w2; unfold report_error; by destruct (on_error callbacks)).
  unfold w', start_build. cbn [session library]. rewrite Hzero.
  destruct (oks a 0); cbn [negb].
  2: { apply Hfail; [apply Hse |]. eapply failed_served; [| exact Hpc | exact Ha | exact Hr | by left].
       apply serves_failed in Hs; [exact Hs | done]. }
  set (failed := close_pc 0 _). pose proof (serves_failed _ _ _ _ _ _ Hs eq_refl) as Hs'.
  assert (Hf : forall w2, w2 = start_failed callbacks (mkWorld sess failed rest e) \/ w2 = emit (StartReturned false) (mkWorld sess failed rest e) ->
            served w2 (close_session id s)) by (intros w2 Hw2; eapply failed_served; [| exact Hpc | exact Ha | exact Hr | exact Hw2]; exact Hs').
  destruct (_ || _); [apply Hfail; [apply Hse | apply Hf; by left] |].
  destruct (negb _); [apply Hfail; [apply Hse | apply Hf; by left] |].
  destruct (close_requested sess); [apply Hfail; [done | apply Hf; by right] |].
  cbn [spawn with_session session with_objects pc]. rewrite bool_decide_true by (by eexists).
  apply served_step; cbn; [| done]. rewrite clients_client, Hr by done. by apply (serves_built b1 b2).
Qed.

Lemma task_served n a t w s :
  tasks w !! n = Some t -> is_client t = true -> world_ok w -> served w s -> served (step (Resume n a) w) (asked (Resume n a) w s).
Proof.
  intros Ht Hcl Hw [Hs Hdes]. pose proof Hw as [(O1 & O2 & O3 & O4 & O5) _ _ _ _ _ _ _].
  assert (Hone : clients (tasks w) = [t] /\ clients (delete n (tasks w)) = []).
  { apply (clients_one t _ (delete n (tasks w))); [by apply clients_delete | done | apply (sv_one _ _ _ _ _ _ _ Hs)]. }
  destruct Hone as [Hone Hrest]. rewrite Hone in Hs.
  assert (Hatt : start_attempted (session w) = true).
  { destruct (start_attempted (session w)); [done |]. by destruct (sv_before _ _ _ _ _ _ _ Hs eq_refl) as [_ ?]. }
  rewrite Hatt in Hs. cbn [ScreenSession.step asked]. rewrite Ht.
  pose proof (sv_tasks _ _ _ _ _ _ _ Hs) as [Htask _]%Forall_cons.
  assert (Hzero : is_starting t = true -> created (library w) = 0).
  { intros Hst. destruct t as [b1 b2 | | | | | | | | | | | | | | | | | | | |]; try discriminate Hst.
    apply (starting_first (session w) _ (delete n (tasks w)) b1 b2). eapply screen_ok_perm; [by apply delete_Permutation | exact Hw]. }
  destruct w as [sess l ts e]. cbn [session library tasks events] in *. set (rest := delete n ts) in *.
  destruct t; try discriminate Hcl; cbn [resume].
  - destruct Htask as (_ & _ & Hpc). rewrite Hpc in Hs. by apply build_served; try apply Hzero.
  - apply served_step; [| done]. unfold start_launch. cbn. rewrite clients_plain, Hrest by done. by apply serves_launched in Hs.
  - destruct Htask as (Hpc & _). rewrite Hpc in Hs. apply served_step; [| done]. cbn. rewrite Hrest, Hpc. by apply serves_closed.
  - destruct Htask as (Hpc & _). rewrite Hpc in Hs. apply serves_toggled in Hs. unfold toggle_video.
    destruct capture; apply served_step; cbn; rewrite ?Hpc, ?Hrest; done.
  - destruct Htask as (Hpc & _). rewrite Hpc in Hs. apply serves_heard in Hs. apply served_step; cbn; rewrite ?Hpc, ?Hrest; done.
  - rewrite Htask in Hs. unfold capture_rest. destruct (valid_capture r) eqn:Hr; cbn [negb andb].
    + apply (serves_capture p r a) in Hs; [| done]. cbn [library]. destruct (oks a 0); apply served_step; cbn; rewrite ?clients_client, ?Htask, ?Hrest by done; done.
    + apply served_step; cbn; rewrite ?Htask, ?Hrest; [| done]. destruct Hs as [Hz Hc H1 Hts Hb Hg Hclo Hd Hv Ha]. serve.
  - destruct Htask as (Hpc & _). rewrite Hpc in Hs. apply serves_sharing_on in Hs. unfold set_sharing. cbn [session]. rewrite O2, Hpc.
    apply served_step; cbn; rewrite ?clients_client, ?Hpc, ?Hrest by done; done.
  - destruct Htask as (Hpc & _). rewrite Hpc in Hs. apply serves_stopped in Hs. apply served_step; cbn; rewrite ?Hpc, ?Hrest; done.
Qed.

Lemma act_served c w s : in_turn c w = true -> world_ok w -> served w s -> served (act c w) (asked c w s).
Proof.
  intros Hturn Hw Hs. unfold act. eapply alike_served; [apply alike_collect |]. destruct (is_call c) eqn:Hcall; [by apply call_served |].
  assert (Hres : (exists n a, c = Resume n a) \/ (forall n a, c <> Resume n a)) by (destruct c; (by right) || (left; by repeat eexists)).
  destruct Hres as [(n & a & ->) | Hno].
  - destruct (tasks w !! n) as [t |] eqn:Ht; [| cbn [ScreenSession.step asked]; by rewrite Ht].
    destruct (is_client t) eqn:Hcl; [by apply (task_served n a t) |].
    cbn [ScreenSession.step asked]. rewrite Ht. replace (match t with Starting _ _ => _ | _ => _ end) with s by (by destruct t).
    eapply alike_served; [by apply resume_alike |]. eapply alike_served; [| exact Hs]. split_and!; try done. cbn.
    pose proof (clients_delete _ _ _ Ht) as Hp. rewrite clients_plain in Hp by done.
    destruct Hs as [Hs _]. pose proof (sv_one _ _ _ _ _ _ _ Hs) as Hone.
    destruct (clients (tasks w)) as [| x [| y cl]]; cbn in Hone; [| | lia].
    + by apply Permutation_nil_l in Hp.
    + by apply Permutation_singleton_l in Hp.
  - replace (asked c w s) with s by (destruct c; try done; by destruct (Hno n a)). eapply alike_served; [by apply other_alike | done].
Qed.

Lemma run_served cs w s : in_turn_run cs w = true -> world_ok w -> served w s ->
  served (foldl (fun w c => act c w) w cs) (asked_run cs w s).
Proof.
  revert w s. induction cs as [| c cs IH]; intros w s Hrun Hw Hs; [done |]. cbn [in_turn_run] in Hrun.
  apply andb_prop in Hrun as [Hc Hcs]. cbn [foldl asked_run]. apply IH; [done | by apply collect_ok, step_ok | by apply act_served].
Qed.

(** C27 A session does what its client asked it to: whatever happens to it besides
    and between the client's calls, whenever none of these is under way, the desktop
    is only captured, and the tracks of the screen and of its sound send exactly,
    if the session that the client keeps account of is on the air in this respect;
    and it is closed, or did not start, exactly if the account says so. *)
Theorem screen_session_serves cs s :
  in_turn_run cs (new_world config) = true ->
  id ∉ ClientScreen.closed s -> (forall x, x ∈ [Desktop id; VideoTrack id; SystemTrack id] -> x ∉ on_air s) ->
  let w := run config callbacks runtime_ready true cs in
  let s' := asked_run cs (new_world config) s in
  clients (tasks w) = [] ->
  (forall p, p ∈ capturing (library w) -> Desktop id ∈ on_air s')
  /\ (track_on (video_track (session w)) (video_enabled (library w)) <-> VideoTrack id ∈ on_air s')
  /\ (track_on (audio_track (session w)) (audio_enabled (library w)) <-> SystemTrack id ∈ on_air s')
  /\ (start_attempted (session w) = true -> (pc (session w) = None <-> id ∈ ClientScreen.closed s')).
Proof.
  intros Hrun Hid Hair w s' Hidle.
  assert (Hnew : served (new_world config) s).
  { destruct starts_silent as [Hs1 Hs2]. split; [| done]. pose proof (track_off ∅) as Hoff.
    assert (Hx : forall x, x ∈ [Desktop id; VideoTrack id; SystemTrack id] -> (track_on None ∅ <-> x ∈ on_air s)) by (intros x Hx; specialize (Hair x Hx); tauto).
    split; cbn; try done.
    - unfold clients. cbn. lia.
    - intros _. by right.
    - split; [done | by intros [? _]].
    - right. by intros q ?%elem_of_empty.
    - right. apply Hx. set_solver.
    - right. apply Hx. set_solver. }
  assert (Hs : served w s') by exact (run_served cs (new_world config) s Hrun (screen_new_world_ok config) Hnew).
  destruct (run_screen_ok config callbacks runtime_ready true cs) as [[(O1 & O2 & O3 & O4 & O5) _ _ _ _ _ _ _] _].
  fold w in O2, O3. clearbody w s'. destruct Hs as [Hs _]. rewrite Hidle in Hs. rewrite O2, O3. destruct Hs as [Hz Hc H1 Ht Hb Hg Hcl Hd Hv Ha].
  split_and!; [by destruct Hd | by destruct Hv | by destruct Ha |]. intros Hatt. rewrite Hcl. split; [done | by intros (_ & ? & _)].
Qed.
End Serves.

(** ** The account is ClientScreen's *)

(** What [apply_sharing] does with a session. *)
Lemma sharing_asked id r resuming answer w c :
  (ClientScreen.sessions (enable_sound id c r resuming w).1 = sound_section id (share_audio r) (ClientScreen.sessions w))
  /\ (id ∉ ClientScreen.closed (ClientScreen.sessions w) ->
      ClientScreen.sessions (start_capture id r resuming answer w).1
      = (if answer 0 : bool then switch_on (VideoTrack id) (switch_on (Desktop id) (ClientScreen.sessions w)) else ClientScreen.sessions w)).
Proof.
  split; [done |]. intros Hid. unfold start_capture. rewrite bool_decide_false, orb_false_r by done. by destruct (answer 0).
Qed.

(** ** A sample *)

Definition sample_config : ScreenSessionConfig := mkConfig 4 false false false 4000000 128000.
Definition sample_callbacks : ScreenSessionCallbacks := mkCallbacks true true true true true true true true.
Definition yes : Answer := mkAnswer (fun _ => true) (Some "v=0"%string).

(** Started, shared with sound, and no longer shared but for the sound. *)
Definition sample_acts : list Act :=
  [CallStart; Resume 0 yes; Resume 0 yes; CallStartCapture DesktopSource.sample_request; Resume 0 yes; Resume 0 yes; Resume 0 yes;
   CallSetSystemAudio true; Resume 0 yes; FrameCaptured 0; CallStopCapture; Resume 0 yes].

Definition no_sessions : Sessions := ClientScreen.sessions ClientScreen.new_world.

Lemma screen_session_serves_witness :
  let w := run sample_config sample_callbacks true true sample_acts in
  let s' := asked_run sample_config sample_callbacks true 0 sample_acts (new_world sample_config) no_sessions in
  clients (tasks w) = [] /\ existsb (fun e => match e with FrameEncoded 0 => true | _ => false end) (events w) = true /\ capturing (library w) = ∅
  /\ VideoTrack 0 ∈ on_air s' /\ SystemTrack 0 ∈ on_air s' /\ 0 ∉ ClientScreen.closed s'.
Proof.
  assert (Hlim : (remote_stream_slots sample_config <= kMaxRemoteStreamSlots /\ 0 < max_video_bitrate_bps sample_config <= 50000000
    /\ 0 < max_system_audio_bitrate_bps sample_config <= 510000)%Z) by (cbn; unfold kMaxRemoteStreamSlots; lia).
  intros w s'. assert (Hidle : clients (tasks w) = []) by (vm_compute; reflexivity).
  destruct (screen_session_serves sample_config sample_callbacks true 0 (conj eq_refl eq_refl) Hlim sample_acts no_sessions)
    as (_ & Hv & Ha & Hc); [vm_compute; reflexivity | apply not_elem_of_empty | intros x _; apply not_elem_of_empty | exact Hidle |].
  split; [exact Hidle |]. split; [vm_compute; reflexivity |].
  split; [vm_compute; reflexivity |]. split; [apply Hv; exists 0; split; vm_compute; reflexivity |].
  split; [apply Ha; exists 0; split; vm_compute; reflexivity |].
  intros Hin. apply Hc in Hin; [| vm_compute; reflexivity]. revert Hin. vm_compute. discriminate.
Defined.
