(* ===== verification/SignIn.v ===== *)
(** * Signing in (client-qt/src/api: AuthManager, SessionStore, the token of ApiClient)

    [AuthManager] asks the API for a session, by password or with the refresh token
    that [SessionStore] kept, and drops replies that a later request overtook.  A
    reply's JSON object is a [QJsonObject]; the HTTP library, [QSettings] and the text
    operations of [QString] are parameters or their documented behaviour. *)

From S2P Require Import Prelude.

Local Open Scope Z_scope.
Local Open Scope list_scope.

(** ** Qt's JSON values *)

(** A number that is no integer is [JFraction]. *)
Inductive QJsonValue :=
  | JNull
  | JBool (b : bool)
  | JInteger (n : Z)
  | JFraction
  | JString (s : string)
  | JArray (values : list QJsonValue)
  | JObject (members : list (string * QJsonValue)).

Abbreviation QJsonObject := (list (string * QJsonValue)) (only parsing).

Fixpoint value (key : string) (o : QJsonObject) : QJsonValue :=
  match o with
  | [] => JNull
  | (k, v) :: o => if String.eqb k key then v else value key o
  end.

Definition to_string (default : string) (v : QJsonValue) : string := match v with JString s => s | _ => default end.
Definition to_int (default : Z) (v : QJsonValue) : Z :=
  match v with JInteger n => if (-2 ^ 31 <=? n) && (n <? 2 ^ 31) then n else default | _ => default end.
Definition to_object (v : QJsonValue) : QJsonObject := match v with JObject o => o | _ => [] end.

(** ** The session that is kept *)

Record SessionData := mkSession { s_refresh_token : string; s_username : string; s_user_id : Z }.

(** [SessionStore]: the group of the settings, when it is there. *)
Definition save (s : SessionData) : option SessionData := Some s.

Definition load (stored : option SessionData) : option SessionData :=
  match stored with
  | Some s => if String.eqb (s_refresh_token s) "" then None else Some s
  | None => None
  end.

(** ** Signing in *)

Inductive Kind := LogIn | Register | Restore.

(** A request that was not answered: the user name it is for, the body it was posted
    with, and its generation. *)
Record AuthRequest := mkAuthRequest { ar_kind : Kind; ar_username : string; ar_body : QJsonObject; ar_generation : Z }.

Inductive AuthSignal :=
  | AuthChanged
  | LoginError (message : string)
  | SessionRestored
  | SessionRestoreFailed
  | AuthPendingChanged.

Record Auth := mkAuth {
  access_token : string;
  refresh_token : string;
  username : string;
  userId : Z;
  avatarUrl : string;
  m_displayName : string;
  loggedIn : bool;
  authPending : bool;
  requestGeneration : Z;
  stored : option SessionData;
  auth_requests : list AuthRequest;
}.

(** A start of the program, with what an earlier run left in the settings. *)
Definition new_auth (kept : option SessionData) : Auth := mkAuth "" "" "" 0 "" "" false false 0 kept [].

Definition displayName (a : Auth) : string := if String.eqb (m_displayName a) "" then username a else m_displayName a.

Definition with_requests (pending : bool) (generation : Z) (requests : list AuthRequest) (a : Auth) : Auth :=
  mkAuth (access_token a) (refresh_token a) (username a) (userId a) (avatarUrl a) (m_displayName a) (loggedIn a)
    pending generation (stored a) requests.

Definition with_user (name : string) (id : Z) (avatar display : string) (kept : option SessionData) (a : Auth) : Auth :=
  mkAuth (access_token a) (refresh_token a) name id avatar display (loggedIn a) (authPending a) (requestGeneration a)
    kept (auth_requests a).

Definition setAuthPending (pending : bool) (a : Auth) : Auth * list AuthSignal :=
  if eqb (authPending a) pending then (a, [])
  else (with_requests pending (requestGeneration a) (auth_requests a) a, [AuthPendingChanged]).

(** The next generation, and a request of it. *)
Definition ask (kind : Kind) (name : string) (body : QJsonObject) (a : Auth) : Auth * list AuthSignal :=
  let generation := u64 (requestGeneration a + 1) in
  let '(a, signals) := setAuthPending true (with_requests (authPending a) generation (auth_requests a) a) in
  (with_requests (authPending a) generation (auth_requests a ++ [mkAuthRequest kind name body generation]) a, signals).

Definition login (name password : string) (a : Auth) : Auth * list AuthSignal :=
  if authPending a then (a, []) else ask LogIn name [("username", JString name); ("password", JString password)] a.

Definition registerUser (name email password : string) (a : Auth) : Auth * list AuthSignal :=
  if authPending a then (a, [])
  else ask Register name [("username", JString name); ("email", JString email); ("password", JString password)] a.

Definition logout (a : Auth) : Auth * list AuthSignal :=
  let generation := u64 (requestGeneration a + 1) in
  let '(a, signals) := setAuthPending false (with_requests (authPending a) generation (auth_requests a) a) in
  (mkAuth "" "" "" 0 "" "" false (authPending a) (requestGeneration a) None (auth_requests a), signals ++ [AuthChanged]).

Definition tryRestoreSession (a : Auth) : Auth * list AuthSignal :=
  if authPending a then (a, [])
  else match load (stored a) with
       | None => (a, [SessionRestoreFailed])
       | Some s =>
         let '(a, signals) := ask Restore (s_username s) [("refresh_token", JString (s_refresh_token s))] a in
         (with_user (s_username s) (s_user_id s) (avatarUrl a) (m_displayName a) (stored a) a, signals)
       end.

Section Replies.
(** [QString::trimmed] *)
Variable trimmed : string -> string.

Definition applyTokenResponse (json : QJsonObject) (name : string) (a : Auth) : Auth * list AuthSignal :=
  let access := to_string "" (value "access_token" json) in
  let refresh := to_string "" (value "refresh_token" json) in
  let uid := to_int 0 (value "user_id" json) in
  (mkAuth access refresh name uid (trimmed (to_string "" (value "avatar_url" json))) (to_string "" (value "display_name" json))
     true (authPending a) (requestGeneration a) (save (mkSession refresh name uid)) (auth_requests a),
   [AuthChanged]).

(** A restore that failed forgets the session it tried. *)
Definition restore_failed (a : Auth) : Auth * list AuthSignal := (with_user "" 0 "" "" None a, [SessionRestoreFailed]).

(** The body of a reply's callback, after the check of the generation. *)
Definition answered (r : AuthRequest) (error : bool) (json : QJsonObject) (a : Auth) : Auth * list AuthSignal :=
  let '(a, signals) := setAuthPending false a in
  let '(a, more) :=
    match ar_kind r with
    | Restore =>
      if error then restore_failed a
      else let '(a, changed) := applyTokenResponse json (ar_username r) a in (a, changed ++ [SessionRestored])
    | LogIn =>
      if error then (a, [LoginError (to_string "Login failed" (value "detail" json))])
      else applyTokenResponse json (ar_username r) a
    | Register =>
      if error then (a, [LoginError (to_string "Registration failed" (value "detail" json))])
      else applyTokenResponse json (ar_username r) a
    end in
  (a, signals ++ more).

(** The [n]th request that waits is answered. *)
Definition auth_reply (n : nat) (error : bool) (json : QJsonObject) (a : Auth) : Auth * list AuthSignal :=
  match auth_requests a !! n with
  | None => (a, [])
  | Some r =>
    let a := with_requests (authPending a) (requestGeneration a) (delete n (auth_requests a)) a in
    if ar_generation r =? requestGeneration a then answered r error json a else (a, [])
  end.

(** ** Runs *)

Inductive AuthAct :=
  | CallLogin (name password : string)
  | CallRegister (name email password : string)
  | CallLogout
  | CallRestore
  | AuthReplies (n : nat) (error : bool) (json : QJsonObject).

Definition auth_act (c : AuthAct) (a : Auth) : Auth * list AuthSignal :=
  match c with
  | CallLogin name password => login name password a
  | CallRegister name email password => registerUser name email password a
  | CallLogout => logout a
  | CallRestore => tryRestoreSession a
  | AuthReplies n error json => auth_reply n error json a
  end.

Definition auth_run (kept : option SessionData) (calls : list AuthAct) : Auth :=
  foldl (fun a c => (auth_act c a).1) (new_auth kept) calls.
End Replies.

(** ** The invariant *)

Section Runs.
Context (trimmed : string -> string).

Abbreviation auth_act := (auth_act trimmed).
Abbreviation auth_run := (auth_run trimmed).

(** The requests whose reply will count. *)
Definition awaited (a : Auth) : list AuthRequest :=
  filter (fun r => ar_generation r = requestGeneration a) (auth_requests a).

(** Nobody is signed in; a name and an id are shown while a session is restored. *)
Definition signed_out (a : Auth) : Prop :=
  access_token a = "" /\ refresh_token a = "" /\ avatarUrl a = "" /\ m_displayName a = ""
  /\ (Forall (fun r => ar_kind r <> Restore) (awaited a) -> username a = "" /\ userId a = 0).

Definition kept_session (a : Auth) : Prop := stored a = Some (mkSession (refresh_token a) (username a) (userId a)).

Record auth_ok (n : Z) (a : Auth) : Prop := {
  ok_generation : 0 <= requestGeneration a <= n;
  ok_earlier : Forall (fun r => ar_generation r <= requestGeneration a) (auth_requests a);
  ok_awaited : length (awaited a) = if authPending a then 1%nat else 0%nat;
  ok_restore : Forall (fun r => ar_kind r = Restore -> loggedIn a = false) (awaited a);
  ok_in : loggedIn a = true -> kept_session a;
  ok_out : loggedIn a = false -> signed_out a;
}.

(** A session is only restored while nobody is signed in. *)
Definition restores_signed_out (c : AuthAct) (a : Auth) : bool :=
  match c with CallRestore => negb (loggedIn a) | _ => true end.

Fixpoint proper_calls (calls : list AuthAct) (a : Auth) : bool :=
  match calls with
  | [] => true
  | c :: calls => restores_signed_out c a && proper_calls calls (auth_act c a).1
  end.

Lemma earlier_none a g : Forall (fun r => ar_generation r <= requestGeneration a) (auth_requests a) -> requestGeneration a < g ->
  filter (fun r => ar_generation r = g) (auth_requests a) = [].
Proof.
  intros Hle Hg. induction Hle as [| r l Hr _ IH]; [done |]. by rewrite filter_cons_False by lia.
Qed.

(** A new request is the only one that counts. *)
Lemma ask_ok n kind name body a :
  auth_ok n a -> n < 2 ^ 64 - 1 -> authPending a = false -> (kind = Restore -> loggedIn a = false) ->
  let a' := (ask kind name body a).1 in
  awaited a' = [mkAuthRequest kind name body (requestGeneration a + 1)] /\ authPending a' = true
  /\ requestGeneration a' = requestGeneration a + 1 /\ Forall (fun r => ar_generation r <= requestGeneration a') (auth_requests a')
  /\ (access_token a', refresh_token a', username a', userId a', loggedIn a', stored a', avatarUrl a', m_displayName a')
     = (access_token a, refresh_token a, username a, userId a, loggedIn a, stored a, avatarUrl a, m_displayName a).
Proof.
  intros [[Hg Hn] He Ha _ _ _] Hb Hp _. assert (Hw : u64 (requestGeneration a + 1) = requestGeneration a + 1) by (unfold u64, wrap; apply Z.mod_small; lia).
  unfold ask, setAuthPending, awaited. cbn. rewrite Hp, Hw. cbn. split_and!; try done.
  - rewrite filter_app, earlier_none by (done || lia). by rewrite filter_cons_True.
  - apply Forall_app. split; [eapply Forall_impl; [exact He |]; intros r Hr; cbn in Hr; lia | by repeat constructor].
Qed.

Lemma pending_none a : length (awaited a) = (if authPending a then 1%nat else 0%nat) -> authPending a = false -> awaited a = [].
Proof. intros Hl Hp. rewrite Hp in Hl. by apply nil_length_inv. Qed.

Lemma asked_ok n kind name body a a' :
  auth_ok n a -> n < 2 ^ 64 - 1 -> authPending a = false -> (kind = Restore -> loggedIn a = false) ->
  (let b := (ask kind name body a).1 in
   a' = b \/ (kind = Restore /\ exists u i k, a' = with_user u i (avatarUrl b) (m_displayName b) k b)) ->
  auth_ok (n + 1) a'.
Proof.
  intros Hok Hb Hp Hk Ha'. destruct (ask_ok n kind name body a Hok Hb Hp Hk) as (Hq & Hp' & Hg & He & [= E1 E2 E3 E4 E5 E6 E7 E8]).
  destruct Hok as [Hgn _ Haw _ Hin Hout]. pose proof (pending_none a Haw Hp) as Hnone.
  assert (Hown : kind <> Restore -> a' = (ask kind name body a).1) by (intros Hne; by destruct Ha' as [| [? _]]).
  assert (Hsame : requestGeneration a' = requestGeneration a + 1 /\ auth_requests a' = auth_requests (ask kind name body a).1
                  /\ authPending a' = true /\ loggedIn a' = loggedIn a /\ access_token a' = access_token a /\ refresh_token a' = refresh_token a
                  /\ avatarUrl a' = avatarUrl a /\ m_displayName a' = m_displayName a).
  { destruct Ha' as [-> | (_ & u & i & k & ->)]; by split_and!. }
  destruct Hsame as (H1 & H2 & H3 & H4 & H5 & H6 & H7 & H8).
  assert (Hq' : awaited a' = [mkAuthRequest kind name body (requestGeneration a + 1)]) by (unfold awaited in *; rewrite H1, H2; by rewrite Hg in Hq).
  split.
  - rewrite H1. lia.
  - rewrite H2, H1, <- Hg. done.
  - by rewrite Hq', H3.
  - rewrite Hq', H4. by repeat constructor.
  - rewrite H4. intros Hl. rewrite (Hown (fun e => ltac:(by rewrite Hk in Hl))). unfold kept_session. rewrite E2, E3, E4, E6. by apply Hin.
  - rewrite H4. intros Hl. destruct (Hout Hl) as (Ht & Hr & Hav & Hd & Hu). unfold signed_out. rewrite H5, H6, H7, H8, Hq'. split_and!; try done.
    intros [Hne _]%Forall_cons. cbn in Hne. rewrite (Hown Hne), E3, E4. apply Hu. by rewrite Hnone.
Qed.

(** A reply that counts is the one that was awaited. *)
Lemma answered_ok n a i r error json :
  auth_ok n a -> auth_requests a !! i = Some r -> ar_generation r = requestGeneration a ->
  let b := with_requests (authPending a) (requestGeneration a) (delete i (auth_requests a)) a in
  auth_ok (n + 1) (answered trimmed r error json b).1.
Proof.
  intros [[Hg Hn] He Ha Hr Hin Hout] Hi Hcur b. pose proof (delete_Permutation _ _ _ Hi) as Hp.
  assert (Haw : awaited a ≡ₚ r :: filter (fun r => ar_generation r = requestGeneration a) (delete i (auth_requests a)))
    by (unfold awaited; rewrite Hp at 1; by rewrite filter_cons_True).
  assert (Hpend : authPending a = true) by (destruct (authPending a); [done | rewrite Haw in Ha; done]).
  assert (Hrest : filter (fun r => ar_generation r = requestGeneration a) (delete i (auth_requests a)) = [])
    by (apply nil_length_inv; rewrite Haw, Hpend in Ha; cbn in Ha; lia).
  assert (Hle : Forall (fun r => ar_generation r <= requestGeneration a) (delete i (auth_requests a))) by (rewrite Hp in He; by apply Forall_cons in He as [_ ?]).
  rewrite Hrest in Haw. apply Permutation_singleton_r in Haw.
  assert (Hkind : ar_kind r = Restore -> loggedIn a = false) by (rewrite Haw in Hr; by apply Forall_inv in Hr).
  unfold answered, setAuthPending. cbn. rewrite Hpend. cbn.
  destruct (ar_kind r) eqn:Hk; destruct error; cbn; (split; cbn; unfold awaited; cbn; rewrite ?Hrest; try done; try lia).
  all: try (intros Hl; destruct (Hout Hl) as (? & ? & ? & ? & Hu); unfold signed_out, awaited; cbn; split_and!; try done;
            intros _; apply Hu; rewrite Haw; apply Forall_singleton; congruence).
  intros Hl. by rewrite Hkind in Hl.
Qed.

Lemma overtaken_ok n a i r :
  auth_ok n a -> auth_requests a !! i = Some r -> ar_generation r <> requestGeneration a ->
  auth_ok (n + 1) (with_requests (authPending a) (requestGeneration a) (delete i (auth_requests a)) a).
Proof.
  intros [[Hg Hn] He Ha Hr Hin Hout] Hi Hold. pose proof (delete_Permutation _ _ _ Hi) as Hp. set (b := with_requests _ _ _ a).
  assert (Haw : awaited a ≡ₚ awaited b) by (unfold awaited; rewrite Hp at 1; by rewrite filter_cons_False).
  split.
  - cbn. lia.
  - cbn. rewrite Hp in He. by apply Forall_cons in He as [_ ?].
  - rewrite <- Haw. exact Ha.
  - rewrite <- Haw. exact Hr.
  - exact Hin.
  - intros Hl. destruct (Hout Hl) as (? & ? & ? & ? & Hu). unfold signed_out. rewrite <- Haw. by split_and!.
Qed.

Lemma logout_ok n a : auth_ok n a -> n < 2 ^ 64 - 1 -> auth_ok (n + 1) (logout a).1.
Proof.
  intros [[Hg Hn] He Ha Hr Hin Hout] Hb.
  assert (Hw : u64 (requestGeneration a + 1) = requestGeneration a + 1) by (unfold u64, wrap; apply Z.mod_small; lia).
  assert (Hnone : filter (fun r => ar_generation r = requestGeneration a + 1) (auth_requests a) = []) by (apply earlier_none; [done | lia]).
  assert (Hle : Forall (fun r => ar_generation r <= requestGeneration a + 1) (auth_requests a))
    by (eapply Forall_impl; [exact He |]; intros r Hr'; cbn in Hr'; lia).
  unfold logout, setAuthPending. cbn. destruct (eqb (authPending a) false) eqn:Hp; cbn; rewrite ?Hw.
  all: split; cbn; unfold awaited; cbn; rewrite ?Hw, ?Hnone; try done; try lia.
  by apply eqb_prop in Hp as ->.
Qed.

Lemma auth_act_ok n c a : auth_ok n a -> n < 2 ^ 64 - 1 -> restores_signed_out c a = true -> auth_ok (n + 1) (auth_act c a).1.
Proof.
  intros Hok Hb Hc. assert (Hkeep : auth_ok (n + 1) a) by (destruct Hok as [[? ?] ? ? ? ? ?]; split; try done; lia).
  destruct c; cbn.
  - unfold login. destruct (authPending a) eqn:Hp; [done |]. eapply (asked_ok n LogIn name _ a); try done. by left.
  - unfold registerUser. destruct (authPending a) eqn:Hp; [done |]. eapply (asked_ok n Register name _ a); try done. by left.
  - by apply logout_ok.
  - unfold tryRestoreSession. destruct (authPending a) eqn:Hp; [done |]. destruct (load (stored a)) as [s |]; [| done].
    apply (asked_ok n Restore (s_username s) [("refresh_token", JString (s_refresh_token s))] a); try done; [intros _; by apply negb_true_iff in Hc |].
    right. split; [done |]. destruct (ask Restore (s_username s) _ a) as [b signals]. by eexists _, _, _.
  - unfold auth_reply. destruct (auth_requests a !! n0) as [r |] eqn:Hi; [| done].
    cbn. destruct (ar_generation r =? requestGeneration a) eqn:Hg; [apply Z.eqb_eq in Hg; by apply answered_ok |].
    apply Z.eqb_neq in Hg. by apply (overtaken_ok n a n0 r).
Qed.

Lemma new_auth_ok kept : auth_ok 0 (new_auth kept).
Proof. split; cbn; try done; lia. Qed.

Lemma auth_run_ok kept calls :
  Z.of_nat (length calls) < 2 ^ 64 - 1 -> proper_calls calls (new_auth kept) = true -> auth_ok (Z.of_nat (length calls)) (auth_run kept calls).
Proof.
  unfold SignIn.auth_run. intros Hb Hp. change (Z.of_nat (length calls)) with (0 + Z.of_nat (length calls)) in *.
  revert Hb Hp. generalize (new_auth_ok kept). generalize (new_auth kept). generalize 0.
  induction calls as [| c calls IH]; intros n a Hok Hb Hp; [by rewrite Z.add_0_r |].
  cbn [proper_calls length foldl] in *. apply andb_prop in Hp as [Hc Hp]. replace (n + Z.of_nat (S (length calls))) with ((n + 1) + Z.of_nat (length calls)) in * by lia.
  apply IH; [| lia | done]. apply auth_act_ok; [done | lia | done].
Qed.

(** C22 However sign-ins, registrations, restores, sign-outs and replies follow each
    other (fewer than 2^64 of them, and a session is only restored while nobody is
    signed in): the interface shows that it waits exactly while one reply is awaited that will count, so it is never
    stuck; a reply that was overtaken changes nothing and is not announced; while
    nobody is signed in there is no token and no picture, and no name unless the reply
    that is awaited is that of a session being restored; and while somebody is signed
    in, what is kept is their refresh token, name and id, so a restart posts that
    token, for that name, and shows that name and id meanwhile - or, when the API gave
    no refresh token, asks for nothing. *)
Theorem one_sign_in kept calls :
  Z.of_nat (length calls) < 2 ^ 64 - 1 -> proper_calls calls (new_auth kept) = true ->
  let a := auth_run kept calls in
  length (awaited a) = (if authPending a then 1%nat else 0%nat)
  /\ (forall n r error json, auth_requests a !! n = Some r -> r ∉ awaited a ->
        auth_reply trimmed n error json a
        = (with_requests (authPending a) (requestGeneration a) (delete n (auth_requests a)) a, []))
  /\ (loggedIn a = false ->
        access_token a = "" /\ refresh_token a = "" /\ avatarUrl a = ""
        /\ ((forall r, r ∈ awaited a -> ar_kind r <> Restore) -> displayName a = "" /\ username a = "" /\ userId a = 0))
  /\ (loggedIn a = true ->
        stored a = Some (mkSession (refresh_token a) (username a) (userId a))
        /\ let '(b, signals) := tryRestoreSession (new_auth (stored a)) in
           if String.eqb (refresh_token a) "" then auth_requests b = [] /\ signals = [SessionRestoreFailed]
           else auth_requests b = [mkAuthRequest Restore (username a) [("refresh_token", JString (refresh_token a))] 1]
                /\ username b = username a /\ userId b = userId a).
Proof.
  intros Hb Hp a. pose proof (auth_run_ok kept calls Hb Hp) as Hok. fold a in Hok. pose proof Hok as [Hg He Ha Hr Hin Hout]. split_and!.
  - done.
  - intros n r error json Hi Hnot. unfold auth_reply. rewrite Hi. cbn. destruct (ar_generation r =? requestGeneration a) eqn:Heq; [| done].
    apply Z.eqb_eq in Heq. destruct Hnot. apply list_elem_of_filter. split; [done | by eapply list_elem_of_lookup_2].
  - intros Hl. destruct (Hout Hl) as (? & ? & ? & Hd & Hu). split_and!; try done. intros Hk%Forall_forall.
    destruct (Hu Hk) as [Hn Hi]. unfold displayName. by rewrite Hd, Hn.
  - intros Hl. pose proof (Hin Hl) as Hs. split; [exact Hs |]. rewrite Hs. unfold tryRestoreSession, load. cbn.
    by destruct (String.eqb (refresh_token a) "").
Qed.
End Runs.

(** A sign-in that a sign-out overtakes, then one that is answered. *)
Definition sample_calls : list AuthAct :=
  [CallLogin "ann" "pw"; CallLogout; CallLogin "bob" "pw"; AuthReplies 0 false []; AuthReplies 0 false
     [("access_token", JString "a"); ("refresh_token", JString "r"); ("user_id", JInteger 7)]].

Lemma one_sign_in_witness :
  let a := auth_run id None sample_calls in
  username a = "bob" /\ stored a = Some (mkSession "r" "bob" 7)
  /\ auth_requests (tryRestoreSession (new_auth (stored a))).1 = [mkAuthRequest Restore "bob" [("refresh_token", JString "r")] 1].
Proof.
  destruct (one_sign_in id None sample_calls) as (_ & _ & _ & Hkept); [by vm_compute | by vm_compute |].
  destruct Hkept as [Hs Hb]; [by vm_compute |]. split_and!; [by vm_compute | by rewrite Hs; vm_compute | by vm_compute].
Defined.
