(* ===== verification/Bridge.v ===== *)
(** * Between the interface and the core (client-qt/src/app/DriscordBridge.cpp, core/src/driscord_core.cpp)

    [DriscordBridge] turns the transport's and the core's callbacks, which run on the
    library's threads, into signals that the interface's thread takes from a queue;
    starts and stops voice on a pool of one thread; and hands frames to the sinks of
    the interface.  [DriscordCore] connects the transport to [GoogleWebRtcClient]:
    [media] is what that client was told, in order (ClientVoice and ClientScreen say
    what it does then). *)

From S2P Require Import Prelude Floats Text Url Signaling Transport Proxy Socket.

Local Open Scope Z_scope.
Local Open Scope list_scope.

(** ** The core *)

(** What [GoogleWebRtcClient] is called for, by the application or the transport. *)
Inductive MediaCall :=
  | InitScreen | DeinitScreen
  | JoinStream (peer : string) | LeaveStream (peer : string) | LeaveStreams
  | StartVoice | StopVoice
  | SetMuted (muted : bool) | SetDeafened (deafened : bool)
  | SetMasterVolume (volume : spec_float)
  | SetPeerVolume (peer : string) (volume : spec_float) | SetPeerMuted (peer : string) (muted : bool)
  | SetDevice (playout : bool) (name : string) (ok : bool)
  | StartSharing (target_json : string) (max_width max_height fps : Z) (share_audio : bool) (audio_target : string)
  | StopSharing
  | SetLocalPreview (enabled : bool)
  | SetStreamVolume (peer : string) (volume : spec_float)
  | RemovePeer (peer : string) | PeerStoppedStreaming (peer : string)
  | SignalingState (is_connected : bool)
  | TrackBound (connection : ConnectionId) (mid : string) (peer : option string)
  | MediaAnswer (connection : ConnectionId) (sdp : string)
  | MediaCandidate (connection : ConnectionId) (candidate mid : string)
  | WatchRefused (peer : string).

(** The methods of [DriscordCore] that forward; [ok]: the client's answer. *)
Inductive StreamCall := init_screen_session | deinit_screen_session | join_stream (peer : string) | leave_all_streams | leave_stream (peer : string).

Definition core_stream (c : StreamCall) : MediaCall :=
  match c with
  | init_screen_session => InitScreen
  | deinit_screen_session => DeinitScreen
  | join_stream peer => JoinStream peer
  | leave_all_streams => LeaveStreams
  | leave_stream peer => LeaveStream peer
  end.

Inductive AudioCall :=
  | voice_start | voice_stop | voice_set_muted (muted : bool) | audio_set_deafened (deafened : bool)
  | audio_set_master_volume (volume : spec_float)
  | audio_set_input_device (id : string) (ok : bool) | audio_set_output_device (id : string) (ok : bool)
  | audio_set_peer_volume (peer : string) (volume : spec_float) | audio_set_peer_muted (peer : string) (muted : bool).

Definition core_audio (c : AudioCall) : MediaCall :=
  match c with
  | voice_start => StartVoice
  | voice_stop => StopVoice
  | voice_set_muted muted => SetMuted muted
  | audio_set_deafened deafened => SetDeafened deafened
  | audio_set_master_volume volume => SetMasterVolume volume
  | audio_set_input_device id ok => SetDevice false id ok
  | audio_set_output_device id ok => SetDevice true id ok
  | audio_set_peer_volume peer volume => SetPeerVolume peer volume
  | audio_set_peer_muted peer muted => SetPeerMuted peer muted
  end.

Inductive ScreenCall :=
  | screen_start_sharing (target_json : string) (max_width max_height fps : Z) (share_audio : bool) (audio_target : string)
  | screen_stop_sharing | screen_set_local_preview_enabled (enabled : bool)
  | screen_set_stream_volume (peer : string) (volume : spec_float).

Definition core_screen (c : ScreenCall) : MediaCall :=
  match c with
  | screen_start_sharing target_json max_width max_height fps share_audio audio_target =>
    StartSharing target_json max_width max_height fps share_audio audio_target
  | screen_stop_sharing => StopSharing
  | screen_set_local_preview_enabled enabled => SetLocalPreview enabled
  | screen_set_stream_volume peer volume => SetStreamVolume peer volume
  end.

(** ** The bridge *)

(** The queued signals. *)
Inductive UiEvent :=
  | wsConnected | wsDisconnected
  | peerJoined (id : string) | peerLeft (id : string) | peerIdentityReceived (id name : string)
  | streamingStarted (id : string) | streamingStopped (id : string)
  | streamWatchRejected (id reason : string)
  | frameRemoved (id : string).

(** A task of the audio pool: to start voice, with what it does next, or to stop. *)
Inductive Stage := ToDevices | ToCheck | ToStart.
Inductive AudioTask := StartTask (generation : Z) (stage : Stage) | StopTask.

Record Bridge := mkBridge {
  wire : Socket.Run;
  media : list MediaCall;
  ui_queue : list UiEvent;
  m_audioGeneration : Z;
  m_audioPool : list AudioTask;
  m_videoSinks : gmap string (list nat);
  inputDevice : option string;
  outputDevice : option string;
}.

Definition new_bridge (input output : option string) : Bridge := mkBridge Socket.start [] [] 0 [] ∅ input output.

Definition with_wire (r : Socket.Run) (b : Bridge) : Bridge :=
  mkBridge r (media b) (ui_queue b) (m_audioGeneration b) (m_audioPool b) (m_videoSinks b) (inputDevice b) (outputDevice b).
Definition tell (c : MediaCall) (b : Bridge) : Bridge :=
  mkBridge (wire b) (media b ++ [c]) (ui_queue b) (m_audioGeneration b) (m_audioPool b) (m_videoSinks b) (inputDevice b) (outputDevice b).
Definition with_queue (q : list UiEvent) (b : Bridge) : Bridge :=
  mkBridge (wire b) (media b) q (m_audioGeneration b) (m_audioPool b) (m_videoSinks b) (inputDevice b) (outputDevice b).
Definition post (e : UiEvent) (b : Bridge) : Bridge := with_queue (ui_queue b ++ [e]) b.
Definition with_audio (generation : Z) (pool : list AudioTask) (b : Bridge) : Bridge :=
  mkBridge (wire b) (media b) (ui_queue b) generation pool (m_videoSinks b) (inputDevice b) (outputDevice b).
Definition with_sinks (sinks : gmap string (list nat)) (b : Bridge) : Bridge :=
  mkBridge (wire b) (media b) (ui_queue b) (m_audioGeneration b) (m_audioPool b) sinks (inputDevice b) (outputDevice b).
Definition with_devices (input output : option string) (b : Bridge) : Bridge :=
  mkBridge (wire b) (media b) (ui_queue b) (m_audioGeneration b) (m_audioPool b) (m_videoSinks b) input output.

(** *** Callbacks *)

(** The listeners of the client come before the callback of the bridge. *)
Definition connection_changed (connected : bool) (b : Bridge) : Bridge :=
  post (if connected then wsConnected else wsDisconnected) (tell (SignalingState connected) b).

(** What the transport announced between two of its states. *)
Definition announcements (before after : Socket.Transport) : list bool :=
  omap (fun n => match n with Notified connected => Some connected | _ => None end) (drop (length (log before)) (log after)).

Definition move_wire (r : Socket.Run) (b : Bridge) : Bridge :=
  foldl (fun b connected => connection_changed connected b) (with_wire r b) (announcements (Socket.transport (wire b)) (Socket.transport r)).

(** [set_peer_identity_] *)
Definition on_peer_identity (id name : string) (b : Bridge) : Bridge :=
  if String.eqb name "" then b else post (peerIdentityReceived id name) b.

Definition on_peer_joined (id name : string) (b : Bridge) : Bridge := post (peerJoined id) (on_peer_identity id name b).

(** The callbacks of a message, in the order of [on_ws_message]. *)
Definition on_message (m : Message) (b : Bridge) : Bridge :=
  match m with
  | Welcome _ peers streaming =>
    foldl (fun b p => post (streamingStarted p) b) (foldl (fun b p => on_peer_joined (peer_id p) (peer_username p) b) b peers) streaming
  | PeerJoined id name => on_peer_joined id name b
  | PeerLeft id => post (peerLeft id) (tell (RemovePeer id) b)
  | Answer sdp connection => tell (MediaAnswer connection sdp) b
  | Candidate candidate mid connection => tell (MediaCandidate connection candidate mid) b
  | TrackBinding mid peer connection => tell (TrackBound connection mid peer) b
  | StreamingStart (Some id) => post (streamingStarted id) b
  | StreamingStop (Some id) => post (streamingStopped id) (tell (PeerStoppedStreaming id) b)
  | WatchRejected id reason => tell (WatchRefused id) (post (streamWatchRejected id (reason_to_string reason)) b)
  | _ => b
  end.

Section Messages.
Variable json_parse : string -> option json.

(** A callback of socket [s], if the library may call it. *)
Definition socket_calls (s : Socket) (cb : Callback) (b : Bridge) : Bridge :=
  let t := Socket.transport (wire b) in
  match fires cb (phase (wire b) s) with
  | Some p =>
    if s <? next_socket t
    then
      let r := mkRun (callback json_parse s cb t) (moved (wire b) s p) in
      let b' := move_wire r b in
      match cb with
      | OnMessage raw =>
        if is_current_socket s t then match parse json_parse raw with Value m => on_message m b' | Unexpected _ => b' end else b'
      | _ => b'
      end
    else b
  | None => b
  end%nat.
End Messages.

(** *** The connection *)

Section Connect.
(** [QUrl::toPercentEncoding], and the environment *)
Variable toPercentEncoding : string -> text.
Variable getenv : text -> option text.

Definition connect_url (serverUrl username accessToken : string) : text :=
  let url := chars serverUrl in
  let url := url ++ (match find_char "?" url with Some _ => "&"%char | None => "?"%char end) :: chars "u=" ++ toPercentEncoding username in
  if String.eqb accessToken "" then url else url ++ chars "&t=" ++ toPercentEncoding accessToken.

Definition connect (created : bool) (serverUrl username accessToken : string) (b : Bridge) : Bridge :=
  let r := wire b in
  move_wire (mkRun (Socket.connect getenv created (connect_url serverUrl username accessToken) (Socket.transport r)).1 (phase r)) b.
End Connect.

Definition disconnect (b : Bridge) : Bridge :=
  let r := wire b in move_wire (mkRun (Socket.disconnect (Socket.transport r)) (phase r)) b.

Definition connected (b : Bridge) : bool := ws_connected (Socket.transport (wire b)).
Definition localId (b : Bridge) : string := local_id (client (Socket.transport (wire b))).

(** *** Voice *)

Definition audioStart (b : Bridge) : Bridge :=
  let generation := u64 (m_audioGeneration b + 1) in
  with_audio generation (m_audioPool b ++ [StartTask generation ToDevices]) b.

Definition audioStop (b : Bridge) : Bridge := with_audio (u64 (m_audioGeneration b + 1)) (m_audioPool b ++ [StopTask]) b.

(** A device that is refused is replaced by the default, also in the settings. *)
Definition choose_input (ok : bool) (b : Bridge) : Bridge :=
  let b := tell (core_audio (audio_set_input_device (default "default"%string (inputDevice b)) ok)) b in
  if ok then b else with_devices (Some "default"%string) (outputDevice b) (tell (core_audio (audio_set_input_device "default" true)) b).

Definition choose_output (ok : bool) (b : Bridge) : Bridge :=
  let b := tell (core_audio (audio_set_output_device (default "default"%string (outputDevice b)) ok)) b in
  if ok then b else with_devices (inputDevice b) (Some "default"%string) (tell (core_audio (audio_set_output_device "default" true)) b).

(** The pool's thread goes on with its task. *)
Definition run_audio (answer : nat -> bool) (b : Bridge) : Bridge :=
  let next pool := with_audio (m_audioGeneration b) pool in
  match m_audioPool b with
  | [] => b
  | StartTask generation ToDevices :: rest =>
    next (StartTask generation ToCheck :: rest) (choose_output (answer 1%nat) (choose_input (answer 0%nat) b))
  | StartTask generation ToCheck :: rest =>
    if m_audioGeneration b =? generation then next (StartTask generation ToStart :: rest) b else next rest b
  | StartTask _ ToStart :: rest => next rest (tell (core_audio voice_start) b)
  | StopTask :: rest => next rest (tell (core_audio voice_stop) b)
  end.

Definition setMuted (m : bool) (b : Bridge) : Bridge := tell (core_audio (voice_set_muted m)) b.
Definition setDeafened (d : bool) (b : Bridge) : Bridge := tell (core_audio (audio_set_deafened d)) b.
Definition setMasterVolume (v : spec_float) (b : Bridge) : Bridge := tell (core_audio (audio_set_master_volume v)) b.
Definition setPeerVolume (id : string) (v : spec_float) (b : Bridge) : Bridge := tell (core_audio (audio_set_peer_volume id v)) b.
Definition setPeerMuted (id : string) (m : bool) (b : Bridge) : Bridge := tell (core_audio (audio_set_peer_muted id m)) b.

Definition setInputDevice (id : string) (ok : bool) (b : Bridge) : Bridge :=
  let b := tell (core_audio (audio_set_input_device id ok)) b in if ok then with_devices (Some id) (outputDevice b) b else b.
Definition setOutputDevice (id : string) (ok : bool) (b : Bridge) : Bridge :=
  let b := tell (core_audio (audio_set_output_device id ok)) b in if ok then with_devices (inputDevice b) (Some id) b else b.

(** *** Screens *)

Definition initScreenSession (b : Bridge) : Bridge := tell (core_stream init_screen_session) b.
Definition deinitScreenSession (b : Bridge) : Bridge := tell (core_stream deinit_screen_session) b.
Definition startSharing (target : string) (w h fps : Z) (audio : bool) (audioTarget : string) (b : Bridge) : Bridge :=
  tell (core_screen (screen_start_sharing target w h fps audio audioTarget)) b.
Definition stopSharing (b : Bridge) : Bridge := tell (core_screen screen_stop_sharing) b.
Definition setLocalPreviewEnabled (enabled : bool) (b : Bridge) : Bridge := tell (core_screen (screen_set_local_preview_enabled enabled)) b.
Definition joinStream (id : string) (b : Bridge) : Bridge := tell (core_stream (join_stream id)) b.
Definition leaveStream (id : string) (b : Bridge) : Bridge := tell (core_stream (leave_stream id)) b.
Definition setStreamVolume (id : string) (v : spec_float) (b : Bridge) : Bridge := tell (core_screen (screen_set_stream_volume id v)) b.

(** *** Sinks *)

Definition sinks_of (id : string) (b : Bridge) : list nat := default [] (m_videoSinks b !! id).

Definition registerVideoSink (peerId : string) (sink : nat) (b : Bridge) : Bridge :=
  if String.eqb peerId "" then b
  else
    let sinks := sinks_of peerId b in
    with_sinks (<[peerId := if bool_decide (sink ∈ sinks) then sinks else sinks ++ [sink]]> (m_videoSinks b)) b.

Definition without_sink (sink : nat) (sinks : list nat) : option (list nat) :=
  match filter (fun s => s <> sink) sinks with [] => None | others => Some others end.

Definition unregisterVideoSink (peerId : string) (sink : nat) (b : Bridge) : Bridge :=
  with_sinks (partial_alter (fun sinks => sinks ≫= without_sink sink) peerId (m_videoSinks b)) b.

(** Every registration of the sink ends with it. *)
Definition sink_destroyed (sink : nat) (b : Bridge) : Bridge := with_sinks (omap (without_sink sink) (m_videoSinks b)) b.

(** The sinks that a frame of a peer is set on. *)
Definition on_frame (id : string) (b : Bridge) : list nat := sinks_of id b.

(** The sinks that are emptied, and the signal. *)
Definition on_frame_removed (id : string) (b : Bridge) : list nat * Bridge := (sinks_of id b, post (frameRemoved id) b).

(** *** The end *)

(** [waitForDone]; a task takes at most three steps. *)
Fixpoint drain_audio (fuel : nat) (answer : nat -> bool) (b : Bridge) : Bridge :=
  match fuel with
  | O => b
  | S fuel => match m_audioPool b with [] => b | _ => drain_audio fuel answer (run_audio answer b) end
  end.

Definition shutdown (answer : nat -> bool) (b : Bridge) : Bridge :=
  let b := with_audio (u64 (m_audioGeneration b + 1)) (m_audioPool b) b in
  let b := drain_audio (3 * length (m_audioPool b)) answer b in
  with_sinks ∅ (disconnect (tell (core_audio voice_stop) (tell (core_stream deinit_screen_session) b))).

(** ** What was asked of the client *)

(** Whether the last call for voice started it, and the last for screens. *)
Definition voice_asked (l : list MediaCall) : bool :=
  foldl (fun v c => match c with StartVoice => true | StopVoice => false | _ => v end) false l.
Definition screen_asked (l : list MediaCall) : bool :=
  foldl (fun v c => match c with InitScreen => true | DeinitScreen => false | _ => v end) false l.

(** What will have been asked when the pool has done its tasks. *)
Definition task_effect (generation : Z) (v : bool) (t : AudioTask) : bool :=
  match t with
  | StartTask _ ToStart => true
  | StartTask g _ => if generation =? g then true else v
  | StopTask => false
  end.

Definition voice_outlook (b : Bridge) : bool :=
  foldl (task_effect (m_audioGeneration b)) (voice_asked (media b)) (m_audioPool b).

Lemma voice_asked_app l c : voice_asked (l ++ [c]) = match c with StartVoice => true | StopVoice => false | _ => voice_asked l end.
Proof. unfold voice_asked. by rewrite foldl_snoc. Qed.

Lemma screen_asked_app l c : screen_asked (l ++ [c]) = match c with InitScreen => true | DeinitScreen => false | _ => screen_asked l end.
Proof. unfold screen_asked. by rewrite foldl_snoc. Qed.

Lemma audioStart_outlook b : voice_outlook (audioStart b) = true.
Proof. unfold voice_outlook. cbn. by rewrite foldl_snoc; cbn; rewrite Z.eqb_refl. Qed.

Lemma audioStop_outlook b : voice_outlook (audioStop b) = false.
Proof. unfold voice_outlook. cbn. by rewrite foldl_snoc. Qed.

Lemma choose_asked ok1 ok2 b :
  let b' := choose_output ok2 (choose_input ok1 b) in
  voice_asked (media b') = voice_asked (media b) /\ screen_asked (media b') = screen_asked (media b)
  /\ (wire b', ui_queue b', m_audioGeneration b', m_audioPool b', m_videoSinks b')
     = (wire b, ui_queue b, m_audioGeneration b, m_audioPool b, m_videoSinks b).
Proof. unfold choose_output, choose_input. destruct ok1, ok2; cbn; by rewrite ?voice_asked_app, ?screen_asked_app. Qed.

(** The pool's thread goes on, and nothing else changes: only the calls it makes. *)
Lemma run_audio_frame answer b :
  let b' := run_audio answer b in
  voice_outlook b' = voice_outlook b /\ screen_asked (media b') = screen_asked (media b)
  /\ (wire b', ui_queue b', m_audioGeneration b', m_videoSinks b') = (wire b, ui_queue b, m_audioGeneration b, m_videoSinks b).
Proof.
  unfold run_audio, voice_outlook. destruct (m_audioPool b) as [| [g []|] rest] eqn:Hp.
  - cbn. by rewrite Hp.
  - destruct (choose_asked (answer 0%nat) (answer 1%nat) b) as (Hv & Hs & [= E1 E2 E3 E4 E5]). set (c := choose_output _ _) in *.
    cbn [media m_audioGeneration m_audioPool wire ui_queue m_videoSinks with_audio foldl task_effect]. by rewrite Hv, Hs, E1, E2, E5.
  - destruct (m_audioGeneration b =? g) eqn:Hg; cbn; by rewrite ?Hg.
  - cbn [media tell with_audio m_audioGeneration m_audioPool foldl core_audio]. by rewrite voice_asked_app, screen_asked_app.
  - cbn [media tell with_audio m_audioGeneration m_audioPool foldl core_audio]. by rewrite voice_asked_app, screen_asked_app.
Qed.

Definition task_steps (t : AudioTask) : nat := match t with StartTask _ ToDevices => 3 | StartTask _ ToCheck => 2 | _ => 1 end.

Lemma run_audio_steps answer b :
  m_audioPool b <> [] ->
  (sum_list_with task_steps (m_audioPool (run_audio answer b)) < sum_list_with task_steps (m_audioPool b))%nat.
Proof.
  unfold run_audio. destruct (m_audioPool b) as [| [g []|] rest]; [done | | | |]; intros _; cbn; try lia.
  destruct (_ =? _); cbn; lia.
Qed.

(** Every task is done, whatever the library answers. *)
Lemma drain_audio_empty answer fuel b :
  (sum_list_with task_steps (m_audioPool b) <= fuel)%nat ->
  let b' := drain_audio fuel answer b in
  m_audioPool b' = [] /\ voice_outlook b' = voice_outlook b /\ wire b' = wire b /\ ui_queue b' = ui_queue b
  /\ screen_asked (media b') = screen_asked (media b).
Proof.
  revert b. induction fuel as [| fuel IH]; intros b Hf; cbn.
  - split_and!; try done. destruct (m_audioPool b) as [| [g []|] rest]; [done | cbn in Hf; lia..].
  - destruct (m_audioPool b) as [| t rest] eqn:Hp; [by split_and! |].
    pose proof (run_audio_steps answer b) as Hlt. rewrite Hp in Hlt. specialize (Hlt ltac:(done)).
    pose proof (run_audio_frame answer b) as (Hv & Hs & [= Hw Hq _ _]).
    destruct (IH (run_audio answer b)) as (H1 & H2 & H3 & H4 & H5); [cbn in *; lia |].
    by rewrite H1, H2, H3, H4, H5, Hv, Hs, Hw, Hq.
Qed.

Lemma task_steps_le pool : (sum_list_with task_steps pool <= 3 * length pool)%nat.
Proof. induction pool as [| [g []|] pool IH]; cbn in *; lia. Qed.

(** ** The connection that is announced *)

Definition notices (l : list Notice) : list bool := omap (fun n => match n with Notified c => Some c | _ => None end) l.

(** The last of the announcements that wait, or the state before. *)
Definition conn_events (q : list UiEvent) : list bool :=
  omap (fun e => match e with wsConnected => Some true | wsDisconnected => Some false | _ => None end) q.

Lemma hear_last c l c' : foldl hear (Some c) l = Some c' -> c' = default c (last (notices l)).
Proof.
  assert (Hnone : forall l, foldl hear None l = None) by (intros l'; induction l' as [| [[] | | |] l' IH]; [done | exact IH ..]).
  assert (Hlast : forall (xs : list bool) c x, default c (last (x :: xs)) = default x (last xs)).
  { intros xs. induction xs as [| y xs IHxs]; intros d x; [done |]. change (last (x :: y :: xs)) with (last (y :: xs)). by rewrite !IHxs. }
  revert c. induction l as [| n l IH]; intros c; [by intros [= ->] |]. destruct n as [[] | | |]; cbn [foldl hear]; try apply IH.
  - destruct c; [by rewrite Hnone |]. intros Hl. rewrite (IH _ Hl). change (notices (Notified true :: l)) with (true :: notices l). by rewrite Hlast.
  - intros Hl. rewrite (IH _ Hl). change (notices (Notified false :: l)) with (false :: notices l). by rewrite Hlast.
Qed.

(** A part of the transport's life: the log grows, and says what became of the
    connection. *)
Lemma wire_announces (r r' : Run) :
  transport_ok r -> transport_ok r' -> log (Socket.transport r) `prefix_of` log (Socket.transport r') ->
  ws_connected (Socket.transport r') = default (ws_connected (Socket.transport r)) (last (announcements (Socket.transport r) (Socket.transport r'))).
Proof.
  intros Hok Hok' [more Hlog]. pose proof (to_view _ Hok) as Hv. pose proof (to_view _ Hok') as Hv'. unfold announcements.
  rewrite Hlog in *. rewrite drop_app_length. unfold view in *. rewrite foldl_app, Hv in Hv'. by apply hear_last.
Qed.

Lemma disconnect_prefix t : log t `prefix_of` log (Socket.disconnect t).
Proof.
  unfold Socket.disconnect. destruct (ws_connected t); cbn; [rewrite <- app_assoc |]; by eexists.
Qed.

Lemma connect_prefix getenv created url t : log t `prefix_of` log (Socket.connect getenv created url t).1.
Proof.
  pose proof (disconnect_prefix t) as Hd. unfold Socket.connect.
  destruct (socket_proxy getenv url); [destruct created |]; cbn; try done. by apply prefix_app_r.
Qed.

Lemma notify_disconnected_prefix s t : log t `prefix_of` log (notify_disconnected s t).
Proof. unfold notify_disconnected. destruct (decide _); cbn; [done | by apply prefix_app_r]. Qed.

Lemma callback_prefix json_parse s cb t : log t `prefix_of` log (callback json_parse s cb t).
Proof.
  unfold callback. destruct (is_current_socket s t); [| done]. destruct cb as [| | | raw]; cbn [body].
  - by apply prefix_app_r.
  - unfold closed_body. etransitivity; [| apply notify_disconnected_prefix]. by destruct (is_current_socket _ _).
  - unfold error_body. etransitivity; [| apply notify_disconnected_prefix]. by destruct (is_current_socket _ _).
  - unfold message_body. by destruct (parse _ _).
Qed.

(** What a move of the wire does to the bridge. *)
Lemma move_wire_frame r b :
  let anns := announcements (Socket.transport (wire b)) (Socket.transport r) in
  let b' := move_wire r b in
  wire b' = r /\ media b' = media b ++ (SignalingState <$> anns)
  /\ ui_queue b' = ui_queue b ++ ((fun c : bool => if c then wsConnected else wsDisconnected) <$> anns)
  /\ (m_audioGeneration b', m_audioPool b', m_videoSinks b', inputDevice b', outputDevice b')
     = (m_audioGeneration b, m_audioPool b, m_videoSinks b, inputDevice b, outputDevice b).
Proof.
  unfold move_wire. set (anns := announcements _ _).
  assert (Hgen : forall l b0, let b' := foldl (fun b connected => connection_changed connected b) b0 l in
    wire b' = wire b0 /\ media b' = media b0 ++ (SignalingState <$> l)
    /\ ui_queue b' = ui_queue b0 ++ ((fun c : bool => if c then wsConnected else wsDisconnected) <$> l)
    /\ (m_audioGeneration b', m_audioPool b', m_videoSinks b', inputDevice b', outputDevice b')
       = (m_audioGeneration b0, m_audioPool b0, m_videoSinks b0, inputDevice b0, outputDevice b0)).
  { induction l as [| c l IH]; intros b0; cbn [foldl fmap list_fmap]; [by rewrite !app_nil_r |].
    destruct (IH (connection_changed c b0)) as (-> & -> & -> & ->). cbn. by rewrite <- !app_assoc. }
  apply (Hgen anns (with_wire r b)).
Qed.

Lemma conn_events_map (l : list bool) : conn_events ((fun c : bool => if c then wsConnected else wsDisconnected) <$> l) = l.
Proof. induction l as [| [] l IH]; [done | |]; cbn; f_equal; exact IH. Qed.

Lemma conn_events_app q q' : conn_events (q ++ q') = conn_events q ++ conn_events q'.
Proof. apply omap_app. Qed.

(** No call of the transport for voice or screens. *)
Lemma asked_states l anns :
  voice_asked (l ++ (SignalingState <$> anns)) = voice_asked l /\ screen_asked (l ++ (SignalingState <$> anns)) = screen_asked l.
Proof.
  induction anns as [| c anns IH] using rev_ind; [by rewrite app_nil_r |]. rewrite fmap_app, app_assoc. cbn.
  by rewrite voice_asked_app, screen_asked_app.
Qed.

(** ** The URL that the server reads *)

(** [QString::arg] of an integer *)
Definition arg (n : Z) : string := if n <? 0 then ("-" ++ of_chars (to_string (- n)))%string else of_chars (to_string n).

Lemma chars_app s t : chars (s ++ t)%string = chars s ++ chars t.
Proof. unfold chars. induction s as [| c s IH]; [done |]. change (String c s +:+ t)%string with (String c (s +:+ t)). cbn. by f_equal. Qed.

Lemma digits_unreserved t : Forall (fun c => isdigit c = true) t -> Forall (fun c => unreserved c = true) t.
Proof.
  intros Ht. eapply Forall_impl; [exact Ht |]. intros c Hc. unfold unreserved. unfold isdigit in Hc. by rewrite Hc, orb_true_r.
Qed.

Lemma unreserved_escape t : Forall (fun c => unreserved c = true) t -> url_escape t = t.
Proof. induction 1 as [| c t Hc _ IH]; [done |]. unfold url_escape in *. cbn. unfold escape_char at 1. by rewrite Hc, IH. Qed.

Lemma arg_plain n : url_escape (chars (arg n)) = chars (arg n) /\ chars (arg n) <> [].
Proof.
  unfold arg. destruct (n <? 0) eqn:Hn.
  - apply Z.ltb_lt in Hn. destruct (to_string_spec (- n)) as (_ & Hd & _); [lia |]. rewrite chars_app, chars_of_chars.
    split; [| done]. apply unreserved_escape. cbn. constructor; [done |]. by apply digits_unreserved.
  - apply Z.ltb_ge in Hn. destruct (to_string_spec n) as (Hne & Hd & _); [lia |]. rewrite chars_of_chars.
    split; [| done]. by apply unreserved_escape, digits_unreserved.
Qed.

(** C40 The URL that the client connects to says to the server what the client means:
    whatever the channel's number, and whatever bytes the user's name and token
    hold, the server reads from the target the room of that number, the name and the
    token; a token that is missing is read as empty. *)
Theorem connect_read_back toPercentEncoding base channel username accessToken :
  (forall s, toPercentEncoding s = url_escape (chars s)) -> find_char "?" (chars base) = None ->
  exists target,
    connect_url toPercentEncoding (base ++ "/channels/" ++ arg channel) username accessToken = chars base ++ target
    /\ parse_room_id target = chars (arg channel) /\ url_decode (parse_room_id target) = chars (arg channel)
    /\ parse_query_param target (chars "u") = chars username
    /\ parse_query_param target (chars "t") = chars accessToken.
Proof.
  intros Henc Hbase. destruct (arg_plain channel) as [Hesc Hne].
  set (ps := (chars "u", chars username) :: if String.eqb accessToken "" then [] else [(chars "t", chars accessToken)]).
  assert (Hurl : connect_url toPercentEncoding (base ++ "/channels/" ++ arg channel) username accessToken
                 = chars base ++ kPrefix ++ url_escape (chars (arg channel)) ++ replicate 0 "/"%char ++ "?"%char :: query_string ps).
  { unfold connect_url, ps. rewrite Hesc, !chars_app. change (chars "/channels/") with kPrefix.
    rewrite app_assoc, find_char_absent.
    - rewrite !Henc. destruct (String.eqb accessToken ""); rewrite <- ?app_assoc; reflexivity.
    - rewrite !Forall_app. split_and!; [by apply find_if_None | by repeat constructor |].
      rewrite <- Hesc. by apply escape_avoids. }
  assert (Hkeys : Forall (fun p => is_key p.1) ps) by (unfold ps; destruct (String.eqb accessToken ""); by repeat constructor).
  eexists. split; [exact Hurl |].
  destruct (url_roundtrip (chars (arg channel)) 0 ps (chars "u") Hne Hkeys) as (Hroom & Hdec & Hu & _).
  destruct (url_roundtrip (chars (arg channel)) 0 ps (chars "t") Hne Hkeys) as (_ & _ & Ht & _).
  split_and!; [by rewrite Hroom | exact Hdec | by rewrite Hu |]. rewrite Ht.
  unfold ps. destruct (String.eqb_spec accessToken "") as [-> | _]; reflexivity.
Qed.

Lemma connect_read_back_witness :
  exists target,
    connect_url (fun s => url_escape (chars s)) ("wss://sfu.example" ++ "/channels/" ++ arg 42) "ann & bob?" "a=b/+" = chars "wss://sfu.example" ++ target
    /\ parse_query_param target (chars "u") = chars "ann & bob?".
Proof.
  destruct (connect_read_back (fun s => url_escape (chars s)) "wss://sfu.example" 42 "ann & bob?" "a=b/+") as (target & Ht & _ & _ & Hu & _);
    [done | by vm_compute |]. exists target. split; [exact Ht | exact Hu].
Defined.

(** ** The end of the program *)

(** However many tasks wait, [shutdown] does them all, and leaves a client whose last
    calls stopped voice and screens, and a transport that is not connected. *)
Theorem shutdown_stops answer b :
  let b' := shutdown answer b in
  m_audioPool b' = [] /\ voice_asked (media b') = false /\ screen_asked (media b') = false /\ connected b' = false /\ m_videoSinks b' = ∅.
Proof.
  unfold shutdown. set (b0 := with_audio _ _ b). pose proof (drain_audio_empty answer (3 * length (m_audioPool b0)) b0 (task_steps_le _)) as (Hp & _).
  set (b1 := drain_audio _ _ _) in *. set (c := tell (core_audio voice_stop) _). unfold disconnect, connected. cbv zeta.
  set (r := mkRun _ _). destruct (move_wire_frame r c) as (Hw & Hm & _ & [= _ Hpool _ _ _]). set (d := move_wire r c) in *.
  cbn [media m_audioPool wire m_videoSinks with_sinks]. rewrite Hw, Hm, Hpool.
  destruct (asked_states (media c) (announcements (Socket.transport (wire c)) (Socket.transport r))) as [-> ->].
  unfold c. cbn [media m_audioPool tell core_audio core_stream]. rewrite !voice_asked_app, !screen_asked_app.
  split_and!; try done. apply disconnect_fields.
Qed.
