(* ===== verification/AppState.v ===== *)
(** * The state of the application (client-qt/src/app/AppState.cpp, client-qt/src/api repositories)

    [AppState] is what the interface shows.  Its slots run on the interface's thread,
    one at a time: calls of the interface, replies of the API, signals of
    [AuthManager] (SignIn) and queued signals of [DriscordBridge] (Bridge).  [act] is
    one of them, or a step of the bridge's other threads.  A reply is matched with
    the request that waits for it, which holds what its callback captured.  Replies
    are JSON values; images, files and timers are parameters. *)

From S2P Require Import Prelude Floats Text Url Signaling Transport Proxy Socket SignIn Bridge.

Local Open Scope Z_scope.
Local Open Scope list_scope.

#[local] Notation "w |> f" := (f w) (at level 69, left associativity, only parsing).

(** ** What is shown *)

Record Profile := mkProfile { p_id : Z; p_username : string; p_displayName : string; p_email : option string; p_avatarUrl : string }.
Record Server := mkServer { server_id : Z; server_name : string; ownerId : Z }.
Record Channel := mkChannel { channel_id : Z; channel_name : string; channel_kind : string }.
Record User := mkUser { user_id : Z; user_name : string; user_displayName : string; user_avatarUrl : string }.

(** [userId]: when the API has told who the peer is. *)
Record Peer := mkPeer { p_peer : string; p_name : string; p_display : string; p_avatar : string; p_user : option Z }.

Inductive ConnectionState := Disconnected | Connecting | Connected.

#[export] Instance ConnectionState_eq_dec : EqDecision ConnectionState.
Proof. solve_decision. Defined.

(** Round trips with the time they were measured. *)
Record Stats := mkStats { avgRttMs : Z; lastRttMs : Z; packetsLost : Z; remoteVoiceTracks : Z; rttHistory : list (Z * Z) }.

Definition no_stats : Stats := mkStats (-1) (-1) 0 0 [].

Record App := mkApp {
  userProfile : option Profile;
  apiError : string;
  servers : list Server;
  selectedServerId : Z;
  channels : list Channel;
  selectedChannelId : Z;
  users : list User;
  peers : list Peer;
  streamingPeers : list string;
  watchedPeerIds : list string;
  connectionState : ConnectionState;
  statsTimer : bool;
  connectionStats : Stats;
}.

Definition new_app : App := mkApp None "" [] (-1) [] (-1) [] [] [] [] Disconnected false no_stats.

(** The signals that tell the interface to look again. *)
Inductive Notify :=
  | userProfileChanged | apiErrorChanged | serversChanged | selectedServerChanged | channelsChanged | selectedChannelChanged
  | usersChanged | peersChanged | connectionChanged | audioStateChanged | sharingChanged | streamingPeersChanged
  | watchedStreamsChanged | connectionStatsChanged.

#[export] Instance Notify_eq_dec : EqDecision Notify.
Proof. solve_decision. Defined.

(** ** Requests *)

(** A request that waits, and what its callback captured: mostly who asked. *)
Inductive Request :=
  | GetMe (user : Z)
  | ListServers (user : Z)
  | ListChannels (user server : Z)
  | CreateServer (user : Z) (name description : string)
  | CreateChannel (user server : Z) (name kind : string)
  | AcceptInvite (user : Z) (code : string)
  | ListUsers (user : Z)
  | AddMember (user server member : Z)
  | UpdateProfile (id : Z) (name : string)
  | UploadAvatar (id : Z) (data ext : string)
  | GetUserByUsername (user : Z) (peer name : string).

Inductive Verb := Get | Post | Patch | Put.

(** What [ApiClient] sends; a body that is not JSON is the file's name, data and type. *)
Inductive Body := NoBody | Json (o : list (string * QJsonValue)) | File (field name data mime : string).
Record HttpRequest := mkHttp { verb : Verb; url : string; bearer : option string; body : Body }.

Record World := mkWorld {
  auth : Auth;
  app : App;
  bridge : Bridge;
  requests : list Request;
  sent : list HttpRequest;
  notified : list Notify;
}.

Definition with_auth (a : Auth) (w : World) : World := mkWorld a (app w) (bridge w) (requests w) (sent w) (notified w).
Definition upd (f : App -> App) (w : World) : World := mkWorld (auth w) (f (app w)) (bridge w) (requests w) (sent w) (notified w).
Definition on_bridge (f : Bridge -> Bridge) (w : World) : World :=
  mkWorld (auth w) (app w) (f (bridge w)) (requests w) (sent w) (notified w).
Definition with_requests (r : list Request) (w : World) : World := mkWorld (auth w) (app w) (bridge w) r (sent w) (notified w).
Definition emit (n : Notify) (w : World) : World :=
  mkWorld (auth w) (app w) (bridge w) (requests w) (sent w) (notified w ++ [n]).

Definition set_profile (p : option Profile) (a : App) : App :=
  mkApp p (apiError a) (servers a) (selectedServerId a) (channels a) (selectedChannelId a) (users a) (peers a) (streamingPeers a)
    (watchedPeerIds a) (connectionState a) (statsTimer a) (connectionStats a).
Definition set_error (e : string) (a : App) : App :=
  mkApp (userProfile a) e (servers a) (selectedServerId a) (channels a) (selectedChannelId a) (users a) (peers a) (streamingPeers a)
    (watchedPeerIds a) (connectionState a) (statsTimer a) (connectionStats a).
Definition set_servers (l : list Server) (a : App) : App :=
  mkApp (userProfile a) (apiError a) l (selectedServerId a) (channels a) (selectedChannelId a) (users a) (peers a) (streamingPeers a)
    (watchedPeerIds a) (connectionState a) (statsTimer a) (connectionStats a).
Definition set_server (id : Z) (a : App) : App :=
  mkApp (userProfile a) (apiError a) (servers a) id (channels a) (selectedChannelId a) (users a) (peers a) (streamingPeers a)
    (watchedPeerIds a) (connectionState a) (statsTimer a) (connectionStats a).
Definition set_channels (l : list Channel) (a : App) : App :=
  mkApp (userProfile a) (apiError a) (servers a) (selectedServerId a) l (selectedChannelId a) (users a) (peers a) (streamingPeers a)
    (watchedPeerIds a) (connectionState a) (statsTimer a) (connectionStats a).
Definition set_channel (id : Z) (a : App) : App :=
  mkApp (userProfile a) (apiError a) (servers a) (selectedServerId a) (channels a) id (users a) (peers a) (streamingPeers a)
    (watchedPeerIds a) (connectionState a) (statsTimer a) (connectionStats a).
Definition set_users (l : list User) (a : App) : App :=
  mkApp (userProfile a) (apiError a) (servers a) (selectedServerId a) (channels a) (selectedChannelId a) l (peers a) (streamingPeers a)
    (watchedPeerIds a) (connectionState a) (statsTimer a) (connectionStats a).
Definition set_peers (l : list Peer) (a : App) : App :=
  mkApp (userProfile a) (apiError a) (servers a) (selectedServerId a) (channels a) (selectedChannelId a) (users a) l (streamingPeers a)
    (watchedPeerIds a) (connectionState a) (statsTimer a) (connectionStats a).
Definition set_streams (streaming watched : list string) (a : App) : App :=
  mkApp (userProfile a) (apiError a) (servers a) (selectedServerId a) (channels a) (selectedChannelId a) (users a) (peers a) streaming
    watched (connectionState a) (statsTimer a) (connectionStats a).
Definition set_connection (s : ConnectionState) (timer : bool) (a : App) : App :=
  mkApp (userProfile a) (apiError a) (servers a) (selectedServerId a) (channels a) (selectedChannelId a) (users a) (peers a)
    (streamingPeers a) (watchedPeerIds a) s timer (connectionStats a).
Definition set_stats (s : Stats) (a : App) : App :=
  mkApp (userProfile a) (apiError a) (servers a) (selectedServerId a) (channels a) (selectedChannelId a) (users a) (peers a)
    (streamingPeers a) (watchedPeerIds a) (connectionState a) (statsTimer a) s.

Definition set_streaming (l : list string) (a : App) : App := set_streams l (watchedPeerIds a) a.
Definition set_watched (l : list string) (a : App) : App := set_streams (streamingPeers a) l a.

(** [removeAll] *)
Definition remove_all (id : string) (l : list string) : list string := filter (fun x => x <> id) l.
Definition holds (id : string) (l : list string) : bool := bool_decide (id ∈ l).

Section Application.
(** [QString::trimmed], [QUrl::toPercentEncoding]; the environment of the proxy; the
    server's JSON parser; where the servers are. *)
Variable trimmed : string -> string.
Variable toPercentEncoding : string -> text.
Variable getenv : text -> option text.
Variable json_parse : string -> option json.
Variables signalingUrl apiBaseUrl : string.

(** The repositories. *)
Definition http_line (r : Request) : Verb * string * Body :=
  match r with
  | GetMe _ => (Get, "/users/me", NoBody)
  | ListServers _ => (Get, "/servers/", NoBody)
  | ListChannels _ server => (Get, "/servers/" ++ arg server ++ "/channels/", NoBody)
  | CreateServer _ name description => (Post, "/servers/", Json [("name", JString name); ("description", JString description)])
  | CreateChannel _ server name kind =>
    (Post, "/servers/" ++ arg server ++ "/channels/", Json [("name", JString name); ("kind", JString kind)])
  | AcceptInvite _ code => (Post, "/invites/" ++ code, Json [])
  | ListUsers _ => (Get, "/users/", NoBody)
  | AddMember _ server member => (Post, "/servers/" ++ arg server ++ "/members/" ++ arg member, Json [])
  | UpdateProfile id name => (Patch, "/users/" ++ arg id, Json [("display_name", JString name)])
  | UploadAvatar id data ext =>
    (Put, "/users/" ++ arg id ++ "/avatar",
     File "file" ("avatar." ++ ext) data (if String.eqb ext "png" then "image/png" else "image/jpeg"))
  | GetUserByUsername _ _ name => (Get, "/users/lookup?username=" ++ of_chars (toPercentEncoding name), NoBody)
  end%string.

(** [ApiClient::makeRequest] *)
Definition makeRequest (token : string) (r : Request) : HttpRequest :=
  let '(verb, path, body) := http_line r in
  mkHttp verb (apiBaseUrl ++ path)%string (if String.eqb token "" then None else Some ("Bearer " ++ token)%string) body.

Definition request (r : Request) (w : World) : World :=
  mkWorld (auth w) (app w) (bridge w) (requests w ++ [r]) (sent w ++ [makeRequest (access_token (auth w)) r]) (notified w).

(** [now]: the clock, in milliseconds; [None] without cache busting. *)
Definition avatarUrlFor (user : list (string * QJsonValue)) (id : Z) (now : option Z) : string :=
  match value "avatar_url" user with
  | JString s =>
    if String.eqb (trimmed s) "" then ""
    else apiBaseUrl ++ "/users/" ++ arg id ++ "/avatar" ++ match now with Some t => "?t=" ++ arg t | None => "" end
  | _ => ""
  end%string.

Definition display_or_name (o : list (string * QJsonValue)) : string :=
  let d := to_string "" (value "display_name" o) in if String.eqb d "" then to_string "" (value "username" o) else d.

Definition setApiError (e : string) (w : World) : World := w |> upd (set_error e) |> emit apiErrorChanged.

Definition resetConnectionStats (w : World) : World := w |> upd (set_stats no_stats) |> emit connectionStatsChanged.

(** ** Loading *)

Definition signed_in_as (user : Z) (w : World) : bool := loggedIn (auth w) && (userId (auth w) =? user).

Definition fetchCurrentUserProfile (w : World) : World :=
  let id := userId (auth w) in if id <=? 0 then w else request (GetMe id) w.

Definition reloadServers (w : World) : World := request (ListServers (userId (auth w))) w.

Definition reloadChannels (w : World) : World :=
  if selectedServerId (app w) <? 0 then w else request (ListChannels (userId (auth w)) (selectedServerId (app w))) w.

Definition loadInitialData (w : World) : World :=
  let a := auth w in
  let uid := userId a in
  let avatar := (if String.eqb (avatarUrl a) "" then "" else apiBaseUrl ++ "/users/" ++ arg uid ++ "/avatar")%string in
  w |> upd (set_profile (Some (mkProfile uid (username a) (displayName a) None avatar))) |> emit userProfileChanged
    |> fetchCurrentUserProfile |> reloadServers |> emit connectionChanged.

Definition parse_server (v : QJsonValue) : Server :=
  let o := to_object v in mkServer (to_int 0 (value "id" o)) (to_string "" (value "name" o)) (to_int 0 (value "owner_id" o)).
Definition parse_channel (v : QJsonValue) : Channel :=
  let o := to_object v in mkChannel (to_int 0 (value "id" o)) (to_string "" (value "name" o)) (to_string "" (value "kind" o)).
Definition parse_user (v : QJsonValue) : User :=
  let o := to_object v in
  let id := to_int 0 (value "id" o) in mkUser id (to_string "" (value "username" o)) (display_or_name o) (avatarUrlFor o id None).

(** ** Voice channels *)

Definition leaveVoiceChannel (w : World) : World :=
  w |> upd (fun a => set_connection (connectionState a) false a)
    |> on_bridge audioStop |> on_bridge deinitScreenSession |> on_bridge disconnect
    |> upd (set_connection Disconnected false) |> upd (set_peers []) |> upd (set_streams [] [])
    |> resetConnectionStats
    |> emit peersChanged |> emit streamingPeersChanged |> emit watchedStreamsChanged |> emit sharingChanged |> emit connectionChanged.

Definition is_disconnected (w : World) : bool := bool_decide (connectionState (app w) = Disconnected).

Definition joinVoiceChannel (channelId : Z) (created : bool) (w : World) : World :=
  if existsb (fun c => (channel_id c =? channelId) && String.eqb (channel_kind c) "voice") (channels (app w)) then
    let w := if is_disconnected w then w else leaveVoiceChannel w in
    w |> upd (set_channel channelId) |> emit selectedChannelChanged
      |> upd (fun a => set_connection Connecting (statsTimer a) a) |> emit connectionChanged
      |> on_bridge initScreenSession
      |> on_bridge (connect toPercentEncoding getenv created (signalingUrl ++ "/channels/" ++ arg channelId)
                      (username (auth w)) (access_token (auth w)))
      |> on_bridge audioStart
  else setApiError "The selected voice channel is no longer available." w.

Definition selectServer (id : Z) (w : World) : World :=
  let w := if negb (id =? selectedServerId (app w)) && negb (is_disconnected w) then leaveVoiceChannel w else w in
  w |> upd (set_server id) |> upd (set_channel (-1)) |> upd (set_channels [])
    |> emit selectedServerChanged |> emit selectedChannelChanged |> emit channelsChanged
    |> reloadChannels.

Definition selectChannel (id : Z) (w : World) : World := w |> upd (set_channel id) |> emit selectedChannelChanged.

(** ** Signals of [AuthManager] *)

Definition auth_changed (w : World) : World :=
  if loggedIn (auth w) then loadInitialData w
  else
    leaveVoiceChannel w
    |> upd (set_profile None) |> upd (set_servers []) |> upd (set_channels []) |> upd (set_users []) |> upd (set_peers [])
    |> upd (set_streams [] []) |> upd (set_server (-1)) |> upd (set_channel (-1))
    |> emit userProfileChanged |> emit serversChanged |> emit channelsChanged |> emit usersChanged |> emit peersChanged
    |> emit streamingPeersChanged |> emit watchedStreamsChanged |> emit selectedServerChanged |> emit selectedChannelChanged.

Definition auth_signal (w : World) (s : AuthSignal) : World :=
  match s with
  | AuthChanged => auth_changed w
  | LoginError message => setApiError message w
  | _ => w
  end.

Definition auth_step (c : AuthAct) (w : World) : World :=
  let '(a, signals) := auth_act trimmed c (auth w) in foldl auth_signal (with_auth a w) signals.

(** ** Signals of the bridge *)

Definition ws_connected_slot (w : World) : World :=
  if negb (loggedIn (auth w)) || (selectedChannelId (app w) <? 0) then on_bridge disconnect w
  else w |> upd (set_connection Connected true) |> emit connectionChanged.

Definition ws_disconnected_slot (w : World) : World :=
  let sessionWasActive := negb (is_disconnected w) in
  let w := w |> upd (set_connection Disconnected false) in
  let w := if sessionWasActive then w |> on_bridge audioStop |> on_bridge deinitScreenSession else w in
  let w := resetConnectionStats w in
  let w := match peers (app w) with [] => w | _ => w |> upd (set_peers []) |> emit peersChanged end in
  let w := match streamingPeers (app w) with [] => w | _ => w |> upd (set_streaming []) |> emit streamingPeersChanged end in
  let w := match watchedPeerIds (app w) with [] => w | _ => w |> upd (set_watched []) |> emit watchedStreamsChanged end in
  w |> emit sharingChanged |> emit connectionChanged.

Definition new_peer (id : string) : Peer := mkPeer id "" "" "" None.

Definition peer_joined (id : string) (w : World) : World :=
  w |> upd (fun a => set_peers (peers a ++ [new_peer id]) a) |> emit peersChanged.

(** [removeAll] of a list, announced if it changed anything. *)
Definition stop_streaming (id : string) (w : World) : World :=
  if holds id (streamingPeers (app w))
  then w |> upd (fun a => set_streaming (remove_all id (streamingPeers a)) a) |> emit streamingPeersChanged else w.
Definition stop_watching (id : string) (w : World) : World :=
  if holds id (watchedPeerIds (app w))
  then w |> upd (fun a => set_watched (remove_all id (watchedPeerIds a)) a) |> emit watchedStreamsChanged else w.

Definition peer_left (id : string) (w : World) : World :=
  w |> upd (fun a => set_peers (filter (fun p => p_peer p <> id) (peers a)) a) |> emit peersChanged
    |> stop_streaming id |> stop_watching id.

(** The loops end at the first peer of that id. *)
Fixpoint update_first (id : string) (f : Peer -> Peer) (l : list Peer) : list Peer :=
  match l with
  | [] => []
  | p :: l => if String.eqb (p_peer p) id then f p :: l else p :: update_first id f l
  end.

Definition peer_identity (id name : string) (w : World) : World :=
  let w :=
    if existsb (fun p => String.eqb (p_peer p) id) (peers (app w))
    then
      w |> upd (fun a => set_peers (update_first id (fun p => mkPeer (p_peer p) name (p_display p) (p_avatar p) (p_user p)) (peers a)) a)
        |> request (GetUserByUsername (userId (auth w)) id name)
    else w in
  emit peersChanged w.

Definition streaming_started (id : string) (w : World) : World :=
  if holds id (streamingPeers (app w)) then w
  else w |> upd (fun a => set_streaming (streamingPeers a ++ [id]) a) |> emit streamingPeersChanged.

Definition streaming_stopped (id : string) (w : World) : World :=
  if holds id (streamingPeers (app w)) then w |> stop_streaming id |> stop_watching id else w.

Definition watch_rejected (id reason : string) (w : World) : World :=
  w |> stop_watching id
    |> setApiError (if String.eqb reason "capacity" then "No free screen-stream slot. Stop watching another stream and try again."
                    else if String.eqb reason "not_streaming" then "This stream has already stopped."
                    else "This stream is no longer available.").

Definition ui_event (e : UiEvent) (w : World) : World :=
  match e with
  | wsConnected => ws_connected_slot w
  | wsDisconnected => ws_disconnected_slot w
  | peerJoined id => peer_joined id w
  | peerLeft id => peer_left id w
  | peerIdentityReceived id name => peer_identity id name w
  | streamingStarted id => streaming_started id w
  | streamingStopped id => streaming_stopped id w
  | streamWatchRejected id reason => watch_rejected id reason w
  | frameRemoved _ => w
  end.

(** The interface's thread takes the next signal. *)
Definition deliver (w : World) : World :=
  match ui_queue (bridge w) with
  | [] => w
  | e :: q => ui_event e (on_bridge (with_queue q) w)
  end.

(** ** Calls of the interface *)

Definition setMuted (m : bool) (w : World) : World := w |> on_bridge (Bridge.setMuted m) |> emit audioStateChanged.
Definition setDeafened (d : bool) (w : World) : World := w |> on_bridge (Bridge.setDeafened d) |> emit audioStateChanged.
Definition setMasterVolume (v : spec_float) (w : World) : World := on_bridge (Bridge.setMasterVolume v) w.

(** [started]: the client's answer. *)
Definition startSharing (target : string) (width height fps : Z) (audio : bool) (audioTarget : string) (started : bool) (w : World) : World :=
  let w := w |> on_bridge (Bridge.startSharing target width height fps audio audioTarget) |> emit sharingChanged in
  if started then w else setApiError "Failed to start screen sharing. The selected source may no longer be available." w.

Definition stopSharing (w : World) : World := w |> on_bridge Bridge.stopSharing |> emit sharingChanged.

Definition joinStream (id : string) (w : World) : World :=
  if holds id (watchedPeerIds (app w)) then w
  else w |> on_bridge (Bridge.joinStream id) |> upd (fun a => set_watched (watchedPeerIds a ++ [id]) a) |> emit watchedStreamsChanged.

Definition leaveStream (id : string) (w : World) : World :=
  if holds id (watchedPeerIds (app w))
  then w |> upd (fun a => set_watched (remove_all id (watchedPeerIds a)) a) |> on_bridge (Bridge.leaveStream id) |> emit watchedStreamsChanged
  else w.

Definition canManageSelectedServer (w : World) : bool :=
  match filter (fun s => server_id s = selectedServerId (app w)) (servers (app w)) with
  | [] => false
  | s :: _ => ownerId s =? userId (auth w)
  end.

Definition createServer (name description : string) (w : World) : World := request (CreateServer (userId (auth w)) name description) w.

Definition createChannel (name kind : string) (w : World) : World :=
  if selectedServerId (app w) <? 0 then w else request (CreateChannel (userId (auth w)) (selectedServerId (app w)) name kind) w.

Definition acceptInvite (code : string) (w : World) : World := request (AcceptInvite (userId (auth w)) code) w.
Definition loadUsers (w : World) : World := request (ListUsers (userId (auth w))) w.

Definition inviteUser (id : Z) (w : World) : World :=
  if canManageSelectedServer w then request (AddMember (userId (auth w)) (selectedServerId (app w)) id) w
  else setApiError "Only the server owner can invite users" w.

Definition profile_id (w : World) : Z := match userProfile (app w) with Some p => p_id p | None => 0 end.

Definition updateDisplayName (name : string) (w : World) : World := request (UpdateProfile (profile_id w) name) w.
Definition uploadAvatar (data ext : string) (w : World) : World := request (UploadAvatar (profile_id w) data ext) w.

(** ** Replies *)

Definition to_array (v : QJsonValue) : list QJsonValue := match v with JArray l => l | _ => [] end.

Definition shown_profile (o : list (string * QJsonValue)) (now : Z) : Profile :=
  let id := to_int 0 (value "id" o) in
  mkProfile id (to_string "" (value "username" o)) (display_or_name o) (Some (to_string "" (value "email" o))) (avatarUrlFor o id (Some now)).

Definition found_peer (o : list (string * QJsonValue)) (p : Peer) : Peer :=
  let id := to_int 0 (value "id" o) in mkPeer (p_peer p) (p_name p) (display_or_name o) (avatarUrlFor o id None) (Some id).

(** *** The callbacks *)

Definition me_replied (user : Z) (ok : bool) (json : QJsonValue) (now : Z) (w : World) : World :=
  if negb ok || negb (signed_in_as user w) then w
  else w |> upd (set_profile (Some (shown_profile (to_object json) now))) |> emit userProfileChanged.

Definition servers_replied (user : Z) (ok : bool) (json : QJsonValue) (w : World) : World :=
  if negb ok || negb (signed_in_as user w) then w
  else w |> upd (set_servers (parse_server <$> to_array json)) |> emit serversChanged.

Definition channels_replied (user server : Z) (ok : bool) (json : QJsonValue) (w : World) : World :=
  if negb ok || negb (signed_in_as user w) || negb (selectedServerId (app w) =? server) then w
  else w |> upd (set_channels (parse_channel <$> to_array json)) |> emit channelsChanged.

Definition server_created (user : Z) (ok : bool) (w : World) : World :=
  if negb (signed_in_as user w) then w else if ok then reloadServers w else setApiError "Failed to create server" w.

Definition channel_created (user server : Z) (ok : bool) (w : World) : World :=
  if negb (signed_in_as user w) then w
  else if ok then (if selectedServerId (app w) =? server then reloadChannels w else w)
  else setApiError "Failed to create channel" w.

Definition invite_accepted (user : Z) (ok : bool) (json : QJsonValue) (w : World) : World :=
  if negb (signed_in_as user w) then w
  else if ok then w |> reloadServers |> selectServer (to_int 0 (value "server_id" (to_object json)))
  else setApiError "Invalid invite code" w.

Definition users_replied (user : Z) (ok : bool) (json : QJsonValue) (w : World) : World :=
  if negb (signed_in_as user w) then w
  else if negb ok then setApiError "Failed to load users" w
  else w |> upd (set_users (filter (fun u => user_id u <> userId (auth w)) (parse_user <$> to_array json))) |> emit usersChanged.

Definition member_added (user server member : Z) (ok : bool) (w : World) : World :=
  if negb (signed_in_as user w) || negb (selectedServerId (app w) =? server) then w
  else if negb ok then setApiError "Failed to add user; they may already be a member" w
  else w |> upd (fun a => set_users (filter (fun u => user_id u <> member) (users a)) a) |> emit usersChanged.

Definition profile_saved (ok : bool) (w : World) : World := if ok then fetchCurrentUserProfile w else w.

Definition user_found (user : Z) (peer : string) (ok : bool) (json : QJsonValue) (w : World) : World :=
  if negb ok || negb (signed_in_as user w) then w
  else w |> upd (fun a => set_peers (update_first peer (found_peer (to_object json)) (peers a)) a) |> emit peersChanged.

Definition replied (r : Request) (ok : bool) (json : QJsonValue) (now : Z) (w : World) : World :=
  match r with
  | GetMe user => me_replied user ok json now w
  | ListServers user => servers_replied user ok json w
  | ListChannels user server => channels_replied user server ok json w
  | CreateServer user _ _ => server_created user ok w
  | CreateChannel user server _ _ => channel_created user server ok w
  | AcceptInvite user _ => invite_accepted user ok json w
  | ListUsers user => users_replied user ok json w
  | AddMember user server member => member_added user server member ok w
  | UpdateProfile _ _ | UploadAvatar _ _ _ => profile_saved ok w
  | GetUserByUsername user peer _ => user_found user peer ok json w
  end.

(** The [n]th request that waits is answered. *)
Definition reply (n : nat) (ok : bool) (json : QJsonValue) (now : Z) (w : World) : World :=
  match requests w !! n with
  | None => w
  | Some r => replied r ok json now (with_requests (delete n (requests w)) w)
  end.

(** ** Statistics *)

Definition kMaxSamples : nat := 60.

(** The mean of the round trips that were measured; their sum is taken to fit an
    [int]. *)
Definition average (history : list (Z * Z)) : Z :=
  let measured := filter (fun s => 0 <= s.2) history in
  match measured with [] => -1 | _ => foldl (fun sum s => sum + s.2) 0 measured / Z.of_nat (length measured) end.

(** The timer, with the statistics that the core reports. *)
Definition pollConnectionStats (stats : list (string * QJsonValue)) (now : Z) (w : World) : World :=
  if statsTimer (app w) then
    let rtt := to_int (-1) (value "rttMs" stats) in
    let history := rttHistory (connectionStats (app w)) ++ [(now, rtt)] in
    let history := drop (length history - kMaxSamples)%nat history in
    w |> upd (set_stats (mkStats (average history) rtt (to_int 0 (value "packetsLost" stats)) (to_int 0 (value "remoteTracks" stats)) history))
      |> emit connectionStatsChanged
  else w.

(** ** Runs *)

Inductive Act :=
  | SignIn (c : AuthAct)
  | SelectServer (id : Z) | SelectChannel (id : Z)
  | JoinVoice (channel : Z) (created : bool) | LeaveVoice
  | SetMuted (m : bool) | SetDeafened (d : bool) | SetMasterVolume (v : spec_float)
  | StartSharing (target : string) (width height fps : Z) (audio : bool) (audioTarget : string) (started : bool) | StopSharing
  | JoinStream (id : string) | LeaveStream (id : string)
  | CreateServerCall (name description : string) | CreateChannelCall (name kind : string) | AcceptInviteCall (code : string)
  | LoadUsers | InviteUser (id : Z) | UpdateDisplayName (name : string) | UploadAvatarCall (data ext : string)
  | Replies (n : nat) (ok : bool) (json : QJsonValue) (now : Z)
  | Delivers
  | PollStats (stats : list (string * QJsonValue)) (now : Z)
  | SocketCalls (s : Socket) (cb : Callback)
  | AudioRuns (answer : nat -> bool)
  | FrameRemoved (id : string).

Definition act (a : Act) (w : World) : World :=
  match a with
  | SignIn c => auth_step c w
  | SelectServer id => selectServer id w
  | SelectChannel id => selectChannel id w
  | JoinVoice channel created => joinVoiceChannel channel created w
  | LeaveVoice => leaveVoiceChannel w
  | SetMuted m => setMuted m w
  | SetDeafened d => setDeafened d w
  | SetMasterVolume v => setMasterVolume v w
  | StartSharing target width height fps audio audioTarget started => startSharing target width height fps audio audioTarget started w
  | StopSharing => stopSharing w
  | JoinStream id => joinStream id w
  | LeaveStream id => leaveStream id w
  | CreateServerCall name description => createServer name description w
  | CreateChannelCall name kind => createChannel name kind w
  | AcceptInviteCall code => acceptInvite code w
  | LoadUsers => loadUsers w
  | InviteUser id => inviteUser id w
  | UpdateDisplayName name => updateDisplayName name w
  | UploadAvatarCall data ext => uploadAvatar data ext w
  | Replies n ok json now => reply n ok json now w
  | Delivers => deliver w
  | PollStats stats now => pollConnectionStats stats now w
  | SocketCalls s cb => on_bridge (socket_calls json_parse s cb) w
  | AudioRuns answer => on_bridge (run_audio answer) w
  | FrameRemoved id => on_bridge (fun b => (on_frame_removed id b).2) w
  end.

Definition new_world (kept : option SessionData) (input output : option string) : World :=
  mkWorld (new_auth kept) new_app (new_bridge input output) [] [] [].

Definition run_from (acts : list Act) (w : World) : World := foldl (fun w a => act a w) w acts.
Definition run (kept : option SessionData) (input output : option string) (acts : list Act) : World :=
  run_from acts (new_world kept input output).
End Application.

(** A reply, down to its callback. *)
Ltac unfold_replied :=
  cbn [replied] in *; unfold me_replied, servers_replied, channels_replied, server_created, channel_created, invite_accepted, users_replied,
    member_added, profile_saved, user_found in *.
