(* ===== verification/AppConnection.v ===== *)
(** * What the application shows of its connection

    Invariants of the runs of AppState that relate what is shown to the transport and
    to what the core was asked: the connection and the peers, voice and screens, and
    the screens that are watched.  The signals that wait in the queue are part of
    each: what is shown is right once they are taken. *)

From S2P Require Import Prelude Floats Text Url Signaling Transport Proxy Socket SignIn Bridge AppState.

Local Open Scope list_scope.

(** ** What is read of a world *)

(** The ids that are shown, after the events that wait. *)
Definition peer_event (s : gset string) (e : UiEvent) : gset string :=
  match e with
  | peerJoined id => {[id]} ∪ s
  | peerLeft id => s ∖ {[id]}
  | wsDisconnected => ∅
  | _ => s
  end.

Definition peers_after (s : gset string) (q : list UiEvent) : gset string := foldl peer_event s q.

Definition shown_ids (a : App) : gset string := list_to_set (p_peer <$> peers a).

Definition wire_of (w : World) : Run := wire (bridge w).
Definition known (r : Run) : gset string := known_peers (client (Socket.transport r)).
Definition is_up (r : Run) : bool := ws_connected (Socket.transport r).
Definition waiting (w : World) : list bool := conn_events (ui_queue (bridge w)).
Definition shows_up (w : World) : bool := bool_decide (connectionState (app w) = Connected).

Definition core (w : World) :=
  (connectionState (app w), wire_of w, waiting w, peers_after (shown_ids (app w)) (ui_queue (bridge w)),
   (voice_outlook (bridge w), screen_asked (media (bridge w)))).

(** What is shown is right once the events that wait are taken. *)
Record linked (shown : bool) (ids : gset string) (b : Bridge) : Prop := {
  l_ok : transport_ok (wire b);
  l_up : is_up (wire b) = default shown (last (conn_events (ui_queue b)));
  l_ids : peers_after ids (ui_queue b) = known (wire b);
}.

Lemma peers_after_app s q q' : peers_after s (q ++ q') = peers_after (peers_after s q) q'.
Proof. apply foldl_app. Qed.

Lemma peers_after_mono s t q : s ⊆ t -> peers_after s q ⊆ peers_after t q.
Proof.
  revert s t. induction q as [| e q IH]; intros s t Hs; [done |]. cbn. apply IH. destruct e; cbn; try done; set_solver.
Qed.

Lemma down_unknown r : transport_ok r -> is_up r = false -> known r = ∅.
Proof.
  intros [_ Hn Hs _ _ _] Hup. destruct (ws (Socket.transport r)) as [s |] eqn:Hw.
  - destruct (Hs s eq_refl) as (_ & _ & _ & _ & Hb). by apply Hb.
  - by apply Hn.
Qed.

(** ** The wire moves *)

Definition conn_event (c : bool) : UiEvent := if c then wsConnected else wsDisconnected.

Lemma peers_after_conn s (l : list bool) : peers_after s (conn_event <$> l) = if existsb negb l then ∅ else s.
Proof.
  revert s. induction l as [| c l IH]; intros s; [done |]. cbn [fmap list_fmap existsb]. cbn. fold (peers_after (peer_event s (conn_event c)) (conn_event <$> l)).
  rewrite IH. destruct c; cbn; [done |]. by destruct (existsb negb l).
Qed.

(** A move after which the transport knows its peers still, or nobody. *)
Record moves (r r' : Run) : Prop := {
  m_ok : transport_ok r';
  m_prefix : log (Socket.transport r) `prefix_of` log (Socket.transport r');
  m_known : known r' = if existsb negb (announcements (Socket.transport r) (Socket.transport r')) then ∅ else known r;
}.

Lemma last_app_or {A} (l l' : list A) : last (l ++ l') = match last l' with Some x => Some x | None => last l end.
Proof. rewrite last_app. by destruct (last l'). Qed.

Lemma last_false (l : list bool) : last l = Some false -> false ∈ l.
Proof. intros [l' ->]%last_Some. set_solver. Qed.

(** A transport that ends down. *)
Lemma moves_down r r' :
  transport_ok r -> transport_ok r' -> log (Socket.transport r) `prefix_of` log (Socket.transport r') -> is_up r' = false -> moves r r'.
Proof.
  intros Hok Hok' Hp Hdown. split; [done.. |]. rewrite (down_unknown _ Hok' Hdown).
  pose proof (wire_announces _ _ Hok Hok' Hp) as Hup. change (ws_connected (Socket.transport r')) with (is_up r') in Hup.
  destruct (existsb negb _) eqn:He; [done |]. symmetry. apply down_unknown; [done |].
  destruct (last _) as [c |] eqn:Hl; [| cbn in Hup; unfold is_up at 1; congruence].
  assert (c = false) as -> by (cbn in Hup; congruence).
  apply last_false, list_elem_of_In in Hl. exfalso. apply not_true_iff_false in He. apply He, existsb_exists. by exists false.
Qed.

Lemma linked_move c ids b r : linked c ids b -> moves (wire b) r -> linked c ids (move_wire r b).
Proof.
  intros [H1 H2 H3] [M1 M2 M3]. destruct (move_wire_frame r b) as (F1 & _ & F3 & _).
  pose proof (wire_announces _ _ H1 M1 M2) as Hup. set (anns := announcements _ _) in *.
  split; rewrite F1; [done | |].
  - change (is_up r) with (ws_connected (Socket.transport r)). rewrite Hup, F3, conn_events_app, conn_events_map, last_app_or.
    by destruct (last anns).
  - rewrite F3, peers_after_app, H3. change (fun c : bool => if c then wsConnected else wsDisconnected) with conn_event.
    by rewrite peers_after_conn, M3.
Qed.

Lemma disconnect_moves r : transport_ok r -> moves r (mkRun (Socket.disconnect (Socket.transport r)) (phase r)).
Proof.
  intros Hok. apply moves_down; [done | by apply disconnect_ok | apply disconnect_prefix |]. apply disconnect_fields.
Qed.

Lemma connect_down getenv' created url t : ws_connected (Socket.connect getenv' created url t).1 = false.
Proof.
  pose proof (disconnect_fields t) as (_ & Hc & _). unfold Socket.connect. by destruct (socket_proxy _ _); [destruct created |].
Qed.

Lemma connect_moves r getenv' created url :
  transport_ok r -> moves r (mkRun (Socket.connect getenv' created url (Socket.transport r)).1 (phase r)).
Proof.
  intros Hok. apply moves_down; [done | by apply connect_ok | apply connect_prefix | apply connect_down].
Qed.

(** [disconnect] ends what was shown before, whoever was. *)
Lemma linked_disconnect c ids b : linked c ids b -> linked c ids (disconnect b) /\ is_up (wire (disconnect b)) = false.
Proof.
  intros Hl. split; [apply linked_move; [done |]; apply disconnect_moves, Hl |]. unfold disconnect.
  destruct (move_wire_frame (mkRun (Socket.disconnect (Socket.transport (wire b))) (phase (wire b))) b) as (-> & _). apply disconnect_fields.
Qed.

Lemma linked_none c ids b : linked c ids b -> is_up (wire b) = false -> linked false ∅ b.
Proof.
  intros [H1 H2 H3] Hdown. rewrite Hdown in H2. split; [done | |].
  - rewrite Hdown. destruct (last _); cbn in *; congruence.
  - rewrite (down_unknown _ H1 Hdown) in *. pose proof (peers_after_mono ∅ ids (ui_queue b)). set_solver.
Qed.

Lemma linked_true c ids b : linked true ids b -> is_up (wire b) = false -> linked c ids b /\ false ∈ conn_events (ui_queue b).
Proof.
  intros [H1 H2 H3] Hdown. rewrite Hdown in H2. destruct (last (conn_events (ui_queue b))) as [d |] eqn:Hd; cbn in H2; [| done].
  subst d. split; [| by apply last_false]. split; [done | by rewrite Hd, Hdown | done].
Qed.

(** *** Messages *)

Lemma post_ids s e b : peers_after s (ui_queue (post e b)) = peer_event (peers_after s (ui_queue b)) e.
Proof. unfold post, with_queue. cbn [ui_queue]. by rewrite peers_after_app. Qed.

Definition rest_of (b : Bridge) := (wire b, conn_events (ui_queue b), m_audioGeneration b, m_audioPool b, voice_asked (media b), screen_asked (media b)).

Definition is_conn_event (e : UiEvent) : bool := match e with wsConnected | wsDisconnected => true | _ => false end.

Definition is_session_call (c : MediaCall) : bool :=
  match c with InitScreen | DeinitScreen | StartVoice | StopVoice => true | _ => false end.

Lemma post_rest e b : is_conn_event e = false -> rest_of (post e b) = rest_of b.
Proof.
  intros He. unfold rest_of, post, with_queue. cbn. rewrite conn_events_app. by destruct e; cbn; rewrite ?app_nil_r.
Qed.

Lemma tell_rest c b : is_session_call c = false -> rest_of (tell c b) = rest_of b.
Proof. intros Hc. unfold rest_of, tell. cbn. by rewrite voice_asked_app, screen_asked_app; destruct c. Qed.

Lemma joined_rest id name b : rest_of (on_peer_joined id name b) = rest_of b.
Proof. unfold on_peer_joined, on_peer_identity. destruct (String.eqb name ""); by rewrite !post_rest. Qed.

Lemma joined_ids s id name b : peers_after s (ui_queue (on_peer_joined id name b)) = {[id]} ∪ peers_after s (ui_queue b).
Proof. unfold on_peer_joined, on_peer_identity. rewrite post_ids. destruct (String.eqb name ""); [done |]. by rewrite post_ids. Qed.

(** The listeners hear of the peers that the transport knows. *)
Lemma on_message_frame m b s c :
  peers_after s (ui_queue b) = known_peers c ->
  rest_of (on_message m b) = rest_of b /\ peers_after s (ui_queue (on_message m b)) = known_peers (on_ws_message c m).
Proof.
  intros Hb. destruct m as [id ps streaming | id name | id | | | | | [id |] | [id |] | | |]; cbn [on_message on_ws_message];
    rewrite ?post_rest, ?tell_rest, ?post_ids by done; try (split; [done |]; exact Hb).
  - assert (Hps : forall b c, peers_after s (ui_queue b) = known_peers c ->
      let b' := foldl (fun b p => on_peer_joined (peer_id p) (peer_username p) b) b ps in
      rest_of b' = rest_of b /\ peers_after s (ui_queue b') = known_peers (foldl add_peer c ps)).
    { clear b c Hb. induction ps as [| p ps IH]; intros b c Hb; [done |]. cbn [foldl].
      destruct (IH (on_peer_joined (peer_id p) (peer_username p) b) (add_peer c p)) as [-> ->]; [| by rewrite joined_rest].
      rewrite joined_ids, Hb. unfold add_peer. cbn. by rewrite (proj1 (set_peer_identity_frame _ _ _)). }
    set (c0 := mkClient id _ _ _). destruct (Hps b c0 Hb) as [Hr Hi]. set (b' := foldl _ b ps) in *.
    rewrite (proj1 (streaming_started_spec streaming _)). rewrite <- Hr, <- Hi. generalize b'. clear.
    induction streaming as [| p l IH]; intros b; [done |]. cbn [foldl]. destruct (IH (post (streamingStarted p) b)) as [-> ->].
    by rewrite post_rest, post_ids.
  - rewrite joined_rest, joined_ids, Hb. split; [done |]. cbn. by rewrite (proj1 (set_peer_identity_frame _ _ _)).
  - split; [done |]. cbn. by rewrite <- Hb.
  - rewrite post_rest by done. split; [done |]. cbn [tell ui_queue]. by rewrite post_ids.
Qed.

Section Connection.
Context (trimmed : string -> string) (toPercentEncoding : string -> text) (getenv : text -> option text)
  (json_parse : string -> option json) (signalingUrl apiBaseUrl : string).

Abbreviation act := (act trimmed toPercentEncoding getenv json_parse signalingUrl apiBaseUrl).
Abbreviation run := (run trimmed toPercentEncoding getenv json_parse signalingUrl apiBaseUrl).
Abbreviation join := (joinVoiceChannel toPercentEncoding getenv signalingUrl).

(** *** Callbacks of the sockets *)

Lemma callback_log_same s raw t : log (callback json_parse s (OnMessage raw) t) = log t.
Proof. unfold callback. destruct (is_current_socket s t); [| done]. cbn. unfold message_body. by destruct (parse _ _). Qed.

Lemma drop_same {A} (l : list A) : drop (length l) l = [].
Proof. by rewrite drop_ge. Qed.

Lemma same_log_announces t t' : log t' = log t -> announcements t t' = [].
Proof. intros He. unfold announcements. by rewrite He, drop_same. Qed.

(** A move that announces nothing. *)
Lemma quiet_move r b :
  log (Socket.transport r) = log (Socket.transport (wire b)) -> move_wire r b = with_wire r b.
Proof. intros He. unfold move_wire. by rewrite same_log_announces. Qed.

Lemma callback_other s cb r :
  (match cb with OnMessage _ => False | _ => True end) -> transport_ok r -> s < next_socket (Socket.transport r) ->
  forall p, fires cb (phase r s) = Some p -> moves r (mkRun (callback json_parse s cb (Socket.transport r)) (moved r s p)).
Proof.
  intros Hcb Hok Hlt p Hf. pose proof (calls_ok json_parse _ _ _ _ Hok Hlt Hf) as Hok'.
  set (t := Socket.transport r) in *. pose proof (callback_prefix json_parse s cb t) as Hp.
  destruct (is_current_socket s t) eqn:Hcur.
  2: { split; [done.. |]. cbn [Socket.transport]. unfold callback. rewrite Hcur. by rewrite same_log_announces. }
  destruct cb as [| | |]; [| | | done].
  - split; [done.. |]. cbn [Socket.transport]. unfold known. cbn [Socket.transport].
    assert (He : callback json_parse s OnOpen t = open_body t) by (unfold callback; by rewrite Hcur).
    rewrite He. unfold announcements, open_body. cbn. by rewrite drop_app_length.
  - apply moves_down; [done.. |]. unfold is_up. cbn [Socket.transport]. unfold callback. rewrite Hcur. cbn [Socket.body]. unfold closed_body, notify_disconnected. cbv zeta.
    destruct (is_current_socket _ _); by case_decide.
  - apply moves_down; [done.. |]. unfold is_up. cbn [Socket.transport]. unfold callback. rewrite Hcur. cbn [Socket.body]. unfold error_body, notify_disconnected. cbv zeta.
    destruct (is_current_socket _ _); by case_decide.
Qed.

Lemma linked_calls c ids s cb b : linked c ids b -> linked c ids (socket_calls json_parse s cb b).
Proof.
  intros Hl. unfold socket_calls. destruct (fires cb (phase (wire b) s)) as [p |] eqn:Hf; [| done].
  destruct (Nat.ltb_spec s (next_socket (Socket.transport (wire b)))) as [Hlt | _]; [| done].
  destruct cb as [| | | raw]; try by apply linked_move, callback_other; [done | .. | apply Hl | |].
  set (r := mkRun _ _). pose proof Hl as [H1 H2 H3]. pose proof (calls_ok json_parse _ _ _ _ H1 Hlt Hf) as Hok'. fold (moved (wire b) s p) in Hok'.
  assert (Hq : move_wire r b = with_wire r b) by apply quiet_move, callback_log_same. rewrite Hq. clear Hq.
  assert (Hup : is_up r = is_up (wire b)).
  { unfold r, is_up. cbn [Socket.transport]. unfold callback. destruct (is_current_socket _ _); [| done]. cbn. unfold message_body. by destruct (parse _ _). }
  assert (Hkn : known r = if is_current_socket s (Socket.transport (wire b))
    then match parse json_parse raw with Value m => known_peers (on_ws_message (client (Socket.transport (wire b))) m) | Unexpected _ => known (wire b) end
    else known (wire b)).
  { unfold r, known. cbn [Socket.transport]. unfold callback. destruct (is_current_socket _ _); [| done]. cbn. unfold message_body. by destruct (parse _ _). }
  destruct (is_current_socket _ _); [| by split; cbn; rewrite ?Hup, ?Hkn].
  destruct (parse json_parse raw) as [m |]; [| by split; cbn; rewrite ?Hup, ?Hkn].
  destruct (on_message_frame m (with_wire r b) ids (client (Socket.transport (wire b))) H3) as [[= E1 E2 _ _ _ _] E3].
  split; rewrite ?E1, ?E2, ?E3; [done | by rewrite Hup | by rewrite Hkn].
Qed.

(** What the library does of voice and screens is not asked by a socket. *)
Lemma move_asked r b : voice_outlook (move_wire r b) = voice_outlook b /\ screen_asked (media (move_wire r b)) = screen_asked (media b).
Proof.
  destruct (move_wire_frame r b) as (_ & Hm & _ & [= Hg Hp _ _ _]). unfold voice_outlook. rewrite Hm, Hg, Hp.
  by destruct (asked_states (media b) (announcements (Socket.transport (wire b)) (Socket.transport r))) as [-> ->].
Qed.

Lemma rest_asked b b' : rest_of b' = rest_of b -> voice_outlook b' = voice_outlook b /\ screen_asked (media b') = screen_asked (media b).
Proof. intros [= _ _ Hg Hp Hv Hs]. unfold voice_outlook. by rewrite Hg, Hp, Hv. Qed.

Lemma calls_asked s cb b :
  let b' := socket_calls json_parse s cb b in voice_outlook b' = voice_outlook b /\ screen_asked (media b') = screen_asked (media b).
Proof.
  cbv zeta. unfold socket_calls. destruct (fires cb _) as [p |]; [| done]. destruct (_ <? _); [| done].
  set (r := mkRun _ _). pose proof (move_asked r b) as Hm. destruct cb as [| | | raw]; try done.
  destruct (is_current_socket _ _); [| done]. destruct (parse json_parse raw) as [m |]; [| done].
  destruct (on_message_frame m (move_wire r b) ∅ (mkClient "" (peers_after ∅ (ui_queue (move_wire r b))) ∅ ∅) eq_refl) as [Hr _].
  by rewrite !(proj1 (rest_asked _ _ Hr)), (proj2 (rest_asked _ _ Hr)).
Qed.

(** ** Acts that leave the connection alone *)

Lemma bridge_core f w : rest_of (f (bridge w)) = rest_of (bridge w) ->
  (forall s, peers_after s (ui_queue (f (bridge w))) = peers_after s (ui_queue (bridge w))) -> core (on_bridge f w) = core w.
Proof.
  intros Hr Hq. destruct (rest_asked _ _ Hr) as [Hv Hs]. injection Hr as E1 E2 _ _ _ _.
  unfold core, wire_of, waiting. cbn. by rewrite E1, E2, Hv, Hs, Hq.
Qed.

Lemma tell_core c w : is_session_call c = false -> core (on_bridge (tell c) w) = core w.
Proof. intros Hc. apply bridge_core; [by apply tell_rest | done]. Qed.

Lemma emit_core n w : core (emit n w) = core w.
Proof. done. Qed.

Lemma request_core r w : core (request toPercentEncoding apiBaseUrl r w) = core w.
Proof. done. Qed.

Lemma error_core e w : core (setApiError e w) = core w.
Proof. done. Qed.

Lemma streaming_core id w : core (stop_streaming id w) = core w.
Proof. unfold stop_streaming. by destruct (holds _ _). Qed.

Lemma watching_core id w : core (stop_watching id w) = core w.
Proof. unfold stop_watching. by destruct (holds _ _). Qed.

Lemma reloadChannels_core w : core (reloadChannels toPercentEncoding apiBaseUrl w) = core w.
Proof. unfold reloadChannels. by destruct (_ <? _)%Z. Qed.

Lemma fetch_core w : core (fetchCurrentUserProfile toPercentEncoding apiBaseUrl w) = core w.
Proof. unfold fetchCurrentUserProfile. by destruct (_ <=? _)%Z. Qed.

Lemma load_core w : core (loadInitialData toPercentEncoding apiBaseUrl w) = core w.
Proof. unfold loadInitialData, reloadServers. by rewrite emit_core, request_core, fetch_core. Qed.

Lemma joinStream_core id w : core (joinStream id w) = core w.
Proof. unfold joinStream. destruct (holds _ _); [done |]. apply (tell_core (Bridge.JoinStream id) w eq_refl). Qed.

Lemma leaveStream_core id w : core (leaveStream id w) = core w.
Proof. unfold leaveStream. destruct (holds _ _); [| done]. apply (tell_core (Bridge.LeaveStream id) w eq_refl). Qed.

Lemma startSharing_core target width height fps audio audioTarget started w :
  core (startSharing target width height fps audio audioTarget started w) = core w.
Proof. unfold startSharing. destruct started; apply (tell_core (Bridge.StartSharing _ _ _ _ _ _) w eq_refl). Qed.

Lemma poll_core stats now w : core (pollConnectionStats stats now w) = core w.
Proof. unfold pollConnectionStats. by destruct (statsTimer _). Qed.

Lemma run_audio_core answer w : core (on_bridge (run_audio answer) w) = core w.
Proof.
  destruct (run_audio_frame answer (bridge w)) as (Hv & Hs & [= Hw Hq _ _]). unfold core, wire_of, waiting. cbn. by rewrite Hv, Hs, Hw, Hq.
Qed.

Lemma update_first_ids id f l : (forall p, p_peer (f p) = p_peer p) -> p_peer <$> update_first id f l = p_peer <$> l.
Proof. intros Hf. induction l as [| p l IH]; [done |]. cbn. destruct (String.eqb _ _); cbn; by rewrite ?Hf, ?IH. Qed.

Lemma update_core id f w : (forall p, p_peer (f p) = p_peer p) -> core (upd (fun a => set_peers (update_first id f (peers a)) a) w) = core w.
Proof. intros Hf. unfold core, shown_ids. cbn. by rewrite update_first_ids. Qed.

(** Every event but those of the connection: what is shown then is what was to be
    shown. *)
Lemma event_core e q w :
  ui_queue (bridge w) = e :: q -> is_conn_event e = false ->
  core (ui_event toPercentEncoding apiBaseUrl e (on_bridge (with_queue q) w)) = core w.
Proof.
  intros Hq He. set (w0 := on_bridge (with_queue q) w).
  assert (Hc : core w = (connectionState (app w0), wire_of w0, waiting w0, peers_after (peer_event (shown_ids (app w0)) e) q,
                         (voice_outlook (bridge w0), screen_asked (media (bridge w0))))).
  { unfold core, waiting. rewrite Hq. by destruct e. }
  rewrite Hc. clear Hc. destruct e as [| | id | id | id name | id | id | id reason |]; try done; cbn [ui_event peer_event].
  - unfold peer_joined, core, shown_ids. cbn. rewrite fmap_app, list_to_set_app_L. cbn. do 2 f_equal. f_equal. set_solver.
  - unfold peer_left. rewrite watching_core, streaming_core. unfold core, shown_ids. cbn. do 2 f_equal. f_equal.
    apply set_eq. intros x. rewrite elem_of_difference, !elem_of_list_to_set, elem_of_singleton, !list_elem_of_fmap.
    setoid_rewrite list_elem_of_filter. naive_solver.
  - unfold peer_identity. rewrite emit_core. destruct (existsb _ _); [| done]. rewrite request_core. by apply update_core.
  - unfold streaming_started. by destruct (holds _ _).
  - unfold streaming_stopped. destruct (holds _ _); [| done]. by rewrite watching_core, streaming_core.
  - unfold watch_rejected. by rewrite error_core, watching_core.
Qed.

Lemma replied_core r ok json now w :
  (match r with AcceptInvite _ _ => False | _ => True end) -> core (replied trimmed toPercentEncoding apiBaseUrl r ok json now w) = core w.
Proof.
  intros Hr. destruct r; try done; unfold_replied;
    repeat match goal with |- context [if ?c then _ else _] => destruct c end; rewrite ?reloadChannels_core, ?fetch_core; try done.
  by rewrite emit_core, update_core.
Qed.

(** ** An invariant of the runs

    What is true of every world that the acts on the connection lead to. *)
Section Invariant.
Context (P : World -> Prop) (a : Act).
Context (HP : forall w w', core w' = core w -> P w -> P w')
  (Hleave : forall w, P w -> P (leaveVoiceChannel w))
  (Hjoin : forall w channel created, a = JoinVoice channel created -> P w -> P (join channel created w))
  (Hcalls : forall w s cb, P w -> P (on_bridge (socket_calls json_parse s cb) w))
  (Hup : forall w q, ui_queue (bridge w) = wsConnected :: q -> P w -> P (ws_connected_slot (on_bridge (with_queue q) w)))
  (Hdown : forall w q, ui_queue (bridge w) = wsDisconnected :: q -> P w -> P (ws_disconnected_slot (on_bridge (with_queue q) w))).

Lemma select_inv id w : P w -> P (selectServer toPercentEncoding apiBaseUrl id w).
Proof.
  intros Hw. unfold selectServer. set (w1 := if negb _ && _ then _ else _).
  assert (H1 : P w1) by (unfold w1; destruct (_ && _); auto). revert H1. apply HP. by rewrite reloadChannels_core.
Qed.

Lemma signal_inv s w : P w -> P (auth_signal toPercentEncoding apiBaseUrl w s).
Proof.
  intros Hw. destruct s; try done; cbn; [| by eapply HP, Hw].
  unfold auth_changed. destruct (loggedIn _); [eapply HP, Hw; apply load_core |].
  assert (Hpe : peers (app (leaveVoiceChannel w)) = []) by done. generalize (Hleave w Hw). generalize dependent (leaveVoiceChannel w).
  intros w' Hpe. apply HP. unfold core, shown_ids. cbn. by rewrite Hpe.
Qed.

Lemma act_inv w : P w -> P (act a w).
Proof.
  intros Hw. destruct a eqn:Ha; cbn [AppState.act]; try (eapply HP, Hw; done).
  - unfold auth_step. destruct (auth_act _ _ _) as [au signals].
    assert (H0 : P (with_auth au w)) by (eapply HP, Hw; done). revert H0. generalize (with_auth au w). clear Hw.
    induction signals as [| s signals IH]; intros w0 H0; [done |]. cbn. by apply IH, signal_inv.
  - by apply select_inv.
  - by eapply Hjoin.
  - by apply Hleave.
  - eapply HP, Hw. apply (tell_core (Bridge.SetMuted m) w eq_refl).
  - eapply HP, Hw. apply (tell_core (Bridge.SetDeafened d) w eq_refl).
  - eapply HP, Hw. apply (tell_core (Bridge.SetMasterVolume v) w eq_refl).
  - eapply HP, Hw. apply startSharing_core.
  - eapply HP, Hw. apply (tell_core Bridge.StopSharing w eq_refl).
  - eapply HP, Hw. apply joinStream_core.
  - eapply HP, Hw. apply leaveStream_core.
  - eapply HP, Hw. unfold createChannel. by destruct (_ <? _)%Z.
  - eapply HP, Hw. unfold inviteUser. by destruct (canManageSelectedServer _).
  - unfold reply. destruct (requests w !! n) as [r |]; [| done].
    assert (H0 : P (with_requests (delete n (requests w)) w)) by (eapply HP, Hw; done). revert H0. generalize (with_requests (delete n (requests w)) w).
    clear Hw. intros w0 H0. destruct r; try (eapply HP, H0; by apply replied_core). unfold_replied.
    destruct (negb _); [done |]. destruct ok; [| by eapply HP, H0]. apply select_inv. by eapply HP, H0.
  - unfold deliver. destruct (ui_queue (bridge w)) as [| e q] eqn:Hq; [done |]. destruct (is_conn_event e) eqn:He.
    + destruct e; try done; [by apply Hup | by apply Hdown].
    + eapply HP, Hw. by apply event_core.
  - eapply HP, Hw. apply poll_core.
  - by apply Hcalls.
  - eapply HP, Hw. apply run_audio_core.
  - eapply HP, Hw. apply bridge_core; [by apply post_rest |]. intros s. apply (post_ids s (frameRemoved id)).
Qed.
End Invariant.

(** ** What is shown is what is *)

Definition conn_ok (w : World) : Prop :=
  linked (shows_up w) (shown_ids (app w)) (bridge w)
  /\ (connectionState (app w) = AppState.Disconnected -> voice_outlook (bridge w) = false /\ screen_asked (media (bridge w)) = false).

Lemma core_linked w w' : core w' = core w ->
  linked (shows_up w) (shown_ids (app w)) (bridge w) -> linked (shows_up w') (shown_ids (app w')) (bridge w').
Proof.
  intros [= E1 E2 E3 E4 _ _] [H1 H2 H3]. unfold wire_of, waiting in *. split; rewrite ?E2, ?E3, ?E4; [done | | done].
  unfold shows_up in *. by rewrite E1.
Qed.

Lemma conn_core w w' : core w' = core w -> conn_ok w -> conn_ok w'.
Proof.
  intros Hc [Hl Ho]. split; [by eapply core_linked |]. injection Hc as E1 _ _ _ E5 E6. by rewrite E1, E5, E6.
Qed.

(** [leaveVoiceChannel], to what matters. *)
Definition left_bridge (b : Bridge) : Bridge := disconnect (deinitScreenSession (audioStop b)).

Lemma linked_rest c ids b b' :
  wire b' = wire b -> ui_queue b' = ui_queue b -> linked c ids b -> linked c ids b'.
Proof. intros E1 E2 [H1 H2 H3]. by split; rewrite ?E1, ?E2. Qed.

Lemma left_linked c ids b : linked c ids b -> linked false ∅ (left_bridge b).
Proof.
  intros Hl. destruct (linked_disconnect c ids (deinitScreenSession (audioStop b))) as [Hd Hu]; [by eapply linked_rest, Hl |].
  by eapply linked_none.
Qed.

Lemma stopped_asked b :
  voice_outlook (deinitScreenSession (audioStop b)) = false /\ screen_asked (media (deinitScreenSession (audioStop b))) = false.
Proof.
  split; [| by apply screen_asked_app]. unfold voice_outlook, audioStop, deinitScreenSession.
  cbn [media m_audioGeneration m_audioPool tell with_audio core_stream]. rewrite voice_asked_app. apply (audioStop_outlook b).
Qed.

Lemma left_asked b : voice_outlook (left_bridge b) = false /\ screen_asked (media (left_bridge b)) = false.
Proof.
  unfold left_bridge, disconnect. rewrite !(proj1 (move_asked _ _)), (proj2 (move_asked _ _)).
  apply stopped_asked.
Qed.

Lemma leave_world w :
  let w' := leaveVoiceChannel w in
  bridge w' = left_bridge (bridge w) /\ connectionState (app w') = AppState.Disconnected /\ peers (app w') = []
  /\ streamingPeers (app w') = [] /\ watchedPeerIds (app w') = [] /\ auth w' = auth w.
Proof. done. Qed.

Lemma leave_conn_ok w : linked (shows_up w) (shown_ids (app w)) (bridge w) -> conn_ok (leaveVoiceChannel w).
Proof.
  intros Hl. destruct (leave_world w) as (Eb & Es & Ep & _). generalize dependent (leaveVoiceChannel w). intros w' Eb Es Ep.
  unfold conn_ok, shown_ids, shows_up. rewrite Eb, Es, Ep. split; [by eapply left_linked | intros _; apply left_asked].
Qed.

(** [joinVoiceChannel], once nothing is shown of an earlier connection. *)
Definition joined_bridge (created : bool) (channel : Z) (a : Auth) (b : Bridge) : Bridge :=
  audioStart (connect toPercentEncoding getenv created (signalingUrl ++ "/channels/" ++ arg channel) (username a) (access_token a)
    (initScreenSession b)).

Lemma join_world channel created w :
  let w' := join channel created w in
  (core w' = core w /\ bridge w' = bridge w)
  \/ connectionState (app w') = AppState.Connecting
     /\ let w0 := if is_disconnected w then w else leaveVoiceChannel w in
        bridge w' = joined_bridge created channel (auth w) (bridge w0) /\ peers (app w') = peers (app w0).
Proof.
  cbv zeta. unfold joinVoiceChannel. destruct (existsb _ _); [| by left]. right.
  set (w0 := if is_disconnected w then w else leaveVoiceChannel w).
  assert (Ha : auth w0 = auth w) by (unfold w0; destruct (is_disconnected w); [| apply leave_world]; done).
  rewrite <- Ha. clearbody w0. clear Ha w. destruct w0 as [au ap br rq sn nt]. unfold joined_bridge. split; [done |]. by split.
Qed.

Lemma joined_linked created channel a ids b : linked false ids b -> linked false ids (joined_bridge created channel a b).
Proof.
  intros Hl. assert (Hi : linked false ids (initScreenSession b)) by by apply (linked_rest _ _ b). unfold joined_bridge.
  set (u := (signalingUrl ++ _)%string). set (t := access_token a). set (n := username a).
  apply (linked_rest _ _ (connect toPercentEncoding getenv created u n t (initScreenSession b))); [done.. |].
  unfold connect. apply linked_move; [exact Hi |]. apply connect_moves, Hi.
Qed.

Lemma joined_asked created channel a b :
  voice_outlook (joined_bridge created channel a b) = true /\ screen_asked (media (joined_bridge created channel a b)) = true.
Proof.
  unfold joined_bridge. split; [apply audioStart_outlook |]. unfold audioStart, connect. cbn [media with_audio].
  rewrite (proj2 (move_asked _ _)). unfold initScreenSession. cbn [media tell core_stream]. by rewrite screen_asked_app.
Qed.

(** Before the session starts, nothing is shown as connected. *)
Lemma settled_linked w (w0 := if is_disconnected w then w else leaveVoiceChannel w) :
  linked (shows_up w) (shown_ids (app w)) (bridge w) -> linked false (shown_ids (app w0)) (bridge w0).
Proof.
  intros Hl. unfold w0, is_disconnected. case_bool_decide as Hd.
  - unfold shows_up in Hl. by rewrite Hd in Hl.
  - pose proof (leave_conn_ok w Hl) as [H _]. unfold shows_up in H. by rewrite (proj1 (proj2 (leave_world w))) in H.
Qed.

Lemma join_conn_ok channel created w : conn_ok w -> conn_ok (join channel created w).
Proof.
  intros Hw. destruct (join_world channel created w) as [[Hc _] | (Es & Eb & Ep)]; [by eapply conn_core |].
  pose proof (settled_linked w (proj1 Hw)) as Hl. split; [| by rewrite Es].
  unfold shows_up, shown_ids. rewrite Es, Eb, Ep. by apply joined_linked.
Qed.

Lemma calls_conn_ok w s cb : conn_ok w -> conn_ok (on_bridge (socket_calls json_parse s cb) w).
Proof.
  intros [Hl Ho]. split; [by apply linked_calls |]. cbn. destruct (calls_asked s cb (bridge w)) as [-> ->]. done.
Qed.

Lemma default_last (c x : bool) l : default c (last (x :: l)) = default x (last l).
Proof. rewrite last_cons. by destruct (last l). Qed.

Lemma up_linked w q : ui_queue (bridge w) = wsConnected :: q -> conn_ok w -> linked true (shown_ids (app w)) (with_queue q (bridge w)).
Proof.
  intros Hq [[H1 H2 H3] _]. rewrite Hq in *. split; [done | | done]. cbn [wire with_queue ui_queue]. rewrite H2. apply default_last.
Qed.

Lemma slot_up_ok w q : ui_queue (bridge w) = wsConnected :: q -> conn_ok w -> conn_ok (ws_connected_slot (on_bridge (with_queue q) w)).
Proof.
  intros Hq Hw. pose proof (up_linked w q Hq Hw) as Hl. destruct Hw as [_ Ho].
  unfold ws_connected_slot. destruct (_ || _); [| by split].
  destruct (linked_disconnect _ _ _ Hl) as [Hd Hu]. split; [by apply (linked_true _ _ _ Hd) |].
  cbn [app bridge on_bridge]. unfold disconnect. by rewrite (proj1 (move_asked _ _)), (proj2 (move_asked _ _)).
Qed.

(** [ws_disconnected_slot], to what matters. *)
Lemma down_world w :
  let w' := ws_disconnected_slot w in
  bridge w' = (if is_disconnected w then bridge w else deinitScreenSession (audioStop (bridge w)))
  /\ connectionState (app w') = AppState.Disconnected /\ peers (app w') = []
  /\ streamingPeers (app w') = [] /\ watchedPeerIds (app w') = [].
Proof.
  destruct w as [au ap br rq sn nt]. destruct ap as [? ? ? ? ? ? ? ps sps wps [] ? ?]; destruct ps, sps, wps; done.
Qed.

Lemma slot_down_ok w q : ui_queue (bridge w) = wsDisconnected :: q -> conn_ok w -> conn_ok (ws_disconnected_slot (on_bridge (with_queue q) w)).
Proof.
  intros Hq [[H1 H2 H3] Ho]. rewrite Hq in *. set (w0 := on_bridge (with_queue q) w).
  destruct (down_world w0) as (Eb & Es & Ep & _). generalize dependent (ws_disconnected_slot w0). intros w' Eb Es Ep.
  assert (Hl : linked false ∅ (bridge w0)).
  { split; [done | | done]. cbn [wire with_queue ui_queue bridge on_bridge w0]. rewrite H2. apply default_last. }
  unfold conn_ok, shows_up, shown_ids. rewrite Eb, Es, Ep. destruct (is_disconnected w0) eqn:Hd.
  - apply bool_decide_eq_true in Hd. split; [done |]. intros _. exact (Ho Hd).
  - split; [by eapply linked_rest, Hl |]. intros _. apply stopped_asked.
Qed.

Lemma act_conn_ok a w : conn_ok w -> conn_ok (act a w).
Proof.
  apply act_inv.
  - intros w1 w2. apply conn_core.
  - intros w1 H1. apply leave_conn_ok, H1.
  - intros w1 channel created _. apply join_conn_ok.
  - intros w1 s cb. apply calls_conn_ok.
  - intros w1 q. apply slot_up_ok.
  - intros w1 q. apply slot_down_ok.
Qed.

Lemma run_conn_ok kept input output acts : conn_ok (run kept input output acts).
Proof.
  unfold AppState.run, run_from. assert (H0 : conn_ok (new_world kept input output)) by (split; [split; [apply start_ok | done..] | done]).
  revert H0. generalize (new_world kept input output). induction acts as [| a acts IH]; intros w Hw; [done |]. by apply IH, act_conn_ok.
Qed.

(** C11 The application shows its connection as it is: after any run of the
    interface, the API's replies, the sign-in, the sockets and the audio thread,
    once no signal about the connection waits it shows "connected" exactly when
    the transport is, and once no signal waits at all the peers it shows are the
    peers that the transport knows.  Whenever it shows "disconnected", the last
    that the core was asked, or that the audio pool will ask it, is to stop voice
    and to end the screen session. *)
Theorem connection_shown kept input output acts :
  let w := run kept input output acts in
  (waiting w = [] -> (connectionState (app w) = AppState.Connected <-> connected (bridge w) = true))
  /\ (ui_queue (bridge w) = [] -> shown_ids (app w) = known (wire_of w))
  /\ (connectionState (app w) = AppState.Disconnected -> voice_outlook (bridge w) = false /\ screen_asked (media (bridge w)) = false).
Proof.
  intros w. destruct (run_conn_ok kept input output acts) as [[_ Hup Hids] Ho]. fold w in Hup, Hids, Ho. split_and!; [| | exact Ho].
  - unfold waiting. intros Hq. rewrite Hq in Hup. change (connected (bridge w)) with (is_up (wire (bridge w))). rewrite Hup. cbn.
    unfold shows_up. by rewrite bool_decide_eq_true.
  - intros Hq. by rewrite Hq in Hids.
Qed.
End Connection.

(** ** A run *)

(** Signed in, with the channels of a server. *)
Definition sample_start : list Act :=
  [SignIn (CallLogin "ann" "pw");
   SignIn (AuthReplies 0 false [("access_token", SignIn.JString "a"); ("refresh_token", SignIn.JString "r"); ("user_id", SignIn.JInteger 7)]);
   SelectServer 1;
   Replies 2 true (SignIn.JArray [SignIn.JObject [("id", SignIn.JInteger 5); ("name", SignIn.JString "talk"); ("kind", SignIn.JString "voice")];
                            SignIn.JObject [("id", SignIn.JInteger 6); ("name", SignIn.JString "games"); ("kind", SignIn.JString "voice")]]) 0].

(** In a call, with the events that the server's [joined] message causes. *)
Definition sample_call : list Act :=
  sample_start ++ [JoinVoice 5 true; SocketCalls 0 OnOpen; Delivers; SocketCalls 0 (OnMessage "joined"); Delivers; Delivers; AudioRuns (fun _ => true);
                   AudioRuns (fun _ => true); AudioRuns (fun _ => true)].

Definition sample_parse (s : string) : option json :=
  if String.eqb s "joined" then Some (encode (PeerJoined "p1" "bob"))
  else if String.eqb s "streams" then Some (encode (StreamingStart (Some "p1")))
  else if String.eqb s "refused" then Some (encode (WatchRejected "p1" Capacity)) else None.

Definition sample_app (acts : list Act) : World :=
  run id chars (fun _ => None) sample_parse "wss://sfu.example" "https://api.example" None None None acts.

Lemma connection_shown_witness :
  let w := sample_app sample_call in
  connectionState (app w) = AppState.Connected /\ shown_ids (app w) = known (wire_of w) /\ known (wire_of w) = {["p1"]}
  /\ voice_asked (media (bridge w)) = true.
Proof.
  destruct (connection_shown id chars (fun _ => None) sample_parse "wss://sfu.example" "https://api.example" None None None sample_call)
    as (H1 & H2 & _).
  split_and!; [apply H1; by vm_compute | apply H2; by vm_compute | by vm_compute | by vm_compute].
Defined.
