(* ===== verification/AppCall.v ===== *)
(** * Who is in a call is served

    Runs of AppState in which a channel is joined only when no call is left: voice and
    screens then run as long as the application shows a call.  A channel that is
    joined from within a call is not served ([switch_silences]).  What the sessions of
    ClientVoice and ClientScreen are, once the application has left and their threads
    have ended, is the last part. *)

From S2P Require Import Prelude Floats Text Url Signaling Transport Proxy Socket SignIn Bridge AppState AppConnection.

Local Open Scope list_scope.

Section Call.
Context (trimmed : string -> string) (toPercentEncoding : string -> text) (getenv : text -> option text)
  (json_parse : string -> option json) (signalingUrl apiBaseUrl : string).

Abbreviation act := (act trimmed toPercentEncoding getenv json_parse signalingUrl apiBaseUrl).
Abbreviation run_from := (run_from trimmed toPercentEncoding getenv json_parse signalingUrl apiBaseUrl).
Abbreviation run := (run trimmed toPercentEncoding getenv json_parse signalingUrl apiBaseUrl).
Abbreviation join := (joinVoiceChannel toPercentEncoding getenv signalingUrl).

(** A channel is joined when nothing is shown of a call, and nothing is to be told
    of an earlier one. *)
Definition calm_act (a : Act) (w : World) : bool :=
  match a with JoinVoice _ _ => is_disconnected w && bool_decide (waiting w = []) | _ => true end.

Fixpoint calm (acts : list Act) (w : World) : bool :=
  match acts with [] => true | a :: acts => calm_act a w && calm acts (act a w) end.

(** No socket is there that may still connect. *)
Definition dead (r : Run) : Prop := forall s, ws (Socket.transport r) = Some s -> phase r s = Broken \/ phase r s = Gone.

Definition served (w : World) : Prop :=
  conn_ok w
  /\ (connectionState (app w) <> AppState.Disconnected -> false ∉ waiting w ->
        voice_outlook (bridge w) = true /\ screen_asked (media (bridge w)) = true)
  /\ (connectionState (app w) = AppState.Disconnected \/ false ∈ waiting w -> dead (wire_of w)).

Lemma served_core w w' : core w' = core w -> served w -> served w'.
Proof.
  intros Hc (H1 & H2 & H3). split; [by eapply conn_core |]. injection Hc as E1 E2 E3 _ E5 E6. by rewrite E1, E2, E3, E5, E6.
Qed.

Lemma no_socket_dead r : ws (Socket.transport r) = None -> dead r.
Proof. intros Hn s Hs. congruence. Qed.

Lemma dead_down r : transport_ok r -> dead r -> is_up r = false.
Proof.
  intros [_ Hn Hs _ _ _] Hd. destruct (ws (Socket.transport r)) as [s |] eqn:Hw; [| by apply Hn].
  destruct (Hs s eq_refl) as (_ & _ & Hl & _). apply not_true_iff_false. intros Hup. apply Hl in Hup.
  destruct (Hd s Hw); congruence.
Qed.

Lemma disconnect_wire b : wire (disconnect b) = mkRun (Socket.disconnect (Socket.transport (wire b))) (phase (wire b)).
Proof. apply move_wire_frame. Qed.

Lemma disconnect_dead b : dead (wire (disconnect b)).
Proof. rewrite disconnect_wire. apply no_socket_dead. apply disconnect_fields. Qed.

Lemma leave_served w : served w -> served (leaveVoiceChannel w).
Proof.
  intros (H1 & _ & _). pose proof (leave_conn_ok w (proj1 H1)) as Hok. destruct (leave_world w) as (Eb & Es & _).
  generalize dependent (leaveVoiceChannel w). intros w' Hok Eb Es. split; [done |]. unfold wire_of. rewrite Eb, Es.
  split; [done | intros _; apply disconnect_dead].
Qed.

(** Nothing was connected: nothing is announced. *)
Lemma connect_quiet created u n t b :
  is_up (wire b) = false -> ui_queue (connect toPercentEncoding getenv created u n t b) = ui_queue b.
Proof.
  intros Hup. unfold connect. destruct (move_wire_frame (mkRun (Socket.connect getenv created (connect_url toPercentEncoding u n t)
    (Socket.transport (wire b))).1 (phase (wire b))) b) as (_ & _ & -> & _).
  assert (Hn : announcements (Socket.transport (wire b)) (Socket.connect getenv created (connect_url toPercentEncoding u n t) (Socket.transport (wire b))).1 = []);
    [| cbn [Socket.transport]; rewrite Hn; by rewrite app_nil_r].
  unfold is_up in Hup. unfold announcements, Socket.connect, Socket.disconnect. rewrite Hup.
  destruct (socket_proxy _ _); [destruct created |]; cbn -[drop omap length app];
    destruct (ws (Socket.transport (wire b))); by rewrite ?app_nil_r, <- ?app_assoc, ?drop_app_length, ?drop_same.
Qed.

Lemma join_served_ok channel created w : calm_act (JoinVoice channel created) w = true -> served w -> served (join channel created w).
Proof.
  intros [Hd Hq%bool_decide_eq_true]%andb_true_iff (H1 & H2 & H3). pose proof (join_conn_ok toPercentEncoding getenv signalingUrl channel created w H1) as Hok.
  destruct (join_world toPercentEncoding getenv signalingUrl channel created w) as [[Hc _] | (Es & Hjoin)]; [by eapply served_core; [exact Hc |] |].
  cbv zeta in Hjoin. rewrite Hd in Hjoin. destruct Hjoin as [Eb _]. split; [done |]. unfold wire_of, waiting. rewrite Es, Eb.
  assert (Hup : is_up (wire (initScreenSession (bridge w))) = false).
  { apply dead_down; [apply H1 |]. apply H3. left. by apply bool_decide_eq_true in Hd. }
  assert (Hw : conn_events (ui_queue (joined_bridge toPercentEncoding getenv signalingUrl created channel (auth w) (bridge w))) = []).
  { unfold joined_bridge. cbn [ui_queue audioStart with_audio]. by rewrite connect_quiet. }
  rewrite Hw. split; [intros _ _; apply joined_asked |]. intros [? | Hin]; [done |]. by apply elem_of_nil in Hin.
Qed.

(** A callback announces an end only where no socket is left that may connect, and
    revives none. *)
Lemma callback_dead r s cb p :
  fires cb (phase r s) = Some p -> let t := callback json_parse s cb (Socket.transport r) in
  dead r \/ false ∈ announcements (Socket.transport r) t -> dead (mkRun t (moved r s p)).
Proof.
  intros Hf t. unfold t, callback. destruct (is_current_socket s (Socket.transport r)) eqn:Hcur.
  2: { rewrite same_log_announces by done. intros [Hd | Hin]; [| by apply elem_of_nil in Hin]. intros s' Hs'. cbn in Hs'. cbn [phase moved].
    unfold moved. destruct (decide (s' = s)) as [-> | _]; [| by apply Hd]. unfold is_current_socket in Hcur. by rewrite bool_decide_true in Hcur. }
  assert (Hno : forall q, phase r s = q -> q = Fresh \/ q = Live -> dead r -> False).
  { intros q Hq Hor Hd. apply bool_decide_eq_true in Hcur. destruct (Hd s Hcur), Hor; congruence. }
  destruct cb as [| | | raw]; cbn [Socket.body].
  - intros Hor. exfalso. destruct Hor as [Hd | Hin].
    + destruct (phase r s) eqn:Hq; try done. by eapply Hno; [| left | exact Hd].
    + unfold announcements, open_body in Hin. cbn in Hin. rewrite drop_app_length in Hin. cbn in Hin. set_solver.
  - intros _. apply no_socket_dead. cbn [Socket.transport]. unfold closed_body, notify_disconnected. cbv zeta.
    assert (Hc : is_current_socket s (set_connected false (Socket.transport r)) = true) by exact Hcur. rewrite Hc. by case_decide.
  - intros _ s' Hs'. cbn [phase]. unfold moved. destruct (decide (s' = s)) as [-> | Hne].
    + left. destruct (phase r s); cbn in Hf; congruence.
    + exfalso. apply bool_decide_eq_true in Hcur. cbn [Socket.transport] in Hs'. revert Hs'. unfold error_body, notify_disconnected. cbv zeta.
      destruct (is_current_socket _ _); case_decide; cbn; intros; congruence.
  - intros Hor. exfalso. destruct Hor as [Hd | Hin].
    + destruct (phase r s) eqn:Hq; try done. by eapply Hno; [| right | exact Hd].
    + rewrite same_log_announces in Hin; [by apply elem_of_nil in Hin |]. unfold message_body. by destruct (parse _ _).
Qed.

Lemma calls_frame s cb b (b' := socket_calls json_parse s cb b) :
  b' = b
  \/ exists p, fires cb (phase (wire b) s) = Some p
     /\ wire b' = mkRun (callback json_parse s cb (Socket.transport (wire b))) (moved (wire b) s p)
     /\ conn_events (ui_queue b') = conn_events (ui_queue b)
          ++ announcements (Socket.transport (wire b)) (callback json_parse s cb (Socket.transport (wire b))).
Proof.
  unfold b', socket_calls. destruct (fires cb _) as [p |]; [| by left]. destruct (_ <? _); [| by left]. right. exists p. split; [done |].
  set (r := mkRun _ _). destruct (move_wire_frame r b) as (Ew & _ & Eq & _).
  assert (Hm : wire (move_wire r b) = r /\ conn_events (ui_queue (move_wire r b))
    = conn_events (ui_queue b) ++ announcements (Socket.transport (wire b)) (callback json_parse s cb (Socket.transport (wire b)))).
  { rewrite Ew, Eq, conn_events_app, conn_events_map. by split. }
  destruct cb as [| | | raw]; try done. destruct (is_current_socket _ _); [| done]. destruct (parse json_parse raw) as [m |]; [| done].
  destruct (on_message_frame m (move_wire r b) ∅ (mkClient "" (peers_after ∅ (ui_queue (move_wire r b))) ∅ ∅) eq_refl) as [[= E1 E2 _ _ _ _] _].
  by rewrite E1, E2.
Qed.

Lemma calls_served w s cb : served w -> served (on_bridge (socket_calls json_parse s cb) w).
Proof.
  intros (H1 & H2 & H3). split; [by apply calls_conn_ok |]. unfold waiting, wire_of in *. cbn [app bridge on_bridge].
  destruct (calls_asked json_parse s cb (bridge w)) as [-> ->].
  destruct (calls_frame s cb (bridge w)) as [-> | (p & Hf & -> & ->)]; [done |]. split.
  - intros Hs Hin. apply H2; [done |]. intros Hf'. apply Hin, elem_of_app. by left.
  - intros Hor. apply callback_dead; [done |]. rewrite elem_of_app in Hor. tauto.
Qed.

Lemma up_served w q : ui_queue (bridge w) = wsConnected :: q -> served w -> served (ws_connected_slot (on_bridge (with_queue q) w)).
Proof.
  intros Hq (H1 & H2 & H3). split; [by apply slot_up_ok |]. pose proof (up_linked w q Hq H1) as Hl.
  assert (Hw : waiting w = true :: conn_events q) by (unfold waiting; by rewrite Hq). rewrite Hw in *.
  unfold ws_connected_slot. destruct (_ || _); unfold waiting, wire_of; cbn [app bridge on_bridge].
  - split; [| intros _; apply disconnect_dead]. intros _ Hin. destruct Hin.
    destruct (linked_disconnect _ _ _ Hl) as [Hd Hdown]. by apply (linked_true true _ _ Hd).
  - cbn [connectionState upd emit set_connection app bridge ui_queue with_queue on_bridge]. split.
    + intros _ Hin. assert (Hnot : false ∉ true :: conn_events q) by set_solver. apply H2; [| done]. intros Hs.
      pose proof (dead_down _ (l_ok _ _ _ (proj1 H1)) (H3 (or_introl Hs))) as Hdown.
      apply Hin. by apply (linked_true true _ _ Hl).
    + intros [? | Hin]; [done |]. apply H3. right. by apply list_elem_of_further.
Qed.

Lemma down_served w q : ui_queue (bridge w) = wsDisconnected :: q -> served w -> served (ws_disconnected_slot (on_bridge (with_queue q) w)).
Proof.
  intros Hq (H1 & H2 & H3). split; [by apply slot_down_ok |]. set (w0 := on_bridge (with_queue q) w). destruct (down_world w0) as (Eb & Es & _).
  unfold wire_of. rewrite Eb, Es. split; [done |]. intros _. assert (Hd : dead (wire_of w)).
  { apply H3. right. unfold waiting. rewrite Hq. cbn. by left. }
  by destruct (is_disconnected w0).
Qed.

Lemma act_calm_served a w : calm_act a w = true -> served w -> served (act a w).
Proof.
  intros Hc Hw.
  assert (Hor : (exists channel created, a = JoinVoice channel created) \/ forall channel created, a <> JoinVoice channel created)
    by (destruct a; eauto).
  destruct Hor as [(channel & created & ->) | Hno]; [by apply join_served_ok |].
  apply act_inv; [.. | exact Hw].
  - intros w1 w2. apply served_core.
  - intros w1. apply leave_served.
  - intros w1 channel created Ha. by destruct (Hno channel created).
  - intros w1 s cb. apply calls_served.
  - intros w1 q. apply up_served.
  - intros w1 q. apply down_served.
Qed.

Lemma calm_served acts w : calm acts w = true -> served w -> served (run_from acts w).
Proof.
  revert w. induction acts as [| a acts IH]; intros w Hc Hw; [done |]. apply andb_true_iff in Hc as [Ha Hc].
  by apply (IH (act a w) Hc), act_calm_served.
Qed.

Lemma new_served kept input output : served (new_world kept input output).
Proof.
  split; [apply (run_conn_ok trimmed toPercentEncoding getenv json_parse signalingUrl apiBaseUrl kept input output []) |].
  split; [done | intros _; by apply no_socket_dead].
Qed.

(** C13 Who is shown a call is in it: in a run that joins a channel only when no call
    is shown and no signal about an earlier connection waits, whatever the sockets,
    the API and the audio thread do, whenever a call is shown (connecting or
    connected) and no signal about the connection waits, the last that the core was
    asked for screens is to have a session, and the last for voice, once the audio
    pool has done its tasks, is to start. *)
Theorem call_is_served kept input output acts :
  calm acts (new_world kept input output) = true ->
  let w := run kept input output acts in
  connectionState (app w) <> AppState.Disconnected -> waiting w = [] ->
  voice_outlook (bridge w) = true /\ screen_asked (media (bridge w)) = true.
Proof.
  intros Hc w Hs Hw. destruct (calm_served acts _ Hc (new_served kept input output)) as (_ & H & _). apply (H Hs).
  fold w. unfold w, AppState.run in Hw. rewrite Hw. apply not_elem_of_nil.
Qed.
End Call.

Lemma call_is_served_witness :
  let w := sample_app sample_call in
  connectionState (app w) = AppState.Connected /\ voice_asked (media (bridge w)) = true /\ screen_asked (media (bridge w)) = true.
Proof.
  destruct (call_is_served id chars (fun _ => None) sample_parse "wss://sfu.example" "https://api.example" None None None sample_call) as [Hv Hs];
    [by vm_compute | by vm_compute | by vm_compute |].
  split_and!; [by vm_compute | by vm_compute | exact Hs].
Defined.

(** Another channel, chosen from within the call: the end of the old connection is
    told after the new session was started, and stops it.  The application shows that
    it is connected, to a room where it neither speaks nor hears, and nothing waits
    that would change it. *)
Lemma switch_silences :
  let w := sample_app (sample_call ++ [JoinVoice 6 true; Delivers; SocketCalls 1 OnOpen; Delivers]
                       ++ replicate 6 (AudioRuns (fun _ => true))) in
  connectionState (app w) = AppState.Connected /\ selectedChannelId (app w) = 6%Z /\ connected (bridge w) = true
  /\ ui_queue (bridge w) = [] /\ m_audioPool (bridge w) = []
  /\ voice_asked (media (bridge w)) = false /\ screen_asked (media (bridge w)) = false.
Proof. by vm_compute. Qed.

(** A connection that is refused at once (the URL, the proxy) is not told: the
    application shows that it connects, without a socket, until the user leaves. *)
Lemma refused_connects :
  let w := sample_app (sample_start ++ [JoinVoice 5 false]) in
  connectionState (app w) = AppState.Connecting /\ ws (Socket.transport (wire_of w)) = None /\ ui_queue (bridge w) = [].
Proof. by vm_compute. Qed.
