(* ===== verification/AppSilence.v ===== *)
(** * Who left is silent

    The application, the client's voice and the client's screens together.  [Bridge]
    records what [GoogleWebRtcClient] was called for; a run of ClientVoice or of
    ClientScreen in which exactly those calls start and stop is one that the
    application may cause, whatever the client's threads, its sessions, the transport
    and the recovery do in between. *)

From S2P Require Import Prelude Floats Text Url Signaling Transport Proxy Socket Lifecycle ClientVoice Capture ScreenStats ClientScreen.
From S2P Require Import ScreenControl ScreenSharing SignIn Bridge AppState AppConnection.

Local Open Scope list_scope.

(** The calls that start and stop. *)
Definition voice_calls (l : list MediaCall) : list bool :=
  omap (fun c => match c with StartVoice => Some true | StopVoice => Some false | _ => None end) l.
Definition screen_calls (l : list MediaCall) : list bool :=
  omap (fun c => match c with InitScreen => Some true | DeinitScreen => Some false | _ => None end) l.

Definition latest (l : list bool) : bool := default false (last l).

Lemma latest_snoc l b : latest (l ++ [b]) = b.
Proof. unfold latest. by rewrite last_snoc. Qed.

Lemma voice_asked_latest l : voice_asked l = latest (voice_calls l).
Proof.
  induction l as [| c l IH] using rev_ind; [done |]. rewrite voice_asked_app. unfold voice_calls in *. rewrite omap_app, IH.
  by destruct c; cbn; rewrite ?app_nil_r, ?latest_snoc.
Qed.

Lemma screen_asked_latest l : screen_asked l = latest (screen_calls l).
Proof.
  induction l as [| c l IH] using rev_ind; [done |]. rewrite screen_asked_app. unfold screen_calls in *. rewrite omap_app, IH.
  by destruct c; cbn; rewrite ?app_nil_r, ?latest_snoc.
Qed.

(** ** Voice *)

Section Voice.
Context `{Float}.

Definition voice_starts (acts : list ClientVoice.Act) : list bool :=
  omap (fun a => match a with CallStart => Some true | CallStop => Some false | _ => None end) acts.

Lemma exec_requested i answer w w' more :
  ClientVoice.exec i answer w = Some (w', more) -> voice_requested (voice w') = voice_requested (voice w).
Proof.
  destruct i; cbn [ClientVoice.exec]; unfold start_voice_if_requested, ClientVoice.start_session, fall_back, ClientVoice.publish,
    stop_voice_session, ClientVoice.request_stats;
    repeat match goal with |- context [if ?b then _ else _] => destruct b end; by intros [= <- _].
Qed.

Lemma act_requested a w :
  voice_requested (voice (ClientVoice.act a w)) = match a with CallStart => true | CallStop => false | _ => voice_requested (voice w) end.
Proof.
  destruct a; try done; cbn [ClientVoice.act]; unfold set_device, request_voice_stats, ClientVoice.session_failed,
    ClientVoice.schedule_recovery, ClientVoice.stats_delivered, ClientVoice.run_recovery, answer_arrives, track_made, track_arrives, ClientVoice.resume;
    repeat match goal with
      | |- context [match ClientVoice.threads ?w !! ?n with _ => _ end] => destruct (ClientVoice.threads w !! n) as [[| i l] |]
      | |- context [match ClientVoice.exec ?i ?a ?w with _ => _ end] => destruct (ClientVoice.exec i a w) as [[w' more] |] eqn:He
      | |- context [match ?x with [] => _ | _ => _ end] => destruct x
      | |- context [match ?x with Some _ => _ | None => _ end] => destruct x
      | |- context [if ?b then _ else _] => destruct b
      end; try done.
  by apply exec_requested in He.
Qed.

Lemma run_requested acts : voice_requested (voice (ClientVoice.run acts)) = latest (voice_starts acts).
Proof.
  induction acts as [| a acts IH] using rev_ind; [done |]. unfold ClientVoice.run, voice_starts in *. rewrite foldl_snoc, act_requested, IH, omap_app.
  by destruct a; cbn; rewrite ?app_nil_r, ?latest_snoc.
Qed.
End Voice.

(** ** Screens *)

Section Screens.
Context (on_frame on_frame_removed : bool) (local_id : string).

Abbreviation screen_act := (ClientScreen.act on_frame on_frame_removed local_id).
Abbreviation screen_run := (ClientScreen.run on_frame on_frame_removed local_id).

Definition screen_starts (acts : list ClientScreen.Act) : list bool :=
  omap (fun a => match a with CallInit => Some true | CallDeinit => Some false | _ => None end) acts.

Lemma screen_act_requested a w :
  screen_requested (screen (screen_act a w)) = match a with CallInit => true | CallDeinit => false | _ => screen_requested (screen w) end.
Proof.
  destruct a; try done; cbn [ClientScreen.act]; unfold ClientScreen.join_stream, peer_stopped_streaming, ClientScreen.stop_watching, ClientScreen.start_sharing,
    ClientScreen.session_track, deliver_video, deliver_local_video, ClientScreen.session_failed, ClientScreen.schedule_recovery, ClientScreen.stats_delivered,
    ClientScreen.run_recovery, screen_stats_json, ClientScreen.resume; try (destruct (poll _ _ _); cbn [snd]);
    repeat match goal with
      | |- context [match threads ?w !! ?n with _ => _ end] => destruct (threads w !! n) as [[| i l] |]
      | |- context [match ClientScreen.exec ?x ?y ?i ?a ?w with _ => _ end] => destruct (ClientScreen.exec x y i a w) as [[w' more] |] eqn:He
      | |- context [match ?x with [] => _ | _ => _ end] => destruct x
      | |- context [match ?x with Some _ => _ | None => _ end] => destruct x
      | |- context [match ?x with (_, _) => _ end] => destruct x
      | |- context [if ?b then _ else _] => destruct b
      end; try done.
  apply exec_frame in He. cbn. apply He.
Qed.

Lemma screen_run_requested acts : screen_requested (screen (screen_run acts)) = latest (screen_starts acts).
Proof.
  induction acts as [| a acts IH] using rev_ind; [done |]. unfold ClientScreen.run, screen_starts in *.
  rewrite foldl_snoc, screen_act_requested, IH, omap_app. by destruct a; cbn; rewrite ?app_nil_r, ?latest_snoc.
Qed.

(** Nobody wants screens, and no thread is at work. *)
Lemma unwanted_screen acts (w := screen_run acts) :
  screen_requested (screen w) = false -> threads w = [] ->
  screen_session (screen w) = None /\ elements (closed (sessions w)) ≡ₚ seq 0 (next_session (sessions w))
  /\ playout_running w = false /\ sharing_active (screen w) = false /\ on_air (sessions w) = ∅.
Proof.
  intros Hno Hidle. destruct (run_session on_frame on_frame_removed local_id acts) as [Hok _].
  destruct (run_playing on_frame on_frame_removed local_id acts) as [_ Hplay].
  destruct (run_sharing on_frame on_frame_removed local_id acts) as [_ [Ha _ _ _ _ _ Hw]]. fold w in Hok, Hplay, Ha, Hw.
  rewrite Hidle in Hok, Hplay, Ha, Hw. destruct (life_idle (ScreenControl.life w) (ScreenControl.wanted w) Hok) as [Hc Hcl]; [intros [? ?]; congruence |].
  assert (Hoff : sharing_active (screen w) = false).
  { destruct (sharing_active (screen w)); [| done]. destruct (Hw eq_refl) as [? | Hin]; [congruence | by apply elem_of_nil in Hin]. }
  split_and!; [done | done | | done |].
  - destruct (playout_running w) eqn:Hr; [| done]. cbn in Hc. destruct (Hplay Hr) as [Hse | He]; [by rewrite Hc in Hse; destruct Hse | by apply Exists_nil in He].
  - apply elem_of_equiv_empty_L. intros x Hx. destruct (Ha x Hx) as [[? _] | Hin]; [congruence | by apply elem_of_nil in Hin].
Qed.
End Screens.

Lemma unwanted_voice `{Float} acts (w := ClientVoice.run acts) :
  voice_requested (voice w) = false -> ClientVoice.threads w = [] ->
  voice_session (voice w) = None /\ elements (ClientVoice.closed (ClientVoice.sessions w)) ≡ₚ seq 0 (ClientVoice.next_session (ClientVoice.sessions w)).
Proof.
  intros Hno Hidle. destruct (client_run_ok acts) as [Hok _]. fold w in Hok. rewrite Hidle in Hok.
  apply (life_idle (ClientVoice.life w) (ClientVoice.wanted w) Hok). intros [? ?]. congruence.
Qed.

(** ** Together *)

(** C9 Who left is silent: after any run of the application that ends with no call
    shown and with its audio pool empty, and any runs of the client's voice and
    screens that the application's calls cause, whatever the transport, the
    sessions, the recovery and the order of the threads were: once no thread of the
    client is at work, every voice and screen session that was ever made is closed, nothing
    of the user's screen or sound is captured or sent, and nothing is played. *)
Theorem left_silent `{Float} trimmed toPercentEncoding getenv json_parse signalingUrl apiBaseUrl kept input output acts
    on_frame on_frame_removed local_id voice_acts screen_acts :
  let w := AppState.run trimmed toPercentEncoding getenv json_parse signalingUrl apiBaseUrl kept input output acts in
  let v := ClientVoice.run voice_acts in
  let s := ClientScreen.run on_frame on_frame_removed local_id screen_acts in
  connectionState (app w) = AppState.Disconnected -> m_audioPool (bridge w) = [] ->
  voice_starts voice_acts = voice_calls (media (bridge w)) -> screen_starts screen_acts = screen_calls (media (bridge w)) ->
  ClientVoice.threads v = [] -> threads s = [] ->
  (voice_session (voice v) = None /\ elements (ClientVoice.closed (ClientVoice.sessions v)) ≡ₚ seq 0 (ClientVoice.next_session (ClientVoice.sessions v)))
  /\ (screen_session (screen s) = None /\ elements (closed (sessions s)) ≡ₚ seq 0 (next_session (sessions s))
      /\ playout_running s = false /\ sharing_active (screen s) = false /\ on_air (sessions s) = ∅).
Proof.
  intros w v s Hoff Hpool Hvoice Hscreen Hv Hs.
  destruct (run_conn_ok trimmed toPercentEncoding getenv json_parse signalingUrl apiBaseUrl kept input output acts) as [_ Ho]. fold w in Ho.
  destruct (Ho Hoff) as [Hvo Hso]. unfold voice_outlook in Hvo. rewrite Hpool in Hvo. cbn [foldl] in Hvo.
  rewrite voice_asked_latest, <- Hvoice in Hvo. rewrite screen_asked_latest, <- Hscreen in Hso.
  split; [apply unwanted_voice | apply unwanted_screen]; try done; [by rewrite run_requested | by rewrite screen_run_requested].
Qed.

(** In a call with the screen shared, then out of it. *)
Definition left_acts : list AppState.Act := sample_call ++ [LeaveVoice; AudioRuns (fun _ => true)].

Lemma left_silent_witness :
  let v := ClientVoice.run ([ClientVoice.SignalingChanges true; ClientVoice.Resumes 0 ClientVoice.yes; CallStart]
             ++ replicate 5 (ClientVoice.Resumes 0 ClientVoice.yes) ++ [CallStop] ++ replicate 3 (ClientVoice.Resumes 0 ClientVoice.yes)) in
  let s := ClientScreen.run true true "me" (sharing ++ [CallDeinit] ++ go 20) in
  ClientVoice.next_session (ClientVoice.sessions v) = 1 /\ voice_session (voice v) = None
  /\ next_session (sessions s) = 1 /\ next_capture (sessions s) = 1 /\ on_air (sessions s) = ∅.
Proof.
  intros v s.
  destruct (left_silent id chars (fun _ => None) sample_parse "wss://sfu.example" "https://api.example" None None None left_acts true true "me"
    ([ClientVoice.SignalingChanges true; ClientVoice.Resumes 0 ClientVoice.yes; CallStart]
       ++ replicate 5 (ClientVoice.Resumes 0 ClientVoice.yes) ++ [CallStop] ++ replicate 3 (ClientVoice.Resumes 0 ClientVoice.yes))
    (sharing ++ [CallDeinit] ++ go 20)) as ((Hv & _) & (_ & _ & _ & _ & Ha)); [by vm_compute .. |].
  split_and!; [by vm_compute | exact Hv | by vm_compute | by vm_compute | exact Ha].
Defined.
