(* ===== verification/AppData.v ===== *)
(** * What the interface is shown

    The properties of AppState that the interface reads: every change is announced by
    the property's signal ([changes_notified]), lists come from replies to the user
    who is signed in ([shown_is_own]), and the screens shown as watched are those that
    the core was asked for ([watched_shown]). *)

From S2P Require Import Prelude Floats Text Url Signaling Transport Proxy Socket SignIn Bridge AppState AppConnection.

Local Open Scope list_scope.

(** ** Announcing *)

(** The properties of AppState.h that a signal is the NOTIFY of; those that are read
    from the bridge are left out. *)
Definition same (n : Notify) (a a' : App) : Prop :=
  match n with
  | userProfileChanged => userProfile a' = userProfile a
  | apiErrorChanged => apiError a' = apiError a
  | serversChanged => servers a' = servers a
  | selectedServerChanged => selectedServerId a' = selectedServerId a
  | channelsChanged => channels a' = channels a
  | selectedChannelChanged => selectedChannelId a' = selectedChannelId a
  | usersChanged => users a' = users a
  | peersChanged => peers a' = peers a
  | connectionChanged => connectionState a' = connectionState a
  | streamingPeersChanged => streamingPeers a' = streamingPeers a
  | watchedStreamsChanged => watchedPeerIds a' = watchedPeerIds a
  | connectionStatsChanged => connectionStats a' = connectionStats a
  | audioStateChanged | sharingChanged => True
  end.

Definition told (w w' : World) : Prop :=
  exists new, notified w' = notified w ++ new /\ forall n, n ∉ new -> same n (app w) (app w').

Lemma told_refl w w' : notified w' = notified w -> app w' = app w -> told w w'.
Proof. intros E1 E2. exists []. rewrite E1, E2, app_nil_r. split; [done |]. by intros []. Qed.

Lemma told_trans w1 w2 w3 : told w1 w2 -> told w2 w3 -> told w1 w3.
Proof.
  intros (n1 & E1 & H1) (n2 & E2 & H2). exists (n1 ++ n2). rewrite E2, E1, app_assoc. split; [done |].
  intros n [Hn1 Hn2]%not_elem_of_app. specialize (H1 n Hn1). specialize (H2 n Hn2). destruct n; cbn in *; congruence.
Qed.

Lemma told_app w w1 w2 : notified w1 = notified w -> app w1 = app w -> told w1 w2 -> told w w2.
Proof. intros E1 E2 H. eapply told_trans; [by apply told_refl | exact H]. Qed.

(** What is set, then announced. *)
Ltac tells :=
  eexists; split; [cbn; rewrite <- ?app_assoc; reflexivity |]; intros [] Hn; try done; exfalso; apply Hn; clear; set_solver.

Section Data.
Context (trimmed : string -> string) (toPercentEncoding : string -> text) (getenv : text -> option text)
  (json_parse : string -> option json) (signalingUrl apiBaseUrl : string).

Abbreviation act := (act trimmed toPercentEncoding getenv json_parse signalingUrl apiBaseUrl).
Abbreviation run := (run trimmed toPercentEncoding getenv json_parse signalingUrl apiBaseUrl).
Abbreviation join := (joinVoiceChannel toPercentEncoding getenv signalingUrl).
Abbreviation request := (request toPercentEncoding apiBaseUrl).

Lemma error_told e w : told w (setApiError e w).
Proof. tells. Qed.

Lemma leave_told w : told w (leaveVoiceChannel w).
Proof. tells. Qed.

Lemma stop_streaming_told id w : told w (stop_streaming id w).
Proof. unfold stop_streaming. destruct (holds _ _); [tells | by apply told_refl]. Qed.

Lemma stop_watching_told id w : told w (stop_watching id w).
Proof. unfold stop_watching. destruct (holds _ _); [tells | by apply told_refl]. Qed.

Lemma reloadChannels_told w : told w (reloadChannels toPercentEncoding apiBaseUrl w).
Proof. unfold reloadChannels. destruct (_ <? _)%Z; by apply told_refl. Qed.

Lemma fetch_told w : told w (fetchCurrentUserProfile toPercentEncoding apiBaseUrl w).
Proof. unfold fetchCurrentUserProfile. destruct (_ <=? _)%Z; by apply told_refl. Qed.

Lemma select_told id w : told w (selectServer toPercentEncoding apiBaseUrl id w).
Proof.
  unfold selectServer. set (w1 := if _ && _ then _ else _). apply (told_trans _ w1); [unfold w1; destruct (_ && _); [apply leave_told | by apply told_refl] |].
  clearbody w1. eapply told_trans; [| apply reloadChannels_told]. tells.
Qed.

Lemma join_told channel created w : told w (join channel created w).
Proof.
  unfold joinVoiceChannel. destruct (existsb _ _); [| apply error_told]. set (w1 := if is_disconnected w then w else _).
  apply (told_trans _ w1); [unfold w1; destruct (is_disconnected w); [by apply told_refl | apply leave_told] |]. clearbody w1. tells.
Qed.

Lemma load_told w : told w (loadInitialData toPercentEncoding apiBaseUrl w).
Proof.
  unfold loadInitialData, reloadServers. set (w1 := emit userProfileChanged _). assert (H1 : told w w1) by tells.
  eapply told_trans; [exact H1 |]. eapply told_trans; [apply fetch_told |]. tells.
Qed.

Lemma signal_told s w : told w (auth_signal toPercentEncoding apiBaseUrl w s).
Proof.
  destruct s; cbn [auth_signal]; try (by apply told_refl); [| apply error_told]. unfold auth_changed.
  destruct (loggedIn _); [apply load_told |]. eapply told_trans; [apply leave_told |]. generalize (leaveVoiceChannel w). intros w1. tells.
Qed.

Lemma down_told w : told w (ws_disconnected_slot w).
Proof.
  unfold ws_disconnected_slot. destruct (is_disconnected w); destruct w as [au ap br rq sn nt];
    destruct ap as [? ? ? ? ? ? ? ps sps wps ? ? ?]; destruct ps, sps, wps; tells.
Qed.

Lemma event_told e w : told w (ui_event toPercentEncoding apiBaseUrl e w).
Proof.
  destruct e; cbn [ui_event].
  - unfold ws_connected_slot. destruct (_ || _); [by apply told_refl | tells].
  - apply down_told.
  - tells.
  - unfold peer_left. eapply told_trans; [| apply stop_watching_told]. eapply told_trans; [| apply stop_streaming_told]. tells.
  - unfold peer_identity. destruct (existsb _ _); tells.
  - unfold streaming_started. destruct (holds _ _); [by apply told_refl | tells].
  - unfold streaming_stopped. destruct (holds _ _); [| by apply told_refl].
    eapply told_trans; [apply stop_streaming_told | apply stop_watching_told].
  - unfold watch_rejected. eapply told_trans; [apply stop_watching_told | apply error_told].
  - by apply told_refl.
Qed.

Lemma replied_told r ok json now w : told w (replied trimmed toPercentEncoding apiBaseUrl r ok json now w).
Proof.
  destruct r; unfold_replied;
    repeat match goal with |- context [if ?c then _ else _] => destruct c end;
    try (by apply told_refl); try apply error_told; try apply reloadChannels_told; try apply fetch_told; try (tells; fail).
  eapply told_trans; [| apply select_told]. by apply told_refl.
Qed.

(** Nothing that the interface shows changes unannounced: whatever happens, a call
    of the interface, a reply, a signal of the sign-in or of the bridge, each
    property of AppState that the act changes is announced by the property's
    signal, within the act. *)
Theorem changes_notified a w :
  exists new, notified (act a w) = notified w ++ new /\ forall n, n ∉ new -> same n (app w) (app (act a w)).
Proof.
  change (told w (act a w)). destruct a; cbn [AppState.act]; try (by apply told_refl); try (tells; fail).
  - unfold auth_step. destruct (auth_act _ _ _) as [au signals]. apply (told_app _ (with_auth au w)); [done.. |].
    generalize (with_auth au w). clear w. induction signals as [| s signals IH]; intros w; [by apply told_refl |].
    cbn. eapply told_trans; [apply signal_told | apply IH].
  - apply select_told.
  - apply join_told.
  - unfold startSharing. destruct started; [tells |]. eapply told_trans; [| apply error_told]. tells.
  - unfold joinStream. destruct (holds _ _); [by apply told_refl | tells].
  - unfold leaveStream. destruct (holds _ _); [tells | by apply told_refl].
  - unfold createChannel. destruct (_ <? _)%Z; by apply told_refl.
  - unfold inviteUser. destruct (canManageSelectedServer _); [by apply told_refl | apply error_told].
  - unfold reply. destruct (requests w !! n) as [r |]; [| by apply told_refl].
    eapply told_app; [| | apply replied_told]; done.
  - unfold deliver. destruct (ui_queue _) as [| e q]; [by apply told_refl |]. eapply told_app; [| | apply event_told]; done.
  - unfold pollConnectionStats. destruct (statsTimer _); [tells | by apply told_refl].
Qed.

(** ** Whose lists are shown *)

Definition shown (a : App) := (userProfile a, servers a, selectedServerId a, channels a, users a).
Definition data (w : World) := (auth w, shown (app w)).

Lemma stop_streaming_data id w : data (stop_streaming id w) = data w.
Proof. unfold stop_streaming. by destruct (holds _ _). Qed.

Lemma stop_watching_data id w : data (stop_watching id w) = data w.
Proof. unfold stop_watching. by destruct (holds _ _). Qed.

Lemma join_data channel created w : data (join channel created w) = data w.
Proof. unfold joinVoiceChannel. destruct (existsb _ _); [| done]. by destruct (is_disconnected w). Qed.

Lemma down_data w : data (ws_disconnected_slot w) = data w.
Proof. unfold ws_disconnected_slot. by destruct (is_disconnected w), (peers _), (streamingPeers _), (watchedPeerIds _). Qed.

Lemma event_data e w : data (ui_event toPercentEncoding apiBaseUrl e w) = data w.
Proof.
  destruct e; cbn [ui_event]; try done.
  - unfold ws_connected_slot. by destruct (_ || _).
  - apply down_data.
  - unfold peer_left. by rewrite stop_watching_data, stop_streaming_data.
  - unfold peer_identity. by destruct (existsb _ _).
  - unfold streaming_started. by destruct (holds _ _).
  - unfold streaming_stopped. destruct (holds _ _); [| done]. by rewrite stop_watching_data, stop_streaming_data.
  - unfold watch_rejected. rewrite <- (stop_watching_data id w). done.
Qed.

Lemma select_data id w (w' := selectServer toPercentEncoding apiBaseUrl id w) :
  auth w' = auth w /\ shown (app w') = (userProfile (app w), servers (app w), id, [], users (app w)).
Proof.
  unfold w', selectServer. set (w1 := if _ && _ then _ else _). assert (Hd : data w1 = data w) by (unfold w1; by destruct (_ && _)).
  injection Hd as <- <- <- _ _ <-. clearbody w1. unfold reloadChannels. cbn. by destruct (id <? 0)%Z.
Qed.

(** Acts that show nothing new. *)
Definition shows (a : Act) : bool := match a with SignIn _ | SelectServer _ | Replies _ _ _ _ => true | _ => false end.

Lemma act_data a w : shows a = false -> data (act a w) = data w.
Proof.
  destruct a; try done; intros _; cbn [AppState.act].
  - apply join_data.
  - unfold startSharing. by destruct started.
  - unfold joinStream. by destruct (holds _ _).
  - unfold leaveStream. by destruct (holds _ _).
  - unfold createChannel. by destruct (_ <? _)%Z.
  - unfold inviteUser. by destruct (canManageSelectedServer _).
  - unfold deliver. destruct (ui_queue _) as [| e q]; [done |]. by rewrite event_data.
  - unfold pollConnectionStats. by destruct (statsTimer _).
Qed.

(** *** Who is signed in *)

(** Sign-ins are asked for while nobody is signed in. *)
Definition proper_act (a : Act) (w : World) : bool :=
  match a with SignIn (CallLogin _ _ | CallRegister _ _ _ | CallRestore) => negb (loggedIn (auth w)) | _ => true end.

Fixpoint proper (acts : list Act) (w : World) : bool :=
  match acts with [] => true | a :: acts => proper_act a w && proper acts (act a w) end.

Definition signed (n : Z) (a : Auth) : Prop := auth_ok n a /\ (loggedIn a = true -> authPending a = false).

Lemma ask_in kind name body a : loggedIn (ask kind name body a).1 = loggedIn a.
Proof. unfold ask, setAuthPending. cbn. by destruct (Bool.eqb _ _). Qed.

Lemma setAuthPending_off a : authPending (setAuthPending false a).1 = false.
Proof. unfold setAuthPending. destruct (authPending a) eqn:Hp; [done | by cbn]. Qed.

Lemma answered_pending r error json a : authPending (answered trimmed r error json a).1 = false.
Proof.
  unfold answered. pose proof (setAuthPending_off a) as Hp. destruct (setAuthPending false a) as [b signals]. cbn in Hp.
  by destruct (ar_kind r), error.
Qed.

Lemma act_signed n c w : signed n (auth w) -> (n < 2 ^ 64 - 1)%Z -> proper_act (SignIn c) w = true -> signed (n + 1) (auth_act trimmed c (auth w)).1.
Proof.
  intros [Hok Hin] Hb Hc. set (a := auth w) in *. cbn [proper_act] in Hc. split.
  - apply auth_act_ok; [done.. |]. by destruct c.
  - destruct c; cbn [auth_act]; unfold login, registerUser, tryRestoreSession, auth_reply.
    + apply negb_true_iff in Hc. fold a in Hc. destruct (authPending a); [by cbn; rewrite Hc |]. by rewrite ask_in, Hc.
    + apply negb_true_iff in Hc. fold a in Hc. destruct (authPending a); [by cbn; rewrite Hc |]. by rewrite ask_in, Hc.
    + unfold logout. by destruct (setAuthPending _ _).
    + apply negb_true_iff in Hc. fold a in Hc. destruct (authPending a); [by cbn; rewrite Hc |]. destruct (load _) as [s |]; [| by cbn; rewrite Hc].
      pose proof (ask_in Restore (s_username s) [("refresh_token", JString (s_refresh_token s))] a) as Hi. destruct (ask _ _ _ a) as [b signals]. cbn in *. by rewrite Hi, Hc.
    + destruct (auth_requests a !! n0) as [r |]; [| done]. cbn. destruct (_ =? _)%Z; [| done]. by intros; apply answered_pending.
Qed.

(** *** What the sign-in leaves of the lists *)

Definition own_profile (a : Auth) (p : option Profile) : Prop :=
  exists p', p = Some p' /\ p_id p' = userId a /\ p_username p' = username a.

(** Nothing of anyone, but the profile of who has just signed in. *)
Definition fresh (w : World) : Prop :=
  servers (app w) = [] /\ channels (app w) = [] /\ users (app w) = []
  /\ (userProfile (app w) = None \/ loggedIn (auth w) = true /\ own_profile (auth w) (userProfile (app w))).

Lemma auth_changed_auth w : auth (auth_changed toPercentEncoding apiBaseUrl w) = auth w.
Proof.
  unfold auth_changed. destruct (loggedIn _); [| done]. unfold loadInitialData, fetchCurrentUserProfile. cbn. by destruct (_ <=? _)%Z.
Qed.

Lemma auth_changed_fresh w : fresh w -> fresh (auth_changed toPercentEncoding apiBaseUrl w).
Proof.
  intros (H1 & H2 & H3 & _). unfold auth_changed. destruct (loggedIn (auth w)) eqn:Hl; [| split_and!; try done; by left].
  unfold loadInitialData, fetchCurrentUserProfile. cbn. destruct (_ <=? _)%Z; unfold fresh; cbn; (split_and!; [done.. | right]); (split; [done |]); by eexists.
Qed.

Lemma auth_changed_out w : loggedIn (auth w) = false -> fresh (auth_changed toPercentEncoding apiBaseUrl w).
Proof. intros Hl. unfold auth_changed. rewrite Hl. unfold fresh. cbn [app upd emit set_profile userProfile]. split_and!; try done. by left. Qed.

Lemma signals_fresh signals w : fresh w -> fresh (foldl (auth_signal toPercentEncoding apiBaseUrl) w signals).
Proof.
  revert w. induction signals as [| s signals IH]; intros w Hw; [done |]. cbn. apply IH.
  destruct s; try done. by apply auth_changed_fresh.
Qed.

Lemma signals_auth signals w : auth (foldl (auth_signal toPercentEncoding apiBaseUrl) w signals) = auth w.
Proof.
  revert w. induction signals as [| s signals IH]; intros w; [done |]. cbn. rewrite IH. destruct s; try done. apply auth_changed_auth.
Qed.

Lemma auth_step_auth c w : auth (auth_step trimmed toPercentEncoding apiBaseUrl c w) = (auth_act trimmed c (auth w)).1.
Proof. unfold auth_step. destruct (auth_act _ _ _) as [a signals]. apply signals_auth. Qed.

Lemma auth_step_cases n c w (w' := auth_step trimmed toPercentEncoding apiBaseUrl c w) :
  signed n (auth w) -> proper_act (SignIn c) w = true -> (loggedIn (auth w) = false -> fresh w) ->
  fresh w'
  \/ loggedIn (auth w) = true /\ shown (app w') = shown (app w)
     /\ (loggedIn (auth w'), userId (auth w'), username (auth w')) = (loggedIn (auth w), userId (auth w), username (auth w)).
Proof.
  intros [Hok Hin] Hc Hout. unfold w', auth_step. destruct (loggedIn (auth w)) eqn:Hl.
  - specialize (Hin eq_refl). cbn [proper_act] in Hc. rewrite Hl in Hc. destruct c as [| | | | i error json]; try done; cbn [auth_act].
    + left. unfold logout, setAuthPending. cbn -[auth_changed]. rewrite Hin. cbn -[auth_changed]. by apply auth_changed_out.
    + right. unfold auth_reply. destruct (auth_requests (auth w) !! i) as [r |] eqn:Hi; [| by cbn; rewrite Hl].
      cbn. destruct (_ =? _)%Z eqn:Hg; [| by cbn; rewrite Hl]. exfalso. apply Z.eqb_eq in Hg.
      assert (Hr : r ∈ awaited (auth w)) by (apply list_elem_of_filter; split; [done | by eapply list_elem_of_lookup_2]).
      rewrite (pending_none _ (ok_awaited _ _ Hok) Hin) in Hr. by apply elem_of_nil in Hr.
  - left. specialize (Hout eq_refl). destruct (auth_act trimmed c (auth w)) as [a signals]. apply signals_fresh.
    destruct Hout as (H1 & H2 & H3 & [H4 | [? _]]); [| congruence]. split_and!; try done. by left.
Qed.

(** *** What a reply shows *)

Lemma signed_in_me user w : signed_in_as user w = true -> loggedIn (auth w) = true /\ user = userId (auth w).
Proof. intros [Hl Hu%Z.eqb_eq]%andb_true_iff. by split. Qed.

Inductive reply_shows (a : Auth) (d : App) (json : QJsonValue) (now : Z) : Request -> App -> Prop :=
  | Shows_nothing r d' : shown d' = shown d -> reply_shows a d json now r d'
  | Shows_profile d' :
      shown d' = (Some (shown_profile trimmed apiBaseUrl (to_object json) now), servers d, selectedServerId d, channels d, users d) ->
      reply_shows a d json now (GetMe (userId a)) d'
  | Shows_servers d' :
      shown d' = (userProfile d, parse_server <$> to_array json, selectedServerId d, channels d, users d) ->
      reply_shows a d json now (ListServers (userId a)) d'
  | Shows_channels d' :
      shown d' = (userProfile d, servers d, selectedServerId d, parse_channel <$> to_array json, users d) ->
      reply_shows a d json now (ListChannels (userId a) (selectedServerId d)) d'
  | Shows_users d' :
      shown d' = (userProfile d, servers d, selectedServerId d, channels d,
                  filter (fun u => user_id u <> userId a) (parse_user trimmed apiBaseUrl <$> to_array json)) ->
      reply_shows a d json now (ListUsers (userId a)) d'
  | Shows_selected r id d' : shown d' = (userProfile d, servers d, id, [], users d) -> reply_shows a d json now r d'
  | Shows_fewer r member d' :
      shown d' = (userProfile d, servers d, selectedServerId d, channels d, filter (fun u => user_id u <> member) (users d)) ->
      reply_shows a d json now r d'.

Lemma replied_shows r ok json now w (w' := replied trimmed toPercentEncoding apiBaseUrl r ok json now w) :
  auth w' = auth w
  /\ (ok = true /\ loggedIn (auth w) = true /\ reply_shows (auth w) (app w) json now r (app w')
      \/ shown (app w') = shown (app w)).
Proof.
  assert (Hsame : forall w1, data w1 = data w ->
    auth w1 = auth w /\ (ok = true /\ loggedIn (auth w) = true /\ reply_shows (auth w) (app w) json now r (app w1) \/ shown (app w1) = shown (app w))).
  { intros w1 Hd. injection Hd as Ha Hp Hs Hi Hc Hu. split; [done |]. right. unfold shown. congruence. }
  unfold w'. destruct r as [u | u | u sv | u ? ? | u sv ? ? | u ? | u | u sv m | | | u peer ?]; unfold_replied;
    try (destruct ok; cbn [negb orb]; try by apply Hsame);
    try (destruct (signed_in_as u w) eqn:Hin; cbn [negb orb]; [apply signed_in_me in Hin as [Hl Hu] | by apply Hsame]).
  - split; [done |]. left. split_and!; try done. rewrite Hu. by apply Shows_profile.
  - split; [done |]. left. split_and!; try done. rewrite Hu. by apply Shows_servers.
  - destruct (selectedServerId (app w) =? sv)%Z eqn:Hsel; cbn [negb]; [| by apply Hsame]. apply Z.eqb_eq in Hsel.
    split; [done |]. left. split_and!; try done. rewrite Hu, <- Hsel. by apply Shows_channels.
  - by apply Hsame.
  - by apply Hsame.
  - apply Hsame. unfold reloadChannels. destruct (_ =? _)%Z; [| done]. by destruct (_ <? _)%Z.
  - by apply Hsame.
  - set (w1 := reloadServers toPercentEncoding apiBaseUrl w). destruct (select_data (SignIn.to_int 0 (value "server_id" (to_object json))) w1) as [Ha Hs].
    split; [exact Ha |]. left. split_and!; [done.. |]. eapply Shows_selected. exact Hs.
  - by apply Hsame.
  - split; [done |]. left. split_and!; try done. rewrite Hu. by apply Shows_users.
  - by apply Hsame.
  - destruct (selectedServerId (app w) =? sv)%Z; cbn [negb]; [| by apply Hsame]. split; [done |]. left. split_and!; try done. by eapply Shows_fewer.
  - destruct (selectedServerId (app w) =? sv)%Z; cbn [negb]; by apply Hsame.
  - apply Hsame. unfold fetchCurrentUserProfile. by destruct (_ <=? _)%Z.
  - apply Hsame. unfold fetchCurrentUserProfile. by destruct (_ <=? _)%Z.
  - by apply Hsame.
Qed.

(** *** The lists along a run *)

Section Own.
Context (kept : option SessionData) (input output : option string).

Abbreviation run := (run kept input output).

(** A reply of the run to such a request. *)
Definition answered_by (acts : list Act) (P : Request -> QJsonValue -> Prop) : Prop :=
  exists pre n json now post r, acts = pre ++ Replies n true json now :: post /\ requests (run pre) !! n = Some r /\ P r json.

Lemma answered_snoc acts a P : answered_by acts P -> answered_by (acts ++ [a]) P.
Proof. intros (pre & n & json & now & post & r & -> & ?). exists pre, n, json, now, (post ++ [a]), r. by rewrite <- app_assoc. Qed.

Lemma answered_now acts n json now r (P : Request -> QJsonValue -> Prop) :
  requests (run acts) !! n = Some r -> P r json -> answered_by (acts ++ [Replies n true json now]) P.
Proof. intros Hr HP. by exists acts, n, json, now, [], r. Qed.

Lemma answered_impl acts (P Q : Request -> QJsonValue -> Prop) : (forall r json, P r json -> Q r json) -> answered_by acts P -> answered_by acts Q.
Proof. intros HPQ (pre & n & json & now & post & r & ? & ? & HP). exists pre, n, json, now, post, r. auto. Qed.

(** The user's id, his name, the selected server, and what is shown. *)
Record own (acts : list Act) (user : Z) (name : string) (d : App) : Prop := {
  own_servers : servers d = []
    \/ answered_by acts (fun r json => r = ListServers user /\ servers d = parse_server <$> to_array json);
  own_channels : channels d = []
    \/ answered_by acts (fun r json => r = ListChannels user (selectedServerId d) /\ channels d = parse_channel <$> to_array json);
  own_users : users d = []
    \/ answered_by acts (fun r json => r = ListUsers user
          /\ forall u, u ∈ users d -> user_id u <> user /\ u ∈ (parse_user trimmed apiBaseUrl <$> to_array json));
  own_shown : userProfile d = None
    \/ (exists p, userProfile d = Some p /\ p_id p = user /\ p_username p = name)
    \/ answered_by acts (fun r json => r = GetMe user /\ exists now, userProfile d = Some (shown_profile trimmed apiBaseUrl (to_object json) now));
}.

Lemma own_later acts a user name d d' : shown d' = shown d -> own acts user name d -> own (acts ++ [a]) user name d'.
Proof.
  intros [= E1 E2 E3 E4 E5] [H1 H2 H3 H4]. split; rewrite ?E1, ?E2, ?E3, ?E4, ?E5.
  - destruct H1; [by left | right; by apply answered_snoc].
  - destruct H2; [by left | right; by apply answered_snoc].
  - destruct H3; [by left | right; by apply answered_snoc].
  - destruct H4 as [| [|]]; [by left | by right; left | right; right; by apply answered_snoc].
Qed.

Lemma fresh_own acts w : fresh w -> own acts (userId (auth w)) (username (auth w)) (app w).
Proof.
  intros (H1 & H2 & H3 & H4). split; [by left.. |]. destruct H4 as [| [_ Hp]]; [by left | right; by left].
Qed.

Lemma own_reply acts a name d d' n json now r :
  own acts (userId a) name d -> requests (run acts) !! n = Some r -> reply_shows a d json now r d' ->
  own (acts ++ [Replies n true json now]) (userId a) name d'.
Proof.
  intros Ho Hr Hs. destruct Hs as [r d' Hd | d' Hd | d' Hd | d' Hd | d' Hd | r id d' Hd | r member d' Hd]; [by eapply own_later | ..];
    destruct (own_later acts (Replies n true json now) (userId a) name d d eq_refl Ho) as [H1 H2 H3 H4];
    injection Hd as E1 E2 E3 E4 E5; split; rewrite ?E1, ?E2, ?E3, ?E4, ?E5; try done.
  - right; right. eapply answered_now; [exact Hr |]. split; [done | by eexists].
  - right. by eapply answered_now; [exact Hr |].
  - right. by eapply answered_now; [exact Hr |].
  - right. eapply answered_now; [exact Hr |]. split; [done |]. intros u Hu. by apply list_elem_of_filter in Hu.
  - by left.
  - destruct H3 as [-> | H3]; [by left | right]. eapply answered_impl; [| exact H3]. intros r' j [-> Hall]. split; [done |].
    intros u [_ Hu]%list_elem_of_filter. by apply Hall.
Qed.

Definition owned (acts : list Act) (w : World) : Prop :=
  signed (Z.of_nat (length acts)) (auth w) /\ (loggedIn (auth w) = false -> fresh w) /\ own acts (userId (auth w)) (username (auth w)) (app w).

(** Nothing of the sign-in changes. *)
Lemma owned_same acts a w w' :
  owned acts w -> auth w' = auth w -> own (acts ++ [a]) (userId (auth w)) (username (auth w)) (app w') ->
  (loggedIn (auth w) = false -> fresh w') -> owned (acts ++ [a]) w'.
Proof.
  intros ([[[? ?] ? ? ? ? ?] Hin] & _ & _) Ha Ho Hf. unfold owned. rewrite Ha. split_and!; [| done | done]. split; [| done].
  split; try done. rewrite length_app. cbn. lia.
Qed.

Lemma fresh_data w w' : data w' = data w -> fresh w -> fresh w'.
Proof. intros [= Ha Hp Hs _ Hc Hu] (H1 & H2 & H3 & H4). unfold fresh. by rewrite Ha, Hp, Hs, Hc, Hu. Qed.

Lemma sign_owned acts c w :
  (Z.of_nat (length acts) < 2 ^ 64 - 1)%Z -> proper_act (SignIn c) w = true -> owned acts w ->
  owned (acts ++ [SignIn c]) (auth_step trimmed toPercentEncoding apiBaseUrl c w).
Proof.
  intros Hb Hp (Hsig & Hf & Ho). pose proof (act_signed _ c w Hsig Hb Hp) as Hn. rewrite <- (auth_step_auth c w) in Hn.
  pose proof (auth_step_cases _ c w Hsig Hp Hf) as Hc. cbv zeta in Hc. generalize dependent (auth_step trimmed toPercentEncoding apiBaseUrl c w).
  intros w' Hn Hc. unfold owned. rewrite length_app, Nat2Z.inj_add. split; [exact Hn |]. destruct Hc as [Hfr | (Hl & Hs & Hid)].
  - split; [done | by apply fresh_own].
  - injection Hid as Hl' Hu Hna. split; [congruence |]. rewrite Hu, Hna. by eapply own_later.
Qed.

Lemma select_owned acts id w : owned acts w -> owned (acts ++ [SelectServer id]) (selectServer toPercentEncoding apiBaseUrl id w).
Proof.
  intros Hw. pose proof Hw as (_ & Hf & Ho). destruct (select_data id w) as [Ha Hd].
  generalize dependent (selectServer toPercentEncoding apiBaseUrl id w). intros w' Ha Hd.
  injection Hd as E1 E2 E3 E4 E5. apply owned_same with w; [done | done | |].
  - destruct (own_later acts (SelectServer id) _ _ _ _ eq_refl Ho) as [H1 H2 H3 H4].
    split; rewrite ?E1, ?E2, ?E3, ?E4, ?E5; try done. by left.
  - intros Hl. destruct (Hf Hl) as (H1 & H2 & H3 & H4). unfold fresh. by rewrite Ha, E1, E2, E4, E5.
Qed.

Lemma reply_owned acts n ok json now w : w = run acts -> owned acts w ->
  owned (acts ++ [Replies n ok json now]) (reply trimmed toPercentEncoding apiBaseUrl n ok json now w).
Proof.
  intros Hrun Hw. pose proof Hw as (_ & Hf & Ho). unfold reply. destruct (requests w !! n) as [r |] eqn:Hr.
  2: { apply owned_same with w; [done | done | by apply (own_later _ _ _ _ (app w)) | done]. }
  set (w0 := with_requests (delete n (requests w)) w). destruct (replied_shows r ok json now w0) as [Ha Hor].
  change (auth w0) with (auth w) in *. change (app w0) with (app w) in *.
  generalize dependent (replied trimmed toPercentEncoding apiBaseUrl r ok json now w0). intros w' Ha Hor.
  apply owned_same with w; [done | exact Ha | |].
  - destruct Hor as [(-> & _ & Hs) | Hs]; [| by eapply own_later]. eapply own_reply; [exact Ho | by rewrite <- Hrun | exact Hs].
  - intros Hl. destruct Hor as [(_ & Hl' & _) | Hs]; [congruence |]. eapply fresh_data, (Hf Hl). unfold data. by rewrite Ha, Hs.
Qed.

Lemma kept_owned acts a w w' : data w' = data w -> owned acts w -> owned (acts ++ [a]) w'.
Proof.
  intros Hd Hw. pose proof Hw as (_ & Hf & Ho). apply owned_same with w; [done | exact (f_equal fst Hd) | | intros Hl; by eapply fresh_data, Hf].
  eapply own_later; [exact (f_equal snd Hd) | exact Ho].
Qed.

Lemma act_owned acts a w :
  w = run acts -> (Z.of_nat (length acts) < 2 ^ 64 - 1)%Z -> proper_act a w = true -> owned acts w -> owned (acts ++ [a]) (act a w).
Proof.
  intros Hrun Hb Hp Hw. destruct (shows a) eqn:Hsh; [| eapply kept_owned, Hw; by apply act_data].
  destruct a; try discriminate Hsh; cbn [AppState.act]; [by apply sign_owned | by apply select_owned | by apply reply_owned].
Qed.

Lemma run_owned acts :
  (Z.of_nat (length acts) < 2 ^ 64 - 1)%Z -> proper acts (new_world kept input output) = true -> owned acts (run acts).
Proof.
  assert (Happ : forall acts a w, proper (acts ++ [a]) w = proper acts w && proper_act a (run_from trimmed toPercentEncoding getenv json_parse signalingUrl apiBaseUrl acts w)).
  { intros acts0. induction acts0 as [| b acts0 IH]; intros a w; cbn; [by rewrite andb_true_r |]. by rewrite IH, andb_assoc. }
  induction acts as [| a acts IH] using rev_ind; intros Hb Hp.
  - split_and!; [split; [apply new_auth_ok | done] | intros _; split_and!; try done; by left | split; by left].
  - rewrite Happ in Hp. apply andb_true_iff in Hp as [Hp Ha]. rewrite length_app, Nat2Z.inj_add in Hb. cbn in Hb.
    unfold AppState.run, run_from in *. rewrite foldl_snoc. apply act_owned; [done | lia | exact Ha |]. apply IH; [lia | done].
Qed.

(** C15 Everyone is shown his own lists: after any run in which a sign-in is asked for
    only while nobody is signed in, whatever replies come late and in whatever
    order, the servers, the channels and the users that are shown are those of a
    reply to a request that was made as the user who is signed in now, for the
    server that is selected now in case of the channels, and never offer himself to
    invite; the profile is his; and while nobody is signed in all are empty. *)
Theorem shown_is_own acts :
  (Z.of_nat (length acts) < 2 ^ 64 - 1)%Z -> proper acts (new_world kept input output) = true ->
  let w := run acts in
  own acts (userId (auth w)) (username (auth w)) (app w)
  /\ (loggedIn (auth w) = false ->
        userProfile (app w) = None /\ servers (app w) = [] /\ channels (app w) = [] /\ users (app w) = []).
Proof.
  intros Hb Hp w. destruct (run_owned acts Hb Hp) as (_ & Hf & Ho). fold w in Hf, Ho. split; [done |]. intros Hl.
  destruct (Hf Hl) as (? & ? & ? & [? | [? _]]); [done | congruence].
Qed.
End Own.
End Data.

Lemma shown_is_own_witness :
  let w := sample_app (sample_start ++ [SignIn CallLogout; Replies 0 true (SignIn.JArray [SignIn.JObject []]) 0]) in
  let v := sample_app sample_start in
  channels (app w) = [] /\ channel_name <$> channels (app v) = ["talk"; "games"]
  /\ exists pre n json now post, sample_start = pre ++ Replies n true json now :: post
      /\ requests (sample_app pre) !! n = Some (ListChannels 7 1) /\ channels (app v) = parse_channel <$> to_array json.
Proof.
  intros w v.
  destruct (shown_is_own id chars (fun _ => None) sample_parse "wss://sfu.example" "https://api.example" None None None
    (sample_start ++ [SignIn CallLogout; Replies 0 true (SignIn.JArray [SignIn.JObject []]) 0])) as [_ Hout]; [by vm_compute.. |].
  destruct (shown_is_own id chars (fun _ => None) sample_parse "wss://sfu.example" "https://api.example" None None None sample_start)
    as [[_ Hch _ _] _]; [by vm_compute.. |].
  split_and!; [apply Hout; by vm_compute | by vm_compute |].
  destruct Hch as [Hno | (pre & n & json & now & post & r & Heq & Hr & -> & Hc)]; [exfalso; by vm_compute in Hno |].
  exists pre, n, json, now, post. split_and!; [exact Heq | exact Hr | exact Hc].
Defined.


(** ** Two lapses *)

(** A peer's name is told before the peer is: the name finds nobody, and the peer is
    shown without a name, which the transport knows. *)
Lemma name_not_shown :
  let w := sample_app sample_call in
  peers (app w) = [mkPeer "p1" "" "" "" None] /\ peer_usernames (client (Socket.transport (wire_of w))) !! "p1" = Some "bob"
  /\ ui_queue (bridge w) = [].
Proof. by vm_compute. Qed.

(** Whether the selected server can be managed changes when the servers arrive, and
    the signal of the property, [selectedServerChanged], is not sent then. *)
Lemma manager_not_told :
  let w := sample_app sample_start in
  let v := sample_app (sample_start ++ [Replies 1 true (SignIn.JArray [SignIn.JObject [("id", SignIn.JInteger 1); ("owner_id", SignIn.JInteger 7)]]) 0]) in
  canManageSelectedServer w = false /\ canManageSelectedServer v = true /\ notified v = notified w ++ [serversChanged].
Proof. by vm_compute. Qed.
