(* ===== verification/AppWatch.v ===== *)
(** * The screens that are shown as watched

    The interface lets a user watch a screen that is shown as shared, in a call, once
    nothing waits to be shown.  The screens that AppState then shows as watched are
    those that the core was asked for: each call of [GoogleWebRtcClient] that makes it
    forget a screen is matched by what AppState does, or by a signal that waits. *)

From S2P Require Import Prelude Floats Text Url Signaling Transport Proxy Socket SignIn Bridge AppState AppConnection.

Local Open Scope list_scope.

(** ** Asked and shown *)

(** What a call leaves of the screens the client watches (ClientScreen). *)
Definition watch_call (s : gset string) (c : MediaCall) : gset string :=
  match c with
  | Bridge.JoinStream p => {[p]} ∪ s
  | Bridge.LeaveStream p | RemovePeer p | PeerStoppedStreaming p | WatchRefused p => s ∖ {[p]}
  | LeaveStreams | DeinitScreen => ∅
  | _ => s
  end.

Definition watched_asked (l : list MediaCall) : gset string := foldl watch_call ∅ l.

(** What a signal leaves of the screens that are shown as watched. *)
Definition watch_event (s : gset string) (e : UiEvent) : gset string :=
  match e with
  | peerLeft id | streamingStopped id | streamWatchRejected id _ => s ∖ {[id]}
  | wsDisconnected => ∅
  | _ => s
  end.

Definition watched_after (s : gset string) (q : list UiEvent) : gset string := foldl watch_event s q.

Definition shown_watched (a : App) : gset string := list_to_set (watchedPeerIds a).

Lemma watched_asked_app l l' : watched_asked (l ++ l') = foldl watch_call (watched_asked l) l'.
Proof. apply foldl_app. Qed.

Lemma watched_after_app s q q' : watched_after s (q ++ q') = watched_after (watched_after s q) q'.
Proof. apply foldl_app. Qed.

Lemma watched_after_remove s id q : watched_after (s ∖ {[id]}) q = watched_after s q ∖ {[id]}.
Proof.
  revert s. induction q as [| e q IH]; intros s; [done |]. cbn. fold (watched_after (watch_event (s ∖ {[id]}) e) q).
  assert (He : watch_event (s ∖ {[id]}) e = watch_event s e ∖ {[id]}) by (destruct e; cbn; clear; set_solver). by rewrite He, IH.
Qed.

Lemma watched_after_none q : watched_after ∅ q = ∅.
Proof. induction q as [| e q IH]; [done |]. cbn. assert (He : watch_event ∅ e = ∅) by (destruct e; cbn; clear; set_solver). by rewrite He. Qed.

Lemma asked_states_watch l (anns : list bool) : watched_asked (l ++ (SignalingState <$> anns)) = watched_asked l.
Proof. rewrite watched_asked_app. generalize (watched_asked l). induction anns as [| c anns IH]; intros s; [done |]. apply IH. Qed.

Lemma watched_after_conn s (anns : list bool) : false ∉ anns -> watched_after s (conn_event <$> anns) = s.
Proof.
  revert s. induction anns as [| c anns IH]; intros s Hf; [done |]. apply not_elem_of_cons in Hf as [Hc Hf]. destruct c; [| done]. by apply IH.
Qed.

(** ** The bridge *)

(** What is shown with [s] and the signals that wait is what was asked. *)
Definition matched (s : gset string) (b : Bridge) : Prop :=
  false ∉ conn_events (ui_queue b) -> watched_after s (ui_queue b) = watched_asked (media b).

Definition forgets (b b' : Bridge) : Prop := watched_asked (media b') ⊆ watched_asked (media b).

Lemma move_matched s r b : matched s b -> matched s (move_wire r b) /\ watched_asked (media (move_wire r b)) = watched_asked (media b).
Proof.
  intros Hm. destruct (move_wire_frame r b) as (_ & Em & Eq & _). rewrite Em, asked_states_watch. split; [| done].
  unfold matched. rewrite Eq, Em, asked_states_watch, conn_events_app, conn_events_map. intros [H1 H2]%not_elem_of_app.
  rewrite watched_after_app, Hm by done. by apply watched_after_conn.
Qed.

(** A signal, and the call that comes with it. *)
Lemma matched_post s e b : is_conn_event e = false -> (forall t, watch_event t e = t) -> matched s b -> matched s (post e b).
Proof.
  intros He Hk Hm. unfold matched, post. cbn. rewrite conn_events_app. assert (Hn : conn_events [e] = []) by (by destruct e).
  rewrite Hn, app_nil_r, watched_after_app. intros Hf. cbn. rewrite Hk. by apply Hm.
Qed.

Lemma matched_tell s c b : (forall t, watch_call t c = t) -> matched s b -> matched s (tell c b) /\ forgets b (tell c b).
Proof.
  intros Hk Hm. unfold matched, forgets, tell. cbn. rewrite watched_asked_app. cbn. rewrite Hk. by split.
Qed.

Lemma matched_both s e c id b :
  is_conn_event e = false -> (forall t, watch_event t e = t ∖ {[id]}) -> (forall t, watch_call t c = t ∖ {[id]}) -> matched s b ->
  matched s (post e (tell c b)) /\ forgets b (post e (tell c b)).
Proof.
  intros He Hk Hc Hm. assert (Hn : conn_events [e] = []) by (by destruct e). split.
  - unfold matched, post, tell. cbn. rewrite conn_events_app, Hn, app_nil_r, watched_after_app, watched_asked_app. intros Hf. cbn. by rewrite Hk, Hc, Hm.
  - unfold forgets, post, tell. cbn. rewrite watched_asked_app. cbn. rewrite Hc. clear. set_solver.
Qed.

Lemma joined_matched s id name b : matched s b -> matched s (on_peer_joined id name b) /\ media (on_peer_joined id name b) = media b.
Proof.
  intros Hm. unfold on_peer_joined, on_peer_identity. destruct (String.eqb name ""); (split; [| done]); repeat apply matched_post; done.
Qed.

Lemma message_matched s m b : matched s b -> matched s (on_message m b) /\ forgets b (on_message m b).
Proof.
  intros Hm. unfold forgets.
  destruct m as [id ps streaming | id name | id | | | | | [id |] | [id |] | | | id reason]; cbn [on_message]; try done;
    try (by apply matched_tell).
  - assert (H1 : let b' := foldl (fun b p => on_peer_joined (peer_id p) (peer_username p) b) b ps in matched s b' /\ media b' = media b).
    { cbv zeta. revert b Hm. induction ps as [| p ps IH]; intros b Hm; [done |]. cbn [foldl].
      destruct (joined_matched s (peer_id p) (peer_username p) b Hm) as [Hj <-]. by apply IH. }
    destruct H1 as [H1 <-]. generalize dependent (foldl (fun b p => on_peer_joined (peer_id p) (peer_username p) b) b ps). clear b Hm.
    induction streaming as [| p l IH]; intros b Hm; [done |]. cbn [foldl]. apply (IH (post (streamingStarted p) b)). by apply matched_post.
  - by destruct (joined_matched s id name b Hm) as [? ->].
  - by apply (matched_both s (peerLeft id) (RemovePeer id) id).
  - split; [by apply matched_post | done].
  - by apply (matched_both s (streamingStopped id) (PeerStoppedStreaming id) id).
  - by apply (matched_both s (streamWatchRejected id (reason_to_string reason)) (WatchRefused id) id).
Qed.

Lemma calls_matched json_parse s cb sk b : matched s b -> matched s (socket_calls json_parse sk cb b) /\ forgets b (socket_calls json_parse sk cb b).
Proof.
  intros Hm. assert (Hno : matched s b /\ forgets b b) by (split; [done | unfold forgets; done]).
  unfold socket_calls. destruct (fires cb _) as [p |]; [| done]. destruct (_ <? _); [| done].
  set (r := mkRun _ _). destruct (move_matched s r b Hm) as [H1 H2]. unfold forgets. destruct cb as [| | | raw]; try by rewrite H2.
  destruct (is_current_socket _ _); [| by rewrite H2]. destruct (parse json_parse raw) as [m |]; [| by rewrite H2].
  rewrite <- H2. by apply message_matched.
Qed.

(** ** The application *)

Section Watch.
Context (trimmed : string -> string) (toPercentEncoding : string -> text) (getenv : text -> option text)
  (json_parse : string -> option json) (signalingUrl apiBaseUrl : string).

Abbreviation act := (act trimmed toPercentEncoding getenv json_parse signalingUrl apiBaseUrl).
Abbreviation run := (run trimmed toPercentEncoding getenv json_parse signalingUrl apiBaseUrl).
Abbreviation join := (joinVoiceChannel toPercentEncoding getenv signalingUrl).

(** A screen is chosen among those shown, in a call, when nothing waits. *)
Definition watch_act (a : Act) (w : World) : bool :=
  match a with
  | JoinStream id => bool_decide (ui_queue (bridge w) = []) && holds id (streamingPeers (app w)) && negb (is_disconnected w)
  | _ => true
  end.

Fixpoint watches (acts : list Act) (w : World) : bool :=
  match acts with [] => true | a :: acts => watch_act a w && watches acts (act a w) end.

Record watch_ok (w : World) : Prop := {
  wo_in : watchedPeerIds (app w) ⊆ streamingPeers (app w);
  wo_off : connectionState (app w) = AppState.Disconnected -> watched_asked (media (bridge w)) = ∅;
  wo_matched : matched (shown_watched (app w)) (bridge w);
  wo_conn : conn_ok w;
}.

(** What the invariant reads. *)
Definition view (a : App) := (connectionState a, streamingPeers a, watchedPeerIds a).

Lemma watch_same w w' :
  view (app w') = view (app w) -> watched_asked (media (bridge w')) = watched_asked (media (bridge w)) ->
  (forall s, matched s (bridge w) -> matched s (bridge w')) -> conn_ok w' -> watch_ok w -> watch_ok w'.
Proof.
  intros [= E1 E2 E3] Ea Em Hc [H1 H2 H3 _]. split; [by rewrite E2, E3 | by rewrite E1, Ea | | done].
  unfold shown_watched. rewrite E3. by apply Em.
Qed.

(** A call that concerns no watched screen. *)
Lemma watch_told c w w' :
  (forall t, watch_call t c = t) -> view (app w') = view (app w) -> bridge w' = tell c (bridge w) -> conn_ok w' -> watch_ok w -> watch_ok w'.
Proof.
  intros Hk Ev Eb Hc Hw. apply (watch_same w); [done | | | done | done]; rewrite Eb.
  - cbn. rewrite watched_asked_app. cbn. apply Hk.
  - intros s Hs. by apply matched_tell.
Qed.

Lemma watch_quiet w w' : view (app w') = view (app w) -> bridge w' = bridge w -> conn_ok w' -> watch_ok w -> watch_ok w'.
Proof. intros Ev Eb Hc Hw. apply (watch_same w); rewrite ?Eb; done. Qed.

(** Nothing is watched. *)
Lemma watch_none w : watchedPeerIds (app w) = [] -> watched_asked (media (bridge w)) = ∅ -> conn_ok w -> watch_ok w.
Proof.
  intros E1 E2 Hc. split; [rewrite E1; apply list_subseteq_nil | done | | done].
  unfold matched, shown_watched. rewrite E1, E2. intros _. apply watched_after_none.
Qed.

Lemma left_watch b : watched_asked (media (left_bridge b)) = ∅.
Proof.
  unfold left_bridge, disconnect. destruct (move_wire_frame (mkRun (Socket.disconnect (Socket.transport (wire (deinitScreenSession (audioStop b)))))
    (phase (wire (deinitScreenSession (audioStop b))))) (deinitScreenSession (audioStop b))) as (_ & -> & _).
  rewrite asked_states_watch. unfold deinitScreenSession, tell. cbn [media]. by rewrite watched_asked_app.
Qed.

Lemma leave_watch w : watch_ok w -> watch_ok (leaveVoiceChannel w).
Proof.
  intros Hw. pose proof (leave_conn_ok w (proj1 (wo_conn w Hw))) as Hc. destruct (leave_world w) as (Eb & _ & _ & _ & Ew & _).
  apply watch_none; [done | rewrite Eb; apply left_watch | done].
Qed.

Lemma joined_matched_bridge s created channel a b :
  matched s b -> matched s (joined_bridge toPercentEncoding getenv signalingUrl created channel a b).
Proof.
  intros Hm. unfold joined_bridge, connect. set (r := mkRun _ _).
  destruct (matched_tell s InitScreen b (fun _ => eq_refl) Hm) as [Hi _]. apply (move_matched s r (initScreenSession b) Hi).
Qed.

Lemma join_watch channel created w : watch_ok w -> watch_ok (join channel created w).
Proof.
  intros Hw. pose proof (join_conn_ok toPercentEncoding getenv signalingUrl channel created w (wo_conn w Hw)) as Hc. revert Hc.
  unfold joinVoiceChannel. destruct (existsb _ _); [| intros Hc; by eapply watch_quiet, Hw].
  set (w0 := if is_disconnected w then w else leaveVoiceChannel w).
  assert (H0 : watch_ok w0) by (unfold w0; destruct (is_disconnected w); [done | by apply leave_watch]). clearbody w0. clear Hw w.
  intros Hc. destruct w0 as [au ap br rq sn nt]. destruct H0 as [H1 _ H3 _]. split; [exact H1 | done | | exact Hc].
  change (matched (shown_watched ap) (joined_bridge toPercentEncoding getenv signalingUrl created channel au br)). by apply joined_matched_bridge.
Qed.

Lemma select_watch id w : watch_ok w -> watch_ok (selectServer toPercentEncoding apiBaseUrl id w).
Proof.
  intros Hw. unfold selectServer. set (w1 := if _ && _ then _ else _).
  assert (H1 : watch_ok w1) by (unfold w1; destruct (_ && _); [by apply leave_watch | done]). clearbody w1.
  unfold reloadChannels. destruct (_ <? _)%Z; by eapply watch_quiet, H1; [.. | eapply conn_core, H1].
Qed.

(** *** Signals *)

Lemma remove_set id l : list_to_set (remove_all id l) =@{gset string} list_to_set l ∖ {[id]}.
Proof.
  apply set_eq. intros x. unfold remove_all. rewrite elem_of_difference, !elem_of_list_to_set, elem_of_singleton, list_elem_of_filter. tauto.
Qed.

Lemma holds_in id l : holds id l = true <-> id ∈ l.
Proof. apply bool_decide_eq_true. Qed.

Lemma remove_all_absent id l : holds id l = false -> list_to_set l ∖ {[id]} =@{gset string} list_to_set l.
Proof.
  intros Hn. apply bool_decide_eq_false in Hn. apply set_eq. intros x.
  rewrite elem_of_difference, elem_of_list_to_set, elem_of_singleton. split; [tauto |]. intros Hx. split; [done |]. by intros ->.
Qed.

Lemma remove_subset id l l' : l ⊆ l' -> remove_all id l ⊆ remove_all id l'.
Proof. intros Hs x. unfold remove_all. rewrite !list_elem_of_filter. intros [? ?]. split; [done | by apply Hs]. Qed.

Lemma stop_watching_shown id w :
  let w' := stop_watching id w in
  shown_watched (app w') = shown_watched (app w) ∖ {[id]} /\ streamingPeers (app w') = streamingPeers (app w)
  /\ connectionState (app w') = connectionState (app w) /\ bridge w' = bridge w
  /\ watchedPeerIds (app w') ⊆ watchedPeerIds (app w) /\ id ∉ watchedPeerIds (app w').
Proof.
  unfold stop_watching, shown_watched. destruct (holds id (watchedPeerIds (app w))) eqn:Hh; cbv zeta.
  - cbn. rewrite remove_set. split_and!; try done; unfold remove_all.
    + intros x [_ Hx]%list_elem_of_filter. done.
    + rewrite list_elem_of_filter. tauto.
  - rewrite remove_all_absent by done. split_and!; try done. by apply bool_decide_eq_false in Hh.
Qed.

(** A signal after which a screen is neither shared nor watched, or only not watched. *)
Lemma watch_removed e id q w w' :
  ui_queue (bridge w) = e :: q -> is_conn_event e = false -> (forall t, watch_event t e = t ∖ {[id]}) -> watch_ok w -> conn_ok w' ->
  shown_watched (app w') = shown_watched (app w) ∖ {[id]} -> connectionState (app w') = connectionState (app w) ->
  bridge w' = with_queue q (bridge w) -> watchedPeerIds (app w') ⊆ streamingPeers (app w') -> watch_ok w'.
Proof.
  intros Hq He Hk [H1 H2 H3 _] Hc Es Est Eb Hsub. split; [done | by rewrite Est, Eb | | done].
  unfold matched in *. rewrite Es, Eb, Hq in *. cbn [ui_queue with_queue media]. intros Hf. rewrite <- H3.
  - cbn [watched_after foldl]. unfold watched_after. cbn [foldl]. by rewrite Hk.
  - by destruct e.
Qed.

Lemma watch_kept e q w w' :
  ui_queue (bridge w) = e :: q -> is_conn_event e = false -> (forall t, watch_event t e = t) -> watch_ok w -> conn_ok w' ->
  watchedPeerIds (app w') = watchedPeerIds (app w) -> connectionState (app w') = connectionState (app w) ->
  bridge w' = with_queue q (bridge w) -> streamingPeers (app w) ⊆ streamingPeers (app w') -> watch_ok w'.
Proof.
  intros Hq He Hk [H1 H2 H3 _] Hc Es Est Eb Hsub. split; [rewrite Es; by etransitivity | by rewrite Est, Eb | | done].
  unfold matched, shown_watched in *. rewrite Es, Eb, Hq in *. cbn [ui_queue with_queue media]. intros Hf. rewrite <- H3.
  - unfold watched_after. cbn [foldl]. by rewrite Hk.
  - by destruct e.
Qed.

(** Neither shared nor watched. *)
Lemma both_stopped e id q w w0 (w' := stop_watching id (stop_streaming id w0)) :
  ui_queue (bridge w) = e :: q -> is_conn_event e = false -> (forall t, watch_event t e = t ∖ {[id]}) -> watch_ok w ->
  view (app w0) = view (app w) -> bridge w0 = with_queue q (bridge w) -> conn_ok w' -> watch_ok w'.
Proof.
  intros Hq He Hk Hw [= V1 V2 V3] Eb. unfold w'. set (w2 := stop_streaming id w0). destruct (stop_watching_shown id w2) as (S1 & S2 & S3 & S4 & S5 & S6).
  generalize dependent (stop_watching id w2). intros w3 S1 S2 S3 S4 S5 S6 Hc.
  assert (Hw2 : shown_watched (app w2) = shown_watched (app w) /\ connectionState (app w2) = connectionState (app w)
    /\ bridge w2 = with_queue q (bridge w) /\ watchedPeerIds (app w2) = watchedPeerIds (app w)
    /\ forall x, x ∈ streamingPeers (app w) -> x <> id -> x ∈ streamingPeers (app w2)).
  { unfold w2, stop_streaming, shown_watched. rewrite <- V1, <- V2, <- V3, <- Eb. destruct (holds _ _); split_and!; try done.
    cbn. intros x Hx Hne. unfold remove_all. by apply list_elem_of_filter. }
  destruct Hw2 as (T1 & T2 & T3 & T4 & T5).
  eapply (watch_removed _ id q w); try done; [by rewrite S1, T1 | by rewrite S3 | by rewrite S4 |].
  intros x Hx. rewrite S2. apply T5; [apply (wo_in w Hw); rewrite <- T4; by apply S5 | by intros ->].
Qed.

Lemma event_watch e q w (w' := ui_event toPercentEncoding apiBaseUrl e (on_bridge (with_queue q) w)) :
  ui_queue (bridge w) = e :: q -> is_conn_event e = false -> watch_ok w -> conn_ok w' -> watch_ok w'.
Proof.
  intros Hq He Hw. pose proof (wo_in w Hw) as Hin. unfold w'. destruct e as [| | id | id | id name | id | id | id reason | id]; try done; cbn [ui_event]; intros Hc.
  - by eapply (watch_kept _ q w).
  - revert Hc. unfold peer_left. intros Hc. by eapply (both_stopped _ id q w).
  - eapply (watch_kept _ q w); try done; unfold peer_identity; by destruct (existsb _ _).
  - revert Hc. unfold streaming_started. destruct (holds _ _); intros Hc; [by eapply (watch_kept _ q w) |].
    eapply (watch_kept _ q w); try done. intros x Hx. cbn. apply elem_of_app. by left.
  - revert Hc. unfold streaming_stopped. destruct (holds _ _) eqn:Hh; intros Hc.
    + by eapply (both_stopped _ id q w).
    + eapply (watch_removed _ id q w); try done. symmetry. apply remove_all_absent. apply bool_decide_eq_false. apply bool_decide_eq_false in Hh.
      intros Hx. by apply Hh, Hin.
  - revert Hc. unfold watch_rejected. set (w1 := on_bridge (with_queue q) w). destruct (stop_watching_shown id w1) as (S1 & S2 & S3 & S4 & S5 & S6).
    generalize dependent (stop_watching id w1). intros w3 S1 S2 S3 S4 S5 S6 Hc.
    eapply (watch_removed _ id q w); try done. intros x Hx. cbn. rewrite S2. by apply Hin, S5.
  - by eapply (watch_kept _ q w).
Qed.

Lemma up_watch w q : ui_queue (bridge w) = wsConnected :: q -> watch_ok w -> watch_ok (ws_connected_slot (on_bridge (with_queue q) w)).
Proof.
  intros Hq Hw. pose proof (slot_up_ok w q Hq (wo_conn w Hw)) as Hc. pose proof (up_linked w q Hq (wo_conn w Hw)) as Hl. destruct Hw as [H1 H2 H3 _].
  revert Hc. unfold ws_connected_slot. destruct (_ || _); intros Hc.
  - destruct (linked_disconnect _ _ _ Hl) as [Hd Hdown]. destruct (linked_true true _ _ Hd Hdown) as [_ Hf].
    split; [done | | by intros ? | done]. cbn [app bridge on_bridge]. intros Hs. unfold disconnect.
    destruct (move_wire_frame (mkRun (Socket.disconnect (Socket.transport (wire (with_queue q (bridge w)))))
      (phase (wire (with_queue q (bridge w))))) (with_queue q (bridge w))) as (_ & -> & _). rewrite asked_states_watch. by apply H2.
  - split; [done | done | | done]. unfold matched in *. rewrite Hq in H3. intros Hf. apply H3. cbn. by apply not_elem_of_cons.
Qed.

Lemma down_watch w q : ui_queue (bridge w) = wsDisconnected :: q -> watch_ok w -> watch_ok (ws_disconnected_slot (on_bridge (with_queue q) w)).
Proof.
  intros Hq Hw. pose proof (slot_down_ok w q Hq (wo_conn w Hw)) as Hc. set (w0 := on_bridge (with_queue q) w) in *.
  destruct (down_world w0) as (Eb & _ & _ & _ & Ew). apply watch_none; [done | | done]. rewrite Eb. destruct (is_disconnected w0) eqn:Hd.
  - apply bool_decide_eq_true in Hd. exact (wo_off w Hw Hd).
  - unfold deinitScreenSession, tell. cbn [media]. by rewrite watched_asked_app.
Qed.

Lemma run_audio_watch answer b :
  watched_asked (media (run_audio answer b)) = watched_asked (media b) /\ ui_queue (run_audio answer b) = ui_queue b.
Proof.
  unfold run_audio. destruct (m_audioPool b) as [| [g []|] rest]; [done | | | |].
  - unfold choose_output, choose_input. destruct (answer 0), (answer 1); cbn; by rewrite ?watched_asked_app.
  - by destruct (_ =? _)%Z.
  - cbn. by rewrite watched_asked_app.
  - cbn. by rewrite watched_asked_app.
Qed.

Lemma joinStream_watch id w : watch_act (JoinStream id) w = true -> watch_ok w -> watch_ok (joinStream id w).
Proof.
  intros Ha Hw. pose proof (conn_core _ _ (joinStream_core id w) (wo_conn w Hw)) as Hc. revert Hc. destruct Hw as [H1 H2 H3 _].
  cbn [watch_act] in Ha. apply andb_true_iff in Ha as [Ha Hd]. apply andb_true_iff in Ha as [Hq%bool_decide_eq_true Hs%holds_in].
  apply negb_true_iff, bool_decide_eq_false in Hd.
  unfold joinStream. destruct (holds _ _) eqn:Hh; intros Hc; [by split |]. split; [| done | | done]; cbn [app upd on_bridge emit bridge].
  - cbn. intros x [Hx | ->%list_elem_of_singleton]%elem_of_app; [by apply H1 | done].
  - unfold matched, shown_watched in *. cbn. rewrite Hq in *. intros Hf. specialize (H3 Hf). unfold watched_after in *. cbn in *.
    rewrite watched_asked_app, list_to_set_app_L, H3. cbn. clear. set_solver.
Qed.

Lemma leaveStream_watch id w : watch_ok w -> watch_ok (leaveStream id w).
Proof.
  intros Hw. pose proof (conn_core _ _ (leaveStream_core id w) (wo_conn w Hw)) as Hc. revert Hc. destruct Hw as [H1 H2 H3 _].
  unfold leaveStream. destruct (holds _ _) eqn:Hh; intros Hc; [| by split]. split; [| | | done].
  - cbn. intros x [_ Hx]%list_elem_of_filter. by apply H1.
  - cbn. intros Hs. rewrite watched_asked_app, (H2 Hs). cbn. clear. set_solver.
  - unfold matched, shown_watched in *. cbn. rewrite remove_set, watched_after_remove, watched_asked_app. intros Hf. by rewrite H3.
Qed.

Lemma signal_watch s w : watch_ok w -> watch_ok (auth_signal toPercentEncoding apiBaseUrl w s).
Proof.
  intros Hw. destruct s; try done; cbn [auth_signal]; [| by eapply watch_quiet, Hw; [.. | eapply conn_core, Hw]].
  unfold auth_changed. destruct (loggedIn _).
  - pose proof (load_core toPercentEncoding apiBaseUrl w) as Hcore. eapply watch_quiet, Hw; [| | by eapply conn_core, Hw];
      unfold loadInitialData, fetchCurrentUserProfile; cbn; by destruct (_ <=? _)%Z.
  - pose proof (leave_watch w Hw) as [_ _ _ Hc]. pose proof (leave_world w) as (Eb & Es & Ep & _). generalize dependent (leaveVoiceChannel w).
    intros w1 Hc Eb Es Ep. apply watch_none; [done | cbn [bridge upd emit]; rewrite Eb; apply left_watch |].
    eapply conn_core, Hc. unfold core, shown_ids. cbn. by rewrite Ep.
Qed.

Lemma act_watch_ok a w : watch_act a w = true -> watch_ok w -> watch_ok (act a w).
Proof.
  intros Ha Hw. pose proof (act_conn_ok trimmed toPercentEncoding getenv json_parse signalingUrl apiBaseUrl a w (wo_conn w Hw)) as Hc.
  destruct a; cbn [AppState.act] in *;
    try (eapply watch_quiet, Hw; done); try (eapply watch_told, Hw; [| | reflexivity | exact Hc]; done).
  - revert Hc. unfold auth_step. destruct (auth_act _ _ _) as [au signals]. intros _.
    assert (H0 : watch_ok (with_auth au w)) by (eapply watch_quiet, Hw; [.. | eapply conn_core, Hw]; done). revert H0. generalize (with_auth au w). clear.
    induction signals as [| s signals IH]; intros w Hw; [done |]. cbn. by apply IH, signal_watch.
  - by apply select_watch.
  - by apply join_watch.
  - by apply leave_watch.
  - revert Hc. unfold startSharing. destruct started; intros Hc;
      (eapply watch_told, Hw; [| | reflexivity | exact Hc]; done).
  - by apply joinStream_watch.
  - by apply leaveStream_watch.
  - eapply watch_quiet, Hw; [| | exact Hc]; unfold createChannel; by destruct (_ <? _)%Z.
  - eapply watch_quiet, Hw; [| | exact Hc]; unfold inviteUser; by destruct (canManageSelectedServer _).
  - revert Hc. unfold reply. destruct (requests w !! n) as [r |]; [| done]. set (w0 := with_requests (delete n (requests w)) w). intros Hc.
    assert (H0 : watch_ok w0) by (eapply watch_quiet, Hw; [.. | eapply conn_core, Hw]; done).
    destruct r; unfold_replied; try (eapply watch_quiet, H0; [| | exact Hc]; unfold reloadChannels, fetchCurrentUserProfile;
      repeat match goal with |- context [if ?c then _ else _] => destruct c end; done).
    revert Hc. destruct (negb _); [done |]. destruct ok; intros Hc; [| by eapply watch_quiet, H0].
    apply select_watch. by eapply watch_quiet, H0; [.. | eapply conn_core, H0].
  - revert Hc. unfold deliver. destruct (ui_queue (bridge w)) as [| e q] eqn:Hq; [done |]. destruct (is_conn_event e) eqn:He.
    + destruct e; try done; intros _; [by apply up_watch | by apply down_watch].
    + intros Hc. by apply event_watch.
  - eapply watch_quiet, Hw; [| | exact Hc]; unfold pollConnectionStats; by destruct (statsTimer _).
  - destruct Hw as [H1 H2 H3 _]. destruct (calls_matched json_parse (shown_watched (app w)) cb s (bridge w) H3) as [Hm Hf].
    split; [done | | done | done]. intros Hs. specialize (H2 Hs). unfold forgets in Hf. rewrite H2 in Hf. revert Hf. clear. cbn. set_solver.
  - destruct (run_audio_watch answer (bridge w)) as [E1 E2]. eapply watch_same, Hw; [done | exact E1 | | exact Hc].
    intros s. unfold matched. cbn. by rewrite E1, E2.
  - eapply watch_same, Hw; [done | done | | exact Hc]. intros s Hm. by apply (matched_post s (frameRemoved id)).
Qed.

(** C21 What is shown as watched is watched: in a run in which a screen is chosen among
    those that are shown, in a call, when nothing waits to be shown, and whatever
    the server, the connection and the rest of the interface do, once no signal
    waits the screens that are shown as watched are those that the core was last
    asked to watch, all of them are shown as shared, and out of a call there are
    none. *)
Theorem watched_shown kept input output acts :
  watches acts (new_world kept input output) = true ->
  let w := run kept input output acts in
  (ui_queue (bridge w) = [] -> shown_watched (app w) = watched_asked (media (bridge w)))
  /\ watchedPeerIds (app w) ⊆ streamingPeers (app w)
  /\ (connectionState (app w) = AppState.Disconnected -> watched_asked (media (bridge w)) = ∅).
Proof.
  intros Hall w. assert (Hw : watch_ok w).
  { unfold w, AppState.run, run_from. revert Hall.
    assert (H0 : watch_ok (new_world kept input output)).
    { apply watch_none; [done.. |]. apply (run_conn_ok trimmed toPercentEncoding getenv json_parse signalingUrl apiBaseUrl kept input output []). }
    revert H0. generalize (new_world kept input output). clear w. induction acts as [| a acts IH]; intros w Hw Hall; [done |].
    apply andb_true_iff in Hall as [Ha Hall]. cbn [foldl]. by apply IH; [apply act_watch_ok |]. }
  destruct Hw as [H1 H2 H3 _]. split_and!; [| done | done]. intros Hq. unfold matched in H3. rewrite Hq in H3. apply H3. apply not_elem_of_nil.
Qed.
End Watch.

(** A screen that is watched in a call, and the call ends. *)
Definition sample_watch : list Act :=
  sample_call ++ [SocketCalls 0 (OnMessage "streams"); Delivers; JoinStream "p1"].

Lemma watched_shown_witness :
  let w := sample_app sample_watch in
  let v := sample_app (sample_watch ++ [LeaveVoice; Delivers]) in
  watchedPeerIds (app w) = ["p1"] /\ watched_asked (media (bridge w)) = {["p1"]}
  /\ watchedPeerIds (app v) = [] /\ watched_asked (media (bridge v)) = ∅.
Proof.
  intros w v.
  destruct (watched_shown id chars (fun _ => None) sample_parse "wss://sfu.example" "https://api.example" None None None sample_watch)
    as [Hw _]; [by vm_compute |].
  destruct (watched_shown id chars (fun _ => None) sample_parse "wss://sfu.example" "https://api.example" None None None
    (sample_watch ++ [LeaveVoice; Delivers])) as (_ & _ & Hv); [by vm_compute |].
  split_and!; [by vm_compute | | by vm_compute | apply Hv; by vm_compute].
  assert (Hs : shown_watched (app w) = {["p1"]}) by by vm_compute. rewrite <- Hs. symmetry. apply Hw. by vm_compute.
Defined.

(** A choice that a waiting refusal overtakes: the screen is watched and not shown as
    watched, so it cannot be left. *)
Lemma choice_overtaken :
  let w := sample_app (sample_watch ++ [SocketCalls 0 (OnMessage "refused"); LeaveStream "p1"; JoinStream "p1"; Delivers]) in
  watchedPeerIds (app w) = [] /\ watched_asked (media (bridge w)) = {["p1"]} /\ ui_queue (bridge w) = []
  /\ watched_asked (media (bridge (act id chars (fun _ => None) sample_parse "wss://sfu.example" "https://api.example" (LeaveStream "p1") w))) = {["p1"]}.
Proof. by vm_compute. Qed.
