(* ===== verification/Calls.v ===== *)
(** * Computations that call a library

    A computation over the log of the calls it made and of what they answered.  The
    answers are a function of the log, so a library may answer as it likes, and what a
    computation did is what it logged. *)

From S2P Require Import Prelude.

Local Open Scope list_scope.

Section Calls.
Context {C : Type}.

Abbreviation Log := (list (C * Z)) (only parsing).

Definition M (A : Type) : Type := Log -> A * Log.

#[export] Instance M_ret : MRet M := fun _ a log => (a, log).
#[export] Instance M_bind : MBind M := fun _ _ k m log => let '(a, log) := m log in k a log.

Definition call (answer : Log -> C -> Z) (c : C) : M Z := fun log => let a := answer log c in (a, log ++ [(c, a)]).
End Calls.
Arguments M : clear implicits.
