(* ===== verification/AudioDevices.v ===== *)
(** * Audio devices (core/src/webrtc/google_webrtc_audio_devices.cpp, google_webrtc_runtime.cpp)

    The devices that the user may choose from, and the change of device under a
    running stream.  The library's audio device module answers calls as it likes
    ([Calls]); where a theorem says which devices it has, they are those of a table
    while one listing is made ([shows]), and may be others at the next.  A device
    without a GUID has an id that counts the devices of its name before it, so it does
    not survive that one of them is unplugged ([Sample.another_device_chosen]). *)

From S2P Require Import Prelude Text Calls.

Local Open Scope Z_scope.
Local Open Scope list_scope.

(** ** The audio device module *)

(** The methods that are called; each that exists for recording and for playout has the
    direction as its argument. *)
Inductive Call :=
  | Initialized
  | Init
  | Devices (recording : bool)
  | DeviceName (recording : bool) (index : Z)
  | Active (recording : bool)
  | InitEndpoint (recording : bool)
  | InitStream (recording : bool)
  | StartStream (recording : bool)
  | StopStream (recording : bool)
  | SetDevice (recording : bool) (index : Z).

Abbreviation Log := (list (Call * Z)) (only parsing).

(** [answer] is what a call returns ([true] as a value that is not 0), [device_name]
    what [DeviceName] writes into the buffers of the name and of the GUID. *)
Record AudioDeviceModule := mkAdm {
  answer : Log -> Call -> Z;
  device_name : Log -> bool -> Z -> text * text;
}.

(** A string that ends at its first zero. *)
Definition c_str (buffer : text) : text := take_while (fun c => negb (Z.eqb (code c) 0)) buffer.

(** ** Listing devices *)

Record AudioDeviceInfo := mkInfo { i_id : text; i_name : text }.
Record EnumeratedAudioDevice := mkDevice { info : AudioDeviceInfo; d_index : Z }.

Definition kDefaultAudioDeviceId : text := chars "default".

Definition make_audio_device_id (guid name : text) (name_ordinal : Z) : text :=
  if decide (guid <> []) then chars "guid:" ++ guid
  else chars "name:" ++ name ++ chars "#" ++ to_string name_ordinal.

(** The name that is shown for a device whose name may be empty. *)
Definition display_name (index : Z) (name : text) : text :=
  if decide (name = []) then (if index =? 0 then chars "System default" else chars "Unnamed audio device") else name.

Definition default_device (display : text) : EnumeratedAudioDevice :=
  mkDevice (mkInfo kDefaultAudioDeviceId
    (if decide (display = chars "System default") then display else chars "System default (" ++ display ++ chars ")")) 0.

Section Operations.
Context (adm : AudioDeviceModule).

Abbreviation adm_call := (call (answer adm)).

Definition name_call (recording : bool) (index : Z) : M Call (Z * text * text) := fun log =>
  let '(name, guid) := device_name adm log recording index in
  let '(error, log) := adm_call (DeviceName recording index) log in ((error, c_str name, c_str guid), log).

Definition ensure_initialized : M Call bool :=
  i ← adm_call Initialized;
  if i =? 0 then (r ← adm_call Init; mret (r =? 0)) else mret true.

(** The devices of a direction, and how often each name was seen. *)
Fixpoint enumerate_loop (recording : bool) (indices : list Z) (ordinals : gmap text Z) (result : list EnumeratedAudioDevice)
  : M Call (list EnumeratedAudioDevice) :=
  match indices with
  | [] => mret result
  | index :: indices =>
    '(error, name, guid) ← name_call recording (u16 index);
    if negb (error =? 0) then enumerate_loop recording indices ordinals result
    else
      let display := display_name index name in
      if index =? 0 then enumerate_loop recording indices ordinals (result ++ [default_device display])
      else
        let ordinal := default 0 (ordinals !! display) in
        enumerate_loop recording indices (<[display := ordinal + 1]> ordinals)
          (result ++ [mkDevice (mkInfo (make_audio_device_id guid display ordinal) display) (u16 index)])
  end.

Definition enumerate_audio_devices (recording : bool) : M Call (list EnumeratedAudioDevice) :=
  n ← adm_call (Devices recording);
  let count := s16 n in
  if count <=? 0 then mret [] else enumerate_loop recording (seqZ 0 count) ∅ [].

Definition list_audio_devices (recording : bool) : M Call (list AudioDeviceInfo) :=
  ready ← ensure_initialized;
  if negb ready then mret [] else
  enumerated ← enumerate_audio_devices recording;
  mret (info <$> enumerated).

(** ** Changing the device *)

Definition initialize_endpoint (recording : bool) : M Call bool :=
  e ← adm_call (InitEndpoint recording); mret (e =? 0).

Definition start_stream (recording : bool) : M Call bool :=
  init_error ← adm_call (InitStream recording);
  if init_error =? 0 then (e ← adm_call (StartStream recording); mret (e =? 0)) else mret false.

Definition restore_default (recording was_active : bool) : M Call bool :=
  _ ← adm_call (StopStream recording);
  select_default ← adm_call (SetDevice recording 0);
  if negb (select_default =? 0) then mret false else
  ready ← initialize_endpoint recording;
  if negb ready then mret false
  else if negb was_active then mret true else start_stream recording.

(** The change itself, once the stream does not run. *)
Definition change_device (recording was_active : bool) (index : Z) : M Call bool :=
  select_error ← adm_call (SetDevice recording index);
  if negb (select_error =? 0) then
    (if was_active then (_ ← start_stream recording; mret false) else mret false)
  else
    ready ← initialize_endpoint recording;
    if negb ready then (_ ← restore_default recording was_active; mret false)
    else if negb was_active then mret true
    else
      started ← start_stream recording;
      if started : bool then mret true else (_ ← restore_default recording was_active; mret false).

Definition restart_on_device (recording : bool) (index : Z) : M Call bool :=
  a ← adm_call (Active recording);
  let was_active := negb (a =? 0) in
  if was_active then
    stop_error ← adm_call (StopStream recording);
    if negb (stop_error =? 0) then mret false else change_device recording was_active index
  else change_device recording was_active index.

(** [std::find_if] over the enumerated devices *)
Definition find_device (id : text) (devices : list EnumeratedAudioDevice) : option EnumeratedAudioDevice :=
  List.find (fun d => bool_decide (i_id (info d) = id)) devices.

Definition select_audio_device (recording : bool) (id : text) : M Call bool :=
  if decide (id = []) then mret false else
  ready ← ensure_initialized;
  if negb ready then mret false else
  devices ← enumerate_audio_devices recording;
  match find_device id devices with
  | Some selected => restart_on_device recording (d_index selected)
  | None => mret false
  end.

(** ** The runtime's part *)

(** What of a runtime decides whether devices may be chosen: its module, the source of
    injected samples that stands in for one, and its thread. *)
Record Runtime := mkRuntime { audio_device : bool; injected_pcm_source : bool; worker_thread : bool }.

Definition audio_devices (r : Runtime) (recording : bool) : M Call (list AudioDeviceInfo) :=
  if negb (audio_device r) || injected_pcm_source r || negb (worker_thread r) then mret []
  else list_audio_devices recording.

Definition set_audio_device (r : Runtime) (recording : bool) (id : text) : M Call bool :=
  if negb (audio_device r) || injected_pcm_source r || negb (worker_thread r) || bool_decide (id = []) then mret false
  else select_audio_device recording id.
End Operations.

(** ** What a log did *)

(** Whether the stream of a direction runs, and the device it would run on. *)
Definition stream_after (recording running : bool) (e : Call * Z) : bool :=
  match e with
  | (StartStream d, a) => if Bool.eqb d recording && (a =? 0) then true else running
  | (StopStream d, a) => if Bool.eqb d recording && (a =? 0) then false else running
  | _ => running
  end.
Definition device_after (recording : bool) (device : Z) (e : Call * Z) : Z :=
  match e with
  | (SetDevice d index, a) => if Bool.eqb d recording && (a =? 0) then index else device
  | _ => device
  end.

Definition running (recording : bool) (log : Log) : bool := foldl (stream_after recording) false log.
Definition in_use (recording : bool) (log : Log) : Z := foldl (device_after recording) 0 log.

(** The device is only set while the stream does not run. *)
Fixpoint set_when_stopped (recording running : bool) (calls : Log) : bool :=
  match calls with
  | [] => true
  | e :: calls =>
    (match e with (SetDevice _ _, _) => negb running | _ => true end)
    && set_when_stopped recording (stream_after recording running e) calls
  end.

(** The calls about one direction, and those about neither. *)
Definition concerns (recording : bool) (c : Call) : bool :=
  match c with
  | Initialized | Init => true
  | Devices d | DeviceName d _ | Active d | InitEndpoint d | InitStream d | StartStream d | StopStream d | SetDevice d _ =>
    Bool.eqb d recording
  end.

(** The default device was tried. *)
Definition default_tried (calls : Log) : bool :=
  existsb (fun e => match e.1 with SetDevice _ index => index =? 0 | _ => false end) calls.

(** Bringing the stream back up was refused as well. *)
Definition gave_up (calls : Log) : bool :=
  match last calls with
  | Some (SetDevice _ index, a) => (index =? 0) && negb (a =? 0)
  | Some (InitEndpoint _, a) | Some (InitStream _, a) | Some (StartStream _, a) => negb (a =? 0)
  | _ => false
  end.

(** The calls that only ask. *)
Definition asks (c : Call) : bool :=
  match c with Initialized | Init | Devices _ | DeviceName _ _ => true | _ => false end.

Lemma running_app recording l calls : running recording (l ++ calls) = foldl (stream_after recording) (running recording l) calls.
Proof. apply foldl_app. Qed.
Lemma in_use_app recording l calls : in_use recording (l ++ calls) = foldl (device_after recording) (in_use recording l) calls.
Proof. apply foldl_app. Qed.

(** What asks changes nothing. *)
Definition asking (recording : bool) (calls : Log) : Prop := Forall (fun e => asks e.1 = true /\ concerns recording e.1 = true) calls.

Lemma asking_nil recording : asking recording [].
Proof. constructor. Qed.
Lemma asking_app recording l l' : asking recording l -> asking recording l' -> asking recording (l ++ l').
Proof. intros. by apply Forall_app. Qed.

Lemma asking_after recording calls : asking recording calls ->
  forall r d, foldl (stream_after recording) r calls = r /\ foldl (device_after recording) d calls = d.
Proof.
  intros Hc. induction Hc as [| [c a] calls [Ha _] _ IH]; intros r d; [done |]. cbn [foldl].
  destruct c; try discriminate Ha; apply IH.
Qed.

Lemma asking_stopped recording calls rest : asking recording calls ->
  forall r, set_when_stopped recording r (calls ++ rest) = set_when_stopped recording r rest.
Proof.
  intros Hc. induction Hc as [| [c a] calls [Ha _] _ IH]; intros r; [done |]. cbn [app set_when_stopped].
  destruct c; try discriminate Ha; apply IH.
Qed.

(** Calls of the module, as the log they leave. *)
Section Calls.
Context (adm : AudioDeviceModule) (recording : bool).

Lemma ensure_initialized_asks log b log' : ensure_initialized adm log = (b, log') ->
  exists calls, log' = log ++ calls /\ asking recording calls.
Proof.
  unfold ensure_initialized, call, mbind, M_bind, mret, M_ret. destruct (_ =? 0); intros [= <- <-].
  - rewrite <- app_assoc. eexists. split; [done |]. by repeat constructor.
  - eexists. split; [done |]. by repeat constructor.
Qed.

Lemma enumerate_loop_asks indices : forall ordinals result log devices log',
  enumerate_loop adm recording indices ordinals result log = (devices, log') ->
  exists calls, log' = log ++ calls /\ asking recording calls.
Proof.
  induction indices as [| i indices IH]; intros ordinals result log devices log' H.
  - injection H as <- <-. exists []. rewrite app_nil_r. split; [done | apply asking_nil].
  - cbn [enumerate_loop] in H. unfold mbind, M_bind, name_call, call in H.
    destruct (device_name adm log recording (u16 i)) as [name guid].
    destruct (negb _); [| destruct (i =? 0)]; apply IH in H as (calls & -> & Hc); rewrite <- app_assoc;
      (eexists; split; [done |]; constructor; [split; [done | apply Bool.eqb_reflx] | done]).
Qed.

Lemma enumerate_asks log devices log' : enumerate_audio_devices adm recording log = (devices, log') ->
  exists calls, log' = log ++ calls /\ asking recording calls.
Proof.
  unfold enumerate_audio_devices, call, mbind, M_bind. destruct (_ <=? 0).
  - intros [= <- <-]. eexists. split; [done |]. repeat constructor. apply Bool.eqb_reflx.
  - intros H. apply enumerate_loop_asks in H as (calls & -> & Hc). rewrite <- app_assoc. eexists. split; [done |].
    constructor; [split; [done | apply Bool.eqb_reflx] | done].
Qed.
End Calls.

(** The module says truly whether a stream runs. *)
Definition truthful (adm : AudioDeviceModule) : Prop :=
  forall recording log, (answer adm log (Active recording) =? 0) = negb (running recording log).

Lemma set_when_stopped_app recording r l l' :
  set_when_stopped recording r (l ++ l') = set_when_stopped recording r l && set_when_stopped recording (foldl (stream_after recording) r l) l'.
Proof. revert r. induction l as [| e l IH]; intros r; cbn [app set_when_stopped foldl]; [done |]. by rewrite IH, andb_assoc. Qed.

Lemma gave_up_app l l' : gave_up l' = true -> gave_up (l ++ l') = true.
Proof. unfold gave_up. rewrite last_app. by destruct (last l'). Qed.

Lemma default_tried_app l l' : default_tried (l ++ l') = default_tried l || default_tried l'.
Proof. apply existsb_app. Qed.

(** What [calls] did to a stream and a device: they were all about one direction, set
    the device only when the stream did not run, and left both as it says. *)
Record effect (recording : bool) (calls : Log) (r : bool) (d : Z) (r' : bool) (d' : Z) : Prop := {
  eff_about : Forall (fun e => concerns recording e.1 = true) calls;
  eff_stopped : set_when_stopped recording r calls = true;
  eff_stream : foldl (stream_after recording) r calls = r';
  eff_device : foldl (device_after recording) d calls = d';
}.

Lemma effect_app recording l l' r d r1 d1 r2 d2 :
  effect recording l r d r1 d1 -> effect recording l' r1 d1 r2 d2 -> effect recording (l ++ l') r d r2 d2.
Proof.
  intros [Ha Hs Hr Hd] [Ha' Hs' Hr' Hd']. split.
  - by apply Forall_app.
  - by rewrite set_when_stopped_app, Hs, Hr.
  - by rewrite foldl_app, Hr.
  - by rewrite foldl_app, Hd.
Qed.

Lemma asking_effect recording calls r d : asking recording calls -> effect recording calls r d r d.
Proof.
  intros H. destruct (asking_after recording calls H r d) as [Hr Hd]. split; [| | done | done].
  - eapply Forall_impl; [exact H |]. by intros e [_ ?].
  - rewrite <- (app_nil_r calls). by rewrite asking_stopped.
Qed.

(** Decides what explicit calls did from the tests of their answers. *)
Ltac judge_goal :=
  cbn [app foldl set_when_stopped stream_after device_after];
  rewrite ?Bool.eqb_reflx;
  repeat match goal with H : (?a =? 0) = _ |- _ => rewrite ?H; clear H end;
  cbn [negb andb]; repeat case_match;
  solve [done | repeat (apply Forall_cons; split; [apply Bool.eqb_reflx |]); apply Forall_nil_2].
Ltac judge_calls := split; judge_goal.

Ltac unfold_calls H :=
  unfold call, mbind, M_bind, mret, M_ret in H;
  repeat match type of H with context [?a =? 0] => destruct (a =? 0) eqn:?; cbn [negb] in H end;
  injection H as <- <-; rewrite <- ?app_assoc.

Section Change.
Context (adm : AudioDeviceModule) (recording : bool).

Lemma start_stream_effect log ok log' r d : start_stream adm recording log = (ok, log') ->
  exists calls, log' = log ++ calls /\ effect recording calls r d (if ok then true else r) d /\ (ok = false -> gave_up calls = true).
Proof.
  intros H. unfold start_stream in H. unfold_calls H; (eexists; split; [reflexivity |]; split; [judge_calls |]); try done;
    intros _; unfold gave_up; cbn; by match goal with H : (_ =? 0) = false |- _ => rewrite H end.
Qed.

Lemma initialize_endpoint_effect log ok log' r d : initialize_endpoint adm recording log = (ok, log') ->
  exists calls, log' = log ++ calls /\ effect recording calls r d r d /\ (ok = false -> gave_up calls = true).
Proof.
  intros H. unfold initialize_endpoint in H. unfold_calls H; (eexists; split; [reflexivity |]; split; [judge_calls |]); try done;
    intros _; unfold gave_up; cbn; by match goal with H : (_ =? 0) = false |- _ => rewrite H end.
Qed.

(** What a change leaves: the device that was asked for; or, when it fails, the old one or
    the default, unless that was refused too. *)
Definition settled (was : bool) (index before : Z) (ok : bool) (calls : Log) (r' : bool) (d' : Z) : Prop :=
  if ok then r' = was /\ d' = index else (r' = was /\ (d' = before \/ d' = 0))
       \/ (gave_up calls = true /\ (d' = before \/ default_tried calls = true)).

Lemma settled_app was index before ok calls calls' r' d' :
  settled was index before ok calls' r' d' -> settled was index before ok (calls ++ calls') r' d'.
Proof.
  destruct ok; [done |]. intros [H | [H Hd]]; [by left | right]. split; [by apply gave_up_app |]. rewrite default_tried_app.
  destruct Hd as [Hd | ->]; [by left | right; apply orb_true_r].
Qed.

Lemma restore_default_effect was log ok log' d : restore_default adm recording was log = (ok, log') ->
  exists calls r' d', log' = log ++ calls /\ effect recording calls false d r' d' /\ default_tried calls = true
    /\ if ok then r' = was /\ d' = 0 else gave_up calls = true.
Proof.
  intros H. unfold restore_default in H.
  unfold call, mbind at 1 2, M_bind at 1 2 in H.
  set (s := answer adm log (StopStream recording)) in H. set (e := answer adm _ (SetDevice recording 0)) in H. clearbody s e.
  rewrite <- app_assoc in H. destruct (e =? 0) eqn:He; cbn [negb] in H.
  - assert (Heff : effect recording ([(StopStream recording, s)] ++ [(SetDevice recording 0, e)]) false d false 0) by judge_calls.
    assert (Htried : forall l, default_tried (([(StopStream recording, s)] ++ [(SetDevice recording 0, e)]) ++ l) = true) by done.
    set (l0 := [(StopStream recording, s)] ++ _) in *. clearbody l0.
    unfold mbind, M_bind in H. destruct (initialize_endpoint adm recording _) as [ready log1] eqn:Hi.
    apply (initialize_endpoint_effect _ _ _ false 0) in Hi as (l1 & -> & He1 & Hg1). pose proof (effect_app _ _ _ _ _ _ _ _ _ Heff He1) as Hall.
    destruct ready; cbn [negb] in H.
    + destruct was; cbn [negb] in H.
      * apply (start_stream_effect _ _ _ false 0) in H as (l2 & -> & He2 & Hg2).
        eexists _, _, _. rewrite <- !app_assoc. split; [reflexivity |]. split; [by rewrite app_assoc; eapply effect_app |].
        split; [apply Htried |]. destruct ok; [done |]. by apply gave_up_app, gave_up_app, Hg2.
      * injection H as <- <-. eexists _, _, _. rewrite <- app_assoc. by repeat split; try apply Hall.
    + injection H as <- <-. eexists _, _, _. rewrite <- app_assoc. split; [done |]. split; [exact Hall |]. split; [apply Htried |]. by apply gave_up_app, Hg1.
  - injection H as <- <-. eexists _, _, _. split; [done |]. split; [split; [| | reflexivity | reflexivity]; judge_goal |].
    split; [done |]. unfold gave_up. cbn. by rewrite He.
Qed.

Lemma change_device_effect was index log ok log' d : change_device adm recording was index log = (ok, log') ->
  exists calls r' d', log' = log ++ calls /\ effect recording calls false d r' d' /\ settled was index d ok calls r' d'.
Proof.
  intros H. unfold change_device in H. unfold call, mbind at 1, M_bind at 1 in H.
  set (e := answer adm _ (SetDevice recording index)) in H. clearbody e.
  destruct (e =? 0) eqn:He; cbn [negb] in H.
  - assert (Heff : effect recording [(SetDevice recording index, e)] false d false index) by judge_calls.
    set (l0 := [_]) in *. clearbody l0.
    unfold mbind, M_bind in H. destruct (initialize_endpoint adm recording _) as [ready log1] eqn:Hi.
    apply (initialize_endpoint_effect _ _ _ false index) in Hi as (l1 & -> & He1 & Hg1).
    pose proof (effect_app _ _ _ _ _ _ _ _ _ Heff He1) as Hall. rewrite <- app_assoc in H. set (l01 := l0 ++ l1) in *.
    assert (Hback : forall l r log2 ok2, effect recording (l01 ++ l) false d false index ->
              restore_default adm recording was ((log ++ l01) ++ l) = (r, log2) -> ok2 = false ->
              exists calls r' d', log2 = log ++ calls /\ effect recording calls false d r' d' /\ settled was index d ok2 calls r' d').
    { intros l r log2 ok2 Hl Hr ->. apply (restore_default_effect _ _ _ _ index) in Hr as (l3 & r' & d' & -> & He3 & Htried & Hs).
      exists ((l01 ++ l) ++ l3), r', d'. rewrite <- !app_assoc. split; [done |]. rewrite app_assoc. split; [by eapply effect_app |].
      rewrite <- app_assoc. apply settled_app, settled_app. destruct r; [by destruct Hs; left; auto |]. right. auto. }
    destruct ready; cbn [negb] in H.
    + destruct was; cbn [negb] in H.
      * destruct (start_stream adm recording _) as [started log2] eqn:Hs.
        apply (start_stream_effect _ _ _ false index) in Hs as (l2 & -> & He2 & Hg2). pose proof (effect_app _ _ _ _ _ _ _ _ _ Hall He2) as Hall2.
        destruct started.
        -- injection H as <- <-. eexists (l01 ++ l2), _, _. rewrite <- app_assoc. by repeat split; try apply Hall2.
        -- destruct (restore_default _ _ _ _) as [r log3] eqn:Hr. injection H as <- <-. by eapply Hback.
      * injection H as <- <-. eexists _, _, _. by split.
    + destruct (restore_default _ _ _ _) as [r log3] eqn:Hr. injection H as <- <-.
      apply (Hback [] r log3 false); [by rewrite app_nil_r | by rewrite app_nil_r | done].
  - assert (Heff : effect recording [(SetDevice recording index, e)] false d false d) by judge_calls.
    destruct was.
    + unfold mbind, M_bind in H. destruct (start_stream adm recording _) as [started log2] eqn:Hs. injection H as <- <-.
      apply (start_stream_effect _ _ _ false d) in Hs as (l2 & -> & He2 & Hg2).
      eexists _, _, _. rewrite <- app_assoc. split; [reflexivity |]. split; [by eapply effect_app |].
      apply settled_app. destruct started; [left; auto | right; auto].
    + injection H as <- <-. eexists _, _, _. split; [done |]. split; [exact Heff |]. left. auto.
Qed.

Lemma restart_effect index log ok log' : truthful adm -> restart_on_device adm recording index log = (ok, log') ->
  exists calls r' d', log' = log ++ calls /\ effect recording calls (running recording log) (in_use recording log) r' d'
    /\ settled (running recording log) index (in_use recording log) ok calls r' d'.
Proof.
  intros Ht H. specialize (Ht recording log). unfold restart_on_device in H. unfold call, mbind at 1, M_bind at 1 in H. cbv zeta in H.
  rewrite Ht, negb_involutive in H. set (a := answer adm log (Active recording)) in H. clearbody a.
  set (d := in_use recording log). clearbody d. destruct (running recording log) eqn:Hr.
  - unfold mbind at 1, M_bind at 1 in H.
    set (s := answer adm _ (StopStream recording)) in H. clearbody s. rewrite <- app_assoc in H.
    destruct (s =? 0) eqn:Hs; cbn [negb] in H.
    + destruct (change_device_effect _ _ _ _ _ d H) as (l & r' & d' & -> & He & Hset).
      exists (([(Active recording, a)] ++ [(StopStream recording, s)]) ++ l), r', d'. split; [by rewrite <- app_assoc |].
      split; [| by apply settled_app]. eapply effect_app; [| exact He]. judge_calls.
    + injection H as <- <-. eexists _, _, _. split; [done |]. split; [split; [| | reflexivity | reflexivity]; judge_goal |].
      left. split; [cbn; rewrite Hs; by rewrite andb_false_r | by left].
  - destruct (change_device_effect _ _ _ _ _ d H) as (l & r' & d' & -> & He & Hset).
    exists ([(Active recording, a)] ++ l), r', d'. split; [by rewrite <- app_assoc |].
    split; [| by apply settled_app]. eapply effect_app; [| exact He]. judge_calls.
Qed.
End Change.

(** ** Choosing a device *)

Lemma effect_log recording calls log r' d' :
  effect recording calls (running recording log) (in_use recording log) r' d' ->
  running recording (log ++ calls) = r' /\ in_use recording (log ++ calls) = d'.
Proof. intros [_ _ Hr Hd]. by rewrite running_app, in_use_app. Qed.

(** A device that was found is restarted on after calls that only ask. *)
Lemma set_audio_device_inv adm r recording id log ok log' : set_audio_device adm r recording id log = (ok, log') ->
  (exists calls, log' = log ++ calls /\ asking recording calls /\ ok = false)
  \/ exists asked mid d, injected_pcm_source r = false /\ asking recording asked /\ mid `prefix_of` log ++ asked
       /\ find_device id (enumerate_audio_devices adm recording mid).1 = Some d
       /\ restart_on_device adm recording (d_index d) (log ++ asked) = (ok, log').
Proof.
  assert (Hnone : forall l, (false, l) = (ok, log') -> l = log -> exists calls, log' = log ++ calls /\ asking recording calls /\ ok = false).
  { intros l [= <- <-] ->. exists []. rewrite app_nil_r. split_and!; [done | apply asking_nil | done]. }
  unfold set_audio_device. destruct (_ || bool_decide _) eqn:Hg; [intros H; left; by eapply Hnone |].
  apply orb_false_iff in Hg as [Hg _]. apply orb_false_iff in Hg as [Hg _]. apply orb_false_iff in Hg as [_ Hg].
  unfold select_audio_device. destruct (decide _); [intros H; left; by eapply Hnone |].
  unfold mbind, M_bind. destruct (ensure_initialized adm log) as [ready log1] eqn:Hi.
  apply (ensure_initialized_asks _ recording) in Hi as (l1 & -> & H1). destruct ready; cbn [negb].
  - destruct (enumerate_audio_devices adm recording _) as [devices log2] eqn:He. pose proof He as (l2 & -> & H2)%enumerate_asks.
    rewrite <- app_assoc. pose proof (asking_app _ _ _ H1 H2). destruct (find_device id devices) as [d |] eqn:Hf.
    + intros Hr. right. exists (l1 ++ l2), (log ++ l1), d. split_and!; try done; [| by rewrite He].
      rewrite app_assoc. by apply prefix_app_r.
    + intros [= <- <-]. left. by eexists.
  - intros [= <- <-]. left. by eexists.
Qed.

(** C24 Changing the device: only calls about that direction are made, and the device is
    set only while no stream runs.  When the change succeeds, the device in use is
    the one that is listed under the id, and the stream runs exactly if it did.  When it
    fails, the stream is as it was, on the old device or on the default one, unless
    bringing it back was refused too, on the old device or after the default was tried. *)
Theorem device_changed adm r recording id log ok log' :
  truthful adm -> set_audio_device adm r recording id log = (ok, log') ->
  exists calls, log' = log ++ calls
    /\ Forall (fun e => concerns recording e.1 = true) calls
    /\ set_when_stopped recording (running recording log) calls = true
    /\ if ok
       then running recording log' = running recording log
            /\ exists mid d, mid `prefix_of` log' /\ find_device id (enumerate_audio_devices adm recording mid).1 = Some d
                 /\ in_use recording log' = d_index d
       else (running recording log' = running recording log
             /\ (in_use recording log' = in_use recording log \/ in_use recording log' = 0))
            \/ (gave_up calls = true /\ (in_use recording log' = in_use recording log \/ default_tried calls = true)).
Proof.
  intros Ht H. apply set_audio_device_inv in H as [(calls & -> & Hc & ->) | (asked & mid & d & _ & Hc & Hm & Hf & H)].
  - pose proof (asking_effect _ _ (running recording log) (in_use recording log) Hc) as He. exists calls.
    destruct (effect_log _ _ _ _ _ He) as [-> ->]. split_and!; [done | apply He | apply He |]. left. auto.
  - pose proof (asking_effect _ _ (running recording log) (in_use recording log) Hc) as He.
    destruct (effect_log _ _ _ _ _ He) as [Hr Hd]. apply restart_effect in H as (l & r' & d' & -> & He' & Hs); [| done].
    rewrite Hr, Hd in He', Hs. pose proof (effect_app _ _ _ _ _ _ _ _ _ He He') as Hall. exists (asked ++ l).
    rewrite <- app_assoc. destruct (effect_log _ _ _ _ _ Hall) as [-> ->].
    split_and!; [done | apply Hall | apply Hall |]. apply (settled_app _ _ _ _ asked) in Hs. destruct ok; [| exact Hs].
    destruct Hs as [-> ->]. split; [done |]. exists mid, d. split_and!; try done. etrans; [exact Hm |]. rewrite app_assoc. by apply prefix_app_r.
Qed.

(** ** The list of devices *)

(** The devices that a machine has: for each index, whether its name can be read, its
    name and its GUID. *)
Abbreviation Table := (list (Z * text * text)) (only parsing).

(** The module said that it is ready. *)
Definition readied (calls : Log) : bool :=
  existsb (fun e => match e with (Initialized, a) => negb (a =? 0) | (Init, a) => a =? 0 | _ => false end) calls.

(** After [log], once the module is ready and while it is only asked, its devices are
    those of the table: none comes or goes during one listing. *)
Definition shows (adm : AudioDeviceModule) (recording : bool) (table : Table) (log : Log) : Prop :=
  Z.of_nat (length table) < 2 ^ 15
  /\ forall asked, asking recording asked -> readied asked = true ->
       answer adm (log ++ asked) (Devices recording) = Z.of_nat (length table)
       /\ forall i e name guid, table !! i = Some (e, name, guid) ->
            answer adm (log ++ asked) (DeviceName recording (Z.of_nat i)) = e
            /\ device_name adm (log ++ asked) recording (Z.of_nat i) = (name, guid).

(** The names that are shown, each with the device it stands for. *)
Definition shown_name (index : Z) (name : text) : text :=
  let display := display_name index name in
  if index =? 0 then i_name (info (default_device display)) else display.

Fixpoint listed (index : Z) (table : Table) : list (Z * text) :=
  match table with
  | [] => []
  | (e, name, _) :: table =>
    if e =? 0 then (index, shown_name index (c_str name)) :: listed (index + 1) table else listed (index + 1) table
  end.

(** No two devices have the same GUID, except for those without one. *)
Fixpoint guids (table : Table) : list text :=
  match table with
  | [] => []
  | (e, _, guid) :: table => if (e =? 0) && bool_decide (c_str guid <> []) then c_str guid :: guids table else guids table
  end.

(** What an id stands for: the default device, the one with a GUID, or one among those
    that are shown under the same name. *)
Inductive DeviceRef := DefaultDevice | ByGuid (guid : text) | ByName (name : text) (ordinal : nat).

(** How many devices are listed under a name before an index, the default aside. *)
Definition earlier (table : Table) (index : nat) (name : text) : nat :=
  length (filter (fun p => p.1 <> 0 /\ p.2 = name) (listed 0 (take index table))).

Definition identity (table : Table) (index : nat) : option DeviceRef :=
  match table !! index with
  | Some (e, name, guid) =>
    let display := display_name (Z.of_nat index) (c_str name) in
    if negb (e =? 0) then None
    else if decide (index = 0%nat) then Some DefaultDevice
    else if decide (c_str guid = []) then Some (ByName display (earlier table index display))
    else Some (ByGuid (c_str guid))
  | None => None
  end.

Definition id_of (d : DeviceRef) : text :=
  match d with
  | DefaultDevice => kDefaultAudioDeviceId
  | ByGuid guid => chars "guid:" ++ guid
  | ByName name ordinal => chars "name:" ++ name ++ chars "#" ++ to_string (Z.of_nat ordinal)
  end.

(** What the loop finds. *)
Fixpoint devices_from (index : Z) (table : Table) (ordinals : gmap text Z) : list EnumeratedAudioDevice :=
  match table with
  | [] => []
  | (e, name, guid) :: table =>
    if e =? 0 then
      let display := display_name index (c_str name) in
      if index =? 0 then default_device display :: devices_from (index + 1) table ordinals
      else
        let ordinal := default 0 (ordinals !! display) in
        mkDevice (mkInfo (make_audio_device_id (c_str guid) display ordinal) display) index
          :: devices_from (index + 1) table (<[display := ordinal + 1]> ordinals)
    else devices_from (index + 1) table ordinals
  end.

Lemma devices_from_listed table : forall i ordinals,
  (fun d => (d_index d, i_name (info d))) <$> devices_from i table ordinals = listed i table.
Proof.
  induction table as [| [[e name] guid] table IH]; intros i ordinals; [done |]. cbn [devices_from listed].
  destruct (e =? 0); [| apply IH]. unfold shown_name. destruct (i =? 0) eqn:Hi.
  - apply Z.eqb_eq in Hi as ->. rewrite fmap_cons, IH. done.
  - rewrite fmap_cons, IH. done.
Qed.

(** An id is the default, or has a GUID, or has a name with its ordinal. *)
Lemma id_guid_name guid name k : guid <> [] -> make_audio_device_id guid name k = chars "guid:" ++ guid.
Proof. intros H. unfold make_audio_device_id. by rewrite decide_True. Qed.
Lemma id_name name k : make_audio_device_id [] name k = chars "name:" ++ name ++ chars "#" ++ to_string k.
Proof. unfold make_audio_device_id. by rewrite decide_False by (intros H; by apply H). Qed.

Lemma to_string_inj a b : 0 <= a -> 0 <= b -> to_string a = to_string b -> a = b.
Proof. intros Ha Hb H. destruct (to_string_spec a Ha) as (_ & _ & <- & _). destruct (to_string_spec b Hb) as (_ & _ & <- & _). by rewrite H. Qed.

Lemma digits_no_hash t : Forall (fun c => isdigit c = true) t -> Forall (fun d => Ascii.eqb d "#" = false) t.
Proof. intros H. eapply Forall_impl; [exact H |]. intros c Hc. by destruct c as [[] [] [] [] [] [] [] []]. Qed.

(** The last hash splits an id. *)
Lemma id_name_inj n1 n2 k1 k2 : 0 <= k1 -> 0 <= k2 ->
  chars "name:" ++ n1 ++ chars "#" ++ to_string k1 = chars "name:" ++ n2 ++ chars "#" ++ to_string k2 -> n1 = n2 /\ k1 = k2.
Proof.
  intros H1 H2 H. apply app_inv_head in H. change (chars "#" ++ to_string k1) with ("#"%char :: to_string k1) in H.
  change (chars "#" ++ to_string k2) with ("#"%char :: to_string k2) in H.
  destruct (to_string_spec k1 H1) as (_ & Hd1%digits_no_hash & _). destruct (to_string_spec k2 H2) as (_ & Hd2%digits_no_hash & _).
  assert (Hl : length n1 = length n2).
  { apply (f_equal (rfind_char "#"%char)) in H. rewrite !rfind_char_app in H by done. by injection H. }
  apply app_inj_1 in H as [-> H]; [| done]. injection H as H. split; [done |]. by apply to_string_inj.
Qed.

(** What the ids of later devices look like. *)
Lemma devices_from_ids table : forall i ordinals, 0 <= i -> (forall n k, ordinals !! n = Some k -> 0 <= k) ->
  Forall (fun d => (i = 0 /\ i_id (info d) = kDefaultAudioDeviceId)
                   \/ (exists g, g <> [] /\ g ∈ guids table /\ i_id (info d) = chars "guid:" ++ g)
                   \/ (exists n k, default 0 (ordinals !! n) <= k /\ 0 <= k /\ i_id (info d) = chars "name:" ++ n ++ chars "#" ++ to_string k))
    (devices_from i table ordinals).
Proof.
  induction table as [| [[e name] guid] table IH]; intros i ordinals Hi Ho; [constructor |]. cbn [devices_from guids].
  assert (Hsub : forall g, g ∈ guids table -> g ∈ (if (e =? 0) && bool_decide (c_str guid <> []) then c_str guid :: guids table else guids table)).
  { intros g Hg. destruct (_ && _); [by right | done]. }
  assert (Hrest : forall o, (forall n k, o !! n = Some k -> 0 <= k) -> (forall n, default 0 (ordinals !! n) <= default 0 (o !! n)) ->
            Forall (fun d => (i = 0 /\ i_id (info d) = kDefaultAudioDeviceId)
                   \/ (exists g, g <> [] /\ g ∈ (if (e =? 0) && bool_decide (c_str guid <> []) then c_str guid :: guids table else guids table) /\ i_id (info d) = chars "guid:" ++ g)
                   \/ (exists n k, default 0 (ordinals !! n) <= k /\ 0 <= k /\ i_id (info d) = chars "name:" ++ n ++ chars "#" ++ to_string k))
            (devices_from (i + 1) table o)).
  { intros o Ho' Hle. eapply Forall_impl; [apply IH; [lia | exact Ho'] |]. intros d [[? _] | [(g & Hg & Hin & Hid) | (n & k & Hk & Hk0 & Hid)]]; [lia | |].
    - right; left. exists g. auto.
    - right; right. exists n, k. split_and!; try done. specialize (Hle n). lia. }
  destruct (e =? 0) eqn:He; [| apply Hrest; [done | lia]].
  set (display := display_name i (c_str name)). destruct (i =? 0) eqn:Hi0.
  - apply Z.eqb_eq in Hi0. constructor; [by left | apply Hrest; [done | lia]].
  - assert (Hk : 0 <= default 0 (ordinals !! display)) by (destruct (ordinals !! display) eqn:H; [by eapply Ho | done]).
    constructor.
    + right. destruct (decide (c_str guid = [])) as [Hg | Hg].
      * right. exists display, (default 0 (ordinals !! display)). cbn [info i_id]. rewrite Hg, id_name. auto with lia.
      * left. exists (c_str guid). cbn [info i_id]. rewrite id_guid_name by done. rewrite bool_decide_true by done. split_and!; [done | by left | done].
    + apply Hrest.
      * intros n k. rewrite lookup_insert. case_decide; [intros [= <-]; lia | apply Ho].
      * intros n. rewrite lookup_insert. case_decide; [subst; cbn; lia | lia].
Qed.

Lemma devices_from_distinct table : forall i ordinals, 0 <= i -> (forall n k, ordinals !! n = Some k -> 0 <= k) -> NoDup (guids table) ->
  NoDup ((fun d => i_id (info d)) <$> devices_from i table ordinals).
Proof.
  induction table as [| [[e name] guid] table IH]; intros i ordinals Hi Ho Hg; [constructor |]. cbn [devices_from guids] in *.
  assert (Hg' : NoDup (guids table)) by (destruct (_ && _) in Hg; [by apply NoDup_cons in Hg as [_ ?] | done]).
  destruct (e =? 0) eqn:He; [| by apply IH; [lia | |]].
  set (display := display_name i (c_str name)) in *.
  assert (Hk : 0 <= default 0 (ordinals !! display)) by (destruct (ordinals !! display) eqn:H; [by eapply Ho | done]).
  destruct (i =? 0) eqn:Hi0.
  - rewrite fmap_cons. constructor; [| by apply IH; [lia | |]]. intros (d & Hd & Hin)%list_elem_of_fmap.
    pose proof (devices_from_ids table (i + 1) ordinals ltac:(lia) Ho) as Hids. rewrite Forall_forall in Hids.
    destruct (Hids d Hin) as [[? _] | [(g & _ & _ & Hid) | (n & k & _ & _ & Hid)]]; [lia | by rewrite Hid in Hd..].
  - set (o := <[display := _]> ordinals).
    assert (Ho' : forall n k, o !! n = Some k -> 0 <= k).
    { intros n k. unfold o. rewrite lookup_insert. case_decide; [intros [= <-]; lia | apply Ho]. }
    rewrite fmap_cons. constructor; [| by apply IH; [lia | |]]. intros (d & Hd & Hin)%list_elem_of_fmap. cbn [info i_id] in Hd.
    pose proof (devices_from_ids table (i + 1) o ltac:(lia) Ho') as Hids. rewrite Forall_forall in Hids.
    destruct (decide (c_str guid = [])) as [Hgu | Hgu].
    + rewrite Hgu, id_name in Hd. destruct (Hids d Hin) as [[? _] | [(g & _ & _ & Hid) | (n & k & Hle & Hk0 & Hid)]]; [lia | by rewrite Hid in Hd |].
      rewrite Hid in Hd. apply id_name_inj in Hd as [<- <-]; [| done | done]. unfold o in Hle. rewrite lookup_insert_eq in Hle. cbn in Hle. lia.
    + rewrite id_guid_name in Hd by done. rewrite bool_decide_true in Hg by done. apply NoDup_cons in Hg as [Hni _].
      destruct (Hids d Hin) as [[? _] | [(g & _ & Hgin & Hid) | (n & k & _ & _ & Hid)]]; [lia | | by rewrite Hid in Hd].
      rewrite Hid in Hd. apply app_inv_head in Hd as <-. done.
Qed.

(** The list, as what the ids stand for. *)
Lemma listed_app t1 t2 i : listed i (t1 ++ t2) = listed i t1 ++ listed (i + Z.of_nat (length t1)) t2.
Proof.
  revert i. induction t1 as [| [[e name] guid] t1 IH]; intros i; cbn [app listed length]; [by rewrite Z.add_0_r |].
  rewrite IH. replace (i + 1 + Z.of_nat (length t1)) with (i + Z.of_nat (S (length t1))) by lia. by destruct (e =? 0).
Qed.

Lemma earlier_next pre e name guid suf n :
  earlier (pre ++ (e, name, guid) :: suf) (S (length pre)) n
  = (earlier (pre ++ (e, name, guid) :: suf) (length pre) n
     + if (e =? 0)%Z && negb (Z.of_nat (length pre) =? 0)%Z && bool_decide (display_name (Z.of_nat (length pre)) (c_str name) = n) then 1 else 0)%nat.
Proof.
  unfold earlier. rewrite take_app_length. replace (take (S (length pre)) _) with (pre ++ [(e, name, guid)])
    by (symmetry; change ((e, name, guid) :: suf) with ([(e, name, guid)] ++ suf); rewrite app_assoc; apply take_app_length'; rewrite length_app; cbn; lia).
  rewrite listed_app, filter_app, length_app. f_equal. rewrite Z.add_0_l. cbn [listed]. destruct (e =? 0); [| done]. cbn [andb].
  destruct (Z.eqb_spec (Z.of_nat (length pre)) 0) as [Hz | Hz]; cbn [negb andb].
  - rewrite filter_cons_False; [done |]. cbn. tauto.
  - unfold shown_name. rewrite (proj2 (Z.eqb_neq _ _) Hz). case_bool_decide.
    + by rewrite filter_cons_True by done.
    + rewrite filter_cons_False; [done |]. cbn. tauto.
Qed.

Lemma devices_from_identities suf : forall pre ordinals,
  (forall n, default 0 (ordinals !! n) = Z.of_nat (earlier (pre ++ suf) (length pre) n)) ->
  (fun d => (d_index d, i_id (info d))) <$> devices_from (Z.of_nat (length pre)) suf ordinals
  = omap (fun i => (fun d => (Z.of_nat i, id_of d)) <$> identity (pre ++ suf) i) (seq (length pre) (length suf)).
Proof.
  induction suf as [| [[e name] guid] suf IH]; intros pre ordinals Ho; [done |]. cbn [devices_from length seq].
  change (omap ?f (?i :: ?l)) with (match f i with Some y => y :: omap f l | None => omap f l end).
  assert (Hnext : forall ordinals', (forall n, default 0 (ordinals' !! n)
              = Z.of_nat (earlier (pre ++ (e, name, guid) :: suf) (S (length pre)) n)) ->
            (fun d => (d_index d, i_id (info d))) <$> devices_from (Z.of_nat (length pre) + 1) suf ordinals'
            = omap (fun i => (fun d => (Z.of_nat i, id_of d)) <$> identity (pre ++ (e, name, guid) :: suf) i) (seq (S (length pre)) (length suf))).
  { intros o Ho'. specialize (IH (pre ++ [(e, name, guid)]) o). rewrite <- app_assoc in IH. cbn [app] in IH.
    rewrite length_app in IH. cbn [length] in IH. replace (length pre + 1)%nat with (S (length pre)) in IH by lia.
    replace (Z.of_nat (length pre) + 1) with (Z.of_nat (S (length pre))) by lia. apply IH. exact Ho'. }
  assert (Hid : identity (pre ++ (e, name, guid) :: suf) (length pre)
                = let display := display_name (Z.of_nat (length pre)) (c_str name) in
                  if negb (e =? 0) then None else if decide (length pre = 0%nat) then Some DefaultDevice
                  else if decide (c_str guid = []) then Some (ByName display (earlier (pre ++ (e, name, guid) :: suf) (length pre) display))
                  else Some (ByGuid (c_str guid))).
  { unfold identity. by rewrite list_lookup_middle by done. }
  cbv beta. rewrite Hid. cbv zeta. set (display := display_name _ _). destruct (e =? 0) eqn:He; cbn [negb];
    [| rewrite Hnext; [done | intros n; rewrite Ho, earlier_next, He; cbn [andb]; by rewrite Nat.add_0_r]].
  destruct (decide (length pre = 0%nat)) as [Hz | Hz].
  - rewrite (proj2 (Z.eqb_eq (Z.of_nat (length pre)) 0)) by lia. rewrite fmap_cons, Hnext.
    + cbn. by rewrite Hz.
    + intros n. rewrite Ho, earlier_next, He, (proj2 (Z.eqb_eq (Z.of_nat (length pre)) 0)) by lia. cbn [negb andb]. by rewrite Nat.add_0_r.
  - rewrite (proj2 (Z.eqb_neq (Z.of_nat (length pre)) 0)) by lia. rewrite fmap_cons, Hnext.
    + cbn [d_index info i_id]. unfold make_audio_device_id. rewrite Ho. destruct (decide (c_str guid = [])) as [Hg | Hg].
      * rewrite decide_False by (intros H; by apply H). done.
      * by rewrite decide_True by done.
    + intros n. rewrite earlier_next, He, (proj2 (Z.eqb_neq (Z.of_nat (length pre)) 0)) by lia. cbn [negb andb]. fold display.
      rewrite lookup_insert.
      destruct (decide (display = n)) as [<- | Hd]; [rewrite bool_decide_true by done | rewrite bool_decide_false by done; by rewrite Ho, Nat.add_0_r].
      cbn [from_option id]. by rewrite Ho, Nat2Z.inj_add.
Qed.

Lemma devices_identities table :
  (fun d => (d_index d, i_id (info d))) <$> devices_from 0 table ∅
  = omap (fun i => (fun d => (Z.of_nat i, id_of d)) <$> identity table i) (seq 0 (length table)).
Proof. apply (devices_from_identities table []). intros n. by rewrite lookup_empty. Qed.

Lemma id_of_inj d d' : id_of d = id_of d' -> d = d'.
Proof.
  destruct d as [| g | n k], d' as [| g' | n' k']; cbn [id_of]; intros H; try discriminate H; [done | |].
  - by apply app_inv_head in H as ->.
  - apply id_name_inj in H as [-> Hk]; [| lia | lia]. by apply Nat2Z.inj in Hk as ->.
Qed.

(** A device of the list has an identity in the table, and an identity of the table is
    listed. *)
Lemma device_identity table d : d ∈ devices_from 0 table ∅ ->
  exists i ident, d_index d = Z.of_nat i /\ identity table i = Some ident /\ i_id (info d) = id_of ident.
Proof.
  intros H. apply (list_elem_of_fmap_2 (fun d => (d_index d, i_id (info d)))) in H. rewrite devices_identities in H.
  apply list_elem_of_omap in H as (i & _ & Hi). apply fmap_Some in Hi as (ident & Hi & [= -> ->]). by exists i, ident.
Qed.

Lemma identity_device table i ident : identity table i = Some ident ->
  exists d, d ∈ devices_from 0 table ∅ /\ i_id (info d) = id_of ident.
Proof.
  intros H. assert (Hin : (Z.of_nat i, id_of ident) ∈ ((fun d => (d_index d, i_id (info d))) <$> devices_from 0 table ∅)).
  { rewrite devices_identities. apply list_elem_of_omap. exists i. rewrite H. split; [| done]. apply elem_of_seq.
    unfold identity in H. destruct (table !! i) eqn:Hl; [| done]. apply lookup_lt_Some in Hl. lia. }
  apply list_elem_of_fmap in Hin as (d & [= _ Hd] & Hin). by exists d.
Qed.

Lemma identity_distinct table i i' ident :
  NoDup ((fun d => i_id (info d)) <$> devices_from 0 table ∅) -> identity table i' = Some ident -> identity table i = Some ident -> i' = i.
Proof.
  intros Hn Hi' Hi. replace (fun d => i_id (info d)) with (snd ∘ (fun d : EnumeratedAudioDevice => (d_index d, i_id (info d)))) in Hn by done.
  rewrite list_fmap_compose, devices_identities in Hn.
  assert (Hin : forall j, identity table j = Some ident -> j ∈ seq 0 (length table)).
  { intros j Hj. apply elem_of_seq. unfold identity in Hj. destruct (table !! j) eqn:Hl; [| done]. apply lookup_lt_Some in Hl. lia. }
  apply Hin in Hi' as H', Hi as H. revert Hn H' H. generalize (NoDup_seq 0 (length table)).
  generalize (seq 0 (length table)). intros l. induction l as [| j l IH]; [by intros _ _ ?%not_elem_of_nil |].
  intros [Hj Hnd]%NoDup_cons. change (omap ?f (?i :: ?l)) with (match f i with Some y => y :: omap f l | None => omap f l end).
  assert (Htwice : forall m, m ∈ l -> identity table m = Some ident ->
            id_of ident ∈ (omap (fun i => (fun d => (Z.of_nat i, id_of d)) <$> identity table i) l).*2).
  { intros m Hm Hid. apply list_elem_of_fmap. exists (Z.of_nat m, id_of ident). split; [done |]. apply list_elem_of_omap. exists m. by rewrite Hid. }
  cbv beta. destruct (identity table j) as [dj |] eqn:Hdj; cbn.
  - intros [Hni Hn]%NoDup_cons [-> | H']%elem_of_cons [-> | H]%elem_of_cons; try done.
    + rewrite Hi' in Hdj. injection Hdj as <-. destruct Hni. by eapply Htwice.
    + rewrite Hi in Hdj. injection Hdj as <-. destruct Hni. by eapply Htwice.
    + by apply IH.
  - intros Hn [-> | H']%elem_of_cons [-> | H]%elem_of_cons; try congruence. by apply IH.
Qed.

Section Shown.
Context (adm : AudioDeviceModule) (recording : bool) (table : Table) (log0 : Log).
Hypothesis (Hshows : shows adm recording table log0).

Lemma readied_app l l' : readied l = true -> readied (l ++ l') = true.
Proof. unfold readied. rewrite existsb_app. by intros ->. Qed.

Lemma loop_shown rest : forall i ordinals result asked, rest = drop i table -> asking recording asked -> readied asked = true ->
  (enumerate_loop adm recording (seqZ (Z.of_nat i) (Z.of_nat (length rest))) ordinals result (log0 ++ asked)).1
  = result ++ devices_from (Z.of_nat i) rest ordinals.
Proof.
  destruct Hshows as (Hlen & Hask). induction rest as [| [[e name] guid] rest IH]; intros i ordinals result asked Hr Ha Hready.
  - cbn. by rewrite app_nil_r.
  - assert (Hi : table !! i = Some (e, name, guid)) by (rewrite <- (Nat.add_0_r i), <- lookup_drop, <- Hr; done).
    assert (Hr' : rest = drop (S i) table) by (rewrite <- (Nat.add_1_r i), <- drop_drop, <- Hr; done).
    pose proof (lookup_lt_Some _ _ _ Hi) as Hlt. destruct (proj2 (Hask asked Ha Hready) i e name guid Hi) as [He Hd].
    rewrite seqZ_cons by (cbn; lia). replace (Z.succ (Z.of_nat i)) with (Z.of_nat (S i)) by lia.
    replace (Z.pred _) with (Z.of_nat (length rest)) by (cbn; lia). cbn [enumerate_loop devices_from].
    assert (Hu : u16 (Z.of_nat i) = Z.of_nat i) by (apply wrap_small; unfold is_u; lia).
    unfold mbind, M_bind, name_call, call. rewrite Hu, Hd, He. rewrite <- app_assoc.
    assert (Ha' : asking recording (asked ++ [(DeviceName recording (Z.of_nat i), e)]))
      by (apply asking_app; [done |]; repeat constructor; apply Bool.eqb_reflx).
    pose proof (readied_app asked [(DeviceName recording (Z.of_nat i), e)] Hready) as Hready'.
    replace (Z.of_nat i + 1) with (Z.of_nat (S i)) by lia.
    destruct (e =? 0); cbn [negb]; [| by apply IH]. destruct (Z.of_nat i =? 0); rewrite IH by done; by rewrite <- app_assoc.
Qed.

Lemma enumerate_shown asked : asking recording asked -> readied asked = true ->
  (enumerate_audio_devices adm recording (log0 ++ asked)).1 = devices_from 0 table ∅.
Proof.
  intros Ha Hready. destruct Hshows as (Hlen & Hask). unfold enumerate_audio_devices, call, mbind, M_bind.
  rewrite (proj1 (Hask asked Ha Hready)).
  assert (Hs : s16 (Z.of_nat (length table)) = Z.of_nat (length table)).
  { unfold s16, u16. rewrite wrap_small by (unfold is_u; lia). cbv zeta. by rewrite (proj2 (Z.ltb_lt _ _)) by lia. }
  rewrite Hs. destruct (Z.leb_spec (Z.of_nat (length table)) 0).
  - destruct table; [done | cbn in *; lia].
  - rewrite <- app_assoc. apply (loop_shown table 0); [done | | by apply readied_app].
    apply asking_app; [done |]. repeat constructor. apply Bool.eqb_reflx.
Qed.

(** Getting ready, then listing. *)
Lemma ensure_initialized_shown log' : ensure_initialized adm log0 = (true, log') ->
  (enumerate_audio_devices adm recording log').1 = devices_from 0 table ∅.
Proof.
  intros H. pose proof H as (calls & -> & Hc)%(ensure_initialized_asks _ recording). apply enumerate_shown; [done |].
  revert H. unfold ensure_initialized, call, mbind, M_bind, mret, M_ret.
  destruct (answer adm log0 Initialized =? 0) eqn:Hi; intros H; apply pair_eq in H as [Ha Hl]; rewrite <- ?app_assoc in Hl;
    apply app_inv_head in Hl as <-; cbn; rewrite Hi; cbn; by rewrite ?Ha.
Qed.
End Shown.

Lemma find_device_Some id devices d : find_device id devices = Some d -> d ∈ devices /\ i_id (info d) = id.
Proof. intros H. apply List.find_some in H as [Hin Hb]. split; [by apply list_elem_of_In | by apply bool_decide_eq_true in Hb]. Qed.

Lemma find_device_is_Some id devices : (exists d, find_device id devices = Some d) <-> exists d, d ∈ devices /\ i_id (info d) = id.
Proof.
  split; [intros (d & H); exists d; by apply find_device_Some |]. intros (d & Hin & Hd).
  destruct (find_device id devices) as [d' |] eqn:H; [by exists d' |]. exfalso.
  eapply List.find_none in H; [| by apply list_elem_of_In]. cbn in H. by rewrite bool_decide_true in H by done.
Qed.

(** A module that refuses nothing. *)
Definition obliging (adm : AudioDeviceModule) : Prop :=
  forall log c, match c with
                | Initialized => answer adm log c <> 0
                | InitEndpoint _ | InitStream _ | StartStream _ | StopStream _ | SetDevice _ _ => answer adm log c = 0
                | _ => True
                end.

Lemma restart_obliging adm recording index log : obliging adm -> (restart_on_device adm recording index log).1 = true.
Proof.
  intros H. unfold restart_on_device, change_device, initialize_endpoint, start_stream, call, mbind, M_bind, mret, M_ret.
  pose proof (fun l => H l (StopStream recording)) as H1. pose proof (fun l => H l (SetDevice recording index)) as H2.
  pose proof (fun l => H l (InitEndpoint recording)) as H3. pose proof (fun l => H l (InitStream recording)) as H4.
  pose proof (fun l => H l (StartStream recording)) as H5. cbn in H1, H2, H3, H4, H5.
  destruct (_ =? 0); cbn; repeat (rewrite ?H1, ?H2, ?H3, ?H4, ?H5; cbn); done.
Qed.

Lemma ensure_initialized_obliging adm log : obliging adm -> (ensure_initialized adm log).1 = true.
Proof.
  intros H. pose proof (H log Initialized) as Hi. cbn in Hi. unfold ensure_initialized, call, mbind, M_bind, mret, M_ret.
  by destruct (Z.eqb_spec (answer adm log Initialized) 0).
Qed.

Lemma id_not_empty d i table ordinals : d ∈ devices_from i table ordinals -> i_id (info d) <> [].
Proof.
  revert i ordinals. induction table as [| [[e name] guid] table IH]; intros i ordinals; [by intros ?%not_elem_of_nil |]. cbn [devices_from].
  destruct (e =? 0); [| apply IH]. destruct (i =? 0); intros [-> | Hd]%elem_of_cons; try (by eapply IH); [done |].
  cbn [info i_id]. unfold make_audio_device_id. by destruct (decide _).
Qed.

(** Choosing by an id, when the module's devices are those of a table. *)
Section Choosing.
Context (adm : AudioDeviceModule) (r : Runtime) (recording : bool) (table : Table) (ident : DeviceRef).
Context (log : Log) (ok : bool) (log' : Log).
Hypothesis (Hguard : negb (audio_device r) || injected_pcm_source r || negb (worker_thread r) = false).
Hypothesis (Hshows : shows adm recording table log).
Hypothesis (Hset : set_audio_device adm r recording (id_of ident) log = (ok, log')).

Lemma id_of_nonempty d : id_of d <> [].
Proof. by destruct d. Qed.

(** Without the guards that passed. *)
Lemma choosing :
  (ensure_initialized adm log).1 = false /\ ok = false
  \/ exists log1, (ensure_initialized adm log).1 = true /\
       match find_device (id_of ident) (devices_from 0 table ∅) with
       | Some d => restart_on_device adm recording (d_index d) log1 = (ok, log')
       | None => ok = false
       end.
Proof.
  unfold set_audio_device in Hset. rewrite Hguard in Hset. rewrite bool_decide_false in Hset by apply id_of_nonempty. cbn [orb] in Hset.
  unfold select_audio_device in Hset. rewrite decide_False in Hset by apply id_of_nonempty. unfold mbind, M_bind in Hset.
  destruct (ensure_initialized adm log) as [ready log1] eqn:Hr. destruct ready; cbn [negb] in Hset; [| left; by injection Hset as <- <-].
  right. pose proof (ensure_initialized_shown adm recording table log Hshows log1 Hr) as He.
  destruct (enumerate_audio_devices adm recording log1) as [devices log2]. cbn in He. subst devices. exists log2. split; [done |].
  destruct (find_device _ _); [done | by injection Hset as <- <-].
Qed.

(** The device that is then in use is one that the id stands for. *)
Lemma chosen_is : truthful adm -> ok = true -> exists i, identity table i = Some ident /\ in_use recording log' = Z.of_nat i.
Proof.
  intros Ht Hok. pose proof Hset as [(calls & _ & _ & ->) | (asked & mid & d & _ & Hc & _ & _ & _)]%set_audio_device_inv; [done |].
  destruct choosing as [[_ ->] | (log1 & _ & Hf)]; [done |].
  destruct (find_device _ _) as [d' |] eqn:Hd; [| by subst]. apply find_device_Some in Hd as [Hin Hid].
  apply device_identity in Hin as (i & ident' & Hi & Hident & Hid'). rewrite Hid in Hid'. apply id_of_inj in Hid' as <-.
  exists i. split; [done |]. subst ok. apply restart_effect in Hf as (l & r' & d'' & -> & He & [_ ->]); [| done].
  destruct (effect_log _ _ _ _ _ He) as [_ ->]. done.
Qed.

(** If nothing is refused, it succeeds exactly if there is one. *)
Lemma choice_succeeds : obliging adm -> ok = true <-> exists i, identity table i = Some ident.
Proof.
  intros Hob. destruct choosing as [[Hno _] | (log1 & _ & Hf)]; [by rewrite ensure_initialized_obliging in Hno |].
  split.
  - intros ->. destruct (find_device _ _) as [d |] eqn:Hd; [| done]. apply find_device_Some in Hd as [Hin Hid].
    apply device_identity in Hin as (i & ident' & _ & Hident & Hid'). rewrite Hid in Hid'. apply id_of_inj in Hid' as <-. by exists i.
  - intros (i & (d & Hin & Hid)%identity_device). destruct (proj2 (find_device_is_Some _ _) (ex_intro _ d (conj Hin Hid))) as [d' Hd].
    rewrite Hd in Hf. pose proof (restart_obliging adm recording (d_index d') log1 Hob) as Hr. by rewrite Hf in Hr.
Qed.
End Choosing.

(** C26 The list of devices and the choice from it agree.  In the list, if it is not
    empty, every device whose name can be read appears once, in order, with its name,
    under an id of its own, even if names repeat.  Choosing an entry later, whatever
    devices the module has by then (none comes or goes during one listing), puts in use
    a device that is then what the entry was: the default one for the default, the one
    with its GUID wherever it is now, and for a device without a GUID the one that has as
    many devices of its shown name before it, the default aside, as the entry had; it
    never takes any other.  If the module refuses nothing, the choice succeeds exactly
    if there is such a device.  If the devices are those of the list, it is exactly the
    entry's.  No two devices that are listed have the same GUID, there are fewer than
    2^15, and the module says truly whether its stream runs. *)
Theorem device_picked adm r recording table log infos log1 :
  shows adm recording table log -> NoDup (guids table) -> audio_devices adm r recording log = (infos, log1) -> infos <> [] ->
  i_name <$> infos = (listed 0 table).*2 /\ NoDup (i_id <$> infos)
  /\ forall k inf index name, infos !! k = Some inf -> listed 0 table !! k = Some (index, name) ->
     exists ident, identity table (Z.to_nat index) = Some ident
       /\ forall table' log2 ok log3, shows adm recording table' log2 -> set_audio_device adm r recording (i_id inf) log2 = (ok, log3) ->
            (truthful adm -> ok = true ->
               exists index', identity table' index' = Some ident /\ in_use recording log3 = Z.of_nat index'
                              /\ (table' = table -> Z.of_nat index' = index))
            /\ (obliging adm -> ok = true <-> exists index', identity table' index' = Some ident).
Proof.
  intros Hs Hg H Hne.
  pose proof (devices_from_distinct table 0 ∅ ltac:(lia) ltac:(intros n k; by rewrite lookup_empty) Hg) as Hdist.
  unfold audio_devices in H. destruct (_ || _) eqn:Hguard; [by injection H as <- <- |].
  assert (Hinfos : infos = info <$> devices_from 0 table ∅).
  { unfold list_audio_devices, mbind, M_bind in H. destruct (ensure_initialized adm log) as [ready l1] eqn:Hr.
    destruct ready; cbn [negb] in H; [| by injection H as <- <-].
    pose proof (ensure_initialized_shown _ _ _ _ Hs _ Hr) as He. destruct (enumerate_audio_devices _ _ _) as [ds l2]. cbn in He. subst ds.
    by injection H as <- <-. }
  subst infos. rewrite <- (devices_from_listed table 0 ∅), <- !list_fmap_compose. split; [reflexivity |]. split; [exact Hdist |].
  intros k inf index name Hk Hl. apply list_lookup_fmap_Some in Hk as (d & -> & Hd).
  rewrite list_lookup_fmap, Hd in Hl. injection Hl as <- <-. apply list_elem_of_lookup_2 in Hd as Hin.
  pose proof Hin as (i & ident & Hi & Hident & Hid)%device_identity. exists ident. rewrite Hi, Nat2Z.id, Hid. split; [done |].
  intros table' log2 ok log3 Hs' Hset. split; [| by eapply choice_succeeds].
  intros Ht Hok. destruct (chosen_is adm r recording table' ident log2 ok log3 Hguard Hs' Hset Ht Hok) as (i' & Hi' & Huse).
  exists i'. split_and!; try done. intros ->. f_equal. by eapply identity_distinct.
Qed.

(** ** A machine with four devices *)

Module Sample.

Definition table : Table :=
  [(0, chars "Built-in", []); (0, chars "USB", []); (-1, [], []); (0, chars "USB", []); (0, [], chars "{7}")].

(** It refuses to start a stream on device 3. *)
Definition answers (log : Log) (c : Call) : Z :=
  match c with
  | Initialized => 1
  | Devices _ => Z.of_nat (length table)
  | DeviceName _ i => match table !! Z.to_nat i with Some (e, _, _) => e | None => -1 end
  | Active d => if running d log then 1 else 0
  | StartStream d => if in_use d log =? 3 then -1 else 0
  | _ => 0
  end.

Definition names (log : Log) (recording : bool) (i : Z) : text * text :=
  match table !! Z.to_nat i with Some (_, name, guid) => (name, guid) | None => ([], []) end.

Definition machine : AudioDeviceModule := mkAdm answers names.
Definition runtime : Runtime := mkRuntime true false true.

(** A microphone that records from the default device. *)
Definition recording_log : Log := [(SetDevice true 0, 0); (InitEndpoint true, 0); (InitStream true, 0); (StartStream true, 0)].

Example the_list : (audio_devices machine runtime true []).1
  = [mkInfo (chars "default") (chars "System default (Built-in)"); mkInfo (chars "name:USB#0") (chars "USB");
     mkInfo (chars "name:USB#1") (chars "USB"); mkInfo (chars "guid:{7}") (chars "Unnamed audio device")].
Proof. vm_compute. reflexivity. Qed.

Lemma machine_truthful : truthful machine.
Proof. intros d log. cbn. by destruct (running d log). Qed.

Lemma machine_shows recording log : shows machine recording table log.
Proof.
  split; [done |]. intros asked _ _. split; [done |]. intros i e name guid H. cbn. unfold names. by rewrite Nat2Z.id, H.
Qed.

(** A refused start puts the default device back, and the stream goes on there. *)
Example refused :
  let '(ok, log) := set_audio_device machine runtime true (chars "name:USB#1") recording_log in
  ok = false /\ in_use true log = 0 /\ running true log = true.
Proof. vm_compute. auto. Qed.

Lemma device_changed_witness :
  let '(ok, log') := set_audio_device machine runtime true (chars "name:USB#0") recording_log in
  ok = true /\ in_use true log' = 1 /\ running true log' = true /\ exists calls, log' = recording_log ++ calls
    /\ set_when_stopped true true calls = true.
Proof.
  destruct (set_audio_device machine runtime true (chars "name:USB#0") recording_log) as [ok log'] eqn:H.
  pose proof (device_changed machine runtime true (chars "name:USB#0") recording_log ok log' machine_truthful H) as (calls & Hl & _ & Hs & _).
  assert (He : (ok, log') = set_audio_device machine runtime true (chars "name:USB#0") recording_log) by (by symmetry).
  vm_compute in He. injection He as -> ->. split; [done |]. split; [vm_compute; reflexivity |]. split; [vm_compute; reflexivity |].
  by exists calls.
Defined.

(** The same machine once the first of the devices named USB was unplugged, which a
    device name that is asked for a second time tells. *)
Definition unplugged : Table := [(0, chars "Built-in", []); (-1, [], []); (0, chars "USB", []); (0, [], chars "{7}")].
Definition now (log : Log) : Table := if decide (length log <= 10)%nat then table else unplugged.
Definition later : AudioDeviceModule :=
  mkAdm (fun log c => match c with
                      | Devices _ => Z.of_nat (length (now log))
                      | DeviceName _ i => match now log !! Z.to_nat i with Some (e, _, _) => e | None => -1 end
                      | _ => answers log c
                      end)
    (fun log _ i => match now log !! Z.to_nat i with Some (_, name, guid) => (name, guid) | None => ([], []) end).

(** Choosing the device that was listed first under the name then takes the other one,
    which was listed as a different entry. *)
Lemma another_device_chosen :
  let '(infos, log) := audio_devices later runtime true [] in
  i_id <$> infos = [chars "default"; chars "name:USB#0"; chars "name:USB#1"; chars "guid:{7}"]
  /\ let '(ok, log') := set_audio_device later runtime true (chars "name:USB#0") (log ++ recording_log) in
     ok = true /\ in_use true log' = 2 /\ now [] !! 1%nat = Some (0, chars "USB", []) /\ now (log ++ recording_log) !! 2%nat = now [] !! 3%nat.
Proof. vm_compute. auto 10. Qed.

Lemma device_picked_witness :
  let infos := (audio_devices machine runtime true []).1 in
  i_name <$> infos = (listed 0 table).*2 /\ NoDup (i_id <$> infos)
  /\ in_use true (set_audio_device machine runtime true (chars "name:USB#0") recording_log).2 = 1.
Proof.
  destruct (device_picked machine runtime true table [] _ _ (machine_shows true []) ltac:(vm_compute; repeat constructor; by apply not_elem_of_nil)
    (surjective_pairing (audio_devices machine runtime true [])) ltac:(vm_compute; discriminate)) as (Hn & Hd & Hpick).
  split; [exact Hn |]. split; [exact Hd |].
  destruct (Hpick 1%nat (mkInfo (chars "name:USB#0") (chars "USB")) 1 (chars "USB")) as (ident & Hid & Hset); [by vm_compute | by vm_compute |].
  destruct (Hset table recording_log true (set_audio_device machine runtime true (chars "name:USB#0") recording_log).2
    (machine_shows true recording_log) ltac:(vm_compute; reflexivity)) as [Hin _].
  destruct (Hin machine_truthful eq_refl) as (i & _ & -> & Hi). by apply Hi.
Defined.
End Sample.
