(* ===== verification/SystemAudio.v ===== *)
(** * The sound of a shared screen (submit_system_audio in google_webrtc_client.cpp,
    InjectedPcmSource in google_webrtc_runtime.cpp)

    What the system plays is captured in pieces of any length, cut into frames of ten
    milliseconds, and queued for the thread of the WebRTC library that sends it. *)

From S2P Require Import Prelude Floats.
From S2P Require Playout.

Local Open Scope Z_scope.
Local Open Scope list_scope.

(** ** Samples *)

(** [lrint]: the nearest integer, ties to even; a value that is not a number, or is
    out of range, has no specified result. *)
Definition nearest_even (m k : Z) : Z :=
  let q := m / 2 ^ k in
  let r := m mod 2 ^ k in
  if 2 * r <? 2 ^ k then q else if 2 ^ k <? 2 * r then q + 1 else if Z.even q then q else q + 1.

Definition lrint (x : spec_float) : option Z :=
  match x with
  | S754_zero _ => Some 0
  | S754_finite s m e =>
    let a := if 0 <=? e then Zpos m * 2 ^ e else nearest_even (Zpos m) (- e) in
    let r := if s then - a else a in
    if (- 2 ^ 63 <=? r) && (r <? 2 ^ 63) then Some r else None
  | _ => None
  end.

Definition clamped (x : spec_float) : spec_float := Binary32.clamp x (Binary32.of_Z (- 1)) (Binary32.of_Z 1).

(** ** The queue of frames *)

Record InjectedAudioDeviceConfig := mkInjected { sample_rate_hz : Z; channels : Z; max_buffered_frames : nat }.

Definition is_supported_sample_rate (hz : Z) : bool := existsb (Z.eqb hz) [8000; 16000; 24000; 32000; 44100; 48000].

(** [validate] throws when this is [false]. *)
Definition validate (c : InjectedAudioDeviceConfig) : bool :=
  is_supported_sample_rate (sample_rate_hz c) && negb ((channels c =? 0) || (2 <? channels c))
  && negb (Nat.eqb (max_buffered_frames c) 0).

Record InjectedPcmSource := mkSource { samples_per_frame : nat; max_frames : nat; frames : list (list Z) }.

Definition new_source (c : InjectedAudioDeviceConfig) : InjectedPcmSource :=
  mkSource (Z.to_nat (sample_rate_hz c / 100 * channels c)) (max_buffered_frames c) [].

Definition submit (samples : list Z) (s : InjectedPcmSource) : bool * InjectedPcmSource :=
  if negb (Nat.eqb (length samples) (samples_per_frame s)) then (false, s)
  else if Nat.leb (max_frames s) (length (frames s)) then (false, s)
  else (true, mkSource (samples_per_frame s) (max_frames s) (frames s ++ [samples])).

Definition next_frame (s : InjectedPcmSource) : option (list Z) * InjectedPcmSource :=
  match frames s with
  | [] => (None, s)
  | f :: rest => (Some f, mkSource (samples_per_frame s) (max_frames s) rest)
  end.

(** [QueuedPcmCapturer::Capture]: the buffer that is sent. *)
Definition Capture (s : InjectedPcmSource) : list Z * InjectedPcmSource :=
  let '(frame, s) := next_frame s in
  (match frame with Some f => f | None => replicate (samples_per_frame s) 0 end, s).

(** The screen runtime's *)
Definition screen_config : InjectedAudioDeviceConfig := mkInjected Playout.kSampleRate Playout.kChannels 100.

(** ** Cutting frames *)

Definition kSamplesPerFrame : nat := Z.to_nat (Playout.kSampleRate / 100 * Playout.kChannels).

Record Sound := mkSound {
  system_audio_frame : list Z;
  system_audio_position : nat;
  source : InjectedPcmSource;
}.

Definition new_sound : Sound := mkSound (replicate kSamplesPerFrame 0) 0 (new_source screen_config).

Section Sound_.
(** What [lrint] makes of a value that is not a number. *)
Context (unspecified : Z).

Definition sample (x : spec_float) : Z :=
  s16 (default unspecified (lrint (Binary32.mul (clamped x) (Binary32.of_Z 32767)))).

(** One sample; writing outside the frame is [None]. *)
Definition submit_sample (x : spec_float) (w : Sound) : option Sound :=
  let p := system_audio_position w in
  if decide (p < length (system_audio_frame w))%nat then
    let frame := <[p := sample x]> (system_audio_frame w) in
    if Nat.eqb (S p) kSamplesPerFrame then Some (mkSound frame 0 (submit frame (source w)).2)
    else Some (mkSound frame (S p) (source w))
  else None.

Fixpoint submit_samples (xs : list spec_float) (w : Sound) : option Sound :=
  match xs with
  | [] => Some w
  | x :: xs => w ← submit_sample x w; submit_samples xs w
  end.

(** [submit_system_audio]: reading outside the samples is [None]. *)
Definition submit_system_audio (samples : option (list spec_float)) (n : nat) (channels : Z) (w : Sound) : option Sound :=
  match samples with
  | Some xs =>
    if negb (channels =? Playout.kChannels) then Some w
    else if decide (n * Z.to_nat channels <= length xs)%nat then submit_samples (take (n * Z.to_nat channels) xs) w
    else None
  | None => Some w
  end.

(** ** Runs *)

(** The capture delivers, the library asks for a frame, a share ends. *)
Inductive Act :=
  | Deliver (samples : option (list spec_float)) (n : nat) (channels : Z)
  | Send
  | End.

(** The buffers that were sent, and what is left. *)
Definition act (a : Act) (w : Sound) : option (list (list Z) * Sound) :=
  match a with
  | Deliver samples n channels => pair [] <$> submit_system_audio samples n channels w
  | Send => let '(b, s) := Capture (source w) in Some ([b], mkSound (system_audio_frame w) (system_audio_position w) s)
  | End => Some ([], mkSound (system_audio_frame w) 0 (source w))
  end.

Fixpoint run (acts : list Act) (w : Sound) : option (list (list Z) * Sound) :=
  match acts with
  | [] => Some ([], w)
  | a :: acts => '(out, w) ← act a w; '(outs, w) ← run acts w; Some (out ++ outs, w)
  end.
End Sound_.

(** ** Rounding *)

Lemma nearest_even_bound m k limit : 0 <= k -> 0 <= m -> 2 * m < (2 * limit + 1) * 2 ^ k -> 0 <= nearest_even m k <= limit.
Proof.
  intros Hk Hm H. unfold nearest_even. assert (Hp : 0 < 2 ^ k) by (apply Z.pow_pos_nonneg; lia).
  pose proof (Z.div_mod m (2 ^ k) ltac:(lia)) as Hdm. pose proof (Z.mod_pos_bound m (2 ^ k) Hp) as Hr.
  set (q := m / 2 ^ k) in *. set (r := m mod 2 ^ k) in *. assert (0 <= q) by (apply Z.div_pos; lia). assert (q <= limit) by nia.
  cbv zeta. destruct (Z.ltb_spec (2 * r) (2 ^ k)); [lia |].
  assert (q < limit) by nia. destruct (2 ^ k <? 2 * r); [lia |]. destruct (Z.even q); lia.
Qed.

Lemma lrint_bound s m e limit : 0 <= limit < 2 ^ 62 -> - 400 <= e -> 2 * Zpos m * 2 ^ (e + 400) < (2 * limit + 1) * 2 ^ 400 ->
  exists z, lrint (S754_finite s m e) = Some z /\ - limit <= z <= limit.
Proof.
  intros Hlim He H. cbn [lrint]. assert (Ha : 0 <= (if 0 <=? e then Zpos m * 2 ^ e else nearest_even (Zpos m) (- e)) <= limit).
  { destruct (Z.leb_spec 0 e) as [Hpos | Hneg].
    - rewrite Z.pow_add_r in H by lia. assert (0 < 2 ^ e) by (apply Z.pow_pos_nonneg; lia). assert (0 < 2 ^ 400) by (apply Z.pow_pos_nonneg; lia).
      set (X := Zpos m * 2 ^ e) in *. assert (2 * X < 2 * limit + 1); [| lia]. apply (Z.mul_lt_mono_pos_r (2 ^ 400)); [done |]. unfold X in *. lia.
    - apply nearest_even_bound; [lia | lia |]. assert (Hs : 0 < 2 ^ (e + 400)) by (apply Z.pow_pos_nonneg; lia).
      apply (Z.mul_lt_mono_pos_r (2 ^ (e + 400))); [done |].
      rewrite <- (Z.mul_assoc (2 * limit + 1)), <- Z.pow_add_r by lia. by replace (- e + (e + 400)) with 400 by lia. }
  set (a := if 0 <=? e then _ else _) in *. clearbody a. cbv zeta. exists (if s then - a else a).
  split; [| by destruct s; lia]. by destruct s; rewrite (proj2 (Z.leb_le _ _)), (proj2 (Z.ltb_lt _ _)) by lia.
Qed.

(** What is clamped lies between -1 and 1. *)
Lemma clamped_small x : is_number x ->
  (exists s, clamped x = S754_zero s)
  \/ exists s m e, clamped x = S754_finite s m e /\ - 149 <= e /\ Zpos m * 2 ^ (e + 400) <= 2 ^ 400.
Proof.
  intros [Hv Hn]. unfold clamped, Binary32.clamp, Binary32.ltb, SFltb.
  replace (Binary32.of_Z (- 1)) with (S754_finite true 8388608 (-23)) by reflexivity.
  replace (Binary32.of_Z 1) with (S754_finite false 8388608 (-23)) by reflexivity.
  assert (Hone : forall s, exists s' m e, S754_finite s 8388608 (-23) = S754_finite s' m e /\ - 149 <= e /\ Zpos m * 2 ^ (e + 400) <= 2 ^ 400).
  { intros s. exists s, 8388608%positive, (-23). split_and!; [done | lia | vm_compute; discriminate]. }
  destruct x as [s | [] | | s m e]; [left | right; apply Hone | right; apply Hone | done | right].
  - exists s. by destruct s.
  - cbn [valid_binary] in Hv. unfold bounded in Hv. apply andb_true_iff in Hv as [Hc _]. unfold canonical_mantissa in Hc. apply Z.eqb_eq in Hc.
    unfold fexp, emin in Hc. pose proof (digits_bounds m) as [_ Hm].
    assert (Hm24 : Zpos m < 2 ^ 24) by (eapply Z.lt_le_trans; [exact Hm | apply Z.pow_le_mono_r; lia]).
    assert (He : - 149 <= e) by lia. clear Hc Hm.
    pose proof (small_mantissa (-23) m e He ltac:(lia) Hm24) as [Hlow Heq].
    destruct s; cbn [SFcompare].
    + destruct (Z.compare_spec e (-23)) as [He1 | He1 | He1]; cbn [CompOpp]; [| | apply Hone].
      * destruct (Pos.compare_cont Eq m 8388608) eqn:Hcmp; cbn [CompOpp]; [| | apply Hone].
        -- exists true, m, e. split_and!; [done | done |]. apply Heq; [done |]. apply compare_cont_le. by rewrite Hcmp.
        -- exists true, m, e. split_and!; [done | done |]. apply Heq; [done |]. apply compare_cont_le. by rewrite Hcmp.
      * exists true, m, e. split_and!; [done | done |]. by apply Hlow.
    + destruct (Z.compare_spec (-23) e) as [He1 | He1 | He1]; [| apply Hone |].
      * destruct (Pos.compare_cont Eq 8388608 m) eqn:Hcmp; [| apply Hone |].
        -- exists false, m, e. split_and!; [done | done |]. apply Heq; [done |]. apply compare_cont_ge. by rewrite Hcmp.
        -- exists false, m, e. split_and!; [done | done |]. apply Heq; [done |]. apply compare_cont_ge. by rewrite Hcmp.
      * exists false, m, e. split_and!; [done | done |]. by apply Hlow.
Qed.

Lemma sample_range unspecified x : is_number x -> - 32767 <= sample unspecified x <= 32767.
Proof.
  intros Hx. unfold sample. replace (Binary32.of_Z 32767) with (S754_finite false 16776704 (-9)) by reflexivity.
  assert (H : exists z, lrint (Binary32.mul (clamped x) (S754_finite false 16776704 (-9))) = Some z /\ - 32767 <= z <= 32767).
  { destruct (clamped_small x Hx) as [[s ->] | (s & m & e & -> & He & Hm)]; [by exists 0 |].
    unfold Binary32.mul. cbn [SFmul]. rewrite xorb_false_r.
    destruct (round_near s (m * 16776704) (e + -9) 32767 ltac:(lia)) as [-> | (m' & e' & -> & He' & Hm')].
    - lia.
    - rewrite Pos2Z.inj_mul. replace (e + 400) with (9 + (e + -9 + 400)) in Hm by lia. rewrite Z.pow_add_r in Hm by lia.
      assert (0 < 2 ^ (e + -9 + 400)) by (apply Z.pow_pos_nonneg; lia). nia.
    - by exists 0.
    - apply (lrint_bound s m' e' 32767); [lia | done |]. assert (2 ^ 400 = 512 * 2 ^ 391) by (vm_compute; reflexivity). assert (0 < 2 ^ 391) by (apply Z.pow_pos_nonneg; lia). nia. }
  destruct H as (z & -> & Hz). cbn. unfold s16, u16, wrap. cbv zeta.
  destruct (Z.ltb_spec (z mod 2 ^ 16) (2 ^ 15)); [rewrite Z.mod_small in *; try lia |].
  all: destruct (Z.lt_ge_cases z 0); rewrite ?(Z.mod_small z) in * by lia; try lia.
  all: pose proof (Z_mod_plus_full z 1 (2 ^ 16)) as Hp; rewrite Z.mod_small in Hp by lia; lia.
Qed.

(** ** Frames *)

(** The whole frames of what was captured, and the rest. *)
Definition chunks (l : list Z) : list (list Z) :=
  (fun i => take kSamplesPerFrame (drop (i * kSamplesPerFrame) l)) <$> seq 0 (length l / kSamplesPerFrame).
Definition tail (l : list Z) : list Z := drop (length l / kSamplesPerFrame * kSamplesPerFrame) l.

Lemma frame_pos : (0 < kSamplesPerFrame)%nat.
Proof. vm_compute. lia. Qed.

Section Chunks.
Local Abbreviation K := kSamplesPerFrame.

Lemma tail_length l : (length (tail l) < K)%nat /\ (length l = length l / K * K + length (tail l))%nat.
Proof.
  pose proof frame_pos.  unfold tail. rewrite length_drop.
  pose proof (Nat.div_mod_eq (length l) K). pose proof (Nat.mod_upper_bound (length l) K ltac:(lia)). nia.
Qed.

Lemma chunk_app (l l' : list Z) i : (S i * K <= length l)%nat -> take K (drop (i * K) (l ++ l')) = take K (drop (i * K) l).
Proof. intros H. rewrite drop_app_le by nia. rewrite take_app_le; [done |]. rewrite length_drop. nia. Qed.

Lemma chunks_snoc l y :
  if decide (S (length (tail l)) = K)
  then chunks (l ++ [y]) = chunks l ++ [tail l ++ [y]] /\ tail (l ++ [y]) = []
  else chunks (l ++ [y]) = chunks l /\ tail (l ++ [y]) = tail l ++ [y].
Proof.
  pose proof frame_pos as HK.  destruct (tail_length l) as [Hlt Hlen].
  set (q := (length l / K)%nat) in *. assert (Hl1 : length (l ++ [y]) = S (length l)) by (rewrite length_app; cbn; lia).
  assert (Hsame : (fun i => take K (drop (i * K) (l ++ [y]))) <$> seq 0 q = chunks l).
  { unfold chunks. fold q. apply list_fmap_ext. intros i x Hx. apply lookup_seq in Hx as [-> Hi]. apply chunk_app. nia. }
  destruct (decide _) as [Hfull | Hpart].
  - assert (Hq : (length (l ++ [y]) / K = S q)%nat).
    { rewrite Hl1. symmetry. apply (Nat.div_unique _ _ _ 0); lia. }
    unfold chunks at 1, tail at 2. rewrite Hq, seq_S, fmap_app, Hsame. cbn [fmap list_fmap Nat.add]. split.
    + do 2 f_equal. rewrite drop_app_le by lia. unfold tail. fold q. rewrite take_ge; [done |]. rewrite length_app, length_drop. cbn. lia.
    + apply drop_ge. rewrite Hl1. nia.
  - assert (Hq : (length (l ++ [y]) / K = q)%nat).
    { rewrite Hl1. symmetry. apply (Nat.div_unique _ _ _ (S (length (tail l)))); lia. }
    unfold chunks at 1, tail at 1. rewrite Hq, Hsame. split; [done |]. rewrite drop_app_le by lia. done.
Qed.

Lemma chunks_length l : Forall (fun f => length f = K) (chunks l).
Proof.
  apply Forall_fmap, Forall_forall. intros i Hi. apply elem_of_seq in Hi. cbn. destruct (tail_length l) as [_ Hlen].
  rewrite length_take, length_drop.  nia.
Qed.

(** What is written into the frame is what was captured since the last whole one. *)
Record cutting (segment : list Z) (w : Sound) : Prop := {
  cut_length : length (system_audio_frame w) = K;
  cut_position : system_audio_position w = length (tail segment);
  cut_filled : take (system_audio_position w) (system_audio_frame w) = tail segment;
}.

(** Frames that are submitted one after another. *)
Definition submit_all (new : list (list Z)) (s : InjectedPcmSource) : InjectedPcmSource := foldl (fun s f => (submit f s).2) s new.

Context (unspecified : Z).

Lemma submit_sample_cuts segment x w : cutting segment w ->
  exists w' new, submit_sample unspecified x w = Some w' /\ cutting (segment ++ [sample unspecified x]) w'
    /\ chunks (segment ++ [sample unspecified x]) = chunks segment ++ new /\ source w' = submit_all new (source w).
Proof.
  intros [Hl Hp Hf]. destruct (tail_length segment) as [Hlt _]. unfold submit_sample. rewrite decide_True by lia.
  set (y := sample unspecified x). pose proof (chunks_snoc segment y) as Hc. set (frame := <[_ := y]> _).
  assert (Hlen : length frame = K) by (unfold frame; by rewrite length_insert).
  assert (Htake : take (S (system_audio_position w)) frame = tail segment ++ [y]).
  { rewrite (take_S_r _ _ y) by (unfold frame; apply list_lookup_insert_eq; lia). unfold frame. by rewrite take_insert_ge, Hf. }
  destruct (decide _) as [Hfull | Hpart]; destruct Hc as [Hc Ht].
  - rewrite (proj2 (Nat.eqb_eq _ _)) by (lia). eexists _, [tail segment ++ [y]]. split; [reflexivity |].
    split; [split; cbn; rewrite ?Ht; done |]. split; [done |]. cbn. by rewrite <- Htake, Hp, Hfull, <- Hlen, take_ge.
  - rewrite (proj2 (Nat.eqb_neq _ _)) by (lia). eexists _, []. split; [reflexivity |].
    split; [| by rewrite app_nil_r]. split; cbn; [done | rewrite Ht, length_app; cbn; lia | by rewrite Htake, Ht].
Qed.

Lemma submit_samples_cuts xs : forall segment w, cutting segment w ->
  exists w' new, submit_samples unspecified xs w = Some w' /\ cutting (segment ++ (sample unspecified <$> xs)) w'
    /\ chunks (segment ++ (sample unspecified <$> xs)) = chunks segment ++ new /\ source w' = submit_all new (source w).
Proof.
  induction xs as [| x xs IH]; intros segment w Hw.
  - exists w, []. cbn. by rewrite !app_nil_r.
  - destruct (submit_sample_cuts segment x w Hw) as (w1 & n1 & H1 & Hw1 & Hc1 & Hs1).
    destruct (IH _ _ Hw1) as (w2 & n2 & H2 & Hw2 & Hc2 & Hs2). rewrite fmap_cons, cons_middle, app_assoc.
    exists w2, (n1 ++ n2). cbn [submit_samples]. rewrite H1. split; [exact H2 |]. split; [exact Hw2 |].
    split; [by rewrite Hc2, Hc1, app_assoc |]. rewrite Hs2, Hs1. unfold submit_all. by rewrite foldl_app.
Qed.
End Chunks.

(** A queue that was given frames keeps those for which it has room. *)
Lemma submit_all_kept new : forall s, Forall (fun f => length f = samples_per_frame s) new ->
  exists kept, kept `sublist_of` new /\ submit_all new s = mkSource (samples_per_frame s) (max_frames s) (frames s ++ kept)
    /\ ((length (frames s) <= max_frames s)%nat -> (length (frames s ++ kept) <= max_frames s)%nat)
    /\ ((length (frames s) + length new <= max_frames s)%nat -> kept = new).
Proof.
  induction new as [| f new IH]; intros s Hf.
  - exists []. cbn. rewrite app_nil_r. by destruct s.
  - apply Forall_cons in Hf as [Hl Hf]. assert (Hsub : (submit f s).2 = if Nat.leb (max_frames s) (length (frames s)) then s else mkSource (samples_per_frame s) (max_frames s) (frames s ++ [f])).
    { unfold submit. rewrite (proj2 (Nat.eqb_eq _ _) Hl). cbn [negb]. by destruct (Nat.leb _ _). }
    change (submit_all (f :: new) s) with (submit_all new (submit f s).2). rewrite Hsub.
    destruct (Nat.leb_spec (max_frames s) (length (frames s))) as [Hfull | Hroom].
    + destruct (IH s Hf) as (kept & Hk & Hs & Hle & _). exists kept. split_and!; [by constructor | exact Hs | exact Hle | cbn; lia].
    + destruct (IH (mkSource (samples_per_frame s) (max_frames s) (frames s ++ [f])) Hf) as (kept & Hk & Hs & Hle & Hall). cbn in Hs, Hle, Hall.
      rewrite length_app in Hle, Hall. cbn in Hle, Hall. exists (f :: kept). rewrite <- app_assoc in Hs, Hle. cbn in Hs, Hle.
      split_and!; [by constructor | exact Hs | intros _; apply Hle; lia | cbn; intros H; f_equal; apply Hall; lia].
Qed.

(** ** What is sent *)

Section Sent.
Context (unspecified : Z).

(** The samples that an act delivers, and what the capture promises about them. *)
Definition delivered (a : Act) : list spec_float :=
  match a with
  | Deliver (Some xs) n channels => if channels =? Playout.kChannels then take (n * Z.to_nat channels) xs else []
  | _ => []
  end.
Definition inside (a : Act) : Prop :=
  match a with
  | Deliver (Some xs) n channels => channels = Playout.kChannels -> (n * Z.to_nat channels <= length xs)%nat
  | _ => True
  end.

(** The frames of the shares that ended, and the samples of the present one: cut
    without regard to how they were delivered. *)
Definition cut_step (c : list (list Z) * list Z) (a : Act) : list (list Z) * list Z :=
  match a with
  | Deliver _ _ _ => (c.1, c.2 ++ (sample unspecified <$> delivered a))
  | Send => c
  | End => (c.1 ++ chunks c.2, [])
  end.
Definition cut_state (acts : list Act) : list (list Z) * list Z := foldl cut_step ([], []) acts.
Definition cut (acts : list Act) : list (list Z) := (cut_state acts).1 ++ chunks (cut_state acts).2.

Definition sends (acts : list Act) : nat := length (List.filter (fun a => match a with Send => true | _ => false end) acts).

Definition silence : list Z := replicate kSamplesPerFrame 0.

(** The queue always has room for what is about to be cut. *)
Definition roomy (acts : list Act) : Prop :=
  forall pre a post out w, acts = pre ++ a :: post -> run unspecified pre new_sound = Some (out, w) ->
    (length (frames (source w)) + (length (cut (pre ++ [a])) - length (cut pre)) <= max_buffered_frames screen_config)%nat.

Lemma sound_run_snoc acts a : forall w, run unspecified (acts ++ [a]) w =
  ('(outs, w) ← run unspecified acts w; '(out, w) ← act unspecified a w; Some (outs ++ out, w)).
Proof.
  induction acts as [| b acts IH]; intros w; cbn [app run].
  - cbn. destruct (act unspecified a w) as [[out w1] |]; cbn; [by rewrite app_nil_r | done].
  - destruct (act unspecified b w) as [[o1 w1] |]; cbn; [| done]. rewrite IH. destruct (run unspecified acts w1) as [[o2 w2] |]; cbn; [| done].
    destruct (act unspecified a w2) as [[o3 w3] |]; cbn; [| done]. by rewrite app_assoc.
Qed.

(** How what was sent and what is queued relate to what was cut: [sent] tells, for each
    buffer, the frame it is, or that it is silent. *)
Record sound_ok (acts : list Act) (sent : list (option (list Z))) (out : list (list Z)) (w : Sound) : Prop := {
  ok_cutting : cutting (cut_state acts).2 w;
  ok_per : samples_per_frame (source w) = kSamplesPerFrame;
  ok_max : max_frames (source w) = max_buffered_frames screen_config;
  ok_bounded : (length (frames (source w)) <= max_buffered_frames screen_config)%nat;
  ok_out : out = default silence <$> sent;
  ok_count : length sent = sends acts;
  ok_order : omap id sent ++ frames (source w) `sublist_of` cut acts;
  ok_all : roomy acts -> omap id sent ++ frames (source w) = cut acts;
}.

Lemma sends_snoc acts a : sends (acts ++ [a]) = (sends acts + match a with Send => 1 | _ => 0 end)%nat.
Proof. unfold sends. rewrite List.filter_app, length_app. by destruct a. Qed.

Lemma roomy_snoc acts a : roomy (acts ++ [a]) -> roomy acts.
Proof. intros H pre b post out w ->. apply (H pre b (post ++ [a])). by rewrite <- app_assoc. Qed.

Lemma new_sound_ok : sound_ok [] [] [] new_sound.
Proof.
  split; [by split | done | done | cbn; lia | done | done | done | done].
Qed.

Lemma deliver_ok acts sent out w samples n channels :
  run unspecified acts new_sound = Some (out, w) -> inside (Deliver samples n channels) -> sound_ok acts sent out w ->
  exists w', act unspecified (Deliver samples n channels) w = Some ([], w') /\ sound_ok (acts ++ [Deliver samples n channels]) sent out w'.
Proof.
  intros Hrun Hin [Hc Hp Hm Hb Ho Hn Hs Ha]. set (a := Deliver samples n channels) in *.
  destruct (submit_samples_cuts unspecified (delivered a) _ w Hc) as (w' & new & Hsub & Hc' & Hch & Hsrc).
  assert (Hact : act unspecified a w = Some ([], w')).
  { unfold a, act, submit_system_audio. destruct samples as [xs |]; cbn in Hsub |- *; [| by injection Hsub as <-].
    destruct (Z.eqb_spec channels Playout.kChannels) as [He |]; cbn [negb]; [| by injection Hsub as <-].
    rewrite decide_True by (by apply Hin). by rewrite Hsub. }
  exists w'. split; [exact Hact |].
  assert (Hcut : cut (acts ++ [a]) = cut acts ++ new).
  { unfold cut, cut_state. rewrite foldl_app. cbn [foldl]. fold (cut_state acts). unfold cut_step at 1 2, a. cbn [fst snd]. fold a.
    by rewrite Hch, app_assoc. }
  assert (Hfull : Forall (fun f => length f = samples_per_frame (source w)) new).
  { rewrite Hp. pose proof (chunks_length ((cut_state acts).2 ++ (sample unspecified <$> delivered a))) as Hall. rewrite Hch in Hall.
    by apply Forall_app in Hall as [_ ?]. }
  destruct (submit_all_kept new (source w) Hfull) as (kept & Hk & Hkept & Hle & Hroom). rewrite Hkept in Hsrc. rewrite Hm in Hle, Hroom.
  assert (Hst : cut_state (acts ++ [a]) = ((cut_state acts).1, (cut_state acts).2 ++ (sample unspecified <$> delivered a))).
  { unfold cut_state at 1. rewrite foldl_app. done. }
  split; rewrite ?Hst, ?Hsrc; cbn [source samples_per_frame max_frames frames snd]; try done.
  - by apply Hle.
  - rewrite sends_snoc. unfold a. lia.
  - rewrite Hcut, app_assoc. by apply sublist_app.
  - intros Hr. rewrite Hcut, app_assoc, Ha by (by eapply roomy_snoc). f_equal. apply Hroom.
    pose proof (Hr acts a [] out w eq_refl Hrun) as Hlen. rewrite Hcut, length_app in Hlen. lia.
Qed.

Lemma sound_act_ok acts sent out w a :
  run unspecified acts new_sound = Some (out, w) -> inside a -> sound_ok acts sent out w ->
  exists new w', act unspecified a w = Some (default silence <$> new, w')
    /\ sound_ok (acts ++ [a]) (sent ++ new) (out ++ (default silence <$> new)) w'.
Proof.
  intros Hrun Hin Hok. destruct a as [samples n channels | |].
  - destruct (deliver_ok _ _ _ _ _ _ _ Hrun Hin Hok) as (w' & Hact & Hok'). exists [], w'. rewrite !app_nil_r. done.
  - destruct Hok as [Hc Hp Hm Hb Ho Hn Hs Ha]. cbn [act]. unfold Capture, next_frame.
    assert (Hst : cut_state (acts ++ [Send]) = cut_state acts) by (unfold cut_state; by rewrite foldl_app).
    assert (Hcut : cut (acts ++ [Send]) = cut acts) by (unfold cut; by rewrite Hst).
    destruct (frames (source w)) as [| f rest] eqn:Hf.
    + exists [None]. eexists. rewrite Hp. split; [reflexivity |].
      split; cbn [source]; rewrite ?Hst, ?Hcut, ?Hf, ?omap_app.
      * by destruct Hc.
      * done.
      * done.
      * cbn. lia.
      * by rewrite Ho, fmap_app.
      * rewrite length_app, sends_snoc, Hn. done.
      * by rewrite app_nil_r.
      * intros Hr. rewrite app_nil_r. apply Ha. by eapply roomy_snoc.
    + exists [Some f]. eexists. split; [reflexivity |].
      split; cbn [source samples_per_frame max_frames frames]; rewrite ?Hst, ?Hcut, ?omap_app.
      * by destruct Hc.
      * done.
      * done.
      * cbn in Hb |- *. lia.
      * by rewrite Ho, fmap_app.
      * rewrite length_app, sends_snoc, Hn. done.
      * by rewrite <- app_assoc.
      * intros Hr. rewrite <- app_assoc. apply Ha. by eapply roomy_snoc.
  - destruct Hok as [Hc Hp Hm Hb Ho Hn Hs Ha]. exists []. eexists. cbn [act]. split; [reflexivity |]. rewrite !app_nil_r.
    assert (Hst : cut_state (acts ++ [End]) = ((cut_state acts).1 ++ chunks (cut_state acts).2, [])) by (unfold cut_state at 1; by rewrite foldl_app).
    assert (Hcut : cut (acts ++ [End]) = cut acts) by (unfold cut at 1; rewrite Hst; cbn [fst snd]; by rewrite app_nil_r).
    split; cbn [source]; rewrite ?Hst, ?Hcut; try done.
    + destruct Hc as [Hl _ _]. by split.
    + rewrite sends_snoc. lia.
    + intros Hr. apply Ha. by eapply roomy_snoc.
Qed.

Lemma sound_run_ok acts : Forall inside acts -> exists sent out w, run unspecified acts new_sound = Some (out, w) /\ sound_ok acts sent out w.
Proof.
  induction acts as [| a acts IH] using rev_ind; intros Hin.
  - exists [], [], new_sound. split; [done | apply new_sound_ok].
  - apply Forall_app in Hin as [Hin Ha%Forall_inv]. destruct (IH Hin) as (sent & out & w & Hrun & Hok).
    destruct (sound_act_ok _ _ _ _ _ Hrun Ha Hok) as (new & w' & Hact & Hok'). eexists _, _, w'. rewrite sound_run_snoc, Hrun. cbn. rewrite Hact. by split.
Qed.

(** Everything that was cut is a sample in range. *)
Definition in_range (z : Z) : Prop := - 32767 <= z <= 32767.

Lemma cut_state_range acts : Forall (fun a => Forall is_number (delivered a)) acts ->
  Forall (Forall in_range) (cut_state acts).1 /\ Forall in_range (cut_state acts).2.
Proof.
  assert (Hchunks : forall l, Forall in_range l -> Forall (Forall in_range) (chunks l)).
  { intros l Hl. apply Forall_fmap, Forall_forall. intros i _. cbn. by apply Forall_take, Forall_drop. }
  induction acts as [| a acts IH] using rev_ind; intros Hn; [by split |].
  apply Forall_app in Hn as [Hn Ha%Forall_inv]. destruct (IH Hn) as [H1 H2]. unfold cut_state in *. rewrite foldl_app. cbn [foldl].
  destruct a; cbn [cut_step fst snd]; split; try done.
  - apply Forall_app. split; [done |]. apply Forall_fmap. eapply Forall_impl; [exact Ha |]. intros x Hx. by apply sample_range.
  - apply Forall_app. split; [done | by apply Hchunks].
Qed.

Lemma cut_range acts : Forall (fun a => Forall is_number (delivered a)) acts -> Forall (Forall in_range) (cut acts).
Proof.
  intros H. destruct (cut_state_range acts H) as [H1 H2]. apply Forall_app. split; [done |].
  apply Forall_fmap, Forall_forall. intros i _. cbn. by apply Forall_take, Forall_drop.
Qed.
End Sent.

(** Every frame that was cut is whole. *)
Lemma cut_whole unspecified acts : Forall (fun f => length f = kSamplesPerFrame) (cut unspecified acts).
Proof.
  apply Forall_app. split; [| apply chunks_length]. induction acts as [| a acts IH] using rev_ind; [constructor |].
  unfold cut_state in *. rewrite foldl_app. destruct a; cbn [foldl cut_step fst]; try done. apply Forall_app. split; [done | apply chunks_length].
Qed.

Lemma sent_from_cut unspecified acts sent out w (P : list Z -> Prop) :
  sound_ok unspecified acts sent out w -> P silence -> Forall P (cut unspecified acts) -> Forall P out.
Proof.
  intros Hok Hsil Hcut. rewrite (ok_out _ _ _ _ _ Hok). apply Forall_fmap, Forall_forall. intros [f |] Hf; [| done]. cbn.
  rewrite Forall_forall in Hcut. apply Hcut. eapply elem_of_sublist; [| apply (ok_order _ _ _ _ _ Hok)]. apply elem_of_app. left.
  apply list_elem_of_omap. by exists (Some f).
Qed.

(** C25 The sound of a shared screen reaches the library as it was captured: however the
    samples are cut into deliveries, no access leaves a buffer, the library gets one
    whole frame of ten milliseconds each time it asks, and the frames it got and those
    that wait are, in order, frames of the captured sound, between which there is only
    silence; none is lost if the queue has room, which never holds more than its limit;
    and every sample is in range, whatever the rounding. *)
Theorem sound_sent unspecified acts : Forall inside acts ->
  exists sent out w, run unspecified acts new_sound = Some (out, w)
    /\ out = default silence <$> sent /\ length sent = sends acts
    /\ Forall (fun b => length b = kSamplesPerFrame) out
    /\ (length (frames (source w)) <= max_buffered_frames screen_config)%nat
    /\ omap id sent ++ frames (source w) `sublist_of` cut unspecified acts
    /\ (roomy unspecified acts -> omap id sent ++ frames (source w) = cut unspecified acts)
    /\ (Forall (fun a => Forall is_number (delivered a)) acts -> Forall (Forall in_range) out).
Proof.
  intros Hin. destruct (sound_run_ok unspecified acts Hin) as (sent & out & w & Hrun & Hok). exists sent, out, w.
  pose proof Hok as [_ _ _ Hb Ho Hn Hs Ha]. split_and!; try done.
  - eapply sent_from_cut; [exact Hok | apply length_replicate | apply cut_whole].
  - intros Hnum. eapply sent_from_cut; [exact Hok | | by apply cut_range].
    apply Forall_replicate. unfold in_range. lia.
Qed.

(** ** Examples *)

Module Sample.

Definition one : spec_float := Binary32.of_Z 1.
Definition half : spec_float := Binary32.div (Binary32.of_Z (- 1)) (Binary32.of_Z 2).

(** The runtime accepts the screen's configuration, and its frames are those cut here. *)
Example screen_config_valid : validate screen_config = true /\ samples_per_frame (new_source screen_config) = kSamplesPerFrame.
Proof. done. Qed.

Example samples : sample 0 one = 32767 /\ sample 0 half = -16384 /\ sample 0 (S754_infinity true) = -32767 /\ sample 0 (Binary32.of_Z 7) = 32767.
Proof. vm_compute. done. Qed.

(** Two deliveries of 300 frames make one frame of 480; the library asks three times. *)
Definition acts : list Act :=
  [Send; Deliver (Some (replicate 600 one)) 300 2; Deliver None 300 2; Deliver (Some (replicate 600 half)) 300 2; Send; Send].

(** Frames that wait when a share ends are not dropped: they are sent in the next one. *)
Lemma stale_sound :
  run 0 [Deliver (Some (replicate 960 one)) 480 2; End; Send] new_sound
  = Some ([replicate 960 32767], mkSound (replicate 960 32767) 0 (new_source screen_config)).
Proof. vm_compute. reflexivity. Qed.

Lemma sound_sent_witness :
  run 0 acts new_sound ≫= (fun r => Some r.1) = Some [silence; replicate 600 32767 ++ replicate 360 (-16384); silence]
  /\ exists sent out w, run 0 acts new_sound = Some (out, w) /\ out = default silence <$> sent /\ length sent = 3%nat.
Proof.
  split; [vm_compute; reflexivity |].
  destruct (sound_sent 0 acts) as (sent & out & w & Hr & Ho & Hn & _); [by repeat constructor; cbn; lia |].
  exists sent, out, w. split; [exact Hr |]. split; [exact Ho | exact Hn].
Defined.
End Sample.
