(* ===== verification/LoopbackCapture.v ===== *)
(** * Capturing what the system plays (core/src/audio/capture)

    [SystemAudioCaptureWin] (system_audio_capture_win.cpp): the COM objects that it
    acquires and releases, and the thread that reads packets.  COM and WASAPI answer
    calls as they like ([Calls]); an [HRESULT] that is negative is a failure.
    [PulseCapture] ([SystemAudioCaptureLinux], system_audio_capture_linux.cpp): the same on PulseAudio.  What either
    delivers is what [SystemAudio] takes. *)

From S2P Require Import Prelude Text Floats Calls.
From S2P Require SystemAudio.

Local Open Scope Z_scope.
Local Open Scope list_scope.

(** ** COM *)

Inductive Call :=
  | CoInitializeEx
  | CoUninitialize
  (* process loopback *)
  | ActivateAudioInterfaceAsync
  | WaitForSingleObject
  | GetActivateResult
  | QueryAudioClient
  | ReleaseHandler
  | ReleaseOp
  (* standard loopback *)
  | CreateEnumerator
  | GetDefaultAudioEndpoint
  | ReleaseEnumerator
  | Activate
  | ReleaseDevice
  (* the client and its capture service *)
  | Initialize (flags : Z)
  | GetService
  | StartClient
  | StopClient
  | ReleaseClient
  | ReleaseCapture.

Definition failed (hr : Z) : bool := hr <? 0.

Definition AUDCLNT_STREAMFLAGS_LOOPBACK : Z := 131072.
Definition AUDCLNT_STREAMFLAGS_AUTOCONVERTPCM : Z := 2147483648.
Definition AUDCLNT_STREAMFLAGS_SRC_DEFAULT_QUALITY : Z := 134217728.

(** The members that outlive a call; pointers are null or not. *)
Record Capture := mkCapture { running : bool; co_initialized : bool; audio_client : bool; capture_client : bool }.

Definition new_capture : Capture := mkCapture false false false false.

Section Win.
Context (answer : list (Call * Z) -> Call -> Z).

Abbreviation com_call := (call answer).

(** Whether it succeeded, and whether there is a client then. *)
Definition init_client (extra_flags : Z) : M Call (bool * bool) :=
  hr ← com_call (Initialize (Z.lor extra_flags (Z.lor AUDCLNT_STREAMFLAGS_AUTOCONVERTPCM AUDCLNT_STREAMFLAGS_SRC_DEFAULT_QUALITY)));
  if failed hr then (_ ← com_call ReleaseClient; mret (false, false)) else mret (true, true).

(** The handler is made here; the operation is there once the activation was begun. *)
Definition release_handler_and_op : M Call (bool * bool) :=
  _ ← com_call ReleaseHandler; _ ← com_call ReleaseOp; mret (false, false).

Definition try_process_loopback : M Call (bool * bool) :=
  hr ← com_call ActivateAudioInterfaceAsync;
  if failed hr then (_ ← com_call ReleaseHandler; mret (false, false)) else
  w ← com_call WaitForSingleObject;
  if negb (w =? 0) then release_handler_and_op else
  r ← com_call GetActivateResult;
  if failed r then release_handler_and_op else
  q ← com_call QueryAudioClient;
  _ ← com_call ReleaseHandler;
  _ ← com_call ReleaseOp;
  if failed q then mret (false, false) else init_client 0.

Definition init_standard_loopback : M Call (bool * bool) :=
  hr ← com_call CreateEnumerator;
  if failed hr then mret (false, false) else
  hr ← com_call GetDefaultAudioEndpoint;
  _ ← com_call ReleaseEnumerator;
  if failed hr then mret (false, false) else
  hr ← com_call Activate;
  _ ← com_call ReleaseDevice;
  if failed hr then mret (false, false) else init_client AUDCLNT_STREAMFLAGS_LOOPBACK.

Definition cleanup_client (s : Capture) : M Call Capture :=
  _ ← (if audio_client s then (_ ← com_call StopClient; mret tt) else mret tt);
  _ ← (if capture_client s then (_ ← com_call ReleaseCapture; mret tt) else mret tt);
  _ ← (if audio_client s then (_ ← com_call ReleaseClient; mret tt) else mret tt);
  mret (mkCapture (running s) (co_initialized s) false false).

(** [start]; the thread is made when it succeeds. *)
Definition start (s : Capture) : M Call (bool * Capture) :=
  if running s then mret (true, s) else
  hr ← com_call CoInitializeEx;
  let co := negb (failed hr) || (hr =? 1) in
  '(first, client) ← try_process_loopback;
  '(initialized, client) ← (if first : bool then mret (first, client) else init_standard_loopback);
  if negb initialized then mret (false, mkCapture false co client (capture_client s)) else
  hr ← com_call GetService;
  if failed hr then
    s ← cleanup_client (mkCapture false co client (capture_client s)); mret (false, s)
  else
    hr ← com_call StartClient;
    if failed hr then
      s ← cleanup_client (mkCapture false co client true); mret (false, s)
    else mret (true, mkCapture true co client true).

(** [stop], and the destructor. *)
Definition stop (s : Capture) : M Call Capture :=
  if negb (running s) then mret s else
  s ← cleanup_client (mkCapture false (co_initialized s) (audio_client s) (capture_client s));
  if co_initialized s then (_ ← com_call CoUninitialize; mret (mkCapture false false (audio_client s) (capture_client s)))
  else mret s.

(** ** Runs *)

Inductive Act := Start | Stop.

Definition act (s : Capture) (a : Act) : M Call Capture :=
  match a with Start => ('(_, s) ← start s; mret s) | Stop => stop s end.

Fixpoint run (acts : list Act) (s : Capture) : M Call Capture :=
  match acts with
  | [] => mret s
  | a :: acts => s ← act s a; run acts s
  end.
End Win.

(** ** Packets *)

(** A packet of the capture service: what [GetBuffer] answers, its samples, whether it is
    marked as silent, and what [GetNextPacketSize] answers after it. *)
Record Packet := mkPacket {
  p_get : Z; p_frames : nat; p_silent : bool; p_samples : list spec_float;
  p_next : Z; p_length : Z;
}.

Definition kChannels : nat := 2.

(** What the thread did with a packet. *)
Inductive Event :=
  | Delivered (samples : list spec_float) (frames : nat)
  | ReleaseBuffer (frames : nat).

(** The inner loop over the packets the service has; [true] if it ended because there
    are none left. *)
Fixpoint drain (packet_length : Z) (packets : list Packet) : list Event * bool :=
  if packet_length =? 0 then ([], true)
  else match packets with
  | [] => ([], false)
  | p :: packets =>
    if failed (p_get p) then ([], false)
    else
      let delivered :=
        if Nat.eqb (p_frames p) 0 then []
        else if p_silent p then [Delivered (replicate (p_frames p * kChannels) (S754_zero false)) (p_frames p)]
        else [Delivered (p_samples p) (p_frames p)] in
      let here := delivered ++ [ReleaseBuffer (p_frames p)] in
      if failed (p_next p) then (here, false)
      else let '(rest, b) := drain (p_length p) packets in (here ++ rest, b)
  end.

(** What is handed to [submit_system_audio]. *)
Definition deliveries (events : list Event) : list SystemAudio.Act :=
  omap (fun e => match e with
                 | Delivered xs n => Some (SystemAudio.Deliver (Some xs) n (Z.of_nat kChannels))
                 | ReleaseBuffer _ => None
                 end) events.

(** If the service's packets hold the samples they announce, so do the deliveries. *)
Lemma deliveries_inside packets : forall packet_length,
  Forall (fun p => length (p_samples p) = p_frames p * kChannels)%nat packets ->
  Forall SystemAudio.inside (deliveries (drain packet_length packets).1).
Proof.
  induction packets as [| p packets IH]; intros n H; cbn [drain]; destruct (n =? 0); try constructor.
  apply Forall_cons in H as [Hp H]. destruct (failed (p_get p)); [constructor |].
  assert (Hhere : forall xs m rest, (length xs = m * kChannels)%nat -> Forall SystemAudio.inside (deliveries rest) ->
            Forall SystemAudio.inside (deliveries (Delivered xs m :: rest))).
  { intros xs m rest Hl Hr. unfold deliveries. cbn. constructor; [| done]. cbn. intros _. rewrite Hl. unfold kChannels. lia. }
  specialize (IH (p_length p) H). destruct (drain (p_length p) packets) as [rest b]. cbn [fst] in IH.
  destruct (Nat.eqb _ _), (p_silent p), (failed (p_next p)); cbn [app fst]; try (apply Hhere; [by rewrite ?length_replicate |]); try done; try constructor.
Qed.

(** ** PulseAudio *)

Definition kFramesPerRead : nat := 960.

(** The source that is recorded: the monitor of an output. *)
Definition pulse_source (target_id : text) : text :=
  if decide (target_id = []) then chars "@DEFAULT_MONITOR@" else target_id ++ chars ".monitor".

(** [pa] is the stream, while there is one. *)
Record PulseCapture := mkPulse { pulse_running : bool; pa : option text }.

(** [connected] is whether [pa_simple_new] gives a stream. *)
Definition pulse_start (target_id : text) (connected : bool) (s : PulseCapture) : bool * PulseCapture :=
  if pulse_running s then (true, s)
  else if connected then (true, mkPulse true (Some (pulse_source target_id)))
  else (false, mkPulse false None).

Definition pulse_stop (s : PulseCapture) : PulseCapture := if pulse_running s then mkPulse false None else s.

(** The thread: what it reads until it is told to end or a read fails. *)
Fixpoint pulse_loop (reads : list (option (list spec_float))) : list SystemAudio.Act :=
  match reads with
  | Some buf :: reads => SystemAudio.Deliver (Some buf) kFramesPerRead (Z.of_nat kChannels) :: pulse_loop reads
  | _ => []
  end.

Lemma pulse_loop_inside reads :
  Forall (fun r => match r with Some buf => length buf = kFramesPerRead * kChannels | None => True end)%nat reads ->
  Forall SystemAudio.inside (pulse_loop reads).
Proof.
  induction 1 as [| [buf |] reads Hb _ IH]; cbn [pulse_loop]; constructor; [| done]. cbn. intros _. rewrite Hb. unfold kChannels, kFramesPerRead. lia.
Qed.
(** ** What is held *)

(** The references that are owned: of each object one or none, but for the interface
    that an activation hands over, and the times COM was initialised. *)
Record Held := mkHeld {
  handler : bool; op : bool; enumerator : bool; device : bool; client : bool; service : bool;
  activated : Z; com : Z;
}.

Definition nothing : Held := mkHeld false false false false false false 0 0.

(** What a call does to them: [None] if it uses or releases what is not held, or makes a
    second one. *)
Definition use (h : Held) (e : Call * Z) : option Held :=
  let '(mkHeld hd o en d cl sv ac co) := h in
  let ok := negb (failed e.2) in
  match e.1 with
  | CoInitializeEx => Some (mkHeld hd o en d cl sv ac (if ok then co + 1 else co))
  | CoUninitialize => if 0 <? co then Some (mkHeld hd o en d cl sv ac (co - 1)) else None
  | ActivateAudioInterfaceAsync => if hd || o then None else Some (mkHeld true ok en d cl sv ac co)
  | WaitForSingleObject => if hd then Some h else None
  | GetActivateResult => if hd then Some (mkHeld hd o en d cl sv (if ok then ac + 1 else ac) co) else None
  | QueryAudioClient => if negb (0 <? ac) || cl then None else Some (mkHeld hd o en d ok sv ac co)
  | ReleaseHandler => if hd then Some (mkHeld false o en d cl sv ac co) else None
  | ReleaseOp => if o then Some (mkHeld hd false en d cl sv ac co) else None
  | CreateEnumerator => if en then None else Some (mkHeld hd o ok d cl sv ac co)
  | GetDefaultAudioEndpoint => if negb en || d then None else Some (mkHeld hd o en ok cl sv ac co)
  | ReleaseEnumerator => if en then Some (mkHeld hd o false d cl sv ac co) else None
  | Activate => if negb d || cl then None else Some (mkHeld hd o en d ok sv ac co)
  | ReleaseDevice => if d then Some (mkHeld hd o en false cl sv ac co) else None
  | Initialize _ | StartClient | StopClient => if cl then Some h else None
  | GetService => if negb cl || sv then None else Some (mkHeld hd o en d cl ok ac co)
  | ReleaseClient => if cl then Some (mkHeld hd o en d false sv ac co) else None
  | ReleaseCapture => if sv then Some (mkHeld hd o en d cl false ac co) else None
  end.

Fixpoint uses (h : Held) (calls : list (Call * Z)) : option Held :=
  match calls with
  | [] => Some h
  | e :: calls => use h e ≫= fun h => uses h calls
  end.

(** Between calls: no activation object, the members, [a] interfaces and [c]
    initialisations. *)
Definition at_rest (cl sv : bool) (a c : Z) : Held := mkHeld false false false false cl sv a c.

Lemma uses_app h l l' : uses h (l ++ l') = uses h l ≫= fun h => uses h l'.
Proof. revert h. induction l as [| e l IH]; intros h; [done |]. cbn. destruct (use h e); cbn; [apply IH | done]. Qed.

(** A computation that logs what takes [h] to [h']. *)
Definition takes {A} (m : M Call A) (h : Held) (post : A -> Held -> Prop) : Prop :=
  forall log, exists calls h', (m log).2 = log ++ calls /\ uses h calls = Some h' /\ post (m log).1 h'.

Section Takes.
Context (answer : list (Call * Z) -> Call -> Z).

Lemma takes_ret {A} (a : A) h (post : A -> Held -> Prop) : post a h -> takes (mret a) h post.
Proof. intros H log. exists [], h. by rewrite app_nil_r. Qed.

Lemma takes_bind {A B} (m : M Call A) (k : A -> M Call B) h mid post :
  takes m h mid -> (forall a h, mid a h -> takes (k a) h post) -> takes (m ≫= k) h post.
Proof.
  intros Hm Hk log. destruct (Hm log) as (l1 & h1 & Hl1 & Hu1 & Hp1). destruct (Hk _ _ Hp1 (m log).2) as (l2 & h2 & Hl2 & Hu2 & Hp2).
  exists (l1 ++ l2), h2. unfold mbind, M_bind. destruct (m log) as [a log1]. cbn in *. subst log1. rewrite uses_app, Hu1.
  split; [by rewrite Hl2, app_assoc |]. by split.
Qed.

Lemma takes_call c h (post : Z -> Held -> Prop) : (forall a, exists h', use h (c, a) = Some h' /\ post a h') -> takes (call answer c) h post.
Proof.
  intros H log. destruct (H (answer log c)) as (h' & Hu & Hp). exists [(c, answer log c)], h'. cbn. rewrite Hu. done.
Qed.

Lemma takes_weaken {A} (m : M Call A) h (post post' : A -> Held -> Prop) :
  takes m h post -> (forall a h, post a h -> post' a h) -> takes m h post'.
Proof. intros H Hp log. destruct (H log) as (l & h' & ? & ? & ?). exists l, h'. auto. Qed.

Lemma takes_assoc {A B D} (m : M Call A) (k1 : A -> M Call B) (k2 : B -> M Call D) h post :
  takes (m ≫= fun x => k1 x ≫= k2) h post -> takes ((m ≫= k1) ≫= k2) h post.
Proof. intros H log. specialize (H log). unfold mbind, M_bind in *. by destruct (m log). Qed.

(** A call whose effect is computed. *)
Lemma takes_call_bind {B} c (k : Z -> M Call B) h post :
  (forall a, exists h', use h (c, a) = Some h' /\ takes (k a) h' post) -> takes (call answer c ≫= k) h post.
Proof.
  intros H. eapply (takes_bind _ _ _ (fun a h' => use h (c, a) = Some h')).
  - apply takes_call. intros a. destruct (H a) as (h' & Hu & _). by exists h'.
  - intros a h' Hu. destruct (H a) as (h2 & Hu2 & Hk). by simplify_eq.
Qed.
End Takes.

(** Steps through a computation, following its tests. *)
Ltac follow :=
  repeat match goal with
  | |- takes (call _ _ ≫= _) _ _ =>
    apply takes_call_bind; let a := fresh "a" in intros a; cbn [use fst snd negb orb];
    first [ match goal with |- context [failed a] => destruct (failed a) eqn:? end; cbn [negb]; eexists; (split; [reflexivity |]) | eexists; (split; [reflexivity |]) ]
  | |- takes (mret _) _ _ => apply takes_ret
  | |- takes ((_ ≫= _) ≫= _) _ _ => apply takes_assoc
  | |- takes (mret ?a ≫= ?k) ?h ?post => change (takes (k a) h post); cbv beta
  | |- context [if ?b then _ else _] => destruct b eqn:?; cbn [negb]
  end.

Section Proofs.
Context (answer : list (Call * Z) -> Call -> Z).

Lemma init_client_takes flags a c :
  takes (init_client answer flags) (at_rest true false a c) (fun r h => r.1 = r.2 /\ h = at_rest r.2 false a c).
Proof. unfold init_client, at_rest. follow; done. Qed.

Lemma try_process_loopback_takes a c : 0 <= a ->
  takes (try_process_loopback answer) (at_rest false false a c)
    (fun r h => r.1 = r.2 /\ exists a', 0 <= a' /\ h = at_rest r.2 false a' c).
Proof.
  intros Ha. unfold try_process_loopback, release_handler_and_op, at_rest. follow; try (cbn; by eauto).
  apply takes_call_bind; intros q; cbn [use fst snd]; rewrite (proj2 (Z.ltb_lt 0 (a + 1))) by lia; cbn [negb orb].
  destruct (failed q) eqn:Hq; (eexists; split; [reflexivity |]); follow; cbn; [split; [done |]; exists (a + 1); by split; [lia |] |].
  eapply takes_weaken; [apply init_client_takes |]; intros r h [-> ->]; split; [done |]; exists (a + 1); by split; [lia |].
Qed.

Lemma init_standard_loopback_takes a c :
  takes (init_standard_loopback answer) (at_rest false false a c) (fun r h => r.1 = r.2 /\ h = at_rest r.2 false a c).
Proof. unfold init_standard_loopback, at_rest. follow; try done. apply init_client_takes. Qed.

Lemma cleanup_client_takes s a c :
  takes (cleanup_client answer s) (at_rest (audio_client s) (capture_client s) a c)
    (fun s' h => s' = mkCapture (running s) (co_initialized s) false false /\ h = at_rest false false a c).
Proof.
  unfold cleanup_client. destruct s as [r co [] []]; cbn [audio_client capture_client running co_initialized]; unfold at_rest.
  all: cbn; follow; done.
Qed.

Lemma co_of hr : negb (failed hr) || (hr =? 1) = negb (failed hr).
Proof. unfold failed. destruct (Z.ltb_spec hr 0); cbn; [by apply Z.eqb_neq; lia | done]. Qed.

(** What is held agrees with the members: a client and its service while it runs, COM
    as often as it was initialised and not ended. *)
Definition holds_members (s : Capture) (h : Held) : Prop :=
  exists a c, 0 <= a /\ (if co_initialized s then 1 else 0) <= c /\ audio_client s = running s /\ capture_client s = running s
    /\ h = at_rest (running s) (running s) a c.

Lemma start_takes s h : holds_members s h -> takes (start answer s) h (fun r h => holds_members r.2 h /\ r.1 = running r.2).
Proof.
  intros (a & c & Ha & Hc & Hcl & Hsv & ->). unfold start. destruct (running s) eqn:Hr.
  { apply takes_ret. cbn. split; [| done]. exists a, c. rewrite Hr. auto. }
  apply takes_call_bind. intros hr. rewrite co_of. eexists. split; [reflexivity |]. cbn [fst snd]. set (co := negb (failed hr)).
  set (c' := if co then c + 1 else c). assert (Hc' : 0 <= c) by (destruct (co_initialized s); lia).
  assert (Hco : (if co then 1 else 0) <= c') by (unfold c'; destruct co; lia).
  assert (Hrest : forall b cl h, (b = cl /\ exists a', 0 <= a' /\ h = at_rest cl false a' c') ->
            takes (if negb b then mret (false, mkCapture false co cl (capture_client s)) else
              hr ← call answer GetService;
              if failed hr then s ← cleanup_client answer (mkCapture false co cl (capture_client s)); mret (false, s)
              else hr ← call answer StartClient;
                if failed hr then s ← cleanup_client answer (mkCapture false co cl true); mret (false, s)
                else mret (true, mkCapture true co cl true)) h (fun r h => holds_members r.2 h /\ r.1 = running r.2)).
  { intros b cl h (-> & a' & Ha' & ->). rewrite Hsv. destruct cl; cbn [negb].
    - unfold at_rest. follow.
      + eapply takes_bind; [apply (cleanup_client_takes (mkCapture false co true false)) |]. intros s' h' [-> ->]. apply takes_ret. cbn. split; [| done]. exists a', c'. auto.
      + eapply takes_bind; [apply (cleanup_client_takes (mkCapture false co true true)) |]. intros s' h' [-> ->]. apply takes_ret. cbn. split; [| done]. exists a', c'. auto.
      + cbn. split; [| done]. exists a', c'. auto.
    - apply takes_ret. cbn. split; [| done]. exists a', c'. auto. }
  eapply takes_bind; [apply (try_process_loopback_takes a c' Ha) |]. intros [first cl] h [Hf (a' & Ha' & ->)]. cbn in Hf. subst cl.
  eapply (takes_bind _ _ _ (fun r h => r.1 = r.2 /\ exists a', 0 <= a' /\ h = at_rest r.2 false a' c')).
  - destruct first; [apply takes_ret; cbn; eauto |]. eapply takes_weaken; [apply init_standard_loopback_takes |]. intros r h [H ->]. eauto.
  - intros [b cl] h H. by apply Hrest.
Qed.

Lemma stop_takes s h : holds_members s h -> takes (stop answer s) h (fun s h => holds_members s h /\ running s = false).
Proof.
  intros (a & c & Ha & Hc & Hcl & Hsv & ->). unfold stop. destruct (running s) eqn:Hr; cbn [negb].
  - eapply takes_bind.
    + pose proof (cleanup_client_takes (mkCapture false (co_initialized s) (audio_client s) (capture_client s)) a c) as H.
      cbn [audio_client capture_client] in H. rewrite Hcl, Hsv in H. rewrite Hcl, Hsv. exact H.
    + intros s' h [-> ->]. cbn. destruct (co_initialized s).
      * apply takes_call_bind. intros z. cbn [use at_rest]. rewrite (proj2 (Z.ltb_lt 0 c)) by lia. eexists. split; [reflexivity |].
        apply takes_ret. split; [| done]. exists a, (c - 1). cbn. auto with lia.
      * apply takes_ret. split; [| done]. exists a, c. auto.
  - apply takes_ret. split; [| done]. exists a, c. rewrite Hr. auto.
Qed.

Lemma run_takes acts : forall s h, holds_members s h -> takes (run answer acts s) h (fun s h => holds_members s h).
Proof.
  induction acts as [| a acts IH]; intros s h H; cbn [run]; [by apply takes_ret |].
  eapply takes_bind; [| intros s' h' H'; by apply IH]. destruct a; cbn [act].
  - eapply takes_bind; [by apply start_takes |]. intros [b s'] h' [H' _]. by apply takes_ret.
  - eapply takes_weaken; [by apply stop_takes |]. by intros s' h' [? _].
Qed.
End Proofs.

(** However COM and WASAPI answer, and in whatever order the capture is started and
    stopped: no object is used, released or made anew unless it may be; between the
    calls a capture that runs holds_members its client and its service and one that does not
    holds_members neither, nor anything of an activation but interfaces. *)
Theorem capture_releases answer acts :
  exists calls h, (run answer acts new_capture []).2 = calls /\ uses nothing calls = Some h
    /\ let s := (run answer acts new_capture []).1 in
       client h = running s /\ service h = running s
       /\ handler h = false /\ op h = false /\ enumerator h = false /\ device h = false
       /\ (if co_initialized s then 1 else 0) <= com h.
Proof.
  assert (Hnew : holds_members new_capture nothing) by (exists 0, 0; by split_and!).
  destruct (run_takes answer acts new_capture nothing Hnew []) as (calls & h & Hl & Hu & (a & c & Ha & Hc & Hcl & Hsv & Hh)).
  exists calls, h. split; [done |]. split; [done |]. cbv zeta. by rewrite Hh.
Qed.

(** ** Examples *)

Module Sample.

(** A start that the service refuses leaves COM initialised, and the next one initialises
    it again. *)
Definition refuses (_ : list (Call * Z)) (c : Call) : Z := match c with GetService => -1 | _ => 0 end.

Lemma com_left_initialised :
  let '(s, calls) := run refuses [Start; Stop; Start; Stop] new_capture [] in
  running s = false /\ com <$> uses nothing calls = Some 2.
Proof. vm_compute. auto. Qed.

(** A capture that was stopped still owns the interface of its activation. *)
Lemma interface_left :
  let '(s, calls) := run (fun _ _ => 0) [Start; Stop] new_capture [] in
  running s = false /\ activated <$> uses nothing calls = Some 1.
Proof. vm_compute. auto. Qed.

(** Of three packets, one silent and one empty; the last cannot be read. *)
Example drained :
  let one := S754_finite false 8388608 (-23) in
  drain 480 [mkPacket 0 2 true [] 0 480; mkPacket 0 1 false [one; one] 0 0]
  = ([Delivered (replicate 4 (S754_zero false)) 2; ReleaseBuffer 2; Delivered [one; one] 1; ReleaseBuffer 1], true).
Proof. reflexivity. Qed.
End Sample.
